(* ===== verification/_CoqProject ===== *)
-Q . S2P
Prelude.v
Text.v
Json.v
Sha256.v
Spans.v
Regex.v
Checksums.v
Detectors.v
Segmenter.v
LocalPass.v
Gazetteer.v
Placeholder.v
Storage.v
Rules.v
CachePolicy.v
Allocator.v
Planner.v
Streaming.v
Orchestrator.v
RouteTable.v
RouteGate.v
ContentBlocks.v
Inflight.v
Tokens.v
Profiles.v
Sse.v
ResponsesStream.v
Oracle.v
Egress.v
AuditLog.v
TeamConfig.v
TerminalAudit.v
HookAudit.v
HookData.v
Hook.v
JsonBytes.v
Gate.v
Desanitize.v
Settings.v
CorpNer.v
DualNer.v
Oidc.v
PgTokens.v
Health.v
Boot.v
