(* ===== verification/Prelude.v ===== *)
(** * A verification development for corp-llm-gateway

    The gateway stands between clients and LLM providers.  It refuses every
    route whose body it does not rewrite, replaces personal data and secrets in
    the texts of a request by placeholders such as [[EMAIL_001]], remembers the
    pairs per conversation, puts the originals back into the answer, and writes
    one audit record per request.  This library models that core from the Python
    sources under [src/src/corp_llm_gateway/] and proves what it promises.

    ** Conventions

    A Python [str] is a list of code points ([str], [N]); [bytes] a list of
    numbers below 256; [int] is [Z]; a [float] (scores, clocks) is [Q]; a [dict]
    whose order matters is an association list, one used as a map a [gmap].  An
    exception is [Raise] of the type [result], and [let! x := c in k] runs [c]
    first.  A clock reading is an argument.  What comes from Unicode (case,
    digits, word characters, white space) is the class [Unicode] of Text.v, with
    the instance [ru_unicode] for the witnesses and its laws in [UnicodeLaws].
    Code that runs as several asyncio tasks is a step function on the shared
    state, one step per stretch between two awaits, and its theorems quantify
    over every sequence of steps.

    Loops that are not structural carry fuel, and each has a lemma that the fuel
    given is enough: [free_index_free], [mint_index_free], [chunks_go_cover]; in
    Regex.v a star consumes at least one character per round; [loads_fuel] of
    Json.v is bounded by the text, [visit] of Profiles.v by the depth limit of
    the source, [utf8_go] and [drain_go] of Sse.v by the bytes held, [walk_fuel]
    of AuditLog.v by the depth of the value ([walk_unfold]).

    ** The files, in order

    - Prelude.v (this file): slices, stable sorting by keys, errors, ordered
      dictionaries, loops that may raise, and the tactics [bind_ok] and [py_elem].
    - Text.v: string methods ([strip], [split], [replace], [lower], UTF-8).
    - Json.v: JSON trees, [json.loads] and [json.dumps], with their round trip.
    - Sha256.v: SHA-256, checked on its test vectors.
    - Spans.v: ranges, overlap, and greedy selection of non-overlapping ranges as
      a reference definition.
    - Regex.v: a backtracking matcher with the semantics of [re] for the
      constructs the sources use (groups, lazy and greedy repetition, look-around,
      boundaries, IGNORECASE), with its language and soundness lemmas.
    - Checksums.v and Detectors.v: [detectors/regex_checksum.py].
    - Segmenter.v: [sanitizer/segmenter/].
    - LocalPass.v: [sanitizer/local_pass.py].
    - Gazetteer.v: [rules/gazetteer.py].
    - Placeholder.v: [sanitizer/placeholder.py].
    - Storage.v: [storage/mapping.py] as a class with laws, [storage/in_memory.py]
      as an instance, the key scheme of [storage/redis_store.py].
    - Rules.v: [rules/models.py], [rules/parser.py], [rules/cached.py].
    - CachePolicy.v: [payload/size_threshold.py], [sanitizer/allowlist.py], and
      from [sanitizer/orchestrator.py] the oracle trigger, the Cache A key and the
      policy fingerprint.
    - Allocator.v: [sanitizer/placeholder_allocator.py].
    - Planner.v: [_NonOverlappingSpans], [_rule_matches] and [_plan_replacements]
      of [sanitizer/orchestrator.py].
    - Streaming.v: [StreamingDesanitizer] and [OpenAiToolCallDesanitizer] of
      [sanitizer/streaming.py].
    - Orchestrator.v: [SanitizationOrchestrator] and [_merge_local].
    - RouteTable.v and RouteGate.v: [route_gate/table.py], [route_gate/classify.py].
    - ContentBlocks.v: [sanitizer/content_blocks.py], the walk over message
      bodies in both directions and the scan of what was left.
    - Inflight.v: [route_gate/inflight.py], admission, byte budget, replay of the
      body, tickets.
    - Tokens.v: [tokens/] (models, in-memory store, issuance, middleware) and
      [auth/rbac.py].
    - Profiles.v: [profiles/] and [sanitizer/profile_orchestrator.py].
    - Sse.v and ResponsesStream.v: [SseStreamDesanitizer] and
      [ResponsesStreamDesanitizer] of [sanitizer/streaming.py].
    - Oracle.v: [sanitizer/strategies.py], [sanitizer/engine.py] and the answer
      accessors of [corp_llm/client.py].
    - Egress.v: [sanitizer/dlp_guard.py], [sanitizer/identity_preamble.py],
      [payload/classifier.py], [payload/quota.py], [payload/compression.py].
    - AuditLog.v: [audit/invariants.py], [event.py], [logger.py], [sinks.py] and
      [langfuse_sink.py]; the class [Sink] is the interface the logger writes to.
    - TeamConfig.v: [team_config/] and [audit/retention.py].
    - TerminalAudit.v: [route_gate/terminal_audit.py].
    - HookAudit.v: the audit records of [litellm_hook.py] ([audit],
      [on_request_cancelled] and the tables they share).
    - HookData.v: the request dictionary of [litellm_hook.py]: headers, request id,
      bridges, messages or input, snapshots, tables.
    - Hook.v: [pre_call] of [litellm_hook.py], the pipeline that composes the parts.
    - JsonBytes.v: [json.loads] of bytes (encoding detection, strict UTF-8).
    - Gate.v: [route_gate/middleware.py], the ASGI middleware around [classify] and
      the limiter: its refusals and the check of a complete body.
    - Desanitize.v: [route_gate/desanitize_middleware.py], the machine that restores
      a response on its way out, whole or as events, and taps its usage.
    - Settings.v: [settings.py], [config.py] and [litellm_config.py].
    - CorpNer.v: [corp_ner/client.py] and [detectors/corp_ner.py], the batches of the
      service, its strict answers and the offsets back onto the text.
    - DualNer.v: [detectors/ner_ru.py], [ner_en.py], [dual_ner.py] and [shadow.py].
    - Oidc.v: [tokens/oidc_verifier.py], the cache of keys as a step function and the
      checks on a developer's token.
    - PgTokens.v: [tokens/postgres_store.py], issuance as concurrent transactions.
    - Health.v: [healthz/checks.py] and [healthz/server.py], the probes and the
      issuance route.
    - Boot.v: the boot of [asgi.py] with [route_gate/arm_checks.py] and the probe of
      [pg_session.py], the factories and the choices of [bootstrap.py].

    ** How the parts meet

    A request passes the gate (RouteGate.v) and the limiter (Inflight.v), which
    drains and replays its body.  The hook authenticates it (Tokens.v), resolves
    its team's profile (Profiles.v) and walks its messages (ContentBlocks.v); each
    text goes to [sanitize].  Above the size limit the oversize policy decides.
    Otherwise rules are loaded and matched, Cache A is consulted under a hash of
    everything that decides the outcome, and on a miss the detection cascade
    runs: the segments of the text go to the local detectors, the gazetteer adds
    its terms, the oracle is asked when the trigger says so (Oracle.v), and
    [_merge_local] turns findings into pairs.  [_plan_replacements] chooses
    non-overlapping spans, [apply_spans] writes the text, and the pairs are
    stored.  The allocator gives every original one placeholder per request, and
    the egress guard (Egress.v) scans what leaves.  The answer comes back through
    Streaming.v, Sse.v or ResponsesStream.v, and one audit record is written
    through HookAudit.v or TerminalAudit.v and the gate of AuditLog.v.  The
    orchestrator is proved against the interfaces of its parts: any store with
    [MappingStoreLaws], any rules loader with [LoaderOk], any detectors.

    ** What is proved

    - End to end (Orchestrator.v): what detection keeps does not leave
      unreplaced (C2, [chunked_redacts_findings]); what
      [sanitize] returns, echoed in chunks, streams back as the original text
      (C3); Cache A is transparent (C12);
      an oversize text is never delivered unsanitized outside the opted-in,
      scanned-clean case (C13).
    - The pre-call (Hook.v, HookData.v): an accepted request was authenticated and
      allowed, every element and prompt field that leaves is what the sanitizer made
      of it, and the egress scan of the returned dictionary is clean
      (C1); errors are constants of the source, counted and
      audited but for a call after its ticket was closed, which is only counted
      (C4); on every exit the corporate token is gone
      (C5); the request id is valid and joins the log events
      ([request_id_stable]); the bridge publishes OAuth tokens only
      ([anthropic_bridge_oauth_only]).
    - The response (Desanitize.v): whatever the sequence of messages the start is
      sent once, nothing follows the end ([response_protocol]), and once closed no
      mapping and no byte is held ([response_releases]); a failure of restoration is
      in the record ([restoration_failure_recorded]); a restored stream does not
      depend on the cuts of the chunks (C36), a unary body is
      restored whole or replaced by an error ([unary_whole_or_error]), and the usage
      the gateway asked for itself does not reach the client ([tap_takes_artifacts]).
    - The gate as middleware (Gate.v): a body that reaches the proxy is JSON in
      UTF-8 with no policies of the caller, however the key is spelled, unless it is
      nested past the recursion limit (C35); a refusal is answered once with its status and
      audited ([gate_refusal_answered]).
    - Configuration (Settings.v): what [validate] accepts can sanitize, has no
      conflict of keys, issues tokens within bounds and leaves litellm's debug output
      off (C37); its capacity is within every ceiling and builds a
      limiter (C38).
    - NER: a request to the service keeps its limits (C26), splitting
      into batches does not change the answers ([ner_batching_transparent]), the
      findings cover what the service marked in the normal form (C25),
      and the detector keeps the contract of the local pass (C27); with
      NER required no text passes while an engine is down (C28), and
      the signature tells which engines run (C29).
    - Issuance: refetches of keys are spaced whatever the callers do
      (C30); accepted claims were vetted (C31); from
      accepted settings a verifier is built whose tokens are stored with the user, team
      and subject of the developer (C32); the policy of the tokens holds over any interleaving of
      transactions, and one can always go on (C16); a transaction alone
      does what the in-memory store does (C17); the route answers with a
      token or a code only (C33), within its caps
      (C34).
    - The boot (Boot.v): a process that serves has a valid configuration, forwards
      nothing that must be rewritten before it is armed, and is armed only with the
      guardrail in place and not bypassed ([served_process_safe]); no token is issued
      before the schema was seen current ([issuance_waits_for_schema]); a guardrail that
      is built is never a no-op ([guardrail_never_noop]); what the configuration check
      accepts the factories build ([validated_selectors_build]).
    - Bodies (ContentBlocks.v): no text leaf outside the opaque fields is skipped
      (C11), a body comes back under the inverse walk
      (C10), and the scan reads what the walk rewrites.
    - Streams: whatever the cuts of the answer, the output is that of the whole
      text (C6, C9); SSE blocks and
      Responses fields are restored (C8,
      [responses_field_restored]); a flushed desanitizer is not used again; sequence
      numbers increase.
    - The route gate: default-deny (C7) and exactly the listed
      routes are rewritten ([gate_rewritten_routes]).
    - Placeholders and planning: one placeholder per original and no two originals
      on one placeholder unless rules say so ([alloc_bijection]), none that the
      request already contains ([alloc_avoids_literals]); minting ends with a free
      label (C39); a text rewritten by spans comes back under the reverse
      substitution ([apply_spans_roundtrip]); what was detected is replaced by a
      span at least as long ([plan_covers]), planning never raises, and the
      two-neighbour overlap test is the full one.
    - The oracle: a well-formed answer is recovered by the first strategy that
      fits ([oracle_answer_recovered]) and no empty pair is extracted
      (C40).
    - Admission: the counters of the limiter are exact, bounded and drain to zero
      (C14, C15).
    - Tokens: the cap and interval of issuance hold for any sequence of requests
      (C18); a revoked token is refused after the cache's time
      to live (C19).
    - Profiles: merging is the meet of the layers (C20), expansion
      of extends is sound and raises on cycles (C21), the memo
      tables are transparent ([resolver_memo_transparent]).
    - Audit: the gate accepts a record exactly when nothing forbidden is exposed
      (C22), a guardrail entry carries labels only
      ([guardrail_labels_only]), a serialized event always passes
      ([emit_reaches_sink]); a request has at most one record whatever the
      interleaving (C23, C24), a decided outcome
      stands ([terminal_outcome_stands]), a cancelled request is not lost
      ([cancel_record_survives]).
    - Egress: a key of a known shape is refused ([dlp_blocks_keys]).

    Other theorems of the files state what these build on: detectors, checksums,
    segments, the gazetteer, stores, keys, rules, the retention rules.

    ** What is not modelled

    Log lines and metrics; the transports (HTTP, Redis, the pool and the sessions of
    PostgreSQL), which are what they answer; signatures of tokens (PyJWT is a
    parameter of Oidc.v with its documented promises); the inference of the NER models,
    which are what they find; the command line tools.  Of the ASGI layer the
    gate, the limiter, the terminal audit, the middleware that restores a response, the
    issuance route and the checks of the boot are modelled; the construction of clients
    and pools, the registry of extensions, the shutdown, [serve.py] and the command line
    are not, nor the response objects of LiteLLM, whose dicts are.  The streaming
    theorems are about bracketed placeholders; the bare aliases of the reverse
    substitution are modelled (Placeholder.v) and not covered by a theorem of a
    whole stream. *)

From stdpp Require Export base list gmap strings sorting.
From Stdlib Require Export NArith ZArith QArith Lia ZifyBool.

#[global] Set Default Goal Selector "!".

Declare Scope py_scope.
Delimit Scope py_scope with py.

(** ** Python [str]: a list of Unicode code points *)

Abbreviation str := (list N).

(** UTF-8 decoder for the string literals of this development: a Rocq string
    literal is a byte string, a Python literal is a code-point string. *)
Fixpoint utf8_decode (l : list N) : str :=
  match l with
  | [] => []
  | a :: l1 =>
    if (a <? 128)%N then a :: utf8_decode l1 else
    match l1 with
    | [] => []
    | b :: l2 =>
      if (a <? 224)%N then ((a - 192) * 64 + (b - 128))%N :: utf8_decode l2 else
      match l2 with
      | [] => []
      | c :: l3 =>
        if (a <? 240)%N
        then ((a - 224) * 4096 + (b - 128) * 64 + (c - 128))%N :: utf8_decode l3 else
        match l3 with
        | [] => []
        | d :: l4 => ((a - 240) * 262144 + (b - 128) * 4096 + (c - 128) * 64 + (d - 128))%N
                     :: utf8_decode l4
        end
      end
    end
  end.

Definition str_of_string (s : string) : str :=
  utf8_decode (map Byte.to_N (String.list_byte_of_string s)).

(** [u8 "..."] is the code-point list of the literal, computed when it is read. *)
Notation "'u8' s" :=
  ltac:(let r := eval vm_compute in (str_of_string s%string) in exact r)
  (at level 1, only parsing).

(** One ASCII character of a literal as a code point. *)
Notation "'chr' s" :=
  ltac:(let r := eval vm_compute in (hd 0%N (str_of_string s%string)) in exact r)
  (at level 1, only parsing).

Definition str_eqb (a b : str) : bool := bool_decide (a = b).

Lemma str_eqb_eq a b : str_eqb a b = true <-> a = b.
Proof. unfold str_eqb. apply bool_decide_eq_true. Qed.

Lemma str_eqb_neq a b : str_eqb a b = false <-> a <> b.
Proof. unfold str_eqb. apply bool_decide_eq_false. Qed.

(** [x in xs] for a Python list, tuple or set given as a list. *)
Definition memb {A} `{EqDecision A} (x : A) (l : list A) : bool := bool_decide (x ∈ l).

Lemma memb_true {A} `{EqDecision A} (x : A) l : memb x l = true <-> x ∈ l.
Proof. unfold memb. apply bool_decide_eq_true. Qed.

Lemma memb_false {A} `{EqDecision A} (x : A) l : memb x l = false <-> x ∉ l.
Proof. unfold memb. apply bool_decide_eq_false. Qed.

(** ** Lengths and slices: [len(s)] and [s[a:b]] *)

Definition len {A} (l : list A) : Z := Z.of_nat (length l).

Definition slice_norm (i n : Z) : Z :=
  if (i <? 0)%Z then Z.max 0 (i + n) else Z.min i n.

(** Python's [s[a:b]] with its treatment of negative and out-of-range bounds. *)
Definition slice {A} (s : list A) (a b : Z) : list A :=
  let a' := slice_norm a (len s) in
  let b' := slice_norm b (len s) in
  take (Z.to_nat (b' - a')) (drop (Z.to_nat a') s).

Open Scope Z_scope.

Lemma len_nonneg {A} (l : list A) : 0 <= len l.
Proof. unfold len. lia. Qed.

Lemma len_app {A} (l k : list A) : len (l ++ k) = len l + len k.
Proof. unfold len. rewrite length_app. lia. Qed.

Lemma len_nil {A} : len (@nil A) = 0.
Proof. done. Qed.

Lemma len_cons {A} (x : A) l : len (x :: l) = 1 + len l.
Proof. unfold len. cbn [length]. lia. Qed.

Lemma slice_in_range {A} (s : list A) a b :
  0 <= a -> a <= b -> b <= len s ->
  slice s a b = take (Z.to_nat (b - a)) (drop (Z.to_nat a) s).
Proof.
  intros Ha Hab Hb. unfold slice, slice_norm.
  destruct (Z.ltb_spec a 0); [lia|]. destruct (Z.ltb_spec b 0); [lia|].
  f_equal; [lia|f_equal; lia].
Qed.

Lemma len_slice {A} (s : list A) a b :
  0 <= a -> a <= b -> b <= len s -> len (slice s a b) = b - a.
Proof.
  intros. rewrite slice_in_range by done. unfold len in *.
  rewrite length_take, length_drop. lia.
Qed.

Lemma slice_full {A} (s : list A) : slice s 0 (len s) = s.
Proof.
  pose proof (len_nonneg s).
  rewrite slice_in_range by lia. cbn [Z.to_nat].
  rewrite drop_0. unfold len. rewrite take_ge by lia. done.
Qed.

Lemma slice_empty {A} (s : list A) a : 0 <= a <= len s -> slice s a a = [].
Proof. intros. rewrite slice_in_range by lia. rewrite Z.sub_diag. done. Qed.

Lemma slice_join {A} (s : list A) a b c :
  0 <= a -> a <= b -> b <= c -> c <= len s ->
  slice s a b ++ slice s b c = slice s a c.
Proof.
  intros. rewrite !slice_in_range by lia.
  replace (Z.to_nat (c - a)) with (Z.to_nat (b - a) + Z.to_nat (c - b))%nat by lia.
  replace (Z.to_nat b) with (Z.to_nat a + Z.to_nat (b - a))%nat by lia.
  rewrite <- drop_drop. apply take_take_drop.
Qed.

Lemma slice_split {A} (s : list A) a b c :
  0 <= a -> a <= b -> b <= c -> c <= len s ->
  slice s a c = slice s a b ++ slice s b c.
Proof. intros. by rewrite slice_join. Qed.

(** A slice of a slice, offsets relative to the outer slice. *)
Lemma slice_slice {A} (s : list A) a b i j :
  0 <= a -> a <= b -> b <= len s -> 0 <= i -> i <= j -> j <= b - a ->
  slice (slice s a b) i j = slice s (a + i) (a + j).
Proof.
  intros. rewrite (slice_in_range (slice s a b)) by (rewrite ?len_slice; lia).
  rewrite !slice_in_range by lia.
  rewrite skipn_firstn_comm, take_take, drop_drop. f_equal; [lia|f_equal; lia].
Qed.

(** ** [sorted]: a stable sort

    Python's [sorted] is stable.  The sort below inserts from the right, so
    equal elements keep their order. *)

Section Sort.
Context {A : Type} (leb : A -> A -> bool).

Fixpoint insort (x : A) (l : list A) : list A :=
  match l with
  | [] => [x]
  | y :: l' => if leb x y then x :: y :: l' else y :: insort x l'
  end.

Fixpoint py_sorted (l : list A) : list A :=
  match l with
  | [] => []
  | x :: l' => insort x (py_sorted l')
  end.

Lemma insort_perm x l : insort x l ≡ₚ x :: l.
Proof.
  induction l as [|y l IH]; cbn; [done|].
  destruct (leb x y); [done|]. rewrite IH. apply Permutation_swap.
Qed.

Lemma py_sorted_perm l : py_sorted l ≡ₚ l.
Proof. induction l as [|x l IH]; cbn; [done|]. by rewrite insort_perm, IH. Qed.

Lemma elem_of_py_sorted x l : x ∈ py_sorted l <-> x ∈ l.
Proof. by rewrite py_sorted_perm. Qed.

Lemma length_py_sorted l : length (py_sorted l) = length l.
Proof. by rewrite py_sorted_perm. Qed.

Context (leb_total : forall x y, leb x y = true \/ leb y x = true).
Context (leb_trans : forall x y z, leb x y = true -> leb y z = true -> leb x z = true).

Let le x y := leb x y = true.

Lemma insort_sorted x l : StronglySorted le l -> StronglySorted le (insort x l).
Proof.
  induction 1 as [|y l Hl IH Hy]; cbn; [repeat constructor|].
  destruct (leb x y) eqn:Hxy.
  - constructor; [by constructor|]. constructor; [done|].
    eapply Forall_impl; [done|]. intros z. by apply leb_trans.
  - constructor; [done|]. rewrite insort_perm. constructor; [|done].
    by destruct (leb_total x y) as [?|?]; [congruence|].
Qed.

Lemma py_sorted_sorted l : StronglySorted le (py_sorted l).
Proof. induction l; cbn; [constructor|by apply insort_sorted]. Qed.

Lemma insort_filter (p : A -> bool) x l :
  StronglySorted le l ->
  List.filter p (insort x l) =
  if p x then insort x (List.filter p l) else List.filter p l.
Proof.
  induction 1 as [|y l Hl IH Hy]; cbn; [by destruct (p x)|].
  destruct (leb x y) eqn:Hxy; cbn.
  - destruct (p x) eqn:Hpx; [|done].
    destruct (List.filter p (y :: l)) as [|z zs] eqn:Hf; cbn in Hf; rewrite Hf; [done|].
    cbn. enough (leb x z = true) as -> by done.
    destruct (p y); [congruence|].
    apply (leb_trans _ y); [done|].
    rewrite Forall_forall in Hy. apply Hy. apply list_elem_of_In.
    apply (filter_In p). rewrite Hf. by left.
  - destruct (p y) eqn:Hpy; rewrite IH; [|done].
    destruct (p x); [|done]. cbn. by rewrite Hxy.
Qed.

(** Stability: sorting commutes with dropping elements. *)
Lemma py_sorted_filter (p : A -> bool) l :
  List.filter p (py_sorted l) = py_sorted (List.filter p l).
Proof.
  induction l as [|x l IH]; cbn; [done|].
  rewrite insort_filter by apply py_sorted_sorted.
  destruct (p x); cbn; by rewrite IH.
Qed.

Lemma py_sorted_id l : StronglySorted le l -> py_sorted l = l.
Proof.
  induction 1 as [|x l Hl IH Hx]; cbn; [done|]. rewrite IH.
  destruct l as [|y l]; [done|]. cbn. inversion Hx; subst. unfold le in *.
  by rewrite H1.
Qed.
End Sort.

Lemma insort_ext {A} (f g : A -> A -> bool) x l :
  (forall y, y ∈ l -> f x y = g x y) -> insort f x l = insort g x l.
Proof.
  induction l as [|y l IH]; intros H; cbn; [done|].
  rewrite H by set_solver. rewrite IH by set_solver. done.
Qed.

Lemma py_sorted_ext {A} (f g : A -> A -> bool) l :
  (forall x y, x ∈ l -> y ∈ l -> f x y = g x y) -> py_sorted f l = py_sorted g l.
Proof.
  induction l as [|x l IH]; intros H; cbn; [done|].
  rewrite IH by set_solver. apply insort_ext. intros y.
  rewrite elem_of_py_sorted. set_solver.
Qed.

Lemma py_sorted_fmap {A B} (h : B -> A) (f : A -> A -> bool) (g : B -> B -> bool) l :
  (forall x y, x ∈ l -> y ∈ l -> f (h x) (h y) = g x y) ->
  py_sorted f (map h l) = map h (py_sorted g l).
Proof.
  induction l as [|x l IH]; intros H; cbn; [done|].
  rewrite IH by set_solver.
  assert (forall y, y ∈ py_sorted g l -> f (h x) (h y) = g x y) as Hx.
  { intros y. rewrite elem_of_py_sorted. set_solver. }
  clear H IH. induction (py_sorted g l) as [|y k IHk]; cbn; [done|].
  rewrite Hx by set_solver. destruct (g x y); cbn; [done|].
  f_equal. apply IHk. set_solver.
Qed.

(** *** Sort keys: Python tuples of numbers, compared lexicographically *)

Fixpoint lex_leb (a b : list Q) : bool :=
  match a, b with
  | [], _ => true
  | _ :: _, [] => false
  | x :: a', y :: b' =>
    match (x ?= y)%Q with Lt => true | Gt => false | Eq => lex_leb a' b' end
  end.

Definition zk (z : Z) : Q := inject_Z z.

Definition sort_on {A} (key : A -> list Q) (l : list A) : list A :=
  py_sorted (fun x y => lex_leb (key x) (key y)) l.

Lemma lex_leb_total a b : lex_leb a b = true \/ lex_leb b a = true.
Proof.
  revert b. induction a as [|x a IH]; intros [|y b]; cbn; auto.
  rewrite <- (Qcompare_antisym x y). destruct (x ?= y)%Q; cbn; auto.
Qed.

Lemma lex_leb_trans a b c : lex_leb a b = true -> lex_leb b c = true -> lex_leb a c = true.
Proof.
  revert b c. induction a as [|x a IH]; intros [|y b] [|z c]; cbn; try done.
  destruct (Qcompare_spec x y) as [Hxy|Hxy|Hxy];
    destruct (Qcompare_spec y z) as [Hyz|Hyz|Hyz];
    destruct (Qcompare_spec x z) as [Hxz|Hxz|Hxz]; try done;
    try (intros; exfalso; revert Hxy Hyz Hxz; unfold Qeq, Qlt; nia); eauto.
Qed.

Section SortOn.
Context {A : Type} (key : A -> list Q).

Lemma sort_on_perm l : sort_on key l ≡ₚ l.
Proof. apply py_sorted_perm. Qed.

Lemma elem_of_sort_on x l : x ∈ sort_on key l <-> x ∈ l.
Proof. apply elem_of_py_sorted. Qed.

Lemma sort_on_sorted l :
  StronglySorted (fun x y => lex_leb (key x) (key y) = true) (sort_on key l).
Proof. apply py_sorted_sorted; eauto using lex_leb_total, lex_leb_trans. Qed.

Lemma sort_on_filter p l : List.filter p (sort_on key l) = sort_on key (List.filter p l).
Proof. apply py_sorted_filter; eauto using lex_leb_total, lex_leb_trans. Qed.

Lemma sort_on_id l :
  StronglySorted (fun x y => lex_leb (key x) (key y) = true) l -> sort_on key l = l.
Proof. apply py_sorted_id. Qed.
End SortOn.

Lemma zk_compare a b : (zk a ?= zk b)%Q = (a ?= b).
Proof. unfold Qcompare. cbn. by rewrite !Z.mul_1_r. Qed.

Lemma lex_leb_zk a b k l :
  lex_leb (zk a :: k) (zk b :: l) =
  match a ?= b with Lt => true | Gt => false | Eq => lex_leb k l end.
Proof. cbn [lex_leb]. by rewrite zk_compare. Qed.

(** ** Raised exceptions as values *)

Inductive result (E A : Type) : Type :=
| Ok (a : A)
| Raise (e : E).
Arguments Ok {E A} a.
Arguments Raise {E A} e.

Definition rbind {E A B} (c : result E A) (k : A -> result E B) : result E B :=
  match c with Ok a => k a | Raise e => Raise e end.

Notation "'let!' x ':=' c 'in' k" := (rbind c (fun x => k))
  (at level 10, x pattern, k at level 200) : py_scope.

Definition is_ok {E A} (r : result E A) : bool :=
  match r with Ok _ => true | Raise _ => false end.

Lemma rbind_ok {E A B} (c : result E A) (k : A -> result E B) b :
  rbind c k = Ok b <-> exists a, c = Ok a /\ k a = Ok b.
Proof. destruct c; cbn; naive_solver. Qed.

Lemma ok_inj {E A} (a b : A) : @Ok E A a = Ok b -> a = b.
Proof. congruence. Qed.

(** One step of a run that returned: [H : (let! x := c in k) = Ok b] becomes
    [E : c = Ok x] and [H : k = Ok b]. *)
Tactic Notation "bind_ok" ident(H) "as" ident(x) ident(E) := apply rbind_ok in H as (x & E & H).

(** Left-to-right loop whose body may raise. *)
Fixpoint rfold {E A B} (f : B -> A -> result E B) (b : B) (l : list A) : result E B :=
  match l with
  | [] => Ok b
  | x :: l' => rbind (f b x) (fun b' => rfold f b' l')
  end.

Lemma rfold_app {E A B} (f : B -> A -> result E B) b l k :
  rfold f b (l ++ k) = rbind (rfold f b l) (fun b' => rfold f b' k).
Proof.
  revert b. induction l as [|x l IH]; intros b; cbn; [done|].
  destruct (f b x); cbn; [apply IH|done].
Qed.

(** A fold keeps an invariant of its steps. *)
Lemma rfold_inv {E A B} (f : B -> A -> result E B) (P : B -> Prop) b l r :
  P b -> (forall b x b', x ∈ l -> P b -> f b x = Ok b' -> P b') -> rfold f b l = Ok r -> P r.
Proof.
  revert b. induction l as [|x l IH]; cbn [rfold]; intros b Hb Hf Hr; [by inversion Hr; subst|].
  bind_ok Hr as b1 E1. apply (IH b1); [|intros; eapply Hf; [by right|..]; done|done].
  apply (Hf b x b1); [by left|done..].
Qed.

(** A fold raises when one of its steps does. *)
Lemma rfold_raise {E A B} (f : B -> A -> result E B) b l e :
  rfold f b l = Raise e -> exists b' x, x ∈ l /\ f b' x = Raise e.
Proof.
  revert b. induction l as [|x l IH]; cbn [rfold]; intros b Hr; [done|].
  destruct (f b x) as [b1|e1] eqn:E1; cbn [rbind] in Hr.
  - destruct (IH _ Hr) as (b' & y & Hy & Ey). exists b', y. split; [by right|done].
  - simplify_eq. exists b, x. split; [by left|done].
Qed.

(** ** Insertion-ordered dictionaries

    A Python [dict] whose iteration order matters: an association list with
    pairwise distinct keys, in insertion order. *)

Section Dict.
Context {K V : Type} `{EqDecision K}.

Fixpoint dget (k : K) (d : list (K * V)) : option V :=
  match d with
  | [] => None
  | (k', v) :: d' => if decide (k = k') then Some v else dget k d'
  end.

(** [d[k] = v]: in place when the key is present, else appended. *)
Fixpoint dset (k : K) (v : V) (d : list (K * V)) : list (K * V) :=
  match d with
  | [] => [(k, v)]
  | (k', v') :: d' => if decide (k = k') then (k', v) :: d' else (k', v') :: dset k v d'
  end.

(** [d.setdefault(k, v)]. *)
Definition dsetdefault (k : K) (v : V) (d : list (K * V)) : list (K * V) :=
  match dget k d with Some _ => d | None => dset k v d end.

(** [d.pop(k, None)] and [del d[k]] on a present key. *)
Fixpoint ddel (k : K) (d : list (K * V)) : list (K * V) :=
  match d with
  | [] => []
  | (k', v') :: d' => if decide (k = k') then d' else (k', v') :: ddel k d'
  end.

Definition dkeys (d : list (K * V)) : list K := map fst d.

(** [dict(pairs)]: later pairs overwrite earlier ones in place. *)
Definition dict_of (pairs : list (K * V)) : list (K * V) :=
  foldl (fun d p => dset p.1 p.2 d) [] pairs.

Lemma dget_dset_eq k v d : dget k (dset k v d) = Some v.
Proof. induction d as [|[k' v'] d IH]; cbn; repeat (case_decide; cbn); try done. Qed.

Lemma dget_dset_ne k k' v d : k <> k' -> dget k (dset k' v d) = dget k d.
Proof.
  intros Hne. induction d as [|[k2 v2] d IH]; cbn; repeat (case_decide; cbn); congruence.
Qed.

Lemma dget_dset k k' v d :
  dget k (dset k' v d) = if decide (k = k') then Some v else dget k d.
Proof. case_decide; subst; [apply dget_dset_eq|by apply dget_dset_ne]. Qed.

Lemma dget_dsetdefault k k' v d :
  dget k (dsetdefault k' v d) =
  match dget k d with Some w => Some w | None => if decide (k = k') then Some v else None end.
Proof.
  unfold dsetdefault. destruct (dget k' d) eqn:H.
  - destruct (dget k d) eqn:Hk; [done|]. case_decide; congruence.
  - rewrite dget_dset. case_decide; subst; [by rewrite H|by destruct (dget k d)].
Qed.

(** Defaults taken one after the other: the first value of a key stays. *)
Lemma dget_setdefaults k l d :
  dget k (foldl (fun m (e : K * V) => dsetdefault e.1 e.2 m) d l) =
  match dget k d with Some v => Some v | None => dget k l end.
Proof.
  revert d. induction l as [|[k' v'] l IH]; intros d; cbn [foldl dget]; [by destruct (dget k d)|].
  rewrite IH, dget_dsetdefault. cbn [fst snd]. destruct (dget k d) as [v|]; [by repeat case_decide|].
  by repeat case_decide.
Qed.

Lemma dget_app k (l l' : list (K * V)) : dget k (l ++ l') = match dget k l with Some v => Some v | None => dget k l' end.
Proof. induction l as [|[k' v'] l IH]; cbn [dget app]; [done|]. by case_decide. Qed.

Lemma dget_elem k v d : dget k d = Some v -> (k, v) ∈ d.
Proof.
  induction d as [|[k' v'] d IH]; cbn; [done|]. case_decide; intros; simplify_eq; set_solver.
Qed.

Lemma dget_None k d : dget k d = None <-> k ∉ dkeys d.
Proof.
  induction d as [|[k' v'] d IH]; cbn; [set_solver|]. case_decide; subst; set_solver.
Qed.

Lemma elem_dget k v d : NoDup (dkeys d) -> (k, v) ∈ d -> dget k d = Some v.
Proof.
  unfold dkeys. induction d as [|[k' v'] d IH]; cbn; [set_solver|].
  intros [Hk Hnd]%NoDup_cons [?|?]%elem_of_cons; simplify_eq; case_decide; subst; eauto; try done.
  exfalso. apply Hk. apply (list_elem_of_fmap_2 fst) in H. done.
Qed.

Lemma dkeys_dset k v d :
  dkeys (dset k v d) = if decide (k ∈ dkeys d) then dkeys d else dkeys d ++ [k].
Proof.
  unfold dkeys. induction d as [|[k' v'] d IH]; cbn; [done|].
  destruct (decide (k = k')) as [->|Hne]; cbn.
  - rewrite decide_True; [done|set_solver].
  - rewrite IH. destruct (decide (k ∈ map fst d)), (decide (k ∈ k' :: map fst d));
      [done|set_solver|set_solver|done].
Qed.

Lemma dset_NoDup k v d : NoDup (dkeys d) -> NoDup (dkeys (dset k v d)).
Proof.
  rewrite dkeys_dset. case_decide; [done|]. intros.
  apply NoDup_app. split_and!; [done|set_solver|apply NoDup_singleton].
Qed.

Lemma dset_dset k v w d : dset k v (dset k w d) = dset k v d.
Proof.
  induction d as [|[k' v'] d IH]; cbn; [by rewrite decide_True|]. destruct (decide (k = k')) as [->|Hne]; cbn.
  - by rewrite decide_True.
  - rewrite decide_False by done. by rewrite IH.
Qed.

Lemma dset_id k v d : dget k d = Some v -> dset k v d = d.
Proof.
  induction d as [|[k' v'] d IH]; cbn; [done|]. case_decide; [by intros [= ->]|]. intros Hd. by rewrite IH.
Qed.

Lemma dset_fresh k v d : dget k d = None -> dset k v d = d ++ [(k, v)].
Proof.
  induction d as [|[k' v'] d IH]; cbn; [done|]. case_decide; [done|]. intros Hd. by rewrite IH.
Qed.

(** Assignments to two keys that are present can be swapped. *)
Lemma dset_comm k1 k2 v1 v2 d :
  k1 <> k2 -> dget k1 d <> None -> dset k1 v1 (dset k2 v2 d) = dset k2 v2 (dset k1 v1 d).
Proof.
  intros Hne. induction d as [|[k' v'] d IH]; cbn; [done|]. intros Hd.
  destruct (decide (k1 = k')) as [E1|E1], (decide (k2 = k')) as [E2|E2]; cbn; try congruence.
  - rewrite decide_True by done. by rewrite decide_False by done.
  - rewrite decide_False by done. by rewrite decide_True by done.
  - rewrite !decide_False by done. by rewrite IH.
Qed.

Lemma dget_ddel_eq k d : NoDup (dkeys d) -> dget k (ddel k d) = None.
Proof.
  unfold dkeys. induction d as [|[k' v'] d IH]; cbn; [done|].
  intros [Hk Hnd]%NoDup_cons. case_decide; subst; [by apply dget_None|].
  cbn. rewrite decide_False by done. auto.
Qed.

Lemma dget_ddel_ne k k' d : k <> k' -> dget k (ddel k' d) = dget k d.
Proof.
  intros. induction d as [|[k2 v2] d IH]; cbn; [done|].
  case_decide; subst; cbn; [by rewrite decide_False by done|]. by rewrite IH.
Qed.
End Dict.

(** ** Filters *)

Lemma elem_of_lfilter {A} (p : A -> bool) x l : x ∈ List.filter p l <-> x ∈ l /\ p x = true.
Proof. by rewrite !list_elem_of_In, filter_In. Qed.

Lemma filter_map_swap {A B} (f : A -> B) (p : B -> bool) l :
  List.filter p (map f l) = map f (List.filter (fun x => p (f x)) l).
Proof. induction l as [|x l IH]; cbn; [done|]. destruct (p (f x)); cbn; by rewrite IH. Qed.

Lemma filter_filter_and {A} (p q : A -> bool) l :
  List.filter p (List.filter q l) = List.filter (fun x => q x && p x) l.
Proof.
  induction l as [|x l IH]; cbn; [done|]. destruct (q x); cbn; [|done]. by destruct (p x); rewrite IH.
Qed.

Lemma filter_all_true {A} (p : A -> bool) l : (forall x, x ∈ l -> p x = true) -> List.filter p l = l.
Proof. induction l as [|x l IH]; cbn; [done|]. intros H. rewrite (H x), IH by set_solver. done. Qed.

Lemma filter_all_false {A} (p : A -> bool) l : (forall x, x ∈ l -> p x = false) -> List.filter p l = [].
Proof. induction l as [|x l IH]; cbn; [done|]. intros H. rewrite (H x), IH by set_solver. done. Qed.

(** ** Loops that may raise *)

(** [for x in l: out.extend(f(x))], where [f] may raise ([None]). *)
Fixpoint collect {A B} (f : A -> option (list B)) (l : list A) : option (list B) :=
  match l with
  | [] => Some []
  | x :: l' => match f x, collect f l' with
               | Some ys, Some rest => Some (ys ++ rest)
               | _, _ => None
               end
  end.

Lemma collect_total {A B} (f : A -> option (list B)) (P : B -> Prop) l :
  (forall x, x ∈ l -> exists ys, f x = Some ys /\ Forall P ys) ->
  exists ys, collect f l = Some ys /\ Forall P ys.
Proof.
  induction l as [|x l IH]; intros H; cbn; [by exists []|].
  destruct (H x) as (ys & -> & Hy); [by left|].
  destruct IH as (rest & -> & Hr); [intros z Hz; apply H; by right|].
  exists (ys ++ rest). split; [done|]. by apply Forall_app.
Qed.

Lemma collect_elem {A B} (f : A -> option (list B)) l out y :
  collect f l = Some out -> (y ∈ out <-> exists x ys, x ∈ l /\ f x = Some ys /\ y ∈ ys).
Proof.
  revert out. induction l as [|x l IH]; intros out; cbn; [intros [= <-]; set_solver|].
  destruct (f x) as [ys|] eqn:E; [|done]. destruct (collect f l) as [rest|]; [|done].
  intros [= <-]. rewrite elem_of_app, (IH rest eq_refl). split.
  - intros [Hy|(z & zs & Hz & Ez & Hy)]; [exists x, ys; set_solver|exists z, zs; set_solver].
  - intros (z & zs & [->|Hz]%elem_of_cons & Ez & Hy); [left; congruence|right; eauto].
Qed.

Lemma elem_of_rev_iff {A} (x : A) l : x ∈ rev l <-> x ∈ l.
Proof. by rewrite !list_elem_of_In, <- in_rev. Qed.

Lemma ddel_NoDup {K V} `{EqDecision K} (k : K) (d : list (K * V)) :
  NoDup (dkeys d) -> NoDup (dkeys (ddel k d)) /\ k ∉ dkeys (ddel k d).
Proof.
  intros Hn. split; [|by apply dget_None, dget_ddel_eq].
  assert (dkeys (ddel k d) `sublist_of` dkeys d) as Hs.
  { clear. induction d as [|[k' v] d IH]; cbn [ddel]; [done|]. case_decide; cbn [dkeys map fst]; by constructor. }
  by eapply sublist_NoDup.
Qed.

Lemma dset_Forall {K V} `{EqDecision K} (P : K * V -> Prop) k v (d : list (K * V)) :
  P (k, v) -> Forall P d -> Forall P (dset k v d).
Proof.
  intros Hp. induction 1 as [|[k' v'] d H Hd IH]; cbn; [by repeat constructor|].
  case_decide; constructor; auto. by subst.
Qed.

Lemma dsetdefault_Forall {K V} `{EqDecision K} (P : K * V -> Prop) k v (d : list (K * V)) :
  P (k, v) -> Forall P d -> Forall P (dsetdefault k v d).
Proof. intros Hp Hd. unfold dsetdefault. destruct (dget k d); [done|]. by apply dset_Forall. Qed.

(** ** Automation *)

(** Membership and boolean tests read as propositions: [py_elem] rewrites the
    goal and [py_elem in H] a hypothesis. *)
Create Rewrite HintDb py_elem.
#[export] Hint Rewrite @elem_of_lfilter @elem_of_sort_on @elem_of_py_sorted @elem_of_rev_iff @elem_of_app
  @elem_of_cons @list_elem_of_singleton : py_elem.
#[export] Hint Rewrite str_eqb_eq str_eqb_neq @memb_true @memb_false andb_true_iff orb_true_iff
  negb_true_iff negb_false_iff : py_elem.
Tactic Notation "py_elem" := autorewrite with py_elem.
Tactic Notation "py_elem" "in" ident(H) := autorewrite with py_elem in H.

(** Facts about lengths that [eauto with py_len] may use. *)
Create HintDb py_len discriminated.
Create Rewrite HintDb py_len.
#[export] Hint Resolve len_nonneg : py_len.
#[export] Hint Rewrite @len_app @len_nil @len_cons : py_len.
