(* ===== verification/Text.v ===== *)
(** * Python string operations

    The [str] methods the gateway uses, on code-point lists: prefix and
    substring tests, [str.replace], [re.finditer] of an escaped literal,
    [strip]/[split]/[splitlines], the [:03d] format and UTF-8 encoding.  The
    parts that depend on the interpreter's Unicode database ([\w], [\d],
    [isdigit], [lower], case-insensitive matching) are the class [Unicode]. *)

From Stdlib Require Import DecimalN DecimalFacts.
From S2P Require Import Prelude.

(** ** The Unicode database of the interpreter *)

Class Unicode := {
  u_word : N -> bool;            (* [\w] *)
  u_alnum : N -> bool;           (* [str.isalnum] of one character *)
  u_digit : N -> bool;           (* [str.isdigit] of one character *)
  u_decimal : N -> option Z;     (* [\d], and [int(c)] when it matches *)
  u_lower : str -> str;          (* [str.lower] *)
  u_upper : str -> str;          (* [str.upper] *)
  u_variants : N -> list N;      (* characters a literal matches under IGNORECASE *)
}.

Definition is_ascii (c : N) : bool := (c <? 128)%N.

Definition in_range (lo hi c : N) : bool := ((lo <=? c) && (c <=? hi))%N.

Definition ascii_upper_p (c : N) : bool := in_range 65 90 c.
Definition ascii_lower_p (c : N) : bool := in_range 97 122 c.
Definition ascii_digit_p (c : N) : bool := in_range 48 57 c.
Definition ascii_alnum_p (c : N) : bool :=
  ascii_upper_p c || ascii_lower_p c || ascii_digit_p c.

Definition ascii_lower1 (c : N) : N := if ascii_upper_p c then (c + 32)%N else c.
Definition ascii_upper1 (c : N) : N := if ascii_lower_p c then (c - 32)%N else c.

(** What the gateway relies on of the database; documented behaviour of
    [unicodedata] on the ASCII range. *)
Class UnicodeLaws (U : Unicode) : Prop := {
  variants_refl : forall c, c ∈ u_variants c;
  word_ascii : forall c, is_ascii c = true ->
    u_word c = ascii_alnum_p c || (c =? 95)%N;
  decimal_ascii : forall c, is_ascii c = true ->
    u_decimal c = if ascii_digit_p c then Some (Z.of_N c - 48) else None;
  decimal_range : forall c d, u_decimal c = Some d -> 0 <= d <= 9;
  decimal_digit : forall c d, u_decimal c = Some d -> u_digit c = true;
  digit_ascii : forall c, is_ascii c = true -> u_digit c = ascii_digit_p c;
  lower_ascii : forall s, forallb is_ascii s = true -> u_lower s = map ascii_lower1 s;
  upper_ascii : forall s, forallb is_ascii s = true -> u_upper s = map ascii_upper1 s;
}.

(** A database for the ASCII and Russian alphabets: the instance the concrete
    examples are evaluated with. *)
Definition cyr_upper_p (c : N) : bool := in_range 1040 1071 c || (c =? 1025)%N.
Definition cyr_lower_p (c : N) : bool := in_range 1072 1103 c || (c =? 1105)%N.
Definition ru_lower1 (c : N) : N :=
  if ascii_upper_p c || in_range 1040 1071 c then (c + 32)%N
  else if (c =? 1025)%N then 1105%N else c.
Definition ru_upper1 (c : N) : N :=
  if ascii_lower_p c || in_range 1072 1103 c then (c - 32)%N
  else if (c =? 1105)%N then 1025%N else c.

Definition ru_unicode : Unicode := {|
  u_word c := ascii_alnum_p c || (c =? 95)%N || cyr_upper_p c || cyr_lower_p c;
  u_alnum c := ascii_alnum_p c || cyr_upper_p c || cyr_lower_p c;
  u_digit := ascii_digit_p;
  u_decimal c := if ascii_digit_p c then Some (Z.of_N c - 48) else None;
  u_lower := map ru_lower1;
  u_upper := map ru_upper1;
  u_variants c := [c; ru_lower1 c; ru_upper1 c];
|}.

(** White space of [str.isspace], [str.strip()] and [\s]. *)
Definition is_space (c : N) : bool :=
  in_range 9 13 c || in_range 28 32 c || (c =? 133)%N || (c =? 160)%N || (c =? 5760)%N ||
  in_range 8192 8202 c || (c =? 8232)%N || (c =? 8233)%N || (c =? 8239)%N ||
  (c =? 8287)%N || (c =? 12288)%N.

(** Line boundaries of [str.splitlines]. *)
Definition is_linebreak (c : N) : bool :=
  in_range 10 13 c || in_range 28 30 c || (c =? 133)%N || (c =? 8232)%N || (c =? 8233)%N.

(** ** Prefixes, substrings, occurrences *)

(** [s.startswith(p)], up to a comparison [eqc] of characters. *)
Fixpoint prefix_by (eqc : N -> N -> bool) (p s : str) : bool :=
  match p, s with
  | [], _ => true
  | _ :: _, [] => false
  | a :: p', b :: s' => eqc a b && prefix_by eqc p' s'
  end.

Definition starts_with (s p : str) : bool := prefix_by N.eqb p s.

(** Case-insensitive comparison of a pattern character with a text character. *)
Definition ci_eqb `{Unicode} (a b : N) : bool := existsb (N.eqb a) (u_variants b).

(** Starts of the non-overlapping matches of a test that looks at [n]
    characters, left to right: [skip] characters belong to the last match. *)
Fixpoint scan (test : str -> bool) (n : nat) (pos : Z) (skip : nat) (s : str) : list Z :=
  match s with
  | [] => []
  | _ :: s' =>
    match skip with
    | S k => scan test n (pos + 1) k s'
    | O => if test s then pos :: scan test n (pos + 1) (n - 1) s'
           else scan test n (pos + 1) 0 s'
    end
  end.

(** [[m.span() for m in re.finditer(re.escape(lit), text)]]; an empty literal
    matches at every position. *)
Definition literal_spans (eqc : N -> N -> bool) (lit text : str) : list (Z * Z) :=
  match lit with
  | [] => map (fun p => (Z.of_nat p, Z.of_nat p)) (seq 0 (S (length text)))
  | _ => map (fun p => (p, p + len lit)) (scan (prefix_by eqc lit) (length lit) 0 0 text)
  end.

Definition find_literal (lit text : str) : list (Z * Z) := literal_spans N.eqb lit text.

Definition find_literal_ci `{Unicode} (lit text : str) : list (Z * Z) :=
  literal_spans ci_eqb lit text.

(** [sub in s]. *)
Fixpoint contains (s sub : str) : bool :=
  starts_with s sub || match s with [] => false | _ :: s' => contains s' sub end.

(** [text.replace(old, new)]. *)
Fixpoint replace_go (old new : str) (skip : nat) (s : str) : str :=
  match s with
  | [] => []
  | c :: s' =>
    match skip with
    | S k => replace_go old new k s'
    | O => if starts_with s old then new ++ replace_go old new (length old - 1) s'
           else c :: replace_go old new 0 s'
    end
  end.

Definition py_replace (text old new : str) : str :=
  match old with
  | [] => concat (map (fun c => new ++ [c]) text) ++ new
  | _ => replace_go old new 0 text
  end.

(** ** Trimming and splitting *)

Fixpoint lstrip_by (p : N -> bool) (s : str) : str :=
  match s with [] => [] | c :: s' => if p c then lstrip_by p s' else s end.
Definition rstrip_by (p : N -> bool) (s : str) : str := rev (lstrip_by p (rev s)).
Definition lstrip (s : str) : str := lstrip_by is_space s.
Definition rstrip (s : str) : str := rstrip_by is_space s.
Definition strip (s : str) : str := rstrip (lstrip s).

(** [s.split(sep)] for a one-character separator. *)
Fixpoint split_char (sep : N) (s : str) : list str :=
  match s with
  | [] => [[]]
  | c :: s' =>
    if (c =? sep)%N then [] :: split_char sep s' else
    match split_char sep s' with [] => [[c]] | w :: ws => (c :: w) :: ws end
  end.

(** [re.split("[...]", s)] for a class of single characters. *)
Fixpoint split_by (p : N -> bool) (s : str) : list str :=
  match s with
  | [] => [[]]
  | c :: s' =>
    if p c then [] :: split_by p s' else
    match split_by p s' with [] => [[c]] | w :: ws => (c :: w) :: ws end
  end.

(** [s.endswith(p)]. *)
Definition ends_with (s p : str) : bool := starts_with (rev s) (rev p).

(** [s.split()]: maximal runs of non-space characters. *)
Fixpoint split_ws_go (cur : str) (s : str) : list str :=
  match s with
  | [] => match cur with [] => [] | _ => [rev cur] end
  | c :: s' =>
    if is_space c then match cur with [] => split_ws_go [] s' | _ => rev cur :: split_ws_go [] s' end
    else split_ws_go (c :: cur) s'
  end.
Definition split_ws (s : str) : list str := split_ws_go [] s.

(** [s.splitlines()]: [\r\n] is one boundary, a final boundary ends the last line. *)
Fixpoint splitlines_go (cur : str) (started : bool) (s : str) : list str :=
  match s with
  | [] => if started then [rev cur] else []
  | c :: s' =>
    if is_linebreak c then
      match c, s' with
      | 13%N, 10%N :: s'' => rev cur :: splitlines_go [] false s''
      | _, _ => rev cur :: splitlines_go [] false s'
      end
    else splitlines_go (c :: cur) true s'
  end.
Definition splitlines (s : str) : list str := splitlines_go [] false s.

(** [sep.join(parts)]. *)
Fixpoint join (sep : str) (parts : list str) : str :=
  match parts with
  | [] => []
  | [p] => p
  | p :: ps => p ++ sep ++ join sep ps
  end.

(** ** Decimal numbers *)

Fixpoint str_of_uint (d : Decimal.uint) : str :=
  match d with
  | Decimal.Nil => []
  | Decimal.D0 d => 48%N :: str_of_uint d
  | Decimal.D1 d => 49%N :: str_of_uint d
  | Decimal.D2 d => 50%N :: str_of_uint d
  | Decimal.D3 d => 51%N :: str_of_uint d
  | Decimal.D4 d => 52%N :: str_of_uint d
  | Decimal.D5 d => 53%N :: str_of_uint d
  | Decimal.D6 d => 54%N :: str_of_uint d
  | Decimal.D7 d => 55%N :: str_of_uint d
  | Decimal.D8 d => 56%N :: str_of_uint d
  | Decimal.D9 d => 57%N :: str_of_uint d
  end.

(** [str(n)] of a natural number. *)
Definition str_of_N (n : N) : str := str_of_uint (N.to_uint n).

(** [f"{n:03d}"] of a natural number. *)
Definition fmt03d (n : N) : str :=
  let d := str_of_N n in replicate (3 - length d) 48%N ++ d.

(** [int(s)] of a run of decimal digits, most significant first. *)
Definition int_of_digits (ds : list Z) : Z := foldl (fun n d => 10 * n + d) 0 ds.

Definition digits_of `{Unicode} (s : str) : option (list Z) := mapM u_decimal s.

(** ** UTF-8 encoding: [s.encode("utf-8")], which refuses lone surrogates *)

Definition utf8_char (c : N) : option (list N) :=
  if (c <? 128)%N then Some [c]
  else if (c <? 2048)%N then Some [192 + c / 64; 128 + c mod 64]%N
  else if in_range 55296 57343 c then None
  else if (c <? 65536)%N
       then Some [224 + c / 4096; 128 + (c / 64) mod 64; 128 + c mod 64]%N
  else Some [240 + c / 262144; 128 + (c / 4096) mod 64; 128 + (c / 64) mod 64; 128 + c mod 64]%N.

Definition utf8_encode (s : str) : option (list N) :=
  match mapM utf8_char s with Some bs => Some (concat bs) | None => None end.

(** ** Lemmas *)

#[export] Instance ru_unicode_laws : UnicodeLaws ru_unicode.
Proof.
  split; cbn.
  - set_solver.
  - unfold is_ascii, cyr_upper_p, cyr_lower_p, in_range. intros c Hc.
    generalize (ascii_alnum_p c) (c =? 95)%N. intros [] []; cbn; lia.
  - done.
  - unfold ascii_digit_p, in_range. intros c d H. case_match; simplify_eq. lia.
  - intros c d H. by destruct (ascii_digit_p c).
  - done.
  - intros s Hs. apply map_ext_in. intros c Hc%list_elem_of_In.
    rewrite forallb_forall in Hs. specialize (Hs c (proj1 (list_elem_of_In _ _) Hc)).
    unfold is_ascii in Hs. unfold ru_lower1, ascii_lower1, ascii_upper_p, in_range.
    repeat case_match; lia.
  - intros s Hs. apply map_ext_in. intros c Hc%list_elem_of_In.
    rewrite forallb_forall in Hs. specialize (Hs c (proj1 (list_elem_of_In _ _) Hc)).
    unfold is_ascii in Hs. unfold ru_upper1, ascii_upper1, ascii_lower_p, in_range.
    repeat case_match; lia.
Qed.

(** *** Literal prefixes *)

Lemma prefix_by_length eqc p s : prefix_by eqc p s = true -> len p <= len s.
Proof.
  revert s. induction p as [|a p IH]; intros [|b s]; cbn; rewrite ?len_cons, ?len_nil; try done.
  - intros _. pose proof (len_nonneg s). lia.
  - intros [_ H]%andb_true_iff. apply IH in H. lia.
Qed.

Lemma prefix_by_take eqc p s :
  prefix_by eqc p s = true <->
  (length p <= length s)%nat /\ Forall2 (fun a b => eqc a b = true) p (take (length p) s).
Proof.
  revert s. induction p as [|a p IH]; intros s; cbn [prefix_by length take].
  { split; [intros _; split; [lia|destruct s; constructor]|done]. }
  destruct s as [|b s]; cbn.
  { split; [done|intros [? _]; lia]. }
  rewrite andb_true_iff, IH. split.
  - intros [? [? ?]]. split; [lia|by constructor].
  - intros [? H]. inversion H; subst. split_and!; [done|lia|done].
Qed.

Lemma starts_with_iff s p : starts_with s p = true <-> exists s', s = p ++ s'.
Proof.
  unfold starts_with. revert s. induction p as [|a p IH]; intros s; cbn.
  { split; [by exists s|done]. }
  destruct s as [|b s]; [split; [done|by intros [? ?]]|].
  rewrite andb_true_iff, N.eqb_eq, IH. split.
  - intros [-> [s' ->]]. by exists s'.
  - intros [s' [= -> ->]]. eauto.
Qed.

(** *** Occurrences *)

Section Scan.
Context (test : str -> bool) (n : nat).
Context (Hn : (0 < n)%nat).
Context (Htest : forall s, test s = true -> (n <= length s)%nat).

Lemma scan_lower pos skip s p : p ∈ scan test n pos skip s -> pos + Z.of_nat skip <= p.
Proof.
  revert pos skip. induction s as [|c s IH]; intros pos skip; cbn; [set_solver|].
  destruct skip as [|k].
  - destruct (test (c :: s)); [|intros H%IH; lia].
    intros [->|H%IH]%elem_of_cons; lia.
  - intros H%IH. lia.
Qed.

(** Every reported start is a match that lies inside the text. *)
Lemma scan_sound pos skip s p :
  p ∈ scan test n pos skip s ->
  test (drop (Z.to_nat (p - pos)) s) = true /\ p - pos + Z.of_nat n <= len s.
Proof.
  revert pos skip. induction s as [|c s IH]; intros pos skip; cbn [scan]; [set_solver|].
  assert (forall k, p ∈ scan test n (pos + 1) k s ->
    test (drop (Z.to_nat (p - pos)) (c :: s)) = true /\ p - pos + Z.of_nat n <= len (c :: s)) as Hrec.
  { intros k Hp. pose proof (scan_lower _ _ _ _ Hp). apply IH in Hp as [Ht Hl].
    rewrite len_cons. split; [|lia].
    replace (Z.to_nat (p - pos)) with (S (Z.to_nat (p - (pos + 1)))) by lia. done. }
  destruct skip as [|k]; [|by apply Hrec].
  destruct (test (c :: s)) eqn:Ht; [|by apply Hrec].
  intros [->|H]%elem_of_cons; [|by eapply Hrec].
  rewrite Z.sub_diag. split; [done|]. apply Htest in Ht. unfold len. lia.
Qed.

(** Successive starts are at least [n] apart. *)
Lemma scan_spaced pos skip s :
  StronglySorted (fun a b => a + Z.of_nat n <= b) (scan test n pos skip s).
Proof.
  revert pos skip. induction s as [|c s IH]; intros pos skip; cbn; [constructor|].
  destruct skip as [|k]; [|apply IH].
  destruct (test (c :: s)); [|apply IH].
  constructor; [apply IH|]. apply Forall_forall. intros q Hq%scan_lower. lia.
Qed.

(** Every match start lies within a reported match, unless it was skipped. *)
Lemma scan_complete pos skip s i :
  (i < length s)%nat -> test (drop i s) = true -> (skip <= i)%nat ->
  exists p, p ∈ scan test n pos skip s /\ p <= pos + Z.of_nat i < p + Z.of_nat n.
Proof.
  revert pos skip i. induction s as [|c s IH]; intros pos skip i; cbn [scan length]; [lia|].
  intros Hi Ht Hskip. destruct skip as [|k].
  - destruct (test (c :: s)) eqn:Hcs.
    + destruct (decide (i < n)%nat) as [Hlt|Hge].
      { exists pos. split; [set_solver|lia]. }
      destruct i as [|i]; [lia|]. cbn in Ht.
      destruct (IH (pos + 1) (n - 1)%nat i) as (p & Hp & ?); [lia|done|lia|].
      exists p. split; [set_solver|lia].
    + destruct i as [|i]; [cbn in Ht; congruence|]. cbn in Ht.
      destruct (IH (pos + 1) 0%nat i) as (p & Hp & ?); [lia|done|lia|]. exists p. split; [done|lia].
  - destruct i as [|i]; [lia|]. cbn in Ht.
    destruct (IH (pos + 1) k i) as (p & Hp & ?); [lia|done|lia|]. exists p. split; [done|lia].
Qed.
End Scan.

(** The spans of a non-empty literal: in range, covering a match, disjoint and
    in order; and every match overlaps a reported one. *)
Section LiteralSpans.
Context (eqc : N -> N -> bool) (lit text : str).
Context (Hlit : lit <> []).

Local Lemma lit_len : (0 < length lit)%nat.
Proof. destruct lit; [done|cbn; lia]. Qed.

Local Lemma lit_test s : prefix_by eqc lit s = true -> (length lit <= length s)%nat.
Proof. intros H%prefix_by_length. unfold len in H. lia. Qed.

Lemma literal_spans_unfold :
  literal_spans eqc lit text =
  map (fun p => (p, p + len lit)) (scan (prefix_by eqc lit) (length lit) 0 0 text).
Proof. unfold literal_spans. by destruct lit. Qed.

Lemma literal_spans_sound a b :
  (a, b) ∈ literal_spans eqc lit text ->
  0 <= a /\ b = a + len lit /\ b <= len text /\ prefix_by eqc lit (drop (Z.to_nat a) text) = true.
Proof.
  rewrite literal_spans_unfold, list_elem_of_fmap. intros (p & [= -> ->] & Hp).
  pose proof (scan_lower _ _ lit_len lit_test _ _ _ _ Hp) as Hlow.
  destruct (scan_sound (prefix_by eqc lit) (length lit) lit_len lit_test 0 0 text p Hp) as [Ht Hle].
  rewrite Z.sub_0_r in *. split_and!; [lia|done|unfold len in *; lia|done].
Qed.

Lemma literal_spans_sorted :
  StronglySorted (fun x y => x.2 <= y.1) (literal_spans eqc lit text).
Proof.
  rewrite literal_spans_unfold.
  induction (scan_spaced (prefix_by eqc lit) _ lit_len lit_test 0 0 text) as [|p l Hl IH Hp]; cbn; constructor; [done|].
  apply Forall_map. eapply Forall_impl; [done|]. cbn. unfold len. lia.
Qed.

Lemma literal_spans_complete i :
  prefix_by eqc lit (drop i text) = true ->
  exists a b, (a, b) ∈ literal_spans eqc lit text /\ a <= Z.of_nat i < b.
Proof.
  intros Ht. pose proof (prefix_by_length _ _ _ Ht) as Hlen.
  unfold len in Hlen. rewrite length_drop in Hlen. pose proof lit_len.
  destruct (scan_complete (prefix_by eqc lit) _ lit_len lit_test 0 0 text i) as (p & Hp & ?); [lia|done|lia|].
  exists p, (p + len lit). split; [|unfold len; lia].
  rewrite literal_spans_unfold. apply list_elem_of_fmap. eauto.
Qed.
End LiteralSpans.

Lemma prefix_eqb_slice p s a :
  0 <= a -> prefix_by N.eqb p (drop (Z.to_nat a) s) = true -> slice s a (a + len p) = p.
Proof.
  intros Ha H. pose proof (prefix_by_length _ _ _ H) as Hlen.
  unfold len in Hlen. rewrite length_drop in Hlen.
  pose proof (starts_with_iff (drop (Z.to_nat a) s) p) as [(s' & Hs') _]; [done|].
  destruct (decide (p = [])) as [->|Hne].
  { rewrite len_nil, Z.add_0_r. unfold slice. by rewrite Z.sub_diag. }
  assert (0 < length p)%nat by (destruct p; [done|cbn; lia]).
  rewrite slice_in_range by (unfold len; lia). rewrite Hs'.
  apply take_app_length'. unfold len. lia.
Qed.

(** *** The [:03d] format is injective *)

Fixpoint uint_of_str (s : str) : option Decimal.uint :=
  match s with
  | [] => Some Decimal.Nil
  | c :: s' =>
    match uint_of_str s', (c - 48)%N with
    | Some d, 0%N => Some (Decimal.D0 d) | Some d, 1%N => Some (Decimal.D1 d)
    | Some d, 2%N => Some (Decimal.D2 d) | Some d, 3%N => Some (Decimal.D3 d)
    | Some d, 4%N => Some (Decimal.D4 d) | Some d, 5%N => Some (Decimal.D5 d)
    | Some d, 6%N => Some (Decimal.D6 d) | Some d, 7%N => Some (Decimal.D7 d)
    | Some d, 8%N => Some (Decimal.D8 d) | Some d, 9%N => Some (Decimal.D9 d)
    | _, _ => None
    end
  end.

Lemma uint_of_str_of_uint d : uint_of_str (str_of_uint d) = Some d.
Proof. induction d; cbn; rewrite ?IHd; done. Qed.

Lemma uint_of_str_zeros k s d :
  uint_of_str s = Some d ->
  exists d', uint_of_str (replicate k 48%N ++ s) = Some d' /\ N.of_uint d' = N.of_uint d.
Proof.
  intros H. induction k as [|k (d' & IH & E)]; cbn; [eauto|].
  rewrite IH. cbn. exists (Decimal.D0 d'). split; [done|]. by rewrite <- E.
Qed.

Lemma fmt03d_inj m n : fmt03d m = fmt03d n -> m = n.
Proof.
  unfold fmt03d, str_of_N. intros H.
  destruct (uint_of_str_zeros (3 - length (str_of_uint (N.to_uint m))) _ _
              (uint_of_str_of_uint (N.to_uint m))) as (dm & Hm & Em).
  destruct (uint_of_str_zeros (3 - length (str_of_uint (N.to_uint n))) _ _
              (uint_of_str_of_uint (N.to_uint n))) as (dn & Hn & En).
  rewrite H, Hn in Hm. injection Hm as ->. rewrite En in Em.
  rewrite !DecimalN.Unsigned.of_to in Em. done.
Qed.

(** ** UTF-8 *)

Lemma utf8_encode_app a b :
  utf8_encode (a ++ b) = x ← utf8_encode a; y ← utf8_encode b; Some (x ++ y).
Proof.
  unfold utf8_encode. induction a as [|c a IH]; cbn [app mapM].
  - cbn. by destruct (mapM utf8_char b).
  - destruct (utf8_char c) as [w|]; cbn; [|done].
    destruct (mapM utf8_char (a ++ b)) as [ab|], (mapM utf8_char a) as [x|], (mapM utf8_char b) as [y|];
      cbn in *; simplify_eq; try done. by rewrite <- app_assoc, IH.
Qed.

Lemma utf8_encode_ascii s : forallb is_ascii s = true -> utf8_encode s = Some s.
Proof.
  induction s as [|c s IH]; cbn; [done|]. intros [Hc Hs]%andb_true_iff.
  change (c :: s) with ([c] ++ s). rewrite utf8_encode_app, (IH Hs).
  unfold utf8_encode, utf8_char. cbn. unfold is_ascii in Hc. by rewrite Hc.
Qed.

(** *** Substrings *)

Lemma contains_iff s sub : contains s sub = true <-> exists a b, s = a ++ sub ++ b.
Proof.
  induction s as [|c s IH]; cbn; rewrite orb_true_iff, ?IH, starts_with_iff.
  - split; [intros [[s' Hs]|?]; [by exists [], s'|done]|].
    intros (a & b & H). left. destruct a; [eauto|done].
  - split.
    + intros [[s' ->]|(a & b & ->)]; [by exists [], s'|by exists (c :: a), b].
    + intros ([|d a] & b & H); [left; eauto|right]. injection H as -> ->. eauto.
Qed.
