(* ===== verification/Json.v ===== *)
(** * JSON values, [json.loads] and [json.dumps]

    The request and response bodies are JSON trees.  This file has the tree, the
    standard library's decoder (the C scanner of [json]) and encoder with
    [ensure_ascii=False], and the round trip between them.  [float] is the one
    part that stays abstract: the class [FloatText] gives the text that
    [float.__repr__] prints for the number a numeral denotes. *)

From Stdlib Require Import DecimalZ DecimalFacts.
From S2P Require Import Prelude Text.
Local Open Scope py_scope.

(** ** The tree *)

Inductive json :=
| JNull
| JBool (b : bool)
| JInt (z : Z)
| JFloat (text : str)            (* as [json.dumps] writes it *)
| JStr (s : str)
| JList (l : list json)
| JObj (d : list (str * json)).

Section json_ind.
Context (P : json -> Prop).
Context (Hnull : P JNull) (Hbool : forall b, P (JBool b)) (Hint' : forall z, P (JInt z)).
Context (Hfloat : forall t, P (JFloat t)) (Hstr : forall s, P (JStr s)).
Context (Hlist : forall l, Forall P l -> P (JList l)).
Context (Hobj : forall d, Forall (fun e : str * json => P e.2) d -> P (JObj d)).

(** Induction that reaches the elements of lists and objects. *)
Fixpoint json_tree_ind (v : json) : P v :=
  match v with
  | JNull => Hnull
  | JBool b => Hbool b
  | JInt z => Hint' z
  | JFloat t => Hfloat t
  | JStr s => Hstr s
  | JList l => Hlist l ((fix go l : Forall P l :=
      match l with
      | [] => @List.Forall_nil _ P
      | x :: l' => @List.Forall_cons _ P x l' (json_tree_ind x) (go l')
      end) l)
  | JObj d => Hobj d ((fix go d : Forall (fun e : str * json => P e.2) d :=
      match d with
      | [] => @List.Forall_nil _ (fun e : str * json => P e.2)
      | e :: d' => @List.Forall_cons _ (fun e : str * json => P e.2) e d' (json_tree_ind e.2) (go d')
      end) d)
  end.
End json_ind.

#[global] Instance json_eq_dec : EqDecision json.
Proof.
  unfold EqDecision, Decision.
  refine (fix go (x y : json) : {x = y} + {x <> y} :=
    match x, y with
    | JNull, JNull => left eq_refl
    | JBool a, JBool b => cast_if (decide (a = b))
    | JInt a, JInt b => cast_if (decide (a = b))
    | JFloat a, JFloat b => cast_if (decide (a = b))
    | JStr a, JStr b => cast_if (decide (a = b))
    | JList a, JList b =>
      cast_if ((fix gol (a b : list json) : {a = b} + {a <> b} :=
        match a, b with
        | [], [] => left eq_refl
        | u :: a', v :: b' => cast_if_and (go u v) (gol a' b')
        | _, _ => right _
        end) a b)
    | JObj a, JObj b =>
      cast_if ((fix god (a b : list (str * json)) : {a = b} + {a <> b} :=
        match a, b with
        | [], [] => left eq_refl
        | (k, u) :: a', (k', v) :: b' => cast_if_and3 (decide (k = k')) (go u v) (god a' b')
        | _, _ => right _
        end) a b)
    | _, _ => right _
    end); abstract congruence.
Defined.

(** ** [float]: what the numeral [t] denotes, printed by [float.__repr__] *)

Class FloatText := { float_repr : str -> str }.

(** ** [json.dumps(v, ensure_ascii=False)] *)

Definition hex_digit (n : N) : N := if (n <? 10)%N then (48 + n)%N else (87 + n)%N.

(** ['\\u{0:04x}'.format(n)] for [n] below 65536 *)
Definition u_escape (n : N) : str :=
  u8 "\u" ++ [hex_digit (n / 4096); hex_digit (n / 256 mod 16); hex_digit (n / 16 mod 16); hex_digit (n mod 16)]%N.

(** [ESCAPE_DCT]: the characters written with one letter *)
Definition short_escape (c : N) : option N :=
  if (c =? 34)%N then Some 34%N
  else if (c =? 92)%N then Some 92%N
  else if (c =? 10)%N then Some (chr "n")
  else if (c =? 13)%N then Some (chr "r")
  else if (c =? 9)%N then Some (chr "t")
  else if (c =? 12)%N then Some (chr "f")
  else if (c =? 8)%N then Some (chr "b")
  else None.

(** One character inside a string literal, [ensure_ascii=False]. *)
Definition raw_escape_char (c : N) : str :=
  match short_escape c with
  | Some e => [92%N; e]
  | None => if (c <? 32)%N then u_escape c else [c]
  end.

Definition dump_string (s : str) : str := [34%N] ++ concat (map raw_escape_char s) ++ [34%N].

(** [int.__repr__] *)
Definition dump_int (z : Z) : str :=
  match z with
  | Z0 => u8 "0"
  | Zpos p => str_of_N (Npos p)
  | Zneg p => (chr "-") :: str_of_N (Npos p)
  end.

Fixpoint dumps (v : json) : str :=
  match v with
  | JNull => u8 "null"
  | JBool true => u8 "true"
  | JBool false => u8 "false"
  | JInt z => dump_int z
  | JFloat t => t
  | JStr s => dump_string s
  | JList l => u8 "[" ++ join (u8 ", ") (map dumps l) ++ u8 "]"
  | JObj d => u8 "{" ++ join (u8 ", ") (map (fun e => dump_string e.1 ++ u8 ": " ++ dumps e.2) d) ++ u8 "}"
  end.

(** One ["key": value] of an object. *)
Definition dump_member (e : str * json) : str := dump_string e.1 ++ u8 ": " ++ dumps e.2.

(** ** [json.loads] *)

(** [WHITESPACE]: the four characters JSON allows between tokens *)
Definition is_json_ws (c : N) : bool := (c =? 32)%N || (c =? 9)%N || (c =? 10)%N || (c =? 13)%N.

Definition skip_ws (s : str) : str := lstrip_by is_json_ws s.

Definition hex_value (c : N) : option N :=
  if in_range 48 57 c then Some (c - 48)%N
  else if in_range 97 102 c then Some (c - 87)%N
  else if in_range 65 70 c then Some (c - 55)%N
  else None.

Definition hex4 (a b c d : N) : option N :=
  match hex_value a, hex_value b, hex_value c, hex_value d with
  | Some a, Some b, Some c, Some d => Some (((a * 16 + b) * 16 + c) * 16 + d)%N
  | _, _, _, _ => None
  end.

Definition high_surrogate (u : N) : bool := in_range 55296 56319 u.
Definition low_surrogate (u : N) : bool := in_range 56320 57343 u.
Definition join_surrogates (u w : N) : N := (65536 + (u - 55296) * 1024 + (w - 56320))%N.

(** [BACKSLASH]: the one-letter escapes *)
Definition unescape (e : N) : option N :=
  if (e =? 34)%N || (e =? 92)%N || (e =? (chr "/"))%N then Some e
  else if (e =? (chr "b"))%N then Some 8%N
  else if (e =? (chr "f"))%N then Some 12%N
  else if (e =? (chr "n"))%N then Some 10%N
  else if (e =? (chr "r"))%N then Some 13%N
  else if (e =? (chr "t"))%N then Some 9%N
  else None.

Definition put (c : N) (r : option (str * str)) : option (str * str) :=
  match r with Some (s, rest) => Some (c :: s, rest) | None => None end.

(** [scanstring], strict: the text after the opening quote, up to the closing
    one, with escapes resolved; a pair of escaped surrogates is one character. *)
Fixpoint scanstring (s : str) : option (str * str) :=
  match s with
  | [] => None
  | c :: s1 =>
    if (c =? 34)%N then Some ([], s1)
    else if (c =? 92)%N then
      match s1 with
      | [] => None
      | e :: s2 =>
        if (e =? (chr "u"))%N then
          match s2 with
          | h1 :: h2 :: h3 :: h4 :: s3 =>
            match hex4 h1 h2 h3 h4 with
            | None => None
            | Some u =>
              if high_surrogate u then
                match s3 with
                | b :: v :: g1 :: g2 :: g3 :: g4 :: s4 =>
                  if (b =? 92)%N && (v =? (chr "u"))%N then
                    match hex4 g1 g2 g3 g4 with
                    | None => None
                    | Some w => if low_surrogate w then put (join_surrogates u w) (scanstring s4)
                                else put u (scanstring s3)
                    end
                  else put u (scanstring s3)
                | _ => put u (scanstring s3)
                end
              else put u (scanstring s3)
            end
          | _ => None
          end
        else match unescape e with Some c' => put c' (scanstring s2) | None => None end
      end
    else if (c <? 32)%N then None
    else put c (scanstring s1)
  end.

(** The longest run of ASCII digits, and what follows it. *)
Fixpoint span_digits (s : str) : str * str :=
  match s with
  | c :: s' => if ascii_digit_p c then let '(d, r) := span_digits s' in (c :: d, r) else ([], s)
  | [] => ([], [])
  end.

(** [sys.int_max_str_digits] *)
Definition INT_MAX_STR_DIGITS : Z := 4300.

Definition Z_of_digits (ds : str) : Z := int_of_digits (map (fun c => Z.of_N c - 48) ds).

(** [(\.\d+)?] *)
Definition scan_frac (s : str) : str * str :=
  match s with
  | c :: s' => if (c =? (chr "."))%N then
                 match span_digits s' with
                 | ([], _) => ([], s)
                 | (d, r) => (c :: d, r)
                 end
               else ([], s)
  | [] => ([], [])
  end.

(** [([eE][-+]?\d+)?] *)
Definition scan_exp (s : str) : str * str :=
  match s with
  | c :: s' =>
    if (c =? (chr "e"))%N || (c =? (chr "E"))%N then
      let '(sign, s2) := match s' with
                         | g :: s2 => if (g =? (chr "+"))%N || (g =? (chr "-"))%N then ([g], s2) else ([], s')
                         | [] => ([], [])
                         end in
      match span_digits s2 with
      | ([], _) => ([], s)
      | (d, r) => (c :: sign ++ d, r)
      end
    else ([], s)
  | [] => ([], [])
  end.

(** An optional minus, then 0 or a run of digits that does not start with 0. *)
Definition scan_int (s : str) : option (bool * str * str) :=
  let '(neg, s1) := match s with
                    | c :: s' => if (c =? (chr "-"))%N then (true, s') else (false, s)
                    | [] => (false, [])
                    end in
  match s1 with
  | c :: s2 =>
    if (c =? 48)%N then Some (neg, [c], s2)
    else if ascii_digit_p c then let '(d, r) := span_digits s1 in Some (neg, d, r)
    else None
  | [] => None
  end.

Section Loads.
Context {F : FloatText}.

(** [match_number]: an integer, or a float when a fraction or an exponent follows. *)
Definition match_number (s : str) : option (json * str) :=
  match scan_int s with
  | None => None
  | Some (neg, d, s1) =>
    let '(frac, s2) := scan_frac s1 in
    let '(exp, s3) := scan_exp s2 in
    let sign : str := if (neg : bool) then u8 "-" else [] in
    match frac, exp with
    | [], [] => if INT_MAX_STR_DIGITS <? len d then None
                else Some (JInt (if (neg : bool) then - Z_of_digits d else Z_of_digits d), s3)
    | _, _ => Some (JFloat (float_repr (sign ++ d ++ frac ++ exp)), s3)
    end
  end.

(** A constant of the language: [s.startswith(word)] and the value it stands for. *)
Definition constants : list (str * json) :=
  [(u8 "null", JNull); (u8 "true", JBool true); (u8 "false", JBool false);
   (u8 "NaN", JFloat (u8 "NaN")); (u8 "Infinity", JFloat (u8 "Infinity"));
   (u8 "-Infinity", JFloat (u8 "-Infinity"))].

Fixpoint match_constant (cs : list (str * json)) (s : str) : option (json * str) :=
  match cs with
  | [] => None
  | (w, v) :: cs' => if starts_with s w then Some (v, drop (length w) s) else match_constant cs' s
  end.

(** [scan_once], and the loops of [_parse_array_unicode] and
    [_parse_object_unicode] after an element; [fuel] bounds the calls. *)
Fixpoint scan_once (fuel : nat) (s : str) : option (json * str) :=
  match fuel with
  | O => None
  | S n =>
    match s with
    | [] => None
    | c :: s1 =>
      if (c =? 34)%N then
        match scanstring s1 with Some (t, r) => Some (JStr t, r) | None => None end
      else if (c =? (chr "{"))%N then
        match skip_ws s1 with
        | [] => None
        | c2 :: s2 =>
          if (c2 =? (chr "}"))%N then Some (JObj [], s2)
          else match scan_members n (c2 :: s2) with
               | Some (d, r) => Some (JObj (dict_of d), r)
               | None => None
               end
        end
      else if (c =? (chr "["))%N then
        match skip_ws s1 with
        | [] => None
        | c2 :: s2 =>
          if (c2 =? (chr "]"))%N then Some (JList [], s2)
          else match scan_elems n (c2 :: s2) with
               | Some (l, r) => Some (JList l, r)
               | None => None
               end
        end
      else match match_constant constants s with
           | Some r => Some r
           | None => match_number s
           end
    end
  end
with scan_elems (fuel : nat) (s : str) : option (list json * str) :=
  match fuel with
  | O => None
  | S n =>
    match scan_once n s with
    | None => None
    | Some (v, r) =>
      match skip_ws r with
      | [] => None
      | c :: r1 =>
        if (c =? (chr "]"))%N then Some ([v], r1)
        else if (c =? (chr ","))%N then
          match scan_elems n (skip_ws r1) with
          | Some (l, r2) => Some (v :: l, r2)
          | None => None
          end
        else None
      end
    end
  end
with scan_members (fuel : nat) (s : str) : option (list (str * json) * str) :=
  match fuel with
  | O => None
  | S n =>
    match s with
    | [] => None
    | q :: s1 =>
      if negb (q =? 34)%N then None else
      match scanstring s1 with
      | None => None
      | Some (k, r) =>
        match skip_ws r with
        | [] => None
        | c :: r1 =>
          if negb (c =? (chr ":"))%N then None else
          match scan_once n (skip_ws r1) with
          | None => None
          | Some (v, r2) =>
            match skip_ws r2 with
            | [] => None
            | c2 :: r3 =>
              if (c2 =? (chr "}"))%N then Some ([(k, v)], r3)
              else if (c2 =? (chr ","))%N then
                match scan_members n (skip_ws r3) with
                | Some (d, r4) => Some ((k, v) :: d, r4)
                | None => None
                end
              else None
            end
          end
        end
      end
    end
  end.

(** [json.loads(s)] of a [str]; [None] is [JSONDecodeError] or the [ValueError]
    of an integer with too many digits. *)
Definition loads (s : str) : option json :=
  if starts_with s [65279%N] then None else
  match scan_once (2 * length s + 2) (skip_ws s) with
  | Some (v, r) => match skip_ws r with [] => Some v | _ => None end
  | None => None
  end.
End Loads.

(** *** Which error

    [loads] fails with [JSONDecodeError], except when the first thing it cannot
    read is an integer with too many digits: then [int] raises [ValueError]. *)

Inductive loads_error := JSONDecodeError | TooManyDigits.

Section LoadsError.
Context {F : FloatText}.

Definition long_number (s : str) : bool :=
  match scan_int s with
  | None => false
  | Some (_, d, s1) =>
    match scan_frac s1, scan_exp (scan_frac s1).2 with
    | ([], _), ([], _) => INT_MAX_STR_DIGITS <? len d
    | _, _ => false
    end
  end.

(** For a text [scan_once] fails on: whether an integer is the reason. *)
Fixpoint long_once (fuel : nat) (s : str) : bool :=
  match fuel with
  | O => false
  | S n =>
    match s with
    | [] => false
    | c :: s1 =>
      if (c =? 34)%N then false
      else if (c =? (chr "{"))%N then long_members n (skip_ws s1)
      else if (c =? (chr "["))%N then long_elems n (skip_ws s1)
      else match match_constant constants s with Some _ => false | None => long_number s end
    end
  end
with long_elems (fuel : nat) (s : str) : bool :=
  match fuel with
  | O => false
  | S n =>
    match scan_once n s with
    | None => long_once n s
    | Some (_, r) =>
      match skip_ws r with
      | c :: r1 => if (c =? (chr ","))%N then long_elems n (skip_ws r1) else false
      | [] => false
      end
    end
  end
with long_members (fuel : nat) (s : str) : bool :=
  match fuel with
  | O => false
  | S n =>
    match s with
    | [] => false
    | q :: s1 =>
      if negb (q =? 34)%N then false else
      match scanstring s1 with
      | None => false
      | Some (_, r) =>
        match skip_ws r with
        | [] => false
        | c :: r1 =>
          if negb (c =? (chr ":"))%N then false else
          match scan_once n (skip_ws r1) with
          | None => long_once n (skip_ws r1)
          | Some (_, r2) =>
            match skip_ws r2 with
            | c2 :: r3 => if (c2 =? (chr ","))%N then long_members n (skip_ws r3) else false
            | [] => false
            end
          end
        end
      end
    end
  end.

(** [json.loads(s)] with its exceptions *)
Definition loads_exc (s : str) : result loads_error json :=
  match loads s with
  | Some v => Ok v
  | None => if starts_with s [65279%N] then Raise JSONDecodeError
            else if long_once (2 * length s + 2) (skip_ws s) then Raise TooManyDigits else Raise JSONDecodeError
  end.
End LoadsError.

(** A JSON text as a literal, with single quotes for the quotation marks. *)
Notation "'js8' s" :=
  ltac:(let r := eval vm_compute in
          (map (fun c => if (c =? 39)%N then 34%N else c) (str_of_string s%string)) in exact r)
  (at level 1, only parsing).

(** Floats kept as they are written: an instance for the concrete examples. *)
Definition id_floats : FloatText := {| float_repr t := t |}.

Example loads_object :
  loads (F := id_floats) (js8 " {'a': [1, -20, 2.5e3, true], 'a\u00e9': 'x\n\ud83d\ude00', 'a': null} ")
  = Some (JObj [(u8 "a", JNull); (u8 "aé", JStr (u8 "x" ++ [10%N] ++ u8 "😀"))]).
Proof. vm_compute. reflexivity. Qed.

Example loads_rejects :
  map (loads (F := id_floats)) [js8 "[1,]"; js8 "{'a':1,}"; js8 "01"; js8 "1."; js8 "'a"; js8 "-"; [65279; 49]%N; js8 "[1] 2"]
  = replicate 8 None.
Proof. vm_compute. reflexivity. Qed.

Example loads_too_long :
  loads_exc (F := id_floats) (js8 "{'a': [1, " ++ replicate 4301 49%N ++ js8 "], 'b' 2}") = Raise TooManyDigits /\
  loads_exc (F := id_floats) (js8 "{'a': [1 " ++ replicate 4301 49%N ++ js8 "]}") = Raise JSONDecodeError.
Proof. vm_compute. split; reflexivity. Qed.

(** ** Theorems *)

(** *** Strings *)

Lemma u_escape_hex : forall c, (c < 32)%N ->
  hex4 (hex_digit (c / 4096)) (hex_digit (c / 256 mod 16)) (hex_digit (c / 16 mod 16)) (hex_digit (c mod 16)) = Some c.
Proof.
  assert (Forall (fun n => let c := N.of_nat n in
    hex4 (hex_digit (c / 4096)) (hex_digit (c / 256 mod 16)) (hex_digit (c / 16 mod 16)) (hex_digit (c mod 16))
    = Some c) (seq 0 32)) as H by (vm_compute; repeat constructor).
  intros c Hc. rewrite Forall_forall in H. specialize (H (N.to_nat c)). cbv zeta in H.
  rewrite N2Nat.id in H. apply H. apply elem_of_seq. lia.
Qed.

Lemma scanstring_short c e s : short_escape c = Some e -> scanstring ([92%N; e] ++ s) = put c (scanstring s).
Proof.
  unfold short_escape.
  repeat match goal with |- context [(c =? ?k)%N] =>
    destruct (N.eqb_spec c k); [subst c; by intros [= <-]|]
  end. done.
Qed.

Lemma scanstring_char c s : scanstring (raw_escape_char c ++ s) = put c (scanstring s).
Proof.
  unfold raw_escape_char. destruct (short_escape c) as [e|] eqn:E; [by apply scanstring_short|].
  unfold short_escape in E. destruct (N.eqb_spec c 34); [done|]. destruct (N.eqb_spec c 92); [done|].
  destruct (N.ltb_spec c 32) as [Hc|Hc].
  - change (u_escape c ++ s) with
      (92%N :: chr "u" :: hex_digit (c / 4096) :: hex_digit (c / 256 mod 16) :: hex_digit (c / 16 mod 16)
        :: hex_digit (c mod 16) :: s).
    cbn [scanstring]. rewrite !N.eqb_refl. rewrite (u_escape_hex c Hc).
    replace (high_surrogate c) with false by (unfold high_surrogate, in_range; lia). done.
  - cbn [app scanstring]. destruct (N.eqb_spec c 34); [done|]. destruct (N.eqb_spec c 92); [done|].
    destruct (N.ltb_spec c 32); [lia|done].
Qed.

Lemma scanstring_dump s rest :
  scanstring (concat (map raw_escape_char s) ++ [34%N] ++ rest) = Some (s, rest).
Proof.
  induction s as [|c s IH]; [done|]. cbn [map concat]. rewrite <- app_assoc, scanstring_char.
  by rewrite IH.
Qed.

(** *** Numbers *)

(** What may follow a value: nothing a numeral could go on with. *)
Definition num_end (rest : str) : bool :=
  match rest with
  | [] => true
  | c :: _ => negb (ascii_digit_p c || memb c (u8 ".eE+-"))
  end.

Lemma span_digits_app s rest :
  num_end rest = true -> forall d r, span_digits s = (d, r) -> span_digits (s ++ rest) = (d, r ++ rest).
Proof.
  intros He. induction s as [|c s IH]; intros d r; cbn [span_digits app].
  - intros [= <- <-]. destruct rest as [|c rest]; [done|]. cbn [span_digits app].
    cbn [num_end] in He. by destruct (ascii_digit_p c).
  - destruct (ascii_digit_p c); [|by intros [= <- <-]]. destruct (span_digits s) as [d' r'].
    intros [= <- <-]. by rewrite (IH d' r' eq_refl).
Qed.

Lemma num_end_cons c rest : num_end (c :: rest) = true ->
  ascii_digit_p c = false /\ c <> (chr ".") /\ c <> (chr "e") /\ c <> (chr "E") /\ c <> (chr "+") /\ c <> (chr "-").
Proof.
  unfold num_end. rewrite negb_true_iff, orb_false_iff, memb_false. intros [? H]. split; [done|].
  split_and!; intros ->; apply H; set_solver.
Qed.

Lemma scan_frac_app s rest :
  num_end rest = true -> forall d r, scan_frac s = (d, r) -> scan_frac (s ++ rest) = (d, r ++ rest).
Proof.
  intros He d r. destruct s as [|c s]; cbn [scan_frac app].
  - intros [= <- <-]. destruct rest as [|c rest]; [done|]. apply num_end_cons in He as (_ & Hc & _).
    cbn [scan_frac app]. by destruct (N.eqb_spec c (chr ".")).
  - destruct (c =? _)%N; [|by intros [= <- <-]].
    destruct (span_digits s) as [d' r'] eqn:E. rewrite (span_digits_app _ _ He _ _ E).
    destruct d'; intros [= <- <-]; done.
Qed.

Lemma scan_exp_app s rest :
  num_end rest = true -> forall d r, scan_exp s = (d, r) -> scan_exp (s ++ rest) = (d, r ++ rest).
Proof.
  intros He d r. destruct s as [|c s]; cbn [scan_exp app].
  - intros [= <- <-]. destruct rest as [|c rest]; [done|]. apply num_end_cons in He as (_ & _ & ? & ? & _).
    cbn [scan_exp app]. destruct (N.eqb_spec c (chr "e")); [done|]. by destruct (N.eqb_spec c (chr "E")).
  - destruct (_ || _); [|by intros [= <- <-]].
    destruct s as [|g s].
    + intros [= <- <-]. destruct rest as [|g rest]; [done|].
      pose proof (span_digits_app [] _ He _ _ eq_refl) as Hs. cbn [app] in Hs |- *.
      apply num_end_cons in He as (_ & _ & _ & _ & ? & ?).
      destruct (N.eqb_spec g (chr "+")); [done|]. destruct (N.eqb_spec g (chr "-")); [done|].
      cbn [orb]. by rewrite Hs.
    + cbn [app]. destruct (_ || _).
      * destruct (span_digits s) as [d' r'] eqn:E. rewrite (span_digits_app _ _ He _ _ E).
        destruct d'; intros [= <- <-]; done.
      * destruct (span_digits (g :: s)) as [d' r'] eqn:E. pose proof (span_digits_app _ _ He _ _ E) as E2.
        cbn [app] in E2. rewrite E2. destruct d'; intros [= <- <-]; done.
Qed.

Lemma scan_int_app s rest :
  num_end rest = true -> forall b d r, scan_int s = Some (b, d, r) -> scan_int (s ++ rest) = Some (b, d, r ++ rest).
Proof.
  intros He b d r. unfold scan_int. destruct s as [|c s]; [done|]. cbn [app].
  destruct (c =? _)%N.
  - destruct s as [|c' s]; [done|]. cbn [app]. destruct (c' =? 48)%N; [by intros [= <- <- <-]|].
    destruct (ascii_digit_p c'); [|done].
    destruct (span_digits (c' :: s)) as [d' r'] eqn:E. pose proof (span_digits_app _ _ He _ _ E) as E2.
    cbn [app] in E2. rewrite E2. by intros [= <- <- <-].
  - destruct (c =? 48)%N; [by intros [= <- <- <-]|]. destruct (ascii_digit_p c); [|done].
    destruct (span_digits (c :: s)) as [d' r'] eqn:E. pose proof (span_digits_app _ _ He _ _ E) as E2.
    cbn [app] in E2. rewrite E2. by intros [= <- <- <-].
Qed.

Section Numbers.
Context {F : FloatText}.

Lemma match_number_app s rest v :
  num_end rest = true -> match_number s = Some (v, []) -> match_number (s ++ rest) = Some (v, rest).
Proof.
  intros He. unfold match_number. destruct (scan_int s) as [[[neg d] s1]|] eqn:E1; [|done].
  rewrite (scan_int_app _ _ He _ _ _ E1).
  destruct (scan_frac s1) as [frac s2] eqn:E2. rewrite (scan_frac_app _ _ He _ _ E2).
  destruct (scan_exp s2) as [exp s3] eqn:E3. rewrite (scan_exp_app _ _ He _ _ E3).
  destruct frac, exp; cbn; [case_match; [done|]|..]; by intros [= <- ->].
Qed.

(** The first character of a numeral. *)
Definition num_head (c : N) : bool := ascii_digit_p c || (c =? (chr "-"))%N.

Lemma match_number_head s v r :
  match_number s = Some (v, r) ->
  exists c s', s = c :: s' /\ num_head c = true /\ match_constant constants s = None.
Proof.
  unfold match_number. destruct (scan_int s) as [[[neg d] s1]|] eqn:E; [|done]. intros _.
  unfold scan_int in E. destruct s as [|c s]; [done|]. exists c, s. split; [done|].
  assert (forall k w (x : N) t, (x =? k)%N = false -> starts_with (x :: t) (k :: w) = false) as Hne.
  { intros k w x t Hx. unfold starts_with. cbn [prefix_by]. rewrite N.eqb_sym, Hx. done. }
  unfold num_head. destruct (N.eqb_spec c (chr "-")) as [->|Hm].
  - split; [done|]. destruct s as [|c' s]; [done|].
    assert (starts_with (c' :: s) (u8 "Infinity") = false) as Hi.
    { apply Hne. destruct (N.eqb_spec c' 73) as [->|]; [|done]. done. }
    unfold match_constant, constants.
    rewrite !Hne by done. unfold starts_with in Hi |- *. cbn [prefix_by] in Hi |- *.
    cbn [N.eqb Pos.eqb andb]. cbn in Hi. cbn. by rewrite Hi.
  - assert (ascii_digit_p c = true) as Hd.
    { destruct (N.eqb_spec c 48) as [->|]; [done|]. by destruct (ascii_digit_p c). }
    rewrite Hd. split; [done|]. unfold ascii_digit_p, in_range in Hd.
    unfold match_constant, constants. rewrite !Hne by lia. done.
Qed.
End Numbers.

Lemma foldl_digits d acc :
  foldl (fun n k => 10 * n + k) (Zpos acc) (map (fun c => Z.of_N c - 48) (str_of_uint d))
  = Zpos (Pos.of_uint_acc d acc).
Proof.
  revert acc. induction d as [|d IH|d IH|d IH|d IH|d IH|d IH|d IH|d IH|d IH|d IH]; intros acc;
    [done|..]; cbn [str_of_uint map foldl Pos.of_uint_acc]; rewrite <- IH; f_equal; lia.
Qed.

Lemma Z_of_str_of_uint d : Z_of_digits (str_of_uint d) = Z.of_N (N.of_uint d).
Proof.
  unfold Z_of_digits, int_of_digits, N.of_uint. induction d; [done|..];
    cbn [str_of_uint map foldl Pos.of_uint]; try apply (foldl_digits d); [apply IHd].
Qed.

Lemma Z_of_str_of_N n : Z_of_digits (str_of_N n) = Z.of_N n.
Proof. unfold str_of_N. by rewrite Z_of_str_of_uint, DecimalN.Unsigned.of_to. Qed.

(** The digits of a positive number do not start with a zero. *)
Lemma str_of_pos_head p :
  exists c s, str_of_N (Npos p) = c :: s /\ ascii_digit_p c = true /\ (c =? 48)%N = false.
Proof.
  unfold str_of_N.
  assert (N.to_uint (Npos p) = Decimal.unorm (N.to_uint (Npos p))) as E.
  { by rewrite <- DecimalN.Unsigned.to_of, DecimalN.Unsigned.of_to. }
  pose proof (DecimalFacts.nzhead_nonzero (N.to_uint (Npos p))) as Hnz. unfold Decimal.unorm in E.
  assert (N.to_uint (Npos p) <> Decimal.zero) as Hz.
  { intros Hz. pose proof (DecimalN.Unsigned.of_to (Npos p)) as H. rewrite Hz in H. done. }
  destruct (Decimal.nzhead (N.to_uint (Npos p))) eqn:En; rewrite E in *; try done;
    [by destruct (Hnz u)|..]; eexists _, _; (split; [reflexivity|done]).
Qed.

Lemma span_digits_uint d : span_digits (str_of_uint d) = (str_of_uint d, []).
Proof. induction d; [done|..]; cbn [str_of_uint span_digits]; by rewrite IHd. Qed.

Section RoundTrip.
Context {F : FloatText}.

Lemma match_dump_int z :
  INT_MAX_STR_DIGITS <? len (str_of_N (Z.abs_N z)) = false -> match_number (dump_int z) = Some (JInt z, []).
Proof.
  intros Hz. destruct z as [|p|p]; [done|..]; cbn [dump_int Z.abs_N] in *;
    destruct (str_of_pos_head p) as (c & s & E & Hd & H0).
  - assert ((c =? chr "-")%N = false) as Hm by (unfold ascii_digit_p, in_range in Hd; lia).
    unfold match_number, scan_int. rewrite E, Hm, H0, Hd, <- E. unfold str_of_N at 1. rewrite span_digits_uint. cbn [scan_frac scan_exp].
    fold (str_of_N (Npos p)). rewrite Hz, Z_of_str_of_N. done.
  - unfold match_number, scan_int. rewrite N.eqb_refl, E, H0, Hd, <- E. unfold str_of_N at 1.
    rewrite span_digits_uint. cbn [scan_frac scan_exp]. fold (str_of_N (Npos p)).
    rewrite Hz, Z_of_str_of_N. done.
Qed.

(** *** Well-formed trees *)

(** A float as the encoder writes it: a constant, or a numeral that reads back
    as the same float. *)
Definition float_ok (t : str) : bool :=
  memb t [u8 "NaN"; u8 "Infinity"; u8 "-Infinity"] || bool_decide (match_number t = Some (JFloat t, [])).

(** What [json.loads] can return: unique keys, printable numbers. *)
Fixpoint json_ok (v : json) : bool :=
  match v with
  | JInt z => negb (INT_MAX_STR_DIGITS <? len (str_of_N (Z.abs_N z)))
  | JFloat t => float_ok t
  | JList l => forallb json_ok l
  | JObj d => bool_decide (NoDup (dkeys d)) && forallb (fun e => json_ok e.2) d
  | _ => true
  end.

(** The first character of an encoded value. *)
Definition value_head (c : N) : bool := num_head c || memb c ([34%N] ++ u8 "{[ntfNI").

Lemma dumps_head v : json_ok v = true -> exists c s, dumps v = c :: s /\ value_head c = true.
Proof.
  destruct v as [|[]|z|t|s|l|d]; cbn [dumps json_ok]; intros H; try (eexists _, _; split; [reflexivity|done]).
  - apply negb_true_iff, match_dump_int, match_number_head in H as (c & s & E & Hc & _).
    exists c, s. split; [done|]. unfold value_head. by rewrite Hc.
  - unfold float_ok in H. apply orb_true_iff in H as [H|H].
    + apply memb_true in H. repeat (apply elem_of_cons in H as [->|H]; [eexists _, _; split; [reflexivity|done]|]).
      by apply not_elem_of_nil in H.
    + apply bool_decide_eq_true, match_number_head in H as (c & s & E & Hc & _).
      exists c, s. split; [done|]. unfold value_head. by rewrite Hc.
Qed.

Lemma value_head_not c k : value_head c = true -> value_head k = false -> (c =? k)%N = false.
Proof. intros Hc Hk. apply N.eqb_neq. intros ->. congruence. Qed.

Lemma value_head_ws c : value_head c = true -> is_json_ws c = false.
Proof. intros H. unfold is_json_ws. by rewrite !(value_head_not c) by done. Qed.

Lemma skip_ws_dumps v rest : json_ok v = true -> skip_ws (dumps v ++ rest) = dumps v ++ rest.
Proof.
  intros H. destruct (dumps_head v H) as (c & s & -> & Hc). unfold skip_ws. cbn [app lstrip_by].
  by rewrite value_head_ws.
Qed.
End RoundTrip.

Lemma Forall_forallb_mp {A} (f : A -> bool) (P : A -> Prop) l :
  Forall (fun x => f x = true -> P x) l -> forallb f l = true -> Forall P l.
Proof.
  induction 1 as [|x l Hx Hl IH]; cbn [forallb]; [done|]. intros [Hf Hr]%andb_true_iff. auto.
Qed.

(** *** Objects *)

Lemma foldl_dset_fresh {V} (d acc : list (str * V)) :
  NoDup (dkeys (acc ++ d)) -> foldl (fun d p => dset p.1 p.2 d) acc d = acc ++ d.
Proof.
  revert acc. induction d as [|[k v] d IH]; intros acc H; cbn [foldl]; [by rewrite app_nil_r|].
  rewrite IH.
  - assert (dset k v acc = acc ++ [(k, v)]) as Hs.
    { assert (k ∉ dkeys acc) as Hk.
      { unfold dkeys in *. rewrite map_app in H. apply NoDup_app in H as (_ & H & _).
        intros Hin. apply (H k Hin). cbn. by left. }
      clear H IH. induction acc as [|[k' v'] acc IH]; [done|]. cbn [dset dkeys map fst] in *.
      rewrite decide_False by set_solver. cbn [app]. rewrite IH by set_solver. done. }
    cbn [fst snd]. rewrite Hs, <- app_assoc. done.
  - cbn [fst snd]. unfold dkeys in *. rewrite map_app in H |- *.
    pose proof (dkeys_dset k v acc) as E. unfold dkeys in E. rewrite E.
    apply NoDup_app in H as (H1 & H2 & H3). cbn [map fst] in H2, H3.
    rewrite decide_False by (intros Hin; apply (H2 k Hin); by left).
    rewrite <- app_assoc. cbn [app]. apply NoDup_app. split_and!; [done|set_solver|done].
Qed.

Lemma dict_of_NoDup {V} (d : list (str * V)) : NoDup (dkeys d) -> dict_of d = d.
Proof. intros H. unfold dict_of. by rewrite foldl_dset_fresh. Qed.

(** *** White space *)

Lemma skip_ws_head c s : is_json_ws c = false -> skip_ws (c :: s) = c :: s.
Proof. intros H. unfold skip_ws. cbn [lstrip_by]. by rewrite H. Qed.

Lemma skip_ws_space s : skip_ws (32%N :: s) = skip_ws s.
Proof. done. Qed.

Lemma skip_ws_join (l : list str) s :
  (exists c t l', l = (c :: t) :: l' /\ is_json_ws c = false) -> skip_ws (join (u8 ", ") l ++ s) = join (u8 ", ") l ++ s.
Proof. intros (c & t & l' & -> & H). destruct l'; cbn [join app]; by apply skip_ws_head. Qed.

Section RoundTrip2.
Context {F : FloatText}.

Lemma forallb_dumps_head v l :
  forallb json_ok (v :: l) = true ->
  exists c t l', map dumps (v :: l) = (c :: t) :: l' /\ is_json_ws c = false.
Proof.
  cbn [forallb map]. intros [Hv _]%andb_true_iff. destruct (dumps_head v Hv) as (c & s & -> & Hc).
  eexists c, s, _. split; [reflexivity|by apply value_head_ws].
Qed.

(** A value after which the text goes on with [rest] is read back, with the
    fuel that twice the length of its text gives. *)
Definition reads_back (v : json) : Prop :=
  forall n rest, (2 * length (dumps v) <= n)%nat -> num_end rest = true ->
  scan_once n (dumps v ++ rest) = Some (v, rest).

Lemma scan_once_number n s v rest :
  match_number s = Some (v, []) -> num_end rest = true -> scan_once (S n) (s ++ rest) = Some (v, rest).
Proof.
  intros H He. pose proof (match_number_app _ _ _ He H) as H2.
  destruct (match_number_head _ _ _ H2) as (c & s' & E & Hc & Hk).
  rewrite E in H2, Hk |- *. cbn [scan_once].
  unfold num_head, ascii_digit_p, in_range in Hc.
  rewrite !(proj2 (N.eqb_neq c _)) by lia. by rewrite Hk.
Qed.

Lemma reads_back_elems l n rest :
  Forall reads_back l -> forallb json_ok l = true -> l <> [] ->
  (2 * length (join (u8 ", ") (map dumps l)) + 1 <= n)%nat ->
  scan_elems n (join (u8 ", ") (map dumps l) ++ u8 "]" ++ rest) = Some (l, rest).
Proof.
  intros Hl. revert n. induction Hl as [|v l Hv Hl IH]; intros n Hok Hne Hn; [done|].
  cbn [forallb] in Hok. apply andb_true_iff in Hok as [Hok Hoks].
  destruct n as [|n]; [lia|]. cbn [scan_elems]. destruct l as [|w l].
  - cbn [map join] in *. rewrite Hv by (done || lia). done.
  - remember (w :: l) as l2 eqn:El2.
    assert (join (u8 ", ") (map dumps (v :: l2)) = dumps v ++ u8 ", " ++ join (u8 ", ") (map dumps l2)) as Hj
      by (subst; done).
    rewrite Hj in Hn |- *. rewrite !length_app in Hn. cbn [length] in Hn.
    rewrite <- !app_assoc, Hv by (done || lia). cbn [app]. rewrite skip_ws_head by done.
    cbn [N.eqb Pos.eqb]. rewrite skip_ws_space, skip_ws_join.
    + rewrite IH by (subst; done || lia). done.
    + subst l2. by apply (forallb_dumps_head).
Qed.

Lemma reads_back_members d n rest :
  Forall (fun e : str * json => reads_back e.2) d -> forallb (fun e => json_ok e.2) d = true -> d <> [] ->
  (2 * length (join (u8 ", ") (map dump_member d)) + 1 <= n)%nat ->
  scan_members n (join (u8 ", ") (map dump_member d) ++ u8 "}" ++ rest) = Some (d, rest).
Proof.
  intros Hl. revert n. induction Hl as [|[k v] l Hv Hl IH]; intros n Hok Hne Hn; [done|].
  cbn [forallb snd] in Hok, Hv. apply andb_true_iff in Hok as [Hok Hoks].
  assert (exists t, join (u8 ", ") (map dump_member ((k, v) :: l)) = dump_member (k, v) ++ t /\
                    ((l = [] /\ t = []) \/ (l <> [] /\ t = u8 ", " ++ join (u8 ", ") (map dump_member l)))) as (t & Hj & Ht).
  { destruct l; [exists []; rewrite app_nil_r; auto|eexists; split; [reflexivity|by right]]. }
  rewrite Hj in Hn |- *. unfold dump_member in Hn |- * at 1. unfold dump_string in Hn |- * at 1.
  cbn [fst snd] in Hn |- *. rewrite !length_app in Hn. cbn [length] in Hn.
  destruct n as [|n]; [lia|]. rewrite <- !app_assoc. cbn [scan_members app]. rewrite N.eqb_refl. cbn [negb].
  change (34%N :: ?s) with ([34%N] ++ s). rewrite scanstring_dump. rewrite skip_ws_head by done.
  cbn [N.eqb Pos.eqb negb]. rewrite skip_ws_space, skip_ws_dumps by done.
  destruct Ht as [[-> ->]|[Hl2 ->]].
  - cbn [app]. rewrite Hv by (done || lia). by rewrite skip_ws_head by done.
  - rewrite <- !app_assoc. rewrite length_app in Hn. cbn [length] in Hn.
    rewrite Hv by (done || lia). cbn [app]. rewrite skip_ws_head by done. cbn [N.eqb Pos.eqb].
    rewrite skip_ws_space, skip_ws_join.
    + by rewrite IH by (done || lia).
    + destruct l as [|e l]; [done|]. by eexists _, _, _.
Qed.

Lemma scan_once_constant n w v rest :
  (w, v) ∈ constants -> scan_once (S n) (w ++ rest) = Some (v, rest).
Proof.
  intros H. repeat (apply elem_of_cons in H as [[= -> ->]|H]; [done|]). by apply not_elem_of_nil in H.
Qed.

Lemma dumps_reads_back v : json_ok v = true -> reads_back v.
Proof.
  induction v as [|b|z|t|s|l IH|d IH] using json_tree_ind; intros Hok n rest Hn He;
    (destruct n as [|n]; [destruct (dumps_head _ Hok) as (c & s' & E & _); rewrite E in Hn; cbn [length] in Hn; lia|]).
  - by apply (scan_once_constant n (u8 "null")); repeat constructor.
  - destruct b; [apply (scan_once_constant n (u8 "true"))|apply (scan_once_constant n (u8 "false"))]; by repeat constructor.
  - cbn [json_ok] in Hok. apply negb_true_iff, match_dump_int in Hok. by apply scan_once_number.
  - cbn [json_ok float_ok] in Hok. apply orb_true_iff in Hok as [Hok|Hok].
    + apply scan_once_constant. apply memb_true in Hok. cbn [dumps].
      repeat (apply elem_of_cons in Hok as [->|Hok]; [by repeat constructor|]). by apply not_elem_of_nil in Hok.
    + apply bool_decide_eq_true in Hok. by apply scan_once_number.
  - cbn [dumps]. unfold dump_string. rewrite <- !app_assoc. cbn [app scan_once]. rewrite N.eqb_refl.
    change (34%N :: rest) with ([34%N] ++ rest). by rewrite scanstring_dump.
  - cbn [json_ok] in Hok. cbn [dumps] in *. rewrite !length_app in Hn. cbn [length] in Hn.
    rewrite <- !app_assoc. cbn [app scan_once N.eqb Pos.eqb]. destruct l as [|v l]; [done|].
    change (93%N :: rest) with (u8 "]" ++ rest).
    rewrite skip_ws_join by (by apply forallb_dumps_head).
    pose proof (reads_back_elems (v :: l) n rest) as H.
    assert (exists c s, join (u8 ", ") (map dumps (v :: l)) ++ u8 "]" ++ rest = c :: s /\ value_head c = true) as (c & s & E & Hc).
    { cbn [forallb] in Hok. apply andb_true_iff in Hok as [Hv _]. destruct (dumps_head v Hv) as (c & s & E & Hc).
      cbn [map]. rewrite E. destruct (map dumps l); cbn [join app]; eauto. }
    rewrite E in H |- *. rewrite (value_head_not c 93) by done. rewrite H; [done| |done|done|lia].
    by apply (Forall_forallb_mp json_ok).
  - cbn [json_ok] in Hok. apply andb_true_iff in Hok as [Hnd Hok]. apply bool_decide_eq_true in Hnd.
    cbn [dumps] in *. fold dump_member in *. rewrite !length_app in Hn. cbn [length] in Hn.
    rewrite <- !app_assoc. cbn [app scan_once N.eqb Pos.eqb]. destruct d as [|e d]; [done|].
    pose proof (reads_back_members (e :: d) n rest) as H. change (map (λ e, _) (e :: d)) with (map dump_member (e :: d)) in *.
    change (125%N :: rest) with (u8 "}" ++ rest) in *.
    assert (exists s, join (u8 ", ") (map dump_member (e :: d)) ++ u8 "}" ++ rest = 34%N :: s) as (s & E).
    { destruct d; cbn [map join app]; eauto. }
    rewrite E in H |- *. rewrite skip_ws_head by done. cbn [N.eqb Pos.eqb].
    rewrite H; [by rewrite dict_of_NoDup| |done|done|lia].
    by apply (Forall_forallb_mp (fun e : str * json => json_ok e.2)).
Qed.

Lemma loads_dumps v : json_ok v = true -> loads (dumps v) = Some v.
Proof.
  intros Hok. unfold loads. destruct (dumps_head v Hok) as (c & s & E & Hc).
  assert (starts_with (dumps v) [65279%N] = false) as ->.
  { rewrite E. unfold starts_with. cbn [prefix_by]. by rewrite N.eqb_sym, (value_head_not c 65279) by done. }
  pose proof (skip_ws_dumps v [] Hok) as Hw. rewrite app_nil_r in Hw. rewrite Hw.
  pose proof (dumps_reads_back v Hok (2 * length (dumps v) + 2)%nat []) as H. rewrite app_nil_r in H.
  rewrite H by (done || lia). done.
Qed.
End RoundTrip2.

(** *** What [loads] returns is well formed *)

(** The head of what follows a run of digits. *)
Definition no_digit (s : str) : bool := match s with c :: _ => negb (ascii_digit_p c) | [] => true end.

Lemma span_digits_cut s d r : span_digits s = (d, r) ->
  s = d ++ r /\ no_digit r = true /\ forall t, no_digit t = true -> span_digits (d ++ t) = (d, t).
Proof.
  revert d r. induction s as [|c s IH]; intros d r; cbn [span_digits].
  - intros [= <- <-]. split_and!; [done|done|]. intros [|c t]; [done|]. cbn. by destruct (ascii_digit_p c).
  - destruct (ascii_digit_p c) eqn:Hc.
    + destruct (span_digits s) as [d' r'] eqn:E. intros [= <- <-]. destruct (IH _ _ eq_refl) as (-> & Hr & Ht).
      split_and!; [done|done|]. intros t Hn. cbn [app span_digits]. by rewrite Hc, Ht.
    + intros [= <- <-]. split_and!; [done|cbn; by rewrite Hc|].
      intros [|c' t]; [done|]. cbn. by destruct (ascii_digit_p c').
Qed.

Lemma scan_frac_cut s f r : scan_frac s = (f, r) ->
  (f = [] \/ exists d, f = (chr ".") :: d) /\
  forall t, no_digit t = true -> num_end t = true \/ (exists c t', t = c :: t' /\ c <> (chr ".")) -> scan_frac (f ++ t) = (f, t).
Proof.
  assert (forall t, num_end t = true \/ (exists c t', t = c :: t' /\ c <> (chr ".")) -> scan_frac t = ([], t)) as Hnil.
  { intros [|c t] Ht; [done|]. cbn [scan_frac]. destruct (N.eqb_spec c (chr ".")) as [->|]; [|done].
    destruct Ht as [Ht|(? & ? & [= <- <-] & ?)]; done. }
  destruct s as [|c s]; cbn [scan_frac]; [intros [= <- <-]; auto|].
  destruct (N.eqb_spec c (chr ".")) as [->|]; [|intros [= <- <-]; auto].
  destruct (span_digits s) as [[|k d] r'] eqn:E; intros [= <- <-]; [auto|].
  destruct (span_digits_cut _ _ _ E) as (_ & _ & Ht). split; [eauto|]. intros t Hn _.
  cbn [app scan_frac]. rewrite N.eqb_refl. pose proof (Ht t Hn) as H. cbn [app] in H. by rewrite H.
Qed.

Lemma scan_exp_cut s e r : scan_exp s = (e, r) ->
  (e = [] \/ exists c d, e = c :: d /\ (c = (chr "e") \/ c = (chr "E"))) /\ scan_exp e = (e, []).
Proof.
  destruct s as [|c s]; cbn [scan_exp]; [intros [= <- <-]; auto|].
  destruct ((c =? chr "e")%N || (c =? chr "E")%N) eqn:Hc; [|intros [= <- <-]; auto].
  assert (c = (chr "e") \/ c = (chr "E")) as Hce by lia.
  destruct s as [|g s]; [intros [= <- <-]; auto|].
  destruct ((g =? chr "+")%N || (g =? chr "-")%N) eqn:Hg.
  - destruct (span_digits s) as [[|k d] r'] eqn:E; intros [= <- <-]; [auto|].
    destruct (span_digits_cut _ _ _ E) as (_ & _ & Ht). pose proof (Ht [] eq_refl) as H. rewrite app_nil_r in H.
    split; [eauto 6|]. cbn [app scan_exp]. by rewrite Hc, Hg, H.
  - destruct (span_digits (g :: s)) as [[|k d] r'] eqn:E; intros [= <- <-]; [auto|].
    destruct (span_digits_cut _ _ _ E) as (_ & _ & Ht). pose proof (Ht [] eq_refl) as H. rewrite app_nil_r in H.
    split; [eauto 6|]. cbn [app scan_exp]. rewrite Hc.
    assert (k = g) as -> by (cbn [span_digits] in E; destruct (ascii_digit_p g), (span_digits s); congruence).
    by rewrite Hg, H.
Qed.

Lemma scan_int_cut s neg d r : scan_int s = Some (neg, d, r) ->
  (forall t, no_digit t = true -> scan_int ((if neg then u8 "-" else []) ++ d ++ t) = Some (neg, d, t)) /\
  (d = u8 "0" \/ exists c d', d = c :: d' /\ (c =? 48)%N = false) /\ span_digits d = (d, []).
Proof.
  unfold scan_int. intros H.
  assert (exists s1, (match s1 with
    | [] => None
    | c :: s2 => if (c =? 48)%N then Some (neg, [c], s2)
                 else if ascii_digit_p c then let '(d, r) := span_digits s1 in Some (neg, d, r) else None
    end) = Some (neg, d, r)) as (s1 & H1).
  { destruct s as [|c s]; [done|]. destruct (c =? chr "-")%N.
    - exists s. destruct s as [|c' s]; [done|]. repeat case_match; simplify_eq; done.
    - exists (c :: s). repeat case_match; simplify_eq; done. }
  clear H. destruct s1 as [|c s1]; [done|]. destruct (N.eqb_spec c 48) as [->|H0].
  - injection H1 as <- <-. split_and!; [|by left|done]. intros t Ht. by destruct neg.
  - destruct (ascii_digit_p c) eqn:Hd; [|done]. destruct (span_digits (c :: s1)) as [d' r'] eqn:E.
    injection H1 as <- <-. destruct (span_digits_cut _ _ _ E) as (_ & _ & Ht).
    assert (exists d2, d' = c :: d2) as (d2 & ->).
    { cbn [span_digits] in E. rewrite Hd in E. destruct (span_digits s1). injection E as <- _. eauto. }
    apply N.eqb_neq in H0.
    split_and!; [|eauto|pose proof (Ht [] eq_refl) as H; by rewrite app_nil_r in H]. intros t Hn. pose proof (Ht t Hn) as H.
    assert ((c =? chr "-")%N = false) as Hm by (unfold ascii_digit_p, in_range in Hd; lia).
    destruct neg; cbn [app] in H |- *; [rewrite N.eqb_refl|rewrite Hm]; by rewrite H0, Hd, H.
Qed.

(** The numeral a float was read from is read the same on its own. *)
Lemma match_number_alone `{FloatText} s t r :
  match_number s = Some (JFloat t, r) -> exists t0, t = float_repr t0 /\ match_number t0 = Some (JFloat t, []).
Proof.
  unfold match_number at 1. destruct (scan_int s) as [[[neg d] s1]|] eqn:E1; [|done].
  destruct (scan_frac s1) as [f s2] eqn:E2. destruct (scan_exp s2) as [e s3] eqn:E3.
  destruct (scan_int_cut _ _ _ _ E1) as (H1 & _). destruct (scan_frac_cut _ _ _ E2) as (Hf & H2).
  destruct (scan_exp_cut _ _ _ E3) as (He & H3).
  assert (no_digit e = true) as Hne by (destruct He as [->|(? & ? & -> & [->| ->])]; done).
  assert (no_digit (f ++ e) = true) as Hnf by (destruct Hf as [->|(? & ->)]; done).
  assert (scan_frac (f ++ e) = (f, e)) as H2'.
  { apply H2; [done|]. destruct He as [->|(c & t' & -> & Hc)]; [by left|right].
    exists c, t'. split; [done|]. by destruct Hc as [->| ->]. }
  set (t0 := (if neg then u8 "-" else []) ++ d ++ f ++ e). intros Hr.
  assert ((f <> [] \/ e <> []) /\ t = float_repr t0) as [Hfe ->].
  { destruct f, e; [case_match|..]; simplify_eq; split; auto. }
  exists t0. split; [done|]. unfold match_number. unfold t0 at 1. rewrite H1 by done. rewrite H2', H3.
  destruct f, e; try done. by destruct Hfe.
Qed.

Lemma digits_uint d : span_digits d = (d, []) -> exists u, d = str_of_uint u.
Proof.
  induction d as [|c d IH]; [by exists Decimal.Nil|]. cbn [span_digits].
  destruct (ascii_digit_p c) eqn:Hc; [|done]. destruct (span_digits d) as [d' r] eqn:E. intros [= -> ->].
  destruct (IH eq_refl) as (u & ->). unfold ascii_digit_p, in_range in Hc.
  assert (c = 48 \/ c = 49 \/ c = 50 \/ c = 51 \/ c = 52 \/ c = 53 \/ c = 54 \/ c = 55 \/ c = 56 \/ c = 57)%N as Hv by lia.
  destruct Hv as [->|[->|[->|[->|[->|[->|[->|[->|[->| ->]]]]]]]]];
    [exists (Decimal.D0 u)|exists (Decimal.D1 u)|exists (Decimal.D2 u)|exists (Decimal.D3 u)|exists (Decimal.D4 u)
    |exists (Decimal.D5 u)|exists (Decimal.D6 u)|exists (Decimal.D7 u)|exists (Decimal.D8 u)|exists (Decimal.D9 u)]; done.
Qed.

Lemma length_nzhead u : (length (str_of_uint (Decimal.nzhead u)) <= length (str_of_uint u))%nat.
Proof. induction u; cbn [Decimal.nzhead str_of_uint length]; lia. Qed.

Lemma str_of_digits_le d : span_digits d = (d, []) -> d <> [] -> len (str_of_N (Z.abs_N (Z_of_digits d))) <= len d.
Proof.
  intros (u & ->)%digits_uint Hne. rewrite Z_of_str_of_uint.
  replace (Z.abs_N (Z.of_N (N.of_uint u))) with (N.of_uint u) by lia.
  unfold str_of_N. rewrite DecimalN.Unsigned.to_of. unfold Decimal.unorm, len.
  pose proof (length_nzhead u). destruct (Decimal.nzhead u) eqn:E; try lia.
  cbn [str_of_uint length]. destruct (str_of_uint u); [done|]. cbn [length]. lia.
Qed.

(** Documented behaviour of [float]: what [repr] prints is a JSON numeral or one
    of the three constants, and reads back as the same float. *)
Class FloatLaws (F : FloatText) : Prop :=
  float_text_ok : forall t v, match_number t = Some (JFloat v, []) -> float_ok v = true.

#[global] Instance id_float_laws : FloatLaws id_floats.
Proof.
  intros t v (t0 & -> & H)%match_number_alone. cbn [float_repr id_floats] in H |- *.
  unfold float_ok. rewrite (bool_decide_eq_true_2 _ H). apply orb_true_r.
Qed.

Section LoadsOk.
Context `{FL : FloatLaws}.

Lemma match_number_ok s v r : match_number s = Some (v, r) -> json_ok v = true.
Proof.
  intros H. destruct v as [|b|z|t|s'|l|d]; try done; cbn [json_ok].
  - unfold match_number in H. destruct (scan_int s) as [[[neg d] s1]|] eqn:E1; [|done].
    destruct (scan_frac s1) as [f s2]. destruct (scan_exp s2) as [e s3].
    destruct f, e; try done. destruct (Z.ltb_spec INT_MAX_STR_DIGITS (len d)); [done|]. injection H as <- <-.
    destruct (scan_int_cut _ _ _ _ E1) as (_ & Hd & Hs).
    assert (d <> []) as Hne by (destruct Hd as [->|(? & ? & -> & _)]; done).
    pose proof (str_of_digits_le d Hs Hne). apply negb_true_iff, Z.ltb_ge.
    destruct neg; [rewrite (Zabs2N.inj_opp (Z_of_digits d))|]; lia.
  - destruct (match_number_alone _ _ _ H) as (t0 & _ & Ht). by apply (float_text_ok t0).
  - unfold match_number in H. repeat case_match; simplify_eq.
  - unfold match_number in H. repeat case_match; simplify_eq.
Qed.

Lemma match_constant_ok s v r : match_constant constants s = Some (v, r) -> json_ok v = true.
Proof. unfold constants. cbn [match_constant]. repeat (case_match; [by intros [= <- _]|]). done. Qed.

Lemma dict_of_ok d :
  forallb (fun e : str * json => json_ok e.2) d = true -> json_ok (JObj (dict_of d)) = true.
Proof.
  intros H. cbn [json_ok]. unfold dict_of.
  assert (forall acc, NoDup (dkeys acc) -> Forall (fun e : str * json => json_ok e.2 = true) acc ->
    let d' := foldl (fun d p => dset p.1 p.2 d) acc d in
    NoDup (dkeys d') /\ Forall (fun e : str * json => json_ok e.2 = true) d') as Hf.
  { induction d as [|[k v] d IH]; intros acc Hn Ha; [done|]. cbn [forallb snd] in H.
    apply andb_true_iff in H as [Hv H]. apply (IH H); [by apply dset_NoDup|by apply dset_Forall]. }
  destruct (Hf []) as [Hn Ho]; [constructor|constructor|]. rewrite bool_decide_eq_true_2 by done.
  cbn [andb]. apply forallb_forall. intros e He. rewrite Forall_forall in Ho. apply Ho. by apply list_elem_of_In.
Qed.

Lemma scan_ok n :
  (forall s v r, scan_once n s = Some (v, r) -> json_ok v = true) /\
  (forall s l r, scan_elems n s = Some (l, r) -> forallb json_ok l = true) /\
  (forall s d r, scan_members n s = Some (d, r) -> forallb (fun e : str * json => json_ok e.2) d = true).
Proof.
  induction n as [|n (IHv & IHl & IHd)]; [done|]. split_and!; intros s x r.
  - cbn [scan_once]. destruct s as [|c s]; [done|]. destruct (c =? 34)%N.
    { destruct (scanstring s) as [[t r']|]; [|done]. by intros [= <- _]. }
    destruct (c =? chr "{")%N.
    { destruct (skip_ws s) as [|c2 s2]; [done|]. destruct (c2 =? _)%N; [by intros [= <- _]|].
      destruct (scan_members n _) as [[d r']|] eqn:E; [|done]. intros [= <- _]. eapply dict_of_ok, IHd, E. }
    destruct (c =? chr "[")%N.
    { destruct (skip_ws s) as [|c2 s2]; [done|]. destruct (c2 =? _)%N; [by intros [= <- _]|].
      destruct (scan_elems n _) as [[l r']|] eqn:E; [|done]. intros [= <- _]. cbn [json_ok]. eapply IHl, E. }
    destruct (match_constant constants (c :: s)) as [[v r']|] eqn:E; [intros [= <- _]; by eapply match_constant_ok|].
    apply match_number_ok.
  - cbn [scan_elems]. destruct (scan_once n s) as [[v r']|] eqn:Ev; [|done]. apply IHv in Ev.
    destruct (skip_ws r') as [|c r1]; [done|]. destruct (c =? _)%N; [intros [= <- _]; cbn [forallb]; by rewrite Ev|].
    destruct (c =? _)%N; [|done]. destruct (scan_elems n _) as [[l r2]|] eqn:El; [|done]. apply IHl in El.
    intros [= <- _]. cbn [forallb]. by rewrite Ev.
  - cbn [scan_members]. destruct s as [|q s]; [done|]. destruct (negb _); [done|].
    destruct (scanstring s) as [[k r0]|]; [|done]. destruct (skip_ws r0) as [|c r1]; [done|]. destruct (negb _); [done|].
    destruct (scan_once n _) as [[v r2]|] eqn:Ev; [|done]. apply IHv in Ev.
    destruct (skip_ws r2) as [|c2 r3]; [done|]. destruct (c2 =? _)%N; [intros [= <- _]; cbn [forallb snd]; by rewrite Ev|].
    destruct (c2 =? _)%N; [|done]. destruct (scan_members n _) as [[d r4]|] eqn:Ed; [|done]. apply IHd in Ed.
    intros [= <- _]. cbn [forallb snd]. by rewrite Ev.
Qed.

Lemma loads_ok s v : loads s = Some v -> json_ok v = true.
Proof.
  unfold loads. destruct (starts_with _ _); [done|]. destruct (scan_once _ _) as [[w r]|] eqn:E; [|done].
  destruct (skip_ws r); [|done]. intros [= <-]. eapply scan_ok, E.
Qed.
End LoadsOk.

(** *** The fuel of [loads] is enough

    Every call of the scanner consumes a character, so with twice the length of
    the text as fuel no branch ends for want of it. *)

Local Open Scope nat_scope.

Lemma put_some c o s r : put c o = Some (s, r) -> exists s', o = Some (s', r).
Proof. destruct o as [[s' r']|]; [|done]. intros [= _ <-]. eauto. Qed.

Lemma scanstring_shrinks s t r : scanstring s = Some (t, r) -> length r < length s.
Proof.
  remember (length s) as n eqn:Hn. revert s t Hn. induction n as [n IH] using lt_wf_ind. intros s t ->.
  assert (forall c s' t', scanstring s' = Some (t', r) \/ put c (scanstring s') = Some (t', r) ->
            length s' < length s -> length r < length s') as IH'.
  { intros c s' t' [H|(t2 & H)%put_some] Hl; by eapply (IH (length s') Hl). }
  destruct s as [|c s1]; cbn [scanstring]; [done|]. intros H.
  repeat (case_match; simplify_eq; cbn [length] in *; try lia;
          try (eapply IH' in H; [lia..|]); try done);
    match goal with H : put ?c (scanstring ?s') = Some _ |- _ =>
      pose proof (IH' c s' _ (or_intror H)); cbn [length] in *; lia end.
Qed.

Lemma span_digits_length s d r : span_digits s = (d, r) -> length r <= length s.
Proof. intros (-> & _)%span_digits_cut. rewrite length_app. lia. Qed.

Lemma scan_frac_length s d r : scan_frac s = (d, r) -> length r <= length s.
Proof.
  destruct s as [|c s]; cbn [scan_frac]; [by intros [= _ <-]|]. destruct (_ =? _)%N; [|by intros [= _ <-]].
  destruct (span_digits s) as [[|k d'] r'] eqn:E; intros [= _ <-]; [done|].
  apply span_digits_length in E. cbn [length]. lia.
Qed.

Lemma scan_exp_length s d r : scan_exp s = (d, r) -> length r <= length s.
Proof.
  destruct s as [|c s]; cbn [scan_exp]; [by intros [= _ <-]|]. destruct (_ || _); [|by intros [= _ <-]].
  destruct s as [|g s]; [by intros [= _ <-]|].
  destruct (_ || _).
  - destruct (span_digits s) as [[|k d'] r'] eqn:E; intros [= _ <-]; [done|].
    apply span_digits_length in E. cbn [length]. lia.
  - destruct (span_digits (g :: s)) as [[|k d'] r'] eqn:E; intros [= _ <-]; [done|].
    apply span_digits_length in E. cbn [length] in *. lia.
Qed.

Lemma scan_int_length s b d r : scan_int s = Some (b, d, r) -> length r < length s.
Proof.
  assert (forall c s1 d' r', ascii_digit_p c = true -> span_digits (c :: s1) = (d', r') -> length r' <= length s1) as Hs.
  { intros c s1 d' r' Hc. cbn [span_digits]. rewrite Hc. destruct (span_digits s1) as [d2 r2] eqn:E.
    intros [= _ <-]. by apply span_digits_length in E. }
  unfold scan_int. destruct s as [|c s]; [done|]. destruct (_ =? chr "-")%N.
  - destruct s as [|c' s]; [done|]. destruct (_ =? 48)%N; [intros [= _ _ <-]; cbn [length]; lia|].
    destruct (ascii_digit_p c') eqn:Hc; [|done]. destruct (span_digits (c' :: s)) as [d' r'] eqn:E.
    intros [= _ _ <-]. apply (Hs _ _ _ _ Hc) in E. cbn [length]. lia.
  - destruct (_ =? 48)%N; [intros [= _ _ <-]; cbn [length]; lia|].
    destruct (ascii_digit_p c) eqn:Hc; [|done]. destruct (span_digits (c :: s)) as [d' r'] eqn:E.
    intros [= _ _ <-]. apply (Hs _ _ _ _ Hc) in E. cbn [length]. lia.
Qed.

Lemma skip_ws_length s : length (skip_ws s) <= length s.
Proof. unfold skip_ws. induction s as [|c s IH]; cbn [lstrip_by]; [done|]. case_match; cbn [length]; lia. Qed.

Section Fuel.
Context {F : FloatText}.

Lemma match_number_length s v r : match_number s = Some (v, r) -> length r < length s.
Proof.
  unfold match_number. destruct (scan_int s) as [[[neg d] s1]|] eqn:E1; [|done].
  destruct (scan_frac s1) as [f s2] eqn:E2. destruct (scan_exp s2) as [e s3] eqn:E3.
  apply scan_int_length in E1. apply scan_frac_length in E2. apply scan_exp_length in E3.
  intros H. assert (r = s3) as -> by (repeat case_match; simplify_eq; done). lia.
Qed.

Lemma match_constant_length s v r : match_constant constants s = Some (v, r) -> length r < length s.
Proof.
  assert (forall w, starts_with s w = true -> w <> [] -> length (drop (length w) s) < length s) as Hw.
  { intros w (s' & ->)%starts_with_iff Hne. rewrite drop_app_length, length_app. destruct w; [done|]. cbn [length]. lia. }
  unfold constants. cbn [match_constant].
  repeat match goal with |- context [starts_with s ?w] =>
    destruct (starts_with s w) eqn:?; [by intros [= _ <-]; apply (Hw w)|]
  end. done.
Qed.

Lemma scan_shrinks n :
  (forall s v r, scan_once n s = Some (v, r) -> length r < length s) /\
  (forall s l r, scan_elems n s = Some (l, r) -> length r < length s) /\
  (forall s d r, scan_members n s = Some (d, r) -> length r < length s).
Proof.
  induction n as [|n (IHv & IHl & IHd)]; [done|]. split_and!; intros s x r.
  - cbn [scan_once]. destruct s as [|c s]; [done|]. destruct (c =? 34)%N.
    { destruct (scanstring s) as [[t r']|] eqn:E; [|done]. apply scanstring_shrinks in E. intros [= _ <-]. cbn [length]. lia. }
    destruct (c =? chr "{")%N.
    { pose proof (skip_ws_length s). destruct (skip_ws s) as [|c2 s2]; [done|]. cbn [length] in *.
      destruct (c2 =? _)%N; [intros [= _ <-]; lia|].
      destruct (scan_members n _) as [[d r']|] eqn:E; [|done]. apply IHd in E. intros [= _ <-]. cbn [length] in *. lia. }
    destruct (c =? chr "[")%N.
    { pose proof (skip_ws_length s). destruct (skip_ws s) as [|c2 s2]; [done|]. cbn [length] in *.
      destruct (c2 =? _)%N; [intros [= _ <-]; lia|].
      destruct (scan_elems n _) as [[d r']|] eqn:E; [|done]. apply IHl in E. intros [= _ <-]. cbn [length] in *. lia. }
    destruct (match_constant constants (c :: s)) as [[v r']|] eqn:E; [intros [= _ <-]; by eapply match_constant_length|].
    apply match_number_length.
  - cbn [scan_elems]. destruct (scan_once n s) as [[v r']|] eqn:Ev; [|done]. apply IHv in Ev.
    pose proof (skip_ws_length r'). destruct (skip_ws r') as [|c r1]; [done|]. cbn [length] in *.
    destruct (c =? _)%N; [intros [= _ <-]; lia|]. destruct (c =? _)%N; [|done]. pose proof (skip_ws_length r1).
    destruct (scan_elems n _) as [[l r2]|] eqn:El; [|done]. apply IHl in El. intros [= _ <-]. lia.
  - cbn [scan_members]. destruct s as [|q s]; [done|]. destruct (negb _); [done|].
    destruct (scanstring s) as [[k r0]|] eqn:Es; [|done]. apply scanstring_shrinks in Es.
    pose proof (skip_ws_length r0). destruct (skip_ws r0) as [|c r1]; [done|]. destruct (negb _); [done|].
    pose proof (skip_ws_length r1). destruct (scan_once n _) as [[v r2]|] eqn:Ev; [|done]. apply IHv in Ev.
    pose proof (skip_ws_length r2). destruct (skip_ws r2) as [|c2 r3]; [done|]. cbn [length] in *.
    destruct (c2 =? _)%N; [intros [= _ <-]; lia|]. destruct (c2 =? _)%N; [|done]. pose proof (skip_ws_length r3).
    destruct (scan_members n _) as [[d r4]|] eqn:Ed; [|done]. apply IHd in Ed. intros [= _ <-]. lia.
Qed.

Lemma scan_fuel n m :
  (forall s, 2 * length s + 1 <= n -> 2 * length s + 1 <= m -> scan_once n s = scan_once m s) /\
  (forall s, 2 * length s + 2 <= n -> 2 * length s + 2 <= m -> scan_elems n s = scan_elems m s) /\
  (forall s, 2 * length s + 2 <= n -> 2 * length s + 2 <= m -> scan_members n s = scan_members m s).
Proof.
  revert m. induction n as [|n IH]; intros m; [split_and!; intros; lia|]. destruct m as [|m]; [split_and!; intros; lia|].
  destruct (IH m) as (IHv & IHl & IHd). destruct (scan_shrinks m) as (Sv & _ & _).
  split_and!; intros s Hn Hm.
  - cbn [scan_once]. destruct s as [|c s]; [done|]. cbn [length] in *. destruct (c =? 34)%N; [done|].
    pose proof (skip_ws_length s). destruct (skip_ws s) as [|c2 s2]; [done|].
    rewrite IHd, IHl by lia. done.
  - cbn [scan_elems]. rewrite IHv by lia. destruct (scan_once m s) as [[v r]|] eqn:E; [|done]. apply Sv in E.
    pose proof (skip_ws_length r). destruct (skip_ws r) as [|c r1]; [done|]. cbn [length] in *.
    pose proof (skip_ws_length r1). rewrite IHl by lia. done.
  - cbn [scan_members]. destruct s as [|q s]; [done|]. destruct (negb _); [done|].
    destruct (scanstring s) as [[k r0]|] eqn:Es; [|done]. apply scanstring_shrinks in Es. cbn [length] in *.
    pose proof (skip_ws_length r0). destruct (skip_ws r0) as [|c r1]; [done|]. destruct (negb _); [done|].
    cbn [length] in *. pose proof (skip_ws_length r1). rewrite IHv by lia.
    destruct (scan_once m _) as [[v r2]|] eqn:Ev; [|done]. apply Sv in Ev.
    pose proof (skip_ws_length r2). destruct (skip_ws r2) as [|c2 r3]; [done|]. cbn [length] in *.
    pose proof (skip_ws_length r3). rewrite IHd by lia. done.
Qed.

(** More fuel never changes what [loads] reads. *)
Lemma loads_fuel s n :
  2 * length s + 2 <= n -> scan_once (2 * length s + 2) (skip_ws s) = scan_once n (skip_ws s).
Proof. intros Hn. pose proof (skip_ws_length s). apply scan_fuel; lia. Qed.
End Fuel.
