(* ===== verification/Sha256.v ===== *)
(** * SHA-256 ([hashlib.sha256])

    The hash behind cache keys, the policy fingerprint and deterministic
    sampling, on byte lists, with 32-bit words kept by reduction modulo 2^32. *)

From S2P Require Import Prelude Text.
Local Open Scope N_scope.

Definition w32 (x : N) : N := x mod 4294967296.
Definition add32 (a b : N) : N := w32 (a + b).
Definition not32 (x : N) : N := 4294967295 - x.
Definition rotr (n x : N) : N := N.lor (N.shiftr x n) (w32 (N.shiftl x (32 - n))).

Definition sha_k : list N := [
   1116352408; 1899447441; 3049323471; 3921009573; 961987163; 1508970993;
   2453635748; 2870763221; 3624381080; 310598401; 607225278; 1426881987;
   1925078388; 2162078206; 2614888103; 3248222580; 3835390401; 4022224774;
   264347078; 604807628; 770255983; 1249150122; 1555081692; 1996064986;
   2554220882; 2821834349; 2952996808; 3210313671; 3336571891; 3584528711;
   113926993; 338241895; 666307205; 773529912; 1294757372; 1396182291;
   1695183700; 1986661051; 2177026350; 2456956037; 2730485921; 2820302411;
   3259730800; 3345764771; 3516065817; 3600352804; 4094571909; 275423344;
   430227734; 506948616; 659060556; 883997877; 958139571; 1322822218;
   1537002063; 1747873779; 1955562222; 2024104815; 2227730452; 2361852424;
   2428436474; 2756734187; 3204031479; 3329325298]%N.

Definition sha_h0 : list N := [
   1779033703; 3144134277; 1013904242; 2773480762; 1359893119; 2600822924;
   528734635; 1541459225]%N.

Definition small0 (x : N) : N := N.lxor (N.lxor (rotr 7 x) (rotr 18 x)) (N.shiftr x 3).
Definition small1 (x : N) : N := N.lxor (N.lxor (rotr 17 x) (rotr 19 x)) (N.shiftr x 10).
Definition big0 (x : N) : N := N.lxor (N.lxor (rotr 2 x) (rotr 13 x)) (rotr 22 x).
Definition big1 (x : N) : N := N.lxor (N.lxor (rotr 6 x) (rotr 11 x)) (rotr 25 x).
Definition choose (x y z : N) : N := N.lxor (N.land x y) (N.land (not32 x) z).
Definition majority (x y z : N) : N := N.lxor (N.lxor (N.land x y) (N.land x z)) (N.land y z).

(** Big-endian bytes. *)
Fixpoint be_bytes (n : nat) (x : N) : list N :=
  match n with O => [] | S n' => be_bytes n' (x / 256) ++ [x mod 256] end.

Definition be_word (l : list N) : N := foldl (fun a b => a * 256 + b) 0 l.

(** Message padding: a one bit, zeros to 56 modulo 64 bytes, the bit length. *)
Definition sha_pad (msg : list N) : list N :=
  let n := N.of_nat (length msg) in
  let zeros := (119 - n mod 64) mod 64 in
  msg ++ [128] ++ replicate (N.to_nat zeros) 0 ++ be_bytes 8 (n * 8).

Fixpoint words (fuel : nat) (l : list N) : list N :=
  match fuel with
  | O => []
  | S f => match l with [] => [] | _ => be_word (take 4 l) :: words f (drop 4 l) end
  end.

(** The message schedule, newest word first. *)
Fixpoint schedule (n : nat) (w : list N) : list N :=
  match n with
  | O => w
  | S n' =>
    let x i := nth i w 0 in
    schedule n' (add32 (add32 (small1 (x 1%nat)) (x 6%nat)) (add32 (small0 (x 14%nat)) (x 15%nat)) :: w)
  end.

Definition sha_round (st : list N) (kw : N * N) : list N :=
  match st with
  | [a; b; c; d; e; f; g; h] =>
    let t1 := add32 (add32 (add32 h (big1 e)) (add32 (choose e f g) kw.1)) kw.2 in
    let t2 := add32 (big0 a) (majority a b c) in
    [add32 t1 t2; a; b; c; add32 d t1; e; f; g]
  | _ => st
  end.

Definition sha_block (h : list N) (block : list N) : list N :=
  let w := rev (schedule 48 (rev (words 16 block))) in
  zip_with add32 h (foldl sha_round h (zip sha_k w)).

Fixpoint sha_blocks (fuel : nat) (h l : list N) : list N :=
  match fuel with
  | O => h
  | S f => match l with [] => h | _ => sha_blocks f (sha_block h (take 64 l)) (drop 64 l) end
  end.

(** [hashlib.sha256(msg).digest()] *)
Definition sha256 (msg : list N) : list N :=
  let p := sha_pad msg in
  concat (map (be_bytes 4) (sha_blocks (length p) sha_h0 p)).

Definition hex_char (d : N) : N := if d <? 10 then 48 + d else 87 + d.

(** [.hexdigest()] *)
Definition hexdigest (digest : list N) : str :=
  concat (map (fun b => [hex_char (b / 16); hex_char (b mod 16)]) digest).

(** [int.from_bytes(b, "big")] *)
Definition from_bytes_big (b : list N) : N := be_word b.

(** The published test vectors. *)
Example sha256_empty : hexdigest (sha256 []) =
  u8 "e3b0c44298fc1c149afbf4c8996fb92427ae41e4649b934ca495991b7852b855".
Proof. vm_compute. reflexivity. Qed.

Example sha256_abc : hexdigest (sha256 (u8 "abc")) =
  u8 "ba7816bf8f01cfea414140de5dae2223b00361a396177a9cb410ff61f20015ad".
Proof. vm_compute. reflexivity. Qed.

Example sha256_two_blocks :
  hexdigest (sha256 (u8 "abcdbcdecdefdefgefghfghighijhijkijkljklmklmnlmnomnopnopq")) =
  u8 "248d6a61d20638b8e5c026930c3e6039a33ce45964ff2167f6ecedd419db06c1".
Proof. vm_compute. reflexivity. Qed.
