(* ===== verification/Spans.v ===== *)
(** * Half-open ranges and greedy selection

    The overlap test and the keep-unless-it-overlaps loop that the planner and
    the detectors share, in the form of a linear scan over the accepted ranges,
    with the facts both use: what is kept is pairwise disjoint, what is dropped
    overlaps something kept that came before it, dropping what was not kept
    changes nothing, and disjoint ranges sorted by start follow each other. *)

From S2P Require Import Prelude.

(** Two half-open ranges overlap: the test of the linear scan that
    [_NonOverlappingSpans] replaces. *)
Definition ranges_overlap (x y : Z * Z) : bool := (x.1 <? y.2) && (y.1 <? x.2).

Definition linear_overlaps (acc : list (Z * Z)) (r : Z * Z) : bool :=
  existsb (ranges_overlap r) acc.

Lemma existsb_none {A} (f : A -> bool) l : Forall (fun x => f x = false) l -> existsb f l = false.
Proof. induction 1; cbn; [done|]. by rewrite H, IHForall. Qed.

Lemma sorted_app_inv {A} (R : A -> A -> Prop) l1 l2 :
  StronglySorted R (l1 ++ l2) <->
  StronglySorted R l1 /\ StronglySorted R l2 /\ Forall (fun x => Forall (R x) l2) l1.
Proof.
  induction l1 as [|x l1 IH]; cbn.
  { split; [intros; split_and!; [constructor|done|constructor]|by intros (_ & ? & _)]. }
  split.
  - intros H. inversion H as [|? ? H1 H2]; subst. apply IH in H1 as (? & ? & ?).
    apply Forall_app in H2 as [? ?]. split_and!; [by constructor|done|by constructor].
  - intros (H1 & H2 & H3). inversion H1; subst. apply Forall_cons in H3 as [? ?].
    constructor; [apply IH; auto|]. by apply Forall_app.
Qed.

Lemma len_pos {A} (l : list A) : l <> [] -> 0 < len l.
Proof. destruct l; [done|]. rewrite len_cons. pose proof (len_nonneg l). lia. Qed.

(** ** The selection loop *)

Section Select.
Context {A : Type} (span : A -> Z * Z).

(** The same loop with the linear scan over the accepted ranges. *)
Fixpoint select_ref (acc : list (Z * Z)) (cands : list A) : list A :=
  match cands with
  | [] => []
  | c :: cands' =>
    if linear_overlaps acc (span c) then select_ref acc cands'
    else c :: select_ref (span c :: acc) cands'
  end.

Lemma linear_overlaps_perm acc acc' r : acc ≡ₚ acc' -> linear_overlaps acc r = linear_overlaps acc' r.
Proof. unfold linear_overlaps. induction 1; cbn; try congruence. by destruct (ranges_overlap r x), (ranges_overlap r y). Qed.

Lemma select_ref_perm acc acc' cands : acc ≡ₚ acc' -> select_ref acc cands = select_ref acc' cands.
Proof.
  revert acc acc'. induction cands as [|c cands IH]; intros acc acc' H; cbn; [done|].
  rewrite (linear_overlaps_perm _ _ _ H). destruct (linear_overlaps acc' (span c)); [auto|].
  f_equal. apply IH. by rewrite H.
Qed.

Definition nonempty_span (c : A) : Prop := (span c).1 < (span c).2.

Lemma select_ref_elem acc cands c : c ∈ select_ref acc cands -> c ∈ cands.
Proof.
  revert acc. induction cands as [|d cands IH]; intros acc; cbn; [done|].
  destruct (linear_overlaps acc (span d)); set_solver.
Qed.

Definition disjoint_spans (x y : A) : Prop := ranges_overlap (span x) (span y) = false.

Lemma ranges_overlap_sym x y : ranges_overlap x y = ranges_overlap y x.
Proof. unfold ranges_overlap. lia. Qed.

Lemma linear_overlaps_false acc r :
  linear_overlaps acc r = false <-> forall y, y ∈ acc -> ranges_overlap r y = false.
Proof.
  unfold linear_overlaps. rewrite <- not_true_iff_false, existsb_exists. split.
  - intros H y Hy. apply not_true_iff_false. intros ?. apply H. exists y. by rewrite <- list_elem_of_In.
  - intros H (y & Hy & Ho). apply list_elem_of_In, H in Hy. congruence.
Qed.

Lemma select_ref_avoids acc cands c y :
  c ∈ select_ref acc cands -> y ∈ acc -> ranges_overlap (span c) y = false.
Proof.
  revert acc. induction cands as [|d cands IH]; intros acc; cbn; [set_solver|].
  destruct (linear_overlaps acc (span d)) eqn:E; [apply IH|].
  intros [->|Hc]%elem_of_cons Hy.
  - by eapply linear_overlaps_false.
  - eapply IH; [done|]. by apply elem_of_cons; right.
Qed.

Lemma select_ref_disjoint acc cands : StronglySorted disjoint_spans (select_ref acc cands).
Proof.
  revert acc. induction cands as [|d cands IH]; intros acc; cbn; [constructor|].
  destruct (linear_overlaps acc (span d)); [done|]. constructor; [done|].
  apply Forall_forall. intros c Hc. unfold disjoint_spans. rewrite ranges_overlap_sym.
  eapply select_ref_avoids; [done|set_solver].
Qed.

Lemma select_ref_pairwise acc cands c d :
  c ∈ select_ref acc cands -> d ∈ select_ref acc cands ->
  c = d \/ ranges_overlap (span c) (span d) = false.
Proof.
  revert acc. induction cands as [|x cands IH]; intros acc; cbn; [set_solver|].
  destruct (linear_overlaps acc (span x)); [apply IH|].
  intros [->|Hc]%elem_of_cons [->|Hd]%elem_of_cons; [by left| | |by eapply IH]; right.
  - rewrite ranges_overlap_sym. eapply select_ref_avoids; [done|by left].
  - eapply select_ref_avoids; [done|by left].
Qed.

(** A rejected candidate overlaps a range accepted before it. *)
Lemma select_ref_maximal acc cands (R : A -> A -> Prop) c :
  StronglySorted R cands -> c ∈ cands ->
  c ∈ select_ref acc cands \/ (exists y, y ∈ acc /\ ranges_overlap (span c) y = true) \/
  exists d, d ∈ select_ref acc cands /\ ranges_overlap (span c) (span d) = true /\ R d c.
Proof.
  revert acc. induction cands as [|d cands IH]; intros acc Hs Hc; [set_solver|]. cbn.
  inversion Hs as [|? ? Hs' Hd]; subst.
  apply elem_of_cons in Hc as [->|Hc].
  - destruct (linear_overlaps acc (span d)) eqn:E; [|left; set_solver].
    right; left. unfold linear_overlaps in E. apply existsb_exists in E as (y & Hy & E).
    exists y. by rewrite list_elem_of_In.
  - destruct (linear_overlaps acc (span d)) eqn:E; [by apply IH|].
    destruct (IH (span d :: acc) Hs' Hc) as [?|[(y & Hy & Ho)|(d' & ? & ? & ?)]].
    + left. set_solver.
    + apply elem_of_cons in Hy as [->|Hy]; [|right; left; eauto].
      right; right. exists d. split_and!; [set_solver|done|].
      rewrite Forall_forall in Hd. auto.
    + right; right. exists d'. split_and!; [set_solver|done|done].
Qed.

(** Dropping candidates that were not selected changes nothing. *)
Lemma select_ref_filter (p : A -> bool) acc cands :
  (forall c, c ∈ select_ref acc cands -> p c = true) ->
  select_ref acc (List.filter p cands) = select_ref acc cands.
Proof.
  revert acc. induction cands as [|c cands IH]; intros acc H; cbn in *; [done|].
  destruct (linear_overlaps acc (span c)) eqn:E.
  - destruct (p c); cbn; [rewrite E|]; by apply IH.
  - rewrite (H c) by set_solver. cbn. rewrite E. f_equal. apply IH. set_solver.
Qed.
End Select.

(** ** Sorted ranges *)

Lemma StronglySorted_perm {A} (R : A -> A -> Prop) l l' :
  (forall x y, R x y -> R y x) -> l ≡ₚ l' -> StronglySorted R l -> StronglySorted R l'.
Proof.
  intros Hsym. induction 1 as [|x l l' Hp IH|x y l|l1 l2 l3 _ IH1 _ IH2]; intros H; auto.
  - inversion H; subst. constructor; [auto|]. by rewrite <- Hp.
  - inversion H as [|? ? H1 H2]; subst. inversion H1; subst.
    apply Forall_cons in H2 as [? ?]. repeat constructor; auto.
Qed.

Lemma StronglySorted_impl {A} (R S : A -> A -> Prop) l :
  (forall x y, x ∈ l -> y ∈ l -> R x y -> S x y) -> StronglySorted R l -> StronglySorted S l.
Proof.
  intros Himp. induction 1 as [|x l Hl IH Hx]; constructor.
  - apply IH. intros. apply Himp; set_solver.
  - rewrite Forall_forall in Hx |- *. intros y Hy. apply Himp; [set_solver|set_solver|auto].
Qed.

Lemma StronglySorted_and {A} (R S : A -> A -> Prop) l :
  StronglySorted R l -> StronglySorted S l -> StronglySorted (fun x y => R x y /\ S x y) l.
Proof.
  induction 1 as [|x l Hl IH Hx]; intros H; constructor; inversion H; subst; auto.
  by apply Forall_and.
Qed.

(** Pairwise disjoint non-empty ranges, once sorted by start, follow each other. *)
Lemma sort_disjoint {A} (span : A -> Z * Z) (key : A -> list Q) l :
  (forall x, exists k, key x = zk (span x).1 :: k) ->
  Forall (nonempty_span span) l -> StronglySorted (disjoint_spans span) l ->
  StronglySorted (fun x y => (span x).2 <= (span y).1) (sort_on key l).
Proof.
  intros Hkey Hne Hd.
  apply (StronglySorted_impl (fun x y => lex_leb (key x) (key y) = true /\ disjoint_spans span x y)).
  - intros x y Hx Hy [Hle Hno]. rewrite elem_of_sort_on in Hx, Hy.
    rewrite Forall_forall in Hne. pose proof (Hne x Hx). pose proof (Hne y Hy).
    destruct (Hkey x) as [k Ek], (Hkey y) as [k' Ek']. rewrite Ek, Ek', lex_leb_zk in Hle.
    unfold nonempty_span, disjoint_spans, ranges_overlap in *.
    destruct (Z.compare_spec (span x).1 (span y).1); [lia|lia|done].
  - apply StronglySorted_and; [apply sort_on_sorted|].
    eapply StronglySorted_perm; [|symmetry; apply sort_on_perm|done].
    intros x y. unfold disjoint_spans. by rewrite ranges_overlap_sym.
Qed.
