(* ===== verification/Regex.v ===== *)
(** * The regular expressions of Python's [re]

    A backtracking matcher in continuation-passing style: alternatives are
    tried left to right, a greedy repetition tries one more round before it
    stops, a lazy one stops first, and the first success wins, as in CPython's
    engine.  [finditer] is the library's scan, with its rule for empty matches.
    The patterns of the gateway are terms of [re]; the general lemmas below
    (spans in range, matches in order, captured groups inside the match, the
    matched text in the language of the pattern) hold for all of them. *)

From S2P Require Import Prelude Text.

Inductive re : Type :=
| Eps
| Chr (p : N -> bool)                                   (* one character of a class *)
| Seq (a b : re)
| Alt (a b : re)
| Rep (greedy : bool) (mn : nat) (extra : option N) (a : re)
                        (* at least [mn] times, then at most [extra] more *)
| Grp (n : nat) (a : re)                                (* capture group *)
| Ahead (positive : bool) (a : re)                      (* (?=a), (?!a) *)
| Behind (positive : bool) (p : N -> bool)              (* (?<=c), (?<!c), one character *)
| Bos                                                   (* ^ without MULTILINE, \A *)
| Bol                                                   (* ^ with MULTILINE *)
| Eos                                                   (* \Z *)
| Eol                                                   (* $ without MULTILINE *)
| EolM                                                  (* $ with MULTILINE *)
| WordB.                                                (* \b *)

(** Where the matcher stands: the character before, the text ahead, the offset
    and the groups captured so far. *)
Record mst := MSt {
  m_prev : option N;
  m_rest : str;
  m_pos : Z;
  m_groups : list (nat * (Z * Z));
}.

Definition m_step (c : N) (r : str) (s : mst) : mst :=
  MSt (Some c) r (m_pos s + 1) (m_groups s).

Definition m_set (n : nat) (span : Z * Z) (s : mst) : mst :=
  MSt (m_prev s) (m_rest s) (m_pos s) (dset n span (m_groups s)).

Definition is_newline (c : N) : bool := (c =? 10)%N.

Definition left_of (left : option N) : option (option N) :=
  match left with
  | None => Some None
  | Some 0%N => None
  | Some n => Some (Some (n - 1)%N)
  end.

Section Engine.
Context {U : Unicode}.

Definition opt_word (o : option N) : bool := match o with Some c => u_word c | None => false end.

(** The optional rounds of a repetition whose body is the matcher [m]: at most
    [left] more, each of which has to consume text. *)
Fixpoint rep_more (m : mst -> (mst -> option mst) -> option mst) (greedy : bool)
  (k : mst -> option mst) (fuel : nat) (left : option N) (s : mst) {struct fuel} : option mst :=
  match fuel with
  | O => k s
  | S fuel' =>
    let again :=
      match left_of left with
      | None => None
      | Some left' =>
        m s (fun s' => if m_pos s <? m_pos s' then rep_more m greedy k fuel' left' s' else None)
      end in
    if greedy then match again with Some x => Some x | None => k s end
    else match k s with Some x => Some x | None => again end
  end.

(** The mandatory rounds, then the optional ones; every optional round
    consumes a character, so the length of the text ahead bounds their number. *)
Fixpoint rep_need (m : mst -> (mst -> option mst) -> option mst) (greedy : bool)
  (extra : option N) (k : mst -> option mst) (n : nat) (s : mst) {struct n} : option mst :=
  match n with
  | O => rep_more m greedy k (S (length (m_rest s))) extra s
  | S n' => m s (fun s' => rep_need m greedy extra k n' s')
  end.

Fixpoint matches (r : re) (s : mst) (k : mst -> option mst) {struct r} : option mst :=
  match r with
  | Eps => k s
  | Chr p =>
    match m_rest s with
    | [] => None
    | c :: rest => if p c then k (m_step c rest s) else None
    end
  | Seq a b => matches a s (fun s' => matches b s' k)
  | Alt a b => match matches a s k with Some x => Some x | None => matches b s k end
  | Rep greedy mn extra a =>
    rep_need (matches a) greedy extra k mn s
  | Grp n a => matches a s (fun s' => k (m_set n (m_pos s, m_pos s') s'))
  | Ahead positive a =>
    match matches a s Some with
    | Some _ => if positive then k s else None
    | None => if positive then None else k s
    end
  | Behind positive p =>
    let hit := match m_prev s with Some c => p c | None => false end in
    if Bool.eqb hit positive then k s else None
  | Bos => match m_prev s with None => k s | Some _ => None end
  | Bol => match m_prev s with
           | None => k s
           | Some c => if is_newline c then k s else None
           end
  | Eos => match m_rest s with [] => k s | _ => None end
  | Eol => match m_rest s with
           | [] => k s
           | [c] => if is_newline c then k s else None
           | _ => None
           end
  | EolM => match m_rest s with
            | [] => k s
            | c :: _ => if is_newline c then k s else None
            end
  | WordB =>
    if Bool.eqb (opt_word (m_prev s)) (opt_word (head (m_rest s))) then None else k s
  end.

(** ** Match objects and the entry points of the module *)

Record mtch := Mtch { mt_start : Z; mt_end : Z; mt_groups : list (nat * (Z * Z)) }.

Definition m_init (text : str) : mst := MSt None text 0 [].

Definition m_clear (s : mst) : mst := MSt (m_prev s) (m_rest s) (m_pos s) [].

Definition match_at (r : re) (must_advance : bool) (s : mst) : option mst :=
  matches r (m_clear s)
    (fun s' => if must_advance && (m_pos s' =? m_pos s) then None else Some s').

Fixpoint search_go (r : re) (must_advance : bool) (prev : option N) (pos : Z) (rest : str)
  : option (Z * mst) :=
  match match_at r must_advance (MSt prev rest pos []) with
  | Some e => Some (pos, e)
  | None =>
    match rest with
    | [] => None
    | c :: rest' => search_go r false (Some c) (pos + 1) rest'
    end
  end.

Definition to_mtch (start : Z) (e : mst) : mtch := Mtch start (m_pos e) (m_groups e).

Fixpoint finditer_go (r : re) (fuel : nat) (must_advance : bool) (s : mst) : list mtch :=
  match fuel with
  | O => []
  | S fuel' =>
    match search_go r must_advance (m_prev s) (m_pos s) (m_rest s) with
    | None => []
    | Some (start, e) => to_mtch start e :: finditer_go r fuel' (m_pos e =? start) e
    end
  end.

(** [re.finditer(r, text)]. *)
Definition finditer (r : re) (text : str) : list mtch :=
  finditer_go r (2 * length text + 2) false (m_init text).

(** [re.search(r, text)], [re.match(r, text)], [re.fullmatch(r, text)]. *)
Definition re_search (r : re) (text : str) : option mtch :=
  match search_go r false None 0 text with
  | Some (start, e) => Some (to_mtch start e)
  | None => None
  end.

Definition re_match (r : re) (text : str) : option mtch :=
  to_mtch 0 <$> matches r (m_init text) Some.

Definition re_fullmatch (r : re) (text : str) : option mtch :=
  to_mtch 0 <$> matches r (m_init text) (fun s => match m_rest s with [] => Some s | _ => None end).

(** [m.start(n)], [m.end(n)]; group 0 is the whole match. *)
Definition mt_span (n : nat) (m : mtch) : option (Z * Z) :=
  match n with O => Some (mt_start m, mt_end m) | _ => dget n (mt_groups m) end.

(** [m.group(n)]. *)
Definition mt_group (n : nat) (text : str) (m : mtch) : option str :=
  match mt_span n m with Some (a, b) => Some (slice text a b) | None => None end.

(** [[m.group(0) for m in finditer]]: [re.findall] of a pattern without groups. *)
Definition findall (r : re) (text : str) : list str :=
  map (fun m => slice text (mt_start m) (mt_end m)) (finditer r text).

(** [r.sub(lambda m: repl, text)]. *)
Fixpoint sub_go (text repl : str) (ms : list mtch) (cursor : Z) : str :=
  match ms with
  | [] => slice text cursor (len text)
  | m :: ms' => slice text cursor (mt_start m) ++ repl ++ sub_go text repl ms' (mt_end m)
  end.

Definition re_sub (r : re) (repl text : str) : str := sub_go text repl (finditer r text) 0.

(** ** Pattern constructors *)

Definition cls (p : N -> bool) : re := Chr p.
Definition ch (c : N) : re := Chr (N.eqb c).
Fixpoint lit (s : str) : re := match s with [] => Eps | c :: s' => Seq (ch c) (lit s') end.
Fixpoint seqs (l : list re) : re := match l with [] => Eps | [r] => r | r :: l' => Seq r (seqs l') end.
Fixpoint alts (l : list re) : re := match l with [] => Chr (fun _ => false) | [r] => r | r :: l' => Alt r (alts l') end.
Definition star (r : re) : re := Rep true 0 None r.
Definition plus (r : re) : re := Rep true 1 None r.
Definition opt (r : re) : re := Rep true 0 (Some 1%N) r.
Definition lazy_star (r : re) : re := Rep false 0 None r.
Definition lazy_plus (r : re) : re := Rep false 1 None r.
Definition rep (n : nat) (r : re) : re := Rep true n (Some 0%N) r.
Definition rep_at_least (n : nat) (r : re) : re := Rep true n None r.
Definition rep_range (n m : nat) (r : re) : re := Rep true n (Some (N.of_nat (m - n))) r.

Definition one_of (s : str) (c : N) : bool := existsb (N.eqb c) s.
Definition is_digit (c : N) : bool := match u_decimal c with Some _ => true | None => false end.
Definition not_newline (c : N) : bool := negb (is_newline c).
Definition digit : re := Chr is_digit.
Definition word_ch : re := Chr u_word.
Definition space : re := Chr is_space.
Definition dot : re := Chr not_newline.

(** Case-insensitive literals and classes ([re.IGNORECASE]). *)
Definition ci_cls (p : N -> bool) : re := Chr (fun c => existsb p (u_variants c)).
Fixpoint ci_lit (s : str) : re :=
  match s with [] => Eps | c :: s' => Seq (ci_cls (N.eqb c)) (ci_lit s') end.
End Engine.

(** ** What a match says *)

(** The texts a pattern can consume, context conditions left out. *)
Fixpoint lpow (P : str -> Prop) (n : nat) (w : str) : Prop :=
  match n with
  | O => w = []
  | S n' => exists u v, w = u ++ v /\ P u /\ lpow P n' v
  end.

Definition within (n : nat) (extra : option N) : Prop :=
  match extra with None => True | Some e => (N.of_nat n <= e)%N end.

Fixpoint lang (r : re) (w : str) : Prop :=
  match r with
  | Chr p => exists c, w = [c] /\ p c = true
  | Seq a b => exists u v, w = u ++ v /\ lang a u /\ lang b v
  | Alt a b => lang a w \/ lang b w
  | Rep _ mn extra a => exists n, within n extra /\ lpow (lang a) (mn + n) w
  | Grp _ a => lang a w
  | _ => w = []
  end.

(** Groups a successful match of the pattern always sets. *)
Fixpoint sets (n : nat) (r : re) : bool :=
  match r with
  | Seq a b => sets n a || sets n b
  | Alt a b => sets n a && sets n b
  | Rep _ mn _ a => (0 <? mn)%nat && sets n a
  | Grp m a => (n =? m)%nat || sets n a
  | _ => false
  end.

(** The texts that group [n] of the pattern can capture. *)
Fixpoint glang (n : nat) (r : re) (w : str) : Prop :=
  match r with
  | Seq a b | Alt a b => glang n a w \/ glang n b w
  | Rep _ _ _ a => glang n a w
  | Grp m a => (n = m /\ lang a w) \/ glang n a w
  | _ => False
  end.

Definition group_set (n : nat) (s : mst) : Prop := is_Some (dget n (m_groups s)).

Definition groups_within (lo : Z) (s : mst) : Prop :=
  forall n a b, dget n (m_groups s) = Some (a, b) -> lo <= a /\ a <= b /\ b <= m_pos s.

(** [s'] is reached from [s] by consuming [w]; groups stay set and in range. *)
Record moves (w : str) (s s' : mst) : Prop := Moves {
  mv_rest : m_rest s = w ++ m_rest s';
  mv_pos : m_pos s' = m_pos s + len w;
  mv_mono : forall n, group_set n s -> group_set n s';
  mv_groups : forall lo, lo <= m_pos s -> groups_within lo s -> groups_within lo s';
}.

Lemma moves_refl s : moves [] s s.
Proof. split; [done|rewrite len_nil; lia|done|done]. Qed.

Lemma moves_trans u v s1 s2 s3 : moves u s1 s2 -> moves v s2 s3 -> moves (u ++ v) s1 s3.
Proof.
  intros [R1 P1 M1 G1] [R2 P2 M2 G2]. split.
  - by rewrite R1, R2, app_assoc.
  - rewrite P2, P1, len_app. lia.
  - auto.
  - intros lo Hlo Hg. apply G2; [pose proof (len_nonneg u); lia|]. by apply G1.
Qed.

Lemma moves_step c r s : m_rest s = c :: r -> moves [c] s (m_step c r s).
Proof.
  intros H. split; cbn; [done|rewrite len_cons, len_nil; lia|done|].
  intros lo Hlo Hg n a b Hn. apply Hg in Hn. cbn. lia.
Qed.

Lemma moves_set n w s s' : moves w s s' -> moves w s (m_set n (m_pos s, m_pos s') s').
Proof.
  intros [R P M G]. split; cbn; [done|done| |].
  - intros n' Hn'%M. unfold group_set in *. cbn. rewrite dget_dset. by case_decide.
  - intros lo Hlo Hg n' a b. cbn. rewrite dget_dset. pose proof (len_nonneg w).
    case_decide; [intros [= <- <-]; lia|]. intros Hn. by apply (G lo Hlo Hg) in Hn.
Qed.

Lemma lpow_app P n m u v : lpow P n u -> lpow P m v -> lpow P (n + m) (u ++ v).
Proof.
  revert u. induction n as [|n IH]; intros u; cbn; [by intros ->|].
  intros (a & b & -> & Ha & Hb) Hv. exists a, (b ++ v). rewrite <- app_assoc. eauto.
Qed.

Lemma left_of_within left left' n :
  left_of left = Some left' -> within n left' -> within (S n) left.
Proof. destruct left as [[|p]|]; cbn; intros; simplify_eq; cbn in *; lia. Qed.

Section EngineFacts.
Context {U : Unicode}.

(** The position of the matcher in [text]. *)
Definition placed (text : str) (s : mst) : Prop :=
  0 <= m_pos s <= len text /\ m_rest s = drop (Z.to_nat (m_pos s)) text.

Lemma placed_init text : placed text (m_init text).
Proof. split; cbn; [pose proof (len_nonneg text); lia|done]. Qed.

Lemma placed_moves text w s s' :
  placed text s -> moves w s s' -> placed text s' /\ w = slice text (m_pos s) (m_pos s').
Proof.
  intros [Hp Hr] [Mr Mp _ _]. pose proof (len_nonneg w). rewrite Mr in Hr.
  assert (len text - m_pos s = len w + len (m_rest s')) as Hlen.
  { rewrite <- len_app, Hr. unfold len in *. rewrite length_drop. lia. }
  pose proof (len_nonneg (m_rest s')).
  split; [split|].
  - lia.
  - rewrite Mp. replace (Z.to_nat (m_pos s + len w)) with (Z.to_nat (m_pos s) + length w)%nat
      by (unfold len; lia).
    by rewrite <- drop_drop, <- Hr, drop_app_length.
  - rewrite slice_in_range by lia. rewrite <- Hr, Mp.
    rewrite take_app_length'; [done|unfold len; lia].
Qed.

(** A group that is set after the matcher was set before it, or captured a
    text of the group's language. *)
Definition caught (r : re) (s s' : mst) : Prop :=
  forall text, placed text s -> forall n a b, dget n (m_groups s') = Some (a, b) ->
  dget n (m_groups s) = Some (a, b) \/ glang n r (slice text a b).

Lemma caught_refl r s : caught r s s.
Proof. intros text _ n a b H. by left. Qed.

Lemma caught_trans r w s1 s2 s3 :
  moves w s1 s2 -> caught r s1 s2 -> caught r s2 s3 -> caught r s1 s3.
Proof.
  intros M H1 H2 text Hp n a b H. pose proof (placed_moves _ _ _ _ Hp M) as [Hp2 _].
  destruct (H2 text Hp2 n a b H) as [H'|?]; [|by right]. by apply (H1 text).
Qed.

Lemma caught_weaken (r r' : re) s s' :
  (forall n w, glang n r w -> glang n r' w) -> caught r s s' -> caught r' s s'.
Proof. intros Hw H text Hp n a b Hd. destruct (H text Hp n a b Hd); auto. Qed.

(** The contract of a matcher for [r]. *)
Definition matcher_ok (r : re) (m : mst -> (mst -> option mst) -> option mst) : Prop :=
  forall s k x, m s k = Some x ->
  exists w s', moves w s s' /\ lang r w /\ (forall n, sets n r = true -> group_set n s') /\
               caught r s s' /\ k s' = Some x.

Lemma rep_more_ok r m greedy k fuel left s x :
  matcher_ok r m -> rep_more m greedy k fuel left s = Some x ->
  exists n w s', within n left /\ moves w s s' /\ lpow (lang r) n w /\ caught r s s' /\ k s' = Some x.
Proof.
  intros Hm. revert left s. induction fuel as [|fuel IH]; intros left s; cbn.
  { exists 0%nat, [], s. split_and!; [destruct left; cbn; lia|apply moves_refl|done|apply caught_refl|done]. }
  assert (k s = Some x -> exists n w s',
            within n left /\ moves w s s' /\ lpow (lang r) n w /\ caught r s s' /\ k s' = Some x) as Hstop.
  { exists 0%nat, [], s. split_and!; [destruct left; cbn; lia|apply moves_refl|done|apply caught_refl|done]. }
  assert (forall o, match left_of left with
                | None => None
                | Some left' => m s (fun s' => if m_pos s <? m_pos s'
                    then rep_more m greedy k fuel left' s' else None) end = o -> o = Some x ->
          exists n w s', within n left /\ moves w s s' /\ lpow (lang r) n w /\ caught r s s' /\
            k s' = Some x) as Hagain.
  { intros o <-. destruct (left_of left) as [left'|] eqn:Hl; [|done].
    intros (w1 & s1 & Hmv & Hw1 & _ & Hc & Hk)%Hm. case_match; [|done].
    destruct (IH _ _ Hk) as (n & w2 & s2 & Hn & Hmv2 & Hw2 & Hc2 & Hx).
    exists (S n), (w1 ++ w2), s2.
    split_and!; [by eapply left_of_within|by eapply moves_trans| |by eapply caught_trans|done].
    cbn. eauto. }
  destruct greedy.
  - destruct (match left_of left with Some _ => _ | None => None end) eqn:E; eauto.
  - destruct (k s) eqn:E; [intros [= ->]; eauto|]. eauto.
Qed.

Lemma rep_need_ok r m greedy extra k mn s x :
  matcher_ok r m -> rep_need m greedy extra k mn s = Some x ->
  exists n w s', within n extra /\ moves w s s' /\ lpow (lang r) (mn + n) w /\
    (forall i, (0 <? mn)%nat = true -> sets i r = true -> group_set i s') /\ caught r s s' /\
    k s' = Some x.
Proof.
  intros Hm. revert s. induction mn as [|mn IH]; intros s; cbn [rep_need].
  - intros (n & w & s' & ?)%(rep_more_ok r); [|done]. exists n, w, s'. naive_solver.
  - intros (w1 & s1 & Hmv & Hw1 & Hs & Hc & Hk)%Hm.
    destruct (IH _ Hk) as (n & w2 & s2 & Hn & Hmv2 & Hw2 & _ & Hc2 & Hx).
    exists n, (w1 ++ w2), s2.
    split_and!; [done|by eapply moves_trans|cbn; eauto| |by eapply caught_trans|done].
    intros i _ Hi. eapply mv_mono; eauto.
Qed.

(** Every success of the matcher consumes a text of the pattern's language,
    moves forward over exactly that text, and hands the continuation a state
    whose groups are in range. *)
Lemma matches_ok r : matcher_ok r (matches r).
Proof.
  induction r; intros s k x; cbn; intros H;
    try (exists [], s; split_and!; [apply moves_refl|done|done|apply caught_refl|by repeat case_match]).
  - destruct (m_rest s) as [|c rest] eqn:Hr; [done|]. destruct (p c) eqn:Hp; [|done].
    exists [c], (m_step c rest s). split_and!; [by apply moves_step|eauto|done| |done].
    intros text _ n a b Hd. by left.
  - apply IHr1 in H as (w1 & s1 & M1 & L1 & S1 & C1 & H).
    apply IHr2 in H as (w2 & s2 & M2 & L2 & S2 & C2 & H).
    exists (w1 ++ w2), s2. split_and!; [by eapply moves_trans|eauto| | |done].
    + intros n [Hn|Hn]%orb_true_iff; eauto. eapply mv_mono; eauto.
    + eapply caught_trans; [done| |]; (eapply caught_weaken; [|done]); cbn; auto.
  - destruct (matches r1 s k) eqn:E.
    + injection H as ->. apply IHr1 in E as (w & s1 & M & L & S' & C & E).
      exists w, s1. split_and!; [done|by left| | |done]; [intros n [? ?]%andb_true_iff; auto|].
      eapply caught_weaken; [|done]. cbn. auto.
    + apply IHr2 in H as (w & s1 & M & L & S' & C & H).
      exists w, s1. split_and!; [done|by right| | |done]; [intros n [? ?]%andb_true_iff; auto|].
      eapply caught_weaken; [|done]. cbn. auto.
  - apply (rep_need_ok r) in H as (n & w & s' & Hn & M & L & S' & C & H); [|done].
    exists w, s'. split_and!; [done|eauto| |done|done]. intros i [? ?]%andb_true_iff. auto.
  - apply IHr in H as (w & s' & M & L & S' & C & H).
    exists w, (m_set n (m_pos s, m_pos s') s'). split_and!; [by apply moves_set|done| | |done].
    + unfold group_set. cbn. intros i. rewrite dget_dset. case_decide as Hi; [done|].
      destruct (Nat.eqb_spec i n); [done|]. apply S'.
    + intros text Hp i a b. cbn. rewrite dget_dset. case_decide as Hi.
      * intros [= <- <-]. right. left. split; [done|].
        pose proof (placed_moves _ _ _ _ Hp M) as [_ <-]. done.
      * intros Hd. destruct (C text Hp i a b Hd); auto.
Qed.

(** What is known of a match object of [r] in [text]. *)
Record mtch_ok (r : re) (text : str) (m : mtch) : Prop := MtchOk {
  mk_start : 0 <= mt_start m;
  mk_order : mt_start m <= mt_end m;
  mk_end : mt_end m <= len text;
  mk_lang : lang r (slice text (mt_start m) (mt_end m));
  mk_groups : forall n a b, dget n (mt_groups m) = Some (a, b) ->
    mt_start m <= a /\ a <= b /\ b <= mt_end m;
  mk_sets : forall n, sets n r = true -> is_Some (dget n (mt_groups m));
  mk_glang : forall n a b, dget n (mt_groups m) = Some (a, b) -> glang n r (slice text a b);
}.

Lemma moves_mtch_ok r text w s e :
  placed text s -> m_groups s = [] -> moves w s e -> lang r w ->
  (forall n, sets n r = true -> group_set n e) -> caught r s e ->
  mtch_ok r text (to_mtch (m_pos s) e).
Proof.
  intros Hs Hg Hm Hw Hsets Hc. pose proof (Hc text Hs) as Hgl. rewrite Hg in Hgl. destruct (placed_moves _ _ _ _ Hs Hm) as [[He _] ->].
  destruct Hs as [Hp _], Hm as [_ Mp _ Mg]. pose proof (len_nonneg (slice text (m_pos s) (m_pos e))).
  split; cbn; [lia|lia|lia|done| |done|].
  - apply Mg; [lia|]. intros n a b. by rewrite Hg.
  - intros n a b Hd. by destruct (Hgl n a b Hd).
Qed.

Lemma search_go_ok r text must prev pos rest start e :
  placed text (MSt prev rest pos []) -> search_go r must prev pos rest = Some (start, e) ->
  pos <= start /\ placed text e /\ mtch_ok r text (to_mtch start e) /\
  (must = true -> start = pos -> m_pos e <> start).
Proof.
  revert must prev pos. induction rest as [|c rest IH]; intros must prev pos Hpl; cbn.
  all: destruct (match_at r must _) as [e'|] eqn:E.
  1,3: intros [= -> ->]; apply matches_ok in E as (w & s' & M & L & S' & C & Hk);
       destruct (must && _) eqn:Hadv; [done|]; injection Hk as ->;
       pose proof (placed_moves _ _ _ _ Hpl M) as [Hpe _];
       split_and!; [lia|done|by apply (moves_mtch_ok r text w _ e Hpl)|];
       intros -> _; cbn in Hadv; lia.
  - done.
  - intros H. apply IH in H as (? & ? & ? & ?).
    + split_and!; [lia|done|done|lia].
    + destruct Hpl as [Hp Hr]. cbn in *.
      assert (len (c :: rest) = len text - pos) as Hl
        by (rewrite Hr; unfold len in *; rewrite length_drop; lia).
      rewrite len_cons in Hl. pose proof (len_nonneg rest).
      split; cbn; [lia|].
      replace (Z.to_nat (pos + 1)) with (Z.to_nat pos + 1)%nat by lia.
      by rewrite <- drop_drop, <- Hr.
Qed.

Lemma finditer_go_ok r text fuel must s :
  placed text s ->
  Forall (fun m => mtch_ok r text m /\ m_pos s <= mt_start m) (finditer_go r fuel must s) /\
  StronglySorted (fun x y => mt_end x <= mt_start y) (finditer_go r fuel must s).
Proof.
  revert must s. induction fuel as [|fuel IH]; intros must s Hs; cbn; [split; constructor|].
  destruct (search_go _ _ _ _ _) as [[start e]|] eqn:E; [|split; constructor].
  apply (search_go_ok r text) in E as (Hle & He & Hok & _); [|done].
  destruct (IH (m_pos e =? start) e He) as [Hf Hsort].
  split; constructor; try done.
  - eapply Forall_impl; [done|]. cbn. intros m [? ?]. split; [done|].
    pose proof (mk_order _ _ _ Hok). cbn in *. lia.
  - eapply Forall_impl; [done|]. cbn. intros m [? ?]. lia.
Qed.

(** The matches of [finditer] are well formed, in order and disjoint. *)
Lemma finditer_ok r text m : m ∈ finditer r text -> mtch_ok r text m.
Proof.
  intros Hm. destruct (finditer_go_ok r text (2 * length text + 2) false _ (placed_init text)) as [H _].
  rewrite Forall_forall in H. by apply H.
Qed.

Lemma finditer_sorted r text :
  StronglySorted (fun x y => mt_end x <= mt_start y) (finditer r text).
Proof. apply (finditer_go_ok r text); apply placed_init. Qed.

Lemma re_match_ok r text m : re_match r text = Some m -> mtch_ok r text m /\ mt_start m = 0.
Proof.
  unfold re_match. destruct (matches r (m_init text) Some) as [e|] eqn:E; cbn; [|done].
  intros [= <-]. apply matches_ok in E as (w & s' & M & L & S' & C & [= ->]). split; [|done].
  apply (moves_mtch_ok r text w (m_init text)); auto using placed_init.
Qed.

Lemma re_fullmatch_ok r text m :
  re_fullmatch r text = Some m -> mtch_ok r text m /\ mt_start m = 0 /\ mt_end m = len text.
Proof.
  unfold re_fullmatch. destruct (matches r (m_init text) _) as [e|] eqn:E; cbn; [|done].
  intros [= <-]. apply matches_ok in E as (w & s' & M & L & S' & C & Hk).
  destruct (m_rest s') eqn:Hr; [|done]. injection Hk as ->.
  pose proof (placed_moves _ _ _ _ (placed_init text) M) as [[Hp Hd] _].
  split; [apply (moves_mtch_ok r text w (m_init text)); auto using placed_init|].
  split; [done|]. cbn. rewrite Hr in Hd. symmetry in Hd. apply drop_nil_inv in Hd.
  unfold len in *. lia.
Qed.

Lemma re_search_ok r text m : re_search r text = Some m -> mtch_ok r text m.
Proof.
  unfold re_search. destruct (search_go _ _ _ _ _) as [[start e]|] eqn:E; [|done].
  intros [= <-]. eapply search_go_ok in E as (_ & _ & ? & _); [done|]. apply placed_init.
Qed.

(** Groups of a match that are always set give a span inside the match. *)
Lemma mtch_ok_group r text m n :
  mtch_ok r text m -> sets n r = true ->
  exists a b, dget n (mt_groups m) = Some (a, b) /\
              mt_start m <= a /\ a <= b /\ b <= mt_end m.
Proof.
  intros Hm Hn. destruct (mk_sets _ _ _ Hm n Hn) as [[a b] Hab].
  exists a, b. split; [done|]. by eapply mk_groups.
Qed.

(** *** The scan of [finditer] never runs out of fuel *)

Definition scan_measure (must : bool) (s : mst) : nat :=
  2 * length (m_rest s) + (if must then 0 else 1).

Lemma placed_rest text s : placed text s -> Z.of_nat (length (m_rest s)) = len text - m_pos s.
Proof. intros [? ->]. unfold len in *. rewrite length_drop. lia. Qed.

Lemma finditer_go_fuel r text f1 f2 must s :
  placed text s -> (scan_measure must s < f1)%nat -> (f1 <= f2)%nat ->
  finditer_go r f1 must s = finditer_go r f2 must s.
Proof.
  revert f2 must s. induction f1 as [|f1 IH]; intros [|f2] must s Hs Hlt Hle; try lia.
  cbn. destruct (search_go _ _ _ _ _) as [[start e]|] eqn:E; [|done].
  apply (search_go_ok r text) in E as (Hpos & He & Hok & Hadv); [|done].
  f_equal. apply IH; [done| |lia].
  pose proof (placed_rest _ _ Hs). pose proof (placed_rest _ _ He).
  pose proof (mk_order _ _ _ Hok). cbn in *.
  assert (must = true -> m_pos e = start -> m_pos s < start) as Hm.
  { intros -> H3. destruct (decide (start = m_pos s)) as [->|]; [|lia].
    by destruct (Hadv eq_refl eq_refl). }
  unfold scan_measure in *. destruct must, (Z.eqb_spec (m_pos e) start); lia.
Qed.

Lemma finditer_complete r text fuel :
  (2 * length text + 2 <= fuel)%nat -> finditer r text = finditer_go r fuel false (m_init text).
Proof.
  intros. apply (finditer_go_fuel r text); [apply placed_init| |done].
  unfold scan_measure. cbn. lia.
Qed.
End EngineFacts.

(** ** Reading properties off a pattern *)

(** False: every text of the pattern's language is non-empty. *)
Fixpoint nullable (r : re) : bool :=
  match r with
  | Chr _ => false
  | Seq a b => nullable a && nullable b
  | Alt a b => nullable a || nullable b
  | Rep _ mn _ a => (mn =? 0)%nat || nullable a
  | Grp _ a => nullable a
  | _ => true
  end.

Lemma lang_nonempty r w : lang r w -> nullable r = false -> w <> [].
Proof.
  revert w. induction r; intros w; cbn; try done.
  - intros (c & -> & _) _. done.
  - intros (u & v & -> & Hu & Hv) [H|H]%andb_false_iff [-> ->]%app_nil;
      [by apply (IHr1 []) | by apply (IHr2 [])].
  - intros [H|H] [? ?]%orb_false_iff; [by apply IHr1 | by apply IHr2].
  - intros (n & _ & H) [Hm Ha]%orb_false_iff. destruct mn as [|mn]; [done|].
    destruct H as (u & v & -> & Hu & _). intros [-> _]%app_nil. by apply (IHr []).
  - apply IHr.
Qed.

(** Every character class of the pattern is inside [P]. *)
Fixpoint all_chars (P : N -> Prop) (r : re) : Prop :=
  match r with
  | Chr p => forall c, p c = true -> P c
  | Seq a b | Alt a b => all_chars P a /\ all_chars P b
  | Rep _ _ _ a | Grp _ a => all_chars P a
  | _ => True
  end.

Lemma lang_chars P r w : all_chars P r -> lang r w -> Forall P w.
Proof.
  revert w. induction r; intros w; cbn; try (intros _ ->; constructor).
  - intros Hp (c & -> & Hc). repeat constructor. auto.
  - intros [? ?] (u & v & -> & ? & ?). apply Forall_app. auto.
  - intros [? ?] [?|?]; auto.
  - intros Ha (n & _ & H). revert w H. generalize (mn + n)%nat. intros k.
    induction k as [|k IHk]; intros w; cbn; [intros ->; constructor|].
    intros (u & v & -> & Hu & Hv). apply Forall_app. auto.
  - auto.
Qed.

(** Every group [n] of the pattern has a body with [Q]. *)
Fixpoint gall (n : nat) (Q : re -> Prop) (r : re) : Prop :=
  match r with
  | Seq a b | Alt a b => gall n Q a /\ gall n Q b
  | Rep _ _ _ a => gall n Q a
  | Grp m a => (n = m -> Q a) /\ gall n Q a
  | _ => True
  end.

Lemma glang_gall n Q r w : gall n Q r -> glang n r w -> exists a, Q a /\ lang a w.
Proof.
  induction r; cbn; try done; try tauto.
  intros [Hq Ha] [[-> H]|H]; [|auto]. exists r. auto.
Qed.

Section GroupFacts.
Context {U : Unicode}.

(** A match of a pattern that does not match the empty text is a proper range. *)
Lemma mtch_ok_proper r text m :
  mtch_ok r text m -> nullable r = false -> mt_start m < mt_end m /\ mt_end m <= len text.
Proof.
  intros [H1 H2 H3 H4 _ _ _] Hn. split; [|done]. pose proof (lang_nonempty _ _ H4 Hn) as Hne.
  destruct (decide (mt_start m = mt_end m)) as [E|]; [|lia]. rewrite E, slice_empty in Hne by lia. done.
Qed.

(** A match whose group [n] is always set and never empty gives a proper span. *)
Lemma mtch_group_span r text m n :
  mtch_ok r text m -> sets n r = true -> gall n (fun a => nullable a = false) r ->
  exists a b, dget n (mt_groups m) = Some (a, b) /\ 0 <= a /\ a < b /\ b <= len text.
Proof.
  intros Hm Hs Hg. destruct (mtch_ok_group _ _ _ _ Hm Hs) as (a & b & Hd & Ha & Hab & Hb).
  pose proof (mk_start _ _ _ Hm). pose proof (mk_end _ _ _ Hm).
  exists a, b. split_and!; [done|lia| |lia].
  destruct (glang_gall _ _ _ _ Hg (mk_glang _ _ _ Hm n a b Hd)) as (body & Hn & Hl).
  pose proof (lang_nonempty _ _ Hl Hn) as Hne.
  destruct (decide (a = b)) as [->|]; [|lia]. rewrite slice_empty in Hne by lia. done.
Qed.

Lemma mtch_group_chars r text m n P a b :
  mtch_ok r text m -> dget n (mt_groups m) = Some (a, b) -> gall n (all_chars P) r ->
  Forall P (slice text a b).
Proof.
  intros Hm Hd Hg. destruct (glang_gall _ _ _ _ Hg (mk_glang _ _ _ Hm n a b Hd)) as (body & Hc & Hl).
  by eapply lang_chars.
Qed.
End GroupFacts.
