(* ===== verification/Checksums.v ===== *)
(** * Checksum and structural validators ([detectors/regex_checksum.py], first part)

    The control-digit checks for Russian requisites and payment cards, and the
    address checks delegated to [ipaddress].  [None] is the [ValueError] that
    [int(c)] raises on a character that [isdigit] accepts and [int] does not; the
    detector's theorems show that it never happens on what the patterns match. *)

From S2P Require Import Prelude Text.

Section Checksums.
Context {U : Unicode}.

(** [s.isdigit()] *)
Definition isdigit (s : str) : bool :=
  match s with [] => false | _ => forallb u_digit s end.

(** [s.isalnum()] *)
Definition isalnum (s : str) : bool :=
  match s with [] => false | _ => forallb u_alnum s end.

(** [int(s)] of a string of decimal digits. *)
Definition int_of (s : str) : option Z :=
  match s with [] => None | _ => int_of_digits <$> digits_of s end.

(** [sum(w[i] * d[i] for i in range(len(w)))] *)
Fixpoint weighted (w d : list Z) : Z :=
  match w, d with a :: w', b :: d' => a * b + weighted w' d' | _, _ => 0 end.

Definition inn10_ok (s : str) : option bool :=
  d ← digits_of s;
  Some (weighted [2; 4; 10; 3; 5; 9; 4; 6; 8] d mod 11 mod 10 =? nth 9 d 0).

Definition inn12_ok (s : str) : option bool :=
  d ← digits_of s;
  let n1 := weighted [7; 2; 4; 10; 3; 5; 9; 4; 6; 8] d mod 11 mod 10 in
  let n2 := weighted [3; 7; 2; 4; 10; 3; 5; 9; 4; 6; 8] d mod 11 mod 10 in
  Some ((nth 10 d 0 =? n1) && (nth 11 d 0 =? n2)).

Definition inn_ok (s : str) : option bool :=
  if negb (isdigit s) then Some false
  else if len s =? 10 then inn10_ok s
  else if len s =? 12 then inn12_ok s
  else Some false.

Definition ogrn13_ok (s : str) : option bool :=
  if negb (isdigit s) then Some false else
  a ← int_of (slice s 0 12); b ← int_of (slice s 12 13); Some (a mod 11 mod 10 =? b).

Definition ogrn15_ok (s : str) : option bool :=
  if negb (isdigit s) then Some false else
  a ← int_of (slice s 0 14); b ← int_of (slice s 14 15); Some (a mod 13 mod 10 =? b).

Definition ogrn_ok (s : str) : option bool :=
  if len s =? 13 then ogrn13_ok s else if len s =? 15 then ogrn15_ok s else Some false.

Definition snils_check (total : Z) : Z :=
  if total <? 100 then total
  else if (total =? 100) || (total =? 101) then 0
  else let check := total mod 101 in
       if (check =? 100) || (check =? 101) then 0 else check.

Definition snils_ok (s : str) : option bool :=
  if negb (isdigit s) || negb (len s =? 11) then Some false else
  serial ← int_of (slice s 0 9);
  control ← int_of (slice s 9 11);
  if serial <=? 1001998 then Some (control =? 0) else
  d ← digits_of s;
  Some (control =? snils_check (weighted [9; 8; 7; 6; 5; 4; 3; 2; 1] d)).

(** The loop of [_luhn_ok] over the reversed digits; [odd] is [i % 2]. *)
Definition luhn_digit (odd : bool) (d : Z) : Z :=
  if odd then (if 9 <? 2 * d then 2 * d - 9 else 2 * d) else d.

Fixpoint luhn_total (odd : bool) (ds : list Z) : Z :=
  match ds with [] => 0 | d :: ds' => luhn_digit odd d + luhn_total (negb odd) ds' end.

(** [s.replace(" ", "").replace("-", "")] *)
Definition card_digits (s : str) : str := py_replace (py_replace s (u8 " ") []) (u8 "-") [].

Definition luhn_ok (s : str) : option bool :=
  let digits := card_digits s in
  if negb (isdigit digits) || negb ((13 <=? len digits) && (len digits <=? 19)) then Some false else
  ds ← digits_of digits;
  Some (luhn_total false (rev ds) mod 10 =? 0).

Definition card_lengths (digits : str) : option (list Z) :=
  if (len digits <? 4) || negb (isdigit (slice digits 0 4)) then Some [] else
  p4 ← int_of (slice digits 0 4);
  let p3 := p4 / 10 in
  let p2 := p4 / 100 in
  Some (
    if (2200 <=? p4) && (p4 <=? 2204) then [16; 19]
    else if (2221 <=? p4) && (p4 <=? 2720) then [16]
    else if (p2 =? 34) || (p2 =? 37) then [15]
    else if ((300 <=? p3) && (p3 <=? 305)) || (p4 =? 3095) || ((p2 =? 36) || (p2 =? 38) || (p2 =? 39))
         then [14; 16]
    else if (3528 <=? p4) && (p4 <=? 3589) then [16; 19]
    else if p2 / 10 =? 4 then [13; 16; 19]
    else if (51 <=? p2) && (p2 <=? 55) then [16]
    else if (p2 =? 50) || ((56 <=? p2) && (p2 <=? 58)) then [16; 19]
    else if (p2 =? 62) || (p2 =? 81) then [16; 19]
    else if (p4 =? 6011) || ((644 <=? p3) && (p3 <=? 649)) || (p2 =? 65) then [16; 19]
    else []).

Definition bik_ok (s : str) : bool :=
  isdigit s && starts_with s (u8 "04") && negb (str_eqb (slice s (-3) (len s)) (u8 "000")).

Definition kpp_ok (s : str) : bool :=
  (len s =? 9) && isdigit (slice s 0 4) && isalnum (slice s 4 6) && isdigit (slice s 6 9) &&
  negb (str_eqb (slice s 6 9) (u8 "000")).

(** *** [ipaddress] *)

Definition isascii (s : str) : bool := forallb is_ascii s.

(** [IPv4Address._parse_octet]: ASCII digits, at most three, no leading zero, at most 255. *)
Definition parse_octet (o : str) : option Z :=
  if str_eqb o [] then None
  else if negb (isascii o && forallb ascii_digit_p o) then None
  else if 3 <? len o then None
  else if negb (str_eqb o (u8 "0")) && starts_with o (u8 "0") then None
  else let v := int_of_digits (map (fun c => Z.of_N c - 48) o) in
       if 255 <? v then None else Some v.

(** [IPv4Address._ip_int_from_string] *)
Definition ipv4_int (s : str) : option Z :=
  if str_eqb s [] then None else
  match split_char 46 s with
  | [_; _; _; _] as octets => int_of_base256 ← mapM parse_octet octets;
                    Some (foldl (fun n d => 256 * n + d) 0 int_of_base256)
  | _ => None
  end.

Definition ipv4_ok (s : str) : bool :=
  negb (contains s (u8 "/")) && bool_decide (is_Some (ipv4_int s)).

Definition hex_digit_p (c : N) : bool := ascii_digit_p c || in_range 65 70 c || in_range 97 102 c.

(** [IPv6Address._parse_hextet] succeeds; [int("", 16)] raises. *)
Definition hextet_ok (h : str) : bool :=
  negb (str_eqb h []) && forallb hex_digit_p h && (len h <=? 4).

(** Positions of the empty inner parts. *)
Definition inner_empty (parts : list str) : list Z :=
  List.filter (fun i => match parts !! Z.to_nat i with Some [] => true | _ => false end)
              (map Z.of_nat (seq 1 (length parts - 2))).

Definition last_part (parts : list str) : str := default [] (last parts).
Definition first_part (parts : list str) : str := default [] (head parts).

(** [IPv6Address._ip_int_from_string] succeeds, on the parts between colons. *)
Definition ipv6_parts_ok (parts : list str) : bool :=
  let n := len parts in
  if 9 <? n then false else
  match inner_empty parts with
  | [] =>
    (n =? 8) && negb (str_eqb (first_part parts) []) && negb (str_eqb (last_part parts) []) &&
    forallb hextet_ok parts
  | [skip_index] =>
    let hi := if str_eqb (first_part parts) [] then skip_index - 1 else skip_index in
    let lo := if str_eqb (last_part parts) [] then n - skip_index - 2 else n - skip_index - 1 in
    (negb (str_eqb (first_part parts) []) || (hi =? 0)) &&
    (negb (str_eqb (last_part parts) []) || (lo =? 0)) &&
    (1 <=? 8 - (hi + lo)) &&
    forallb hextet_ok (take (Z.to_nat hi) parts) &&
    forallb hextet_ok (drop (length parts - Z.to_nat lo) parts)
  | _ => false
  end.

(** The colon-separated part of an IPv6 address; a dotted IPv4 suffix stands for two hextets. *)
Definition ipv6_text_ok (s : str) : bool :=
  if str_eqb s [] || contains s (u8 "/") then false else
  let parts := split_char 58 s in
  if len parts <? 3 then false else
  if contains (last_part parts) (u8 ".")
  then match ipv4_int (last_part parts) with
       | Some _ => ipv6_parts_ok (removelast parts ++ [u8 "0"; u8 "0"])
       | None => false
       end
  else ipv6_parts_ok parts.

Definition ipv6_ok (s : str) : bool := ipv6_text_ok (first_part (split_char 37 s)).

(** [ip_network(s, strict=False)] succeeds, for an [address/prefix] text whose
    prefix has no dot, as the CIDR pattern matches. *)
Definition cidr_ok (s : str) : bool :=
  match split_char 47 s with
  | [addr; prefix] =>
    let digits := negb (str_eqb prefix []) && isascii prefix && forallb ascii_digit_p prefix in
    let v := int_of_digits (map (fun c => Z.of_N c - 48) prefix) in
    digits && ((bool_decide (is_Some (ipv4_int addr)) && (v <=? 32)) ||
               (ipv6_text_ok addr && (v <=? 128)))
  | _ => false
  end.

(** ** Bank accounts *)

Definition ACCT_WEIGHTS : list Z :=
  [7; 1; 3; 7; 1; 3; 7; 1; 3; 7; 1; 3; 7; 1; 3; 7; 1; 3; 7; 1; 3; 7; 1].

Definition bank_acct_key_ok (account20 bik9 : str) : option bool :=
  let combined := slice bik9 (-3) (len bik9) ++ account20 in
  if negb (len combined =? 23) || negb (isdigit combined) then Some false else
  d ← digits_of combined;
  Some (weighted ACCT_WEIGHTS d mod 10 =? 0).
End Checksums.
