(* ===== verification/Detectors.v ===== *)
(** * The regex and checksum detector ([detectors/regex_checksum.py])

    The compiled patterns, the rule table, the scan for card numbers inside
    digit runs, deduplication, and [RegexChecksumDetector.detect]. *)

From S2P Require Import Prelude Text Regex Spans Checksums.

(** [detectors/base.py] *)
Record finding := Finding {
  f_text : str; f_label : str; f_start : Z; f_end : Z; f_score : Q;
}.

Definition f_span (f : finding) : Z * Z := (f_start f, f_end f).

Section Patterns.
Context {U : Unicode}.

Definition digits (n : nat) : re := rep n digit.
Definition hex : re := Chr hex_digit_p.
Definition sep_sh : re := Chr (one_of (u8 " -")).
Definition grp1 (r : re) : re := Grp 1 r.
Definition bounded (r : re) : re := seqs [WordB; grp1 r; WordB].
Definition b64_p (c : N) : bool := ascii_alnum_p c || one_of (u8 "_-") c.

Definition INN_PAT : re := bounded (Alt (digits 10) (digits 12)).

Definition KPP_PAT : re :=
  bounded (seqs [digits 4; rep 2 (cls (fun c => ascii_digit_p c || ascii_upper_p c)); digits 3]).

Definition OGRN_PAT : re :=
  bounded (Alt (Seq (cls (in_range 49 57)) (digits 12)) (Seq (cls (in_range 49 57)) (digits 14))).

Definition SNILS_KW_PAT : re := seqs [lit (u8 "СНИЛС"); plus space; grp1 (digits 11)].

Definition SNILS_FMT_PAT : re :=
  seqs [Grp 1 (digits 3); lit (u8 "-"); Grp 2 (digits 3); lit (u8 "-"); Grp 3 (digits 3);
        plus space; Grp 4 (digits 2)].

Definition BIK_PAT : re := bounded (Seq (lit (u8 "04")) (digits 7)).

Definition ACCT_KW_PAT : re :=
  Seq (Alt (seqs [ci_lit (u8 "р"); opt (ci_lit (u8 "/")); ci_lit (u8 "с");
                  opt (alts [ci_lit (u8 "чёт"); ci_lit (u8 "чет"); ci_lit (u8 "ч")]);
                  star (ci_cls (fun c => is_space c || (c =? 46)%N)); opt (ci_lit (u8 "№")); star space])
           (seqs [Alt (ci_lit (u8 "расчётный")) (ci_lit (u8 "расчетный")); plus space;
                  ci_lit (u8 "счё"); opt (ci_lit (u8 "т")); star space]))
      (grp1 (digits 20)).

Definition ACCT_BARE_PAT : re :=
  bounded (Seq (alts [lit (u8 "30"); lit (u8 "40"); lit (u8 "42"); lit (u8 "43"); lit (u8 "45")]) (digits 18)).

Definition CARD_PAT : re :=
  bounded (alts [
    seqs [digits 4; sep_sh; digits 4; sep_sh; digits 4; sep_sh; digits 4; opt (Seq sep_sh (digits 3))];
    seqs [digits 4; sep_sh; digits 6; sep_sh; digits 5];
    rep_range 13 19 digit]).

Definition CARD_GROUP16_PAT : re :=
  bounded (seqs [digits 4; sep_sh; digits 4; sep_sh; digits 4; sep_sh; digits 4]).

Definition DIGIT_RUN_PAT : re := Seq digit (star (Seq (opt sep_sh) digit)).

Definition CARD_STRAY_MARGIN : Z := 0.

Definition octets : re :=
  seqs [rep_range 1 3 digit; lit (u8 "."); rep_range 1 3 digit; lit (u8 ".");
        rep_range 1 3 digit; lit (u8 "."); rep_range 1 3 digit].

Definition IPV4_PAT : re := bounded octets.

Definition CIDR_PAT : re := bounded (seqs [octets; lit (u8 "/"); rep_range 1 2 digit]).

Definition hex_or_colon (c : N) : bool := hex_digit_p c || (c =? 58)%N.
Definition hextet : re := rep_range 1 4 hex.
Definition colon : re := lit (u8 ":").

Definition IPV6_PAT : re :=
  seqs [Behind false hex_or_colon;
        grp1 (alts [
          Seq hextet (rep 7 (Seq colon hextet));
          Seq (rep_range 1 7 (Seq hextet colon)) colon;
          seqs [lit (u8 "::"); rep_range 0 5 (Seq hextet colon); hextet];
          seqs [rep_range 1 6 (Seq hextet colon); colon; hextet];
          lit (u8 "::")]);
        Ahead false (Chr hex_or_colon)].

Definition HOSTNAME_PAT : re :=
  bounded (seqs [word_ch; star (Chr (fun c => u_word c || one_of (u8 ".-") c)); lit (u8 ".");
                 alts [ci_lit (u8 "corp.internal"); ci_lit (u8 "corp.lan"); ci_lit (u8 "local"); ci_lit (u8 "lan")]]).

Definition DB_URL_PAT : re :=
  grp1 (seqs [alts [Seq (ci_lit (u8 "postgres")) (opt (ci_lit (u8 "ql"))); ci_lit (u8 "mysql");
                    ci_lit (u8 "mongodb"); ci_lit (u8 "redis")];
              lit (u8 "://");
              rep_at_least 3 (Chr (fun c => negb (is_space c || one_of [34%N; 39%N; 60%N; 62%N] c)))]).

Definition JWT_PAT : re :=
  bounded (seqs [lit (u8 "eyJ"); plus (cls b64_p); lit (u8 "."); plus (cls b64_p); lit (u8 "."); star (cls b64_p)]).

Definition BEARER_PAT : re :=
  seqs [WordB; ci_lit (u8 "Bearer"); plus space;
        grp1 (Seq (rep_at_least 20 (ci_cls (fun c => ascii_alnum_p c || one_of (u8 "-._~+/") c)))
                  (rep_range 0 2 (lit (u8 "="))))].

Definition PEM_PAT : re :=
  grp1 (seqs [lit (u8 "-----BEGIN "); opt (Seq (plus word_ch) (lit (u8 " "))); lit (u8 "PRIVATE KEY-----");
              Rep false 1 (Some 8191%N) (Chr (fun _ => true));
              lit (u8 "-----END "); opt (Seq (plus word_ch) (lit (u8 " "))); lit (u8 "PRIVATE KEY-----")]).

Definition OPENAI_KEY_PAT : re := bounded (Seq (lit (u8 "sk-")) (rep_at_least 32 (cls ascii_alnum_p))).

Definition AWS_KEY_PAT : re :=
  bounded (Seq (lit (u8 "AKIA")) (rep 16 (cls (fun c => ascii_upper_p c || ascii_digit_p c)))).

Definition GH_TOKEN_PAT : re := bounded (Seq (lit (u8 "ghp_")) (rep 36 (cls ascii_alnum_p))).

Definition quote_opt : re := opt (Chr (one_of [34%N; 39%N])).
Definition assign : re := seqs [star space; Chr (one_of (u8 "=:")); star space; quote_opt].
Definition dash_opt : re := opt (Chr (one_of (u8 "_-"))).

Definition GENERIC_SECRET_PAT : re :=
  seqs [alts [ci_lit (u8 "token"); ci_lit (u8 "secret");
              seqs [ci_lit (u8 "api"); dash_opt; ci_lit (u8 "key")];
              seqs [ci_lit (u8 "access"); dash_opt; ci_lit (u8 "key")];
              seqs [ci_lit (u8 "private"); dash_opt; ci_lit (u8 "key")]];
        assign;
        grp1 (Seq (rep_at_least 20 (ci_cls (fun c => ascii_alnum_p c || one_of (u8 "+/-_") c)))
                  (rep_range 0 2 (lit (u8 "="))))].

Definition PASSWORD_PAT : re :=
  seqs [alts [ci_lit (u8 "password"); ci_lit (u8 "passwd"); ci_lit (u8 "pwd"); ci_lit (u8 "pass")];
        assign;
        grp1 (rep_at_least 4 (Chr (fun c => negb (is_space c || one_of [34%N; 39%N; 44%N; 59%N] c))))].

Definition EMAIL_PAT : re :=
  bounded (seqs [plus (cls (fun c => ascii_alnum_p c || one_of (u8 "._%+-") c)); lit (u8 "@");
                 plus (cls (fun c => ascii_alnum_p c || one_of (u8 ".-") c)); lit (u8 ".");
                 rep_at_least 2 (cls (fun c => ascii_upper_p c || ascii_lower_p c))]).

Definition gap : re := opt (Chr (fun c => is_space c || (c =? 45)%N)).

Definition PHONE_RU_PAT : re :=
  seqs [Behind false is_digit;
        grp1 (seqs [Alt (lit (u8 "+7")) (lit (u8 "8")); gap; opt (lit (u8 "(")); digits 3; opt (lit (u8 ")"));
                    gap; digits 3; gap; digits 2; gap; digits 2]);
        Ahead false digit].

Definition PHONE_INTL_PAT : re :=
  seqs [Behind false is_digit;
        grp1 (seqs [lit (u8 "+"); cls (in_range 50 57); rep_range 6 14 digit]);
        Ahead false digit].
End Patterns.

(** ** Card numbers inside digit runs *)

(** [_merge_spans]: union of overlapping spans, in order. *)
Definition merge_step (merged : list (Z * Z)) (span : Z * Z) : list (Z * Z) :=
  match merged with
  | (a, b) :: rest => if span.1 <? b then (a, Z.max b span.2) :: rest else span :: merged
  | [] => [span]
  end.

Definition merge_spans (spans : list (Z * Z)) : list (Z * Z) :=
  rev (foldl merge_step [] (sort_on (fun s : Z * Z => [zk s.1; zk s.2]) spans)).

Definition zrange (n : Z) : list Z := map Z.of_nat (seq 0 (Z.to_nat n)).

Section Detector.
Context {U : Unicode}.

(** [[i for i, c in enumerate(group, start) if c.isdigit()]] *)
Fixpoint digit_offsets (start : Z) (group : str) : list Z :=
  match group with
  | [] => []
  | c :: group' => (if u_digit c then [start] else []) ++ digit_offsets (start + 1) group'
  end.

(** One candidate length at digit position [i] of a run with [n] digits. *)
Definition card_span (offsets : list Z) (ds : str) (n i length : Z) : option (list (Z * Z)) :=
  let tail := n - i - length in
  if tail <? 0 then Some [] else
  if negb (i =? 0) && negb (tail =? 0) && ((CARD_STRAY_MARGIN <? i) || (CARD_STRAY_MARGIN <? tail))
  then Some [] else
  ok ← luhn_ok (slice ds i (i + length));
  Some (if (ok : bool) then [(nth (Z.to_nat i) offsets 0, nth (Z.to_nat (i + length - 1)) offsets 0 + 1)] else []).

Definition run_candidates (text : str) (run : mtch) : option (list (Z * Z)) :=
  let group := slice text (mt_start run) (mt_end run) in
  let offsets := digit_offsets (mt_start run) group in
  let n := len offsets in
  if n <? 13 then Some [] else
  let ds := card_digits group in
  spans ← collect (fun i => lengths ← card_lengths (slice ds i (i + 4));
                            collect (card_span offsets ds n i) lengths) (zrange (n - 12));
  Some (merge_spans spans).

Definition card_candidates (text : str) : option (list (Z * Z)) :=
  collect (run_candidates text) (finditer DIGIT_RUN_PAT text).

(** ** The rule table *)

Record det_rule := DetRule {
  dr_label : str;
  dr_pattern : re;
  dr_validator : str -> option bool;
  dr_score : Q;
  dr_group : nat;
}.

Definition true_ (_ : str) : option bool := Some true.
Definition total_ (f : str -> bool) (s : str) : option bool := Some (f s).

Definition s_100 : Q := 1.
Definition s_095 : Q := 95 # 100.
Definition s_090 : Q := 90 # 100.
Definition s_085 : Q := 85 # 100.
Definition s_070 : Q := 70 # 100.

Definition RULES : list det_rule := [
  DetRule (u8 "PEM_PRIVATE_KEY") PEM_PAT true_ s_100 1;
  DetRule (u8 "DB_URL") DB_URL_PAT true_ s_100 0;
  DetRule (u8 "JWT") JWT_PAT true_ s_095 1;
  DetRule (u8 "API_KEY") OPENAI_KEY_PAT true_ s_100 1;
  DetRule (u8 "API_KEY") AWS_KEY_PAT true_ s_100 1;
  DetRule (u8 "API_KEY") GH_TOKEN_PAT true_ s_100 1;
  DetRule (u8 "API_KEY") GENERIC_SECRET_PAT true_ s_085 1;
  DetRule (u8 "TOKEN") BEARER_PAT true_ s_090 1;
  DetRule (u8 "PASSWORD") PASSWORD_PAT true_ s_090 1;
  DetRule (u8 "CIDR") CIDR_PAT (total_ cidr_ok) s_100 1;
  DetRule (u8 "IP_ADDRESS") IPV4_PAT (total_ ipv4_ok) s_100 1;
  DetRule (u8 "IP_ADDRESS") IPV6_PAT (total_ ipv6_ok) s_090 1;
  DetRule (u8 "HOSTNAME") HOSTNAME_PAT true_ s_070 1;
  DetRule (u8 "OGRN") OGRN_PAT ogrn_ok s_100 1;
  DetRule (u8 "RU_INN") INN_PAT inn_ok s_100 1;
  DetRule (u8 "BANK_CARD") CARD_PAT luhn_ok s_100 1;
  DetRule (u8 "BANK_CARD") CARD_GROUP16_PAT luhn_ok s_100 1;
  DetRule (u8 "SNILS") SNILS_KW_PAT snils_ok s_100 1;
  DetRule (u8 "BIK") BIK_PAT (total_ bik_ok) s_095 1;
  DetRule (u8 "KPP") KPP_PAT (total_ kpp_ok) s_090 1;
  DetRule (u8 "EMAIL") EMAIL_PAT true_ s_095 1;
  DetRule (u8 "PHONE_NUMBER") PHONE_RU_PAT true_ s_090 1;
  DetRule (u8 "PHONE_NUMBER") PHONE_INTL_PAT true_ s_085 1].

(** ** Deduplication *)

Definition overlaps (a b : finding) : bool := (f_start a <? f_end b) && (f_start b <? f_end a).

Definition prio_key (f : finding) : list Q :=
  [Qopp (f_score f); zk (- (f_end f - f_start f)); zk (f_start f)].

Fixpoint keep_go (kept : list finding) (l : list finding) : list finding :=
  match l with
  | [] => kept
  | f :: l' => if existsb (overlaps f) kept then keep_go kept l' else keep_go (kept ++ [f]) l'
  end.

Definition deduplicate (findings : list finding) : list finding :=
  sort_on (fun f => [zk (f_start f)]) (keep_go [] (sort_on prio_key findings)).

(** ** [detect] *)

Definition rule_finding (text : str) (r : det_rule) (m : mtch) : option (list finding) :=
  match mt_span (dr_group r) m with
  | None => Some []
  | Some (a, b) =>
    let val := slice text a b in
    ok ← dr_validator r val;
    Some (if (ok : bool) then [Finding val (dr_label r) a b (dr_score r)] else [])
  end.

Definition rule_findings (text : str) (r : det_rule) : option (list finding) :=
  collect (rule_finding text r) (finditer (dr_pattern r) text).

Definition group_text (text : str) (m : mtch) (n : nat) : str := default [] (mt_group n text m).

Definition snils_fmt_finding (text : str) (m : mtch) : option (list finding) :=
  let s := group_text text m 1 ++ group_text text m 2 ++ group_text text m 3 ++ group_text text m 4 in
  ok ← snils_ok s;
  Some (if (ok : bool) then [Finding (slice text (mt_start m) (mt_end m)) (u8 "SNILS") (mt_start m) (mt_end m) s_100]
        else []).

(** [(m.group(1), m.start(1), m.end(1))] of a match whose group 1 is set. *)
Definition group1 (text : str) (m : mtch) : str * (Z * Z) :=
  let span := default (0, 0) (mt_span 1 m) in (slice text span.1 span.2, span).

(** The score of an account: 1.0 with a matching BIK within 300 characters. *)
Fixpoint acct_score (acct : str) (a_start a_end : Z) (biks : list (str * (Z * Z))) : option Q :=
  match biks with
  | [] => Some s_070
  | (bv, (bs, be)) :: biks' =>
    if Z.min (Z.abs (a_start - be)) (Z.abs (bs - a_end)) <? 300
    then ok ← bank_acct_key_ok acct bv; if (ok : bool) then Some s_100 else acct_score acct a_start a_end biks'
    else acct_score acct a_start a_end biks'
  end.

Definition acct_finding (biks : list (str * (Z * Z))) (a : str * (Z * Z)) : option (list finding) :=
  let '(acct, (a_start, a_end)) := a in
  score ← acct_score acct a_start a_end biks;
  Some [Finding acct (u8 "BANK_ACCOUNT") a_start a_end score].

Definition accounts (text : str) : list (str * (Z * Z)) :=
  concat (map (fun pat => map (group1 text) (finditer pat text)) [ACCT_KW_PAT; ACCT_BARE_PAT]).

Definition biks (text : str) : list (str * (Z * Z)) := map (group1 text) (finditer BIK_PAT text).

Definition in_account (accts : list (str * (Z * Z))) (c : Z * Z) : bool :=
  existsb (fun a : str * (Z * Z) => (a.2.1 <=? c.1) && (c.2 <=? a.2.2)) accts.

Definition card_finding (text : str) (c : Z * Z) : finding :=
  Finding (slice text c.1 c.2) (u8 "BANK_CARD") c.1 c.2 s_100.

(** The findings before deduplication, in the order they are appended. *)
Definition raw_findings (text : str) : option (list finding) :=
  by_rule ← collect (rule_findings text) RULES;
  snils ← collect (snils_fmt_finding text) (finditer SNILS_FMT_PAT text);
  accts ← collect (acct_finding (biks text)) (accounts text);
  cards ← card_candidates text;
  Some (by_rule ++ snils ++ accts ++
        map (card_finding text) (List.filter (fun c => negb (in_account (accounts text) c)) cards)).

Definition detect (text : str) : option (list finding) := deduplicate <$> raw_findings text.
End Detector.

(** ** Theorems: merging spans *)

(** The points a list of ranges covers. *)
Definition covers (l : list (Z * Z)) (x : Z) : bool :=
  existsb (fun r : Z * Z => (r.1 <=? x) && (x <? r.2)) l.

(** The loop of [_merge_spans]: [acc] is the merged list, last range first. *)
Record merge_inv (acc spans : list (Z * Z)) : Prop := MergeInv {
  mi_nonempty : Forall (fun x => x.1 < x.2) acc;
  mi_sorted : StronglySorted (fun x y => y.2 <= x.1) acc;
  mi_union : forall x, covers acc x = covers spans x;
  mi_ends : forall r, r ∈ acc -> (exists s, s ∈ spans /\ s.1 = r.1) /\ (exists s, s ∈ spans /\ s.2 = r.2);
}.

Lemma mi_ends_app (spans : list (Z * Z)) s r :
  (exists x, x ∈ spans /\ x.1 = r.1) /\ (exists x, x ∈ spans /\ x.2 = r.2) ->
  (exists x, x ∈ spans ++ [s] /\ x.1 = r.1) /\ (exists x : Z * Z, x ∈ spans ++ [s] /\ x.2 = r.2 :> Z).
Proof. intros [(x & ? & ?) (y & ? & ?)]. split; [exists x|exists y]; set_solver. Qed.

Lemma merge_step_inv acc spans s :
  merge_inv acc spans -> s.1 < s.2 -> (forall r, r ∈ spans -> r.1 <= s.1) ->
  merge_inv (merge_step acc s) (spans ++ [s]).
Proof.
  intros [Hn Hs Hu Hends] Hne Hle. destruct s as [c d]. cbn in Hne, Hle.
  assert (forall x, covers (spans ++ [(c, d)]) x = covers spans x || ((c <=? x) && (x <? d))) as Hcov.
  { intros x. unfold covers. rewrite existsb_app. cbn. by rewrite orb_false_r. }
  destruct acc as [|[a b] acc]; cbn [merge_step fst snd].
  { split; [by repeat constructor|by repeat constructor| |].
    - intros x. rewrite Hcov, <- Hu. cbn. lia.
    - intros r ->%list_elem_of_singleton. split; exists (c, d); set_solver. }
  apply Forall_cons in Hn as [Hab Hn]. cbn in Hab. inversion Hs as [|? ? Hs' Hall]; subst.
  assert (a <= c) as Hac.
  { destruct (Hends (a, b)) as [(s & Hsd & Es) _]; [by left|]. apply Hle in Hsd. cbn in Es. lia. }
  destruct (Z.ltb_spec c b) as [Hcb|Hcb]; cbn; split.
  - constructor; [cbn; lia|done].
  - by constructor.
  - intros x. rewrite Hcov, <- Hu. cbn. destruct (covers acc x); lia.
  - intros r [->|Hr]%elem_of_cons; [|apply mi_ends_app, Hends; by right].
    destruct (mi_ends_app spans (c, d) (a, b)) as [H1 H2]; [apply Hends; by left|]. split; [done|].
    cbn. destruct (Z.max_spec b d) as [[_ ->]|[_ ->]]; [exists (c, d); set_solver|done].
  - by repeat constructor.
  - constructor; [done|]. constructor; [cbn; lia|]. eapply Forall_impl; [exact Hall|]. cbn. lia.
  - intros x. rewrite Hcov, <- Hu. cbn. destruct (covers acc x); lia.
  - intros r [->|Hr]%elem_of_cons; [split; exists (c, d); set_solver|].
    by apply mi_ends_app, Hends.
Qed.
Lemma merge_loop_inv spans acc seen :
  merge_inv acc seen -> Forall (fun s => s.1 < s.2) spans ->
  (forall r s, r ∈ seen -> s ∈ spans -> r.1 <= s.1) -> StronglySorted (fun x y => x.1 <= y.1) spans ->
  merge_inv (foldl merge_step acc spans) (seen ++ spans).
Proof.
  revert acc seen. induction spans as [|s spans IH]; intros acc seen Hi Hne Hle Hs; cbn.
  { by rewrite app_nil_r. }
  apply Forall_cons in Hne as [Hs0 Hne]. inversion Hs as [|? ? Hs' Hall]; subst.
  replace (seen ++ s :: spans) with ((seen ++ [s]) ++ spans) by (by rewrite <- app_assoc).
  apply IH; [|done| |done].
  - apply merge_step_inv; [done|done|]. intros r Hr. apply Hle; [done|by left].
  - intros r s' [Hr| ->%list_elem_of_singleton]%elem_of_app Hs''; [apply Hle; [done|by right]|].
    rewrite Forall_forall in Hall. auto.
Qed.

Lemma covers_perm l l' x : l ≡ₚ l' -> covers l x = covers l' x.
Proof. unfold covers. induction 1; cbn; try congruence. lia. Qed.

Lemma merge_spans_inv spans :
  Forall (fun s => s.1 < s.2) spans ->
  merge_inv (rev (merge_spans spans)) (sort_on (fun s : Z * Z => [zk s.1; zk s.2]) spans).
Proof.
  intros Hne. unfold merge_spans. rewrite rev_involutive.
  set (l := sort_on _ spans).
  apply (merge_loop_inv l [] []); [split; try constructor; set_solver| |set_solver|].
  - unfold l. by rewrite sort_on_perm.
  - eapply StronglySorted_impl; [|apply sort_on_sorted]. cbv beta. intros x y _ _ H.
    rewrite lex_leb_zk in H. destruct (Z.compare_spec x.1 y.1); lia || done.
Qed.

Lemma StronglySorted_rev {A} (R : A -> A -> Prop) l :
  StronglySorted R (rev l) -> StronglySorted (fun x y => R y x) l.
Proof.
  induction l as [|x l IH]; cbn; [constructor|]. intros (H1 & _ & H3)%sorted_app_inv.
  constructor; [auto|]. rewrite Forall_forall in H3 |- *. intros y Hy.
  rewrite <- elem_of_rev_iff in Hy. apply H3 in Hy. by rewrite Forall_singleton in Hy.
Qed.

(** [_merge_spans] returns ranges that follow each other without overlap
    and cover exactly the characters the given spans cover. *)
Theorem merge_spans_union spans :
  Forall (fun s => s.1 < s.2) spans ->
  StronglySorted (fun x y => x.2 <= y.1) (merge_spans spans) /\
  forall x, covers (merge_spans spans) x = covers spans x.
Proof.
  intros Hne. destruct (merge_spans_inv spans Hne) as [_ Hs Hu _]. split.
  - by apply (StronglySorted_rev (fun x y : Z * Z => y.2 <= x.1)).
  - intros x. rewrite (covers_perm spans (sort_on (fun s : Z * Z => [zk s.1; zk s.2]) spans))
      by (by rewrite sort_on_perm).
    rewrite <- Hu. apply covers_perm. apply Permutation_rev.
Qed.

Lemma luhn_digit_range odd d : 0 <= d <= 9 -> 0 <= luhn_digit odd d <= 9.
Proof. unfold luhn_digit. destruct odd; [|lia]. destruct (Z.ltb_spec 9 (2 * d)); lia. Qed.

Lemma luhn_digit_inj odd d e :
  0 <= d <= 9 -> 0 <= e <= 9 -> luhn_digit odd d = luhn_digit odd e -> d = e.
Proof.
  unfold luhn_digit. destruct odd; [|lia]. destruct (Z.ltb_spec 9 (2 * d)), (Z.ltb_spec 9 (2 * e)); lia.
Qed.

Lemma luhn_total_app odd l k :
  luhn_total odd (l ++ k) = luhn_total odd l + luhn_total (xorb odd (Nat.odd (length l))) k.
Proof.
  revert odd. induction l as [|d l IH]; intros odd; cbn [app luhn_total length].
  { by rewrite xorb_false_r. }
  rewrite IH, Nat.odd_succ, <- Nat.negb_odd. destruct odd, (Nat.odd (length l)); cbn; lia.
Qed.

(** ** Theorems: validators never raise on what the patterns match *)

Lemma py_replace1 s c : py_replace s [c] [] = List.filter (fun d => negb (c =? d)%N) s.
Proof.
  cbn [py_replace]. induction s as [|d s IH]; [done|]. cbn [replace_go length Nat.sub List.filter].
  unfold starts_with. cbn [prefix_by]. rewrite andb_true_r. destruct (c =? d)%N; cbn; by rewrite IH.
Qed.

Lemma Forall_slice {A} (P : A -> Prop) l a b : Forall P l -> Forall P (slice l a b).
Proof. intros H. unfold slice. by apply Forall_take, Forall_drop. Qed.

Section DetectorFacts.
Context {U : Unicode} {L : UnicodeLaws U}.

Definition decimal (c : N) : Prop := is_digit c = true.
Definition decimal_or_sep (c : N) : Prop := decimal c \/ c = 32%N \/ c = 45%N.

Lemma ascii_decimal c : ascii_digit_p c = true -> decimal c.
Proof using L.
  intros H. unfold decimal, is_digit. rewrite decimal_ascii by (unfold is_ascii, ascii_digit_p, in_range in *; lia).
  by rewrite H.
Qed.

Lemma card_digits_decimal s : Forall decimal_or_sep s -> Forall decimal (card_digits s).
Proof.
  unfold card_digits. rewrite !py_replace1, !Forall_forall. intros H c Hc.
  py_elem in Hc. destruct Hc as [[Hc H2] H1].
  apply H in Hc as [?|[->| ->]]; [done|done|done].
Qed.

Lemma digits_of_total s : Forall decimal s -> exists ds, digits_of s = Some ds.
Proof.
  unfold digits_of. induction 1 as [|c s Hc Hs [ds IH]]; [by exists []|].
  unfold decimal, is_digit in Hc. destruct (u_decimal c) as [d|] eqn:E; [|done].
  exists (d :: ds). cbn. rewrite E. cbn. by rewrite IH.
Qed.

Lemma int_of_total s : s <> [] -> Forall decimal s -> exists n, int_of s = Some n.
Proof.
  intros Hne H%digits_of_total. destruct H as [ds H]. unfold int_of. rewrite H. destruct s; [done|]. by eexists.
Qed.

Lemma int_slice_total s a b :
  Forall decimal s -> 0 <= a -> a < b -> b <= len s -> exists n, int_of (slice s a b) = Some n.
Proof.
  intros H Ha Hab Hb. apply int_of_total; [|by apply Forall_slice].
  intros E. pose proof (len_slice s a b ltac:(lia) ltac:(lia) Hb) as Hl. rewrite E, len_nil in Hl. lia.
Qed.

Lemma inn_ok_total s : Forall decimal s -> exists ok, inn_ok s = Some ok.
Proof.
  intros H%digits_of_total. destruct H as [ds H]. unfold inn_ok, inn10_ok, inn12_ok. rewrite H. cbn.
  repeat case_match; eauto.
Qed.

Lemma ogrn_ok_total s : Forall decimal s -> exists ok, ogrn_ok s = Some ok.
Proof.
  intros H. unfold ogrn_ok, ogrn13_ok, ogrn15_ok.
  destruct (Z.eqb_spec (len s) 13); [|destruct (Z.eqb_spec (len s) 15); [|eauto]].
  all: destruct (negb (isdigit s)); [eauto|].
  - destruct (int_slice_total s 0 12 H) as [a ->]; [lia..|].
    destruct (int_slice_total s 12 13 H) as [b ->]; [lia..|]. cbn. eauto.
  - destruct (int_slice_total s 0 14 H) as [a ->]; [lia..|].
    destruct (int_slice_total s 14 15 H) as [b ->]; [lia..|]. cbn. eauto.
Qed.

Lemma snils_ok_total s : Forall decimal s -> exists ok, snils_ok s = Some ok.
Proof.
  intros H. unfold snils_ok. destruct (negb (isdigit s) || _) eqn:E; [eauto|].
  destruct (int_slice_total s 0 9 H) as [a ->]; [lia..|].
  destruct (int_slice_total s 9 11 H) as [b ->]; [lia..|].
  destruct (digits_of_total s H) as [ds ->]. cbn. case_match; eauto.
Qed.

Lemma luhn_ok_total s : Forall decimal_or_sep s -> exists ok, luhn_ok s = Some ok.
Proof.
  intros H%card_digits_decimal%digits_of_total. destruct H as [ds H]. unfold luhn_ok. rewrite H.
  cbn. case_match; eauto.
Qed.

Lemma card_lengths_total s :
  Forall decimal s -> exists ls, card_lengths s = Some ls /\ Forall (fun n => 13 <= n) ls.
Proof.
  intros H. unfold card_lengths. destruct ((len s <? 4) || _) eqn:E; [eauto|].
  destruct (int_slice_total s 0 4 H) as [a ->]; [lia..|]. cbn. eexists. split; [done|].
  repeat (case_match; [repeat constructor; lia|]). constructor.
Qed.

Lemma bank_acct_key_total a b : Forall decimal a -> Forall decimal b -> exists ok, bank_acct_key_ok a b = Some ok.
Proof.
  intros Ha Hb. unfold bank_acct_key_ok.
  destruct (digits_of_total (slice b (-3) (len b) ++ a)) as [ds ->].
  - apply Forall_app. split; [by apply Forall_slice|done].
  - cbn. case_match; eauto.
Qed.

(** *** Character classes of the patterns *)

Lemma one_of_sep c : one_of (u8 " -") c = true -> decimal_or_sep c.
Proof. unfold one_of. cbn. intros H. right. lia. Qed.

Lemma range_decimal lo hi c : (48 <= lo)%N -> (hi <= 57)%N -> in_range lo hi c = true -> decimal c.
Proof using L. intros ? ? H. apply ascii_decimal. unfold ascii_digit_p, in_range in *. lia. Qed.

Lemma eqb_decimal a c : ascii_digit_p a = true -> (a =? c)%N = true -> decimal c.
Proof using L. intros Ha H%N.eqb_eq. subst. by apply ascii_decimal. Qed.

(** Reads [gall n (all_chars decimal)] and its variant with separators off a pattern. *)
Ltac chars_tac :=
  cbn [gall all_chars seqs bounded grp1 digits sep_sh rep rep_range opt star plus lit ch cls alts digit space];
  repeat match goal with
  | |- _ /\ _ => split
  | |- True => exact I
  | |- _ = _ -> _ => intros _
  | |- forall c, _ = true -> _ => let c := fresh in let H := fresh in
      intros c H; first [ exact H | by apply one_of_sep | left; exact H
                        | eapply range_decimal; [| |exact H]; vm_compute; discriminate
                        | eapply eqb_decimal; [|exact H]; reflexivity ]
  end.

Lemma INN_chars : gall 1 (all_chars decimal) INN_PAT.
Proof using L. unfold INN_PAT. chars_tac. Qed.

Lemma OGRN_chars : gall 1 (all_chars decimal) OGRN_PAT.
Proof using L. unfold OGRN_PAT. chars_tac. Qed.

Lemma SNILS_KW_chars : gall 1 (all_chars decimal) SNILS_KW_PAT.
Proof using L. unfold SNILS_KW_PAT. chars_tac. Qed.

Lemma CARD_chars : gall 1 (all_chars decimal_or_sep) CARD_PAT.
Proof using L. unfold CARD_PAT. chars_tac. Qed.

Lemma CARD_GROUP16_chars : gall 1 (all_chars decimal_or_sep) CARD_GROUP16_PAT.
Proof using L. unfold CARD_GROUP16_PAT. chars_tac. Qed.

Lemma BIK_chars : gall 1 (all_chars decimal) BIK_PAT.
Proof using L. unfold BIK_PAT. chars_tac. Qed.

Lemma ACCT_KW_chars : gall 1 (all_chars decimal) ACCT_KW_PAT.
Proof using L.
  unfold ACCT_KW_PAT. cbn [gall]. split; [vm_compute; tauto|]. chars_tac.
Qed.

Lemma ACCT_BARE_chars : gall 1 (all_chars decimal) ACCT_BARE_PAT.
Proof using L. unfold ACCT_BARE_PAT. chars_tac. Qed.

Lemma SNILS_FMT_chars n : (1 <= n <= 4)%nat -> gall n (all_chars decimal) SNILS_FMT_PAT.
Proof using L. intros Hn. unfold SNILS_FMT_PAT. chars_tac. Qed.

Lemma DIGIT_RUN_chars : all_chars decimal_or_sep DIGIT_RUN_PAT.
Proof using L. unfold DIGIT_RUN_PAT. chars_tac. Qed.

(** *** Rules *)

(** A finding in its text. *)
Record finding_wf (text : str) (f : finding) : Prop := FindingWf {
  fw_start : 0 <= f_start f;
  fw_order : f_start f < f_end f;
  fw_end : f_end f <= len text;
  fw_text : f_text f = slice text (f_start f) (f_end f);
}.

(** What the table promises of a rule: a proper span for every match, and a
    validator that returns on the text of that span. *)
Definition rule_spans_ok (r : det_rule) : Prop :=
  match dr_group r with
  | O => nullable (dr_pattern r) = false
  | n => sets n (dr_pattern r) = true /\ gall n (fun a => nullable a = false) (dr_pattern r)
  end.

Definition rule_validates (r : det_rule) : Prop :=
  (forall s, exists ok, dr_validator r s = Some ok) \/
  exists P, gall (dr_group r) (all_chars P) (dr_pattern r) /\ dr_group r <> 0%nat /\
            forall s, Forall P s -> exists ok, dr_validator r s = Some ok.

Lemma RULES_spans : Forall rule_spans_ok RULES.
Proof. unfold RULES. repeat constructor; cbn; intros; done. Qed.

Lemma validates_by r P :
  gall (dr_group r) (all_chars P) (dr_pattern r) -> dr_group r <> 0%nat ->
  (forall s, Forall P s -> exists ok, dr_validator r s = Some ok) -> rule_validates r.
Proof. intros. right. by exists P. Qed.

Lemma RULES_validate : Forall rule_validates RULES.
Proof using L.
  unfold RULES.
  repeat (apply Forall_cons; split;
    [first [ left; intros s; eexists; reflexivity
           | by eapply validates_by; [exact INN_chars|done|exact inn_ok_total]
           | by eapply validates_by; [exact OGRN_chars|done|exact ogrn_ok_total]
           | by eapply validates_by; [exact SNILS_KW_chars|done|exact snils_ok_total]
           | by eapply validates_by; [exact CARD_chars|done|exact luhn_ok_total]
           | by eapply validates_by; [exact CARD_GROUP16_chars|done|exact luhn_ok_total] ]|]).
  constructor.
Qed.

Lemma rule_span r text m :
  rule_spans_ok r -> m ∈ finditer (dr_pattern r) text ->
  exists a b, mt_span (dr_group r) m = Some (a, b) /\ 0 <= a /\ a < b /\ b <= len text.
Proof.
  intros Hr Hm%finditer_ok. unfold rule_spans_ok, mt_span in *. destruct (dr_group r) as [|n].
  - exists (mt_start m), (mt_end m). pose proof (mtch_ok_proper _ _ _ Hm Hr) as [? ?].
    split_and!; [done|apply Hm|done|done].
  - destruct Hr as [Hs Hg]. by apply (mtch_group_span (dr_pattern r)).
Qed.

Lemma rule_findings_total text r :
  rule_spans_ok r -> rule_validates r ->
  exists fs, rule_findings text r = Some fs /\ Forall (finding_wf text) fs.
Proof.
  intros Hs Hv. apply collect_total. intros m Hm.
  destruct (rule_span r text m Hs Hm) as (a & b & Hd & H0 & Hab & Hb).
  unfold rule_finding. rewrite Hd.
  assert (exists ok, dr_validator r (slice text a b) = Some ok) as [ok ->].
  { destruct Hv as [Hv|(P & Hg & Hn & Hv)]; [done|]. apply Hv. apply finditer_ok in Hm.
    unfold mt_span in Hd. destruct (dr_group r) as [|n]; [done|].
    by apply (mtch_group_chars (dr_pattern r) text m (S n)). }
  cbn. eexists. split; [done|]. destruct ok; [|constructor]. repeat constructor; done.
Qed.

(** *** SNILS groups and accounts *)

Lemma group_text_decimal text m n :
  m ∈ finditer SNILS_FMT_PAT text -> (1 <= n <= 4)%nat -> Forall decimal (group_text text m n).
Proof using L.
  intros Hm%finditer_ok Hn. unfold group_text, mt_group, mt_span. destruct n as [|n]; [lia|].
  destruct (dget (S n) (mt_groups m)) as [[a b]|] eqn:E; cbn; [|constructor].
  eapply (mtch_group_chars SNILS_FMT_PAT); [done|done|]. by apply SNILS_FMT_chars.
Qed.

Lemma snils_fmt_total text m :
  m ∈ finditer SNILS_FMT_PAT text ->
  exists fs, snils_fmt_finding text m = Some fs /\ Forall (finding_wf text) fs.
Proof using L.
  intros Hm. unfold snils_fmt_finding.
  destruct (snils_ok_total (group_text text m 1 ++ group_text text m 2 ++ group_text text m 3 ++
              group_text text m 4)) as [ok ->].
  { rewrite !Forall_app. split_and!; apply group_text_decimal; (done || lia). }
  cbn. eexists. split; [done|]. destruct ok; [|constructor]. apply finditer_ok in Hm.
  pose proof (mtch_ok_proper _ _ _ Hm eq_refl) as [? ?]. pose proof (mk_start _ _ _ Hm).
  by repeat constructor.
Qed.

(** A captured number with its span. *)
Definition numeral_wf (text : str) (a : str * (Z * Z)) : Prop :=
  0 <= a.2.1 /\ a.2.1 < a.2.2 /\ a.2.2 <= len text /\ a.1 = slice text a.2.1 a.2.2 /\ Forall decimal a.1.

Lemma group1_wf text pat m :
  sets 1 pat = true -> gall 1 (fun a => nullable a = false) pat -> gall 1 (all_chars decimal) pat ->
  m ∈ finditer pat text -> numeral_wf text (group1 text m).
Proof.
  intros Hs Hg Hc Hm%finditer_ok. destruct (mtch_group_span _ _ _ _ Hm Hs Hg) as (a & b & Hd & ? & ? & ?).
  unfold group1, mt_span. rewrite Hd. cbn. unfold numeral_wf. cbn. split_and!; [done|done|done|done|].
  by eapply (mtch_group_chars pat).
Qed.

Lemma biks_wf text : Forall (numeral_wf text) (biks text).
Proof using L.
  apply Forall_map, Forall_forall. intros m. apply group1_wf; [done|by repeat split|apply BIK_chars].
Qed.

Lemma accounts_wf text : Forall (numeral_wf text) (accounts text).
Proof using L.
  unfold accounts. cbn [map concat]. rewrite app_nil_r. apply Forall_app.
  split; apply Forall_map, Forall_forall; intros m;
    (apply group1_wf; [done|vm_compute; tauto|]); [apply ACCT_KW_chars|apply ACCT_BARE_chars].
Qed.

Lemma acct_finding_total text bs a :
  Forall (numeral_wf text) bs -> numeral_wf text a ->
  exists fs, acct_finding bs a = Some fs /\ Forall (finding_wf text) fs.
Proof.
  intros Hbs (H1 & H2 & H3 & H4 & H5). destruct a as [acct [s e]]. cbn in *.
  assert (exists q, acct_score acct s e bs = Some q) as [q Hq].
  { induction Hbs as [|[bv [b1 b2]] bs (_ & _ & _ & _ & Hb) _ [q IH]]; cbn in *; [eauto|].
    case_match; [|eauto]. destruct (bank_acct_key_total acct bv H5 Hb) as [[] ->]; cbn; eauto. }
  rewrite Hq. cbn. eexists. split; [done|]. repeat constructor; done.
Qed.

(** *** Card candidates *)

Lemma digit_offsets_bounds start group :
  Forall (fun o => start <= o < start + len group) (digit_offsets start group) /\
  StronglySorted Z.lt (digit_offsets start group).
Proof.
  revert start. induction group as [|c group IH]; intros start; cbn; [split; constructor|].
  rewrite len_cons. destruct (IH (start + 1)) as [Hb Hs]. pose proof (len_nonneg group).
  assert (Forall (fun o => start <= o < start + (1 + len group)) (digit_offsets (start + 1) group)) as Hb'.
  { eapply Forall_impl; [exact Hb|]. cbn. lia. }
  destruct (u_digit c); cbn; split; try done.
  - constructor; [lia|done].
  - constructor; [done|]. eapply Forall_impl; [exact Hb|]. cbn. lia.
Qed.

Lemma sorted_nth l i j :
  StronglySorted Z.lt l -> (i <= j)%nat -> (j < length l)%nat -> nth i l 0 <= nth j l 0.
Proof.
  intros Hs. revert i j. induction Hs as [|x l Hl IH Hx]; intros i j Hij Hj; cbn in Hj; [lia|].
  destruct i as [|i], j as [|j]; cbn; [lia| |lia|apply IH; lia].
  rewrite Forall_forall in Hx. assert (x < nth j l 0); [|lia]. apply Hx.
  apply list_elem_of_In, nth_In. lia.
Qed.

Definition range_wf (text : str) (s : Z * Z) : Prop := 0 <= s.1 /\ s.1 < s.2 /\ s.2 <= len text.

Lemma nth_elem (l : list Z) i : (i < length l)%nat -> nth i l 0 ∈ l.
Proof. intros. by apply list_elem_of_In, nth_In. Qed.

Lemma card_span_total text start group ds i plen :
  0 <= start -> start + len group <= len text -> Forall decimal ds -> 0 <= i -> 1 <= plen ->
  let offsets := digit_offsets start group in
  exists spans, card_span offsets ds (len offsets) i plen = Some spans /\ Forall (range_wf text) spans.
Proof.
  intros H0 Hend Hds Hi Hlen offsets. unfold card_span.
  destruct (Z.ltb_spec (len offsets - i - plen) 0) as [|Ht]; [eauto|].
  destruct (negb (i =? 0) && _ && _); [eauto|].
  destruct (luhn_ok_total (slice ds i (i + plen))) as [ok ->].
  { apply Forall_slice. eapply Forall_impl; [exact Hds|]. by left. }
  cbn. eexists. split; [done|]. destruct ok; [|constructor].
  destruct (digit_offsets_bounds start group) as [Hb Hs]. fold offsets in Hb, Hs.
  rewrite Forall_forall in Hb. unfold len in Ht.
  assert (Z.to_nat i < length offsets)%nat as Hi' by lia.
  assert (Z.to_nat (i + plen - 1) < length offsets)%nat as Hj' by lia.
  pose proof (Hb _ (nth_elem _ _ Hi')). pose proof (Hb _ (nth_elem _ _ Hj')).
  pose proof (sorted_nth offsets (Z.to_nat i) (Z.to_nat (i + plen - 1)) Hs ltac:(lia) Hj').
  repeat constructor; cbn; lia.
Qed.


Lemma run_candidates_total text run :
  run ∈ finditer DIGIT_RUN_PAT text ->
  exists spans, run_candidates text run = Some spans /\ Forall (range_wf text) spans.
Proof using L.
  intros Hr%finditer_ok. destruct Hr as [H1 H2 H3 H4 _ _ _]. unfold run_candidates.
  set (group := slice text (mt_start run) (mt_end run)) in *.
  set (offsets := digit_offsets (mt_start run) group).
  destruct (len offsets <? 13); [eauto|].
  assert (Forall decimal (card_digits group)) as Hd.
  { apply card_digits_decimal. by apply (lang_chars _ DIGIT_RUN_PAT), H4; apply DIGIT_RUN_chars. }
  destruct (collect_total (fun i => lengths ← card_lengths (slice (card_digits group) i (i + 4));
      collect (card_span offsets (card_digits group) (len offsets) i) lengths)
      (range_wf text) (zrange (len offsets - 12))) as (spans & -> & Hw).
  { intros i Hi. unfold zrange in Hi. apply list_elem_of_fmap in Hi as (k & -> & _).
    destruct (card_lengths_total (slice (card_digits group) (Z.of_nat k) (Z.of_nat k + 4))) as (ls & -> & Hl);
      [by apply Forall_slice|]. cbn. apply collect_total. intros n Hn.
    rewrite Forall_forall in Hl. apply Hl in Hn. apply card_span_total; [done| |done|lia|lia].
    unfold group. rewrite len_slice by lia. lia. }
  cbn. eexists. split; [done|].
  assert (Forall (fun s : Z * Z => s.1 < s.2) spans) as Hne
    by (eapply Forall_impl; [exact Hw|]; by intros ? (_ & ? & _)).
  destruct (merge_spans_inv spans Hne) as [Hm _ _ He]. rewrite Forall_forall in Hw.
  apply Forall_forall. intros r Hr. rewrite <- elem_of_rev_iff in Hr.
  destruct (He r Hr) as [(s & Hs & Es) (t & Ht & Et)]. rewrite elem_of_sort_on in Hs, Ht.
  destruct (Hw s Hs) as (? & _ & _), (Hw t Ht) as (_ & _ & ?).
  rewrite Forall_forall in Hm. pose proof (Hm r Hr). unfold range_wf. cbn in *. lia.
Qed.

(** ** Deduplication *)

Lemma keep_go_ref kept l : keep_go kept l = kept ++ select_ref f_span (map f_span kept) l.
Proof.
  revert kept. induction l as [|f l IH]; intros kept; cbn; [by rewrite app_nil_r|].
  assert (existsb (overlaps f) kept = linear_overlaps (map f_span kept) (f_span f)) as ->.
  { unfold linear_overlaps. induction kept as [|k kept IHk]; cbn; [done|]. by rewrite IHk. }
  destruct (linear_overlaps _ _); [apply IH|]. rewrite IH, <- app_assoc. cbn. do 2 f_equal.
  apply select_ref_perm. rewrite map_app. cbn. by rewrite Permutation_app_comm.
Qed.

Lemma deduplicate_elem fs f :
  f ∈ deduplicate fs <-> f ∈ select_ref f_span [] (sort_on prio_key fs).
Proof. unfold deduplicate. rewrite elem_of_sort_on, keep_go_ref. done. Qed.

Lemma deduplicate_subset fs f : f ∈ deduplicate fs -> f ∈ fs.
Proof. rewrite deduplicate_elem. intros H%select_ref_elem. by rewrite elem_of_sort_on in H. Qed.

Lemma deduplicate_sorted fs :
  Forall (nonempty_span f_span) fs ->
  StronglySorted (fun x y => f_end x <= f_start y) (deduplicate fs).
Proof.
  intros Hne. unfold deduplicate. rewrite keep_go_ref. cbn [app map].
  apply (sort_disjoint f_span); [by eexists| |apply select_ref_disjoint].
  rewrite Forall_forall in Hne |- *. intros f Hf%select_ref_elem. rewrite elem_of_sort_on in Hf. auto.
Qed.

Lemma deduplicate_maximal fs f :
  f ∈ fs -> nonempty_span f_span f ->
  exists k, k ∈ deduplicate fs /\ overlaps f k = true /\ (f_score f <= f_score k)%Q.
Proof using.
  intros Hf Hne. rewrite <- (elem_of_sort_on prio_key) in Hf.
  destruct (select_ref_maximal f_span [] _ _ _ (sort_on_sorted prio_key _) Hf)
    as [H|[(y & Hy & _)|(d & Hd & Ho & Hle)]]; [|by apply not_elem_of_nil in Hy|].
  - exists f. rewrite deduplicate_elem. split_and!; [done| |apply Qle_refl].
    unfold overlaps, nonempty_span, f_span in *. cbn in Hne. lia.
  - exists d. rewrite deduplicate_elem. split_and!; [done|done|].
    unfold prio_key in Hle. cbn [lex_leb] in Hle.
    destruct (Qcompare_spec (- f_score d) (- f_score f)) as [E|E|E]; [| |done];
      unfold Qeq, Qlt, Qle, Qopp in *; cbn in *; nia.
Qed.

(** ** The properties of the detector *)

Lemma raw_findings_total text :
  exists raw, raw_findings text = Some raw /\ Forall (finding_wf text) raw.
Proof using L.
  unfold raw_findings.
  destruct (collect_total (rule_findings text) (finding_wf text) RULES) as (l1 & -> & W1).
  { intros r Hr. pose proof RULES_spans as Hs. pose proof RULES_validate as Hv.
    rewrite Forall_forall in Hs, Hv. apply rule_findings_total; auto. }
  destruct (collect_total (snils_fmt_finding text) (finding_wf text) (finditer SNILS_FMT_PAT text))
    as (l2 & -> & W2); [intros m; apply snils_fmt_total|].
  destruct (collect_total (acct_finding (biks text)) (finding_wf text) (accounts text)) as (l3 & -> & W3).
  { intros a Ha. pose proof (accounts_wf text) as Hw. rewrite Forall_forall in Hw.
    apply acct_finding_total; [apply biks_wf|auto]. }
  unfold card_candidates.
  destruct (collect_total (run_candidates text) (range_wf text) (finditer DIGIT_RUN_PAT text))
    as (l4 & -> & W4); [intros m; apply run_candidates_total|].
  cbn. eexists. split; [done|]. rewrite !Forall_app. split_and!; [done|done|done|].
  apply Forall_map, Forall_forall. intros c Hc. apply elem_of_lfilter in Hc as [Hc _].
  rewrite Forall_forall in W4. apply W4 in Hc as (? & ? & ?). by split.
Qed.

Lemma detect_returns text : exists fs, detect text = Some fs /\ Forall (finding_wf text) fs.
Proof using L.
  destruct (raw_findings_total text) as (raw & Hr & Hw). unfold detect. rewrite Hr. cbn.
  eexists. split; [done|]. rewrite Forall_forall in Hw |- *. intros f Hf%deduplicate_subset. auto.
Qed.

(** [detect] always returns (no validator raises on what the patterns
    match), and its findings are in range, non-empty, carry exactly the text
    they cover, and follow each other without overlap. *)
Theorem detect_sound text :
  exists fs, detect text = Some fs /\ Forall (finding_wf text) fs /\
             StronglySorted (fun x y => f_end x <= f_start y) fs.
Proof using L.
  destruct (raw_findings_total text) as (raw & Hr & Hw). unfold detect. rewrite Hr. cbn.
  eexists. split; [done|]. rewrite Forall_forall in Hw. split.
  - apply Forall_forall. intros f Hf%deduplicate_subset. auto.
  - apply deduplicate_sorted, Forall_forall. intros f Hf. by destruct (Hw f Hf).
Qed.

(** detection covers. A match of a rule whose validator accepts the
    captured value overlaps a reported finding with at least the rule's score:
    deduplication drops a hit only in favour of one that scores as high. *)
Theorem detect_covers text fs r m a b :
  detect text = Some fs -> r ∈ RULES -> m ∈ finditer (dr_pattern r) text ->
  mt_span (dr_group r) m = Some (a, b) -> dr_validator r (slice text a b) = Some true ->
  exists k, k ∈ fs /\ ranges_overlap (a, b) (f_span k) = true /\ (dr_score r <= f_score k)%Q.
Proof using L.
  intros Hd Hr Hm Hs Hv. destruct (raw_findings_total text) as (raw & Hraw & Hw).
  unfold detect in Hd. rewrite Hraw in Hd. injection Hd as <-.
  set (f := Finding (slice text a b) (dr_label r) a b (dr_score r)).
  assert (f ∈ raw) as Hf.
  { unfold raw_findings in Hraw. destruct (collect (rule_findings text) RULES) as [l1|] eqn:E1; [|done].
    destruct (collect (snils_fmt_finding text) _); [|done].
    destruct (collect (acct_finding _) _); [|done]. destruct (card_candidates text); [|done].
    injection Hraw as <-. apply elem_of_app; left.
    destruct (rule_findings text r) as [fs|] eqn:E2.
    - apply (collect_elem _ _ _ _ E1). exists r, fs. split_and!; [done|done|].
      apply (collect_elem _ _ _ _ E2). exists m, [f]. split_and!; [done| |by left].
      unfold rule_finding. by rewrite Hs, Hv.
    - pose proof RULES_spans as Hs'. pose proof RULES_validate as Hv'. rewrite Forall_forall in Hs', Hv'.
      destruct (rule_findings_total text r) as (? & ? & _); auto. congruence. }
  rewrite Forall_forall in Hw. pose proof (Hw f Hf) as [_ Hlt _ _].
  destruct (deduplicate_maximal raw f Hf Hlt) as (k & Hk & Ho & Hq). by exists k.
Qed.


(** *** Luhn catches a mistyped digit *)

Lemma digits_of_range s ds : digits_of s = Some ds -> Forall (fun x => 0 <= x <= 9) ds.
Proof using L.
  unfold digits_of. intros H%mapM_Some. induction H as [|c x ? ? Hx]; constructor; [|done].
  by eapply decimal_range.
Qed.

(** a card number that passes the Luhn check fails it once any single
    digit of it is changed to another digit. *)
Theorem luhn_single_digit_error l k d e s s' :
  card_digits s = s -> card_digits s' = s' ->
  digits_of s = Some (l ++ d :: k) -> digits_of s' = Some (l ++ e :: k) -> d <> e ->
  luhn_ok s = Some true -> luhn_ok s' = Some false.
Proof using L.
  intros Es Es' Hd Hd' Hne. unfold luhn_ok. rewrite Es, Es', Hd, Hd'.
  pose proof (digits_of_range _ _ Hd) as R1. pose proof (digits_of_range _ _ Hd') as R2.
  apply Forall_app in R1 as [_ R1], R2 as [_ R2]. apply Forall_cons in R1 as [R1 _], R2 as [R2 _].
  destruct (negb (isdigit s) || _); [done|]. cbn. intros H. injection H as H.
  destruct (negb (isdigit s') || _); [done|]. cbn. f_equal.
  rewrite !rev_app_distr in *. cbn [rev] in *. rewrite <- !app_assoc, !luhn_total_app in *. cbn [app luhn_total length] in *.
  set (o := xorb false _) in *. set (A := luhn_total false (rev k)) in *.
  set (B := luhn_total (xorb o (Nat.odd 1)) (rev l)) in *.
  pose proof (luhn_digit_range o d R1) as B1. pose proof (luhn_digit_range o e R2) as B2.
  pose proof (luhn_digit_inj o d e R1 R2) as Hinj. apply Z.eqb_eq in H. apply Z.eqb_neq. intros H'.
  apply Hne, Hinj. clear Hinj. revert H H' B1 B2. generalize A, B, (luhn_digit o d), (luhn_digit o e). clear.
  intros. Z.to_euclidean_division_equations. lia.
Qed.
End DetectorFacts.

(** ** Witnesses *)

Definition demo_pii : str := u8 "card 4111 1111 1111 1111123 ИНН 7707083893 pwd=hunter22".

Lemma detect_sound_witness :
  exists fs, detect (U := ru_unicode) demo_pii = Some fs /\ Forall (finding_wf demo_pii) fs /\
             StronglySorted (fun x y => f_end x <= f_start y) fs.
Proof. apply (detect_sound (U := ru_unicode) demo_pii). Defined.

Lemma detect_covers_witness :
  exists fs, detect (U := ru_unicode) demo_pii = Some fs /\
  exists k, k ∈ fs /\ ranges_overlap (32, 42) (f_span k) = true /\ (1 <= f_score k)%Q.
Proof.
  eexists. split; [vm_compute; reflexivity|].
  eapply (detect_covers (U := ru_unicode) demo_pii _
            (DetRule (u8 "RU_INN") (INN_PAT (U := ru_unicode)) (inn_ok (U := ru_unicode)) s_100 1) (Mtch 32 42 [(1%nat, (32, 42))])).
  - vm_compute. reflexivity.
  - unfold RULES. do 14 right. left.
  - assert (finditer (U := ru_unicode) (INN_PAT (U := ru_unicode)) demo_pii = [Mtch 32 42 [(1%nat, (32, 42))]]) as Hf
      by (vm_compute; reflexivity).
    cbn [dr_pattern]. rewrite Hf. left.
  - reflexivity.
  - vm_compute. reflexivity.
Defined.

Lemma merge_spans_union_witness : covers (merge_spans [(5, 9); (0, 6); (20, 30)]) 8 = true.
Proof.
  destruct (merge_spans_union [(5, 9); (0, 6); (20, 30)]) as [_ H].
  - repeat constructor.
  - rewrite H. reflexivity.
Defined.

Lemma luhn_single_digit_error_witness :
  luhn_ok (U := ru_unicode) (u8 "4111111111111112") = Some false.
Proof.
  apply (luhn_single_digit_error (U := ru_unicode) [4; 1; 1; 1; 1; 1; 1; 1; 1; 1; 1; 1; 1; 1; 1] [] 1 2
           (u8 "4111111111111111")).
  - reflexivity.
  - reflexivity.
  - reflexivity.
  - reflexivity.
  - discriminate.
  - reflexivity.
Defined.
