(* ===== verification/Segmenter.v ===== *)
(** * The code-aware segmenter ([sanitizer/segmenter/])

    [split_segments] cuts a text into PROSE, CODE and COMMENT segments;
    [split_identifier] cuts an identifier into sub-tokens.  The segments tile the
    text: no character is left out of detection and none is seen twice. *)

From S2P Require Import Prelude Text Regex Spans.

Inductive segment_kind := PROSE | CODE | COMMENT.

#[export] Instance segment_kind_eq_dec : EqDecision segment_kind.
Proof. solve_decision. Defined.

Record segment := Segment {
  seg_text : str; seg_kind : segment_kind; seg_start : Z; seg_end : Z;
}.

Section Segmenter.
Context {U : Unicode}.

Definition backticks : re := lit (u8 "```").
Definition any_char : re := Chr (fun _ => true).

(** A fenced block: three backticks, a language tag up to the end of the line,
    the code (group 1, lazily), three backticks. *)
Definition FENCE_RE : re :=
  seqs [backticks; star (cls (fun c => negb ((c =? 10) || (c =? 96))%N)); ch 10%N;
        Grp 1 (lazy_star any_char); backticks].

Definition BLOCK_COMMENT_RE : re := seqs [lit (u8 "/*"); lazy_star any_char; lit (u8 "*/")].

Definition LINE_COMMENT_RE : re :=
  Seq (Alt (lit (u8 "//")) (lit (u8 "#"))) (star (cls (fun c => negb (c =? 10)%N))).

Definition match_span (m : mtch) : Z * Z := (mt_start m, mt_end m).

(** Comment spans of a code block, sorted as tuples. *)
Definition comment_spans (code : str) : list (Z * Z) :=
  let block_spans := map match_span (finditer BLOCK_COMMENT_RE code) in
  let line_spans :=
    map match_span
      (List.filter (fun m => negb (existsb (fun b : Z * Z => (b.1 <=? mt_start m) && (mt_start m <? b.2))
                                           block_spans))
                   (finditer LINE_COMMENT_RE code)) in
  sort_on (fun s : Z * Z => [zk s.1; zk s.2]) (block_spans ++ line_spans).

(** The loop over the comments, each clipped to what is left. *)
Fixpoint split_code_go (code : str) (abs_offset : Z) (comments : list (Z * Z)) (pos : Z)
  : list segment :=
  match comments with
  | [] =>
    if pos <? len code
    then [Segment (slice code pos (len code)) CODE (abs_offset + pos) (abs_offset + len code)] else []
  | (s0, e0) :: rest =>
    let s := Z.max s0 pos in
    let e := Z.max e0 pos in
    if e <=? pos then split_code_go code abs_offset rest pos else
    (if pos <? s then [Segment (slice code pos s) CODE (abs_offset + pos) (abs_offset + s)] else []) ++
    Segment (slice code s e) COMMENT (abs_offset + s) (abs_offset + e) ::
    split_code_go code abs_offset rest e
  end.

Definition split_code_block (code : str) (abs_offset : Z) : list segment :=
  split_code_go code abs_offset (comment_spans code) 0.

Definition prose (text : str) (a b : Z) : list segment :=
  if a <? b then [Segment (slice text a b) PROSE a b] else [].

Fixpoint split_go (text : str) (fences : list mtch) (pos : Z) : list segment :=
  match fences with
  | [] => prose text pos (len text)
  | m :: rest =>
    let '(code_start, code_end) := default (0, 0) (mt_span 1 m) in
    prose text pos (mt_start m) ++
    prose text (mt_start m) code_start ++
    split_code_block (slice text code_start code_end) code_start ++
    prose text code_end (mt_end m) ++
    split_go text rest (mt_end m)
  end.

Definition split_segments (text : str) : list segment := split_go text (finditer FENCE_RE text) 0.

(** *** [identifiers.py] *)

Definition lower_digit_p (c : N) : bool := ascii_lower_p c || is_digit c.

(** Runs of capitals before a transition, capitalised words, lower-case runs. *)
Definition TOKEN_RE : re :=
  alts [Seq (rep_at_least 2 (cls ascii_upper_p))
            (Ahead true (alts [Seq (cls ascii_upper_p) (cls ascii_lower_p); digit;
                               Chr (one_of (u8 "_-")); Eol]));
        Seq (cls ascii_upper_p) (star (Chr lower_digit_p));
        plus (Chr lower_digit_p)].

Definition split_identifier (name : str) : list (str * Z * Z) :=
  map (fun m => (slice name (mt_start m) (mt_end m), mt_start m, mt_end m)) (finditer TOKEN_RE name).
End Segmenter.

(** ** Theorems *)

(** The segments cover [a, b) of the text one after the other, none empty, each
    carrying the text it covers. *)
Fixpoint tiles (text : str) (a b : Z) (l : list segment) : Prop :=
  match l with
  | [] => a = b
  | s :: l' => seg_start s = a /\ a < seg_end s /\ seg_end s <= b /\
               seg_text s = slice text a (seg_end s) /\ tiles text (seg_end s) b l'
  end.

Lemma tiles_le text a b l : tiles text a b l -> a <= b.
Proof. revert a. induction l as [|s l IH]; intros a; cbn; [lia|]. intros (_ & ? & ? & _ & H%IH). lia. Qed.

Lemma tiles_app text a b c l k : tiles text a b l -> tiles text b c k -> tiles text a c (l ++ k).
Proof.
  revert a. induction l as [|s l IH]; intros a; cbn; [by intros ->|].
  intros (? & ? & ? & ? & H) Hk. split_and!; [done|done| |done|by apply IH].
  pose proof (tiles_le _ _ _ _ H). pose proof (tiles_le _ _ _ _ Hk). lia.
Qed.

Lemma tiles_prose text a b : a <= b -> tiles text a b (prose text a b).
Proof. intros H. unfold prose. destruct (Z.ltb_spec a b); cbn; [|lia]. split_and!; (done || lia). Qed.

(** Tiling a block of code is tiling its range of the text. *)
Lemma tiles_shift text off n a b l :
  0 <= off -> 0 <= n -> off + n <= len text -> 0 <= a ->
  tiles (slice text off (off + n)) a b (map (fun s => Segment (seg_text s) (seg_kind s) (seg_start s - off) (seg_end s - off)) l) ->
  b <= n -> tiles text (off + a) (off + b) l.
Proof.
  intros Ho Hn Hlen. revert a. induction l as [|s l IH]; intros a Ha; cbn; [lia|].
  intros (H1 & H2 & H3 & H4 & H5) Hb. split_and!; [lia|lia|lia| |].
  - rewrite H4, slice_slice by lia. f_equal; lia.
  - replace (seg_end s) with (off + (seg_end s - off)) by lia. apply IH; [lia|done|done].
Qed.

Section SegmenterFacts.
Context {U : Unicode}.

Lemma split_code_tiles code off comments pos :
  Forall (fun c => c.1 < c.2 /\ c.2 <= len code) comments -> 0 <= pos <= len code ->
  tiles code pos (len code)
    (map (fun s => Segment (seg_text s) (seg_kind s) (seg_start s - off) (seg_end s - off))
         (split_code_go code off comments pos)).
Proof.
  revert pos. induction comments as [|[s e] rest IH]; intros pos Hf Hpos; cbn.
  - destruct (Z.ltb_spec pos (len code)); cbn; [|lia]. split_and!; (lia || (f_equal; lia)).
  - apply Forall_cons in Hf as [[Hse He] Hf]. cbn in Hse, He.
    destruct (Z.leb_spec (Z.max e pos) pos); [by apply IH|]. rewrite map_app.
    apply (tiles_app _ _ (Z.max s pos)).
    + destruct (Z.ltb_spec pos (Z.max s pos)); cbn; [|lia]. split_and!; (lia || (f_equal; lia)).
    + cbn. split_and!; [lia|lia|lia|f_equal; lia|].
      replace (off + Z.max e pos - off) with (Z.max e pos) by lia. apply IH; [done|lia].
Qed.

Lemma comment_spans_ok code : Forall (fun c => c.1 < c.2 /\ c.2 <= len code) (comment_spans code).
Proof.
  unfold comment_spans. rewrite sort_on_perm. apply Forall_app.
  split; apply Forall_map, Forall_forall; intros m Hm; cbn.
  - apply finditer_ok in Hm. by apply (mtch_ok_proper BLOCK_COMMENT_RE).
  - apply elem_of_lfilter in Hm as [Hm _]. apply finditer_ok in Hm.
    by apply (mtch_ok_proper LINE_COMMENT_RE).
Qed.

Lemma split_code_block_tiles text a b :
  0 <= a -> a <= b -> b <= len text ->
  tiles text a b (split_code_block (slice text a b) a).
Proof.
  intros. replace b with (a + (b - a)) at 1 by lia. replace a with (a + 0) at 1 by lia.
  eapply tiles_shift with (n := b - a); [lia|lia|lia|lia| |lia].
  replace (a + (b - a)) with b by lia.
  pose proof (split_code_tiles (slice text a b) a (comment_spans (slice text a b)) 0
                (comment_spans_ok _)) as H2.
  rewrite len_slice in H2 by lia. apply H2. lia.
Qed.

Lemma split_go_tiles text fences pos :
  0 <= pos <= len text -> Forall (mtch_ok FENCE_RE text) fences ->
  Forall (fun m => pos <= mt_start m) fences ->
  StronglySorted (fun x y => mt_end x <= mt_start y) fences ->
  tiles text pos (len text) (split_go text fences pos).
Proof.
  intros Hpos Hok Hge Hs. revert pos Hpos Hok Hge.
  induction Hs as [|m rest Hs IH Hall]; intros pos Hpos Hok Hge; cbn; [apply tiles_prose; lia|].
  apply Forall_cons in Hok as [Hm Hok], Hge as [Hge _].
  destruct (mtch_ok_group _ _ _ 1 Hm eq_refl) as (a & b & Hd & H1 & H2 & H3). rewrite Hd. cbn.
  pose proof (mk_start _ _ _ Hm). pose proof (mk_end _ _ _ Hm).
  apply (tiles_app _ _ (mt_start m)); [by apply tiles_prose|].
  apply (tiles_app _ _ a); [by apply tiles_prose|].
  apply (tiles_app _ _ b); [apply split_code_block_tiles; lia|].
  apply (tiles_app _ _ (mt_end m)); [by apply tiles_prose|].
  apply IH; [lia|done|done].
Qed.

Lemma split_segments_tiles text : tiles text 0 (len text) (split_segments text).
Proof.
  apply split_go_tiles; [pose proof (len_nonneg text); lia| | |apply finditer_sorted].
  - apply Forall_forall. intros m. apply finditer_ok.
  - apply Forall_forall. intros m Hm%finditer_ok. apply Hm.
Qed.

Lemma tiles_text text a b l :
  0 <= a -> b <= len text -> tiles text a b l -> concat (map seg_text l) = slice text a b.
Proof.
  intros Ha Hb. revert a Ha. induction l as [|s l IH]; intros a Ha; cbn.
  - intros ->. rewrite slice_empty; [done|lia].
  - intros (<- & H2 & H3 & -> & H5). rewrite (IH (seg_end s)) by (done || lia).
    symmetry. apply slice_split; lia.
Qed.

(** the segments of a text are non-empty, follow each other from 0 to the
    end of the text, and each carries exactly the characters of its range; put
    together they are the text. *)
Theorem segments_tile text :
  tiles text 0 (len text) (split_segments text) /\
  concat (map seg_text (split_segments text)) = text.
Proof.
  split; [apply split_segments_tiles|].
  rewrite (tiles_text text 0 (len text)) by (try lia; apply split_segments_tiles). apply slice_full.
Qed.
End SegmenterFacts.
