(* ===== verification/LocalPass.v ===== *)
(** * The local detection pass ([sanitizer/local_pass.py])

    Detectors run per segment; batch-capable ones get one call with every
    segment they are eligible for, and their answers are checked before they are
    rebased.  A detector is a parameter: its identity, its [detect], and its
    [detect_batch] when it has one. *)

From S2P Require Import Prelude Text Regex Spans Checksums Detectors Segmenter.
Local Open Scope py_scope.

(** What a detector or the pass can raise. *)
Inductive detect_error :=
| NerUnavailableError
| CorpNerUnavailableError                 (* a subclass: the corporate NER service *)
| DetectorValueError                      (* an [int(...)] of the regex detector *)
| BatchCountMismatch (got expected : Z)
| BatchOffsetOutOfRange
| BatchTextMismatch (label : str) (start stop : Z).

(** [PIIDetector], and [BatchPIIDetector] when [d_batch] is given; [d_id] is [id(d)]. *)
Record detector := Detector {
  d_id : nat;
  d_detect : str -> result detect_error (list finding);
  d_batch : option (list str -> result detect_error (list (list finding)));
}.

Record local_pass := LocalPass {
  lp_detectors : list detector;
  lp_code_safe : option (list detector);
}.

Definition lp_code_detectors (p : local_pass) : list detector :=
  match lp_code_safe p with Some l => l | None => lp_detectors p end.

Definition has_id (d : detector) (l : list detector) : bool :=
  existsb (fun x => (d_id x =? d_id d)%nat) l.

(** [(detector, runs on PROSE/COMMENT, runs on CODE)] *)
Record batch_spec := BatchSpec {
  bs_call : list str -> result detect_error (list (list finding));
  bs_id : nat;
  bs_on_text : bool;
  bs_on_code : bool;
}.

Fixpoint batch_specs_go (p : local_pass) (seen : list nat) (l : list detector) : list batch_spec :=
  match l with
  | [] => []
  | d :: l' =>
    if existsb (Nat.eqb (d_id d)) seen then batch_specs_go p seen l' else
    match d_batch d with
    | Some call => BatchSpec call (d_id d) (has_id d (lp_detectors p)) (has_id d (lp_code_detectors p))
                   :: batch_specs_go p (d_id d :: seen) l'
    | None => batch_specs_go p (d_id d :: seen) l'
    end
  end.

Definition batch_specs (p : local_pass) : list batch_spec :=
  batch_specs_go p [] (lp_detectors p ++ lp_code_detectors p).

Definition batch_ids (p : local_pass) : list nat := map bs_id (batch_specs p).

#[export] Instance segment_eq_dec : EqDecision segment.
Proof. solve_decision. Defined.

(** A finding of a segment, moved to its absolute position in the text. *)
Definition rebase (seg : segment) (f : finding) : finding :=
  Finding (f_text f) (f_label f) (seg_start seg + f_start f) (seg_start seg + f_end f) (f_score f).

(** [asyncio.gather] of calls: their results in order, or an error of one of them. *)
Fixpoint gather {A B} (f : A -> result detect_error B) (l : list A) : result detect_error (list B) :=
  match l with
  | [] => Ok []
  | x :: l' => let! y := f x in let! ys := gather f l' in Ok (y :: ys)
  end.

(** *** Batched detectors *)

Definition eligible (s : batch_spec) (segments : list segment) : list segment :=
  List.filter (fun seg => match seg_kind seg with CODE => bs_on_code s | _ => bs_on_text s end) segments.

(** The contract checks on one finding, then the rebased finding. *)
Definition check_finding (seg : segment) (f : finding) : result detect_error finding :=
  if negb ((0 <=? f_start f) && (f_start f <=? f_end f) && (f_end f <=? len (seg_text seg)))
  then Raise BatchOffsetOutOfRange
  else if negb (str_eqb (f_text f) (slice (seg_text seg) (f_start f) (f_end f)))
  then Raise (BatchTextMismatch (f_label f) (f_start f) (f_end f))
  else Ok (rebase seg f).

Definition check_batch (segs : list segment) (per_text : list (list finding))
  : result detect_error (list finding) :=
  if negb (len per_text =? len segs) then Raise (BatchCountMismatch (len per_text) (len segs))
  else let! checked := gather (fun sf : segment * list finding => gather (check_finding sf.1) sf.2)
                              (zip segs per_text) in
       Ok (concat checked).

Definition plans (p : local_pass) (segments : list segment)
  : list (batch_spec * list segment) :=
  List.filter (fun sp : batch_spec * list segment => match sp.2 with [] => false | _ => true end) (map (fun s => (s, eligible s segments)) (batch_specs p)).

Definition batched_findings (p : local_pass) (segments : list segment)
  : result detect_error (list finding) :=
  let! results := gather (fun sp : batch_spec * list segment => bs_call sp.1 (map seg_text sp.2))
                         (plans p segments) in
  let! checked := gather (fun pr : (batch_spec * list segment) * list (list finding) =>
                            check_batch pr.1.2 pr.2)
                         (zip (plans p segments) results) in
  Ok (concat checked).

(** *** Per-segment detectors *)

Definition chosen_detectors (p : local_pass) (seg : segment) : list detector :=
  List.filter (fun d => negb (existsb (Nat.eqb (d_id d)) (batch_ids p)))
    (match seg_kind seg with CODE => lp_code_detectors p | _ => lp_detectors p end).

Definition segment_findings (p : local_pass) (seg : segment) : result detect_error (list finding) :=
  let! results := gather (fun d => d_detect d (seg_text seg)) (chosen_detectors p seg) in
  Ok (map (rebase seg) (concat results)).

Definition raw_local_findings {U : Unicode} (p : local_pass) (text : str) : result detect_error (list finding) :=
  let segments := split_segments text in
  let! batched := batched_findings p segments in
  let! per_segment := gather (segment_findings p) segments in
  Ok (batched ++ concat per_segment).

Definition local_findings {U : Unicode} (p : local_pass) (text : str) : result detect_error (list finding) :=
  match lp_detectors p with
  | [] => Ok []
  | _ =>
    match split_segments text with
    | [] => Ok []
    | _ => let! raw := raw_local_findings p text in Ok (deduplicate raw)
    end
  end.

(** Every text a detector is handed, with the detector's identity: the
    arguments of the [detect_batch] and [detect] calls of one pass. *)
Definition detector_inputs {U : Unicode} (p : local_pass) (text : str) : list (nat * segment) :=
  concat (map (fun sp : batch_spec * list segment => map (fun seg => (bs_id sp.1, seg)) sp.2)
              (plans p (split_segments text))) ++
  concat (map (fun seg => map (fun d => (d_id d, seg)) (chosen_detectors p seg)) (split_segments text)).

(** ** Theorems *)

(** A finding inside its text; a batch detector may return an empty range. *)
Record finding_in (text : str) (f : finding) : Prop := FindingIn {
  fi_start : 0 <= f_start f;
  fi_order : f_start f <= f_end f;
  fi_end : f_end f <= len text;
  fi_text : f_text f = slice text (f_start f) (f_end f);
}.

(** The interface of a detector: what it reports lies in the text it was given. *)
Class DetectorOk (d : detector) : Prop :=
  detector_in : forall s fs, d_detect d s = Ok fs -> Forall (finding_in s) fs.

Lemma gather_ok {A B} (f : A -> result detect_error B) l ys :
  gather f l = Ok ys -> Forall2 (fun x y => f x = Ok y) l ys.
Proof.
  revert ys. induction l as [|x l IH]; intros ys; cbn; [intros [= <-]; constructor|].
  intros (y & Hy & (rest & Hr & [= <-])%rbind_ok)%rbind_ok. constructor; auto.
Qed.

Lemma gather_Forall {A B} (f : A -> result detect_error B) (P : B -> Prop) l ys :
  gather f l = Ok ys -> (forall x y, x ∈ l -> f x = Ok y -> P y) -> Forall P ys.
Proof.
  intros H%gather_ok HP. induction H as [|x y l ys Hx H IH]; constructor.
  - apply (HP x); [by left|done].
  - apply IH. intros x' y' Hx'. apply HP. by right.
Qed.

Lemma concat_Forall {A} (P : A -> Prop) (ll : list (list A)) : Forall (Forall P) ll -> Forall P (concat ll).
Proof. induction 1; cbn; [constructor|]. by apply Forall_app. Qed.

(** A segment that covers its range of the text. *)
Record segment_in (text : str) (seg : segment) : Prop := SegmentIn {
  si_start : 0 <= seg_start seg;
  si_order : seg_start seg < seg_end seg;
  si_end : seg_end seg <= len text;
  si_text : seg_text seg = slice text (seg_start seg) (seg_end seg);
}.

Lemma tiles_segment_in text a b l :
  0 <= a -> b <= len text -> tiles text a b l -> Forall (segment_in text) l.
Proof.
  intros Ha Hb. revert a Ha. induction l as [|s l IH]; intros a Ha; cbn; [constructor|].
  intros (<- & H2 & H3 & H4 & H5). constructor; [split; (done || lia)|]. apply (IH (seg_end s)); [lia|done].
Qed.

Lemma rebase_in text seg f : segment_in text seg -> finding_in (seg_text seg) f -> finding_in text (rebase seg f).
Proof.
  intros [H1 H2 H3 H4] [F1 F2 F3 F4]. rewrite H4 in F3, F4. rewrite len_slice in F3 by lia.
  split; cbn; [lia|lia|lia|]. rewrite F4. apply slice_slice; lia.
Qed.

Lemma check_finding_in text seg f g :
  segment_in text seg -> check_finding seg f = Ok g -> finding_in text g.
Proof.
  intros Hs. unfold check_finding. destruct (negb _) eqn:E1; [done|].
  destruct (negb (str_eqb _ _)) eqn:E2; [done|]. intros [= <-]. apply rebase_in; [done|].
  apply negb_false_iff, str_eqb_eq in E2. split; lia || done.
Qed.

Lemma check_batch_in text segs per_text out :
  Forall (segment_in text) segs -> check_batch segs per_text = Ok out -> Forall (finding_in text) out.
Proof.
  intros Hs. unfold check_batch. destruct (negb _); [done|].
  intros (checked & Hc & [= <-])%rbind_ok. apply concat_Forall, (gather_Forall _ _ _ _ Hc).
  intros [seg fs] gs Hin Hg. apply (gather_Forall _ _ _ _ Hg). intros f g _. apply check_finding_in.
  rewrite Forall_forall in Hs. apply Hs. apply list_elem_of_In in Hin. apply in_combine_l in Hin.
  by apply list_elem_of_In.
Qed.

Section LocalPassFacts.
Context {U : Unicode} (p : local_pass) (text : str).

Lemma segments_in : Forall (segment_in text) (split_segments text).
Proof. eapply tiles_segment_in; [| |apply split_segments_tiles]; [lia|done]. Qed.

Lemma plans_in sp : sp ∈ plans p (split_segments text) ->
  sp.1 ∈ batch_specs p /\ sp.2 = eligible sp.1 (split_segments text).
Proof.
  unfold plans. intros H. apply elem_of_lfilter in H as [H _].
  by apply list_elem_of_fmap in H as (s & -> & Hs).
Qed.

Lemma eligible_elem s segs seg :
  seg ∈ eligible s segs ->
  seg ∈ segs /\ (if bool_decide (seg_kind seg = CODE) then bs_on_code s else bs_on_text s) = true.
Proof.
  unfold eligible. rewrite elem_of_lfilter. intros [? H]. split; [done|].
  destruct (seg_kind seg); exact H.
Qed.

Lemma batched_in out :
  batched_findings p (split_segments text) = Ok out -> Forall (finding_in text) out.
Proof.
  unfold batched_findings. intros (results & _ & (checked & Hc & [= <-])%rbind_ok)%rbind_ok.
  apply concat_Forall, (gather_Forall _ _ _ _ Hc). intros [sp per_text] fs Hin. cbn.
  apply check_batch_in. apply list_elem_of_In, in_combine_l, list_elem_of_In, plans_in in Hin as [_ ->].
  pose proof segments_in as Hs. rewrite Forall_forall in Hs |- *. intros seg Hseg%eligible_elem. apply Hs, Hseg.
Qed.

Lemma segment_findings_in seg fs :
  Forall DetectorOk (lp_detectors p ++ lp_code_detectors p) -> seg ∈ split_segments text ->
  segment_findings p seg = Ok fs -> Forall (finding_in text) fs.
Proof.
  intros Hd Hseg. unfold segment_findings. intros (results & Hr & [= <-])%rbind_ok.
  pose proof segments_in as Hs. rewrite Forall_forall in Hs. rewrite Forall_forall in Hd.
  apply Forall_map. assert (Forall (finding_in (seg_text seg)) (concat results)) as Hf.
  { apply concat_Forall, (gather_Forall _ _ _ _ Hr). intros d fs Hin. apply Hd.
    unfold chosen_detectors in Hin. apply elem_of_lfilter in Hin as [Hin _].
    apply elem_of_app. destruct (seg_kind seg); auto. }
  eapply Forall_impl; [exact Hf|]. intros f. apply rebase_in. auto.
Qed.

(** a successful pass reports findings of the whole text: each is inside
    the text and carries the substring at its absolute offsets, and no two of
    them overlap.  Batch detectors are not trusted for this: a wrong count, an
    offset outside its segment or a text that is not the covered substring
    raises instead. *)
Theorem local_findings_sound fs :
  Forall DetectorOk (lp_detectors p ++ lp_code_detectors p) ->
  local_findings p text = Ok fs ->
  Forall (finding_in text) fs /\
  forall f g, f ∈ fs -> g ∈ fs -> f = g \/ overlaps f g = false.
Proof.
  intros Hd. unfold local_findings. destruct (lp_detectors p) as [|d0 ds] eqn:Ed.
  { intros [= <-]. split; [constructor|set_solver]. }
  destruct (split_segments text) as [|s0 ss] eqn:Es.
  { intros [= <-]. split; [constructor|set_solver]. }
  rewrite <- Ed in Hd.
  intros (raw & Hraw & [= <-])%rbind_ok. unfold raw_local_findings in Hraw.
  apply rbind_ok in Hraw as (batched & Hb & Hraw). apply rbind_ok in Hraw as (per & Hp & [= <-]).
  assert (Forall (finding_in text) (batched ++ concat per)) as Hin.
  { apply Forall_app. split; [by apply batched_in|]. apply concat_Forall, (gather_Forall _ _ _ _ Hp).
    intros seg fs Hseg. by apply segment_findings_in. }
  split.
  - rewrite Forall_forall in Hin |- *. intros f Hf%deduplicate_subset. auto.
  - intros f g. rewrite !deduplicate_elem. apply select_ref_pairwise.
Qed.

(** source code stays local. A detector that is not in the code-safe list
    is never handed a CODE segment, neither alone nor in a batch. *)
Theorem code_segments_code_safe_only i seg :
  (i, seg) ∈ detector_inputs p text -> seg_kind seg = CODE ->
  exists d, d ∈ lp_code_detectors p /\ d_id d = i.
Proof.
  intros [H|H]%elem_of_app Hk; apply list_elem_of_In, in_concat in H as (l & Hl & H);
    apply in_map_iff in Hl as (x & <- & Hx); apply in_map_iff in H as (y & [= <- <-] & Hy).
  - apply list_elem_of_In, plans_in in Hx as [Hx E]. destruct x as [sp segs]. cbn [fst snd] in *. rewrite E in Hy.
    apply list_elem_of_In, eligible_elem in Hy as [_ Hy]. rewrite bool_decide_true in Hy by done.
    unfold batch_specs in Hx. revert Hx. generalize (@nil nat).
    generalize (lp_detectors p ++ lp_code_detectors p). intros l.
    induction l as [|d l IH]; intros seen; cbn; [set_solver|].
    destruct (existsb _ seen); [apply IH|]. destruct (d_batch d); [|apply IH].
    intros [->|Hx]%elem_of_cons; [|by eapply IH]. cbn in Hy. unfold has_id in Hy.
    apply existsb_exists in Hy as (d' & Hd' & E'%Nat.eqb_eq). exists d'. by rewrite list_elem_of_In.
  - unfold chosen_detectors in Hy. rewrite Hk in Hy. apply filter_In in Hy as [Hy _].
    exists y. by rewrite list_elem_of_In.
Qed.
End LocalPassFacts.

(** ** Witnesses *)

Definition demo_regex : detector :=
  Detector 0 (fun s => match detect (U := ru_unicode) s with Some fs => Ok fs | None => Raise NerUnavailableError end) None.

Definition demo_ner : detector :=
  Detector 1 (fun _ => Ok []) (Some (fun texts => Ok (map (fun _ => []) texts))).

Definition demo_pass : local_pass := LocalPass [demo_regex; demo_ner] (Some [demo_regex]).

Definition demo_mixed : str :=
  u8 "pwd=hunter22 ```py" ++ [10%N] ++ u8 "x = 1 # a@b.ru" ++ [10%N] ++ u8 "```".

#[export] Instance demo_regex_ok : DetectorOk demo_regex.
Proof.
  intros s fs. unfold demo_regex. cbn [d_detect]. destruct (detect_returns (U := ru_unicode) s) as (fs' & -> & Hw). intros [= <-].
  eapply Forall_impl; [exact Hw|]. intros f [H1 H2 H3 H4]. by split; (lia || done).
Qed.

#[export] Instance demo_ner_ok : DetectorOk demo_ner.
Proof. intros s fs [= <-]. constructor. Qed.

Lemma local_findings_sound_witness :
  exists fs, local_findings (U := ru_unicode) demo_pass demo_mixed = Ok fs /\
             Forall (finding_in demo_mixed) fs /\ length fs = 2%nat.
Proof.
  eexists. split; [vm_compute; reflexivity|]. split; [|reflexivity].
  eapply (local_findings_sound (U := ru_unicode) demo_pass demo_mixed).
  - repeat constructor; apply _.
  - vm_compute. reflexivity.
Defined.

Lemma code_segments_code_safe_only_witness :
  exists d, d ∈ lp_code_detectors demo_pass /\ d_id d = 0%nat.
Proof.
  apply (code_segments_code_safe_only (U := ru_unicode) demo_pass demo_mixed 0%nat
           (Segment (u8 "x = 1 ") CODE 19 25)).
  - apply memb_true. vm_compute. reflexivity.
  - reflexivity.
Defined.
