(* ===== verification/Gazetteer.v ===== *)
(** * The gazetteer ([rules/gazetteer.py])

    Lemma-based matching of configured terms: whole tokens and multi-word
    terms, and the sub-tokens of identifiers.  The morphology back ends
    (pymorphy3, spaCy) are parameters, absent or a function on words. *)

From S2P Require Import Prelude Text Regex Spans Checksums Detectors Segmenter.

(** The lazily loaded back ends: [None] is an import that failed. *)
Record morphology := Morphology {
  ru_normal_form : option (str -> str);
  en_lemma : option (str -> option str);   (* [None] inside: spaCy returned an empty doc *)
}.

Section Gazetteer.
Context {U : Unicode} (mo : morphology).

Definition WORD_RE : re := plus word_ch.
Definition cyrillic_p (c : N) : bool := in_range 1072 1103 c || (c =? 1105)%N || in_range 1040 1071 c || (c =? 1025)%N.

Definition is_cyrillic (word : str) : bool :=
  bool_decide (is_Some (re_search (Chr cyrillic_p) word)).

Definition lemmatize_word (word : str) : str :=
  if is_cyrillic word then
    match ru_normal_form mo with Some f => f word | None => u_lower word end
  else
    match en_lemma mo with
    | Some f => match f word with Some lemma => u_lower lemma | None => u_lower word end
    | None => u_lower word
    end.

Definition term_to_lemma_seq (term : str) : list str := map lemmatize_word (findall WORD_RE term).

(** [(word, char_start, char_end)] *)
Definition tokenize_text (text : str) : list (str * Z * Z) :=
  map (fun m => (slice text (mt_start m) (mt_end m), mt_start m, mt_end m)) (finditer WORD_RE text).

(** [_index] and [_single_lemmas]. *)
Record gazetteer := Gaz {
  gz_index : list (list str * str);
  gz_single : list (str * str);
}.

Definition gaz_add (g : gazetteer) (tl : str * str) : gazetteer :=
  let '(term0, label) := tl in
  let term := strip term0 in
  if str_eqb term [] then g else
  let seq := term_to_lemma_seq term in
  match seq with
  | [] => g
  | _ =>
    Gaz (dsetdefault seq label (gz_index g))
        (match seq with [lemma] => dsetdefault lemma label (gz_single g) | _ => gz_single g end)
  end.

(** [Gazetteer(term_categories)] *)
Definition gaz_init (term_categories : list (str * str)) : gazetteer :=
  foldl gaz_add (Gaz [] []) term_categories.

Definition s_gaz : Q := s_095.

Definition gaz_finding (text : str) (label : str) (a b : Z) : finding :=
  Finding (slice text a b) label a b s_gaz.

(** [all(lemmas[i + j][0] == seq[j])] at the head of [lemmas], and the end of
    the last token matched. *)
Fixpoint seq_match (seq : list str) (lemmas : list (str * Z * Z)) (last_end : Z) : option Z :=
  match seq, lemmas with
  | [], _ => Some last_end
  | w :: seq', (l, _, e) :: lemmas' => if str_eqb l w then seq_match seq' lemmas' e else None
  | _, [] => None
  end.

(** Matches of one term at every token. *)
Fixpoint term_findings (text : str) (seq : list str) (label : str) (lemmas : list (str * Z * Z))
  : list finding :=
  match lemmas with
  | [] => []
  | (_, start, _) :: lemmas' =>
    match seq_match seq lemmas start with
    | Some e => [gaz_finding text label start e]
    | None => []
    end ++ term_findings text seq label lemmas'
  end.

(** Sub-tokens of an identifier that splits. *)
Definition identifier_findings (g : gazetteer) (text : str) (tok : str * Z * Z) : list finding :=
  let '(word, tok_start, _) := tok in
  match split_identifier word with
  | [] | [_] => []
  | sub_tokens =>
    concat (map (fun st : str * Z * Z =>
      let '(sub_text, rel_start, rel_end) := st in
      match dget (lemmatize_word sub_text) (gz_single g) with
      | Some label => [gaz_finding text label (tok_start + rel_start) (tok_start + rel_end)]
      | None => []
      end) sub_tokens)
  end.

Definition lemmas_of (text : str) : list (str * Z * Z) :=
  map (fun t : str * Z * Z => let '(word, s, e) := t in (lemmatize_word word, s, e)) (tokenize_text text).

Definition gaz_raw (g : gazetteer) (text : str) : list finding :=
  concat (map (fun sl : list str * str => term_findings text sl.1 sl.2 (lemmas_of text)) (gz_index g)) ++
  match gz_single g with
  | [] => []
  | _ => concat (map (identifier_findings g text) (tokenize_text text))
  end.

Definition gaz_detect (g : gazetteer) (text : str) : list finding :=
  if str_eqb (strip text) [] || bool_decide (gz_index g = []) then []
  else deduplicate (gaz_raw g text).

(** ** Theorems *)

(** Tokens with their lemmas, in order. *)
Definition toks_ok (text : str) (lo : Z) (l : list (str * Z * Z)) : Prop :=
  Forall (fun t : str * Z * Z => lo <= t.1.2 /\ t.1.2 < t.2 /\ t.2 <= len text) l /\
  StronglySorted (fun x y : str * Z * Z => x.2 <= y.1.2) l.

Lemma toks_ok_tail text lo x l : toks_ok text lo (x :: l) -> toks_ok text x.2 l.
Proof.
  intros [H1 H2]. apply Forall_cons in H1 as [? H1]. inversion H2 as [|? ? H3 H4]; subst.
  split; [|done]. rewrite Forall_forall in H1, H4 |- *. intros y Hy. specialize (H1 y Hy). specialize (H4 y Hy). lia.
Qed.

Lemma map_sorted {A B} (f : A -> B) (R : A -> A -> Prop) (S : B -> B -> Prop) l :
  (forall x y, R x y -> S (f x) (f y)) -> StronglySorted R l -> StronglySorted S (map f l).
Proof.
  intros H. induction 1 as [|x l Hl IH Hx]; cbn; constructor; [done|].
  apply Forall_map. eapply Forall_impl; [exact Hx|]. auto.
Qed.

Lemma lemmas_ok text : toks_ok text 0 (lemmas_of text).
Proof.
  unfold lemmas_of, tokenize_text. rewrite map_map. split.
  - apply Forall_map, Forall_forall. intros m Hm%finditer_ok. cbn.
    pose proof (mtch_ok_proper _ _ _ Hm eq_refl). pose proof (mk_start _ _ _ Hm). lia.
  - eapply map_sorted; [|apply finditer_sorted]. done.
Qed.

Lemma seq_match_bounds text lo seq lemmas last_end e :
  toks_ok text lo lemmas -> seq <> [] -> seq_match seq lemmas last_end = Some e ->
  exists t, head lemmas = Some t /\ t.1.2 < e /\ e <= len text.
Proof.
  revert lo lemmas last_end. induction seq as [|w seq IH]; intros lo lemmas last_end Hok Hne; [done|].
  destruct lemmas as [|[[l s] e0] lemmas]; cbn; [done|]. destruct (str_eqb l w); [|done].
  pose proof Hok as [Hf _]. apply Forall_cons in Hf as [Hf _]. cbn in Hf.
  pose proof (toks_ok_tail _ _ _ _ Hok) as Hok'. cbn in Hok'. intros H.
  exists (l, s, e0). split; [done|]. cbn. destruct seq as [|w' seq].
  - cbn in H. injection H as <-. lia.
  - destruct (IH e0 lemmas e0 Hok' ltac:(done) H) as (t & Ht & Hlt & Hle). split; [|done].
    destruct lemmas as [|t' lemmas]; [done|]. injection Ht as ->.
    destruct Hok' as [Hf' _]. apply Forall_cons in Hf' as [Hf' _]. lia.
Qed.

Lemma term_findings_wf text lo seq label lemmas :
  0 <= lo -> toks_ok text lo lemmas -> seq <> [] -> Forall (finding_wf text) (term_findings text seq label lemmas).
Proof.
  revert lo. induction lemmas as [|[[l s] e] lemmas IH]; intros lo Hlo Hok Hne; cbn [term_findings]; [constructor|].
  pose proof (toks_ok_tail _ _ _ _ Hok) as Hok'. pose proof Hok as [Hf _]. apply Forall_cons in Hf as [Hf _]. cbn in Hf, Hok'.
  apply Forall_app. split; [|apply (IH e); [lia|done|done]].
  destruct (seq_match seq _ s) as [e'|] eqn:E; [|constructor].
  destruct (seq_match_bounds _ _ _ _ _ _ Hok Hne E) as (t & [= <-] & ? & ?). cbn in *.
  repeat constructor; cbn; lia || done.
Qed.

Lemma identifier_findings_wf g text tok :
  0 <= tok.1.2 -> tok.2 <= len text -> tok.1.1 = slice text tok.1.2 tok.2 -> tok.1.2 <= tok.2 ->
  Forall (finding_wf text) (identifier_findings g text tok).
Proof.
  destruct tok as [[word s] e]. cbn [fst snd]. intros H0 He -> Hse. unfold identifier_findings.
  assert (Forall (fun st : str * Z * Z => 0 <= st.1.2 /\ st.1.2 < st.2 /\ st.2 <= e - s)
            (split_identifier (slice text s e))) as Hst.
  { unfold split_identifier. apply Forall_map, Forall_forall. intros m Hm%finditer_ok. cbn.
    pose proof (mtch_ok_proper _ _ _ Hm eq_refl) as [? Hl]. pose proof (mk_start _ _ _ Hm).
    rewrite len_slice in Hl by lia. lia. }
  destruct (split_identifier _) as [|st [|st' rest]]; [constructor|constructor|].
  apply Forall_forall. intros f Hf. apply list_elem_of_In, in_concat in Hf as (l & Hl & Hf).
  apply in_map_iff in Hl as ([[sub a] b] & <- & Hin). rewrite Forall_forall in Hst.
  apply list_elem_of_In, Hst in Hin. cbn in Hin. destruct (dget _ (gz_single g)); [|done].
  destruct Hf as [<-|[]]. split; cbn; lia || done.
Qed.

Definition index_ok (g : gazetteer) : Prop := Forall (fun sl : list str * str => sl.1 <> []) (gz_index g).

Lemma gaz_init_ok terms : index_ok (gaz_init terms).
Proof.
  unfold gaz_init. assert (index_ok (Gaz [] [])) as H0 by (unfold index_ok; constructor). revert H0.
  generalize (Gaz [] []). induction terms as [|[term label] terms IH]; intros g Hg; cbn [foldl]; [done|].
  apply IH. unfold gaz_add. destruct (str_eqb (strip term) []); [done|].
  destruct (term_to_lemma_seq (strip term)) as [|w ws] eqn:E; [done|].
  unfold index_ok. cbn [gz_index]. apply dsetdefault_Forall; done.
Qed.

Lemma gaz_raw_wf g text : index_ok g -> Forall (finding_wf text) (gaz_raw g text).
Proof.
  intros Hg. unfold gaz_raw. apply Forall_app. split.
  - apply Forall_forall. intros f Hf. apply list_elem_of_In, in_concat in Hf as (l & Hl & Hf).
    apply in_map_iff in Hl as ([seq label] & <- & Hin). unfold index_ok in Hg. rewrite Forall_forall in Hg.
    pose proof (term_findings_wf text 0 seq label _ ltac:(lia) (lemmas_ok text)
                  (Hg (seq, label) (proj2 (list_elem_of_In _ _) Hin))) as Hw.
    rewrite Forall_forall in Hw. by apply Hw, list_elem_of_In.
  - destruct (gz_single g) as [|sp sps]; [constructor|].
    apply Forall_forall. intros f Hf. apply list_elem_of_In, in_concat in Hf as (l & Hl & Hf).
    apply in_map_iff in Hl as (tok & <- & Hin). unfold tokenize_text in Hin.
    apply in_map_iff in Hin as (m & <- & Hm). apply list_elem_of_In, finditer_ok in Hm.
    pose proof (mtch_ok_proper _ _ _ Hm eq_refl). pose proof (mk_start _ _ _ Hm).
    pose proof (identifier_findings_wf g text (slice text (mt_start m) (mt_end m), mt_start m, mt_end m)) as Hw.
    cbn in Hw. specialize (Hw ltac:(lia) ltac:(lia) eq_refl ltac:(lia)).
    rewrite Forall_forall in Hw. by apply Hw, list_elem_of_In.
Qed.

(** the gazetteer's findings are in range, non-empty, carry the text they
    cover and do not overlap; and no configured term is passed over: wherever
    the lemmas of consecutive tokens spell a term, a reported finding overlaps
    the occurrence. *)
Theorem gazetteer_sound_and_covers terms text :
  let g := gaz_init terms in
  Forall (finding_wf text) (gaz_detect g text) /\
  StronglySorted (fun x y => f_end x <= f_start y) (gaz_detect g text) /\
  forall seq label pre l s e0 post e, (seq, label) ∈ gz_index g -> strip text <> [] ->
    lemmas_of text = pre ++ (l, s, e0) :: post -> seq_match seq ((l, s, e0) :: post) s = Some e ->
    exists f, f ∈ gaz_detect g text /\ ranges_overlap (s, e) (f_span f) = true.
Proof.
  intros g. assert (index_ok g) as Hg by apply gaz_init_ok.
  pose proof (gaz_raw_wf g text Hg) as Hw. rewrite Forall_forall in Hw.
  assert (forall f, f ∈ gaz_raw g text -> nonempty_span f_span f) as Hne by (intros f Hf; apply (Hw f Hf)).
  split_and!.
  - unfold gaz_detect. destruct (_ || _); [constructor|].
    apply Forall_forall. intros f Hf%deduplicate_subset. auto.
  - unfold gaz_detect. destruct (_ || _); [constructor|]. by apply deduplicate_sorted, Forall_forall.
  - intros seq label pre l s e0 post e Hin Hs Hk Hm. unfold gaz_detect.
    rewrite (proj2 (str_eqb_neq _ _) Hs), bool_decide_false by (intros E; rewrite E in Hin; set_solver). cbn [orb].
    assert (gaz_finding text label s e ∈ gaz_raw g text) as Hf.
    { unfold gaz_raw. apply elem_of_app; left. apply list_elem_of_In, in_concat.
      exists (term_findings text seq label (lemmas_of text)).
      split; [apply in_map_iff; exists (seq, label); by rewrite <- list_elem_of_In|].
      rewrite Hk. clear -Hm. induction pre as [|[[? ?] ?] pre IH]; cbn [app term_findings];
        [rewrite Hm; by left|apply in_or_app; by right]. }
    destruct (deduplicate_maximal _ _ Hf (Hne _ Hf)) as (f & Hf' & Ho & _). eauto.
Qed.
End Gazetteer.

(** ** Witnesses *)

Definition no_morphology : morphology := Morphology None None.

Definition demo_terms : list (str * str) := [(u8 "Companyname", u8 "PRODUCT"); (u8 "market abuse", u8 "REGULATED")].

Lemma gazetteer_sound_and_covers_witness :
  exists f, f ∈ gaz_detect (U := ru_unicode) no_morphology (gaz_init (U := ru_unicode) no_morphology demo_terms)
                  (u8 "no Market Abuse in CompanynameService") /\
            ranges_overlap (3, 15) (f_span f) = true.
Proof.
  destruct (gazetteer_sound_and_covers (U := ru_unicode) no_morphology demo_terms
              (u8 "no Market Abuse in CompanynameService")) as (_ & _ & H).
  eapply (H [u8 "market"; u8 "abuse"] (u8 "REGULATED") [(u8 "no", 0, 2)] (u8 "market") 3 9).
  - apply memb_true. vm_compute. reflexivity.
  - vm_compute. discriminate.
  - vm_compute. reflexivity.
  - vm_compute. reflexivity.
Defined.
