(* ===== verification/Placeholder.v ===== *)
(** * Placeholders ([sanitizer/placeholder.py])

    Placeholder literals in user text, forward substitution by pairs and by
    preselected spans, and the reverse substitution built from the pairs of a
    request. *)

From S2P Require Import Prelude Text Regex.

Abbreviation pair := (str * str)%type.

Section Placeholder.
Context {U : Unicode}.

(** Character classes of the patterns: [[A-Z]], [[A-Z0-9_]], [[A-Za-z0-9_]]. *)
Definition upper_p (c : N) : bool := ascii_upper_p c.
Definition upper_id_p (c : N) : bool := ascii_upper_p c || ascii_digit_p c || (c =? 95)%N.
Definition ident_p (c : N) : bool := ascii_alnum_p c || (c =? 95)%N.

(** [\[[A-Z][A-Z0-9_]*_\d{3,}\]] *)
Definition PLACEHOLDER_FIND_RE : re :=
  seqs [ch (chr "["); Chr upper_p; star (Chr upper_id_p); ch (chr "_");
        rep_at_least 3 digit; ch (chr "]")].

(** [(?<!\[)\b[A-Z][A-Z0-9_]*_[A-Z0-9_]+\b(?!\])] *)
Definition UNWRAPPED_PLACEHOLDER_FIND_RE : re :=
  seqs [Behind false (N.eqb (chr "[")); WordB; Chr upper_p; star (Chr upper_id_p);
        ch (chr "_"); plus (Chr upper_id_p); WordB; Ahead false (ch (chr "]"))].

(** [^\[(?P<alias>[A-Z][A-Z0-9_]*_[A-Z0-9_]+)\]$] *)
Definition RESPONSE_ALIAS_RE : re :=
  seqs [Bos; ch (chr "[");
        Grp 1 (seqs [Chr upper_p; star (Chr upper_id_p); ch (chr "_"); plus (Chr upper_id_p)]);
        ch (chr "]"); Eol].

(** [^\[(?P<family>.+)_(?P<index>\d+)\]$] *)
Definition PLACEHOLDER_LABEL_RE : re :=
  seqs [Bos; ch (chr "["); Grp 1 (plus dot); ch (chr "_"); Grp 2 (plus digit); ch (chr "]"); Eol].

Definition find_placeholder_literals (text : str) : list str :=
  findall PLACEHOLDER_FIND_RE text.

Definition find_unwrapped_placeholder_literals (text : str) : list str :=
  findall UNWRAPPED_PLACEHOLDER_FIND_RE text.

Definition placeholder_family (label : str) : option str :=
  match re_match PLACEHOLDER_LABEL_RE label with
  | Some m => mt_group 1 label m
  | None => None
  end.

(** [add_unwrapped_response_aliases]: the loop state is the expanded pair list
    and the keys of [claimed]. *)
Definition alias_step (blocked : list str) (st : list pair * list str) (p : pair)
  : list pair * list str :=
  let '(expanded, claimed) := st in
  let '(original, placeholder) := p in
  match re_fullmatch RESPONSE_ALIAS_RE placeholder with
  | None => st
  | Some m =>
    match mt_group 1 placeholder m with
    | None => st
    | Some alias =>
      if str_eqb alias original || memb alias blocked || memb alias claimed then st
      else (expanded ++ [(original, alias)], alias :: claimed)
    end
  end.

Definition add_unwrapped_response_aliases (pairs : list pair) (forbidden : list str)
  : list pair :=
  (foldl (alias_step forbidden) (pairs, map snd pairs) pairs).1.

(** [sorted(placeholders, key=lambda s: (-len(s), s))] *)
Definition desc_length_key (s : str) : list Q := zk (- len s) :: map (fun c => zk (Z.of_N c)) s.

Definition sort_placeholders_by_descending_length (l : list str) : list str :=
  sort_on desc_length_key l.

(** ** Reverse substitution *)

(** [(?<![A-Za-z0-9_])alias(?![A-Za-z0-9_])] *)
Definition bare_alias_re (alias : str) : re :=
  seqs [Behind false ident_p; lit alias; Ahead false (Chr ident_p)].

(** The reverse map: the first original to claim a placeholder keeps it. *)
Definition by_placeholder_of (pairs : list pair) : list (str * str) :=
  foldl (fun d p => dsetdefault p.2 p.1 d) [] pairs.

(** One entry of the reverse function: placeholder, replacement, compiled
    pattern of a bracket-less placeholder. *)
Record rev_entry := RevEntry {
  re_placeholder : str;
  re_replacement : str;
  re_pattern : option re;
}.

Definition reverse_entry (by_placeholder : list (str * str)) (placeholder : str) : rev_entry :=
  RevEntry placeholder (default [] (dget placeholder by_placeholder))
    (if starts_with placeholder (u8 "[") then None else Some (bare_alias_re placeholder)).

Definition reverse_entries (pairs : list pair) : list rev_entry :=
  let by_placeholder := by_placeholder_of pairs in
  map (reverse_entry by_placeholder)
      (sort_placeholders_by_descending_length (dkeys by_placeholder)).

(** The streaming loop over the matches of a bare alias: matches that start in
    the protected prefix are left alone, and unless [final] a match that ends
    at the end of the buffer stops the loop. *)
Fixpoint reverse_pieces (text replacement : str) (final : bool) (protected_prefix : Z)
  (ms : list mtch) (cursor : Z) : str :=
  match ms with
  | [] => slice text cursor (len text)
  | m :: ms' =>
    if mt_start m <? protected_prefix
    then reverse_pieces text replacement final protected_prefix ms' cursor
    else if negb final && (mt_end m =? len text)
    then slice text cursor (len text)
    else slice text cursor (mt_start m) ++ replacement ++
         reverse_pieces text replacement final protected_prefix ms' (mt_end m)
  end.

Definition reverse_one (final : bool) (protected_prefix : Z) (text : str) (e : rev_entry) : str :=
  match re_pattern e with
  | None => py_replace text (re_placeholder e) (re_replacement e)
  | Some pattern =>
    if final && (protected_prefix =? 0)
    then re_sub pattern (re_replacement e) text
    else reverse_pieces text (re_replacement e) final protected_prefix (finditer pattern text) 0
  end.

(** [build_reverse_substituter(pairs)(text, final=..., protected_prefix=...)] *)
Definition reverse_text (pairs : list pair) (final : bool) (protected_prefix : Z) (text : str)
  : str :=
  foldl (reverse_one final protected_prefix) text (reverse_entries pairs).

(** ** Forward substitution *)

Definition apply_pairs (text : str) (pairs : list pair) : str :=
  foldl (fun t p => py_replace t p.1 p.2) text
        (sort_on (fun p : pair => [zk (- len p.1)]) pairs).

Record applied_span := AppliedSpan { sp_start : Z; sp_end : Z; sp_original : str }.

(** The three ways [apply_spans] raises [StaleSpanError]. *)
Inductive stale_span_error : Type :=
| SpanInvalid (start stop : Z)
| SpanMismatch (start stop : Z)
| SpanNoReplacement (start stop : Z).

Definition by_original_of (pairs : list pair) : list (str * str) :=
  foldl (fun d p => dsetdefault p.1 p.2 d) [] pairs.

Definition span_key (s : applied_span) : list Q := [zk (sp_start s); zk (sp_end s)].

Fixpoint apply_spans_go (text : str) (by_original : list (str * str)) (cursor : Z)
  (spans : list applied_span) : result stale_span_error str :=
  match spans with
  | [] => Ok (slice text cursor (len text))
  | AppliedSpan s e original :: rest =>
    if (s <? cursor) || (s <? 0) || (e <=? s) || (len text <? e)
    then Raise (SpanInvalid s e)
    else if negb (str_eqb (slice text s e) original)
    then Raise (SpanMismatch s e)
    else match dget original by_original with
         | None => Raise (SpanNoReplacement s e)
         | Some replacement =>
           match apply_spans_go text by_original e rest with
           | Ok tail => Ok (slice text cursor s ++ replacement ++ tail)
           | Raise err => Raise err
           end
         end
  end.

Definition apply_spans (text : str) (spans : list applied_span) (pairs : list pair)
  : result stale_span_error str :=
  apply_spans_go text (by_original_of pairs) 0 (sort_on span_key spans).
End Placeholder.

(** ** Theorems *)

(** A placeholder with brackets around a bracket-free body, such as [[EMAIL_001]]. *)
Definition bracketed (p : str) : Prop :=
  exists body, p = [chr "["] ++ body ++ [chr "]"] /\ (chr "[") ∉ body /\ (chr "]") ∉ body.

(** *** Substring tests *)

Lemma contains_app_r s t sub : contains (s ++ t) sub = false -> contains t sub = false.
Proof.
  rewrite <- !not_true_iff_false, !contains_iff. intros H (a & b & ->). apply H.
  exists (s ++ a), b. by rewrite app_assoc.
Qed.

Lemma starts_with_contains s t sub : starts_with s sub = true -> contains (s ++ t) sub = true.
Proof. rewrite starts_with_iff, contains_iff. intros [s' ->]. exists [], (s' ++ t). by rewrite <- app_assoc. Qed.

(** *** [setdefault] dictionaries *)

Lemma setdefault_fold {K V A} `{EqDecision K} (kf : A -> K) (vf : A -> V) l d k :
  dget k (foldl (fun d p => dsetdefault (kf p) (vf p) d) d l) =
  match dget k d with
  | Some v => Some v
  | None => vf <$> list_find (fun p => kf p = k) l ≫= (fun ip => Some ip.2)
  end.
Proof.
  revert d. induction l as [|p l IH]; intros d; cbn.
  { by destruct (dget k d). }
  rewrite IH, dget_dsetdefault. destruct (dget k d) as [v|]; [done|].
  case_decide as H1; subst; [by rewrite decide_True|].
  rewrite decide_False by congruence.
  destruct (list_find _ l) as [[i q]|]; done.
Qed.

Lemma dget_setdefault_nodup {K V A} `{EqDecision K} (kf : A -> K) (vf : A -> V) (l : list A) x :
  NoDup (map kf l) -> x ∈ l ->
  dget (kf x) (foldl (fun d p => dsetdefault (kf p) (vf p) d) [] l) = Some (vf x).
Proof.
  intros Hnd Hx. rewrite setdefault_fold. cbn.
  destruct (list_find (fun p => kf p = kf x) l) as [[i q]|] eqn:E.
  - apply list_find_Some in E as (Hq & Heq & _). cbn. do 2 f_equal.
    apply list_elem_of_lookup in Hx as [j Hj].
    pose proof (NoDup_lookup (map kf l) i j (kf x) Hnd) as Hij.
    rewrite !list_lookup_fmap, Hq, Hj in Hij. cbn in Hij. rewrite Heq in Hij.
    specialize (Hij eq_refl eq_refl). congruence.
  - apply list_find_None in E. rewrite Forall_forall in E. by destruct (E x Hx).
Qed.

Lemma dget_setdefault_elem {K V A} `{EqDecision K} (kf : A -> K) (vf : A -> V) (l : list A) k v :
  dget k (foldl (fun d p => dsetdefault (kf p) (vf p) d) [] l) = Some v ->
  exists x, x ∈ l /\ kf x = k /\ vf x = v.
Proof.
  rewrite setdefault_fold. cbn.
  destruct (list_find (fun p => kf p = k) l) as [[i q]|] eqn:E; cbn; [|done].
  apply list_find_Some in E as (Hq & Heq & _). intros [= <-].
  exists q. split_and!; [by eapply list_elem_of_lookup_2|done|done].
Qed.

Section PlaceholderFacts.
Context {U : Unicode}.

(** *** [apply_spans] *)

(** A replacement plan: each span after the previous one, in range, covering
    its original, and with a replacement. *)
Inductive plan_ok (text : str) (by_original : list (str * str)) : Z -> list applied_span -> Prop :=
| plan_nil cursor : plan_ok text by_original cursor []
| plan_cons cursor s e original replacement rest :
    cursor <= s -> 0 <= s -> s < e -> e <= len text ->
    slice text s e = original -> dget original by_original = Some replacement ->
    plan_ok text by_original e rest ->
    plan_ok text by_original cursor (AppliedSpan s e original :: rest).

Lemma apply_spans_go_iff text d cursor spans :
  (exists out, apply_spans_go text d cursor spans = Ok out) <-> plan_ok text d cursor spans.
Proof.
  revert cursor. induction spans as [|[s e o] rest IH]; intros cursor; cbn.
  { split; [constructor|eauto]. }
  split.
  - intros [out H]. destruct ((s <? cursor) || _ || _ || _) eqn:E; [done|].
    destruct (str_eqb (slice text s e) o) eqn:Eo; [|done]. apply str_eqb_eq in Eo.
    destruct (dget o d) as [r|] eqn:Er; [|done].
    destruct (apply_spans_go text d e rest) as [tail|] eqn:Et; [|done].
    econstructor; eauto; try lia. apply IH. eauto.
  - intros H. inversion H; subst.
    replace ((s <? cursor) || _ || _ || _) with false by lia.
    rewrite (proj2 (str_eqb_eq _ _) eq_refl). cbn.
    match goal with E : dget _ d = Some _ |- _ => rewrite E end.
    match goal with P : plan_ok _ _ e rest |- _ => apply IH in P as [tail ->] end. eauto.
Qed.

(** The text cut at the spans: unchanged gaps, and originals with their replacements. *)
Record seg := Seg { sg_gap : str; sg_orig : str; sg_repl : str }.

Definition seg_source (s : seg) : str := sg_gap s ++ sg_orig s.
Definition seg_target (s : seg) : str := sg_gap s ++ sg_repl s.

Lemma apply_spans_go_segs text d cursor spans out :
  0 <= cursor <= len text ->
  apply_spans_go text d cursor spans = Ok out ->
  exists segs tail,
    slice text cursor (len text) = concat (map seg_source segs) ++ tail /\
    out = concat (map seg_target segs) ++ tail /\
    map sg_orig segs = map sp_original spans /\
    Forall (fun s => dget (sg_orig s) d = Some (sg_repl s)) segs.
Proof.
  revert cursor out. induction spans as [|[s e o] rest IH]; intros cursor out Hc H; cbn in H.
  { injection H as <-. exists [], (slice text cursor (len text)). split_and!; try done; constructor. }
  destruct ((s <? cursor) || _ || _ || _) eqn:E; [done|].
  destruct (str_eqb (slice text s e) o) eqn:Eo; [|done]. apply str_eqb_eq in Eo.
  destruct (dget o d) as [r|] eqn:Er; [|done].
  destruct (apply_spans_go text d e rest) as [tail|] eqn:Et; [|done].
  injection H as <-. destruct (IH e tail) as (segs & tl & H1 & H2 & H3 & H4); [lia|done|].
  exists (Seg (slice text cursor s) o r :: segs), tl. cbn.
  split_and!; [|by rewrite H2, <- !app_assoc|by rewrite H3|by constructor].
  rewrite (slice_split text cursor s) by lia.
  rewrite (slice_split text s e) by lia. rewrite H1, Eo.
  unfold seg_source at 2. cbn. by rewrite <- !app_assoc.
Qed.

(** *** Reverse substitution of bracketed placeholders *)

(** A sanitized text as literal characters and tokens (original, placeholder). *)
Inductive item := Lit (c : N) | Tok (original placeholder : str).

Definition item_source (i : item) : str := match i with Lit c => [c] | Tok o _ => o end.

(** The text once the placeholders in [done] have been replaced. *)
Definition item_render (done : list str) (i : item) : str :=
  match i with Lit c => [c] | Tok o p => if memb p done then o else p end.

Definition source (items : list item) : str := concat (map item_source items).
Definition render (done : list str) (items : list item) : str := concat (map (item_render done) items).

Definition tokens_bracketed (items : list item) : Prop :=
  forall o p, Tok o p ∈ items -> bracketed p.

Lemma bracketed_inner_open p a b : bracketed p -> p = a ++ chr "[" :: b -> a = [].
Proof.
  intros (body & -> & Hb & _) H. destruct a as [|x a]; [done|]. exfalso. cbn in H.
  injection H as _ H. apply Hb.
  assert ((chr "[") ∈ body ++ [chr "]"]) as Hin
    by (rewrite H; apply elem_of_app; right; apply elem_of_cons; by left).
  apply elem_of_app in Hin as [?|Hin]; [done|]. by apply list_elem_of_singleton in Hin.
Qed.

Lemma bracketed_prefix p q t u : bracketed p -> bracketed q -> q ++ t = p ++ u -> p = q.
Proof.
  intros (b1 & -> & _ & H1) (b2 & -> & _ & H2). cbn. intros [= H]. do 2 f_equal.
  rewrite <- !app_assoc in H. cbn in H.
  revert b2 H H2. induction b1 as [|x b1 IH]; intros [|y b2] H H2; cbn in H; simplify_eq; set_solver.
Qed.

Lemma render_split done items :
  tokens_bracketed items ->
  exists l r t, render done items = l ++ r /\ source items = l ++ t /\
                (r = [] \/ exists r', r = chr "[" :: r').
Proof.
  unfold render, source. induction items as [|i items IH]; intros Hb; cbn.
  { exists [], [], []. auto. }
  assert (tokens_bracketed items) as Hb' by (intros o p ?; apply (Hb o p); set_solver).
  destruct (IH Hb') as (l & r & t & Hr & Hs & Hend).
  destruct i as [c|o p]; cbn.
  - exists (c :: l), r, t. rewrite Hr, Hs. auto.
  - destruct (memb p done).
    + exists (o ++ l), r, t. rewrite Hr, Hs, <- !app_assoc. auto.
    + destruct (Hb o p) as (body & -> & _); [set_solver|].
      eexists [], _, _. split_and!; [done|done|]. right. eauto.
Qed.

Lemma no_match_in_literal p done u items :
  bracketed p -> tokens_bracketed items -> u <> [] ->
  contains (u ++ source items) p = false -> starts_with (u ++ render done items) p = false.
Proof.
  intros Hp Hb Hu Hc. apply not_true_iff_false. rewrite starts_with_iff. intros [rest H].
  destruct (render_split done items Hb) as (l & r & t & Hr & Hs & Hend).
  rewrite Hr, app_assoc in H. apply app_eq_inv in H as [(y & Hy & Hr')|(y & Hy & Hrest)].
  - apply not_true_iff_false in Hc. apply Hc. apply contains_iff.
    exists [], (y ++ t). rewrite Hs, app_assoc, Hy. by rewrite <- app_assoc.
  - destruct Hend as [->|[r' ->]].
    + symmetry in Hrest. apply app_eq_nil in Hrest as [-> ->]. rewrite app_nil_r in Hy.
      apply not_true_iff_false in Hc. apply Hc. apply contains_iff.
      exists [], t. by rewrite Hs, app_assoc, Hy.
    + destruct y as [|c y]; cbn in Hrest.
      * rewrite app_nil_r in Hy. apply not_true_iff_false in Hc. apply Hc. apply contains_iff.
        exists [], t. by rewrite Hs, app_assoc, Hy.
      * injection Hrest as <- _. apply (bracketed_inner_open p _ y) in Hy; [|done].
        apply app_eq_nil in Hy as [-> _]. done.
Qed.

Lemma replace_go_skip old new u s :
  replace_go old new (length u) (u ++ s) = replace_go old new 0 s.
Proof. induction u; cbn; done. Qed.

Lemma replace_literal p new done u items :
  bracketed p -> tokens_bracketed items -> contains (u ++ source items) p = false ->
  replace_go p new 0 (u ++ render done items) = u ++ replace_go p new 0 (render done items).
Proof.
  intros Hp Hb. induction u as [|c u IH]; intros Hc; [done|].
  pose proof (no_match_in_literal p done (c :: u) items Hp Hb ltac:(done) Hc) as Hno.
  cbn [app] in *. cbn [replace_go]. rewrite Hno. f_equal. apply IH.
  by apply (contains_app_r [c]).
Qed.

Lemma replace_other_token p new q s :
  bracketed p -> bracketed q -> p <> q ->
  replace_go p new 0 (q ++ s) = q ++ replace_go p new 0 s.
Proof.
  intros Hp Hq Hne.
  assert (starts_with (q ++ s) p = false) as Hno.
  { apply not_true_iff_false. rewrite starts_with_iff. intros [u Hu].
    apply Hne. by eapply bracketed_prefix. }
  destruct Hq as (body & -> & Hopen & _). cbn [app] in Hno |- *. cbn [replace_go]. rewrite Hno. f_equal.
  assert (forall w, (chr "[") ∉ w -> replace_go p new 0 (w ++ s) = w ++ replace_go p new 0 s) as H.
  { induction w as [|c w IH]; intros Hw; [done|]. cbn [app replace_go].
    assert (starts_with (c :: w ++ s) p = false) as ->; [|f_equal; apply IH; set_solver].
    apply not_true_iff_false. rewrite starts_with_iff. intros [u Hu].
    destruct Hp as (pb & -> & _). injection Hu as -> _. apply Hw, elem_of_cons. by left. }
  apply H. set_solver.
Qed.

Lemma replace_here p new s : p <> [] -> replace_go p new 0 (p ++ s) = new ++ replace_go p new 0 s.
Proof.
  intros Hp. assert (starts_with (p ++ s) p = true) as Hyes by (apply starts_with_iff; eauto).
  destruct p as [|c p]; [done|]. cbn [app] in *. cbn [replace_go]. rewrite Hyes. f_equal.
  replace (length (c :: p) - 1)%nat with (length p) by (cbn; lia). apply replace_go_skip.
Qed.

Lemma replace_items p o done items :
  bracketed p -> tokens_bracketed items -> contains (source items) p = false -> p ∉ done ->
  (forall o', Tok o' p ∈ items -> o' = o) ->
  replace_go p o 0 (render done items) = render (p :: done) items.
Proof.
  intros Hp. induction items as [|i items IH]; intros Hb Hc Hd Ho; [done|].
  assert (tokens_bracketed items) as Hb' by (intros o' q ?; apply (Hb o' q); set_solver).
  change (source (i :: items)) with (item_source i ++ source items) in Hc.
  assert (replace_go p o 0 (render done items) = render (p :: done) items) as IH'.
  { apply IH; [done|by eapply contains_app_r|done|set_solver]. }
  change (render ?d (i :: items)) with (item_render d i ++ render d items).
  destruct i as [c|o' q]; cbn [item_render item_source] in *.
  { rewrite replace_literal, IH' by done. done. }
  destruct (decide (q = p)) as [->|Hne].
  - rewrite (proj2 (memb_false p done) Hd), (proj2 (memb_true p (p :: done))) by set_solver.
    rewrite (Ho o') by set_solver. rewrite <- IH'.
    apply replace_here. by destruct Hp as (body & -> & _).
  - replace (memb q (p :: done)) with (memb q done)
      by (unfold memb; apply bool_decide_ext; set_solver).
    destruct (memb q done); [by rewrite replace_literal, IH'|].
    rewrite replace_other_token; [by rewrite IH'|done|apply (Hb o' q); set_solver|congruence].
Qed.

Lemma py_replace_items p o done items :
  bracketed p -> tokens_bracketed items -> contains (source items) p = false -> p ∉ done ->
  (forall o', Tok o' p ∈ items -> o' = o) ->
  py_replace (render done items) p o = render (p :: done) items.
Proof.
  intros Hp. destruct p as [|c p]; [by destruct Hp as (? & ? & _)|]. by apply replace_items.
Qed.

Lemma setdefault_fold_keys {A} (kf vf : A -> str) l d :
  NoDup (dkeys d) ->
  NoDup (dkeys (foldl (fun d p => dsetdefault (kf p) (vf p) d) d l)) /\
  forall k, k ∈ dkeys (foldl (fun d p => dsetdefault (kf p) (vf p) d) d l) <->
            k ∈ dkeys d \/ k ∈ map kf l.
Proof.
  revert d. induction l as [|p l IH]; intros d Hd; cbn; [split; [done|set_solver]|].
  assert (NoDup (dkeys (dsetdefault (kf p) (vf p) d)) /\
          forall k, k ∈ dkeys (dsetdefault (kf p) (vf p) d) <-> k ∈ dkeys d \/ k = kf p) as [Hn Hk].
  { unfold dsetdefault. destruct (dget (kf p) d) eqn:E.
    - split; [done|]. intros k. split; [by left|]. intros [?| ->]; [done|].
      apply dget_elem in E. apply (list_elem_of_fmap_2 fst) in E. done.
    - split; [by apply dset_NoDup|]. intros k. rewrite dkeys_dset.
      apply dget_None in E. rewrite decide_False by done. set_solver. }
  destruct (IH _ Hn) as [? Hall]. split; [done|]. intros k. rewrite Hall, Hk. set_solver.
Qed.

Lemma reverse_keys pairs p :
  p ∈ sort_placeholders_by_descending_length (dkeys (by_placeholder_of pairs)) <->
  p ∈ map snd pairs.
Proof.
  unfold sort_placeholders_by_descending_length. rewrite elem_of_sort_on.
  destruct (setdefault_fold_keys snd fst pairs []) as [_ H]; [constructor|].
  unfold by_placeholder_of. rewrite H. set_solver.
Qed.

Lemma reverse_keys_NoDup pairs :
  NoDup (sort_placeholders_by_descending_length (dkeys (by_placeholder_of pairs))).
Proof.
  unfold sort_placeholders_by_descending_length. rewrite sort_on_perm.
  apply (setdefault_fold_keys snd fst pairs []). constructor.
Qed.

(** The reverse function on a rendered text: every known placeholder becomes
    its original, whatever the flags, because bracketed placeholders do not
    consult them. *)
Lemma reverse_entries_render pairs final prot ps dn items :
  (forall p, p ∈ ps -> bracketed p /\ contains (source items) p = false /\
     forall o, Tok o p ∈ items -> dget p (by_placeholder_of pairs) = Some o) ->
  tokens_bracketed items -> NoDup ps -> (forall p, p ∈ ps -> p ∉ dn) ->
  foldl (reverse_one final prot) (render dn items) (map (reverse_entry (by_placeholder_of pairs)) ps)
  = render (rev ps ++ dn) items.
Proof.
  revert dn. induction ps as [|p ps IH]; intros dn Hps Hb Hnd Hdone; [done|].
  apply NoDup_cons in Hnd as [Hp Hnd]. cbn [map foldl].
  destruct (Hps p) as (Hbr & Hc & Ho); [set_solver|].
  assert (reverse_one final prot (render dn items) (reverse_entry (by_placeholder_of pairs) p)
          = render (p :: dn) items) as ->.
  { unfold reverse_one, reverse_entry. cbn [re_pattern re_placeholder re_replacement].
    assert (starts_with p [91%N] = true) as ->.
    { destruct Hbr as (body & -> & _). apply starts_with_iff. eexists. cbn. done. }
    apply py_replace_items; [done|done|done|apply Hdone; set_solver|].
    intros o Hin. by rewrite (Ho o Hin). }
  rewrite IH; [|set_solver|done|done|set_solver].
  unfold render. cbn. rewrite <- app_assoc. done.
Qed.

Lemma render_all_done done items :
  (forall o p, Tok o p ∈ items -> p ∈ done) -> render done items = source items.
Proof.
  unfold render, source. induction items as [|[c|o p] items IH]; intros H; cbn; [done| |].
  - f_equal. apply IH. set_solver.
  - rewrite (proj2 (memb_true p done)) by (apply (H o); set_solver).
    f_equal. apply IH. set_solver.
Qed.

Lemma reverse_text_render pairs final prot items :
  (forall o p, (o, p) ∈ pairs -> bracketed p /\ contains (source items) p = false) ->
  (forall o p, Tok o p ∈ items -> dget p (by_placeholder_of pairs) = Some o) ->
  reverse_text pairs final prot (render [] items) = source items.
Proof.
  intros Hpairs Htok.
  assert (forall o p, Tok o p ∈ items -> exists o', (o', p) ∈ pairs) as Hin.
  { intros o p Hop%Htok. apply dget_setdefault_elem in Hop as ([o' p'] & H & <- & _). eauto. }
  unfold reverse_text, reverse_entries. rewrite reverse_entries_render.
  - apply render_all_done. intros o p Hop. rewrite app_nil_r.
    apply Hin in Hop as [o' Hop]. apply list_elem_of_In. apply -> in_rev.
    apply list_elem_of_In, reverse_keys. by apply (list_elem_of_fmap_2 snd) in Hop.
  - intros p Hp%reverse_keys. apply list_elem_of_fmap in Hp as ([o p'] & -> & Hp). cbn.
    destruct (Hpairs o p' Hp). eauto.
  - intros o p Hop. destruct (Hin o p Hop) as [o' Ho']. by apply (Hpairs o').
  - apply reverse_keys_NoDup.
  - set_solver.
Qed.

Definition seg_items (s : seg) : list item := map Lit (sg_gap s) ++ [Tok (sg_orig s) (sg_repl s)].

Lemma literal_items d l : concat (map (item_render d) (map Lit l)) = l /\ source (map Lit l) = l.
Proof.
  unfold source. induction l as [|c l [IH1 IH2]]; [done|]. cbn in *. by rewrite IH1, IH2.
Qed.

Lemma items_of_segs segs tail :
  let items := concat (map seg_items segs) ++ map Lit tail in
  source items = concat (map seg_source segs) ++ tail /\
  render [] items = concat (map seg_target segs) ++ tail.
Proof.
  cbn. unfold source, render. induction segs as [|s segs [IH1 IH2]]; cbn.
  - destruct (literal_items [] tail). done.
  - destruct (literal_items [] (sg_gap s)) as [H1 H2]. unfold source in H2.
    unfold seg_items at 1 3, seg_source at 1, seg_target at 1.
    rewrite <- !app_assoc, !(map_app _ (map Lit (sg_gap s))), !concat_app, H1, H2.
    cbn. rewrite IH1, IH2. done.
Qed.

(** An applied plan as a stream of literal characters and tokens. *)
Lemma apply_spans_items text spans pairs out :
  NoDup (map snd pairs) -> apply_spans text spans pairs = Ok out ->
  exists items, source items = text /\ render [] items = out /\
    forall o p, Tok o p ∈ items -> dget p (by_placeholder_of pairs) = Some o.
Proof.
  intros Hnd H. unfold apply_spans in H.
  apply apply_spans_go_segs in H as (segs & tail & Hsrc & -> & _ & Hseg);
    [|pose proof (len_nonneg text); lia].
  rewrite slice_full in Hsrc. destruct (items_of_segs segs tail) as [Hs Hr].
  eexists. split_and!; [by rewrite Hs|exact Hr|].
  intros o p [Hop|Hop]%elem_of_app; [|by apply list_elem_of_fmap in Hop as (? & ? & _)].
  apply list_elem_of_In, in_concat in Hop as (l & Hl & Hop).
  apply list_elem_of_In, list_elem_of_fmap in Hl as (s & -> & Hs').
  unfold seg_items in Hop. apply in_app_or in Hop as [Hop|[Hop|[]]].
  { by apply in_map_iff in Hop as (? & ? & _). }
  injection Hop as <- <-. rewrite Forall_forall in Hseg. apply Hseg in Hs'.
  apply dget_setdefault_elem in Hs' as ([o p] & Hin & <- & <-).
  by apply (dget_setdefault_nodup snd fst).
Qed.

(** if [apply_spans] accepts a plan whose replacements are bracketed,
    pairwise distinct and absent from the text, then the reverse function built
    from the same pairs restores the text exactly: what the model echoes back
    is de-sanitized without loss, whatever the streaming flags. *)
Theorem apply_spans_roundtrip text spans pairs final prot out :
  NoDup (map snd pairs) ->
  (forall o p, (o, p) ∈ pairs -> bracketed p /\ contains text p = false) ->
  apply_spans text spans pairs = Ok out ->
  reverse_text pairs final prot out = text.
Proof.
  intros Hnd Hpairs H. destruct (apply_spans_items _ _ _ _ Hnd H) as (items & <- & <- & Htok).
  by apply reverse_text_render.
Qed.
End PlaceholderFacts.

(** ** Witnesses *)

Definition demo_text : str := u8 "mail a@b.ru to a@b.ru".
Definition demo_pairs : list pair := [(u8 "a@b.ru", u8 "[EMAIL_001]")].
Definition demo_spans : list applied_span :=
  [AppliedSpan 15 21 (u8 "a@b.ru"); AppliedSpan 5 11 (u8 "a@b.ru")].

Lemma apply_spans_roundtrip_witness :
  reverse_text (U := ru_unicode) demo_pairs true 0 (u8 "mail [EMAIL_001] to [EMAIL_001]") = demo_text.
Proof.
  apply (apply_spans_roundtrip (U := ru_unicode) demo_text demo_spans demo_pairs).
  - apply NoDup_singleton.
  - intros o p Hop. apply list_elem_of_singleton in Hop as [= -> ->]. split; [|reflexivity].
    exists (u8 "EMAIL_001"). split_and!; [reflexivity| |]; apply memb_false; reflexivity.
  - vm_compute. reflexivity.
Defined.
