(* ===== verification/Storage.v ===== *)
(** * Mapping stores ([storage/])

    [MappingStore] is the interface the orchestrator uses: Cache A maps a
    content hash to the pairs of a text with a fixed TTL, Cache B maps originals
    to placeholders and back within a conversation with a sliding TTL.  The
    class gives the operations, with the clock reading of each call; its laws
    say what a caller sees.  [InMemoryMappingStore] implements it; the Redis
    store's key scheme is modelled with the collisions it allows. *)

From S2P Require Import Prelude Text Placeholder.

(** [PlaceholderMapping] *)
Abbreviation mapping := (list pair).

(** Operations take the current state and the clock reading, and return the new state. *)
Class MappingStore (S : Type) := {
  get_dedup : str -> Q -> S -> option mapping * S;
  set_dedup : str -> mapping -> Q -> Q -> S -> S;                 (* hash, mapping, ttl, now *)
  get_placeholder : str -> str -> Q -> S -> option str * S;
  get_original : str -> str -> Q -> S -> option str * S;
  put : str -> str -> str -> Q -> Q -> S -> S;                    (* conv, original, placeholder, ttl, now *)
}.

(** What is visible in a store at a time. *)
Class StoreView (S : Type) := {
  view_dedup : S -> Q -> str -> option mapping;
  view_o2p : S -> Q -> str -> str -> option str;
  view_p2o : S -> Q -> str -> str -> option str;
}.

(** The contract of a mapping store. *)
Class MappingStoreLaws (S : Type) `{MappingStore S} `{StoreView S} : Prop := {
  get_dedup_view : forall h now st, (get_dedup h now st).1 = view_dedup st now h;
  get_dedup_keeps : forall h now st t h', (now <= t)%Q ->
    view_dedup (get_dedup h now st).2 t h' = view_dedup st t h';
  get_original_view : forall c p now st, (get_original c p now st).1 = view_p2o st now c p;
  get_placeholder_view : forall c o now st, (get_placeholder c o now st).1 = view_o2p st now c o;
  set_dedup_view : forall h m ttl now st t h',
    view_dedup (set_dedup h m ttl now st) t h' =
    if decide (h' = h) then (if Qlt_le_dec t (now + ttl) then Some m else None) else view_dedup st t h';
  put_p2o : forall c o p ttl now st t c' p',
    view_p2o (put c o p ttl now st) t c' p' =
    if decide ((c', p') = (c, p)) then (if Qlt_le_dec t (now + ttl) then Some o else None)
    else view_p2o st t c' p';
  put_o2p : forall c o p ttl now st t c' o',
    view_o2p (put c o p ttl now st) t c' o' =
    if decide ((c', o') = (c, o)) then (if Qlt_le_dec t (now + ttl) then Some p else None)
    else view_o2p st t c' o';
  put_dedup : forall c o p ttl now st t h,
    view_dedup (put c o p ttl now st) t h = view_dedup st t h;
}.

(** ** [InMemoryMappingStore] *)

Record entry (T : Type) := mkEntry { en_value : T; en_expires : Q; en_sliding : option Q }.
Arguments mkEntry {T}.
Arguments en_value {T}.
Arguments en_expires {T}.
Arguments en_sliding {T}.

Record mem_store := MemStore {
  ms_dedup : gmap str (entry mapping);
  ms_o2p : gmap (str * str) (entry str);
  ms_p2o : gmap (str * str) (entry str);
}.

Definition mem_empty : mem_store := MemStore ∅ ∅ ∅.

(** [entry.expires_at <= now] *)
Definition expired {T} (e : entry T) (now : Q) : bool := if Qlt_le_dec now (en_expires e) then false else true.

Definition mem_get_dedup (h : str) (now : Q) (st : mem_store) : option mapping * mem_store :=
  match ms_dedup st !! h with
  | None => (None, st)
  | Some e => if expired e now then (None, MemStore (delete h (ms_dedup st)) (ms_o2p st) (ms_p2o st))
              else (Some (en_value e), st)
  end.

Definition mem_set_dedup (h : str) (m : mapping) (ttl now : Q) (st : mem_store) : mem_store :=
  MemStore (<[h := mkEntry m (now + ttl) None]> (ms_dedup st)) (ms_o2p st) (ms_p2o st).

(** [_get_sliding]: an expired entry is deleted, a live one pushed forward. *)
Definition get_sliding (key : str * str) (now : Q) (d : gmap (str * str) (entry str))
  : option str * gmap (str * str) (entry str) :=
  match d !! key with
  | None => (None, d)
  | Some e =>
    if expired e now then (None, delete key d)
    else (Some (en_value e),
          match en_sliding e with
          | Some ttl => <[key := mkEntry (en_value e) (now + ttl) (Some ttl)]> d
          | None => d
          end)
  end.

Definition mem_get_placeholder (c o : str) (now : Q) (st : mem_store) : option str * mem_store :=
  let '(r, d) := get_sliding (c, o) now (ms_o2p st) in (r, MemStore (ms_dedup st) d (ms_p2o st)).

Definition mem_get_original (c p : str) (now : Q) (st : mem_store) : option str * mem_store :=
  let '(r, d) := get_sliding (c, p) now (ms_p2o st) in (r, MemStore (ms_dedup st) (ms_o2p st) d).

Definition mem_put (c o p : str) (ttl now : Q) (st : mem_store) : mem_store :=
  MemStore (ms_dedup st) (<[(c, o) := mkEntry p (now + ttl) (Some ttl)]> (ms_o2p st))
           (<[(c, p) := mkEntry o (now + ttl) (Some ttl)]> (ms_p2o st)).

#[export] Instance mem_mapping_store : MappingStore mem_store := {|
  get_dedup := mem_get_dedup;
  set_dedup := mem_set_dedup;
  get_placeholder := mem_get_placeholder;
  get_original := mem_get_original;
  put := mem_put;
|}.

Definition live {T} (now : Q) (o : option (entry T)) : option T :=
  match o with Some e => if expired e now then None else Some (en_value e) | None => None end.

#[export] Instance mem_store_view : StoreView mem_store := {|
  view_dedup st t h := live t (ms_dedup st !! h);
  view_o2p st t c o := live t (ms_o2p st !! (c, o));
  view_p2o st t c p := live t (ms_p2o st !! (c, p));
|}.

(** *** [RedisMappingStore]: its keys *)

Definition DEDUP_PREFIX : str := u8 "dedup:".
Definition O2P_PREFIX : str := u8 "conv:o2p:".
Definition P2O_PREFIX : str := u8 "conv:p2o:".
Definition TTL_SUFFIX : str := u8 ":ttl".

Definition o2p_key (conversation_id original : str) : str :=
  O2P_PREFIX ++ conversation_id ++ u8 ":" ++ original.
Definition p2o_key (conversation_id placeholder : str) : str :=
  P2O_PREFIX ++ conversation_id ++ u8 ":" ++ placeholder.

(** ** Theorems *)

Lemma live_put {T} (v : T) t exp sl :
  live t (Some (mkEntry v exp sl)) = if Qlt_le_dec t exp then Some v else None.
Proof. unfold live, expired. cbn. by destruct (Qlt_le_dec t exp). Qed.

Lemma expired_later {T} (e : entry T) now t : expired e now = true -> (now <= t)%Q -> expired e t = true.
Proof.
  unfold expired. destruct (Qlt_le_dec now _) as [|H1]; [done|]. intros _ H2.
  destruct (Qlt_le_dec t _) as [H3|]; [|done]. exfalso. apply (Qlt_irrefl t).
  eapply Qlt_le_trans; [exact H3|]. by eapply Qle_trans.
Qed.

Lemma get_sliding_view key now d : (get_sliding key now d).1 = live now (d !! key).
Proof. unfold get_sliding, live. destruct (d !! key) as [e|]; [|done]. by destruct (expired e now). Qed.

#[export] Instance mem_store_laws : MappingStoreLaws mem_store.
Proof.
  split; cbn.
  - intros h now st. unfold mem_get_dedup, live. destruct (ms_dedup st !! h) as [e|]; [|done].
    by destruct (expired e now).
  - intros h now st t h' Ht. unfold mem_get_dedup. destruct (ms_dedup st !! h) as [e|] eqn:E; [|done].
    destruct (expired e now) eqn:Ex; [|done]. cbn. rewrite lookup_delete. case_decide as Hd; [|done].
    subst. rewrite E. cbn. by rewrite (expired_later e now t).
  - intros c p now st. unfold mem_get_original. rewrite <- (get_sliding_view (c, p) now).
    by destruct (get_sliding _ _ _).
  - intros c o now st. unfold mem_get_placeholder. rewrite <- (get_sliding_view (c, o) now).
    by destruct (get_sliding _ _ _).
  - intros. rewrite lookup_insert. case_decide; case_decide; subst; try done. by rewrite live_put.
  - intros. rewrite lookup_insert. case_decide; case_decide; simplify_eq; try done. by rewrite live_put.
  - intros. rewrite lookup_insert. case_decide; case_decide; simplify_eq; try done. by rewrite live_put.
  - done.
Qed.

Section StoreClient.
Context {S : Type} `{ML : MappingStoreLaws S}.

(** Recording the pairs of a text in a conversation ([_record_conversation_mappings]). *)
Definition record_mappings (c : str) (pairs : list pair) (ttl now : Q) (st : S) : S :=
  foldl (fun st p => put c p.1 p.2 ttl now st) st pairs.

Lemma record_p2o c pairs ttl now st t p :
  view_p2o (record_mappings c pairs ttl now st) t c p =
  match last (List.filter (fun q : pair => str_eqb q.2 p) pairs) with
  | Some q => if Qlt_le_dec t (now + ttl) then Some q.1 else None
  | None => view_p2o st t c p
  end.
Proof.
  unfold record_mappings. revert st. induction pairs as [|[o q] pairs IH]; intros st; cbn; [done|].
  rewrite IH. destruct (str_eqb q p) eqn:E; cbn.
  - apply str_eqb_eq in E as ->. destruct (List.filter _ pairs) as [|x l] eqn:F; cbn.
    + rewrite put_p2o. by rewrite decide_True.
    + destruct (last (x :: l)) eqn:El; [done|]. by apply last_None in El.
  - apply str_eqb_neq in E. rewrite put_p2o, decide_False by congruence. done.
Qed.

(** against any mapping store that keeps its contract: recording pairs
    with distinct placeholders in a conversation makes every placeholder resolve
    to its original for the whole TTL, and touches no other conversation's
    placeholders and no Cache A entry. *)
Theorem recorded_mappings_resolve c pairs ttl now st t o p :
  NoDup (map snd pairs) -> (o, p) ∈ pairs -> (t < now + ttl)%Q ->
  (get_original c p t (record_mappings c pairs ttl now st)).1 = Some o /\
  (forall c' p', c' <> c -> (get_original c' p' t (record_mappings c pairs ttl now st)).1 =
                            (get_original c' p' t st).1) /\
  forall h, (get_dedup h t (record_mappings c pairs ttl now st)).1 = (get_dedup h t st).1.
Proof using ML.
  intros Hnd Hin Ht. split_and!.
  - rewrite get_original_view, record_p2o.
    assert (List.filter (fun q : pair => str_eqb q.2 p) pairs = [(o, p)]) as ->.
    { clear -Hnd Hin. induction pairs as [|[o' p'] pairs IH]; [set_solver|]. cbn in *.
      apply NoDup_cons in Hnd as [Hp Hnd]. apply elem_of_cons in Hin as [[= <- <-]|Hin].
      - rewrite (proj2 (str_eqb_eq p p) eq_refl). f_equal. apply filter_all_false.
        intros q Hq. apply str_eqb_neq. intros E. apply Hp. rewrite <- E. by apply list_elem_of_fmap_2.
      - rewrite (proj2 (str_eqb_neq p' p)); [by apply IH|]. intros ->. apply Hp.
        by apply (list_elem_of_fmap_2 snd) in Hin. }
    cbn. by destruct (Qlt_le_dec t (now + ttl)) as [|Hle]; [|apply Qlt_not_le in Ht].
  - intros c' p' Hc. rewrite !get_original_view. unfold record_mappings. clear Hnd Hin. revert st.
    induction pairs as [|[o' q] pairs IH]; intros st; cbn; [done|]. rewrite IH, put_p2o.
    by rewrite decide_False by congruence.
  - intros h. rewrite !get_dedup_view. unfold record_mappings. clear Hnd Hin. revert st.
    induction pairs as [|[o' q] pairs IH]; intros st; cbn; [done|]. by rewrite IH, put_dedup.
Qed.
End StoreClient.

(** Reading a conversation key at each of the given times in turn. *)
Fixpoint reads (c p : str) (times : list Q) (st : mem_store) : list (option str) :=
  match times with
  | [] => []
  | t :: times' => let '(r, st') := get_original c p t st in r :: reads c p times' st'
  end.

(** Each time is less than [ttl] after the one before it. *)
Fixpoint gaps_below (ttl from : Q) (times : list Q) : Prop :=
  match times with [] => True | t :: times' => (t < from + ttl)%Q /\ gaps_below ttl t times' end.

(** the sliding TTL. A mapping that is read again within the TTL of its
    last use stays available for ever; after a gap of a full TTL it is gone. *)
Theorem sliding_ttl c o p ttl now st times t :
  gaps_below ttl now times ->
  Forall (fun r => r = Some o) (reads c p times (put c o p ttl now st)) /\
  ((now + ttl <= t)%Q -> (get_original c p t (put c o p ttl now st)).1 = None).
Proof.
  intros Hg. split.
  - cbn. set (st0 := mem_put c o p ttl now st).
    assert (ms_p2o st0 !! (c, p) = Some (mkEntry o (now + ttl) (Some ttl))) as Hst
      by apply lookup_insert_eq.
    clearbody st0. revert now Hg st0 Hst. induction times as [|t' times IH]; intros now Hg st0 Hst; cbn; [constructor|].
    destruct Hg as [Ht Hg]. unfold mem_get_original, get_sliding. rewrite Hst. unfold expired. cbn.
    destruct (Qlt_le_dec t' (now + ttl)) as [_|Hle]; [|by apply Qlt_not_le in Ht].
    constructor; [done|]. apply (IH t'); [done|]. cbn. apply lookup_insert_eq.
  - intros Ht. rewrite get_original_view, put_p2o. rewrite decide_True by done.
    destruct (Qlt_le_dec t (now + ttl)) as [Hlt|]; [|done]. by apply Qlt_not_le in Hlt.
Qed.

(** *** The Redis keys *)

Lemma o2p_key_inj c1 o1 c2 o2 :
  58%N ∉ c1 -> 58%N ∉ c2 -> o2p_key c1 o1 = o2p_key c2 o2 -> c1 = c2 /\ o1 = o2.
Proof.
  unfold o2p_key. intros H1 H2 H. apply app_inv_head in H. revert c2 H2 H.
  induction c1 as [|a c1 IH]; intros [|b c2] H2 H; cbn in H.
  - injection H as ->. done.
  - injection H as <- _. set_solver.
  - injection H as -> _. set_solver.
  - injection H as <- H. destruct (IH ltac:(set_solver) c2 ltac:(set_solver) H) as [-> ->]. done.
Qed.

(** the keys of the Redis store separate mappings only as long as
    conversation ids hold no colon: then equal keys mean equal conversation and
    original.  With a colon two conversations share a key, and the record that
    holds the TTL of one original is the key of another original in the same
    conversation. *)
Theorem redis_keys :
  (forall c1 o1 c2 o2, 58%N ∉ c1 -> 58%N ∉ c2 -> o2p_key c1 o1 = o2p_key c2 o2 -> c1 = c2 /\ o1 = o2) /\
  (exists c1 o1 c2 o2, c1 <> c2 /\ o2p_key c1 o1 = o2p_key c2 o2) /\
  (forall c o, exists o', o' <> o /\ o2p_key c o ++ TTL_SUFFIX = o2p_key c o').
Proof.
  split_and!; [apply o2p_key_inj| |].
  - exists (u8 "a:b"), (u8 "c"), (u8 "a"), (u8 "b:c"). split; [done|reflexivity].
  - intros c o. exists (o ++ TTL_SUFFIX). split.
    + intros E. apply (f_equal length) in E. rewrite length_app in E. cbn in E. lia.
    + unfold o2p_key. by rewrite <- !app_assoc.
Qed.

(** ** Witnesses *)

Definition store_pairs : list pair := [(u8 "a@b.ru", u8 "[EMAIL_001]"); (u8 "c@d.ru", u8 "[EMAIL_002]")].

Lemma recorded_mappings_resolve_witness :
  (get_original (u8 "conv") (u8 "[EMAIL_002]") 100
     (record_mappings (u8 "conv") store_pairs 3600 50 mem_empty)).1 = Some (u8 "c@d.ru").
Proof.
  apply (recorded_mappings_resolve (u8 "conv") store_pairs 3600 50 mem_empty 100 (u8 "c@d.ru")).
  - apply (bool_decide_eq_true_1 _). vm_compute. reflexivity.
  - apply memb_true. vm_compute. reflexivity.
  - vm_compute. reflexivity.
Defined.

Lemma sliding_ttl_witness :
  Forall (fun r => r = Some (u8 "o")) (reads (u8 "c") (u8 "p") [5; 14; 23]%Q (put (u8 "c") (u8 "o") (u8 "p") 10 0 mem_empty)).
Proof.
  apply (sliding_ttl (u8 "c") (u8 "o") (u8 "p") 10 0 mem_empty [5; 14; 23]%Q 0).
  repeat split; vm_compute; reflexivity.
Defined.
