(* ===== verification/Rules.v ===== *)
(** * Replacement rules ([rules/models.py], [rules/parser.py], [rules/cached.py])

    The [replace.md] parser, and the TTL cache in front of a rules loader.  The
    loader behind the cache is a parameter: what it returns for a team at a time. *)

From S2P Require Import Prelude Text Regex.
Local Open Scope py_scope.

Record rule := Rule { r_pattern : str; r_replacement : str }.
Abbreviation rules := (list rule).

(** ** The parser *)

Section Parser.
Context {U : Unicode}.

Definition not_backtick : re := cls (fun c => negb (c =? 96)%N).
Definition sep_p (c : N) : bool := one_of (u8 "=→") c.

(** Groups: 1 quoted original, 2 bare original, 3 quoted replacement, 4 bare replacement. *)
Definition RULE_RE : re :=
  seqs [Bos; star space; lit (u8 "-"); star space;
        Alt (seqs [lit (u8 "`"); Grp 1 (plus not_backtick); lit (u8 "`")])
            (Grp 2 (Seq (Chr (fun c => negb (is_space c || sep_p c || (c =? 96)%N)))
                        (lazy_star (Chr (fun c => negb (sep_p c))))));
        star space; Chr sep_p; star space;
        Alt (seqs [lit (u8 "`"); Grp 3 (plus not_backtick); lit (u8 "`")])
            (Grp 4 (Seq (Chr (fun c => negb (is_space c))) (lazy_star dot)));
        star space; Eol].

(** [RulesParseError], with the line it names. *)
Inductive parse_error :=
| AsciiArrow (line_no : Z)
| NotARule (line_no : Z) (line : str)
| EmptyPart (line_no : Z).

(** [m.group(a) or m.group(b) or ""] *)
Definition group_or (text : str) (m : mtch) (a b : nat) : str :=
  match mt_group a text m with
  | None | Some [] => default [] (mt_group b text m)
  | Some s => s
  end.

(** One line: no rule, a rule, or an error. *)
Definition parse_line (line_no : Z) (raw_line : str) : result parse_error (option rule) :=
  let line := rstrip raw_line in
  let stripped := lstrip line in
  if str_eqb stripped [] then Ok None else
  if starts_with stripped (u8 "#") || starts_with stripped (u8 "<!--") then Ok None else
  if contains stripped (u8 "->") && negb (contains stripped (u8 "=")) && negb (contains stripped (u8 "→"))
  then Raise (AsciiArrow line_no) else
  match re_match RULE_RE line with
  | None => Raise (NotARule line_no line)
  | Some m =>
    let original := strip (group_or line m 1 2) in
    let replacement := strip (group_or line m 3 4) in
    if str_eqb original [] || str_eqb replacement [] then Raise (EmptyPart line_no)
    else Ok (Some (Rule original replacement))
  end.

Fixpoint parse_lines (line_no : Z) (lines : list str) : result parse_error rules :=
  match lines with
  | [] => Ok []
  | l :: lines' =>
    let! r := parse_line line_no l in
    let! rest := parse_lines (line_no + 1) lines' in
    Ok (match r with Some r => r :: rest | None => rest end)
  end.

Definition parse_rules (text : str) : result parse_error rules := parse_lines 1 (splitlines text).
End Parser.

(** ** The cached loader *)

(** [_Entry] *)
Record rules_entry := RulesEntry { re_rules : rules; re_expires_at : Q }.

(** [_cache] of the loader. *)
Abbreviation rules_cache := (gmap str rules_entry).

(** The clock readings of one [load]: the first check, the check under the
    team's lock, when the inner loader answered, and the final reading. *)
Record load_times := LoadTimes { t_first : Q; t_locked : Q; t_inner : Q; t_stored : Q }.

Section Cached.
Context {E : Type} (inner : str -> Q -> result E rules) (ttl : Q).

Definition fresh_entry (cache : rules_cache) (team : str) (now : Q) : option rules :=
  match cache !! team with
  | Some e => if Qlt_le_dec now (re_expires_at e) then Some (re_rules e) else None
  | None => None
  end.

(** [CachedRulesLoader.load]: what it returns, and the cache after it. *)
Definition cached_load (team : str) (t : load_times) (cache : rules_cache)
  : result E rules * rules_cache :=
  match fresh_entry cache team (t_first t) with
  | Some r => (Ok r, cache)
  | None =>
    match fresh_entry cache team (t_locked t) with
    | Some r => (Ok r, cache)
    | None =>
      match inner team (t_inner t) with
      | Raise e => (Raise e, cache)
      | Ok r => (Ok r, <[team := RulesEntry r (t_stored t + ttl)]> cache)
      end
    end
  end.

(** A run of loads, in the order their locked sections complete. *)
Fixpoint cached_loads (ops : list (str * load_times)) (cache : rules_cache) : rules_cache :=
  match ops with [] => cache | (team, t) :: ops' => cached_loads ops' (cached_load team t cache).2 end.
End Cached.

(** ** Theorems *)

Section RulesFacts.
Context {U : Unicode}.

Lemma parse_line_nonempty n l r :
  parse_line n l = Ok (Some r) -> r_pattern r <> [] /\ r_replacement r <> [].
Proof.
  unfold parse_line. intros H. destruct (str_eqb (lstrip _) []); [done|].
  destruct (_ || _); [done|]. destruct (_ && _); [done|].
  destruct (re_match RULE_RE _); [|done]. destruct (_ || _) eqn:E; [done|].
  injection H as <-. apply orb_false_iff in E as [E1 E2]. by rewrite !str_eqb_neq in *.
Qed.

Lemma parse_lines_nonempty n ls rs :
  parse_lines n ls = Ok rs -> Forall (fun r => r_pattern r <> [] /\ r_replacement r <> []) rs.
Proof.
  revert n rs. induction ls as [|l ls IH]; intros n rs; cbn; [intros [= <-]; constructor|].
  intros (r & Hr & (rest & Hrest & [= <-])%rbind_ok)%rbind_ok. apply IH in Hrest.
  destruct r as [r|]; [|done]. constructor; [by eapply parse_line_nonempty|done].
Qed.

(** a rule file that parses holds only rules with a non-empty pattern and
    a non-empty replacement, so a rule can neither match everywhere nor delete
    what it matches. *)
Theorem parsed_rules_nonempty text rs :
  parse_rules text = Ok rs -> Forall (fun r => r_pattern r <> [] /\ r_replacement r <> []) rs.
Proof. apply parse_lines_nonempty. Qed.
End RulesFacts.

Section CachedFacts.
Context {E : Type} (inner : str -> Q -> result E rules) (ttl : Q).

(** Where a cached entry comes from. *)
Definition entry_from (team : str) (e : rules_entry) : Prop :=
  exists t, (t_inner t <= t_stored t)%Q /\ inner team (t_inner t) = Ok (re_rules e) /\
            re_expires_at e = (t_stored t + ttl)%Q.

Definition cache_ok (cache : rules_cache) : Prop :=
  forall team e, cache !! team = Some e -> entry_from team e.

Lemma cached_load_ok team t cache :
  (t_inner t <= t_stored t)%Q -> cache_ok cache -> cache_ok (cached_load inner ttl team t cache).2.
Proof.
  intros Ht Hc. unfold cached_load. destruct (fresh_entry cache team (t_first t)); [done|].
  destruct (fresh_entry cache team (t_locked t)); [done|].
  destruct (inner team (t_inner t)) as [r|] eqn:Hi; [|done]. cbn.
  intros team' e. rewrite lookup_insert. case_decide as Hd; [|apply Hc].
  intros [= <-]. subst. exists t. auto.
Qed.

Lemma cached_loads_ok ops cache :
  Forall (fun o : str * load_times => (t_inner o.2 <= t_stored o.2)%Q) ops -> cache_ok cache ->
  cache_ok (cached_loads inner ttl ops cache).
Proof.
  revert cache. induction ops as [|[team t] ops IH]; intros cache Hf Hc; cbn; [done|].
  apply Forall_cons in Hf as [? ?]. apply IH; [done|]. by apply cached_load_ok.
Qed.

(** the rules cache never serves rules staler than its TTL. After any run
    of loads, what a load returns is what the inner loader returned at some
    time, and that load stored its answer less than the TTL before the clock
    reading this load checked. *)
Theorem cached_rules_fresh ops team t r :
  Forall (fun o : str * load_times => (t_inner o.2 <= t_stored o.2)%Q) ops ->
  (t_first t <= t_locked t)%Q -> (t_locked t <= t_inner t)%Q -> (t_inner t <= t_stored t)%Q ->
  (0 < ttl)%Q ->
  (cached_load inner ttl team t (cached_loads inner ttl ops ∅)).1 = Ok r ->
  exists t', inner team (t_inner t') = Ok r /\ (t_inner t' <= t_stored t')%Q /\
             (t_first t < t_stored t' + ttl)%Q.
Proof.
  intros Hf H1 H2 H3 Httl. assert (cache_ok (cached_loads inner ttl ops ∅)) as Hc
    by (apply cached_loads_ok; [done|intros ? ? H; by rewrite lookup_empty in H]).
  set (cache := cached_loads inner ttl ops ∅) in *.
  assert (forall now r, (t_first t <= now)%Q -> fresh_entry cache team now = Some r ->
            exists t', inner team (t_inner t') = Ok r /\ (t_inner t' <= t_stored t')%Q /\
                       (t_first t < t_stored t' + ttl)%Q) as Hfresh.
  { intros now r' Hn. unfold fresh_entry. destruct (cache !! team) as [e|] eqn:He; [|done].
    destruct (Qlt_le_dec now (re_expires_at e)) as [Hlt|]; [|done]. intros [= <-].
    destruct (Hc _ _ He) as (t' & Ht' & Hi & Hx). exists t'. split_and!; [done|done|].
    rewrite <- Hx. by eapply Qle_lt_trans. }
  unfold cached_load. destruct (fresh_entry cache team (t_first t)) eqn:E1.
  { intros [= <-]. apply (Hfresh (t_first t)); [apply Qle_refl|done]. }
  destruct (fresh_entry cache team (t_locked t)) eqn:E2.
  { intros [= <-]. by apply (Hfresh (t_locked t)). }
  destruct (inner team (t_inner t)) eqn:E3; [|done]. intros [= ->]. exists t.
  split_and!; [done|done|]. apply Qle_lt_trans with (t_stored t).
  - eapply Qle_trans; [exact H1|]. by eapply Qle_trans.
  - rewrite <- (Qplus_0_r (t_stored t)) at 1. by apply Qplus_lt_r.
Qed.
End CachedFacts.

(** ** Witnesses *)

Definition demo_rule_file : str :=
  u8 "# team" ++ [10%N] ++ u8 "- `Acme Bank` = `[ORG_001]`" ++ [10%N] ++ u8 "- ledger → [SYS_001]".

Lemma parsed_rules_nonempty_witness :
  exists rs, parse_rules (U := ru_unicode) demo_rule_file = Ok rs /\
    rs = [Rule (u8 "Acme Bank") (u8 "[ORG_001]"); Rule (u8 "ledger") (u8 "[SYS_001]")] /\
    Forall (fun r => r_pattern r <> [] /\ r_replacement r <> []) rs.
Proof.
  eexists. split; [vm_compute; reflexivity|]. split; [reflexivity|].
  apply (parsed_rules_nonempty (U := ru_unicode) demo_rule_file). vm_compute. reflexivity.
Defined.

Definition demo_inner (_ : str) (_ : Q) : result unit rules := Ok [Rule (u8 "a") (u8 "[A_001]")].

Lemma cached_rules_fresh_witness :
  exists t', demo_inner (u8 "team") (t_inner t') = Ok [Rule (u8 "a") (u8 "[A_001]")] /\
             (t_inner t' <= t_stored t')%Q /\ (200 < t_stored t' + 300)%Q.
Proof.
  apply (cached_rules_fresh demo_inner 300 [(u8 "team", LoadTimes 0 0 1 2)] (u8 "team")
           (LoadTimes 200 200 200 200)).
  - repeat constructor. vm_compute. discriminate.
  - vm_compute. discriminate.
  - vm_compute. discriminate.
  - vm_compute. discriminate.
  - vm_compute. reflexivity.
  - vm_compute. reflexivity.
Defined.
