(* ===== verification/CachePolicy.v ===== *)
(** * Policies and cache keys ([payload/size_threshold.py], [sanitizer/allowlist.py],
    and the key and trigger functions of [sanitizer/orchestrator.py])

    Size policy, the oracle trigger, the test-data allowlist, and what the
    Cache A key and the policy fingerprint hash. *)

From S2P Require Import Prelude Text Json Regex Placeholder Rules Sha256.
Local Open Scope py_scope.

(** A [ValueError] of the configuration parsers. *)
Inductive config_error :=
| InvalidOversizePolicy (value : option str)
| InvalidOracleTrigger (value : option str)
| SampleNotInteger (trigger : str)
| SampleOutOfRange (trigger : str) (pct : Z)
| NegativeSize (n : Z).

(** ** [payload/size_threshold.py] *)

Definition DEFAULT_THRESHOLD_BYTES : Z := 100 * 1024.

Inductive oversize_policy := OVERSIZE_FAIL_CLOSED | OVERSIZE_CHUNK | OVERSIZE_DELIVER_FLAG.

#[export] Instance oversize_policy_eq_dec : EqDecision oversize_policy.
Proof. solve_decision. Defined.

Definition should_skip_sanitization (content_bytes threshold_bytes : Z) : result config_error bool :=
  if content_bytes <? 0 then Raise (NegativeSize content_bytes)
  else if threshold_bytes <? 0 then Raise (NegativeSize threshold_bytes)
  else Ok (threshold_bytes <? content_bytes).

Section Triggers.
Context {U : Unicode}.

(** [value or default] *)
Definition or_default (value : option str) (d : str) : str :=
  match value with None | Some [] => d | Some v => v end.

Definition normalize_oversize_policy (value : option str) : result config_error oversize_policy :=
  let policy := u_lower (strip (or_default value (u8 "fail-closed"))) in
  if str_eqb policy (u8 "fail-closed") then Ok OVERSIZE_FAIL_CLOSED
  else if str_eqb policy (u8 "chunk") then Ok OVERSIZE_CHUNK
  else if str_eqb policy (u8 "deliver-flag") then Ok OVERSIZE_DELIVER_FLAG
  else Raise (InvalidOversizePolicy value).

(** ** The oracle trigger *)

Definition ORACLE_TRIGGER_GAZETTEER_HIT : str := u8 "gazetteer_hit".
Definition ORACLE_TRIGGER_ANY_LOCAL_FINDING : str := u8 "any_local_finding".
Definition ORACLE_TRIGGER_ALWAYS : str := u8 "always".
Definition ORACLE_TRIGGER_SAMPLED_PREFIX : str := u8 "sampled:".
Definition ORACLE_TRIGGER_FIXED : list str :=
  [ORACLE_TRIGGER_GAZETTEER_HIT; ORACLE_TRIGGER_ANY_LOCAL_FINDING; ORACLE_TRIGGER_ALWAYS].

(** Digits of [int(s)]: single underscores between digits are skipped. *)
Fixpoint int_digits (after_digit : bool) (s : str) : option (list Z) :=
  match s with
  | [] => if after_digit then Some [] else None
  | c :: s' =>
    match u_decimal c with
    | Some d => cons d <$> int_digits true s'
    | None => if after_digit && (c =? 95)%N && negb (bool_decide (s' = [])) then int_digits false s' else None
    end
  end.

(** The number of a run of digits, unless it is longer than [int] converts. *)
Definition int_run (s : str) : option Z :=
  match int_digits false s with
  | Some ds => if INT_MAX_STR_DIGITS <? len ds then None else Some (int_of_digits ds)
  | None => None
  end.

(** [int(s)] *)
Definition py_int (s : str) : option Z :=
  match strip s with
  | 43%N :: s' => int_run s'
  | 45%N :: s' => Z.opp <$> int_run s'
  | s' => int_run s'
  end.

Definition parse_sample_pct (trigger : str) : result config_error Z :=
  let raw := slice trigger (len ORACLE_TRIGGER_SAMPLED_PREFIX) (len trigger) in
  match py_int raw with
  | None => Raise (SampleNotInteger trigger)
  | Some pct => if negb ((0 <=? pct) && (pct <=? 100)) then Raise (SampleOutOfRange trigger pct) else Ok pct
  end.

Definition normalize_oracle_trigger (value : option str) : result config_error str :=
  let trigger := u_lower (strip (or_default value ORACLE_TRIGGER_GAZETTEER_HIT)) in
  if memb trigger ORACLE_TRIGGER_FIXED then Ok trigger
  else if starts_with trigger ORACLE_TRIGGER_SAMPLED_PREFIX
  then let! pct := parse_sample_pct trigger in
       Ok (ORACLE_TRIGGER_SAMPLED_PREFIX ++ str_of_N (Z.to_N pct))
  else Raise (InvalidOracleTrigger value).

(** [_sample_selected]; [None] when the seed cannot be encoded. *)
Definition sample_selected (seed : str) (pct : Z) : option bool :=
  if pct <=? 0 then Some false
  else if 100 <=? pct then Some true
  else bytes ← utf8_encode seed;
       Some (Z.of_N (from_bytes_big (take 8 (sha256 bytes)) mod 100) <? pct).

(** ** [sanitizer/allowlist.py] *)

Definition LABEL_RE : re :=
  seqs [Bos; lit (u8 "["); Grp 1 (plus (cls (fun c => ascii_upper_p c || (c =? 95)%N))); lit (u8 "_");
        plus digit; lit (u8 "]"); Eol].

Definition SECRET_LABELS : list str :=
  [u8 "API_KEY"; u8 "TOKEN"; u8 "PASSWORD"; u8 "JWT"; u8 "PEM_PRIVATE_KEY"; u8 "SECRET"].

Definition placeholder_label (placeholder : str) : option str :=
  match re_match LABEL_RE placeholder with Some m => mt_group 1 placeholder m | None => None end.

Definition is_secret (placeholder : str) : bool :=
  match placeholder_label placeholder with Some l => memb l SECRET_LABELS | None => false end.

Definition filter_pairs (allowed : list str) (pairs : list pair) : list pair :=
  match allowed with
  | [] => pairs
  | _ => List.filter (fun p : pair => negb (memb p.1 allowed && negb (is_secret p.2))) pairs
  end.
End Triggers.

(** ** What is hashed *)

Definition CACHE_A_ALGORITHM_VERSION : list N := u8 "coverage-v2".
Definition POLICY_FINGERPRINT_VERSION : list N := u8 "policy-v3".

(** The bytes [_feed] absorbs: length-prefixed parts and a terminator. *)
Definition feed (parts : list (list N)) : list N :=
  concat (map (fun part => be_bytes 8 (N.of_nat (length part)) ++ part) parts) ++ [28%N].

(** [sorted] of byte strings. *)
Definition sort_bytes (l : list (list N)) : list (list N) :=
  sort_on (fun b => map (fun c => zk (Z.of_N c)) b) l.

(** What the fingerprint sees of a policy, already encoded: detector
    identities, the code-safe ones, the gazetteer's terms and lemmatizers, the
    allowlist, the trigger. *)
Record policy := Policy {
  po_detectors : list (list N);
  po_code_safe : list (list N);
  po_gazetteer : option (list (list N) * list (list N));
  po_allowlist : option (list (list N));
  po_trigger : list N;
}.

(** The sequence of [_feed] calls of [_compute_policy_fingerprint]. *)
Definition policy_feeds (p : policy) : list (list (list N)) :=
  [[POLICY_FINGERPRINT_VERSION]; [u8 "detectors"]; sort_bytes (po_detectors p);
   [u8 "code_safe"]; sort_bytes (po_code_safe p); [u8 "gazetteer"]] ++
  match po_gazetteer p with Some (terms, lemmatizers) => [terms; lemmatizers] | None => [] end ++
  [[u8 "allowlist"]] ++
  match po_allowlist p with Some entries => [sort_bytes entries] | None => [] end ++
  [[u8 "oracle_trigger"; po_trigger p]].

Definition policy_preimage (p : policy) : list N := concat (map feed (policy_feeds p)).

Definition policy_fingerprint (p : policy) : str := hexdigest (sha256 (policy_preimage p)).

(** [_detector_identity]: class path, then the sorted policy signature. *)
Definition detector_identity (base : str) (signature : option (list str)) : str :=
  match signature with
  | None => base
  | Some parts => join [30%N] (base :: sort_on (fun s => map (fun c => zk (Z.of_N c)) s) parts)
  end.

Definition rules_bytes (rs : rules) : option (list N) :=
  collect (fun r => p ← utf8_encode (r_pattern r); q ← utf8_encode (r_replacement r);
                    Some (p ++ [30%N] ++ q ++ [31%N])) rs.

(** The bytes [_content_hash] absorbs; [None] when a text cannot be encoded. *)
Definition content_preimage (team_id : str) (rs : rules) (text : str) (profile : option str)
  (oracle_enabled : option bool) (policy_fp : option str) : option (list N) :=
  team ← utf8_encode team_id;
  rb ← rules_bytes rs;
  t ← utf8_encode text;
  pr ← match profile with None => Some [] | Some f => b ← utf8_encode f; Some ([28%N] ++ b) end;
  po ← match policy_fp with None => Some [] | Some f => b ← utf8_encode f; Some ([26%N] ++ b) end;
  Some (CACHE_A_ALGORITHM_VERSION ++ [28%N] ++ team ++ [31%N] ++ rb ++ [29%N] ++ t ++ pr ++
        match oracle_enabled with
        | None => []
        | Some o => [27%N] ++ (if o : bool then u8 "oracle:1" else u8 "oracle:0")
        end ++ po).

Definition content_hash (team_id : str) (rs : rules) (text : str) (profile : option str)
  (oracle_enabled : option bool) (policy_fp : option str) : option str :=
  pre ← content_preimage team_id rs text profile oracle_enabled policy_fp;
  Some (hexdigest (sha256 pre)).

(** ** The oracle's system prompt *)

Definition prompt_head : list str :=
  [u8 "You are a corp-confidential PII / sensitive-term redactor.";
   u8 "Identify all PII or corp-confidential terms in the user's input and";
   u8 "call the 'report_pii_findings' tool with their (original, replacement)";
   u8 "pairs. Use placeholders like [LABEL_NNN]. Apply these team-specific";
   u8 "rules with priority — they OVERRIDE your judgment when they match:";
   []].

Definition build_system_prompt (rs : rules) : str :=
  join [10%N]
    (prompt_head ++
     map (fun r => u8 "- `" ++ r_pattern r ++ u8 "` → `" ++ r_replacement r ++ u8 "`") rs ++
     match rs with
     | [] => [u8 "(no team-specific rules; use general PII judgment only)"]
     | _ => []
     end).

(** ** Theorems: the length-prefixed encoding *)

Lemma length_be_bytes n x : length (be_bytes n x) = n.
Proof. revert x. induction n as [|n IH]; intros x; cbn; [done|]. rewrite length_app, IH. cbn. lia. Qed.

Lemma be_bytes_head n x : (x < 256 ^ N.of_nat n)%N -> be_bytes (S n) x = 0%N :: be_bytes n x.
Proof.
  revert x. induction n as [|n IH]; intros x Hx.
  - cbn in Hx. replace x with 0%N by lia. reflexivity.
  - change (be_bytes (S (S n)) x) with (be_bytes (S n) (x / 256) ++ [(x mod 256)%N]).
    rewrite IH; [done|]. rewrite Nat2N.inj_succ, N.pow_succ_r' in Hx.
    apply N.Div0.div_lt_upper_bound. lia.
Qed.

Lemma be_bytes_inj n x y :
  (x < 256 ^ N.of_nat n)%N -> (y < 256 ^ N.of_nat n)%N -> be_bytes n x = be_bytes n y -> x = y.
Proof.
  revert x y. induction n as [|n IH]; intros x y Hx Hy; [cbn in *; lia|].
  cbn [be_bytes]. intros [H1 H2]%app_inj_tail. rewrite Nat2N.inj_succ, N.pow_succ_r' in Hx, Hy.
  apply IH in H1; [|apply N.Div0.div_lt_upper_bound; lia..].
  rewrite (N.div_mod x 256), (N.div_mod y 256) by done. congruence.
Qed.

Definition small (part : list N) : Prop := (N.of_nat (length part) < 256 ^ 7)%N.

(** A fed group is never a proper prefix of another, nor equal to a different one. *)
Lemma feed_prefix_free ps qs r r' :
  Forall small ps -> Forall small qs -> feed ps ++ r = feed qs ++ r' -> ps = qs /\ r = r'.
Proof.
  unfold feed. intros Hp. revert qs.
  induction Hp as [|p ps Hp Hps IH]; intros qs Hq; destruct Hq as [|q qs Hq Hqs]; cbn [map concat].
  - cbn. intros [= ->]. done.
  - rewrite (be_bytes_head 7) by exact Hq. done.
  - rewrite (be_bytes_head 7) by exact Hp. done.
  - rewrite <- !app_assoc. intros H. apply app_inj_1 in H as [H1 H]; [|by rewrite !length_be_bytes].
    apply be_bytes_inj in H1; [|unfold small in *; cbn; lia..].
    apply app_inj_1 in H as [-> H]; [|lia]. rewrite !app_assoc in H.
    apply IH in H as [-> ->]; [done|done].
Qed.

Lemma feeds_inj L M :
  Forall (Forall small) L -> Forall (Forall small) M -> concat (map feed L) = concat (map feed M) -> L = M.
Proof.
  assert (forall ps r, feed ps ++ r <> []) as Hne.
  { intros ps r E. unfold feed in E. rewrite <- app_assoc in E. by destruct (concat _). }
  intros HL. revert M. induction HL as [|ps L Hps HL IH]; intros M HM; destruct HM as [|qs M Hqs HM]; cbn; [done| | |].
  - intros E. by destruct (Hne qs (concat (map feed M))).
  - intros E. by destruct (Hne ps (concat (map feed L))).
  - intros E. apply feed_prefix_free in E as [-> E]; [|done|done]. f_equal. by apply IH.
Qed.

Lemma sort_bytes_perm a b : sort_bytes a = sort_bytes b -> a ≡ₚ b.
Proof.
  intros E. rewrite <- (sort_on_perm (fun b => map (fun c => zk (Z.of_N c)) b) a).
  fold (sort_bytes a). rewrite E. apply sort_on_perm.
Qed.

Lemma sort_bytes_small l : Forall small l -> Forall small (sort_bytes l).
Proof. intros H. unfold sort_bytes. by rewrite sort_on_perm. Qed.

(** Every part of the policy is shorter than 2^56 bytes. *)
Record policy_small (p : policy) : Prop := PolicySmall {
  ps_detectors : Forall small (po_detectors p);
  ps_code_safe : Forall small (po_code_safe p);
  ps_gazetteer : match po_gazetteer p with Some (a, b) => Forall small a /\ Forall small b | None => True end;
  ps_allowlist : match po_allowlist p with Some a => Forall small a | None => True end;
  ps_trigger : small (po_trigger p);
}.

Lemma policy_feeds_small p : policy_small p -> Forall (Forall small) (policy_feeds p).
Proof.
  intros [H1 H2 H3 H4 H5]. unfold policy_feeds.
  destruct (po_gazetteer p) as [[a b]|], (po_allowlist p) as [l|]; cbn;
    repeat (apply Forall_cons; split); try apply Forall_nil; try (by apply sort_bytes_small);
    try (by apply H3); repeat constructor; try done.
Qed.

(** the policy fingerprint's input determines the policy: two processes
    that hash the same bytes have the same detectors and code-safe detectors
    up to order, the same gazetteer terms and lemmatizers, the same allowlist
    up to order and the same oracle trigger. *)
Theorem policy_preimage_injective p q :
  policy_small p -> policy_small q -> policy_preimage p = policy_preimage q ->
  po_detectors p ≡ₚ po_detectors q /\ po_code_safe p ≡ₚ po_code_safe q /\
  po_gazetteer p = po_gazetteer q /\
  option_map sort_bytes (po_allowlist p) = option_map sort_bytes (po_allowlist q) /\
  po_trigger p = po_trigger q.
Proof.
  intros Hp Hq E. apply feeds_inj in E; [|by apply policy_feeds_small..].
  unfold policy_feeds in E. cbn [app] in E. injection E as E1 E2 E3.
  apply sort_bytes_perm in E1, E2.
  destruct (po_gazetteer p) as [[a b]|], (po_gazetteer q) as [[a' b']|],
    (po_allowlist p) as [l|], (po_allowlist q) as [l'|]; cbn in E3; try discriminate E3;
    injection E3; intros; subst; split_and!; cbn; try done; congruence.
Qed.

(** ** Theorems: the Cache A key *)

Lemma utf8_length_sep a b : length a = length b -> forall x y : list N, x ++ a = y ++ b -> x = y /\ a = b.
Proof. intros Hl x y E. by apply app_inj_2 in E. Qed.

(** with no profile and a policy fingerprint (a 64-character digest), the
    key of a team and its rules determines the encoded text, the oracle mode
    and the fingerprint. *)
Theorem content_key_determines_text team rs t1 t2 o1 o2 f1 f2 k b1 b2 :
  length f1 = 64%nat -> length f2 = 64%nat -> forallb is_ascii f1 = true -> forallb is_ascii f2 = true ->
  utf8_encode t1 = Some b1 -> utf8_encode t2 = Some b2 ->
  content_preimage team rs t1 None (Some o1) (Some f1) = Some k ->
  content_preimage team rs t2 None (Some o2) (Some f2) = Some k ->
  b1 = b2 /\ o1 = o2 /\ f1 = f2.
Proof.
  intros L1 L2 A1 A2 E1 E2. unfold content_preimage. rewrite E1, E2.
  destruct (utf8_encode team) as [tb|]; [|done]. destruct (rules_bytes rs) as [rb|]; [|done]. cbn [mbind option_bind].
  rewrite !utf8_encode_ascii by done. cbn [mbind option_bind app]. intros [= <-] E.
  injection E as E. apply app_inv_head in E. injection E as E. apply app_inv_head in E. injection E as E.
  apply app_inj_2 in E as [-> E]; [|destruct o1, o2; cbn; lia].
  destruct o1, o2; cbn in E; simplify_eq; done.
Qed.

(** the profile is not separated from the text. A text without a profile
    and a shorter text with a profile can have the same key, so that the first
    one's stored mapping is replayed for the second. *)
Theorem content_key_profile_collision team rs text profile oracle fp tb rb xb pb :
  utf8_encode team = Some tb -> rules_bytes rs = Some rb ->
  utf8_encode text = Some xb -> utf8_encode profile = Some pb ->
  content_hash team rs (text ++ [28%N] ++ profile) None oracle fp =
  content_hash team rs text (Some profile) oracle fp.
Proof.
  intros E1 E2 E3 E4. unfold content_hash. f_equal. unfold content_preimage. rewrite E1, E2, E3, E4.
  rewrite !utf8_encode_app, E3, E4. cbn [mbind option_bind utf8_encode mapM utf8_char N.ltb N.compare].
  destruct (match fp with None => _ | Some _ => _ end); cbn; [|done]. by rewrite <- !app_assoc.
Qed.

Section AllowlistFacts.
Context {U : Unicode}.

(** the allowlist never suppresses a secret: a pair whose placeholder
    carries a secret label is kept whatever is allowlisted; and what it drops
    is exactly the allowlisted originals without a secret label. *)
Theorem allowlist_keeps_secrets allowed pairs p :
  (p ∈ pairs -> is_secret p.2 = true -> p ∈ filter_pairs allowed pairs) /\
  (p ∈ filter_pairs allowed pairs <-> p ∈ pairs /\ (p.1 ∉ allowed \/ is_secret p.2 = true)).
Proof.
  assert (p ∈ filter_pairs allowed pairs <-> p ∈ pairs /\ (p.1 ∉ allowed \/ is_secret p.2 = true)) as H.
  { unfold filter_pairs. destruct allowed as [|a l]; [set_solver|].
    rewrite elem_of_lfilter, negb_true_iff, andb_false_iff,
      memb_false, negb_false_iff. done. }
  split; [|done]. intros Hp Hs. apply H. auto.
Qed.
End AllowlistFacts.

(** ** Witnesses *)

Definition demo_policy (ids : list (list N)) : policy :=
  Policy ids [u8 "regex"] None (Some [u8 "test@example.com"]) (u8 "gazetteer_hit").

Lemma demo_policy_small ids : Forall small ids -> policy_small (demo_policy ids).
Proof. intros H. split; cbn; [done|..]; repeat constructor. Qed.

Lemma policy_preimage_injective_witness :
  po_detectors (demo_policy [u8 "ner"; u8 "regex"]) ≡ₚ po_detectors (demo_policy [u8 "regex"; u8 "ner"]).
Proof.
  apply (policy_preimage_injective (demo_policy [u8 "ner"; u8 "regex"]) (demo_policy [u8 "regex"; u8 "ner"])).
  - apply demo_policy_small. repeat constructor.
  - apply demo_policy_small. repeat constructor.
  - vm_compute. reflexivity.
Defined.

Definition demo_fp : str := replicate 64 97%N.

Lemma content_key_determines_text_witness : u8 "hi" = u8 "hi" /\ true = true /\ demo_fp = demo_fp.
Proof.
  eapply (content_key_determines_text (u8 "team") [] (u8 "hi") (u8 "hi") true true demo_fp demo_fp);
    vm_compute; reflexivity.
Defined.

Lemma content_key_profile_collision_witness :
  content_hash (u8 "team") [] (u8 "mail a@b.ru" ++ [28%N] ++ u8 "ru-152fz") None (Some true) None =
  content_hash (u8 "team") [] (u8 "mail a@b.ru") (Some (u8 "ru-152fz")) (Some true) None.
Proof.
  eapply (content_key_profile_collision (u8 "team") [] (u8 "mail a@b.ru") (u8 "ru-152fz") (Some true) None);
    vm_compute; reflexivity.
Defined.

Lemma allowlist_keeps_secrets_witness :
  (u8 "hunter22", u8 "[PASSWORD_001]") ∈
  filter_pairs (U := ru_unicode) [u8 "hunter22"; u8 "a@b.ru"]
    [(u8 "a@b.ru", u8 "[EMAIL_001]"); (u8 "hunter22", u8 "[PASSWORD_001]")].
Proof.
  destruct (allowlist_keeps_secrets (U := ru_unicode) [u8 "hunter22"; u8 "a@b.ru"]
              [(u8 "a@b.ru", u8 "[EMAIL_001]"); (u8 "hunter22", u8 "[PASSWORD_001]")]
              (u8 "hunter22", u8 "[PASSWORD_001]")) as [H _].
  apply H.
  - apply memb_true. vm_compute. reflexivity.
  - vm_compute. reflexivity.
Defined.
