(* ===== verification/Allocator.v ===== *)
(** * The request placeholder allocator ([sanitizer/placeholder_allocator.py])

    [RequestPlaceholderAllocator] keeps, for one request, which original owns
    which placeholder.  [forbid] and [remap] are the two operations that change
    it; [run] executes any sequence of them. *)

From S2P Require Import Prelude Text Regex Placeholder.

(** ** State *)

Record alloc := Alloc {
  al_by_original : gmap str str;
  al_by_placeholder : gmap str str;
  al_forbidden : gset str;
  al_family_next : gmap str N;
  al_exempt_canonical : gmap str str;
}.

Definition alloc_init : alloc := Alloc ∅ ∅ ∅ ∅ ∅.

Section Allocator.
Context {U : Unicode}.

Definition FALLBACK_FAMILY : str := u8 "REDACTED".

(** [f"[{family}_{index:03d}]"] *)
Definition mint_label (family : str) (index : N) : str :=
  u8 "[" ++ family ++ u8 "_" ++ fmt03d index ++ u8 "]".

Definition forbid (labels : list str) (st : alloc) : alloc :=
  Alloc (al_by_original st) (al_by_placeholder st) (al_forbidden st ∪ list_to_set labels)
        (al_family_next st) (al_exempt_canonical st).

Definition is_taken (st : alloc) (label : str) : bool :=
  bool_decide (is_Some (al_by_placeholder st !! label)) || bool_decide (label ∈ al_forbidden st).

(** The [while] loop of [_mint]: the first index from [index] whose label is free. *)
Fixpoint mint_index (st : alloc) (family : str) (fuel : nat) (index : N) : N :=
  match fuel with
  | O => index
  | S fuel' => if is_taken st (mint_label family index)
               then mint_index st family fuel' (index + 1)%N else index
  end.

(** One round more than there are taken labels. *)
Definition mint_fuel (st : alloc) : nat :=
  S (size (al_by_placeholder st) + size (al_forbidden st)).

Definition mint_family (placeholder : str) : str :=
  match placeholder_family placeholder with
  | Some [] | None => FALLBACK_FAMILY
  | Some family => family
  end.

Definition mint (placeholder : str) (st : alloc) : str * alloc :=
  let family := mint_family placeholder in
  let start := default 1%N (al_family_next st !! family) in
  let index := mint_index st family (mint_fuel st) start in
  (mint_label family index,
   Alloc (al_by_original st) (al_by_placeholder st) (al_forbidden st)
         (<[family := (index + 1)%N]> (al_family_next st)) (al_exempt_canonical st)).

(** The last two lines of [_canonical]: record the claim. *)
Definition claim (original chosen : str) (st : alloc) : alloc :=
  Alloc (<[original := chosen]> (al_by_original st))
        (match al_by_placeholder st !! chosen with
         | Some _ => al_by_placeholder st
         | None => <[chosen := original]> (al_by_placeholder st)
         end)
        (al_forbidden st) (al_family_next st) (al_exempt_canonical st).

Definition set_exempt (placeholder chosen : str) (st : alloc) : alloc :=
  Alloc (al_by_original st) (al_by_placeholder st) (al_forbidden st) (al_family_next st)
        (<[placeholder := chosen]> (al_exempt_canonical st)).

(** The placeholder to use when it is free, a minted one otherwise. *)
Definition free_or_mint (placeholder : str) (st : alloc) : str * alloc :=
  if is_taken st placeholder then mint placeholder st else (placeholder, st).

Definition canonical (original placeholder : str) (exempt : bool) (st : alloc) : str * alloc :=
  match al_by_original st !! original with
  | Some existing => (existing, st)
  | None =>
    let '(chosen, st') :=
      if exempt then
        match al_exempt_canonical st !! placeholder with
        | Some chosen => (chosen, st)
        | None =>
          let '(chosen, st1) := free_or_mint placeholder st in
          (chosen, set_exempt placeholder chosen st1)
        end
      else free_or_mint placeholder st in
    (chosen, claim original chosen st')
  end.

Fixpoint remap (pairs : list pair) (exempt_from_bijection : list str) (st : alloc)
  : list pair * alloc :=
  match pairs with
  | [] => ([], st)
  | (original, placeholder) :: pairs' =>
    let '(chosen, st1) := canonical original placeholder (memb original exempt_from_bijection) st in
    let '(rest, st2) := remap pairs' exempt_from_bijection st1 in
    ((original, chosen) :: rest, st2)
  end.

(** ** Sequences of operations *)

Inductive alloc_op :=
| OpForbid (labels : list str)
| OpRemap (pairs : list pair) (exempt : list str).

Definition do_op (op : alloc_op) (st : alloc) : list pair * alloc :=
  match op with
  | OpForbid labels => ([], forbid labels st)
  | OpRemap pairs exempt => remap pairs exempt st
  end.

(** The pairs all operations return, in order, and the final state. *)
Fixpoint run (ops : list alloc_op) (st : alloc) : list pair * alloc :=
  match ops with
  | [] => ([], st)
  | op :: ops' =>
    let '(out1, st1) := do_op op st in
    let '(out2, st2) := run ops' st1 in
    (out1 ++ out2, st2)
  end.

Definition op_exempt (op : alloc_op) : list str :=
  match op with OpForbid _ => [] | OpRemap _ exempt => exempt end.

(** Originals some segment claimed through a rule. *)
Definition exempt_originals (ops : list alloc_op) : list str := concat (map op_exempt ops).
End Allocator.

(** ** Theorems *)

Section AllocatorFacts.
Context {U : Unicode}.

(** *** Minting terminates with a free label *)

Lemma is_taken_spec st label :
  is_taken st label = true <-> label ∈ dom (al_by_placeholder st) ∪ al_forbidden st.
Proof.
  unfold is_taken. rewrite orb_true_iff, !bool_decide_eq_true, elem_of_union, elem_of_dom. done.
Qed.

Lemma mint_label_inj family m n : mint_label family m = mint_label family n -> m = n.
Proof.
  unfold mint_label. intros H. apply app_inv_head in H. do 2 apply app_inv_head in H.
  apply app_inv_tail in H. by apply fmt03d_inj.
Qed.

Lemma mint_index_taken st family fuel index i :
  is_taken st (mint_label family (mint_index st family fuel index)) = true ->
  (i <= fuel)%nat -> is_taken st (mint_label family (index + N.of_nat i)) = true.
Proof.
  revert index i. induction fuel as [|fuel IH]; intros index i; cbn [mint_index]; intros H Hi.
  - replace (index + N.of_nat i)%N with index by lia. done.
  - destruct (is_taken st (mint_label family index)) eqn:E; [|congruence].
    destruct i as [|i]; [by rewrite N.add_0_r|].
    replace (index + N.of_nat (S i))%N with (index + 1 + N.of_nat i)%N by lia.
    apply IH; [done|lia].
Qed.

(** The loop's fuel is enough: more labels than there are taken ones are tried,
    and distinct indices give distinct labels. *)
Lemma mint_index_free st family index :
  is_taken st (mint_label family (mint_index st family (mint_fuel st) index)) = false.
Proof.
  apply not_true_iff_false. intros H.
  set (labels := map (fun i => mint_label family (index + N.of_nat i)) (seq 0 (mint_fuel st))).
  assert (NoDup labels) as Hnd.
  { apply NoDup_fmap_2_strong; [|apply NoDup_seq]. intros i j _ _ E%mint_label_inj. lia. }
  assert (list_to_set labels ⊆ dom (al_by_placeholder st) ∪ al_forbidden st) as Hsub.
  { intros l Hl%elem_of_list_to_set. unfold labels in Hl.
    apply list_elem_of_fmap in Hl as (i & -> & Hi%elem_of_seq).
    apply is_taken_spec. eapply mint_index_taken; [done|lia]. }
  apply subseteq_size in Hsub. rewrite size_list_to_set in Hsub by done.
  unfold labels in Hsub. rewrite length_fmap, length_seq, size_union_alt in Hsub.
  pose proof (subseteq_size (al_forbidden st ∖ dom (al_by_placeholder st)) (al_forbidden st)
                ltac:(set_solver)).
  rewrite size_dom in Hsub. unfold mint_fuel in *. lia.
Qed.

Lemma free_or_mint_spec placeholder st :
  let '(chosen, st') := free_or_mint placeholder st in
  is_taken st chosen = false /\
  al_by_original st' = al_by_original st /\ al_by_placeholder st' = al_by_placeholder st /\
  al_forbidden st' = al_forbidden st /\ al_exempt_canonical st' = al_exempt_canonical st.
Proof.
  unfold free_or_mint. destruct (is_taken st placeholder) eqn:E; [|done].
  cbn. split_and!; try done. apply mint_index_free.
Qed.

(** *** The allocator invariant *)

(** [X]: originals claimed through a rule; [F]: labels that were forbidden
    before anything was assigned. *)
Record alloc_inv (X : str -> Prop) (F : gset str) (st : alloc) : Prop := AllocInv {
  ai_owned : forall o p, al_by_original st !! o = Some p -> is_Some (al_by_placeholder st !! p);
  ai_first : forall o p, al_by_placeholder st !! p = Some o -> al_by_original st !! o = Some p;
  ai_share : forall o1 o2 p, al_by_original st !! o1 = Some p -> al_by_original st !! o2 = Some p ->
    o1 <> o2 -> X o1 /\ X o2;
  ai_exempt : forall t c, al_exempt_canonical st !! t = Some c ->
    is_Some (al_by_placeholder st !! c) /\ forall o, al_by_original st !! o = Some c -> X o;
  ai_forbidden : F ⊆ al_forbidden st;
  ai_avoid : forall o p, al_by_original st !! o = Some p -> p ∉ F;
}.

Lemma alloc_inv_init X F : alloc_inv X F (forbid (elements F) alloc_init).
Proof.
  split; cbn; try (intros *; by rewrite lookup_empty).
  intros x Hx. apply elem_of_union_r. by apply elem_of_list_to_set, elem_of_elements.
Qed.

Lemma inv_not_taken X F st p o :
  alloc_inv X F st -> is_taken st p = false -> al_by_original st !! o <> Some p.
Proof.
  intros Hi Ht Ho. apply not_true_iff_false in Ht. apply Ht, is_taken_spec, elem_of_union_l.
  apply elem_of_dom. by eapply ai_owned.
Qed.

Lemma claim_fresh_inv X F st st' original chosen :
  alloc_inv X F st -> al_by_original st !! original = None -> is_taken st chosen = false ->
  al_by_original st' = al_by_original st -> al_by_placeholder st' = al_by_placeholder st ->
  al_forbidden st' = al_forbidden st ->
  (forall t c, al_exempt_canonical st' !! t = Some c ->
     al_exempt_canonical st !! t = Some c \/ (c = chosen /\ X original)) ->
  alloc_inv X F (claim original chosen st').
Proof.
  intros Hi Hnone Ht E1 E2 E3 Hex.
  assert (al_by_placeholder st !! chosen = None) as Hfree.
  { apply eq_None_not_Some. intros ?. apply not_true_iff_false in Ht.
    apply Ht, is_taken_spec, elem_of_union_l. by apply elem_of_dom. }
  assert (chosen ∉ al_forbidden st) as Hnf.
  { intros ?. apply not_true_iff_false in Ht. apply Ht, is_taken_spec. by apply elem_of_union_r. }
  split; cbn; rewrite ?E1, ?E2, ?E3, ?Hfree.
  - intros o p. rewrite !lookup_insert. repeat case_decide; subst; intros; simplify_eq; eauto.
    by eapply ai_owned.
  - intros o p. rewrite !lookup_insert. repeat case_decide; subst; intros; simplify_eq; try done.
    + apply (ai_first _ _ _ Hi) in H0. congruence.
    + by apply (ai_first _ _ _ Hi).
  - intros o1 o2 p. rewrite !lookup_insert. repeat case_decide; subst; intros; simplify_eq; try done.
    + by destruct (inv_not_taken _ _ _ _ o2 Hi Ht).
    + by destruct (inv_not_taken _ _ _ _ o1 Hi Ht).
    + by eapply ai_share.
  - intros t c [Hc|[-> HX]]%Hex.
    + apply (ai_exempt _ _ _ Hi) in Hc as [Hs HX]. split.
      * rewrite lookup_insert. case_decide; [done|by apply Hs].
      * intros o. rewrite lookup_insert. case_decide; subst; intros; simplify_eq; [|by apply HX].
        destruct Hs; congruence.
    + split; [rewrite lookup_insert_eq; done|].
      intros o. rewrite lookup_insert. case_decide; subst; [done|].
      intros Ho. by destruct (inv_not_taken _ _ _ _ o Hi Ht).
  - by apply (ai_forbidden _ _ _ Hi).
  - intros o p. rewrite lookup_insert. case_decide; subst; intros; simplify_eq.
    + intros ?%(ai_forbidden _ _ _ Hi). done.
    + by eapply ai_avoid.
Qed.

Lemma claim_shared_inv X F st t original chosen :
  alloc_inv X F st -> al_by_original st !! original = None -> X original ->
  al_exempt_canonical st !! t = Some chosen ->
  alloc_inv X F (claim original chosen st).
Proof.
  intros Hi Hnone HX Hex. pose proof Hex as [[q Hq] HXc]%(ai_exempt _ _ _ Hi).
  assert (chosen ∉ F) as HnF.
  { eapply ai_avoid; [done|]. by apply (ai_first _ _ _ Hi). }
  split; cbn; rewrite ?Hq.
  - intros o p. rewrite lookup_insert. case_decide; subst; intros; simplify_eq; [by rewrite Hq|].
    by eapply ai_owned.
  - intros o p Hp%(ai_first _ _ _ Hi). rewrite lookup_insert. case_decide; subst; congruence.
  - intros o1 o2 p. rewrite !lookup_insert. repeat case_decide; subst; intros; simplify_eq; auto.
    by eapply ai_share.
  - intros t' c Hc%(ai_exempt _ _ _ Hi) . destruct Hc as [? Hc]. split; [done|].
    intros o. rewrite lookup_insert. case_decide; subst; intros; simplify_eq; auto.
  - apply Hi.
  - intros o p. rewrite lookup_insert. case_decide; subst; intros; simplify_eq; [done|].
    by eapply ai_avoid.
Qed.

Lemma canonical_inv X F st original placeholder exempt :
  alloc_inv X F st -> (exempt = true -> X original) ->
  alloc_inv X F (canonical original placeholder exempt st).2.
Proof.
  intros Hi HX. unfold canonical. destruct (al_by_original st !! original) eqn:E; [done|].
  pose proof (free_or_mint_spec placeholder st) as Hf. destruct exempt.
  - destruct (al_exempt_canonical st !! placeholder) eqn:Ex.
    + cbn. eapply claim_shared_inv; eauto.
    + destruct (free_or_mint placeholder st) as [chosen st1].
      destruct Hf as (Ht & E1 & E2 & E3 & E4). cbn.
      eapply (claim_fresh_inv X F st); eauto. cbn. intros t c. rewrite E4, lookup_insert.
      case_decide; intros; simplify_eq; eauto.
  - destruct (free_or_mint placeholder st) as [chosen st1].
    destruct Hf as (Ht & E1 & E2 & E3 & E4). cbn.
    eapply (claim_fresh_inv X F st); eauto. rewrite E4. eauto.
Qed.

(** *** Returned pairs *)

Lemma canonical_claims X F st original placeholder exempt :
  alloc_inv X F st ->
  let '(chosen, st') := canonical original placeholder exempt st in
  al_by_original st' !! original = Some chosen /\
  (forall o p, al_by_original st !! o = Some p -> al_by_original st' !! o = Some p) /\
  forall p, al_by_placeholder st' !! p =
    match al_by_placeholder st !! p with
    | Some o => Some o
    | None => if decide (p = chosen) then Some original else None
    end.
Proof.
  intros Hi. unfold canonical. destruct (al_by_original st !! original) as [existing|] eqn:E.
  { split_and!; [done|done|]. intros p. destruct (al_by_placeholder st !! p) eqn:Ep; [done|].
    case_decide; [|done]. subst. apply (ai_owned _ _ _ Hi) in E as [? ?]. congruence. }
  assert (forall st' chosen,
    al_by_original st' = al_by_original st -> al_by_placeholder st' = al_by_placeholder st ->
    al_by_original (claim original chosen st') !! original = Some chosen /\
    (forall o p, al_by_original st !! o = Some p ->
       al_by_original (claim original chosen st') !! o = Some p) /\
    forall p, al_by_placeholder (claim original chosen st') !! p =
      match al_by_placeholder st !! p with
      | Some o => Some o
      | None => if decide (p = chosen) then Some original else None
      end) as Hclaim.
  { intros st' chosen E1 E2. cbn. rewrite E1, E2. split_and!.
    - apply lookup_insert_eq.
    - intros o p Ho. rewrite lookup_insert. case_decide; subst; congruence.
    - intros p. destruct (al_by_placeholder st !! chosen) eqn:Ec.
      + destruct (al_by_placeholder st !! p) eqn:Ep; [done|]. case_decide; congruence.
      + rewrite lookup_insert. repeat case_decide; subst; rewrite ?Ec; try congruence.
        by destruct (al_by_placeholder st !! p). }
  pose proof (free_or_mint_spec placeholder st) as Hf. destruct exempt.
  - destruct (al_exempt_canonical st !! placeholder); [by apply Hclaim|].
    destruct (free_or_mint placeholder st) as [c st1]. destruct Hf as (_ & ? & ? & _).
    by apply Hclaim.
  - destruct (free_or_mint placeholder st) as [c st1]. destruct Hf as (_ & ? & ? & _).
    by apply Hclaim.
Qed.

(** What a step that returns [out] and leads from [st] to [st'] guarantees. *)
Record alloc_step (X : str -> Prop) (F : gset str) (st : alloc) (out : list pair) (st' : alloc)
  : Prop := AllocStep {
  as_inv : alloc_inv X F st';
  as_mono : forall o p, al_by_original st !! o = Some p -> al_by_original st' !! o = Some p;
  as_out : forall o p, (o, p) ∈ out -> al_by_original st' !! o = Some p;
  as_reverse : forall d, (forall p, dget p d = al_by_placeholder st !! p) ->
    forall p, dget p (foldl (fun d q => dsetdefault q.2 q.1 d) d out) = al_by_placeholder st' !! p;
}.

Lemma alloc_step_trans X F st1 out1 st2 out2 st3 :
  alloc_step X F st1 out1 st2 -> alloc_step X F st2 out2 st3 ->
  alloc_step X F st1 (out1 ++ out2) st3.
Proof.
  intros [I1 M1 O1 R1] [I2 M2 O2 R2]. split; [done|by auto| |].
  - intros o p [?|?]%elem_of_app; auto.
  - intros d Hd p. rewrite foldl_app. auto.
Qed.

Lemma canonical_step X F st original placeholder exempt :
  alloc_inv X F st -> (exempt = true -> X original) ->
  let '(chosen, st') := canonical original placeholder exempt st in
  alloc_step X F st [(original, chosen)] st'.
Proof.
  intros Hi HX. pose proof (canonical_inv X F st original placeholder exempt Hi HX) as Hi'.
  pose proof (canonical_claims X F st original placeholder exempt Hi) as Hc.
  destruct (canonical original placeholder exempt st) as [chosen st'].
  destruct Hc as (H1 & H2 & H3). split; [done|done| |].
  - intros o p Hop. apply list_elem_of_singleton in Hop. by injection Hop as -> ->.
  - intros d Hd p. cbn. rewrite dget_dsetdefault, Hd, H3. done.
Qed.

Lemma remap_step X F pairs exempt st :
  alloc_inv X F st -> (forall o, o ∈ exempt -> X o) ->
  alloc_step X F st (remap pairs exempt st).1 (remap pairs exempt st).2.
Proof.
  revert st. induction pairs as [|[o p] pairs IH]; intros st Hi HX; cbn.
  { split; [done|done|set_solver|done]. }
  assert (memb o exempt = true -> X o) as Ho by (rewrite memb_true; auto).
  pose proof (canonical_step X F st o p (memb o exempt) Hi Ho) as Hc.
  destruct (canonical o p (memb o exempt) st) as [chosen st1].
  specialize (IH st1 (as_inv _ _ _ _ _ Hc) HX).
  destruct (remap pairs exempt st1) as [rest st2].
  by apply (alloc_step_trans _ _ _ [(o, chosen)] st1).
Qed.

Lemma forbid_step X F labels st : alloc_inv X F st -> alloc_step X F st [] (forbid labels st).
Proof.
  intros [? ? ? ? Hf ?]. split; [split; cbn; try done|done|set_solver|done]. set_solver.
Qed.

Lemma run_step X F ops st :
  alloc_inv X F st -> (forall o, o ∈ exempt_originals ops -> X o) ->
  alloc_step X F st (run ops st).1 (run ops st).2.
Proof.
  revert st. induction ops as [|op ops IH]; intros st Hi HX; cbn.
  { split; [done|done|set_solver|done]. }
  assert (alloc_step X F st (do_op op st).1 (do_op op st).2) as H1.
  { destruct op as [labels|pairs exempt]; cbn; [by apply forbid_step|].
    apply remap_step; [done|]. intros o Ho. apply HX. unfold exempt_originals. cbn. set_solver. }
  destruct (do_op op st) as [out1 st1]. cbn in H1.
  assert (alloc_step X F st1 (run ops st1).1 (run ops st1).2) as H2.
  { apply IH; [apply H1|]. intros o Ho. apply HX. unfold exempt_originals in *. cbn. set_solver. }
  destruct (run ops st1) as [out2 st2]. cbn in *. by eapply alloc_step_trans.
Qed.

(** A whole request: the literals of the input are forbidden, then the
    segments are remapped. *)
Definition request (literals : list str) (ops : list alloc_op) : list pair * alloc :=
  run (OpForbid literals :: ops) alloc_init.

Lemma request_step literals ops :
  alloc_step (fun o => o ∈ exempt_originals ops) (list_to_set literals)
    (forbid literals alloc_init) (request literals ops).1 (request literals ops).2.
Proof.
  unfold request. cbn [run do_op].
  pose proof (run_step (fun o => o ∈ exempt_originals ops) (list_to_set literals) ops
                (forbid literals alloc_init)) as H.
  destruct (run ops (forbid literals alloc_init)) as [out st]. apply H; [|done].
  split; cbn; try (intros *; by rewrite lookup_empty). set_solver.
Qed.

(** across all segments of a request, one original always gets one
    placeholder, and two different originals share a placeholder only when both
    were claimed through [replace.md] rules. *)
Theorem alloc_bijection literals ops o1 o2 p1 p2 :
  let out := (request literals ops).1 in
  (o1, p1) ∈ out -> (o2, p2) ∈ out ->
  (o1 = o2 -> p1 = p2) /\
  (p1 = p2 -> o1 <> o2 -> o1 ∈ exempt_originals ops /\ o2 ∈ exempt_originals ops).
Proof.
  cbn. intros H1 H2. pose proof (request_step literals ops) as S.
  apply (as_out _ _ _ _ _ S) in H1, H2. split; [intros ->; congruence|].
  intros <- Hne. by eapply (ai_share _ _ _ (as_inv _ _ _ _ _ S)).
Qed.

(** a placeholder that occurs literally in the request input is never
    assigned to an original. *)
Theorem alloc_avoids_literals literals ops o p :
  (o, p) ∈ (request literals ops).1 -> p ∉ literals.
Proof.
  intros H. pose proof (request_step literals ops) as S.
  apply (as_out _ _ _ _ _ S), (ai_avoid _ _ _ (as_inv _ _ _ _ _ S)) in H.
  by rewrite elem_of_list_to_set in H.
Qed.

(** the reverse map that [build_reverse_substituter] makes from the pairs
    of a request agrees with the allocator's own [_by_placeholder]: both keep
    the first original that claimed a placeholder. *)
Theorem alloc_reverse_agrees literals ops p :
  let '(out, st) := request literals ops in
  dget p (by_placeholder_of out) = al_by_placeholder st !! p.
Proof.
  pose proof (request_step literals ops) as S.
  destruct (request literals ops) as [out st]. cbn in S.
  apply (as_reverse _ _ _ _ _ S). done.
Qed.

(** C39: the minting loop terminates with a label that is neither assigned nor
    forbidden, of the family of the requested placeholder, and it changes no
    assignment. *)
Theorem mint_fresh placeholder st :
  let '(label, st') := mint placeholder st in
  is_taken st label = false /\
  (exists index, label = mint_label (mint_family placeholder) index /\
     al_family_next st' !! mint_family placeholder = Some (index + 1)%N) /\
  al_by_original st' = al_by_original st /\ al_by_placeholder st' = al_by_placeholder st.
Proof.
  cbn. split_and!; [apply mint_index_free| |done|done].
  eexists. split; [done|]. apply lookup_insert_eq.
Qed.
End AllocatorFacts.

(** ** Witnesses *)

Definition demo_ops : list alloc_op :=
  [OpRemap [(u8 "a@b.ru", u8 "[EMAIL_001]"); (u8 "c@d.ru", u8 "[EMAIL_001]")] [];
   OpRemap [(u8 "Acme", u8 "[ORG_001]"); (u8 "ACME", u8 "[ORG_001]")] [u8 "Acme"; u8 "ACME"]].

Lemma alloc_bijection_witness :
  u8 "Acme" ∈ exempt_originals demo_ops /\ u8 "ACME" ∈ exempt_originals demo_ops.
Proof.
  apply (alloc_bijection (U := ru_unicode) [u8 "[EMAIL_001]"] demo_ops _ _ (u8 "[ORG_001]") (u8 "[ORG_001]"));
    [apply memb_true; vm_compute; reflexivity|apply memb_true; vm_compute; reflexivity|reflexivity|discriminate].
Defined.

Lemma alloc_avoids_literals_witness : memb (u8 "[EMAIL_002]") [u8 "[EMAIL_001]"] = false.
Proof.
  apply memb_false. apply (alloc_avoids_literals (U := ru_unicode) [u8 "[EMAIL_001]"] demo_ops (u8 "a@b.ru")).
  apply memb_true. vm_compute. reflexivity.
Defined.
