(* ===== verification/Planner.v ===== *)
(** * Replacement planning ([sanitizer/orchestrator.py], first half)

    Which spans of a text are replaced by which placeholder: the set of accepted
    spans [_NonOverlappingSpans], the literal matches of [replace.md] rules
    [_rule_matches], and [_plan_replacements], where rule matches and findings
    compete in one pool ordered by length. *)

From S2P Require Import Prelude Text Regex Placeholder Spans Rules.

(** ** [_NonOverlappingSpans] *)

(** The two parallel lists, kept sorted by start. *)
Record occupied := Occupied { oc_starts : list Z; oc_ends : list Z }.

Definition occ_empty : occupied := Occupied [] [].

(** [bisect.bisect_right(l, x)] on a sorted list: the length of the prefix of
    elements that are at most [x]. *)
Fixpoint bisect_right (l : list Z) (x : Z) : nat :=
  match l with
  | [] => 0%nat
  | y :: l' => if y <=? x then S (bisect_right l' x) else 0%nat
  end.

Definition list_insert {A} (i : nat) (x : A) (l : list A) : list A := take i l ++ x :: drop i l.

Definition occ_overlaps (o : occupied) (s e : Z) : bool :=
  let i := bisect_right (oc_starts o) s in
  if (0 <? i)%nat && (match oc_ends o !! (i - 1)%nat with Some x => s <? x | None => false end)
  then true
  else match oc_starts o !! i with Some y => y <? e | None => false end.

Definition occ_add (o : occupied) (s e : Z) : occupied :=
  let i := bisect_right (oc_starts o) s in
  Occupied (list_insert i s (oc_starts o)) (list_insert i e (oc_ends o)).

(** The selection loop of [_rule_matches] and [_plan_replacements]: take each
    candidate in turn unless it overlaps an accepted one. *)
Fixpoint select_go {A} (span : A -> Z * Z) (occ : occupied) (cands : list A) : list A :=
  match cands with
  | [] => []
  | c :: cands' =>
    let '(s, e) := span c in
    if occ_overlaps occ s e then select_go span occ cands'
    else c :: select_go span (occ_add occ s e) cands'
  end.

Definition select {A} (span : A -> Z * Z) (cands : list A) : list A :=
  select_go span occ_empty cands.

(** ** Rule matches *)

Record matched_rule := MatchedRule {
  mr_start : Z; mr_end : Z; mr_original : str; mr_replacement : str;
}.

Definition mr_span (m : matched_rule) : Z * Z := (mr_start m, mr_end m).

Definition enumerate {A} (l : list A) : list (nat * A) := zip (seq 0 (length l)) l.

Section Planner.
Context {U : Unicode}.

(** [_rule_pattern(rule.pattern).finditer(text)]: case-insensitive literal matches. *)
Definition rule_candidates (text : str) (r : rule) : list matched_rule :=
  map (fun '(s, e) => MatchedRule s e (slice text s e) (r_replacement r))
      (find_literal_ci (r_pattern r) text).

(** Longest configured pattern first, ties in configuration order. *)
Definition ordered_rules (rs : rules) : list rule :=
  map snd (sort_on (fun ir : nat * rule => [zk (- len (r_pattern ir.2)); zk (Z.of_nat ir.1)])
                   (enumerate rs)).

Definition rule_matches (rs : rules) (text : str) : list matched_rule :=
  sort_on (fun m => [zk (mr_start m)])
    (select mr_span (concat (map (rule_candidates text) (ordered_rules rs)))).

(** ** [_plan_replacements] *)

Record replacement_plan := Plan {
  pl_text : str;
  pl_pairs : list pair;
  pl_spans : list applied_span;
  pl_rule_originals : gset str;
}.

(** [unique_pairs]: first pair per non-empty original. *)
Fixpoint unique_pairs (seen : list str) (pairs : list pair) : list pair :=
  match pairs with
  | [] => []
  | (original, replacement) :: pairs' =>
    if str_eqb original [] || memb original seen then unique_pairs seen pairs'
    else (original, replacement) :: unique_pairs (original :: seen) pairs'
  end.

Definition pair_index (ups : list pair) (original : str) : nat :=
  match list_find (fun p : pair => p.1 = original) ups with Some (i, _) => i | None => 0%nat end.

(** The originals of rule matches whose pair is available. *)
Definition default_active (ups : list pair) (rms : list matched_rule) : gset str :=
  list_to_set (map mr_original
    (List.filter (fun m => memb (mr_original m, mr_replacement m) ups) rms)).

(** A candidate of the pool: the sort key [(-length, is_finding, start, pair_index)] and the span. *)
Record candidate := Cand {
  cd_span : applied_span; cd_finding : bool; cd_index : nat;
}.

Definition cd_range (c : candidate) : Z * Z := (sp_start (cd_span c), sp_end (cd_span c)).

Definition cand_key (c : candidate) : list Q :=
  let s := cd_span c in
  [zk (- (sp_end s - sp_start s)); zk (if cd_finding c then 1 else 0);
   zk (sp_start s); zk (Z.of_nat (cd_index c))].

Definition rule_pool (ups : list pair) (active : gset str) (rms : list matched_rule)
  : list candidate :=
  map (fun m => Cand (AppliedSpan (mr_start m) (mr_end m) (mr_original m)) false
                     (pair_index ups (mr_original m)))
      (List.filter (fun m => bool_decide (mr_original m ∈ active) && memb (mr_original m) (map fst ups)) rms).

Definition occurrences (text : str) (index : nat) (original : str) : list candidate :=
  map (fun '(s, e) => Cand (AppliedSpan s e original) true index) (find_literal original text).

Definition finding_pool (text : str) (ups : list pair) (active : gset str) : list candidate :=
  concat (map (fun ip : nat * pair =>
                 if bool_decide (ip.2.1 ∈ active) then []
                 else occurrences text ip.1 ip.2.1) (enumerate ups)).

Definition pool (text : str) (ups : list pair) (active : gset str) (rms : list matched_rule)
  : list candidate :=
  rule_pool ups active rms ++ finding_pool text ups active.

Definition chosen_spans (text : str) (ups : list pair) (active : gset str)
  (rms : list matched_rule) : list applied_span :=
  map cd_span (select cd_range (sort_on cand_key (pool text ups active rms))).

Definition plan_replacements (text : str) (pairs : list pair) (rms : list matched_rule)
  (active_rule_origins : option (gset str)) : result stale_span_error replacement_plan :=
  let ups := unique_pairs [] pairs in
  let active := match active_rule_origins with
                | Some a => a
                | None => default_active ups rms
                end in
  let spans := sort_on span_key (chosen_spans text ups active rms) in
  let used := map sp_original spans in
  let used_pairs := List.filter (fun p : pair => memb p.1 used) ups in
  match apply_spans text spans used_pairs with
  | Ok sanitized => Ok (Plan sanitized used_pairs spans (active ∩ list_to_set used))
  | Raise e => Raise e
  end.
End Planner.

(** ** Theorems: the span set *)

(** The abstraction of the two parallel lists: sorted, disjoint, non-empty ranges. *)
Record occ_ok (o : occupied) (l : list (Z * Z)) : Prop := OccOk {
  ok_starts : oc_starts o = map fst l;
  ok_ends : oc_ends o = map snd l;
  ok_sorted : StronglySorted (fun x y => x.2 <= y.1) l;
  ok_nonempty : Forall (fun x => x.1 < x.2) l;
}.

Lemma bisect_right_split l s :
  StronglySorted (fun x y : Z * Z => x.2 <= y.1) l -> Forall (fun x => x.1 < x.2) l ->
  exists l1 l2, l = l1 ++ l2 /\ bisect_right (map fst l) s = length l1 /\
    Forall (fun x => x.1 <= s) l1 /\ Forall (fun x => s < x.1) l2.
Proof.
  induction 1 as [|x l Hl IH Hx]; intros Hne; [by exists [], []|].
  apply Forall_cons in Hne as [Hx0 Hne]. cbn in Hx0 |- *. destruct (Z.leb_spec x.1 s).
  - destruct IH as (l1 & l2 & -> & Hb & H1 & H2); [done|].
    exists (x :: l1), l2. rewrite Hb. split_and!; try done. by constructor.
  - exists [], (x :: l). split_and!; try done. constructor; [done|].
    eapply Forall_impl; [exact Hx|]. cbn. lia.
Qed.

Lemma overlaps_left l1 s e :
  StronglySorted (fun x y : Z * Z => x.2 <= y.1) l1 -> Forall (fun x => x.1 <= s) l1 -> s < e ->
  existsb (ranges_overlap (s, e)) l1 = match last l1 with Some y => s <? y.2 | None => false end.
Proof.
  intros Hs Hle Hse. destruct l1 as [|y l1 _] using rev_ind; [done|].
  rewrite last_snoc, existsb_app. cbn. apply sorted_app_inv in Hs as (_ & _ & Hx).
  apply Forall_app in Hle as [Hle Hy]. rewrite Forall_singleton in Hy. cbn in Hy.
  rewrite existsb_none; [unfold ranges_overlap; cbn; lia|].
  rewrite Forall_forall in Hx |- *. intros z Hz%Hx. rewrite Forall_singleton in Hz. cbn in Hz.
  unfold ranges_overlap. cbn. lia.
Qed.

Lemma overlaps_right l2 s e :
  StronglySorted (fun x y : Z * Z => x.2 <= y.1) l2 -> Forall (fun x => x.1 < x.2) l2 ->
  Forall (fun x => s < x.1) l2 ->
  existsb (ranges_overlap (s, e)) l2 = match head l2 with Some y => y.1 <? e | None => false end.
Proof.
  intros Hs Hne Hlt. destruct l2 as [|y l2]; [done|]. cbn.
  inversion Hs as [|? ? Hs' Hy]; subst. apply Forall_cons in Hne as [? Hne], Hlt as [? Hlt]. cbn in *.
  unfold ranges_overlap at 1. cbn. replace (s <? y.2) with true by lia. cbn.
  destruct (Z.ltb_spec y.1 e); [done|]. cbn. apply existsb_none.
  eapply Forall_impl; [exact Hy|]. unfold ranges_overlap. cbn. lia.
Qed.

(** The bisection test agrees with the linear scan on non-empty candidates. *)
Lemma occ_overlaps_linear o l s e :
  occ_ok o l -> s < e -> occ_overlaps o s e = linear_overlaps l (s, e).
Proof.
  intros [E1 E2 Hs Hne] Hse. unfold occ_overlaps, linear_overlaps. rewrite E1, E2.
  destruct (bisect_right_split l s Hs Hne) as (l1 & l2 & -> & -> & H1 & H2).
  apply sorted_app_inv in Hs as (S1 & S2 & _). apply Forall_app in Hne as [N1 N2].
  rewrite existsb_app, (overlaps_left l1), (overlaps_right l2) by done.
  rewrite !list_lookup_fmap, (lookup_app_r l1 l2 (length l1)) by lia. rewrite Nat.sub_diag, <- head_lookup.
  destruct l1 as [|y l1 _] using rev_ind; cbn.
  { by destruct (head l2). }
  rewrite last_snoc, length_app. cbn [length]. rewrite Nat.add_1_r.
  rewrite lookup_app_l by (rewrite length_app; cbn; lia).
  rewrite lookup_app_r by lia. replace (S (length l1) - 1 - length l1)%nat with 0%nat by lia. cbn.
  destruct (s <? y.2); [done|]. by destruct (head l2).
Qed.

Lemma occ_add_ok o l s e :
  occ_ok o l -> s < e -> linear_overlaps l (s, e) = false ->
  exists l', occ_ok (occ_add o s e) l' /\ l' ≡ₚ (s, e) :: l.
Proof.
  intros [E1 E2 Hs Hne] Hse Hno. unfold occ_add. rewrite E1, E2.
  destruct (bisect_right_split l s Hs Hne) as (l1 & l2 & -> & -> & H1 & H2).
  unfold linear_overlaps in Hno. rewrite existsb_app in Hno. apply orb_false_iff in Hno as [No1 No2].
  apply sorted_app_inv in Hs as (S1 & S2 & S3). pose proof Hne as [N1 N2]%Forall_app.
  exists (l1 ++ (s, e) :: l2). split; [|by rewrite Permutation_middle].
  assert (forall (x : Z * Z) l, existsb (ranges_overlap x) l = false ->
            Forall (fun y => ranges_overlap x y = false) l) as Hall.
  { intros x l. induction l; cbn; [constructor|]. intros [? ?]%orb_false_iff. constructor; auto. }
  apply Hall in No1, No2. unfold ranges_overlap in No1, No2. cbn in No1, No2.
  split; cbn; unfold list_insert.
  - rewrite map_app, take_app_length', drop_app_length' by (by rewrite length_map). by rewrite map_app.
  - rewrite map_app, take_app_length', drop_app_length' by (by rewrite length_map). by rewrite map_app.
  - apply sorted_app_inv. split_and!; [done| |].
    + constructor; [done|]. rewrite Forall_forall in No2, H2, N2 |- *. intros y Hy. cbn.
      specialize (No2 y Hy). specialize (H2 y Hy). specialize (N2 y Hy). lia.
    + rewrite Forall_forall in S3, No1, H1 |- *. intros x Hx. constructor; [|by apply S3].
      cbn. specialize (No1 x Hx). specialize (H1 x Hx). cbn in H1. lia.
  - apply Forall_app. split; [done|]. by constructor.
Qed.

(** *** The selection loop *)

Section Select.
Context {A : Type} (span : A -> Z * Z).

Lemma select_go_ref o l cands :
  occ_ok o l -> Forall (nonempty_span span) cands -> select_go span o cands = select_ref span l cands.
Proof.
  revert o l. induction cands as [|c cands IH]; intros o l Ho Hne; cbn; [done|].
  apply Forall_cons in Hne as [Hc Hne]. unfold nonempty_span in Hc.
  destruct (span c) as [s e] eqn:E. cbn in Hc.
  rewrite (occ_overlaps_linear _ _ _ _ Ho) by done.
  destruct (linear_overlaps l (s, e)) eqn:Hl; [by apply IH|].
  destruct (occ_add_ok _ _ _ _ Ho Hc Hl) as (l' & Hok & Hp).
  f_equal. rewrite (IH _ _ Hok Hne). by apply select_ref_perm.
Qed.

(** The bisection structure selects exactly what the plain linear scan selects. *)
Lemma select_linear cands :
  Forall (nonempty_span span) cands -> select span cands = select_ref span [] cands.
Proof. intros H. apply select_go_ref; [|done]. split; try done; constructor. Qed.
End Select.

(** ** Theorems: rule matches *)

Section PlannerFacts.
Context {U : Unicode}.

(** A rule match in its text. *)
Record match_wf (text : str) (m : matched_rule) : Prop := MatchWf {
  mw_start : 0 <= mr_start m;
  mw_order : mr_start m < mr_end m;
  mw_end : mr_end m <= len text;
  mw_original : mr_original m = slice text (mr_start m) (mr_end m);
}.

Definition patterns_nonempty (rs : rules) : Prop := Forall (fun r => r_pattern r <> []) rs.

Lemma enumerate_snd {A} (l : list A) : map snd (enumerate l) = l.
Proof.
  unfold enumerate. generalize 0%nat. induction l as [|x l IH]; intros n; cbn; [done|].
  f_equal. apply (IH (S n)).
Qed.

Lemma ordered_rules_perm rs : ordered_rules rs ≡ₚ rs.
Proof. unfold ordered_rules. rewrite sort_on_perm. by rewrite enumerate_snd. Qed.

Lemma ordered_rules_sorted rs :
  StronglySorted (fun r1 r2 => len (r_pattern r2) <= len (r_pattern r1)) (ordered_rules rs).
Proof.
  unfold ordered_rules.
  induction (sort_on_sorted (fun ir : nat * rule => [zk (- len (r_pattern ir.2)); zk (Z.of_nat ir.1)])
               (enumerate rs)) as [|x l Hl IH Hx]; cbn; constructor; [done|].
  apply Forall_map. eapply Forall_impl; [exact Hx|]. cbn beta. intros y Hy.
  rewrite lex_leb_zk in Hy. destruct (Z.compare_spec (- len (r_pattern x.2)) (- len (r_pattern y.2))); lia || done.
Qed.

Lemma rule_candidates_wf text r m :
  r_pattern r <> [] -> m ∈ rule_candidates text r ->
  match_wf text m /\ mr_replacement m = r_replacement r /\
  mr_end m - mr_start m = len (r_pattern r) /\
  (mr_start m, mr_end m) ∈ find_literal_ci (r_pattern r) text.
Proof.
  intros Hr. unfold rule_candidates. rewrite list_elem_of_fmap.
  intros ([s e] & -> & Hse). pose proof Hse as (H1 & H2 & H3 & _)%literal_spans_sound; [|done].
  pose proof (len_pos _ Hr). split_and!; cbn; [split; cbn; [lia|lia|lia|done]|done|lia|done].
Qed.

Definition all_candidates (rs : rules) (text : str) : list matched_rule :=
  concat (map (rule_candidates text) (ordered_rules rs)).

Lemma all_candidates_elem rs text m :
  m ∈ all_candidates rs text <-> exists r, r ∈ rs /\ m ∈ rule_candidates text r.
Proof.
  unfold all_candidates. rewrite list_elem_of_In, in_concat. split.
  - intros (l & Hl & Hm). apply list_elem_of_In, list_elem_of_fmap in Hl as (r & -> & Hr).
    exists r. rewrite (ordered_rules_perm rs) in Hr. split; [done|by apply list_elem_of_In].
  - intros (r & Hr & Hm). exists (rule_candidates text r). rewrite <- !list_elem_of_In. split; [|done].
    apply list_elem_of_fmap. exists r. by rewrite ordered_rules_perm.
Qed.

Lemma all_candidates_wf rs text m :
  patterns_nonempty rs -> m ∈ all_candidates rs text -> match_wf text m.
Proof.
  intros Hne (r & Hr & Hm)%all_candidates_elem. unfold patterns_nonempty in Hne.
  rewrite Forall_forall in Hne. by apply (rule_candidates_wf text r m (Hne r Hr)).
Qed.

Lemma all_candidates_sorted rs text :
  patterns_nonempty rs ->
  StronglySorted (fun x y => mr_end y - mr_start y <= mr_end x - mr_start x) (all_candidates rs text).
Proof.
  intros Hne. unfold all_candidates.
  assert (Forall (fun r => r_pattern r <> []) (ordered_rules rs)) as Ho
    by (by rewrite ordered_rules_perm).
  induction (ordered_rules_sorted rs) as [|r l Hl IH Hr]; cbn; [constructor|].
  apply Forall_cons in Ho as [Hr0 Ho]. apply sorted_app_inv. split_and!; [|auto|].
  - assert (forall m, m ∈ rule_candidates text r -> mr_end m - mr_start m = len (r_pattern r)) as Hlen
      by (intros m Hm; by apply (rule_candidates_wf text r m Hr0)).
    induction (rule_candidates text r) as [|m k IHk]; constructor; [apply IHk; set_solver|].
    apply Forall_forall. intros m' Hm'. rewrite (Hlen m), (Hlen m') by set_solver. lia.
  - apply Forall_forall. intros m Hm. apply Forall_forall. intros m' Hm'.
    apply list_elem_of_In, in_concat in Hm' as (c & Hc & Hm').
    apply list_elem_of_In, list_elem_of_fmap in Hc as (r' & -> & Hr').
    apply list_elem_of_In in Hm'. rewrite Forall_forall in Hr, Ho.
    destruct (rule_candidates_wf text r m Hr0 Hm) as (_ & _ & -> & _).
    destruct (rule_candidates_wf text r' m' (Ho r' Hr') Hm') as (_ & _ & -> & _). by apply Hr.
Qed.

Lemma candidates_nonempty rs text :
  patterns_nonempty rs -> Forall (nonempty_span mr_span) (all_candidates rs text).
Proof. intros Hne. apply Forall_forall. intros m Hm%all_candidates_wf; [apply Hm|done]. Qed.

Lemma rule_matches_wf rs text m :
  patterns_nonempty rs -> m ∈ rule_matches rs text -> match_wf text m.
Proof.
  intros Hne. unfold rule_matches. rewrite elem_of_sort_on.
  change (concat _) with (all_candidates rs text).
  rewrite select_linear by by apply candidates_nonempty.
  intros Hm%select_ref_elem. by eapply all_candidates_wf.
Qed.

(** the rule matches of a text are in range, follow each other without
    overlap, and carry the matched substring; and every case-insensitive
    occurrence the engine reports for any rule overlaps a selected match at
    least as long, so no rule term is passed over. *)
Theorem rule_matches_spec rs text :
  patterns_nonempty rs ->
  Forall (match_wf text) (rule_matches rs text) /\
  StronglySorted (fun x y => mr_end x <= mr_start y) (rule_matches rs text) /\
  forall r a b, r ∈ rs -> (a, b) ∈ find_literal_ci (r_pattern r) text ->
  exists m, m ∈ rule_matches rs text /\ ranges_overlap (a, b) (mr_span m) = true /\
            b - a <= mr_end m - mr_start m.
Proof.
  intros Hne. split_and!.
  - apply Forall_forall. intros m. by apply rule_matches_wf.
  - unfold rule_matches. change (concat _) with (all_candidates rs text).
    rewrite select_linear by by apply candidates_nonempty.
    apply (sort_disjoint mr_span); [by eexists| |apply select_ref_disjoint].
    apply Forall_forall. intros m Hm%select_ref_elem. by eapply all_candidates_wf.
  - intros r a b Hr Hab.
    assert (MatchedRule a b (slice text a b) (r_replacement r) ∈ all_candidates rs text) as Hc.
    { apply all_candidates_elem. exists r. split; [done|]. apply list_elem_of_fmap. by exists (a, b). }
    pose proof (all_candidates_wf _ _ _ Hne Hc) as [_ Hlt _ _]. cbn in Hlt.
    destruct (select_ref_maximal mr_span [] _ _ _ (all_candidates_sorted rs text Hne) Hc)
      as [Hs|[(y & Hy & _)|(d & Hd & Ho & Hle)]]; [| set_solver |].
    + exists (MatchedRule a b (slice text a b) (r_replacement r)).
      split_and!; [|unfold ranges_overlap, mr_span; cbn; lia|done].
      unfold rule_matches. rewrite elem_of_sort_on. change (concat _) with (all_candidates rs text).
      by rewrite select_linear by by apply candidates_nonempty.
    + exists d. split_and!; [|done|done].
      unfold rule_matches. rewrite elem_of_sort_on. change (concat _) with (all_candidates rs text).
      by rewrite select_linear by by apply candidates_nonempty.
Qed.

(** ** Theorems: planning *)

Lemma unique_pairs_elem seen pairs o r :
  (o, r) ∈ unique_pairs seen pairs -> (o, r) ∈ pairs /\ o <> [] /\ o ∉ seen.
Proof.
  revert seen. induction pairs as [|[o' r'] pairs IH]; intros seen; cbn; [set_solver|].
  destruct (str_eqb o' [] || memb o' seen) eqn:E.
  - intros H%IH. set_solver.
  - apply orb_false_iff in E as [E1 E2]. apply str_eqb_neq in E1. apply memb_false in E2.
    intros [[= -> ->]|H]%elem_of_cons; [set_solver|]. apply IH in H. set_solver.
Qed.

Lemma unique_pairs_NoDup seen pairs : NoDup (map fst (unique_pairs seen pairs)).
Proof.
  revert seen. induction pairs as [|[o r] pairs IH]; intros seen; cbn; [constructor|].
  destruct (str_eqb o [] || memb o seen); [done|]. cbn. constructor; [|done].
  rewrite list_elem_of_fmap. intros ([o' r'] & -> & H). apply unique_pairs_elem in H. set_solver.
Qed.

Lemma unique_pairs_id seen l :
  NoDup (map fst l) -> (forall o r, (o, r) ∈ l -> o <> [] /\ o ∉ seen) -> unique_pairs seen l = l.
Proof.
  revert seen. induction l as [|[o r] l IH]; intros seen Hnd H; cbn in *; [done|].
  apply NoDup_cons in Hnd as [Ho Hnd]. destruct (H o r) as [H1 H2]; [set_solver|].
  rewrite (proj2 (str_eqb_neq o [])), (proj2 (memb_false o seen)) by done. cbn. f_equal.
  apply IH; [done|]. intros o' r' Hin. destruct (H o' r'); [set_solver|].
  split; [done|]. intros [->|?]%elem_of_cons; [|done].
  by apply (list_elem_of_fmap_2 fst) in Hin.
Qed.

(** A span of the plan in its text. *)
Record span_wf (text : str) (s : applied_span) : Prop := SpanWf {
  sw_start : 0 <= sp_start s;
  sw_order : sp_start s < sp_end s;
  sw_end : sp_end s <= len text;
  sw_original : slice text (sp_start s) (sp_end s) = sp_original s;
}.

Lemma rule_pool_elem ups active rms c :
  c ∈ rule_pool ups active rms ->
  exists m, m ∈ rms /\ c = Cand (AppliedSpan (mr_start m) (mr_end m) (mr_original m)) false
                                (pair_index ups (mr_original m)) /\ mr_original m ∈ map fst ups.
Proof.
  unfold rule_pool. intros (m & -> & Hm)%list_elem_of_fmap. exists m.
  apply elem_of_lfilter in Hm as [Hm [_ Hf]%andb_true_iff].
  by apply memb_true in Hf.
Qed.

Lemma enumerate_lookup {A} (l : list A) i x : (i, x) ∈ enumerate l -> l !! i = Some x.
Proof.
  unfold enumerate. intros H.
  assert (forall n, (i, x) ∈ zip (seq n (length l)) l -> (n <= i)%nat /\ l !! (i - n)%nat = Some x) as Hn.
  { clear H. induction l as [|y l IH]; intros n; cbn; [set_solver|].
    intros [[= -> ->]|H]%elem_of_cons; [split; [lia|by rewrite Nat.sub_diag]|].
    apply IH in H as [? ?]. split; [lia|].
    replace (i - n)%nat with (S (i - S n)) by lia. done. }
  apply (Hn 0%nat) in H as [_ H]. by rewrite Nat.sub_0_r in H.
Qed.

Lemma finding_pool_elem text ups active c :
  c ∈ finding_pool text ups active ->
  exists p, ups !! cd_index c = Some p /\ sp_original (cd_span c) = p.1 /\ cd_finding c = true.
Proof.
  unfold finding_pool. rewrite list_elem_of_In, in_concat. intros (l & Hl & Hc).
  apply list_elem_of_In, list_elem_of_fmap in Hl as ([i p] & -> & Hip). cbn in Hc.
  apply enumerate_lookup in Hip. case_bool_decide; [done|].
  unfold occurrences in Hc. apply in_map_iff in Hc as ([s e] & <- & _). cbn. eauto.
Qed.

(** Two candidates of one kind with the same original have the same pair index. *)
Lemma pool_index text ups active rms x y :
  NoDup (map fst ups) -> x ∈ pool text ups active rms -> y ∈ pool text ups active rms ->
  cd_finding x = cd_finding y -> sp_original (cd_span x) = sp_original (cd_span y) ->
  cd_index x = cd_index y.
Proof.
  intros Hnd Hx Hy Hf Ho. unfold pool in Hx, Hy.
  apply elem_of_app in Hx as [(m & _ & -> & _)%rule_pool_elem|(p & Hp & Ep & Fx)%finding_pool_elem];
  apply elem_of_app in Hy as [(m' & _ & -> & _)%rule_pool_elem|(q & Hq & Eq & Fy)%finding_pool_elem];
    cbn in *; try congruence.
  apply (NoDup_lookup (map fst ups) _ _ p.1 Hnd); rewrite list_lookup_fmap.
  - by rewrite Hp.
  - rewrite Hq. cbn. congruence.
Qed.

(** The pool without the indices: spans tagged rule or finding. *)
Definition strip (c : candidate) : applied_span * bool := (cd_span c, cd_finding c).

Definition rule_spans (ups : list pair) (active : gset str) (rms : list matched_rule)
  : list (applied_span * bool) :=
  map (fun m => (AppliedSpan (mr_start m) (mr_end m) (mr_original m), false))
      (List.filter (fun m => bool_decide (mr_original m ∈ active) && memb (mr_original m) (map fst ups)) rms).

Definition finding_spans (text : str) (active : gset str) (p : pair) : list (applied_span * bool) :=
  if bool_decide (p.1 ∈ active) then []
  else map (fun '(s, e) => (AppliedSpan s e p.1, true)) (find_literal p.1 text).

Definition span_pool (text : str) (ups : list pair) (active : gset str) (rms : list matched_rule)
  : list (applied_span * bool) :=
  rule_spans ups active rms ++ concat (map (finding_spans text active) ups).

Lemma strip_finding_pool text active n ups :
  map strip (concat (map (fun ip : nat * pair =>
     if bool_decide (ip.2.1 ∈ active) then [] else occurrences text ip.1 ip.2.1)
     (zip (seq n (length ups)) ups))) = concat (map (finding_spans text active) ups).
Proof.
  revert n. induction ups as [|p ups IH]; intros n; cbn; [done|].
  rewrite map_app, IH. f_equal. unfold finding_spans.
  case_bool_decide; [done|]. unfold occurrences. rewrite map_map. apply map_ext. by intros [s e].
Qed.

Lemma strip_pool text ups active rms :
  map strip (pool text ups active rms) = span_pool text ups active rms.
Proof.
  unfold pool, span_pool. rewrite map_app. f_equal; [|apply strip_finding_pool].
  unfold rule_pool. by rewrite map_map.
Qed.

Section Plan.
Context (text : str) (rms : list matched_rule).
Context (Hrms : Forall (match_wf text) rms).

Lemma span_pool_wf ups active sp b :
  (forall o r, (o, r) ∈ ups -> o <> []) -> (sp, b) ∈ span_pool text ups active rms ->
  span_wf text sp /\ sp_original sp ∈ map fst ups.
Proof using Hrms.
  intros Hne. unfold span_pool. intros [H|H]%elem_of_app.
  - unfold rule_spans in H. apply list_elem_of_fmap in H as (m & [= -> ->] & Hm).
    apply elem_of_lfilter in Hm as [Hm [_ Hf]%andb_true_iff].
    apply memb_true in Hf.
    rewrite Forall_forall in Hrms. destruct (Hrms m Hm). split; [by split|done].
  - apply list_elem_of_In, in_concat in H as (l & Hl & H).
    apply list_elem_of_In, list_elem_of_fmap in Hl as ([o r] & -> & Hp). apply list_elem_of_In in H.
    unfold finding_spans in H. case_bool_decide; [set_solver|]. cbn in H.
    apply list_elem_of_fmap in H as ([s e] & [= -> ->] & Hse). specialize (Hne o r Hp).
    apply literal_spans_sound in Hse as (H1 & -> & H3 & H4); [|done].
    pose proof (len_pos o Hne). split; [split; cbn; [lia|lia|lia|by apply prefix_eqb_slice]|].
    cbn. by apply (list_elem_of_fmap_2 fst) in Hp.
Qed.

Definition tag_key (c : applied_span * bool) : list Q :=
  [zk (- (sp_end c.1 - sp_start c.1)); zk (if c.2 then 1 else 0); zk (sp_start c.1)].

Definition tag_range (c : applied_span * bool) : Z * Z := (sp_start c.1, sp_end c.1).

(** Candidates that tie on the first three components are the same substring,
    so the pair index never decides. *)
Lemma cand_key_tag ups active x y :
  (forall o r, (o, r) ∈ ups -> o <> []) -> NoDup (map fst ups) ->
  x ∈ pool text ups active rms -> y ∈ pool text ups active rms ->
  lex_leb (tag_key (strip x)) (tag_key (strip y)) = lex_leb (cand_key x) (cand_key y).
Proof using Hrms.
  intros Hne Hnd Hx Hy.
  assert (forall c, c ∈ pool text ups active rms -> span_wf text (cd_span c)) as Hwf.
  { intros c Hc. apply (span_pool_wf ups active (cd_span c) (cd_finding c) Hne).
    rewrite <- strip_pool. apply list_elem_of_fmap. by exists c. }
  unfold tag_key, cand_key, strip. cbn [fst snd].
  rewrite !lex_leb_zk. destruct (Z.compare_spec (- (sp_end (cd_span x) - sp_start (cd_span x)))
    (- (sp_end (cd_span y) - sp_start (cd_span y)))) as [El|_|_]; [|done|done].
  destruct (Z.compare_spec (if cd_finding x then 1 else 0) (if cd_finding y then 1 else 0))
    as [Ef|_|_]; [|done|done].
  destruct (Z.compare_spec (sp_start (cd_span x)) (sp_start (cd_span y))) as [Es|_|_]; [|done|done].
  assert (cd_index x = cd_index y) as ->; [|by rewrite Z.compare_refl].
  apply (pool_index text ups active rms); [done|done|done|by destruct (cd_finding x), (cd_finding y)|].
  rewrite <- (sw_original _ _ (Hwf x Hx)), <- (sw_original _ _ (Hwf y Hy)).
  f_equal; lia.
Qed.

Lemma sort_pool ups active :
  (forall o r, (o, r) ∈ ups -> o <> []) -> NoDup (map fst ups) ->
  map strip (sort_on cand_key (pool text ups active rms)) =
  sort_on tag_key (span_pool text ups active rms).
Proof using Hrms.
  intros Hne Hnd. rewrite <- strip_pool. symmetry. apply py_sorted_fmap.
  intros x y Hx Hy. by eapply cand_key_tag.
Qed.

Lemma select_fmap {A B} (h : A -> B) (f : A -> Z * Z) (g : B -> Z * Z) occ l :
  (forall x, g (h x) = f x) -> map h (select_go f occ l) = select_go g occ (map h l).
Proof.
  intros H. revert occ. induction l as [|x l IH]; intros occ; cbn; [done|].
  rewrite H. destruct (f x) as [a b]. destruct (occ_overlaps occ a b); cbn; [done|]. by rewrite IH.
Qed.

(** The selection, stated on tagged spans with the linear overlap test. *)
Definition chosen (ups : list pair) (active : gset str) : list (applied_span * bool) :=
  select_ref tag_range [] (sort_on tag_key (span_pool text ups active rms)).

Lemma span_pool_nonempty ups active :
  (forall o r, (o, r) ∈ ups -> o <> []) ->
  Forall (nonempty_span tag_range) (sort_on tag_key (span_pool text ups active rms)).
Proof using Hrms.
  intros Hne. apply Forall_forall. intros [sp b] Hc. rewrite elem_of_sort_on in Hc.
  destruct (span_pool_wf _ _ _ _ Hne Hc) as [[] _]. done.
Qed.

Lemma chosen_spans_ref ups active :
  (forall o r, (o, r) ∈ ups -> o <> []) -> NoDup (map fst ups) ->
  chosen_spans text ups active rms = map fst (chosen ups active).
Proof using Hrms.
  intros Hne Hnd. unfold chosen_spans, chosen.
  rewrite <- select_linear by by apply span_pool_nonempty.
  rewrite <- sort_pool by done. unfold select.
  rewrite <- (select_fmap strip cd_range tag_range) by done. by rewrite map_map.
Qed.

Lemma chosen_wf ups active c :
  (forall o r, (o, r) ∈ ups -> o <> []) -> c ∈ chosen ups active ->
  span_wf text c.1 /\ sp_original c.1 ∈ map fst ups.
Proof using Hrms.
  intros Hne Hc%select_ref_elem. rewrite elem_of_sort_on in Hc. destruct c as [sp b].
  by eapply span_pool_wf.
Qed.

Definition span_range (s : applied_span) : Z * Z := (sp_start s, sp_end s).

Lemma chosen_sorted ups active :
  (forall o r, (o, r) ∈ ups -> o <> []) ->
  StronglySorted (fun x y => sp_end x <= sp_start y)
    (sort_on span_key (map fst (chosen ups active))).
Proof using Hrms.
  intros Hne. apply (sort_disjoint span_range); [by eexists| |].
  - apply Forall_map, Forall_forall. intros c Hc. by destruct (chosen_wf _ _ _ Hne Hc) as [[] _].
  - pose proof (select_ref_disjoint tag_range [] (sort_on tag_key (span_pool text ups active rms))) as H.
    unfold chosen. induction H as [|x l Hl IH Hx]; cbn; constructor; [done|]. by apply Forall_map.
Qed.

(** A sorted list of well-formed spans whose originals have a replacement is an
    acceptable plan for [apply_spans]. *)
Lemma plan_ok_sorted d cursor l :
  StronglySorted (fun x y => sp_end x <= sp_start y) l ->
  Forall (span_wf text) l -> Forall (fun s => cursor <= sp_start s) l ->
  Forall (fun s => is_Some (dget (sp_original s) d)) l ->
  plan_ok text d cursor l.
Proof.
  intros Hs. revert cursor. induction Hs as [|[a b o] l Hl IH Hx]; intros cursor Hw Hc Hd; [constructor|].
  apply Forall_cons in Hw as [[] Hw], Hc as [? Hc], Hd as [[r Hr] Hd]. cbn in *.
  econstructor; eauto.
Qed.
End Plan.

(** *** The plan is never stale *)

Definition used_pairs (ups : list pair) (spans : list applied_span) : list pair :=
  List.filter (fun p : pair => memb p.1 (map sp_original spans)) ups.

Lemma used_pairs_elem ups spans p :
  p ∈ used_pairs ups spans <-> p ∈ ups /\ p.1 ∈ map sp_original spans.
Proof. unfold used_pairs. by rewrite elem_of_lfilter, memb_true. Qed.

Lemma used_pairs_NoDup ups spans : NoDup (map fst ups) -> NoDup (map fst (used_pairs ups spans)).
Proof.
  unfold used_pairs. induction ups as [|p ups IH]; cbn; [done|]. intros [Hp Hn]%NoDup_cons.
  destruct (memb p.1 _); cbn; [|auto]. constructor; [|auto].
  rewrite list_elem_of_fmap in Hp |- *. intros (q & Eq & Hq). apply Hp. exists q. split; [done|].
  by apply used_pairs_elem in Hq as [? _].
Qed.

Definition active_of (ups : list pair) (rms : list matched_rule) (a : option (gset str)) : gset str :=
  match a with Some a => a | None => default_active ups rms end.

Definition plan_spans (text : str) (ups : list pair) (active : gset str) (rms : list matched_rule)
  : list applied_span := sort_on span_key (chosen_spans text ups active rms).

Section PlanTotal.
Context (text : str) (rms : list matched_rule).
Context (Hrms : Forall (match_wf text) rms).
Context (pairs : list pair).
Abbreviation ups := (unique_pairs [] pairs).

Lemma ups_nonempty o r : (o, r) ∈ ups -> o <> [].
Proof. intros H%unique_pairs_elem. tauto. Qed.

Lemma plan_spans_wf active :
  Forall (span_wf text) (plan_spans text ups active rms) /\
  StronglySorted (fun x y => sp_end x <= sp_start y) (plan_spans text ups active rms) /\
  Forall (fun s => sp_original s ∈ map fst ups) (plan_spans text ups active rms).
Proof using Hrms.
  assert (Hne := ups_nonempty). pose proof (unique_pairs_NoDup [] pairs) as Hnd.
  unfold plan_spans. rewrite (chosen_spans_ref text rms) by done.
  split_and!; [| by apply chosen_sorted |];
    apply Forall_forall; intros s Hs; rewrite elem_of_sort_on in Hs;
    apply list_elem_of_fmap in Hs as (c & -> & Hc); by apply (chosen_wf text rms Hrms) in Hc as [? ?].
Qed.

Lemma plan_applies active :
  let spans := plan_spans text ups active rms in
  exists out, apply_spans text spans (used_pairs ups spans) = Ok out.
Proof using Hrms.
  destruct (plan_spans_wf active) as (Hw & Hs & Ho). cbn. set (spans := plan_spans _ _ _ _) in *.
  unfold apply_spans. apply apply_spans_go_iff.
  unfold spans at 2, plan_spans. rewrite sort_on_id by apply sort_on_sorted.
  fold (plan_spans text ups active rms). fold spans.
  apply plan_ok_sorted; [done|done| |].
  - eapply Forall_impl; [exact Hw|]. by intros ? [].
  - apply Forall_forall. intros s Hs'. rewrite Forall_forall in Ho. pose proof (Ho s Hs') as H.
    apply list_elem_of_fmap in H as ([o r] & E & H). cbn in E. exists r.
    rewrite E. apply (dget_setdefault_nodup fst snd _ (o, r)); [apply used_pairs_NoDup, unique_pairs_NoDup|].
    apply used_pairs_elem. split; [done|]. cbn. rewrite <- E. by apply list_elem_of_fmap_2.
Qed.

Lemma plan_shape active :
  exists out,
  let act := active_of ups rms active in
  let spans := plan_spans text ups act rms in
  apply_spans text spans (used_pairs ups spans) = Ok out /\
  plan_replacements text pairs rms active =
    Ok (Plan out (used_pairs ups spans) spans (act ∩ list_to_set (map sp_original spans))).
Proof using Hrms.
  destruct (plan_applies (active_of ups rms active)) as [out H]. exists out. cbn.
  split; [done|]. unfold plan_replacements. fold (active_of ups rms active).
  fold (plan_spans text ups (active_of ups rms active) rms).
  fold (used_pairs ups (plan_spans text ups (active_of ups rms active) rms)). by rewrite H.
Qed.
End PlanTotal.

(** *** Coverage *)

Lemma tag_key_longer x y :
  lex_leb (tag_key x) (tag_key y) = true ->
  (tag_range y).2 - (tag_range y).1 <= (tag_range x).2 - (tag_range x).1.
Proof.
  unfold tag_key, tag_range. rewrite lex_leb_zk. cbn.
  destruct (Z.compare_spec (- (sp_end x.1 - sp_start x.1)) (- (sp_end y.1 - sp_start y.1)));
    [lia|lia|done].
Qed.

Lemma plan_spans_cover text pairs rms active c :
  Forall (match_wf text) rms -> c ∈ span_pool text (unique_pairs [] pairs) active rms ->
  exists s, s ∈ plan_spans text (unique_pairs [] pairs) active rms /\
    ranges_overlap (tag_range c) (sp_start s, sp_end s) = true /\
    sp_end c.1 - sp_start c.1 <= sp_end s - sp_start s.
Proof.
  intros Hrms Hc. assert (Hne := ups_nonempty pairs). set (ups := unique_pairs [] pairs) in *.
  pose proof Hc as Hw. destruct c as [sp b]. apply (span_pool_wf text rms Hrms ups active) in Hw as [[] _]; [|done].
  rewrite <- (elem_of_sort_on tag_key) in Hc. cbn [fst].
  unfold plan_spans. setoid_rewrite elem_of_sort_on.
  rewrite (chosen_spans_ref text rms Hrms ups) by (try done; apply unique_pairs_NoDup). unfold chosen.
  destruct (select_ref_maximal tag_range [] _ _ _ (sort_on_sorted tag_key _) Hc)
    as [H|[(y & Hy & _)|(d & Hd & Ho & Hle)]]; [|set_solver|].
  - exists sp. split_and!; [by apply (list_elem_of_fmap_2 fst) in H| |lia].
    unfold ranges_overlap, tag_range. cbn. lia.
  - exists d.1. split_and!; [by apply list_elem_of_fmap_2|done|].
    by apply tag_key_longer in Hle.
Qed.

Lemma unique_pairs_keeps pairs seen o r :
  (o, r) ∈ pairs -> o <> [] -> o ∉ seen -> o ∈ map fst (unique_pairs seen pairs).
Proof.
  revert seen. induction pairs as [|[o' r'] pairs IH]; intros seen; [set_solver|]. cbn.
  intros H Ho Hs. destruct (str_eqb o' [] || memb o' seen) eqn:E.
  - apply IH; [|done|done]. apply elem_of_cons in H as [[= <- <-]|H]; [|done].
    apply orb_true_iff in E as [E|E]; [by apply str_eqb_eq in E|by apply memb_true in E].
  - cbn. destruct (decide (o = o')) as [->|Hne]; [set_solver|].
    apply elem_of_cons; right. apply IH; [|done|set_solver].
    apply elem_of_cons in H as [[= -> ->]|H]; done.
Qed.

(** The first pair of an original decides. *)
Lemma unique_pairs_first l1 l2 seen o : o ∈ map fst l1 -> o <> [] -> o ∉ seen ->
  exists r, (o, r) ∈ l1 /\ (o, r) ∈ unique_pairs seen (l1 ++ l2).
Proof.
  revert seen. induction l1 as [|[o' r'] l1 IH]; intros seen Ho Hne Hs; cbn in *; [set_solver|].
  destruct (decide (o = o')) as [<-|Hoo].
  - exists r'. rewrite (proj2 (str_eqb_neq o [])), (proj2 (memb_false o seen)) by done. cbn. split; by left.
  - apply elem_of_cons in Ho as [->|Ho]; [done|]. destruct (str_eqb o' [] || memb o' seen).
    + destruct (IH seen Ho Hne Hs) as (r & H1 & H2). exists r. split; [by right|done].
    + destruct (IH (o' :: seen) Ho Hne) as (r & H1 & H2); [set_solver|]. exists r. split; by right.
Qed.

(** *** Replay *)

Section Replay.
Context (text : str) (rms : list matched_rule) (ups : list pair) (used : list str).
Abbreviation kept := (List.filter (fun p : pair => memb p.1 used) ups).

Lemma kept_elem p : p ∈ kept <-> p ∈ ups /\ p.1 ∈ used.
Proof. by rewrite elem_of_lfilter, memb_true. Qed.

Lemma default_active_elem l o :
  o ∈ default_active l rms <-> exists m, m ∈ rms /\ mr_original m = o /\ (o, mr_replacement m) ∈ l.
Proof.
  unfold default_active. rewrite elem_of_list_to_set, list_elem_of_fmap. split.
  - intros (m & -> & H). apply elem_of_lfilter in H as [H Hm].
    apply memb_true in Hm. eauto.
  - intros (m & Hm & <- & H). exists m. split; [done|].
    by rewrite elem_of_lfilter, memb_true.
Qed.

Lemma default_active_kept o :
  o ∈ default_active kept rms <-> o ∈ default_active ups rms /\ o ∈ used.
Proof. rewrite !default_active_elem. setoid_rewrite kept_elem. cbn. naive_solver. Qed.

Lemma span_pool_kept :
  span_pool text kept (default_active kept rms) rms =
  List.filter (fun c => memb (sp_original c.1) used) (span_pool text ups (default_active ups rms) rms).
Proof.
  unfold span_pool. rewrite List.filter_app. f_equal.
  - unfold rule_spans. rewrite filter_map_swap. cbn. f_equal. rewrite filter_filter_and.
    apply List.filter_ext. intros m.
    apply eq_true_iff_eq. rewrite !andb_true_iff, !bool_decide_eq_true, !memb_true, default_active_kept.
    rewrite !list_elem_of_fmap. setoid_rewrite kept_elem. split.
    + intros [[? ?] (p & E & ? & ?)]. split; [split; [done|by exists p]|done].
    + intros [[? (p & E & ?)] ?]. split; [done|]. exists p. by rewrite <- E.
  - generalize (default_active_kept). generalize (default_active ups rms), (default_active kept rms).
    intros A B HAB. induction ups as [|p l IH]; cbn; [done|]. rewrite List.filter_app, <- IH.
    destruct (memb p.1 used) eqn:E; cbn.
    + f_equal. unfold finding_spans. apply memb_true in E.
      rewrite (bool_decide_ext (p.1 ∈ B) (p.1 ∈ A)) by (rewrite HAB; tauto).
      case_bool_decide; [done|]. rewrite filter_map_swap. symmetry. f_equal. apply filter_all_true.
      intros [s e] _. cbn. by apply memb_true.
    + rewrite (filter_all_false _ (finding_spans text A p)); [done|].
      unfold finding_spans. case_bool_decide; [set_solver|]. intros c.
      rewrite list_elem_of_fmap. by intros ([s e] & -> & _).
Qed.
End Replay.

Lemma plan_spans_replay text rms pairs :
  Forall (match_wf text) rms ->
  let ups := unique_pairs [] pairs in
  let spans := plan_spans text ups (default_active ups rms) rms in
  let kept := used_pairs ups spans in
  plan_spans text kept (default_active kept rms) rms = spans.
Proof.
  intros Hrms ups spans kept. assert (Hne := ups_nonempty pairs). fold ups in Hne.
  pose proof (unique_pairs_NoDup [] pairs) as Hnd. fold ups in Hnd.
  assert (forall o r, (o, r) ∈ kept -> o <> []) as Hne'.
  { intros o r H. apply used_pairs_elem in H as [H _]. by eapply Hne. }
  unfold plan_spans. rewrite (chosen_spans_ref text rms Hrms kept) by (try done; by apply used_pairs_NoDup).
  unfold chosen, kept, used_pairs. rewrite span_pool_kept, <- sort_on_filter.
  rewrite select_ref_filter.
  - fold (chosen text rms ups (default_active ups rms)).
    by rewrite <- (chosen_spans_ref text rms Hrms ups).
  - intros c Hc. apply memb_true. unfold spans, plan_spans.
    rewrite (chosen_spans_ref text rms Hrms ups) by done.
    apply list_elem_of_fmap_2, elem_of_sort_on, list_elem_of_fmap_2. done.
Qed.

(** ** The properties of the planner *)

(** the bisection structure [_NonOverlappingSpans] selects exactly the
    candidates that a linear scan over all accepted spans selects; the selected
    ones are pairwise disjoint, and each candidate passed over overlaps a
    selected one that comes before it in the candidate order. *)
Theorem non_overlapping_spans_select {A} (span : A -> Z * Z) (R : A -> A -> Prop) cands :
  Forall (nonempty_span span) cands -> StronglySorted R cands ->
  select span cands = select_ref span [] cands /\
  StronglySorted (disjoint_spans span) (select span cands) /\
  forall c, c ∈ cands ->
    c ∈ select span cands \/
    exists d, d ∈ select span cands /\ ranges_overlap (span c) (span d) = true /\ R d c.
Proof.
  intros Hne HR. rewrite !select_linear by done.
  split_and!; [done|apply select_ref_disjoint|].
  intros c Hc. destruct (select_ref_maximal span [] cands R c HR Hc) as [?|[(y & Hy & _)|?]]; auto.
  set_solver.
Qed.

Lemma rule_matches_all_wf rs text : patterns_nonempty rs -> Forall (match_wf text) (rule_matches rs text).
Proof. intros Hne. apply Forall_forall. intros m. by apply rule_matches_wf. Qed.

(** Every occurrence of the original of a pair that no rule owns touches a
    replaced span at least as long. *)
Lemma plan_covers_finding text pairs rms active p o r a b :
  Forall (match_wf text) rms -> plan_replacements text pairs rms active = Ok p ->
  (o, r) ∈ pairs -> o <> [] -> o ∉ active_of (unique_pairs [] pairs) rms active ->
  (a, b) ∈ find_literal o text ->
  exists s, s ∈ pl_spans p /\ ranges_overlap (a, b) (sp_start s, sp_end s) = true /\
            b - a <= sp_end s - sp_start s.
Proof.
  intros Hm Hp Ho Ho0 Hact Hab. destruct (plan_shape text _ Hm pairs active) as (out & _ & E).
  rewrite E in Hp. injection Hp as <-. cbn [pl_spans].
  apply (plan_spans_cover text pairs _ _ (AppliedSpan a b o, true) Hm).
  apply unique_pairs_keeps with (seen := []) in Ho; [|done|set_solver].
  apply list_elem_of_fmap in Ho as ([o' r'] & E' & Ho). cbn in E'. subst o'.
  unfold span_pool. apply elem_of_app; right. apply list_elem_of_In, in_concat.
  eexists. rewrite <- !list_elem_of_In. split; [by apply list_elem_of_fmap_2|].
  unfold finding_spans. cbn. rewrite bool_decide_false by done.
  apply list_elem_of_fmap. by exists (a, b).
Qed.

(** Every rule match whose original is active touches a replaced span at least as long. *)
Lemma plan_covers_rule text pairs rms p m :
  Forall (match_wf text) rms -> plan_replacements text pairs rms None = Ok p ->
  m ∈ rms -> mr_original m ∈ default_active (unique_pairs [] pairs) rms ->
  exists s, s ∈ pl_spans p /\ ranges_overlap (mr_span m) (sp_start s, sp_end s) = true /\
            mr_end m - mr_start m <= sp_end s - sp_start s.
Proof.
  intros Hm Hp Hin Hact. destruct (plan_shape text _ Hm pairs None) as (out & _ & E).
  rewrite E in Hp. injection Hp as <-. cbn [pl_spans active_of].
  apply (plan_spans_cover text pairs _ _ (AppliedSpan (mr_start m) (mr_end m) (mr_original m), false) Hm).
  unfold span_pool. apply elem_of_app; left. unfold rule_spans. apply list_elem_of_fmap. exists m.
  split; [done|]. apply elem_of_lfilter. split; [done|].
  rewrite andb_true_iff, bool_decide_eq_true, memb_true. split; [done|].
  apply default_active_elem in Hact as (m' & _ & _ & Hpair). by apply (list_elem_of_fmap_2 fst) in Hpair.
Qed.

(** planning on the rule matches of the text never raises
    [StaleSpanError]: the spans it selects are in range, follow each other
    without overlap, carry the substring they cover and have a replacement; the
    pairs of the plan are exactly the first pairs of [pairs] with a selected
    span. *)
Theorem plan_never_stale rs text pairs active :
  patterns_nonempty rs ->
  exists p, plan_replacements text pairs (rule_matches rs text) active = Ok p /\
    Forall (span_wf text) (pl_spans p) /\
    StronglySorted (fun x y => sp_end x <= sp_start y) (pl_spans p) /\
    (forall s, s ∈ pl_spans p -> exists r, (sp_original s, r) ∈ pl_pairs p) /\
    (forall o r, (o, r) ∈ pl_pairs p <->
       (o, r) ∈ unique_pairs [] pairs /\ exists s, s ∈ pl_spans p /\ sp_original s = o).
Proof.
  intros Hne. pose proof (rule_matches_all_wf rs text Hne) as Hm.
  destruct (plan_shape text _ Hm pairs active) as (out & _ & ->).
  destruct (plan_spans_wf text _ Hm pairs (active_of (unique_pairs [] pairs) (rule_matches rs text) active))
    as (H1 & H2 & H3).
  eexists. split_and!; [done|done|done| |]; cbn.
  - intros s Hs. rewrite Forall_forall in H3. pose proof (H3 s Hs) as H.
    apply list_elem_of_fmap in H as ([o r] & E & H). exists r. apply used_pairs_elem.
    cbn in *. rewrite E. split; [done|]. rewrite <- E. by apply list_elem_of_fmap_2.
  - intros o r. rewrite used_pairs_elem, list_elem_of_fmap. naive_solver.
Qed.

(** no detected value is passed over. Every occurrence that the engine
    reports of a finding (the original of a pair that no rule owns), and every
    rule match whose pair is available, overlaps a replaced span at least as
    long: it is replaced, or a longer or equal one that touches it is. *)
Theorem plan_covers rs text pairs p :
  patterns_nonempty rs ->
  plan_replacements text pairs (rule_matches rs text) None = Ok p ->
  (forall o r a b, (o, r) ∈ pairs -> o <> [] ->
     o ∉ default_active (unique_pairs [] pairs) (rule_matches rs text) ->
     (a, b) ∈ find_literal o text ->
     exists s, s ∈ pl_spans p /\ ranges_overlap (a, b) (sp_start s, sp_end s) = true /\
               b - a <= sp_end s - sp_start s) /\
  (forall m, m ∈ rule_matches rs text -> (mr_original m, mr_replacement m) ∈ unique_pairs [] pairs ->
     exists s, s ∈ pl_spans p /\ ranges_overlap (mr_span m) (sp_start s, sp_end s) = true /\
               mr_end m - mr_start m <= sp_end s - sp_start s).
Proof.
  intros Hne Hp. pose proof (rule_matches_all_wf rs text Hne) as Hm. split.
  - intros o r a b Ho Ho0 Hact Hab. by eapply plan_covers_finding.
  - intros m Hin Hpair. apply (plan_covers_rule text pairs _ p m Hm Hp Hin), default_active_elem. by exists m.
Qed.

(** Planning again with only the pairs the first plan used gives the same
    plan, text, spans and rule originals included. *)
Lemma plan_replay rs text pairs p :
  patterns_nonempty rs ->
  plan_replacements text pairs (rule_matches rs text) None = Ok p ->
  plan_replacements text (pl_pairs p) (rule_matches rs text) None = Ok p.
Proof.
  intros Hne Hp. pose proof (rule_matches_all_wf rs text Hne) as Hm.
  destruct (plan_shape text _ Hm pairs None) as (out & Ho & E). rewrite E in Hp.
  injection Hp as <-. cbn [pl_pairs active_of] in *.
  set (rms := rule_matches rs text) in *. set (ups := unique_pairs [] pairs) in *.
  set (spans := plan_spans text ups (default_active ups rms) rms) in *.
  set (kept := used_pairs ups spans) in *.
  assert (unique_pairs [] kept = kept) as Ek.
  { apply unique_pairs_id; [apply used_pairs_NoDup, unique_pairs_NoDup|].
    intros o r H. apply used_pairs_elem in H as [H _]. split; [by eapply ups_nonempty|set_solver]. }
  assert (plan_spans text kept (default_active kept rms) rms = spans) as Es
    by by apply plan_spans_replay.
  destruct (plan_shape text _ Hm kept None) as (out' & Ho' & ->). cbn [active_of] in *.
  rewrite Ek, Es in *.
  assert (used_pairs kept spans = kept) as Eu.
  { unfold kept, used_pairs. rewrite filter_filter_and. apply List.filter_ext. intros q. by rewrite andb_diag. }
  rewrite Eu in *. rewrite Ho in Ho'. injection Ho' as <-. do 2 f_equal.
  apply set_eq. intros o. rewrite !elem_of_intersection, !elem_of_list_to_set.
  unfold kept, used_pairs. rewrite default_active_kept. tauto.
Qed.
End PlannerFacts.

(** ** Witnesses *)

Definition demo_rules : rules := [Rule (u8 "acme") (u8 "[ORG_001]"); Rule (u8 "acme bank") (u8 "[ORG_002]")].
Definition plan_text : str := u8 "ACME bank, a@acme.ru".
Definition plan_pairs : list pair :=
  [(u8 "ACME bank", u8 "[ORG_002]"); (u8 "acme", u8 "[ORG_001]"); (u8 "a@acme.ru", u8 "[EMAIL_001]")].

Lemma demo_rules_nonempty : patterns_nonempty demo_rules.
Proof. repeat constructor; discriminate. Qed.

Lemma non_overlapping_spans_select_witness :
  select mr_span (rule_matches (U := ru_unicode) demo_rules plan_text) =
  select_ref mr_span [] (rule_matches (U := ru_unicode) demo_rules plan_text).
Proof.
  apply (non_overlapping_spans_select mr_span (fun x y => mr_start x <= mr_start y)
           (rule_matches (U := ru_unicode) demo_rules plan_text)).
  - vm_compute. repeat constructor.
  - vm_compute. repeat constructor; discriminate.
Defined.

Lemma rule_matches_spec_witness :
  exists m, m ∈ rule_matches (U := ru_unicode) demo_rules plan_text /\
            ranges_overlap (0, 4) (mr_span m) = true /\ 4 - 0 <= mr_end m - mr_start m.
Proof.
  destruct (rule_matches_spec (U := ru_unicode) demo_rules plan_text demo_rules_nonempty) as (_ & _ & H).
  apply (H (Rule (u8 "acme") (u8 "[ORG_001]"))).
  - by left.
  - apply memb_true. vm_compute. reflexivity.
Defined.

Lemma plan_never_stale_witness :
  exists p, plan_replacements plan_text plan_pairs (rule_matches (U := ru_unicode) demo_rules plan_text) None = Ok p /\
            Forall (span_wf plan_text) (pl_spans p).
Proof.
  destruct (plan_never_stale (U := ru_unicode) demo_rules plan_text plan_pairs None demo_rules_nonempty)
    as (p & H & Hw & _).
  exists p. split; [exact H|exact Hw].
Defined.

Lemma plan_covers_witness :
  exists p, plan_replacements plan_text plan_pairs (rule_matches (U := ru_unicode) demo_rules plan_text) None = Ok p /\
  exists s, s ∈ pl_spans p /\ ranges_overlap (11, 20) (sp_start s, sp_end s) = true /\
            20 - 11 <= sp_end s - sp_start s.
Proof.
  eexists. split; [vm_compute; reflexivity|].
  edestruct (plan_covers (U := ru_unicode) demo_rules plan_text plan_pairs) as [H _];
    [exact demo_rules_nonempty|vm_compute; reflexivity|].
  apply (H (u8 "a@acme.ru") (u8 "[EMAIL_001]")).
  - apply memb_true. vm_compute. reflexivity.
  - discriminate.
  - apply (bool_decide_eq_false_1 _). vm_compute. reflexivity.
  - apply memb_true. vm_compute. reflexivity.
Defined.
