(* ===== verification/Streaming.v ===== *)
(** * Streaming desanitization ([sanitizer/streaming.py])

    [StreamingDesanitizer] puts originals back into text that arrives in
    chunks; [OpenAiToolCallDesanitizer] keeps one of them per tool call.  The
    theorems say that the cut of the chunks does not matter. *)

From S2P Require Import Prelude Text Json Regex Placeholder.
Local Open Scope py_scope.

(** ** [StreamingDesanitizer] *)

(** [RuntimeError("StreamingDesanitizer.feed called after flush")] *)
Inductive stream_error := FeedAfterFlush.

Record desanitizer := Desanitizer {
  ds_pairs : list pair;        (* what [_reverse] was built from *)
  ds_max_len : Z;
  ds_buffer : str;
  ds_flushed : bool;
  ds_left_context : str;
}.

(** [max((len(placeholder) for _, placeholder in pairs), default=0)] *)
Definition max_len (pairs : list pair) : Z := foldr Z.max 0 (map (fun p : pair => len p.2) pairs).

Definition escape_pairs (escape : option (str -> str)) (pairs : list pair) : list pair :=
  map (fun p : pair => (match escape with Some f => f p.1 | None => p.1 end, p.2)) pairs.

Definition desanitizer_init (pairs : list pair) (escape : option (str -> str)) : desanitizer :=
  Desanitizer (escape_pairs escape pairs) (max_len pairs) [] false [].

Section Streaming.
Context {U : Unicode}.

Definition replace_all (d : desanitizer) (text : str) (final : bool) : str :=
  let prefix_len := len (ds_left_context d) in
  let result := reverse_text (ds_pairs d) final prefix_len (ds_left_context d ++ text) in
  slice result prefix_len (len result).

Definition feed (d : desanitizer) (chunk : str) : result stream_error (str * desanitizer) :=
  if ds_flushed d then Raise FeedAfterFlush else
  let buffer := replace_all d (ds_buffer d ++ chunk) false in
  let with_buffer b left := Desanitizer (ds_pairs d) (ds_max_len d) b false left in
  if ds_max_len d =? 0 then Ok (buffer, with_buffer [] (ds_left_context d)) else
  let hold := ds_max_len d in
  if len buffer <=? hold then Ok ([], with_buffer buffer (ds_left_context d)) else
  let safe := slice buffer 0 (len buffer - hold) in
  Ok (safe, with_buffer (slice buffer (len buffer - hold) (len buffer))
                        (slice safe (len safe - 1) (len safe))).

Definition flush (d : desanitizer) : str * desanitizer :=
  if ds_flushed d then ([], d) else
  (replace_all d (ds_buffer d) true,
   Desanitizer (ds_pairs d) (ds_max_len d) [] true (ds_left_context d)).

(** What a generator yields: only non-empty strings. *)
Definition yielded (s : str) : list str := if str_eqb s [] then [] else [s].

(** [stream]: everything the generator yields, and the state it leaves. *)
Fixpoint stream (d : desanitizer) (chunks : list str) : result stream_error (list str * desanitizer) :=
  match chunks with
  | [] => let '(tail, d') := flush d in Ok (yielded tail, d')
  | chunk :: chunks' =>
    let! fed := feed d chunk in
    let! rest := stream fed.2 chunks' in
    Ok (yielded fed.1 ++ rest.1, rest.2)
  end.
End Streaming.

(** ** [_json_string_escape] *)

(** One character inside a JSON string literal, as [json.dumps] writes it. *)
Definition json_escape_char (c : N) : str :=
  if (c =? 34)%N then u8 "\" ++ [34%N]
  else if (c =? 92)%N then u8 "\\"
  else if (c =? 10)%N then u8 "\n"
  else if (c =? 13)%N then u8 "\r"
  else if (c =? 9)%N then u8 "\t"
  else if (c =? 12)%N then u8 "\f"
  else if (c =? 8)%N then u8 "\b"
  else if (32 <=? c)%N && (c <=? 126)%N then [c]
  else if (c <? 65536)%N then u_escape c
  else u_escape (55296 + (c - 65536) / 1024)%N ++ u_escape (56320 + (c - 65536) mod 1024)%N.

Definition json_string_escape (s : str) : str := concat (map json_escape_char s).

(** ** [OpenAiToolCallDesanitizer] *)

Record tool_calls := ToolCalls {
  tc_mapping : list pair;
  tc_by_index : list (Z * desanitizer);
}.

Definition tool_calls_init (mapping : list pair) : tool_calls := ToolCalls mapping [].

Section ToolCalls.
Context {U : Unicode}.

Definition tc_feed (t : tool_calls) (index : Z) (fragment : str) : result stream_error (str * tool_calls) :=
  let ds := match dget index (tc_by_index t) with
            | Some ds => ds
            | None => desanitizer_init (tc_mapping t) (Some json_string_escape)
            end in
  let! fed := feed ds fragment in
  Ok (fed.1, ToolCalls (tc_mapping t) (dset index fed.2 (tc_by_index t))).

Definition tc_flush_index (t : tool_calls) (index : Z) : str * tool_calls :=
  match dget index (tc_by_index t) with
  | Some ds => ((flush ds).1, ToolCalls (tc_mapping t) (ddel index (tc_by_index t)))
  | None => ([], t)
  end.

Definition tc_flush (t : tool_calls) : list (Z * str) * tool_calls :=
  (concat (map (fun e : Z * desanitizer => map (fun s => (e.1, s)) (yielded (flush e.2).1)) (tc_by_index t)),
   ToolCalls (tc_mapping t) []).
End ToolCalls.

(** ** Theorems *)

(** *** Where a placeholder can appear *)

Lemma contains_app_l s t sub : contains (s ++ t) sub = false -> contains s sub = false.
Proof.
  rewrite <- !not_true_iff_false, !contains_iff. intros H (a & b & ->). apply H.
  exists a, (b ++ t). by rewrite <- !app_assoc.
Qed.

(** Text without a closing bracket adds no placeholder. *)
Lemma contains_app_open s t p :
  bracketed p -> (chr "]") ∉ t -> contains s p = false -> contains (s ++ t) p = false.
Proof.
  intros (body & -> & _) Ht. rewrite <- !not_true_iff_false, !contains_iff. intros Hs (a & b & H).
  apply Hs. rewrite app_assoc in H. apply app_eq_inv in H as [(y & -> & ->)|(y & Hy & ->)].
  - exists a, y. by rewrite <- !app_assoc.
  - destruct y as [|c y _] using rev_ind; [rewrite app_nil_r in Hy; exists a, []; by rewrite app_nil_r|].
    exfalso. apply Ht. rewrite !app_assoc in Hy. apply app_inj_tail in Hy as [_ <-]. set_solver.
Qed.

(** An unfinished placeholder has no closing bracket. *)
Lemma bracketed_prefix_open q pre rest :
  bracketed q -> q = pre ++ rest -> rest <> [] -> (chr "]") ∉ pre.
Proof.
  intros (body & -> & _ & Hb) H Hr. destruct rest as [|c rest _] using rev_ind; [done|].
  rewrite !app_assoc in H. apply app_inj_tail in H as [H _]. intros Hin.
  assert ((chr "]") ∈ [chr "["] ++ body) as Hin' by (rewrite H; set_solver).
  apply elem_of_app in Hin' as [Hin'|Hin']; [by apply list_elem_of_singleton in Hin'|done].
Qed.

Lemma max_len_bound pairs o p : (o, p) ∈ pairs -> len p <= max_len pairs.
Proof.
  unfold max_len. induction pairs as [|q pairs IH]; [set_solver|]. cbn.
  intros [<-|H]%elem_of_cons; cbn; [lia|]. apply IH in H. lia.
Qed.

Lemma max_len_escape escape pairs : max_len (escape_pairs escape pairs) = max_len pairs.
Proof. unfold max_len, escape_pairs. by rewrite map_map. Qed.

(** *** The stream of items *)

(** A piece of the stream of items that was cut at some character: whole
    items, then an unfinished placeholder. *)
Definition unfinished (pre : str) (todo : list item) : Prop :=
  pre = [] \/ exists o q todo' q', todo = Tok o q :: todo' /\ q = pre ++ q' /\ q' <> [].

Lemma cut_items todo w rest :
  w ++ rest = render [] todo ->
  exists items todo' pre, todo = items ++ todo' /\ w = render [] items ++ pre /\
    pre ++ rest = render [] todo' /\ unfinished pre todo'.
Proof.
  revert w. induction todo as [|i todo IH]; intros w H.
  { apply app_eq_nil in H as [-> ->]. exists [], [], []. unfold unfinished. auto. }
  change (render [] (i :: todo)) with (item_render [] i ++ render [] todo) in H.
  apply app_eq_inv in H as [(y & -> & H)|(y & Hy & H)].
  - symmetry in H. destruct (IH y H) as (items & todo' & pre & -> & -> & Hp & Hu).
    exists (i :: items), todo', pre. split_and!; [done| |done|done].
    change (render [] (i :: items)) with (item_render [] i ++ render [] items). by rewrite app_assoc.
  - destruct (decide (w = [])) as [->|Hw].
    + exists [], (i :: todo), []. split_and!; [done|done| |by left].
      change (render [] (i :: todo)) with (item_render [] i ++ render [] todo). by rewrite Hy, <- app_assoc.
    + destruct (decide (y = [])) as [->|Hyn].
      * rewrite app_nil_r in Hy. exists [i], todo, []. split_and!; [done| |done|by left].
        unfold render. cbn. by rewrite !app_nil_r.
      * exists [], (i :: todo), w. split_and!; [done|done| |].
        { change (render [] (i :: todo)) with (item_render [] i ++ render [] todo). by rewrite Hy, H, <- app_assoc. }
        right. destruct i as [c|o q]; cbn in Hy.
        { destruct w as [|a [|b w]]; [done| |done]. injection Hy as -> <-. done. }
        unfold memb in Hy. rewrite bool_decide_false in Hy by set_solver. eexists _, _, _, _. eauto.
Qed.

Lemma render_app done a b : render done (a ++ b) = render done a ++ render done b.
Proof. unfold render. by rewrite map_app, concat_app. Qed.

Lemma source_app a b : source (a ++ b) = source a ++ source b.
Proof. unfold source. by rewrite map_app, concat_app. Qed.

Lemma slice_tail {A} (a b : list A) : slice (a ++ b) (len a) (len (a ++ b)) = b.
Proof.
  rewrite slice_in_range by (rewrite ?len_app; pose proof (len_nonneg a); pose proof (len_nonneg b); lia).
  unfold len. rewrite length_app. rewrite !Nat2Z.id.
  replace (Z.to_nat _) with (length b) by lia.
  rewrite drop_app_length. by rewrite firstn_all.
Qed.

Lemma slice_take {A} (s : list A) n : 0 <= n -> n <= len s -> slice s 0 n = take (Z.to_nat n) s.
Proof. intros. rewrite slice_in_range by lia. by rewrite Z.sub_0_r. Qed.

Lemma slice_drop {A} (s : list A) n : 0 <= n -> n <= len s -> slice s n (len s) = drop (Z.to_nat n) s.
Proof. intros. rewrite slice_in_range by lia. apply take_ge. rewrite length_drop. unfold len. lia. Qed.

Section StreamFacts.
Context {U : Unicode}.

(** The items of the whole stream: every known placeholder is bracketed and
    does not occur in the text that is to come out, and every token has its
    original in the reverse map. *)
Record stream_ok (pairs : list pair) (all : list item) : Prop := StreamOk {
  so_pairs : forall o p, (o, p) ∈ pairs -> bracketed p /\ contains (source all) p = false;
  so_tokens : forall o p, Tok o p ∈ all -> dget p (by_placeholder_of pairs) = Some o;
}.

Lemma so_token_pair pairs all o p : stream_ok pairs all -> Tok o p ∈ all -> exists o', (o', p) ∈ pairs.
Proof.
  intros [_ Ht] Hop%Ht. apply dget_setdefault_elem in Hop as ([o' p'] & H & <- & _). eauto.
Qed.

(** After part of the stream: [out] has been emitted, the items in [items] are
    done, the unfinished placeholder [pre] of [todo] is at the end of the buffer. *)
Record stream_inv (pairs : list pair) (d : desanitizer) (out : str) (items todo : list item) (pre : str)
  : Prop := StreamInv {
  si_pairs : ds_pairs d = pairs;
  si_max : ds_max_len d = max_len pairs;
  si_flushed : ds_flushed d = false;
  si_left : exists out0, out = out0 ++ ds_left_context d;
  si_empty : ds_max_len d = 0 -> ds_left_context d = [];
  si_buffer : exists b, ds_buffer d = b ++ pre /\ out ++ b = source items;
  si_pre : unfinished pre todo;
}.

(** [_replace_all] on a buffer that ends in an unfinished placeholder. *)
Lemma replace_all_items pairs d out b items items2 todo pre final :
  stream_ok pairs (items ++ items2 ++ todo) -> ds_pairs d = pairs ->
  (exists out0, out = out0 ++ ds_left_context d) -> out ++ b = source items -> unfinished pre todo ->
  replace_all d (b ++ render [] items2 ++ pre) final = b ++ source items2 ++ pre.
Proof.
  intros Hok Hp [out0 ->] Hsrc Hu. unfold replace_all. rewrite Hp.
  set (left := ds_left_context d) in *.
  set (view := map Lit (left ++ b) ++ items2 ++ map Lit pre).
  assert (render [] view = left ++ b ++ render [] items2 ++ pre) as Hr.
  { unfold view. rewrite !render_app. unfold render at 1 3.
    rewrite (proj1 (literal_items [] (left ++ b))), (proj1 (literal_items [] pre)). by rewrite <- app_assoc. }
  assert (source view = left ++ b ++ source items2 ++ pre) as Hs.
  { unfold view. rewrite !source_app.
    rewrite (proj2 (literal_items [] (left ++ b))), (proj2 (literal_items [] pre)). by rewrite <- app_assoc. }
  assert (forall o p, Tok o p ∈ view -> Tok o p ∈ items2) as Htok.
  { intros o p [H|[H|H]%elem_of_app]%elem_of_app; [|done|];
      by apply list_elem_of_fmap in H as (? & ? & _). }
  rewrite <- Hr, reverse_text_render, Hs.
  - apply slice_tail.
  - intros o p Hop. destruct (so_pairs _ _ Hok o p Hop) as [Hb Hc]. split; [done|]. rewrite Hs.
    rewrite !source_app in Hc. rewrite <- Hsrc in Hc.
    assert (contains (left ++ b ++ source items2) p = false) as Hc'.
    { apply (contains_app_r out0). apply (contains_app_l _ (source todo)). revert Hc. by rewrite <- !app_assoc. }
    rewrite !app_assoc in Hc'. rewrite !app_assoc. destruct Hu as [->|(o' & q & todo' & q' & -> & -> & Hq)].
    + by rewrite app_nil_r.
    + apply contains_app_open; [done| |exact Hc'].
      assert (exists o', (o', pre ++ q') ∈ pairs) as [o'' Hin].
      { eapply so_token_pair; [exact Hok|]. rewrite !elem_of_app, elem_of_cons. eauto. }
      eapply bracketed_prefix_open; [by eapply so_pairs|done|done].
  - intros o p Hop%Htok. eapply so_tokens; [exact Hok|]. rewrite !elem_of_app. eauto.
Qed.

Lemma unfinished_short pairs all todo pre :
  stream_ok pairs all -> (forall i, i ∈ todo -> i ∈ all) -> unfinished pre todo ->
  len pre <= max_len pairs.
Proof.
  intros Hok Hsub [->|(o & q & todo' & q' & -> & -> & _)].
  - rewrite len_nil. unfold max_len. clear. induction pairs; cbn; lia.
  - destruct (so_token_pair pairs all o (pre ++ q')) as [o' Hin]; [done|apply Hsub; by left|].
    apply max_len_bound in Hin. rewrite len_app in Hin. pose proof (len_nonneg q'). lia.
Qed.

(** One chunk: some items are finished, the invariant holds for the rest. *)
Lemma feed_inv pairs d out items todo pre chunk rest :
  stream_ok pairs (items ++ todo) -> stream_inv pairs d out items todo pre ->
  pre ++ chunk ++ rest = render [] todo ->
  exists emitted d' items2 todo' pre',
    feed d chunk = Ok (emitted, d') /\ todo = items2 ++ todo' /\ pre' ++ rest = render [] todo' /\
    stream_inv pairs d' (out ++ emitted) (items ++ items2) todo' pre'.
Proof.
  intros Hok [Hp Hm Hf Hl He (b & Hbuf & Hb) Hpre] Hr. rewrite app_assoc in Hr.
  destruct (cut_items _ _ _ Hr) as (items2 & todo' & pre' & -> & Hw & Hrest & Hu).
  assert (len pre' <= max_len pairs) as Hlen.
  { eapply unfinished_short; [exact Hok| |exact Hu]. intros i Hi. rewrite !elem_of_app. auto. }
  assert (replace_all d (ds_buffer d ++ chunk) false = (b ++ source items2) ++ pre') as HB.
  { rewrite Hbuf, <- app_assoc, Hw, <- app_assoc. by eapply replace_all_items. }
  assert (out ++ b ++ source items2 = source (items ++ items2)) as Hsrc
    by (rewrite source_app, <- Hb; by rewrite <- app_assoc).
  unfold feed. rewrite Hf, HB, Hm. set (X := b ++ source items2) in *.
  pose proof (len_nonneg X) as HX. pose proof (len_nonneg pre') as Hpre'. rewrite !len_app.
  destruct (Z.eqb_spec (max_len pairs) 0) as [Hz|Hz];
    [|destruct (Z.leb_spec (len X + len pre') (max_len pairs)) as [Hle|Hgt]].
  - assert (pre' = []) as -> by (destruct pre'; [done|rewrite len_cons in *; pose proof (len_nonneg pre'); lia]).
    rewrite app_nil_r. rewrite Hm in He. eexists _, _, items2, todo', []. split_and!; [done|done|done|].
    split; cbn; try done.
    + rewrite (He Hz). exists (out ++ X). by rewrite app_nil_r.
    + exists []. split; [done|]. by rewrite app_nil_r.
  - eexists _, _, items2, todo', pre'. split_and!; [done|done|done|].
    rewrite Hm in He. split; cbn; rewrite ?app_nil_r; try done. by exists X.
  - eexists _, _, items2, todo', pre'. split_and!; [done|done|done|].
    set (n := len X + len pre' - max_len pairs). set (safe := slice (X ++ pre') 0 n).
    assert (0 < n <= len X) as Hn by lia.
    assert (safe = take (Z.to_nat n) X) as Hsafe.
    { unfold safe. rewrite slice_take by (rewrite ?len_app; lia). apply take_app_le. unfold len in *. lia. }
    assert (len safe = n) as Hls by (unfold safe; rewrite len_slice by (rewrite ?len_app; lia); lia).
    split; cbn; try done.
    + exists (out ++ slice safe 0 (len safe - 1)). rewrite <- app_assoc. f_equal.
      rewrite slice_join by lia. by rewrite slice_full.
    + exists (drop (Z.to_nat n) X). rewrite <- (len_app X pre'). split.
      * unfold n. rewrite <- len_app, slice_drop by (rewrite len_app; lia).
        rewrite len_app. apply drop_app_le. unfold len in *. lia.
      * by rewrite Hsafe, <- app_assoc, take_drop.
Qed.

Lemma render_nil pairs all items :
  stream_ok pairs all -> (forall i, i ∈ items -> i ∈ all) -> render [] items = [] -> items = [].
Proof.
  intros Hok Hsub. destruct items as [|[c|o p] items]; [done|done|].
  destruct (so_token_pair pairs all o p) as [o' Hin]; [done|apply Hsub; by left|].
  apply (so_pairs _ _ Hok) in Hin as [(body & -> & _) _]. unfold render. cbn.
  unfold memb. rewrite bool_decide_false by set_solver. done.
Qed.

Lemma flush_inv pairs d out items todo pre :
  stream_ok pairs (items ++ todo) -> stream_inv pairs d out items todo pre -> pre = render [] todo ->
  out ++ (flush d).1 = source (items ++ todo) /\ ds_flushed (flush d).2 = true.
Proof.
  intros Hok [Hp Hm Hf Hl He (b & Hbuf & Hb) Hpre] Hr.
  assert (pre = []) as ->.
  { destruct Hpre as [->|(o & q & todo' & q' & -> & Hq & Hq')]; [done|]. exfalso. revert Hr.
    change (render [] (Tok o q :: todo')) with (item_render [] (Tok o q) ++ render [] todo').
    cbn. unfold memb. rewrite bool_decide_false by set_solver. rewrite Hq, <- app_assoc.
    intros Hr. apply (f_equal length) in Hr. rewrite !length_app in Hr. destruct q'; [done|cbn in Hr; lia]. }
  assert (todo = []) as ->.
  { eapply render_nil; [exact Hok| |done]. intros i Hi. rewrite elem_of_app. by right. }
  unfold flush. rewrite Hf. split; [|done]. cbn [fst].
  rewrite Hbuf. pose proof (replace_all_items pairs d out b items [] [] [] true Hok Hp Hl Hb) as HR.
  cbn in HR. rewrite HR by by left. rewrite !app_nil_r. done.
Qed.

Lemma concat_yielded s : concat (yielded s) = s.
Proof.
  unfold yielded. destruct (str_eqb s []) eqn:E; cbn; [by apply str_eqb_eq in E as ->|by rewrite app_nil_r].
Qed.

Lemma stream_inv_run pairs d out items todo pre chunks :
  stream_ok pairs (items ++ todo) -> stream_inv pairs d out items todo pre ->
  pre ++ concat chunks = render [] todo ->
  exists ys d', stream d chunks = Ok (ys, d') /\ out ++ concat ys = source (items ++ todo) /\
    ds_flushed d' = true.
Proof.
  revert d out items todo pre. induction chunks as [|chunk chunks IH]; intros d out items todo pre Hok Hi Hr.
  - cbn in Hr. rewrite app_nil_r in Hr. destruct (flush_inv _ _ _ _ _ _ Hok Hi Hr) as [H1 H2].
    cbn. destruct (flush d) as [tail d']. eexists _, d'. split_and!; [done| |done].
    by rewrite concat_yielded.
  - destruct (feed_inv _ _ _ _ _ _ _ _ Hok Hi Hr) as (e & d' & items2 & todo' & pre' & Hf & -> & Hr' & Hi').
    rewrite app_assoc in Hok |- *. destruct (IH _ _ _ _ _ Hok Hi' Hr') as (ys & d'' & Hs & Ho & Hfl).
    cbn [stream]. rewrite Hf. cbn [rbind fst snd]. rewrite Hs. cbn [rbind fst snd].
    eexists _, d''. split_and!; [done| |done].
    rewrite concat_app, concat_yielded. by rewrite app_assoc.
Qed.

Lemma stream_run pairs escape items chunks :
  stream_ok (escape_pairs escape pairs) items -> concat chunks = render [] items ->
  exists ys d', stream (desanitizer_init pairs escape) chunks = Ok (ys, d') /\ concat ys = source items /\
    ds_flushed d' = true.
Proof.
  intros Hok Hr. apply (stream_inv_run (escape_pairs escape pairs) _ [] [] items []); [done| |done].
  split; cbn; try done; [by rewrite max_len_escape|by exists []|by exists []|by left].
Qed.

(** C6: the cut does not matter. An answer made of literal text and known
    bracketed placeholders, cut into chunks anywhere, inside placeholders
    too, streams out as the text that whole-text reverse substitution gives,
    provided no placeholder occurs in that text.  With an [escape] the
    originals come out escaped.  Afterwards the desanitizer refuses more input. *)
Theorem streaming_chunk_invariant pairs escape items chunks :
  stream_ok (escape_pairs escape pairs) items -> concat chunks = render [] items ->
  exists ys d', stream (desanitizer_init pairs escape) chunks = Ok (ys, d') /\
    concat ys = source items /\
    concat ys = reverse_text (escape_pairs escape pairs) true 0 (concat chunks) /\
    forall chunk, feed d' chunk = Raise FeedAfterFlush.
Proof.
  intros Hok Hr. destruct (stream_run _ _ _ _ Hok Hr) as (ys & d' & Hs & Ho & Hf).
  exists ys, d'. split_and!; [done|done| |].
  - rewrite Hr, reverse_text_render; [done|by apply so_pairs|by apply so_tokens].
  - intros chunk. unfold feed. by rewrite Hf.
Qed.
End StreamFacts.

(** ** Witnesses *)

Definition quoted_pairs : list pair := [([34%N] ++ u8 "Acme", u8 "[ORG_001]")].
Definition quoted_items : list item :=
  map Lit (u8 "to ") ++ [Tok (u8 "\" ++ [34%N] ++ u8 "Acme") (u8 "[ORG_001]")] ++ map Lit (u8 "!").
Definition quoted_chunks : list str := [u8 "to [OR"; u8 "G_00"; u8 "1]!"].

Lemma quoted_stream_ok : stream_ok (escape_pairs (Some json_string_escape) quoted_pairs) quoted_items.
Proof.
  split.
  - intros o p Hop. apply list_elem_of_singleton in Hop as [= -> ->]. split; [|reflexivity].
    exists (u8 "ORG_001"). split_and!; [reflexivity| |]; apply memb_false; reflexivity.
  - intros o p Hop. unfold quoted_items in Hop.
    rewrite !elem_of_app, list_elem_of_singleton, !list_elem_of_fmap in Hop.
    destruct Hop as [(? & ? & _)|[[= -> ->]|(? & ? & _)]]; done.
Qed.

Lemma streaming_chunk_invariant_witness :
  exists ys d', stream (U := ru_unicode) (desanitizer_init quoted_pairs (Some json_string_escape)) quoted_chunks
                = Ok (ys, d') /\
    concat ys = u8 "to \" ++ [34%N] ++ u8 "Acme!".
Proof.
  destruct (streaming_chunk_invariant (U := ru_unicode) quoted_pairs (Some json_string_escape) quoted_items quoted_chunks)
    as (ys & d' & Hs & Ho & _); [exact quoted_stream_ok|reflexivity|].
  exists ys, d'. split; [exact Hs|exact Ho].
Defined.
