(* ===== verification/Orchestrator.v ===== *)
(** * The sanitization orchestrator ([sanitizer/orchestrator.py], second half)

    [sanitize] on one text: size policy, rules, Cache A, detection, planning,
    Cache B.  The local passes, the gazetteer and the corp-LLM oracle are
    parameters of the configuration; the store is any [MappingStore]. *)

From S2P Require Import Prelude Text Regex Placeholder Spans Rules Storage Sha256 CachePolicy Allocator.
From S2P Require Import Checksums Detectors Segmenter LocalPass Planner Streaming.
Local Open Scope py_scope.

(** ** [_merge_local] *)

Section Merge.
Context {U : Unicode}.

(** [^\[([A-Z_]+)_(\d+)\]$] *)
Definition ORCH_LABEL_RE : re :=
  seqs [Bos; lit (u8 "["); Grp 1 (plus (cls (fun c => ascii_upper_p c || (c =? 95)%N))); lit (u8 "_");
        Grp 2 (plus digit); lit (u8 "]"); Eol].

(** [(label, int(index))] of a placeholder. *)
Definition label_index (p : str) : option (str * Z) :=
  m ← re_match ORCH_LABEL_RE p;
  label ← mt_group 1 p m;
  digits ← mt_group 2 p m;
  n ← int_of digits;
  Some (label, n).

Definition seed_label (d : gmap str Z) (p : pair) : gmap str Z :=
  match label_index p.2 with
  | Some (label, n) => if default 0 (d !! label) <? n then <[label := n]> d else d
  | None => d
  end.

(** [f"[{label}_{n:03d}]"] *)
Definition local_placeholder (label : str) (n : Z) : str := mint_label label (Z.to_N n).

(** The [while placeholder in used_placeholders] loop. *)
Fixpoint free_index (used : list str) (label : str) (fuel : nat) (n : Z) : Z :=
  match fuel with
  | O => n
  | S f => if memb (local_placeholder label n) used then free_index used label f (n + 1) else n
  end.

Record merge_state := MergeState {
  mg_seen : list str;
  mg_used : list str;
  mg_label_max : gmap str Z;
  mg_new : list pair;
}.

Definition merge_step_local (st : merge_state) (f : finding) : merge_state :=
  if memb (f_text f) (mg_seen st) then st else
  let n := free_index (mg_used st) (f_label f) (S (length (mg_used st)))
             (default 0 (mg_label_max st !! f_label f) + 1) in
  let placeholder := local_placeholder (f_label f) n in
  MergeState (f_text f :: mg_seen st) (placeholder :: mg_used st)
             (<[f_label f := n]> (mg_label_max st)) (mg_new st ++ [(f_text f, placeholder)]).

Definition merge_key (f : finding) : list Q := [Qopp (f_score f); zk (- (f_end f - f_start f))].

Definition merge_local (oracle_pairs : list pair) (local_findings : list finding) : list pair :=
  let st0 := MergeState (map fst oracle_pairs) (map snd oracle_pairs) (foldl seed_label ∅ oracle_pairs) [] in
  oracle_pairs ++ mg_new (foldl merge_step_local st0 (sort_on merge_key local_findings)).

(** ** [_iter_overlapping_chunks] *)

Fixpoint chunks_go (text : str) (window step : Z) (fuel : nat) (start : Z) : list str :=
  match fuel with
  | O => []
  | S f =>
    slice text start (start + window) ::
    (if len text <=? start + window then [] else chunks_go text window step f (start + step))
  end.

(** [None] is the [ValueError] for a window that does not exceed the overlap. *)
Definition iter_overlapping_chunks (text : str) (window overlap : Z) : option (list str) :=
  let step := window - overlap in
  if step <=? 0 then None
  else Some (chunks_go text window step (S (length text + Z.to_nat (Z.abs window))) 0).
End Merge.

(** ** Configuration and results *)

(** What a request can raise on this path. *)
Inductive orch_error :=
| OversizeContentError (content_bytes threshold_bytes : Z)
| DetectionError (e : detect_error)
| OracleError                             (* the corp-LLM call or its parsing failed *)
| RulesError                              (* the rules loader failed *)
| ClientRequired                          (* oracle enabled, no corp-LLM client *)
| NothingToSanitizeWith                   (* oracle disabled and no local detection *)
| UnicodeEncodeError
| ConfigError (e : config_error)
| ChunkWindowError
| StaleSpan (e : stale_span_error).

Record orchestrator := Orch {
  oc_oracle_enabled : bool;
  oc_oracle : str -> str -> result orch_error (list pair);   (* system prompt, text *)
  oc_load_rules : str -> result orch_error rules;
  oc_size_threshold : Z;
  oc_oversize_policy : oversize_policy;
  oc_oversize_deliver_teams : list str;
  oc_chunk_window : Z;
  oc_chunk_overlap : Z;
  oc_local : option local_pass;
  oc_chunk_local : option local_pass;
  oc_gazetteer : option (str -> list finding);
  oc_allowlist : option (list str);
  oc_oracle_trigger : str;
  oc_oracle_sample_pct : option Z;
  oc_policy_fingerprint : option str;
  oc_cache_a_ttl : Q;
  oc_cache_b_ttl : Q;
}.

Record sanitize_result := SanitizeResult {
  sr_text : str;
  sr_pairs : list pair;
  sr_cache_a_hit : bool;
  sr_skipped : bool;
  sr_block_reason : option str;
  sr_applied_spans : list applied_span;
  sr_rule_originals : gset str;
}.

Definition OVERSIZE_DELIVERED_REASON : str := u8 "oversize:delivered".

Definition of_plan (p : replacement_plan) (hit : bool) : sanitize_result :=
  SanitizeResult (pl_text p) (pl_pairs p) hit false None (pl_spans p) (pl_rule_originals p).

(** [tuple(dict.fromkeys(l))] *)
Fixpoint fromkeys {A} `{EqDecision A} (seen : list A) (l : list A) : list A :=
  match l with
  | [] => []
  | x :: l' => if memb x seen then fromkeys seen l' else x :: fromkeys (x :: seen) l'
  end.

Definition rule_pairs (rms : list matched_rule) : list pair :=
  fromkeys [] (map (fun m => (mr_original m, mr_replacement m)) rms).

(** Errors of the parts as errors of the orchestrator. *)
Definition lift_err {E A} (f : E -> orch_error) (r : result E A) : result orch_error A :=
  match r with Ok a => Ok a | Raise e => Raise (f e) end.

Definition or_raise {A} (e : orch_error) (o : option A) : result orch_error A :=
  match o with Some a => Ok a | None => Raise e end.

(** ** Construction *)

(** What the orchestrator uses of a gazetteer: [detect], [term_signature] and
    [lemmatizer_signature]. *)
Record gazetteer_iface := GazetteerIface {
  gz_detect : str -> list finding;
  gz_terms : list str;
  gz_lemmatizers : list str;
}.

(** The arguments of [__init__]. *)
Record orch_args := OrchArgs {
  ia_corp_llm : option (str -> str -> result orch_error (list pair));
  ia_load_rules : str -> result orch_error rules;
  ia_cache_a_ttl : Q;
  ia_cache_b_ttl : Q;
  ia_size_threshold : Z;
  ia_oversize_policy : str;
  ia_oversize_deliver_teams : list str;
  ia_chunk_window : Z;
  ia_chunk_overlap : Z;
  ia_local_detectors : option (list detector);
  ia_code_safe_detectors : option (list detector);
  ia_gazetteer : option gazetteer_iface;
  ia_allowlist : option (list str);
  ia_oracle_trigger : str;
  ia_oracle_enabled : bool;
}.

Definition MAX_ENTITY_CHARS : Z := 8192 + 128.
Definition DEFAULT_CHUNK_OVERLAP_CHARS : Z := MAX_ENTITY_CHARS.
Definition DEFAULT_CHUNK_WINDOW_CHARS : Z := 4 * MAX_ENTITY_CHARS.

Definition encode_all (l : list str) : option (list (list N)) :=
  collect (fun s => b ← utf8_encode s; Some [b]) l.

(** [LocalDetectionPass(detectors, code_safe_detectors=...) if detectors else None] *)
Definition pass_of (detectors : list detector) (code_safe : option (list detector)) : option local_pass :=
  match detectors with [] => None | _ => Some (LocalPass detectors code_safe) end.

Section Construction.
Context {U : Unicode}.

(** [_detector_identity], which may raise, and [isinstance(d, RegexChecksumDetector)]. *)
Context (identity : detector -> option str) (is_regex_checksum : detector -> bool).

Definition identities (l : list detector) : option (list (list N)) :=
  collect (fun d => i ← identity d; b ← utf8_encode i; Some [b]) l.

(** [None]: something raised, Cache A is off. *)
Definition compute_policy_fingerprint (pass : option local_pass) (gaz : option gazetteer_iface)
  (allowlist : option (list str)) (trigger : str) : option str :=
  ids ← identities (match pass with Some p => lp_detectors p | None => [] end);
  code ← identities (match pass with Some p => lp_code_detectors p | None => [] end);
  gz ← match gaz with
       | None => Some None
       | Some g => t ← encode_all (gz_terms g); l ← encode_all (gz_lemmatizers g); Some (Some (t, l))
       end;
  al ← match allowlist with None => Some None | Some entries => e ← encode_all entries; Some (Some e) end;
  tr ← utf8_encode trigger;
  Some (policy_fingerprint (Policy ids code gz al tr)).

Definition without_regex (l : list detector) : list detector :=
  List.filter (fun d => negb (is_regex_checksum d)) l.

Definition orch_init (a : orch_args) : result orch_error orchestrator :=
  match ia_oracle_enabled a, ia_corp_llm a with
  | true, None => Raise ClientRequired
  | _, _ =>
    let! policy := lift_err ConfigError (normalize_oversize_policy (Some (ia_oversize_policy a))) in
    let detectors := match ia_local_detectors a with Some l => l | None => [] end in
    let local := pass_of detectors (ia_code_safe_detectors a) in
    let chunk_local := pass_of (without_regex detectors) (without_regex <$> ia_code_safe_detectors a) in
    let! trigger := lift_err ConfigError (normalize_oracle_trigger (Some (ia_oracle_trigger a))) in
    let! pct := if starts_with trigger ORACLE_TRIGGER_SAMPLED_PREFIX
                then let! n := lift_err ConfigError (parse_sample_pct trigger) in Ok (Some n)
                else Ok None in
    Ok (Orch (ia_oracle_enabled a)
             (match ia_corp_llm a with Some f => f | None => fun _ _ => Raise ClientRequired end)
             (ia_load_rules a) (ia_size_threshold a) policy (ia_oversize_deliver_teams a)
             (ia_chunk_window a) (ia_chunk_overlap a) local chunk_local
             (gz_detect <$> ia_gazetteer a) (ia_allowlist a) trigger pct
             (compute_policy_fingerprint local (ia_gazetteer a) (ia_allowlist a) trigger)
             (ia_cache_a_ttl a) (ia_cache_b_ttl a))
  end.
End Construction.

Section Orchestrator.
Context {U : Unicode} (cfg : orchestrator).

Definition run_pass (p : option local_pass) (text : str) : result orch_error (list finding) :=
  match p with
  | Some p => lift_err DetectionError (local_findings p text)
  | None => Ok []
  end.

Definition call_corp_llm (text : str) (rs : rules) : result orch_error (list pair) :=
  oc_oracle cfg (build_system_prompt rs) text.

Definition oracle_should_run (gaz_findings local_findings : list finding) (rules_pairs : list pair)
  (conversation_id text : str) : result orch_error bool :=
  if negb (oc_oracle_enabled cfg) then Ok false
  else match gaz_findings with
  | _ :: _ => Ok true
  | [] =>
    match oc_oracle_sample_pct cfg with
    | Some pct => or_raise UnicodeEncodeError (sample_selected (conversation_id ++ [31%N] ++ text) pct)
    | None =>
      if str_eqb (oc_oracle_trigger cfg) ORACLE_TRIGGER_ALWAYS then Ok true
      else if str_eqb (oc_oracle_trigger cfg) ORACLE_TRIGGER_ANY_LOCAL_FINDING
      then Ok (match local_findings, rules_pairs with [], [] => false | _, _ => true end)
      else Ok false
    end
  end.

(** [self._allowlist.filter_pairs(...)] when there is an allowlist. *)
Definition allowlisted (pairs : list pair) : list pair :=
  match oc_allowlist cfg with Some allowed => filter_pairs allowed pairs | None => pairs end.

(** The detection core: the merged pairs of one text. *)
Definition detect_merged (pass : option local_pass) (text : str) (rs : rules)
  (rules_pairs : list pair) (conversation_id : str) : result orch_error (list pair) :=
  match oc_gazetteer cfg with
  | Some gaz =>
    let gaz_findings := gaz text in
    let! local := run_pass pass text in
    let combined := deduplicate (local ++ gaz_findings) in
    let! runs := oracle_should_run gaz_findings local rules_pairs conversation_id text in
    if (runs : bool) then
      let! oracle := call_corp_llm text rs in Ok (merge_local (rules_pairs ++ oracle) combined)
    else Ok (merge_local rules_pairs combined)
  | None =>
    match pass with
    | Some _ =>
      if oc_oracle_enabled cfg then
        let! oracle := call_corp_llm text rs in
        let! local := run_pass pass text in
        Ok (merge_local (rules_pairs ++ oracle) local)
      else
        let! local := run_pass pass text in Ok (merge_local rules_pairs local)
    | None =>
      if negb (oc_oracle_enabled cfg) then Raise NothingToSanitizeWith
      else let! oracle := call_corp_llm text rs in Ok (rules_pairs ++ oracle)
    end
  end.

Definition detect_leaf (text : str) (rs : rules) (conversation_id : str) (chunked : bool)
  (rms : option (list matched_rule)) : result orch_error (list pair) :=
  let pass := if chunked then oc_chunk_local cfg else oc_local cfg in
  let matches := match rms with Some m => m | None => rule_matches rs text end in
  let! merged := detect_merged pass text rs (rule_pairs matches) conversation_id in
  Ok (allowlisted merged).

(** *** Oversize texts *)

(** The closure state of [_absorb]. *)
Record absorb_state := AbsorbState { ab_alloc : alloc; ab_pairs : list pair; ab_seen : list str }.

Fixpoint absorb_pairs (remapped : list pair) (st : absorb_state) : list pair * absorb_state :=
  match remapped with
  | [] => ([], st)
  | p :: rest =>
    if memb p.1 (ab_seen st) then absorb_pairs rest st else
    let '(accepted, st') :=
      absorb_pairs rest (AbsorbState (ab_alloc st) (ab_pairs st ++ [p]) (p.1 :: ab_seen st)) in
    (p :: accepted, st')
  end.

Definition absorb (exempt : list str) (candidate : list pair) (st : absorb_state)
  : list pair * absorb_state :=
  let '(remapped, al) := remap candidate exempt (ab_alloc st) in
  absorb_pairs remapped (AbsorbState al (ab_pairs st) (ab_seen st)).

Fixpoint absorb_chunks (rs : rules) (conversation_id : str) (exempt : list str) (chunks : list str)
  (st : absorb_state) : result orch_error absorb_state :=
  match chunks with
  | [] => Ok st
  | c :: chunks' =>
    let! pairs := detect_leaf c rs conversation_id true None in
    absorb_chunks rs conversation_id exempt chunks' (absorb exempt pairs st).2
  end.

Definition chunked_plan (text : str) (rs : rules) (conversation_id : str)
  : result orch_error replacement_plan :=
  let global_rule_matches := rule_matches rs text in
  let global_rule_pairs := allowlisted (rule_pairs global_rule_matches) in
  let exempt := map fst global_rule_pairs in
  let '(canonical_rule_pairs, st1) := absorb exempt global_rule_pairs (AbsorbState alloc_init [] []) in
  let active : gset str := list_to_set (map fst canonical_rule_pairs) in
  let! full := or_raise (DetectionError DetectorValueError) (detect text) in
  let '(_, st2) := absorb exempt (merge_local [] full) st1 in
  let! chunks := or_raise ChunkWindowError
                   (iter_overlapping_chunks text (oc_chunk_window cfg) (oc_chunk_overlap cfg)) in
  let! st3 := absorb_chunks rs conversation_id exempt chunks st2 in
  lift_err StaleSpan (plan_replacements text (ab_pairs st3) global_rule_matches (Some active)).

(** [_scan_findings]: is anything found at all? *)
Definition scan_findings (text : str) (rs : rules) (conversation_id : str)
  : result orch_error (list finding) :=
  let! floor := or_raise (DetectionError DetectorValueError) (detect text) in
  let gaz := match oc_gazetteer cfg with Some g => g text | None => [] end in
  let! local := run_pass (oc_local cfg) text in
  let rms := rule_matches rs text in
  let rule_found := map (fun m => Finding (mr_original m) (u8 "RULE") (mr_start m) (mr_end m) 1) rms in
  let! runs := match oc_gazetteer cfg with
               | Some _ => oracle_should_run gaz local (rule_pairs rms) conversation_id text
               | None => Ok (oc_oracle_enabled cfg)
               end in
  let! oracle := if (runs : bool) then call_corp_llm text rs else Ok [] in
  Ok (floor ++ gaz ++ local ++ rule_found ++
      map (fun p : pair => Finding p.1 (u8 "ORACLE") 0 (len p.1) 1) oracle).

Definition deliver_oversize (text : str) (rs : rules) (conversation_id : str) (content_bytes : Z)
  : result orch_error sanitize_result :=
  let! findings := scan_findings text rs conversation_id in
  match findings with
  | _ :: _ => Raise (OversizeContentError content_bytes (oc_size_threshold cfg))
  | [] => Ok (SanitizeResult text [] false true (Some OVERSIZE_DELIVERED_REASON) [] ∅)
  end.

Section WithStore.
Context {S : Type} `{MappingStore S}.

(** [_record_conversation_mappings] *)
Definition record_conversation (conversation_id : str) (pairs : list pair) (now : Q) (st : S) : S :=
  record_mappings conversation_id pairs (oc_cache_b_ttl cfg) now st.

Definition handle_oversize (text team_id conversation_id : str) (content_bytes : Z) (now : Q) (st : S)
  : result orch_error (sanitize_result * S) :=
  let blocked := Raise (OversizeContentError content_bytes (oc_size_threshold cfg)) in
  match oc_oversize_policy cfg with
  | OVERSIZE_CHUNK =>
    let! rs := oc_load_rules cfg team_id in
    let! plan := chunked_plan text rs conversation_id in
    Ok (of_plan plan false, record_conversation conversation_id (pl_pairs plan) now st)
  | OVERSIZE_DELIVER_FLAG =>
    if memb team_id (oc_oversize_deliver_teams cfg) then
      let! rs := oc_load_rules cfg team_id in
      let! r := deliver_oversize text rs conversation_id content_bytes in
      Ok (r, st)
    else blocked
  | OVERSIZE_FAIL_CLOSED => blocked
  end.

(** The Cache A key of a text, when Cache A is on. *)
Definition cache_key (team_id : str) (rs : rules) (text : str) (profile : option str)
  : result orch_error (option str) :=
  match oc_policy_fingerprint cfg with
  | None => Ok None
  | Some fp =>
    let! h := or_raise UnicodeEncodeError
                (content_hash team_id rs text profile (Some (oc_oracle_enabled cfg)) (Some fp)) in
    Ok (Some h)
  end.

Definition lookup_dedup (key : option str) (now : Q) (st : S) : option mapping * S :=
  match key with Some h => get_dedup h now st | None => (None, st) end.

Definition store_dedup (key : option str) (m : mapping) (now : Q) (st : S) : S :=
  match key with Some h => set_dedup h m (oc_cache_a_ttl cfg) now st | None => st end.

(** [sanitize], with the clock readings of its Cache A read, Cache A write and
    Cache B writes. *)
Definition sanitize (text team_id conversation_id : str) (profile : option str)
  (t_read t_write t_put : Q) (st : S) : result orch_error (sanitize_result * S) :=
  let! encoded := or_raise UnicodeEncodeError (utf8_encode text) in
  let content_bytes := len encoded in
  let! oversize := lift_err ConfigError (should_skip_sanitization content_bytes (oc_size_threshold cfg)) in
  if (oversize : bool) then handle_oversize text team_id conversation_id content_bytes t_put st else
  let! rs := oc_load_rules cfg team_id in
  let rms := rule_matches rs text in
  let! key := cache_key team_id rs text profile in
  let '(cached, st1) := lookup_dedup key t_read st in
  match cached with
  | Some pairs =>
    let! plan := lift_err StaleSpan (plan_replacements text pairs rms None) in
    Ok (of_plan plan true, record_conversation conversation_id (pl_pairs plan) t_put st1)
  | None =>
    let! pairs := detect_leaf text rs conversation_id false (Some rms) in
    let! plan := lift_err StaleSpan (plan_replacements text pairs rms None) in
    let st2 := store_dedup key (pl_pairs plan) t_write st1 in
    Ok (of_plan plan false, record_conversation conversation_id (pl_pairs plan) t_put st2)
  end.
End WithStore.
End Orchestrator.

(** ** Theorems: construction *)

Section ConstructionFacts.
Context {U : Unicode} (identity : detector -> option str) (is_regex_checksum : detector -> bool).

Lemma parse_sample_pct_range trigger n : parse_sample_pct trigger = Ok n -> 0 <= n <= 100.
Proof.
  unfold parse_sample_pct. destruct (py_int _) as [pct|]; [|done].
  destruct (negb _) eqn:E; [done|]. intros [= <-]. lia.
Qed.

Lemma normalize_oracle_trigger_shape value t :
  normalize_oracle_trigger value = Ok t ->
  t ∈ ORACLE_TRIGGER_FIXED \/ starts_with t ORACLE_TRIGGER_SAMPLED_PREFIX = true.
Proof.
  unfold normalize_oracle_trigger. destruct (memb _ _) eqn:E.
  { intros [= <-]. left. by apply memb_true. }
  destruct (starts_with _ _); [|done]. intros H. bind_ok H as pct Ep. injection H as <-.
  right. apply starts_with_iff. eauto.
Qed.

(** The sampling percentage of a normalized trigger. *)
Lemma sample_pct_shape value trigger pct :
  lift_err ConfigError (normalize_oracle_trigger value) = Ok trigger ->
  (if starts_with trigger ORACLE_TRIGGER_SAMPLED_PREFIX
   then let! n := lift_err ConfigError (parse_sample_pct trigger) in Ok (Some n) else Ok None) = Ok pct ->
  match pct with Some n => 0 <= n <= 100 | None => trigger ∈ ORACLE_TRIGGER_FIXED end.
Proof.
  intros Hn H. destruct (normalize_oracle_trigger value) as [t|] eqn:En; [injection Hn as ->|done].
  apply normalize_oracle_trigger_shape in En. destruct (starts_with trigger _).
  - bind_ok H as n Ex. injection H as <-. destruct (parse_sample_pct trigger) eqn:Ep; [|done].
    injection Ex as <-. by eapply parse_sample_pct_range.
  - injection H as <-. by destruct En.
Qed.

Lemma pass_of_nonempty l c p : pass_of l c = Some p -> lp_detectors p <> [].
Proof. destruct l; [done|]. by intros [= <-]. Qed.

Lemma chunk_pass_no_regex l c p d :
  pass_of (without_regex is_regex_checksum l) (without_regex is_regex_checksum <$> c) = Some p ->
  d ∈ lp_detectors p ++ lp_code_detectors p -> is_regex_checksum d = false.
Proof.
  assert (forall l', d ∈ without_regex is_regex_checksum l' -> is_regex_checksum d = false) as Hw.
  { intros l' [_ Hd]%elem_of_lfilter. by apply negb_true_iff. }
  unfold pass_of. destruct (without_regex _ l) as [|x l'] eqn:Ex; [done|]. rewrite <- Ex. intros [= <-].
  unfold lp_code_detectors. cbn. intros [Hd|Hd]%elem_of_app; [by eapply Hw|]. destruct c; exact (Hw _ Hd).
Qed.

(** construction. An orchestrator that was built has a client if its oracle
    is on, a trigger of one of the four kinds with a sampling percentage from 0
    to 100, a local pass only if it has a detector, and no regex detector in the
    pass that runs per chunk, not among the code-safe ones either. *)
Theorem orch_init_sound a o :
  orch_init identity is_regex_checksum a = Ok o ->
  (oc_oracle_enabled o = true -> ia_corp_llm a = Some (oc_oracle o)) /\
  match oc_oracle_sample_pct o with
  | Some n => 0 <= n <= 100
  | None => oc_oracle_trigger o ∈ ORACLE_TRIGGER_FIXED
  end /\
  (forall p, oc_local o = Some p -> lp_detectors p <> []) /\
  (forall p d, oc_chunk_local o = Some p -> d ∈ lp_detectors p ++ lp_code_detectors p ->
     is_regex_checksum d = false).
Proof.
  unfold orch_init. intros H.
  destruct (ia_oracle_enabled a) eqn:Ee, (ia_corp_llm a) as [client|]; try discriminate H;
    bind_ok H as policy Ep; bind_ok H as trigger Et; bind_ok H as pct Es; injection H as <-;
    cbn [oc_oracle_enabled oc_oracle oc_oracle_sample_pct oc_oracle_trigger oc_local oc_chunk_local];
    (split; [done|split; [exact (sample_pct_shape _ _ _ Et Es)|split;
       [intros p; apply pass_of_nonempty|intros p d; apply chunk_pass_no_regex]]]).
Qed.
End ConstructionFacts.

(** ** Theorems: merging *)

Section MergeFacts.
Context {U : Unicode}.

Lemma local_placeholder_inj label a b :
  0 <= a -> 0 <= b -> local_placeholder label a = local_placeholder label b -> a = b.
Proof. intros Ha Hb H%mint_label_inj. lia. Qed.

Lemma free_index_taken used label fuel n i :
  memb (local_placeholder label (free_index used label fuel n)) used = true ->
  (i <= fuel)%nat -> local_placeholder label (n + Z.of_nat i) ∈ used.
Proof.
  revert n i. induction fuel as [|fuel IH]; intros n i; cbn [free_index]; intros H Hi.
  - replace (n + Z.of_nat i) with n by lia. by apply memb_true.
  - destruct (memb (local_placeholder label n) used) eqn:E; [|congruence].
    destruct i as [|i]; [rewrite Z.add_0_r; by apply memb_true|].
    replace (n + Z.of_nat (S i)) with (n + 1 + Z.of_nat i) by lia. apply IH; [done|lia].
Qed.

Lemma free_index_ge used label fuel n : n <= free_index used label fuel n.
Proof. revert n. induction fuel as [|fuel IH]; intros n; cbn; [lia|]. case_match; [specialize (IH (n + 1))|]; lia. Qed.

(** The [while] loop ends within one round more than there are placeholders in use. *)
Lemma free_index_free used label n :
  0 <= n -> local_placeholder label (free_index used label (S (length used)) n) ∉ used.
Proof.
  intros Hn. apply memb_false, not_true_iff_false. intros H.
  set (labels := map (fun i => local_placeholder label (n + Z.of_nat i)) (seq 0 (S (length used)))).
  assert (List.NoDup labels) as Hnd.
  { apply NoDup_ListNoDup, NoDup_fmap_2_strong; [|apply NoDup_seq].
    intros i j _ _ E. apply local_placeholder_inj in E; lia. }
  assert (incl labels used) as Hin.
  { intros l Hl. apply in_map_iff in Hl as (i & <- & Hi%in_seq). apply list_elem_of_In.
    eapply free_index_taken; [exact H|lia]. }
  pose proof (NoDup_incl_length Hnd Hin) as Hlen. unfold labels in Hlen.
  rewrite length_map, length_seq in Hlen. lia.
Qed.

Record merge_ok (base : list pair) (st : merge_state) : Prop := MergeOk {
  mo_seen : mg_seen st ≡ₚ map fst (base ++ mg_new st);
  mo_used : mg_used st ≡ₚ map snd (base ++ mg_new st);
  mo_max : forall l v, mg_label_max st !! l = Some v -> 0 <= v;
  mo_fst : NoDup (map fst (mg_new st));
  mo_snd : NoDup (map snd (mg_new st));
  mo_fst_base : forall o p, (o, p) ∈ mg_new st -> o ∉ map fst base;
  mo_snd_base : forall o p, (o, p) ∈ mg_new st -> p ∉ map snd base;
}.

Lemma seed_label_nonneg l d :
  (forall k v, d !! k = Some v -> 0 <= v) ->
  forall k v, foldl seed_label d l !! k = Some v -> 0 <= v.
Proof.
  revert d. induction l as [|p l IH]; intros d Hd; cbn [foldl]; [done|]. apply IH.
  intros k v. unfold seed_label. destruct (label_index p.2) as [[label n]|]; [|apply Hd].
  destruct (Z.ltb_spec (default 0 (d !! label)) n) as [Hlt|]; [|apply Hd].
  rewrite lookup_insert. case_decide; [|apply Hd]. intros [= <-].
  destruct (d !! label) as [v'|] eqn:E; cbn in Hlt; [apply Hd in E|]; lia.
Qed.

Lemma merge_step_ok base st f :
  merge_ok base st ->
  merge_ok base (merge_step_local st f) /\
  (exists tail, mg_new (merge_step_local st f) = mg_new st ++ tail) /\
  f_text f ∈ mg_seen (merge_step_local st f).
Proof.
  intros [H1 H2 H3 H4 H5 H6 H7]. unfold merge_step_local.
  destruct (memb (f_text f) (mg_seen st)) eqn:E.
  { split; [by split|]. split; [exists []; by rewrite app_nil_r|by apply memb_true]. }
  apply memb_false in E. set (n := free_index _ _ _ _). cbn [mg_new mg_seen].
  assert (0 <= default 0 (mg_label_max st !! f_label f)) as Hd.
  { destruct (mg_label_max st !! f_label f) eqn:El; cbn; [by eapply H3|lia]. }
  assert (local_placeholder (f_label f) n ∉ mg_used st) as Hfree by (apply free_index_free; lia).
  assert (0 <= n) as Hn by (etransitivity; [|apply free_index_ge]; lia).
  clearbody n. rewrite H1 in E. rewrite H2 in Hfree. rewrite map_app, elem_of_app in E, Hfree.
  split; [|split; [eauto|by left]]. split; cbn [mg_seen mg_used mg_label_max mg_new].
  - rewrite H1, !map_app. cbn. rewrite (app_assoc (map fst base)). apply Permutation_cons_append.
  - rewrite H2, !map_app. cbn. rewrite (app_assoc (map snd base)). apply Permutation_cons_append.
  - intros l v. rewrite lookup_insert. case_decide; [intros [= <-]; done|apply H3].
  - rewrite map_app. cbn. apply NoDup_app. split_and!; [done| |apply NoDup_singleton].
    intros x Hx ->%list_elem_of_singleton. tauto.
  - rewrite map_app. cbn. apply NoDup_app. split_and!; [done| |apply NoDup_singleton].
    intros x Hx ->%list_elem_of_singleton. tauto.
  - intros o p [Hin|[= -> ->]%list_elem_of_singleton]%elem_of_app; [by eapply H6|tauto].
  - intros o p [Hin|[= -> ->]%list_elem_of_singleton]%elem_of_app; [by eapply H7|tauto].
Qed.

Lemma merge_step_seen st f x : x ∈ mg_seen st -> x ∈ mg_seen (merge_step_local st f).
Proof. unfold merge_step_local. case_match; [done|]. cbn. by right. Qed.

Lemma merge_fold_ok base fs st :
  merge_ok base st ->
  merge_ok base (foldl merge_step_local st fs) /\
  (forall x, x ∈ mg_seen st \/ x ∈ map f_text fs -> x ∈ mg_seen (foldl merge_step_local st fs)).
Proof.
  revert st. induction fs as [|f fs IH]; intros st Hst; cbn [foldl map]; [split; [done|set_solver]|].
  destruct (merge_step_ok base st f Hst) as (H1 & _ & H3). destruct (IH _ H1) as [H4 H5].
  split; [done|]. intros x [Hx|[->|Hx]%elem_of_cons]; apply H5; [left; by apply merge_step_seen|by left|by right].
Qed.

Lemma merge_init_ok base :
  merge_ok base (MergeState (map fst base) (map snd base) (foldl seed_label ∅ base) []).
Proof.
  split; cbn; [by rewrite app_nil_r|by rewrite app_nil_r| |constructor|constructor|set_solver|set_solver].
  apply seed_label_nonneg. intros k v. by rewrite lookup_empty.
Qed.

(** [_merge_local] keeps the base pairs and adds one pair per new
    original: the new originals and the new placeholders are each distinct and
    disjoint from those of the base, and every finding's text ends up with a
    placeholder. *)
Theorem merge_local_bijection base fs :
  exists new, merge_local base fs = base ++ new /\
    NoDup (map fst new) /\ NoDup (map snd new) /\
    (forall o p, (o, p) ∈ new -> o ∉ map fst base /\ p ∉ map snd base) /\
    (forall f, f ∈ fs -> f_text f ∈ map fst (merge_local base fs)).
Proof.
  unfold merge_local. set (st0 := MergeState _ _ _ []).
  destruct (merge_fold_ok base (sort_on merge_key fs) st0 (merge_init_ok base)) as [[H1 _ _ H4 H5 H6 H7] Hs].
  exists (mg_new (foldl merge_step_local st0 (sort_on merge_key fs))).
  split_and!; [done|done|done|eauto|].
  intros f Hf. rewrite <- H1. apply Hs. right. apply list_elem_of_fmap_2.
  by rewrite elem_of_sort_on.
Qed.
End MergeFacts.

(** ** Theorems: chunks *)

Lemma chunks_go_cover text window step fuel start a b :
  0 < step -> step <= window -> 0 <= start ->
  len text - start < Z.of_nat fuel * step -> start <= a -> a <= b -> b <= len text ->
  b - a <= window - step ->
  exists k, 0 <= k /\ k <= a /\ b <= k + window /\ slice text k (k + window) ∈ chunks_go text window step fuel start.
Proof.
  intros Hst Hw. revert start. induction fuel as [|fuel IH]; intros start H0 Hf Ha Hab Hb Hlen; cbn [chunks_go].
  { lia. }
  destruct (Z.leb_spec b (start + window)) as [Hin|Hout].
  - exists start. split_and!; [lia|lia|lia|by left].
  - destruct (Z.leb_spec (len text) (start + window)); [lia|].
    destruct (IH (start + step)) as (k & ? & ? & ? & ?); [lia|nia|lia|lia|lia|lia|].
    exists k. split_and!; [lia|lia|lia|by right].
Qed.

Lemma chunks_go_slices text window step fuel start c :
  c ∈ chunks_go text window step fuel start -> exists k, c = slice text k (k + window).
Proof.
  revert start. induction fuel as [|fuel IH]; intros start; cbn; [set_solver|].
  intros [->|H]%elem_of_cons; [eauto|]. case_match; [set_solver|]. by apply IH in H.
Qed.

(** chunking covers. A window that does not exceed the overlap is refused;
    otherwise every chunk is a window of the text, and every substring no
    longer than the overlap lies inside one of the chunks. *)
Theorem chunks_cover text window overlap :
  (window <= overlap <-> iter_overlapping_chunks text window overlap = None) /\
  forall chunks, 0 <= overlap -> iter_overlapping_chunks text window overlap = Some chunks ->
  (forall c, c ∈ chunks -> exists k, c = slice text k (k + window)) /\
  (forall a b, 0 <= a -> a <= b -> b <= len text -> b - a <= overlap ->
     exists k, 0 <= k /\ k <= a /\ b <= k + window /\ slice text k (k + window) ∈ chunks).
Proof.
  unfold iter_overlapping_chunks. destruct (Z.leb_spec (window - overlap) 0) as [Hs|Hs].
  { split; [split; [done|lia]|done]. }
  split; [split; [lia|done]|]. intros chunks Ho. set (fuel := S _). intros Hc%Some_inj. subst chunks.
  assert (len text < Z.of_nat fuel) as Hf by (unfold fuel, len; lia). clearbody fuel.
  split; [intros c; apply chunks_go_slices|].
  intros a b Ha Hab Hb Hl. apply chunks_go_cover; try lia. nia.
Qed.

(** ** Theorems: one text through [sanitize] *)

(** What the orchestrator relies on: a loaded rule has a non-empty pattern. *)
Class LoaderOk (cfg : orchestrator) : Prop :=
  loader_nonempty : forall team rs, oc_load_rules cfg team = Ok rs -> patterns_nonempty rs.

(** [text] is within the size limit of [cfg], or above it. *)
Definition text_oversize (cfg : orchestrator) (text : str) : result orch_error bool :=
  let! encoded := or_raise UnicodeEncodeError (utf8_encode text) in
  lift_err ConfigError (should_skip_sanitization (len encoded) (oc_size_threshold cfg)).

Definition as_hit (r : sanitize_result) : sanitize_result :=
  SanitizeResult (sr_text r) (sr_pairs r) true (sr_skipped r) (sr_block_reason r)
                 (sr_applied_spans r) (sr_rule_originals r).

(** The findings that detection merges into the pairs of one text. *)
Definition leaf_findings {U : Unicode} (cfg : orchestrator) (text : str) : result orch_error (list finding) :=
  let! local := run_pass (oc_local cfg) text in
  Ok (match oc_gazetteer cfg with Some gaz => deduplicate (local ++ gaz text) | None => local end).

Definition allowed (cfg : orchestrator) (o : str) : Prop :=
  match oc_allowlist cfg with Some l => o ∈ l | None => False end.

Section LeafFacts.
Context {U : Unicode}.

(** *** What detection finds is replaced *)

(** Every pair of the base and every finding's text has its original in the merged pairs. *)
Lemma merge_local_originals base fs o :
  o ∈ map fst (merge_local base fs) <-> o ∈ map fst base \/ o ∈ map f_text fs.
Proof.
  unfold merge_local. set (st0 := MergeState _ _ _ []).
  destruct (merge_fold_ok base (sort_on merge_key fs) st0 (merge_init_ok base)) as [[H1 _ _ _ _ _ _] Hs].
  rewrite <- H1. split.
  - assert (forall l st x, x ∈ mg_seen (foldl merge_step_local st l) -> x ∈ mg_seen st \/ x ∈ map f_text l) as Hin.
    { clear. induction l as [|f l IH]; intros st x; cbn [foldl map]; [by left|]. intros Hx%IH.
      destruct Hx as [Hx|Hx]; [|right; by right]. revert Hx. unfold merge_step_local.
      case_match; [by left|]. cbn [mg_seen]. intros [->|Hx]%elem_of_cons; [right; by left|by left]. }
    intros Hx%Hin. destruct Hx as [Hx|Hx]; [by left|right].
    apply list_elem_of_fmap in Hx as (f & -> & Hf). apply list_elem_of_fmap_2. by rewrite elem_of_sort_on in Hf.
  - intros Ho. apply Hs. destruct Ho as [Ho|Ho]; [by left|right].
    apply list_elem_of_fmap in Ho as (f & -> & Hf). apply list_elem_of_fmap_2. by rewrite elem_of_sort_on.
Qed.

Lemma allowlisted_originals cfg pairs o :
  o ∈ map fst pairs -> ~ allowed cfg o -> o ∈ map fst (allowlisted cfg pairs).
Proof.
  unfold allowed, allowlisted. destruct (oc_allowlist cfg) as [l|]; [|done]. intros Ho Hl.
  apply list_elem_of_fmap in Ho as (p & -> & Hp). apply list_elem_of_fmap_2.
  unfold filter_pairs. destruct l as [|a l]; [done|]. apply elem_of_lfilter. split; [done|]. rewrite (proj2 (memb_false p.1 _)); done.
Qed.

Lemma detect_leaf_originals cfg text rs conv fs pairs f :
  detect_leaf cfg text rs conv false (Some (rule_matches rs text)) = Ok pairs ->
  leaf_findings cfg text = Ok fs -> f ∈ fs -> ~ allowed cfg (f_text f) -> f_text f ∈ map fst pairs.
Proof.
  unfold detect_leaf, leaf_findings. intros H Hfs Hf Ha. bind_ok H as merged Em.
  injection H as <-. apply allowlisted_originals; [|done]. bind_ok Hfs as local El. injection Hfs as <-.
  apply (list_elem_of_fmap_2 f_text) in Hf. unfold detect_merged in Em.
  destruct (oc_gazetteer cfg) as [gaz|].
  - rewrite El in Em. cbn [rbind] in Em. bind_ok Em as runs Er. destruct runs; [bind_ok Em as oracle Eo|];
      injection Em as <-; apply merge_local_originals; by right.
  - destruct (oc_local cfg) as [p|].
    + destruct (oc_oracle_enabled cfg); [bind_ok Em as oracle Eo|]; rewrite El in Em; injection Em as <-;
        apply merge_local_originals; by right.
    + injection El as <-. set_solver.
Qed.

(** The pairs of the rule matches come first. *)
Lemma detect_leaf_rules cfg text rs conv rms pairs : detect_leaf cfg text rs conv false (Some rms) = Ok pairs ->
  exists rest, pairs = allowlisted cfg (rule_pairs rms ++ rest).
Proof.
  unfold detect_leaf. intros H. bind_ok H as merged Em. apply ok_inj in H as <-.
  assert (exists rest, merged = rule_pairs rms ++ rest) as [rest ->]; [|by exists rest]. unfold detect_merged, merge_local in Em.
  destruct (oc_gazetteer cfg) as [gaz|].
  - bind_ok Em as local El. bind_ok Em as runs Er. destruct runs; [bind_ok Em as oracle Eo|]; apply ok_inj in Em as <-; rewrite <- ?app_assoc; by eexists.
  - destruct (oc_local cfg) as [lp|].
    + destruct (oc_oracle_enabled cfg); [bind_ok Em as oracle Eo|]; bind_ok Em as local El; apply ok_inj in Em as <-; rewrite <- ?app_assoc; by eexists.
    + destruct (negb (oc_oracle_enabled cfg)); [done|]. bind_ok Em as oracle Eo. apply ok_inj in Em as <-. by eexists.
Qed.

Lemma fromkeys_elem {A} `{EqDecision A} (seen l : list A) x : x ∈ l -> x ∉ seen -> x ∈ fromkeys seen l.
Proof.
  revert seen. induction l as [|y l IH]; intros seen Hx Hs; cbn; [set_solver|]. destruct (memb y seen) eqn:E.
  - apply memb_true in E. apply IH; [|done]. apply elem_of_cons in Hx as [->|Hx]; done.
  - destruct (decide (x = y)) as [->|Hxy]; [by left|]. right. apply IH; set_solver.
Qed.

Lemma fromkeys_subset {A} `{EqDecision A} (seen l : list A) x : x ∈ fromkeys seen l -> x ∈ l.
Proof. revert seen. induction l as [|y l IH]; intros seen; cbn; [done|]. destruct (memb y seen); [intros ?%IH; by right|]. intros [->|H%IH]%elem_of_cons; [by left|by right]. Qed.

Lemma allowlisted_app cfg a b : allowlisted cfg (a ++ b) = allowlisted cfg a ++ allowlisted cfg b.
Proof. unfold allowlisted, filter_pairs. destruct (oc_allowlist cfg) as [[|]|]; [done| |done]. apply List.filter_app. Qed.

(** A rule match that is not allowlisted is active. *)
Lemma rules_active cfg text rs conv rms pairs m : detect_leaf cfg text rs conv false (Some rms) = Ok pairs ->
  m ∈ rms -> ~ allowed cfg (mr_original m) -> mr_original m <> [] -> mr_original m ∈ default_active (unique_pairs [] pairs) rms.
Proof.
  intros [rest ->]%detect_leaf_rules Hm Ha Hne. rewrite allowlisted_app.
  destruct (unique_pairs_first (allowlisted cfg (rule_pairs rms)) (allowlisted cfg rest) [] (mr_original m)) as (r & H1 & H2); [|done|set_solver|].
  - apply allowlisted_originals; [|done]. apply list_elem_of_fmap. exists (mr_original m, mr_replacement m). split; [done|].
    unfold rule_pairs. apply fromkeys_elem; [|set_solver]. apply list_elem_of_fmap. by exists m.
  - apply default_active_elem. assert ((mr_original m, r) ∈ rule_pairs rms) as Hr.
    { revert H1. unfold allowlisted, filter_pairs. destruct (oc_allowlist cfg) as [[|]|]; [done| |done]. by intros [? _]%elem_of_lfilter. }
    apply fromkeys_subset, list_elem_of_fmap in Hr as (m' & E & Hm'). injection E as E1 E2. exists m'. rewrite <- E2, <- E1. done.
Qed.

(** A finding that is dropped touches a kept one of at least its score. *)
Lemma leaf_findings_maximal cfg text fs local f : leaf_findings cfg text = Ok fs -> run_pass (oc_local cfg) text = Ok local ->
  f ∈ local ++ match oc_gazetteer cfg with Some gaz => gaz text | None => [] end -> f_start f < f_end f ->
  exists k, k ∈ fs /\ overlaps f k = true /\ (f_score f <= f_score k)%Q.
Proof.
  unfold leaf_findings. intros Hfs Hl Hf Hne. rewrite Hl in Hfs. cbn [rbind] in Hfs. apply ok_inj in Hfs as <-.
  destruct (oc_gazetteer cfg) as [gaz|]; [by apply deduplicate_maximal|]. rewrite app_nil_r in Hf. exists f.
  split_and!; [done|unfold overlaps; lia|apply Qle_refl].
Qed.

(** *** Chunk mode *)

Lemma remap_originals pairs exempt st : map fst (remap pairs exempt st).1 = map fst pairs.
Proof.
  revert st. induction pairs as [|[o p] pairs IH]; intros st; cbn [remap map]; [done|].
  destruct (canonical o p _ st) as [chosen st1]. specialize (IH st1).
  destruct (remap pairs exempt st1) as [rest st2]. cbn in *. by rewrite IH.
Qed.

(** The originals seen are those of the pairs collected, each once. *)
Definition absorb_ok (st : absorb_state) : Prop :=
  (forall o, o ∈ ab_seen st <-> o ∈ map fst (ab_pairs st)) /\ NoDup (map fst (ab_pairs st)).

Lemma absorb_pairs_ok l st :
  absorb_ok st ->
  absorb_ok (absorb_pairs l st).2 /\
  (forall o, o ∈ map fst (ab_pairs (absorb_pairs l st).2) <-> o ∈ map fst (ab_pairs st) \/ o ∈ map fst l) /\
  (forall p, p ∈ (absorb_pairs l st).1 -> p ∈ l) /\ exists tail, ab_pairs (absorb_pairs l st).2 = ab_pairs st ++ tail.
Proof.
  revert st. induction l as [|p l IH]; intros st Hst; cbn [absorb_pairs map].
  { split_and!; [done|set_solver|set_solver|exists []; by rewrite app_nil_r]. }
  destruct (memb p.1 (ab_seen st)) eqn:E.
  - apply memb_true in E. destruct (IH st Hst) as (H1 & H2 & H3 & H4). split_and!; [done| |set_solver|done].
    intros o. rewrite H2, elem_of_cons. apply (proj1 Hst) in E. split; [tauto|]. intros [?|[->|?]]; tauto.
  - apply memb_false in E. destruct Hst as [Hs Hn].
    set (st1 := AbsorbState (ab_alloc st) (ab_pairs st ++ [p]) (p.1 :: ab_seen st)).
    assert (absorb_ok st1) as Hst1.
    { split; cbn; rewrite map_app; cbn.
      - intros o. rewrite elem_of_cons, elem_of_app, list_elem_of_singleton, Hs. tauto.
      - apply NoDup_app. split_and!; [done| |apply NoDup_singleton].
        intros x Hx ->%list_elem_of_singleton. by apply E, Hs. }
    specialize (IH st1 Hst1). destruct (absorb_pairs l st1) as [acc st2]. cbn [fst snd] in *.
    destruct IH as (H1 & H2 & H3 & tail & H4). split_and!; [done| |set_solver|].
    + intros o. rewrite H2. cbn [st1 ab_pairs]. rewrite map_app, elem_of_app, elem_of_cons. cbn.
      rewrite list_elem_of_singleton. tauto.
    + exists (p :: tail). rewrite H4. cbn [st1 ab_pairs]. by rewrite <- app_assoc.
Qed.

Lemma absorb_step_ok exempt cand st :
  absorb_ok st ->
  absorb_ok (absorb exempt cand st).2 /\
  (forall o, o ∈ map fst (ab_pairs (absorb exempt cand st).2) <->
             o ∈ map fst (ab_pairs st) \/ o ∈ map fst cand) /\
  (forall o, o ∈ map fst (absorb exempt cand st).1 -> o ∈ map fst cand).
Proof.
  intros Hst. unfold absorb. pose proof (remap_originals cand exempt (ab_alloc st)) as Er.
  destruct (remap cand exempt (ab_alloc st)) as [remapped al]. cbn in Er.
  destruct (absorb_pairs_ok remapped (AbsorbState al (ab_pairs st) (ab_seen st)) Hst) as (H1 & H2 & H3 & _).
  rewrite <- Er. split_and!; [done|done|]. intros o Ho. apply list_elem_of_fmap in Ho as (p & -> & Hp).
  apply list_elem_of_fmap_2. by apply H3.
Qed.

Lemma absorb_chunks_ok cfg rs conv exempt chunks st st' :
  absorb_ok st -> absorb_chunks cfg rs conv exempt chunks st = Ok st' ->
  absorb_ok st' /\ (forall o, o ∈ map fst (ab_pairs st) -> o ∈ map fst (ab_pairs st')) /\
  (forall c pairs o, c ∈ chunks -> detect_leaf cfg c rs conv true None = Ok pairs -> o ∈ map fst pairs ->
     o ∈ map fst (ab_pairs st')).
Proof.
  revert st. induction chunks as [|c chunks IH]; intros st Hst H; cbn [absorb_chunks] in H.
  { injection H as <-. split_and!; [done|done|set_solver]. }
  bind_ok H as pairs Ed. destruct (absorb_step_ok exempt pairs st Hst) as (H1 & H2 & _).
  destruct (IH _ H1 H) as (H3 & H4 & H5). split_and!; [done| |].
  - intros o Ho. apply H4, H2. by left.
  - intros c' pairs' o Hc Hd Ho. apply elem_of_cons in Hc as [->|Hc]; [|by eapply H5].
    rewrite Ed in Hd. injection Hd as <-. apply H4, H2. by right.
Qed.

Lemma rule_pairs_originals rms o r :
  (o, r) ∈ rule_pairs rms -> exists m, m ∈ rms /\ mr_original m = o.
Proof.
  unfold rule_pairs. intros H.
  assert (forall seen (l : list pair) x, x ∈ fromkeys seen l -> x ∈ l) as Hin.
  { clear. intros seen l. revert seen. induction l as [|y l IH]; intros seen x; cbn; [done|].
    case_match; [intros ?%IH; by right|]. intros [->|?%IH]%elem_of_cons; [by left|by right]. }
  apply Hin, list_elem_of_fmap in H as (m & [= -> ->] & Hm). eauto.
Qed.

Lemma allowlisted_subset cfg pairs p : p ∈ allowlisted cfg pairs -> p ∈ pairs.
Proof.
  unfold allowlisted, filter_pairs. repeat case_match; try done.
  by intros [Hp _]%elem_of_lfilter.
Qed.

(** Chunk mode sees all findings of the full-text pass and of every chunk, and
    only a rule match can own an original. *)
Lemma chunked_plan_pairs cfg text rs conv plan :
  chunked_plan cfg text rs conv = Ok plan ->
  exists full pairs active,
    detect text = Some full /\
    plan_replacements text pairs (rule_matches rs text) (Some active) = Ok plan /\
    (forall f, f ∈ full -> f_text f ∈ map fst pairs) /\
    (forall c chunks ps o, iter_overlapping_chunks text (oc_chunk_window cfg) (oc_chunk_overlap cfg) = Some chunks ->
       c ∈ chunks -> detect_leaf cfg c rs conv true None = Ok ps -> o ∈ map fst ps -> o ∈ map fst pairs) /\
    (forall o, o ∈ active -> exists m, m ∈ rule_matches rs text /\ mr_original m = o).
Proof.
  unfold chunked_plan. set (rp := allowlisted cfg _).
  assert (absorb_ok (AbsorbState alloc_init [] [])) as H0 by (split; [done|constructor]).
  destruct (absorb_step_ok (map fst rp) rp _ H0) as (H1 & _ & Hacc).
  destruct (absorb (map fst rp) rp (AbsorbState alloc_init [] [])) as [canon st1]. cbn [fst snd] in *.
  intros H. bind_ok H as full Ef. exists full.
  destruct (absorb_step_ok (map fst rp) (merge_local [] full) _ H1) as (H2 & Hfull & _).
  destruct (absorb (map fst rp) (merge_local [] full) st1) as [x st2]. cbn [fst snd] in *.
  bind_ok H as chunks Ec. bind_ok H as st3 Eb.
  destruct (absorb_chunks_ok _ _ _ _ _ _ _ H2 Eb) as (_ & Hmono & Hch).
  destruct (plan_replacements _ _ _ _) as [plan'|] eqn:Ep; [|discriminate H]. injection H as ->.
  exists (ab_pairs st3), (list_to_set (map fst canon)). split_and!.
  - destruct (detect text); [by injection Ef as ->|done].
  - done.
  - intros f Hf. apply Hmono, Hfull. right. apply merge_local_originals. right. by apply list_elem_of_fmap_2.
  - intros c chunks' ps o Hc' Hin Hd Ho. rewrite Hc' in Ec. injection Ec as ->. by eapply Hch.
  - intros o Ho%elem_of_list_to_set. apply Hacc in Ho.
    apply list_elem_of_fmap in Ho as ([o' r] & -> & Ho). apply allowlisted_subset in Ho.
    by apply rule_pairs_originals in Ho.
Qed.
End LeafFacts.

Section SanitizeFacts.
Context {U : Unicode} {S : Type} {MS : MappingStore S} {SV : StoreView S} {ML : MappingStoreLaws S}.

(** The miss path, step by step. *)
Lemma sanitize_miss cfg text team conv profile t1 t2 t3 (st : S) r st' :
  text_oversize cfg text = Ok false ->
  sanitize cfg text team conv profile t1 t2 t3 st = Ok (r, st') -> sr_cache_a_hit r = false ->
  exists rs key pairs plan,
    oc_load_rules cfg team = Ok rs /\ cache_key cfg team rs text profile = Ok key /\
    detect_leaf cfg text rs conv false (Some (rule_matches rs text)) = Ok pairs /\
    plan_replacements text pairs (rule_matches rs text) None = Ok plan /\
    r = of_plan plan false /\
    st' = record_conversation cfg conv (pl_pairs plan) t3
            (store_dedup cfg key (pl_pairs plan) t2 (lookup_dedup key t1 st).2).
Proof using.
  unfold text_oversize, sanitize. intros Ho H Hh. bind_ok H as enc Ee. bind_ok Ho as enc' Ee'.
  rewrite Ee in Ee'. injection Ee' as <-. rewrite Ho in H. cbn [rbind] in H.
  bind_ok H as rs Er. bind_ok H as key Ek.
  destruct (lookup_dedup key t1 st) as [[pairs|] st1] eqn:El.
  - bind_ok H as plan Ep. injection H as <- <-. discriminate Hh.
  - bind_ok H as pairs Ed. bind_ok H as plan Ep. injection H as <- <-.
    destruct (plan_replacements _ _ _ _) as [plan'|] eqn:Ep'; [|discriminate Ep].
    injection Ep as ->. eexists _, _, _, _. rewrite El. done.
Qed.

Lemma record_dedup cfg conv pairs now st t h :
  view_dedup (record_conversation cfg conv pairs now st) t h = view_dedup st t h.
Proof using ML.
  unfold record_conversation, record_mappings. revert st.
  induction pairs as [|p pairs IH]; intros st; cbn; [done|]. by rewrite IH, put_dedup.
Qed.

(** C12: Cache A is transparent. After a text was sanitized on a miss, sanitizing
    the same text again within the TTL, in any conversation and by any process
    whose key inputs agree (fingerprint, oracle switch, rules, size limit),
    gives the very same text, pairs, spans and rule originals, whatever the
    detectors or the oracle would answer now. *)
Theorem cache_a_replay cfg cfg' fp text team conv conv' profile t1 t2 t3 t4 t5 t6 (st : S) r st' :
  LoaderOk cfg -> text_oversize cfg text = Ok false -> oc_policy_fingerprint cfg = Some fp ->
  sanitize cfg text team conv profile t1 t2 t3 st = Ok (r, st') -> sr_cache_a_hit r = false ->
  oc_policy_fingerprint cfg' = Some fp -> oc_oracle_enabled cfg' = oc_oracle_enabled cfg ->
  oc_load_rules cfg' team = oc_load_rules cfg team -> oc_size_threshold cfg' = oc_size_threshold cfg ->
  (t4 < t2 + oc_cache_a_ttl cfg)%Q ->
  exists st2, sanitize cfg' text team conv' profile t4 t5 t6 st' = Ok (as_hit r, st2).
Proof using ML.
  intros HL Ho Hfp Hs Hh Hfp' Hen Hrl Hth Ht.
  destruct (sanitize_miss _ _ _ _ _ _ _ _ _ _ _ Ho Hs Hh) as (rs & key & pairs & plan & Er & Ek & _ & Ep & -> & ->).
  assert (cache_key cfg' team rs text profile = Ok key) as Ek'.
  { revert Ek. unfold cache_key. by rewrite Hfp, Hfp', Hen. }
  assert (exists h, key = Some h) as [h ->].
  { revert Ek. unfold cache_key. rewrite Hfp. destruct (or_raise _ _); [|done]. intros [= <-]. eauto. }
  revert Ho. unfold text_oversize, sanitize. destruct (or_raise _ (utf8_encode text)); [|done].
  cbn. rewrite Hth. intros ->. cbn. rewrite Hrl, Er. cbn. rewrite Ek'. cbn.
  set (st0 := record_conversation cfg _ _ _ _).
  assert ((get_dedup h t4 st0).1 = Some (pl_pairs plan)) as Hg.
  { unfold st0. rewrite get_dedup_view, record_dedup, set_dedup_view, decide_True by done.
    destruct (Qlt_le_dec t4 (t2 + oc_cache_a_ttl cfg)) as [|Hle]; [done|by apply Qlt_not_le in Ht]. }
  destruct (get_dedup h t4 st0) as [m st1]. cbn in Hg. subst m.
  rewrite (plan_replay rs text pairs plan (HL _ _ Er) Ep). cbn. eauto.
Qed.

(** C2: what detection finds does not leave.  When a text is sanitized on a miss, every
    occurrence of the text of every finding that detection keeps, unless it is allowlisted or
    the very text of a rule match, touches a replaced span at least as long; so does every
    rule match whose text is not allowlisted; and a finding of the local pass or the gazetteer
    that the deduplication drops touches a kept one of at least its score. *)
Theorem sanitize_redacts_findings cfg text team conv profile t1 t2 t3 (st : S) r st' rs fs :
  LoaderOk cfg -> text_oversize cfg text = Ok false ->
  sanitize cfg text team conv profile t1 t2 t3 st = Ok (r, st') -> sr_cache_a_hit r = false ->
  oc_load_rules cfg team = Ok rs -> leaf_findings cfg text = Ok fs ->
  (forall f a b, f ∈ fs -> f_text f <> [] -> ~ allowed cfg (f_text f) -> (a, b) ∈ find_literal (f_text f) text ->
     (forall m, m ∈ rule_matches rs text -> mr_original m <> f_text f) ->
     exists s, s ∈ sr_applied_spans r /\ ranges_overlap (a, b) (sp_start s, sp_end s) = true /\ b - a <= sp_end s - sp_start s) /\
  (forall m, m ∈ rule_matches rs text -> ~ allowed cfg (mr_original m) ->
     exists s, s ∈ sr_applied_spans r /\ ranges_overlap (mr_span m) (sp_start s, sp_end s) = true /\
               mr_end m - mr_start m <= sp_end s - sp_start s) /\
  (forall local f, run_pass (oc_local cfg) text = Ok local ->
     f ∈ local ++ match oc_gazetteer cfg with Some gaz => gaz text | None => [] end -> f_start f < f_end f ->
     exists k, k ∈ fs /\ overlaps f k = true /\ (f_score f <= f_score k)%Q).
Proof using.
  intros HL Ho Hs Hh Er Hfs.
  destruct (sanitize_miss _ _ _ _ _ _ _ _ _ _ _ Ho Hs Hh) as (rs' & key & pairs & plan & Er' & _ & Ed & Ep & -> & _).
  rewrite Er in Er'. apply ok_inj in Er' as <-. pose proof (rule_matches_all_wf rs text (HL _ _ Er)) as Hm.
  cbn [of_plan sr_applied_spans]. split_and!.
  - intros f a b Hf Hne Hal Hab Hrule. pose proof (detect_leaf_originals _ _ _ _ _ _ _ Ed Hfs Hf Hal) as Hin.
    apply list_elem_of_fmap in Hin as ([o p] & Eo & Hin). cbn in Eo. rewrite Eo in *. eapply plan_covers_finding; try done.
    intros (m & Hmm & Hmo & _)%default_active_elem. by apply (Hrule m).
  - intros m Hmm Hal. eapply plan_covers_rule; try done. eapply rules_active; try done. rewrite Forall_forall in Hm. destruct (Hm m Hmm) as [M1 M2 M3 M4].
    intros E. assert (len (slice text (mr_start m) (mr_end m)) = mr_end m - mr_start m) as Hlen by (apply len_slice; lia). rewrite <- M4, E, len_nil in Hlen. lia.
  - intros local f Hl Hf Hne. by eapply leaf_findings_maximal.
Qed.

(** no secret survives a seam. In chunk mode every occurrence of the text
    of every finding of the full-text regex and checksum pass, allowlisted or
    not, and of every original found in some chunk, touches a replaced span at
    least as long, unless a rule matched that very text and owns it. *)
Theorem chunked_redacts_findings cfg text rs conv plan o a b :
  LoaderOk cfg -> (exists team, oc_load_rules cfg team = Ok rs) ->
  chunked_plan cfg text rs conv = Ok plan -> o <> [] ->
  (exists full f, detect text = Some full /\ f ∈ full /\ f_text f = o) \/
  (exists chunks c ps, iter_overlapping_chunks text (oc_chunk_window cfg) (oc_chunk_overlap cfg) = Some chunks /\
     c ∈ chunks /\ detect_leaf cfg c rs conv true None = Ok ps /\ o ∈ map fst ps) ->
  (a, b) ∈ find_literal o text ->
  (exists m, m ∈ rule_matches rs text /\ mr_original m = o) \/
  (exists s, s ∈ pl_spans plan /\ ranges_overlap (a, b) (sp_start s, sp_end s) = true /\
             b - a <= sp_end s - sp_start s).
Proof using.
  intros HL [team Er] Hc Hne Hfound Hab.
  destruct (chunked_plan_pairs _ _ _ _ _ Hc) as (full & pairs & active & Ed & Ep & Hfull & Hch & Hact).
  assert (o ∈ map fst pairs) as Hin.
  { destruct Hfound as [(full' & f & Ed' & Hf & <-)|(chunks & c & ps & Ec & Hin & Hd & Ho)].
    - rewrite Ed in Ed'. injection Ed' as <-. by apply Hfull.
    - by eapply Hch. }
  destruct (decide (o ∈ active)) as [Ha|Ha]; [left; by apply Hact|right].
  apply list_elem_of_fmap in Hin as ([o' p] & -> & Hin).
  by eapply plan_covers_finding; [apply rule_matches_all_wf, (HL _ _ Er)|..].
Qed.

Lemma plan_text text pairs rms active p :
  plan_replacements text pairs rms active = Ok p -> apply_spans text (pl_spans p) (pl_pairs p) = Ok (pl_text p).
Proof using.
  unfold plan_replacements. destruct (apply_spans _ _ _) eqn:E; [|done]. intros [= <-]. exact E.
Qed.

(** C13: fail closed.  A text above the size limit is blocked with [OversizeContentError],
    which carries its size, unless the policy is [chunk] or the policy is [deliver-flag] and
    the team opted in.  In chunk mode what is delivered is a replacement plan of the text,
    its pairs recorded, in which every occurrence of every value the regex and checksum pass
    finds in the full text touches a replaced span at least as long, unless a rule matched
    that very text; an opted-in text is delivered as it is, flagged and with nothing recorded,
    only when a full scan found nothing.  The only other errors are those of the rules, of
    the detection on a chunk and of the scan, and then nothing is delivered. *)
Theorem oversize_never_raw cfg text team conv profile t1 t2 t3 (st : S) :
  text_oversize cfg text = Ok true ->
  (exists n, sanitize cfg text team conv profile t1 t2 t3 st = Raise (OversizeContentError n (oc_size_threshold cfg)) /\
     oc_size_threshold cfg < n /\ n = len (default [] (utf8_encode text))) \/
  (exists e, sanitize cfg text team conv profile t1 t2 t3 st = Raise e /\ oc_oversize_policy cfg <> OVERSIZE_FAIL_CLOSED /\
     (oc_oversize_policy cfg = OVERSIZE_DELIVER_FLAG -> team ∈ oc_oversize_deliver_teams cfg) /\
     (oc_load_rules cfg team = Raise e \/
      exists rs, oc_load_rules cfg team = Ok rs /\
        match oc_oversize_policy cfg with
        | OVERSIZE_CHUNK => chunked_plan cfg text rs conv = Raise e
        | _ => scan_findings cfg text rs conv = Raise e
        end)) \/
  (exists rs plan, sanitize cfg text team conv profile t1 t2 t3 st =
       Ok (of_plan plan false, record_conversation cfg conv (pl_pairs plan) t3 st) /\
     oc_oversize_policy cfg = OVERSIZE_CHUNK /\
     oc_load_rules cfg team = Ok rs /\ apply_spans text (pl_spans plan) (pl_pairs plan) = Ok (pl_text plan) /\
     (LoaderOk cfg -> forall full f a b, detect text = Some full -> f ∈ full -> f_text f <> [] -> (a, b) ∈ find_literal (f_text f) text ->
        (forall m, m ∈ rule_matches rs text -> mr_original m <> f_text f) ->
        exists s, s ∈ pl_spans plan /\ ranges_overlap (a, b) (sp_start s, sp_end s) = true /\ b - a <= sp_end s - sp_start s)) \/
  (exists rs, sanitize cfg text team conv profile t1 t2 t3 st =
       Ok (SanitizeResult text [] false true (Some OVERSIZE_DELIVERED_REASON) [] ∅, st) /\
     oc_oversize_policy cfg = OVERSIZE_DELIVER_FLAG /\ team ∈ oc_oversize_deliver_teams cfg /\
     oc_load_rules cfg team = Ok rs /\ scan_findings cfg text rs conv = Ok []).
Proof using.
  unfold text_oversize, sanitize. destruct (utf8_encode text) as [enc|] eqn:Ee; [|done]. cbn [or_raise rbind default].
  intros Ho. rewrite Ho. cbn [rbind].
  assert (oc_size_threshold cfg < len enc) as Hlt.
  { revert Ho. unfold should_skip_sanitization. repeat case_match; cbn; try done.
    intros [= ?%Z.ltb_lt]. done. }
  unfold handle_oversize. destruct (oc_oversize_policy cfg) eqn:Ep.
  - left. eauto.
  - destruct (oc_load_rules cfg team) as [rs|e] eqn:Er; cbn; [|right; left; exists e; split_and!; [done|done|done|by left]].
    destruct (chunked_plan cfg text rs conv) as [plan|e] eqn:Ec; cbn; [|right; left; exists e; split_and!; [done|done|done|right; by exists rs]].
    right; right; left. exists rs, plan. split_and!; [done|done|done| |].
    + destruct (chunked_plan_pairs _ _ _ _ _ Ec) as (full & pairs & active & _ & Hp & _). by eapply plan_text.
    + intros HL full f a b Hd Hf Hne Hab Hrule.
      destruct (chunked_redacts_findings cfg text rs conv plan (f_text f) a b) as [(m & Hm & Hmo)|H]; try done; [by exists team|left; by exists full, f|].
      by destruct (Hrule m).
  - destruct (memb team _) eqn:Em; [apply memb_true in Em|left; eauto].
    destruct (oc_load_rules cfg team) as [rs|e] eqn:Er; cbn; [|right; left; exists e; split_and!; [done|done|done|by left]].
    unfold deliver_oversize. destruct (scan_findings cfg text rs conv) as [[|f fs]|e] eqn:Ec; cbn.
    + right; right; right. exists rs. done.
    + left. eauto.
    + right; left. exists e. split_and!; [done|done|done|right; by exists rs].
Qed.

(** Every result is a replacement plan of the text, or the text itself with no pairs. *)
Lemma sanitize_applies cfg text team conv profile t1 t2 t3 (st : S) r st' :
  sanitize cfg text team conv profile t1 t2 t3 st = Ok (r, st') ->
  apply_spans text (sr_applied_spans r) (sr_pairs r) = Ok (sr_text r).
Proof using.
  unfold sanitize. intros H. bind_ok H as enc Ee. bind_ok H as big Eb. destruct big.
  - unfold handle_oversize, deliver_oversize in H. repeat case_match; try done.
    + bind_ok H as rs Er. bind_ok H as plan Ec. injection H as <- <-. unfold chunked_plan in Ec.
      repeat case_match. bind_ok Ec as full Ef. repeat case_match.
      bind_ok Ec as chunks Ek. bind_ok Ec as ab Ea.
      destruct (plan_replacements _ _ _ _) as [plan'|] eqn:Ep; [|discriminate Ec]. injection Ec as ->.
      by apply plan_text in Ep.
    + bind_ok H as rs Er. bind_ok H as r' Es. injection H as <- <-. bind_ok Es as fs Ef.
      destruct fs; [|discriminate Es]. injection Es as <-. cbn. unfold apply_spans. cbn. by rewrite slice_full.
  - bind_ok H as rs Er. bind_ok H as key Ek. destruct (lookup_dedup key t1 st) as [[pairs|] st1].
    + bind_ok H as plan Ep. injection H as <- <-.
      destruct (plan_replacements _ _ _ _) as [plan'|] eqn:Ep'; [|discriminate Ep]. injection Ep as ->.
      by apply plan_text in Ep'.
    + bind_ok H as pairs Ed. bind_ok H as plan Ep. injection H as <- <-.
      destruct (plan_replacements _ _ _ _) as [plan'|] eqn:Ep'; [|discriminate Ep]. injection Ep as ->.
      by apply plan_text in Ep'.
Qed.

(** C3: out and back. Whatever path [sanitize] took (Cache A, detection, chunk
    mode, flagged delivery), if its placeholders are bracketed, distinct and
    not part of the text, then an answer that echoes the sanitized text in
    chunks of any cut streams back to the client as the original text. *)
Theorem sanitize_stream_roundtrip cfg text team conv profile t1 t2 t3 (st : S) r st' chunks :
  sanitize cfg text team conv profile t1 t2 t3 st = Ok (r, st') ->
  NoDup (map snd (sr_pairs r)) ->
  (forall o p, (o, p) ∈ sr_pairs r -> bracketed p /\ contains text p = false) ->
  concat chunks = sr_text r ->
  exists ys d, stream (desanitizer_init (sr_pairs r) None) chunks = Ok (ys, d) /\ concat ys = text.
Proof using.
  intros H Hnd Hp Hc. apply sanitize_applies in H.
  destruct (apply_spans_items _ _ _ _ Hnd H) as (items & Hsrc & Hr & Htok).
  assert (escape_pairs None (sr_pairs r) = sr_pairs r) as Ee.
  { unfold escape_pairs. rewrite <- (map_id (sr_pairs r)) at 2. apply map_ext. by intros []. }
  destruct (stream_run (sr_pairs r) None items chunks) as (ys & d & Hs & Ho & _).
  - rewrite Ee. split; [by rewrite Hsrc|done].
  - by rewrite Hc.
  - exists ys, d. by rewrite Ho.
Qed.
End SanitizeFacts.

(** ** Witnesses *)

Definition regex_detector : detector :=
  Detector 0 (fun t => match detect (U := ru_unicode) t with Some fs => Ok fs | None => Raise DetectorValueError end) None.

(** A client-less orchestrator with the regex detector; the size limit and the
    oversize policy are arguments. *)
Definition demo_orch (threshold : Z) (policy : oversize_policy) (teams : list str) : orchestrator :=
  Orch false (fun _ _ => Raise OracleError) (fun _ => Ok demo_rules) threshold policy teams 24 8
       (Some (LocalPass [regex_detector] None)) None (Some (fun _ => [])) (Some [u8 "x@acme.ru"])
       ORACLE_TRIGGER_GAZETTEER_HIT None (Some demo_fp) 36000 3600.

Definition demo_mail : str := u8 "mail ivan@acme.ru, ACME bank: ivan@acme.ru".

Lemma demo_loader_ok threshold policy teams : LoaderOk (demo_orch threshold policy teams).
Proof. intros team rs [= <-]. apply demo_rules_nonempty. Qed.

Definition demo_run (threshold : Z) (policy : oversize_policy) (teams : list str) (conv : str) (now : Q)
  (st : mem_store) : result orch_error (sanitize_result * mem_store) :=
  sanitize (U := ru_unicode) (demo_orch threshold policy teams) demo_mail (u8 "team") conv None now now now st.

Definition first_run : result orch_error (sanitize_result * mem_store) :=
  demo_run 1000 OVERSIZE_FAIL_CLOSED [] (u8 "c1") 10 mem_empty.

Lemma first_run_miss : exists r st', first_run = Ok (r, st') /\ sr_cache_a_hit r = false.
Proof.
  assert (match first_run with Ok (x, _) => negb (sr_cache_a_hit x) | Raise _ => false end = true) as H
    by (vm_compute; reflexivity).
  destruct first_run as [[r st']|e]; [|discriminate H]. exists r, st'. by apply negb_true_iff in H.
Qed.

Definition demo_args : orch_args :=
  OrchArgs None (fun _ => Ok demo_rules) 36000 3600 DEFAULT_THRESHOLD_BYTES (u8 " Chunk ") []
    DEFAULT_CHUNK_WINDOW_CHARS DEFAULT_CHUNK_OVERLAP_CHARS (Some [regex_detector]) None None None (u8 "Sampled:7") false.

Definition demo_built : result orch_error orchestrator :=
  orch_init (U := ru_unicode) (fun _ => Some (u8 "RegexChecksumDetector")) (fun _ => true) demo_args.

Lemma demo_built_sampled : exists o, demo_built = Ok o /\ oc_oracle_sample_pct o = Some 7.
Proof.
  assert (match demo_built with Ok o => bool_decide (oc_oracle_sample_pct o = Some 7) | Raise _ => false end = true)
    as H by (vm_compute; reflexivity).
  destruct demo_built as [o|e]; [|discriminate H]. exists o. by apply bool_decide_eq_true in H.
Qed.

Lemma orch_init_sound_witness :
  exists o, demo_built = Ok o /\ 0 <= default 0 (oc_oracle_sample_pct o) <= 100.
Proof.
  destruct demo_built_sampled as (o & E & Hs). exists o. split; [exact E|].
  destruct (orch_init_sound (U := ru_unicode) _ _ demo_args o E) as (_ & H & _).
  rewrite Hs in H |- *. exact H.
Defined.

Lemma cache_a_replay_witness :
  match first_run with
  | Ok (r, st') => exists st2, demo_run 1000 OVERSIZE_CHUNK [] (u8 "c2") 50 st' = Ok (as_hit r, st2)
  | Raise _ => False
  end.
Proof.
  destruct first_run_miss as (r & st' & E & Hh). rewrite E.
  refine (cache_a_replay (U := ru_unicode) (demo_orch 1000 OVERSIZE_FAIL_CLOSED []) (demo_orch 1000 OVERSIZE_CHUNK [])
            demo_fp demo_mail (u8 "team") (u8 "c1") (u8 "c2") None 10 10 10 50 50 50 mem_empty r st'
            (demo_loader_ok _ _ _) _ eq_refl E Hh eq_refl eq_refl eq_refl eq_refl _); vm_compute; reflexivity.
Defined.

Lemma chunks_cover_witness :
  exists k, 0 <= k /\ k <= 9 /\ 13 <= k + 8 /\
    slice demo_mail k (k + 8) ∈ default [] (iter_overlapping_chunks demo_mail 8 4).
Proof.
  destruct (chunks_cover demo_mail 8 4) as [_ H].
  apply (H (default [] (iter_overlapping_chunks demo_mail 8 4))); [lia|reflexivity|lia|lia| |lia].
  vm_compute. discriminate.
Defined.

Lemma oversize_never_raw_witness :
  (exists n, demo_run 10 OVERSIZE_DELIVER_FLAG [u8 "team"] (u8 "c") 10 mem_empty = Raise (OversizeContentError n 10)
             /\ 10 < n).
Proof.
  destruct (oversize_never_raw (U := ru_unicode) (demo_orch 10 OVERSIZE_DELIVER_FLAG [u8 "team"]) demo_mail
              (u8 "team") (u8 "c") None 10 10 10 mem_empty) as [H|[H|[H|H]]].
  - vm_compute. reflexivity.
  - destruct H as (n & H1 & H2 & _). by exists n.
  - exists 42. split; [vm_compute; reflexivity|lia].
  - exfalso. destruct H as (rs & plan & _ & H & _). discriminate H.
  - exfalso. destruct H as (rs & H & _). vm_compute in H. discriminate H.
Defined.

Lemma sanitize_redacts_findings_witness :
  match first_run with
  | Ok (r, _) => exists s, s ∈ sr_applied_spans r /\ ranges_overlap (30, 42) (sp_start s, sp_end s) = true /\
                           42 - 30 <= sp_end s - sp_start s
  | Raise _ => False
  end.
Proof.
  destruct first_run_miss as (r & st' & E & Hh). rewrite E.
  destruct (leaf_findings (U := ru_unicode) (demo_orch 1000 OVERSIZE_FAIL_CLOSED []) demo_mail) as [fs|] eqn:Ef;
    [|vm_compute in Ef; discriminate Ef].
  destruct (oc_load_rules (demo_orch 1000 OVERSIZE_FAIL_CLOSED []) (u8 "team")) as [rs|] eqn:Er; [|vm_compute in Er; discriminate Er].
  destruct (sanitize_redacts_findings (U := ru_unicode) (demo_orch 1000 OVERSIZE_FAIL_CLOSED []) demo_mail (u8 "team")
              (u8 "c1") None 10 10 10 mem_empty r st' rs fs) as [H _];
    [apply demo_loader_ok|vm_compute; reflexivity|exact E|exact Hh|exact Er|exact Ef|].
  vm_compute in Ef. injection Ef as <-. eapply H.
  - by left.
  - discriminate.
  - apply memb_false. vm_compute. reflexivity.
  - apply memb_true. vm_compute. reflexivity.
  - intros m Hm Ho. injection Er as <-. cbn [f_text] in Ho. apply list_elem_of_In in Hm. vm_compute in Hm.
    repeat (destruct Hm as [<-|Hm]; [discriminate Ho|]). destruct Hm.
Defined.

Lemma chunked_redacts_findings_witness :
  match chunked_plan (U := ru_unicode) (demo_orch 10 OVERSIZE_CHUNK []) demo_mail demo_rules (u8 "c") with
  | Ok plan => exists s, s ∈ pl_spans plan /\ ranges_overlap (30, 42) (sp_start s, sp_end s) = true /\
                         42 - 30 <= sp_end s - sp_start s
  | Raise _ => False
  end.
Proof.
  destruct (chunked_plan _ _ _ _) as [plan|e] eqn:E; [|vm_compute in E; discriminate E].
  destruct (chunked_redacts_findings (U := ru_unicode) (demo_orch 10 OVERSIZE_CHUNK []) demo_mail demo_rules (u8 "c")
              plan (u8 "ivan@acme.ru") 30 42) as [H|H]; try exact E; try apply demo_loader_ok.
  - by exists (u8 "team").
  - discriminate.
  - left. destruct (detect (U := ru_unicode) demo_mail) as [full|] eqn:Ed; [|vm_compute in Ed; discriminate Ed].
    exists full. vm_compute in Ed. injection Ed as <-. eexists. split; [reflexivity|]. split; [by left|reflexivity].
  - apply memb_true. vm_compute. reflexivity.
  - exfalso. destruct H as (m & Hm & Ho). apply list_elem_of_In in Hm. vm_compute in Hm.
    repeat (destruct Hm as [<-|Hm]; [discriminate Ho|]). destruct Hm.
  - exact H.
Defined.

(** The result of the first run, echoed in chunks of three characters. *)
Fixpoint chop (fuel : nat) (s : str) : list str :=
  match fuel, s with
  | S f, _ :: _ => take 3 s :: chop f (drop 3 s)
  | _, _ => []
  end.

Lemma concat_chop fuel s : (length s <= fuel)%nat -> concat (chop fuel s) = s.
Proof.
  revert s. induction fuel as [|fuel IH]; intros [|c s] H; cbn in H |- *; try done; [lia|].
  rewrite IH by (rewrite length_drop; lia). f_equal. apply (take_drop 2 s).
Qed.

Lemma sanitize_stream_roundtrip_witness :
  exists r st' ys d, first_run = Ok (r, st') /\
    stream (U := ru_unicode) (desanitizer_init (sr_pairs r) None) (chop (length (sr_text r)) (sr_text r)) = Ok (ys, d) /\
    concat ys = demo_mail.
Proof.
  destruct first_run_miss as (r & st' & E & _).
  destruct (sanitize_stream_roundtrip (U := ru_unicode) (demo_orch 1000 OVERSIZE_FAIL_CLOSED []) demo_mail (u8 "team")
              (u8 "c1") None 10 10 10 mem_empty r st' (chop (length (sr_text r)) (sr_text r))) as (ys & d & Hs & Ho).
  - exact E.
  - assert (bool_decide (NoDup (map snd (match first_run with Ok (x, _) => sr_pairs x | Raise _ => [] end))) = true)
      as Hn by (vm_compute; reflexivity).
    rewrite E in Hn. by apply bool_decide_eq_true in Hn.
  - assert (match first_run with Ok (x, _) => sr_pairs x | Raise _ => [] end =
            [(u8 "ACME bank", u8 "[ORG_002]"); (u8 "ivan@acme.ru", u8 "[EMAIL_001]")]) as Hq
      by (vm_compute; reflexivity).
    rewrite E in Hq. rewrite Hq. intros o p [[= -> ->]|[[= -> ->]|[]%elem_of_nil]%elem_of_cons]%elem_of_cons.
    + split; [|reflexivity]. exists (u8 "ORG_002"). split_and!; [reflexivity| |]; apply memb_false; reflexivity.
    + split; [|reflexivity]. exists (u8 "EMAIL_001"). split_and!; [reflexivity| |]; apply memb_false; reflexivity.
  - apply concat_chop. lia.
  - exists r, st', ys, d. split_and!; [exact E|exact Hs|exact Ho].
Defined.
