(* ===== verification/RouteTable.v ===== *)
(** * The route table ([route_gate/table.py])

    The classified routes, row by row, the matcher of FastAPI path templates,
    [lookup] over the three tables, and the parser of the operator's extra
    passthrough rows. *)

From S2P Require Import Prelude Text Regex.
Local Open Scope py_scope.

Definition DELETE : str := u8 "DELETE".
Definition GET : str := u8 "GET".
Definition HEAD : str := u8 "HEAD".
Definition OPTIONS : str := u8 "OPTIONS".
Definition PATCH : str := u8 "PATCH".
Definition POST : str := u8 "POST".
Definition PUT : str := u8 "PUT".

Definition HTTP_METHODS : list str := [GET; HEAD; POST; PUT; PATCH; DELETE; OPTIONS].

Definition BAD_EXTRA_PATH_TOKENS : list str :=
  [u8 ".."; u8 "//"; u8 "%"; u8 "?"; u8 "#"; [0%N]].

Inductive Verdict := PASSTHROUGH | REWRITTEN | REFUSE.

#[export] Instance Verdict_eq_dec : EqDecision Verdict.
Proof. solve_decision. Defined.

Record Entry := mkEntry {
  e_verdict : Verdict;
  e_why : str;
  e_justification : option str;
}.

(** The two checks of [Entry.__post_init__] on the texts, and the one on the
    verdict: false is a [ValueError]. *)
Definition entry_post_init (e : Entry) : bool :=
  negb (str_eqb (strip (e_why e)) []) &&
  match e_justification e with
  | None => true
  | Some j => negb (str_eqb (strip j) []) &&
              (str_eqb j [] || bool_decide (e_verdict e = PASSTHROUGH))
  end.

Definition rewritten (why : str) : Entry := mkEntry REWRITTEN why None.
Definition passthrough (why : str) (justification : option str) : Entry :=
  mkEntry PASSTHROUGH why justification.
Definition refuse (why : str) : Entry := mkEntry REFUSE why None.

Abbreviation route_key := (str * str)%type.
Abbreviation route_row := (route_key * Entry)%type.

Definition WHY_MESSAGES : str :=
  u8 "Anthropic Messages; the hook rewrites messages/system".
Definition WHY_CHAT : str :=
  u8 "chat completions; the hook rewrites messages".
Definition WHY_RESPONSES : str :=
  u8 "Responses API; the hook rewrites input".
Definition WHY_COMPACT : str :=
  u8 "Responses compact; the hook rewrites input".
Definition WHY_STORED_RESPONSE : str :=
  u8 "stored response addressed by id; no inbound user text".
Definition WHY_NOT_REWRITTEN : str :=
  u8 "reaches a provider with a body the hook does not rewrite".
Definition WHY_PROVIDER : str :=
  u8 "provider-native passthrough; the body leaves as the caller sent it".
Definition WHY_NO_REWRITE : str :=
  u8 "hook no-rewrite set (_NON_CHAT_INPUT_CALL_TYPES); a DLP scan is not sanitization".
Definition WHY_PROMPT : str :=
  u8 "prompt is never read by the hook, so nothing is rewritten".
Definition WHY_COUNT : str :=
  u8 "handler never calls pre_call_hook; clients use usage.input_tokens from the real turn".
Definition WHY_NO_HOOK : str :=
  u8 "carries user text to a provider or a store without reaching the hook".
Definition WHY_OPENAI_SHADOWED : str :=
  u8 "the hook-less /openai/{endpoint:path} raw passthrough matches this path too; it loses only because litellm includes its router later, so the rewrite rests on include order no bump guarantees. No client here uses the /openai/ spelling".
Definition WHY_CURSOR : str :=
  u8 "cursor-compat chat spelling; it does reach the hook, but no client here uses it and default-deny keeps the admitted set minimal".
Definition WHY_GUARDRAIL_ECHO : str :=
  u8 "runs caller text through a guardrail or policy engine without the hook".
Definition WHY_SEARCH : str :=
  u8 "query text goes to a search backend without the hook".
Definition WHY_RAG : str :=
  u8 "ingested or queried text the hook never reads".
Definition WHY_MEMORY : str :=
  u8 "stores caller text for later replay; the hook never reads it".
Definition WHY_AGENT : str :=
  u8 "agent / workflow turn text without the hook".
Definition WHY_MCP : str :=
  u8 "MCP tree: tool arguments and OAuth credential flows, no hook".
Definition WHY_PROVIDER_STORE : str :=
  u8 "file or index content held at the provider; the hook never reads it".
Definition WHY_SPEND_EXPORT : str :=
  u8 "ships spend rows, which can carry stored prompts, to a third-party SaaS".
Definition WHY_MODELS : str :=
  u8 "model list or metadata; no user text".
Definition WHY_HEALTH : str :=
  u8 "litellm probe; calls no provider, bounded cost, no user text".
Definition WHY_ADMIN_OFF : str :=
  u8 "litellm admin surface refused by design: identity is X-Corp-Auth in the gateway's own store, observability is Langfuse; see docs/security.md §14".
Definition WHY_SPEND_OFF : str :=
  u8 "litellm spend analytics refused by design: observability is Langfuse; see docs/security.md §14".
Definition WHY_AUTH_OFF : str :=
  u8 "litellm login / SSO / invitation flow refused by design: identity is X-Corp-Auth, issued by the gateway from Keycloak; see docs/security.md §14".
Definition WHY_PUBLIC_OFF : str :=
  u8 "litellm's unauthenticated public catalogue refused by design; see docs/security.md §14".
Definition WHY_UI_OFF : str :=
  u8 "litellm admin UI asset or setting refused by design; see docs/security.md §14".
Definition WHY_HOME_OFF : str :=
  u8 "litellm's own index and route list refused by design; see docs/security.md §14".
Definition WHY_LAZY_OFF : str :=
  u8 "litellm lazy-router warm-up refused by design: it loads admin routers; see docs/security.md §14".
Definition WHY_HEALTH_CHECK_OFF : str :=
  u8 "runs model health checks against providers when background checks are off (_health_endpoints.py:1036-1048); see docs/security.md §14".
Definition WHY_HEALTH_DRAIN_OFF : str :=
  u8 "flips litellm's process-wide shutdown state (_health_endpoints.py:1799-1843); see docs/security.md §14".
Definition WHY_HEALTH_OPS_OFF : str :=
  u8 "litellm operator diagnostics, not a probe; see docs/security.md §14".
Definition JUST_STORED_RESPONSE : str :=
  u8 "cancels a stored response by id; no request body reaches a provider".

(** ** Path templates *)

Section Table.
Context {U : Unicode}.

(** [\{[^{}]+\}] *)
Definition PARAMETER : re :=
  seqs [ch (chr "{"); plus (cls (fun c => negb (one_of (u8 "{}") c))); ch (chr "}")].

(** The pattern of a template, from [position] on: [{x:path}] may span
    segments, [{x}] may not. *)
Fixpoint pattern_go (template : str) (ms : list mtch) (position : Z) : list re :=
  match ms with
  | [] => [lit (slice template position (len template))]
  | m :: ms' =>
    lit (slice template position (mt_start m)) ::
    (if ends_with (slice template (mt_start m) (mt_end m)) (u8 ":path}")
     then plus dot else plus (cls (fun c => negb (c =? 47)%N))) ::
    pattern_go template ms' (mt_end m)
  end.

Definition pattern (template : str) : re := seqs (pattern_go template (finditer PARAMETER template) 0).

Definition anchored (r : re) : re := seqs [Bos; r; Eos].

Definition template_matcher (template : str) : re := anchored (pattern template).


Record regex_entry := RegexEntry {
  rg_method : str;
  rg_template : str;
  rg_pattern : re;
  rg_entry : Entry;
}.

Definition regex_row (method template : str) (e : Entry) : regex_entry :=
  RegexEntry method template (template_matcher template) e.

(** ** The tables *)

Definition LITELLM_ROUTE_TABLE_1 : list route_row := [
  ((DELETE, u8 "/cloudzero/delete"), refuse WHY_ADMIN_OFF);
  ((DELETE, u8 "/config/pass_through_endpoint"), refuse WHY_ADMIN_OFF);
  ((DELETE, u8 "/config_overrides/cyberark"), refuse WHY_ADMIN_OFF);
  ((DELETE, u8 "/config_overrides/hashicorp_vault"), refuse WHY_ADMIN_OFF);
  ((DELETE, u8 "/mcp"), refuse WHY_MCP);
  ((DELETE, u8 "/organization/delete"), refuse WHY_ADMIN_OFF);
  ((DELETE, u8 "/organization/member_delete"), refuse WHY_ADMIN_OFF);
  ((DELETE, u8 "/schedule/anthropic_beta_headers_reload"), refuse WHY_ADMIN_OFF);
  ((DELETE, u8 "/schedule/model_cost_map_reload"), refuse WHY_ADMIN_OFF);
  ((DELETE, u8 "/vantage/delete"), refuse WHY_ADMIN_OFF);
  ((GET, u8 "/"), refuse WHY_HOME_OFF);
  ((GET, u8 "/.well-known/jwks.json"), refuse WHY_MCP);
  ((GET, u8 "/.well-known/litellm-cli-auth"), refuse WHY_MCP);
  ((GET, u8 "/.well-known/litellm-ui-config"), refuse WHY_ADMIN_OFF);
  ((GET, u8 "/.well-known/oauth-authorization-server"), refuse WHY_MCP);
  ((GET, u8 "/.well-known/oauth-protected-resource"), refuse WHY_MCP);
  ((GET, u8 "/.well-known/openid-configuration"), refuse WHY_MCP);
  ((GET, u8 "/access_group/list"), refuse WHY_ADMIN_OFF);
  ((GET, u8 "/active/callbacks"), refuse WHY_ADMIN_OFF);
  ((GET, u8 "/adaptive_router/state"), refuse WHY_ADMIN_OFF);
  ((GET, u8 "/agent/daily/activity"), refuse WHY_ADMIN_OFF);
  ((GET, u8 "/alerting/settings"), refuse WHY_ADMIN_OFF);
  ((GET, u8 "/api/plugins"), refuse WHY_ADMIN_OFF);
  ((GET, u8 "/api/plugins/auth-token"), refuse WHY_ADMIN_OFF);
  ((GET, u8 "/assistants"), refuse WHY_PROVIDER);
  ((GET, u8 "/authorize"), refuse WHY_MCP);
  ((GET, u8 "/auto_router/benchmarks"), refuse WHY_ADMIN_OFF);
  ((GET, u8 "/auto_router/classifier/default_prompt"), refuse WHY_ADMIN_OFF);
  ((GET, u8 "/auto_router/shadow_eval"), refuse WHY_ADMIN_OFF);
  ((GET, u8 "/batches"), refuse WHY_PROVIDER);
  ((GET, u8 "/budget/list"), refuse WHY_ADMIN_OFF);
  ((GET, u8 "/budget/settings"), refuse WHY_ADMIN_OFF);
  ((GET, u8 "/cache/ping"), refuse WHY_ADMIN_OFF);
  ((GET, u8 "/cache/redis/info"), refuse WHY_ADMIN_OFF);
  ((GET, u8 "/cache/settings"), refuse WHY_ADMIN_OFF);
  ((GET, u8 "/callback"), refuse WHY_MCP);
  ((GET, u8 "/callbacks/configs"), refuse WHY_ADMIN_OFF);
  ((GET, u8 "/callbacks/list"), refuse WHY_ADMIN_OFF);
  ((GET, u8 "/claude-code/marketplace.json"), refuse WHY_ADMIN_OFF);
  ((GET, u8 "/claude-code/plugins"), refuse WHY_ADMIN_OFF);
  ((GET, u8 "/cloudzero/settings"), refuse WHY_ADMIN_OFF);
  ((GET, u8 "/config/block_requests_for_models_without_pricing"), refuse WHY_ADMIN_OFF);
  ((GET, u8 "/config/cost_discount_config"), refuse WHY_ADMIN_OFF);
  ((GET, u8 "/config/cost_margin_config"), refuse WHY_ADMIN_OFF);
  ((GET, u8 "/config/field/info"), refuse WHY_ADMIN_OFF);
  ((GET, u8 "/config/list"), refuse WHY_ADMIN_OFF);
  ((GET, u8 "/config/pass_through_endpoint"), refuse WHY_ADMIN_OFF);
  ((GET, u8 "/config/pass_through_endpoints/settings"), refuse WHY_ADMIN_OFF);
  ((GET, u8 "/config/yaml"), refuse WHY_ADMIN_OFF);
  ((GET, u8 "/config_overrides/cyberark"), refuse WHY_ADMIN_OFF);
  ((GET, u8 "/config_overrides/hashicorp_vault"), refuse WHY_ADMIN_OFF);
  ((GET, u8 "/containers"), refuse WHY_NOT_REWRITTEN);
  ((GET, u8 "/coordination_redis/settings"), refuse WHY_ADMIN_OFF);
  ((GET, u8 "/credentials"), refuse WHY_ADMIN_OFF);
  ((GET, u8 "/credentials/migrate-encryption/check"), refuse WHY_ADMIN_OFF);
  ((GET, u8 "/cursor/models"), passthrough WHY_MODELS None);
  ((GET, u8 "/cursor/v1/models"), passthrough WHY_MODELS None);
  ((GET, u8 "/customer/daily/activity"), refuse WHY_ADMIN_OFF);
  ((GET, u8 "/customer/info"), refuse WHY_ADMIN_OFF);
  ((GET, u8 "/customer/list"), refuse WHY_ADMIN_OFF);
  ((GET, u8 "/debug/asyncio-tasks"), refuse WHY_ADMIN_OFF);
  ((GET, u8 "/debug/memory/details"), refuse WHY_ADMIN_OFF);
  ((GET, u8 "/debug/memory/summary"), refuse WHY_ADMIN_OFF);
  ((GET, u8 "/enabled"), refuse WHY_ADMIN_OFF);
  ((GET, u8 "/end_user/daily/activity"), refuse WHY_ADMIN_OFF);
  ((GET, u8 "/end_user/info"), refuse WHY_ADMIN_OFF);
  ((GET, u8 "/end_user/list"), refuse WHY_ADMIN_OFF);
  ((GET, u8 "/fallback/login"), refuse WHY_ADMIN_OFF);
  ((GET, u8 "/files"), refuse WHY_PROVIDER_STORE);
  ((GET, u8 "/fine_tuning/jobs"), refuse WHY_PROVIDER);
  ((GET, u8 "/gateway/daily/activity"), refuse WHY_ADMIN_OFF);
  ((GET, u8 "/get/allowed_ips"), refuse WHY_ADMIN_OFF);
  ((GET, u8 "/get/config/callbacks"), refuse WHY_ADMIN_OFF);
  ((GET, u8 "/get/default_team_settings"), refuse WHY_ADMIN_OFF);
  ((GET, u8 "/get/internal_user_settings"), refuse WHY_ADMIN_OFF);
  ((GET, u8 "/get/mcp_semantic_filter_settings"), refuse WHY_ADMIN_OFF);
  ((GET, u8 "/get/mcp_tool_search_settings"), refuse WHY_ADMIN_OFF);
  ((GET, u8 "/get/sso_settings"), refuse WHY_ADMIN_OFF);
  ((GET, u8 "/get/ui_settings"), refuse WHY_ADMIN_OFF);
  ((GET, u8 "/get/ui_theme_settings"), refuse WHY_ADMIN_OFF);
  ((GET, u8 "/get/user_banner"), refuse WHY_ADMIN_OFF);
  ((GET, u8 "/get_favicon"), refuse WHY_UI_OFF);
  ((GET, u8 "/get_image"), refuse WHY_UI_OFF);
  ((GET, u8 "/get_logo_url"), refuse WHY_UI_OFF);
  ((GET, u8 "/global/activity"), refuse WHY_SPEND_OFF);
  ((GET, u8 "/global/activity/cache_hits"), refuse WHY_SPEND_OFF);
  ((GET, u8 "/global/activity/exceptions"), refuse WHY_SPEND_OFF);
  ((GET, u8 "/global/activity/exceptions/deployment"), refuse WHY_SPEND_OFF);
  ((GET, u8 "/global/activity/model"), refuse WHY_SPEND_OFF);
  ((GET, u8 "/global/all_end_users"), refuse WHY_SPEND_OFF);
  ((GET, u8 "/global/spend"), refuse WHY_SPEND_OFF);
  ((GET, u8 "/global/spend/all_tag_names"), refuse WHY_SPEND_OFF);
  ((GET, u8 "/global/spend/keys"), refuse WHY_SPEND_OFF);
  ((GET, u8 "/global/spend/logs"), refuse WHY_SPEND_OFF);
  ((GET, u8 "/global/spend/models"), refuse WHY_SPEND_OFF);
  ((GET, u8 "/global/spend/provider"), refuse WHY_SPEND_OFF);
  ((GET, u8 "/global/spend/report"), refuse WHY_SPEND_OFF);
  ((GET, u8 "/global/spend/tags"), refuse WHY_SPEND_OFF);
  ((GET, u8 "/global/spend/teams"), refuse WHY_SPEND_OFF);
  ((GET, u8 "/guardrails/list"), refuse WHY_ADMIN_OFF);
  ((GET, u8 "/guardrails/submissions"), refuse WHY_ADMIN_OFF);
  ((GET, u8 "/guardrails/ui/add_guardrail_settings"), refuse WHY_ADMIN_OFF);
  ((GET, u8 "/guardrails/ui/major_airlines"), refuse WHY_ADMIN_OFF);
  ((GET, u8 "/guardrails/ui/provider_specific_params"), refuse WHY_ADMIN_OFF);
  ((GET, u8 "/guardrails/usage/logs"), refuse WHY_ADMIN_OFF);
  ((GET, u8 "/guardrails/usage/overview"), refuse WHY_ADMIN_OFF);
  ((GET, u8 "/health"), refuse WHY_HEALTH_CHECK_OFF);
  ((GET, u8 "/health/backlog"), refuse WHY_HEALTH_OPS_OFF);
  ((GET, u8 "/health/drain"), refuse WHY_HEALTH_DRAIN_OFF);
  ((GET, u8 "/health/history"), refuse WHY_HEALTH_OPS_OFF);
  ((GET, u8 "/health/latest"), refuse WHY_HEALTH_OPS_OFF);
  ((GET, u8 "/health/license"), refuse WHY_HEALTH_OPS_OFF);
  ((GET, u8 "/health/liveliness"), passthrough WHY_HEALTH None);
  ((GET, u8 "/health/liveness"), passthrough WHY_HEALTH None);
  ((GET, u8 "/health/readiness"), passthrough WHY_HEALTH None);
  ((GET, u8 "/health/readiness/details"), refuse WHY_HEALTH_OPS_OFF);
  ((GET, u8 "/health/services"), refuse WHY_PROVIDER);
  ((GET, u8 "/health/shared-status"), refuse WHY_HEALTH_OPS_OFF);
  ((GET, u8 "/invitation/info"), refuse WHY_AUTH_OFF);
  ((GET, u8 "/jwt/key/mapping/info"), refuse WHY_ADMIN_OFF);
  ((GET, u8 "/jwt/key/mapping/list"), refuse WHY_ADMIN_OFF);
  ((GET, u8 "/key/aliases"), refuse WHY_ADMIN_OFF);
  ((GET, u8 "/key/info"), refuse WHY_ADMIN_OFF);
  ((GET, u8 "/key/list"), refuse WHY_ADMIN_OFF);
  ((GET, u8 "/key/spend/report"), refuse WHY_ADMIN_OFF);
  ((GET, u8 "/litellm/.well-known/litellm-ui-config"), refuse WHY_ADMIN_OFF);
  ((GET, u8 "/management/v1/budgets"), refuse WHY_ADMIN_OFF);
  ((GET, u8 "/management/v1/spend_logs/end_users"), refuse WHY_ADMIN_OFF);
  ((GET, u8 "/management/v1/spend_logs/users"), refuse WHY_ADMIN_OFF);
  ((GET, u8 "/mcp"), refuse WHY_MCP);
  ((GET, u8 "/mcp-rest/tools/list"), refuse WHY_MCP);
  ((GET, u8 "/memory-usage"), refuse WHY_ADMIN_OFF);
  ((GET, u8 "/memory-usage-in-mem-cache"), refuse WHY_ADMIN_OFF);
  ((GET, u8 "/memory-usage-in-mem-cache-items"), refuse WHY_ADMIN_OFF);
  ((GET, u8 "/model/cost_map/source"), refuse WHY_ADMIN_OFF);
  ((GET, u8 "/model/deprecations"), refuse WHY_ADMIN_OFF);
  ((GET, u8 "/model/info"), passthrough WHY_MODELS None);
  ((GET, u8 "/model/metrics"), refuse WHY_ADMIN_OFF);
  ((GET, u8 "/model/metrics/exceptions"), refuse WHY_ADMIN_OFF)].

Definition LITELLM_ROUTE_TABLE_2 : list route_row := [
  ((GET, u8 "/model/metrics/slow_responses"), refuse WHY_ADMIN_OFF);
  ((GET, u8 "/model/settings"), refuse WHY_ADMIN_OFF);
  ((GET, u8 "/model/streaming_metrics"), refuse WHY_ADMIN_OFF);
  ((GET, u8 "/model_group/info"), refuse WHY_ADMIN_OFF);
  ((GET, u8 "/models"), passthrough WHY_MODELS None);
  ((GET, u8 "/onboarding/get_token"), refuse WHY_AUTH_OFF);
  ((GET, u8 "/organization/daily/activity"), refuse WHY_ADMIN_OFF);
  ((GET, u8 "/organization/info"), refuse WHY_ADMIN_OFF);
  ((GET, u8 "/organization/list"), refuse WHY_ADMIN_OFF);
  ((GET, u8 "/organization/spend/report"), refuse WHY_ADMIN_OFF);
  ((GET, u8 "/otel-spans"), refuse WHY_ADMIN_OFF);
  ((GET, u8 "/policies/attachments/list"), refuse WHY_ADMIN_OFF);
  ((GET, u8 "/policies/compare"), refuse WHY_ADMIN_OFF);
  ((GET, u8 "/policies/list"), refuse WHY_ADMIN_OFF);
  ((GET, u8 "/policies/usage/overview"), refuse WHY_ADMIN_OFF);
  ((GET, u8 "/policy/list"), refuse WHY_ADMIN_OFF);
  ((GET, u8 "/policy/templates"), refuse WHY_ADMIN_OFF);
  ((GET, u8 "/prompts/list"), refuse WHY_ADMIN_OFF);
  ((GET, u8 "/provider/budgets"), refuse WHY_SPEND_OFF);
  ((GET, u8 "/public/agent_hub"), refuse WHY_PUBLIC_OFF);
  ((GET, u8 "/public/agents/fields"), refuse WHY_PUBLIC_OFF);
  ((GET, u8 "/public/autorouter_presets"), refuse WHY_PUBLIC_OFF);
  ((GET, u8 "/public/complexity_router/scorer_defaults"), refuse WHY_PUBLIC_OFF);
  ((GET, u8 "/public/endpoints"), refuse WHY_PUBLIC_OFF);
  ((GET, u8 "/public/litellm_blog_posts"), refuse WHY_PUBLIC_OFF);
  ((GET, u8 "/public/litellm_model_cost_map"), refuse WHY_PUBLIC_OFF);
  ((GET, u8 "/public/mcp_hub"), refuse WHY_PUBLIC_OFF);
  ((GET, u8 "/public/model_hub"), refuse WHY_PUBLIC_OFF);
  ((GET, u8 "/public/model_hub/info"), refuse WHY_PUBLIC_OFF);
  ((GET, u8 "/public/providers"), refuse WHY_PUBLIC_OFF);
  ((GET, u8 "/public/providers/fields"), refuse WHY_PUBLIC_OFF);
  ((GET, u8 "/public/skill_hub"), refuse WHY_PUBLIC_OFF);
  ((GET, u8 "/public/v1/model_hub"), refuse WHY_PUBLIC_OFF);
  ((GET, u8 "/router/fields"), refuse WHY_ADMIN_OFF);
  ((GET, u8 "/router/settings"), refuse WHY_ADMIN_OFF);
  ((GET, u8 "/routes"), refuse WHY_HOME_OFF);
  ((GET, u8 "/schedule/anthropic_beta_headers_reload/status"), refuse WHY_ADMIN_OFF);
  ((GET, u8 "/schedule/model_cost_map_reload/status"), refuse WHY_ADMIN_OFF);
  ((GET, u8 "/scim/v2"), refuse WHY_ADMIN_OFF);
  ((GET, u8 "/scim/v2/"), refuse WHY_ADMIN_OFF);
  ((GET, u8 "/scim/v2/Groups"), refuse WHY_ADMIN_OFF);
  ((GET, u8 "/scim/v2/ResourceTypes"), refuse WHY_ADMIN_OFF);
  ((GET, u8 "/scim/v2/Schemas"), refuse WHY_ADMIN_OFF);
  ((GET, u8 "/scim/v2/ServiceProviderConfig"), refuse WHY_ADMIN_OFF);
  ((GET, u8 "/scim/v2/Users"), refuse WHY_ADMIN_OFF);
  ((GET, u8 "/scim/v2/placeholders"), refuse WHY_ADMIN_OFF);
  ((GET, u8 "/search/tools"), refuse WHY_SEARCH);
  ((GET, u8 "/search_tools/list"), refuse WHY_SEARCH);
  ((GET, u8 "/search_tools/ui/available_providers"), refuse WHY_SEARCH);
  ((GET, u8 "/settings"), refuse WHY_ADMIN_OFF);
  ((GET, u8 "/spend/keys"), refuse WHY_SPEND_OFF);
  ((GET, u8 "/spend/logs"), refuse WHY_SPEND_OFF);
  ((GET, u8 "/spend/logs/session/ui"), refuse WHY_SPEND_OFF);
  ((GET, u8 "/spend/logs/ui"), refuse WHY_SPEND_OFF);
  ((GET, u8 "/spend/logs/v2"), refuse WHY_SPEND_OFF);
  ((GET, u8 "/spend/tags"), refuse WHY_SPEND_OFF);
  ((GET, u8 "/spend/users"), refuse WHY_SPEND_OFF);
  ((GET, u8 "/sso/callback"), refuse WHY_AUTH_OFF);
  ((GET, u8 "/sso/debug/callback"), refuse WHY_AUTH_OFF);
  ((GET, u8 "/sso/debug/login"), refuse WHY_AUTH_OFF);
  ((GET, u8 "/sso/get/ui_settings"), refuse WHY_AUTH_OFF);
  ((GET, u8 "/sso/key/generate"), refuse WHY_AUTH_OFF);
  ((GET, u8 "/sso/readiness"), refuse WHY_AUTH_OFF);
  ((GET, u8 "/sso/saml/login"), refuse WHY_AUTH_OFF);
  ((GET, u8 "/sso/saml/metadata"), refuse WHY_AUTH_OFF);
  ((GET, u8 "/tag/daily/activity"), refuse WHY_ADMIN_OFF);
  ((GET, u8 "/tag/dau"), refuse WHY_ADMIN_OFF);
  ((GET, u8 "/tag/distinct"), refuse WHY_ADMIN_OFF);
  ((GET, u8 "/tag/list"), refuse WHY_ADMIN_OFF);
  ((GET, u8 "/tag/mau"), refuse WHY_ADMIN_OFF);
  ((GET, u8 "/tag/summary"), refuse WHY_ADMIN_OFF);
  ((GET, u8 "/tag/user-agent/per-user-analytics"), refuse WHY_ADMIN_OFF);
  ((GET, u8 "/tag/wau"), refuse WHY_ADMIN_OFF);
  ((GET, u8 "/team/available"), refuse WHY_ADMIN_OFF);
  ((GET, u8 "/team/daily/activity"), refuse WHY_ADMIN_OFF);
  ((GET, u8 "/team/daily/activity/aggregated"), refuse WHY_ADMIN_OFF);
  ((GET, u8 "/team/filter/ui"), refuse WHY_ADMIN_OFF);
  ((GET, u8 "/team/info"), refuse WHY_ADMIN_OFF);
  ((GET, u8 "/team/list"), refuse WHY_ADMIN_OFF);
  ((GET, u8 "/team/metadata_schema"), refuse WHY_ADMIN_OFF);
  ((GET, u8 "/team/permissions_list"), refuse WHY_ADMIN_OFF);
  ((GET, u8 "/team/spend/by_user"), refuse WHY_ADMIN_OFF);
  ((GET, u8 "/team/spend/report"), refuse WHY_ADMIN_OFF);
  ((GET, u8 "/test"), refuse WHY_ADMIN_OFF);
  ((GET, u8 "/user/available_roles"), refuse WHY_ADMIN_OFF);
  ((GET, u8 "/user/daily/activity"), refuse WHY_ADMIN_OFF);
  ((GET, u8 "/user/daily/activity/aggregated"), refuse WHY_ADMIN_OFF);
  ((GET, u8 "/user/filter/ui"), refuse WHY_ADMIN_OFF);
  ((GET, u8 "/user/info"), refuse WHY_ADMIN_OFF);
  ((GET, u8 "/user/list"), refuse WHY_ADMIN_OFF);
  ((GET, u8 "/user/spend/report"), refuse WHY_ADMIN_OFF);
  ((GET, u8 "/utils/supported_openai_params"), refuse WHY_ADMIN_OFF);
  ((GET, u8 "/v1/access_group"), refuse WHY_ADMIN_OFF);
  ((GET, u8 "/v1/agents"), refuse WHY_AGENT);
  ((GET, u8 "/v1/assistants"), refuse WHY_PROVIDER);
  ((GET, u8 "/v1/batches"), refuse WHY_PROVIDER);
  ((GET, u8 "/v1/containers"), refuse WHY_NOT_REWRITTEN);
  ((GET, u8 "/v1/evals"), refuse WHY_NOT_REWRITTEN);
  ((GET, u8 "/v1/files"), refuse WHY_PROVIDER_STORE);
  ((GET, u8 "/v1/fine_tuning/jobs"), refuse WHY_PROVIDER);
  ((GET, u8 "/v1/indexes"), refuse WHY_PROVIDER_STORE);
  ((GET, u8 "/v1/mcp/access_groups"), refuse WHY_ADMIN_OFF);
  ((GET, u8 "/v1/mcp/discover"), refuse WHY_ADMIN_OFF);
  ((GET, u8 "/v1/mcp/network/client-ip"), refuse WHY_ADMIN_OFF);
  ((GET, u8 "/v1/mcp/oauth/authorize"), refuse WHY_MCP);
  ((GET, u8 "/v1/mcp/openapi-registry"), refuse WHY_ADMIN_OFF);
  ((GET, u8 "/v1/mcp/registry.json"), refuse WHY_ADMIN_OFF);
  ((GET, u8 "/v1/mcp/server"), refuse WHY_ADMIN_OFF);
  ((GET, u8 "/v1/mcp/server/health"), refuse WHY_ADMIN_OFF);
  ((GET, u8 "/v1/mcp/server/submissions"), refuse WHY_ADMIN_OFF);
  ((GET, u8 "/v1/mcp/tools"), refuse WHY_ADMIN_OFF);
  ((GET, u8 "/v1/mcp/toolset"), refuse WHY_ADMIN_OFF);
  ((GET, u8 "/v1/mcp/user-credentials"), refuse WHY_ADMIN_OFF);
  ((GET, u8 "/v1/mcp/user-env-vars/status"), refuse WHY_ADMIN_OFF);
  ((GET, u8 "/v1/memory"), refuse WHY_MEMORY);
  ((GET, u8 "/v1/model/deprecations"), refuse WHY_ADMIN_OFF);
  ((GET, u8 "/v1/model/info"), passthrough WHY_MODELS None);
  ((GET, u8 "/v1/models"), passthrough WHY_MODELS None);
  ((GET, u8 "/v1/search/tools"), refuse WHY_SEARCH);
  ((GET, u8 "/v1/skills"), refuse WHY_NOT_REWRITTEN);
  ((GET, u8 "/v1/tool/list"), refuse WHY_ADMIN_OFF);
  ((GET, u8 "/v1/tool/policy/options"), refuse WHY_ADMIN_OFF);
  ((GET, u8 "/v1/tool/spend"), refuse WHY_ADMIN_OFF);
  ((GET, u8 "/v1/unified_access_group"), refuse WHY_ADMIN_OFF);
  ((GET, u8 "/v1/vector_store/list"), refuse WHY_ADMIN_OFF);
  ((GET, u8 "/v1/vector_stores"), refuse WHY_NOT_REWRITTEN);
  ((GET, u8 "/v1/videos"), refuse WHY_NOT_REWRITTEN);
  ((GET, u8 "/v1/workflows/runs"), refuse WHY_AGENT);
  ((GET, u8 "/v1beta/agents"), refuse WHY_NOT_REWRITTEN);
  ((GET, u8 "/v2/guardrails/list"), refuse WHY_ADMIN_OFF);
  ((GET, u8 "/v2/model/info"), refuse WHY_ADMIN_OFF);
  ((GET, u8 "/v2/team/list"), refuse WHY_ADMIN_OFF);
  ((GET, u8 "/v2/user/info"), refuse WHY_ADMIN_OFF);
  ((GET, u8 "/vantage/settings"), refuse WHY_ADMIN_OFF);
  ((GET, u8 "/vector_store/list"), refuse WHY_ADMIN_OFF);
  ((GET, u8 "/vector_stores"), refuse WHY_NOT_REWRITTEN);
  ((GET, u8 "/videos"), refuse WHY_NOT_REWRITTEN);
  ((OPTIONS, u8 "/health/liveliness"), passthrough WHY_HEALTH None);
  ((OPTIONS, u8 "/health/liveness"), passthrough WHY_HEALTH None);
  ((OPTIONS, u8 "/health/readiness"), passthrough WHY_HEALTH None)].

Definition LITELLM_ROUTE_TABLE_3 : list route_row := [
  ((OPTIONS, u8 "/mcp"), refuse WHY_MCP);
  ((PATCH, u8 "/config/block_requests_for_models_without_pricing"), refuse WHY_ADMIN_OFF);
  ((PATCH, u8 "/config/cost_discount_config"), refuse WHY_ADMIN_OFF);
  ((PATCH, u8 "/config/cost_margin_config"), refuse WHY_ADMIN_OFF);
  ((PATCH, u8 "/mcp"), refuse WHY_MCP);
  ((PATCH, u8 "/organization/member_update"), refuse WHY_ADMIN_OFF);
  ((PATCH, u8 "/organization/update"), refuse WHY_ADMIN_OFF);
  ((PATCH, u8 "/update/default_team_settings"), refuse WHY_ADMIN_OFF);
  ((PATCH, u8 "/update/internal_user_settings"), refuse WHY_ADMIN_OFF);
  ((PATCH, u8 "/update/mcp_semantic_filter_settings"), refuse WHY_ADMIN_OFF);
  ((PATCH, u8 "/update/mcp_tool_search_settings"), refuse WHY_ADMIN_OFF);
  ((PATCH, u8 "/update/sso_settings"), refuse WHY_ADMIN_OFF);
  ((PATCH, u8 "/update/ui_settings"), refuse WHY_ADMIN_OFF);
  ((PATCH, u8 "/update/ui_theme_settings"), refuse WHY_ADMIN_OFF);
  ((PATCH, u8 "/update/user_banner"), refuse WHY_ADMIN_OFF);
  ((POST, u8 "/access_group/new"), refuse WHY_ADMIN_OFF);
  ((POST, u8 "/add/allowed_ip"), refuse WHY_ADMIN_OFF);
  ((POST, u8 "/api/event_logging/batch"), refuse WHY_NO_HOOK);
  ((POST, u8 "/apply_guardrail"), refuse WHY_GUARDRAIL_ECHO);
  ((POST, u8 "/assistants"), refuse WHY_PROVIDER);
  ((POST, u8 "/audio/speech"), refuse WHY_NO_REWRITE);
  ((POST, u8 "/audio/transcriptions"), refuse WHY_NOT_REWRITTEN);
  ((POST, u8 "/authorize/complete"), refuse WHY_MCP);
  ((POST, u8 "/auto_router/classifier/default_prompt"), refuse WHY_ADMIN_OFF);
  ((POST, u8 "/auto_router/shadow_eval/start"), refuse WHY_NO_HOOK);
  ((POST, u8 "/auto_router/test_routing"), refuse WHY_NO_HOOK);
  ((POST, u8 "/auto_router/validate_complexity_router_config"), refuse WHY_ADMIN_OFF);
  ((POST, u8 "/batches"), refuse WHY_PROVIDER);
  ((POST, u8 "/budget/delete"), refuse WHY_ADMIN_OFF);
  ((POST, u8 "/budget/info"), refuse WHY_ADMIN_OFF);
  ((POST, u8 "/budget/new"), refuse WHY_ADMIN_OFF);
  ((POST, u8 "/budget/update"), refuse WHY_ADMIN_OFF);
  ((POST, u8 "/cache/delete"), refuse WHY_ADMIN_OFF);
  ((POST, u8 "/cache/flushall"), refuse WHY_ADMIN_OFF);
  ((POST, u8 "/cache/settings"), refuse WHY_ADMIN_OFF);
  ((POST, u8 "/cache/settings/test"), refuse WHY_ADMIN_OFF);
  ((POST, u8 "/chat/completions"), rewritten WHY_CHAT);
  ((POST, u8 "/claude-code/plugins"), refuse WHY_ADMIN_OFF);
  ((POST, u8 "/cloudzero/dry-run"), refuse WHY_SPEND_EXPORT);
  ((POST, u8 "/cloudzero/export"), refuse WHY_SPEND_EXPORT);
  ((POST, u8 "/cloudzero/init"), refuse WHY_SPEND_EXPORT);
  ((POST, u8 "/completions"), refuse WHY_PROMPT);
  ((POST, u8 "/compliance/eu-ai-act"), refuse WHY_ADMIN_OFF);
  ((POST, u8 "/compliance/gdpr"), refuse WHY_ADMIN_OFF);
  ((POST, u8 "/comprehendmedical"), refuse WHY_PROVIDER);
  ((POST, u8 "/config/callback/delete"), refuse WHY_ADMIN_OFF);
  ((POST, u8 "/config/field/delete"), refuse WHY_ADMIN_OFF);
  ((POST, u8 "/config/field/update"), refuse WHY_ADMIN_OFF);
  ((POST, u8 "/config/pass_through_endpoint"), refuse WHY_PROVIDER);
  ((POST, u8 "/config/update"), refuse WHY_ADMIN_OFF);
  ((POST, u8 "/config_overrides/cyberark"), refuse WHY_ADMIN_OFF);
  ((POST, u8 "/config_overrides/cyberark/test_connection"), refuse WHY_ADMIN_OFF);
  ((POST, u8 "/config_overrides/hashicorp_vault"), refuse WHY_ADMIN_OFF);
  ((POST, u8 "/config_overrides/hashicorp_vault/test_connection"), refuse WHY_ADMIN_OFF);
  ((POST, u8 "/containers"), refuse WHY_NOT_REWRITTEN);
  ((POST, u8 "/coordination_redis/settings"), refuse WHY_ADMIN_OFF);
  ((POST, u8 "/coordination_redis/settings/test"), refuse WHY_ADMIN_OFF);
  ((POST, u8 "/cost/estimate"), refuse WHY_NO_HOOK);
  ((POST, u8 "/credentials"), refuse WHY_ADMIN_OFF);
  ((POST, u8 "/credentials/migrate-encryption"), refuse WHY_ADMIN_OFF);
  ((POST, u8 "/cursor/chat/completions"), refuse WHY_CURSOR);
  ((POST, u8 "/customer/block"), refuse WHY_ADMIN_OFF);
  ((POST, u8 "/customer/delete"), refuse WHY_ADMIN_OFF);
  ((POST, u8 "/customer/new"), refuse WHY_ADMIN_OFF);
  ((POST, u8 "/customer/unblock"), refuse WHY_ADMIN_OFF);
  ((POST, u8 "/customer/update"), refuse WHY_ADMIN_OFF);
  ((POST, u8 "/debug/memory/gc/configure"), refuse WHY_ADMIN_OFF);
  ((POST, u8 "/delete/allowed_ip"), refuse WHY_ADMIN_OFF);
  ((POST, u8 "/embeddings"), refuse WHY_NO_REWRITE);
  ((POST, u8 "/end_user/block"), refuse WHY_ADMIN_OFF);
  ((POST, u8 "/end_user/delete"), refuse WHY_ADMIN_OFF);
  ((POST, u8 "/end_user/new"), refuse WHY_ADMIN_OFF);
  ((POST, u8 "/end_user/unblock"), refuse WHY_ADMIN_OFF);
  ((POST, u8 "/end_user/update"), refuse WHY_ADMIN_OFF);
  ((POST, u8 "/fallback"), refuse WHY_ADMIN_OFF);
  ((POST, u8 "/files"), refuse WHY_PROVIDER_STORE);
  ((POST, u8 "/fine_tuning/jobs"), refuse WHY_PROVIDER);
  ((POST, u8 "/global/spend/end_users"), refuse WHY_SPEND_OFF);
  ((POST, u8 "/global/spend/refresh"), refuse WHY_SPEND_OFF);
  ((POST, u8 "/global/spend/reset"), refuse WHY_SPEND_OFF);
  ((POST, u8 "/guardrails"), refuse WHY_ADMIN_OFF);
  ((POST, u8 "/guardrails/apply_guardrail"), refuse WHY_GUARDRAIL_ECHO);
  ((POST, u8 "/guardrails/register"), refuse WHY_ADMIN_OFF);
  ((POST, u8 "/guardrails/test_custom_code"), refuse WHY_GUARDRAIL_ECHO);
  ((POST, u8 "/guardrails/validate_blocked_words_file"), refuse WHY_ADMIN_OFF);
  ((POST, u8 "/health/test_connection"), refuse WHY_NO_HOOK);
  ((POST, u8 "/images/edits"), refuse WHY_NOT_REWRITTEN);
  ((POST, u8 "/images/generations"), refuse WHY_NOT_REWRITTEN);
  ((POST, u8 "/interactions"), refuse WHY_NOT_REWRITTEN);
  ((POST, u8 "/introspect"), refuse WHY_MCP);
  ((POST, u8 "/invitation/delete"), refuse WHY_AUTH_OFF);
  ((POST, u8 "/invitation/new"), refuse WHY_AUTH_OFF);
  ((POST, u8 "/invitation/update"), refuse WHY_AUTH_OFF);
  ((POST, u8 "/jwt/key/mapping/delete"), refuse WHY_ADMIN_OFF);
  ((POST, u8 "/jwt/key/mapping/new"), refuse WHY_ADMIN_OFF);
  ((POST, u8 "/jwt/key/mapping/update"), refuse WHY_ADMIN_OFF);
  ((POST, u8 "/key/block"), refuse WHY_ADMIN_OFF);
  ((POST, u8 "/key/bulk_update"), refuse WHY_ADMIN_OFF);
  ((POST, u8 "/key/delete"), refuse WHY_ADMIN_OFF);
  ((POST, u8 "/key/generate"), refuse WHY_ADMIN_OFF);
  ((POST, u8 "/key/health"), refuse WHY_PROVIDER);
  ((POST, u8 "/key/regenerate"), refuse WHY_ADMIN_OFF);
  ((POST, u8 "/key/service-account/generate"), refuse WHY_ADMIN_OFF);
  ((POST, u8 "/key/unblock"), refuse WHY_ADMIN_OFF);
  ((POST, u8 "/key/update"), refuse WHY_ADMIN_OFF);
  ((POST, u8 "/login"), refuse WHY_AUTH_OFF);
  ((POST, u8 "/mcp"), refuse WHY_MCP);
  ((POST, u8 "/mcp-rest/test/connection"), refuse WHY_MCP);
  ((POST, u8 "/mcp-rest/test/tools/list"), refuse WHY_MCP);
  ((POST, u8 "/mcp-rest/tools/call"), refuse WHY_MCP);
  ((POST, u8 "/model/block"), refuse WHY_ADMIN_OFF);
  ((POST, u8 "/model/delete"), refuse WHY_ADMIN_OFF);
  ((POST, u8 "/model/new"), refuse WHY_ADMIN_OFF);
  ((POST, u8 "/model/unblock"), refuse WHY_ADMIN_OFF);
  ((POST, u8 "/model/update"), refuse WHY_ADMIN_OFF);
  ((POST, u8 "/model_group/make_public"), refuse WHY_ADMIN_OFF);
  ((POST, u8 "/model_hub/update_useful_links"), refuse WHY_ADMIN_OFF);
  ((POST, u8 "/moderations"), refuse WHY_NO_REWRITE);
  ((POST, u8 "/ocr"), refuse WHY_NOT_REWRITTEN);
  ((POST, u8 "/onboarding/claim_token"), refuse WHY_AUTH_OFF);
  ((POST, u8 "/openai/v1/realtime/calls"), refuse WHY_NOT_REWRITTEN);
  ((POST, u8 "/openai/v1/realtime/client_secrets"), refuse WHY_NOT_REWRITTEN);
  ((POST, u8 "/openai/v1/realtime/transcription_sessions"), refuse WHY_NOT_REWRITTEN);
  ((POST, u8 "/openai/v1/responses"), refuse WHY_OPENAI_SHADOWED);
  ((POST, u8 "/openai/v1/responses/compact"), refuse WHY_OPENAI_SHADOWED);
  ((POST, u8 "/openai/v1/responses/input_tokens"), refuse WHY_COUNT);
  ((POST, u8 "/organization/info"), refuse WHY_ADMIN_OFF);
  ((POST, u8 "/organization/member_add"), refuse WHY_ADMIN_OFF);
  ((POST, u8 "/organization/new"), refuse WHY_ADMIN_OFF);
  ((POST, u8 "/policies"), refuse WHY_ADMIN_OFF);
  ((POST, u8 "/policies/attachments"), refuse WHY_ADMIN_OFF);
  ((POST, u8 "/policies/attachments/estimate-impact"), refuse WHY_ADMIN_OFF);
  ((POST, u8 "/policies/resolve"), refuse WHY_ADMIN_OFF);
  ((POST, u8 "/policies/test-pipeline"), refuse WHY_GUARDRAIL_ECHO);
  ((POST, u8 "/policy/templates/enrich"), refuse WHY_PROVIDER);
  ((POST, u8 "/policy/templates/enrich/stream"), refuse WHY_GUARDRAIL_ECHO);
  ((POST, u8 "/policy/templates/suggest"), refuse WHY_GUARDRAIL_ECHO);
  ((POST, u8 "/policy/templates/test"), refuse WHY_GUARDRAIL_ECHO);
  ((POST, u8 "/policy/test"), refuse WHY_GUARDRAIL_ECHO);
  ((POST, u8 "/policy/validate"), refuse WHY_ADMIN_OFF)].

Definition LITELLM_ROUTE_TABLE_4 : list route_row := [
  ((POST, u8 "/prompts"), refuse WHY_ADMIN_OFF);
  ((POST, u8 "/prompts/test"), refuse WHY_NO_HOOK);
  ((POST, u8 "/queue/chat/completions"), refuse WHY_NO_HOOK);
  ((POST, u8 "/rag/ingest"), refuse WHY_RAG);
  ((POST, u8 "/rag/query"), refuse WHY_RAG);
  ((POST, u8 "/realtime/calls"), refuse WHY_NOT_REWRITTEN);
  ((POST, u8 "/realtime/client_secrets"), refuse WHY_NOT_REWRITTEN);
  ((POST, u8 "/realtime/transcription_sessions"), refuse WHY_NOT_REWRITTEN);
  ((POST, u8 "/register"), refuse WHY_MCP);
  ((POST, u8 "/reload/anthropic_beta_headers"), refuse WHY_ADMIN_OFF);
  ((POST, u8 "/reload/model_cost_map"), refuse WHY_ADMIN_OFF);
  ((POST, u8 "/rerank"), refuse WHY_NOT_REWRITTEN);
  ((POST, u8 "/responses"), rewritten WHY_RESPONSES);
  ((POST, u8 "/responses/compact"), rewritten WHY_COMPACT);
  ((POST, u8 "/responses/input_tokens"), refuse WHY_COUNT);
  ((POST, u8 "/revoke"), refuse WHY_MCP);
  ((POST, u8 "/schedule/anthropic_beta_headers_reload"), refuse WHY_ADMIN_OFF);
  ((POST, u8 "/schedule/model_cost_map_reload"), refuse WHY_ADMIN_OFF);
  ((POST, u8 "/scim/v2/Groups"), refuse WHY_ADMIN_OFF);
  ((POST, u8 "/scim/v2/Users"), refuse WHY_ADMIN_OFF);
  ((POST, u8 "/search"), refuse WHY_SEARCH);
  ((POST, u8 "/search_tools"), refuse WHY_SEARCH);
  ((POST, u8 "/search_tools/test_connection"), refuse WHY_NO_HOOK);
  ((POST, u8 "/spend/calculate"), refuse WHY_NO_HOOK);
  ((POST, u8 "/sso/cli/start"), refuse WHY_AUTH_OFF);
  ((POST, u8 "/sso/saml/callback"), refuse WHY_AUTH_OFF);
  ((POST, u8 "/tag/delete"), refuse WHY_ADMIN_OFF);
  ((POST, u8 "/tag/info"), refuse WHY_ADMIN_OFF);
  ((POST, u8 "/tag/new"), refuse WHY_ADMIN_OFF);
  ((POST, u8 "/tag/update"), refuse WHY_ADMIN_OFF);
  ((POST, u8 "/team/block"), refuse WHY_ADMIN_OFF);
  ((POST, u8 "/team/bulk_member_add"), refuse WHY_ADMIN_OFF);
  ((POST, u8 "/team/delete"), refuse WHY_ADMIN_OFF);
  ((POST, u8 "/team/key/bulk_update"), refuse WHY_ADMIN_OFF);
  ((POST, u8 "/team/member_add"), refuse WHY_ADMIN_OFF);
  ((POST, u8 "/team/member_delete"), refuse WHY_ADMIN_OFF);
  ((POST, u8 "/team/member_update"), refuse WHY_ADMIN_OFF);
  ((POST, u8 "/team/model/add"), refuse WHY_ADMIN_OFF);
  ((POST, u8 "/team/model/delete"), refuse WHY_ADMIN_OFF);
  ((POST, u8 "/team/new"), refuse WHY_ADMIN_OFF);
  ((POST, u8 "/team/permissions_bulk_update"), refuse WHY_ADMIN_OFF);
  ((POST, u8 "/team/permissions_update"), refuse WHY_ADMIN_OFF);
  ((POST, u8 "/team/unblock"), refuse WHY_ADMIN_OFF);
  ((POST, u8 "/team/update"), refuse WHY_ADMIN_OFF);
  ((POST, u8 "/threads"), refuse WHY_PROVIDER);
  ((POST, u8 "/token"), refuse WHY_MCP);
  ((POST, u8 "/upload/logo"), refuse WHY_UI_OFF);
  ((POST, u8 "/usage/ai/chat"), refuse WHY_NO_HOOK);
  ((POST, u8 "/user/bulk_update"), refuse WHY_ADMIN_OFF);
  ((POST, u8 "/user/delete"), refuse WHY_ADMIN_OFF);
  ((POST, u8 "/user/new"), refuse WHY_ADMIN_OFF);
  ((POST, u8 "/user/update"), refuse WHY_ADMIN_OFF);
  ((POST, u8 "/utils/dotprompt_json_converter"), refuse WHY_NO_HOOK);
  ((POST, u8 "/utils/test_policies_and_guardrails"), refuse WHY_GUARDRAIL_ECHO);
  ((POST, u8 "/utils/token_counter"), refuse WHY_COUNT);
  ((POST, u8 "/utils/transform_request"), refuse WHY_NO_HOOK);
  ((POST, u8 "/v1/a2a/discover"), refuse WHY_AGENT);
  ((POST, u8 "/v1/access_group"), refuse WHY_ADMIN_OFF);
  ((POST, u8 "/v1/agents"), refuse WHY_AGENT);
  ((POST, u8 "/v1/agents/make_public"), refuse WHY_AGENT);
  ((POST, u8 "/v1/assistants"), refuse WHY_PROVIDER);
  ((POST, u8 "/v1/audio/speech"), refuse WHY_NO_REWRITE);
  ((POST, u8 "/v1/audio/transcriptions"), refuse WHY_NOT_REWRITTEN);
  ((POST, u8 "/v1/batches"), refuse WHY_PROVIDER);
  ((POST, u8 "/v1/chat/completions"), rewritten WHY_CHAT);
  ((POST, u8 "/v1/completions"), refuse WHY_PROMPT);
  ((POST, u8 "/v1/containers"), refuse WHY_NOT_REWRITTEN);
  ((POST, u8 "/v1/embeddings"), refuse WHY_NO_REWRITE);
  ((POST, u8 "/v1/evals"), refuse WHY_NOT_REWRITTEN);
  ((POST, u8 "/v1/files"), refuse WHY_PROVIDER_STORE);
  ((POST, u8 "/v1/fine_tuning/jobs"), refuse WHY_PROVIDER);
  ((POST, u8 "/v1/images/edits"), refuse WHY_NOT_REWRITTEN);
  ((POST, u8 "/v1/images/generations"), refuse WHY_NOT_REWRITTEN);
  ((POST, u8 "/v1/indexes"), refuse WHY_PROVIDER_STORE);
  ((POST, u8 "/v1/mcp/make_public"), refuse WHY_ADMIN_OFF);
  ((POST, u8 "/v1/mcp/oauth/authorize"), refuse WHY_MCP);
  ((POST, u8 "/v1/mcp/oauth/token"), refuse WHY_MCP);
  ((POST, u8 "/v1/mcp/server"), refuse WHY_ADMIN_OFF);
  ((POST, u8 "/v1/mcp/server/import"), refuse WHY_ADMIN_OFF);
  ((POST, u8 "/v1/mcp/server/oauth/session"), refuse WHY_MCP);
  ((POST, u8 "/v1/mcp/server/register"), refuse WHY_ADMIN_OFF);
  ((POST, u8 "/v1/mcp/toolset"), refuse WHY_ADMIN_OFF);
  ((POST, u8 "/v1/memory"), refuse WHY_MEMORY);
  ((POST, u8 "/v1/messages"), rewritten WHY_MESSAGES);
  ((POST, u8 "/v1/messages/count_tokens"), refuse WHY_COUNT);
  ((POST, u8 "/v1/moderations"), refuse WHY_NO_REWRITE);
  ((POST, u8 "/v1/ocr"), refuse WHY_NOT_REWRITTEN);
  ((POST, u8 "/v1/rag/ingest"), refuse WHY_RAG);
  ((POST, u8 "/v1/rag/query"), refuse WHY_RAG);
  ((POST, u8 "/v1/realtime/calls"), refuse WHY_NOT_REWRITTEN);
  ((POST, u8 "/v1/realtime/client_secrets"), refuse WHY_NOT_REWRITTEN);
  ((POST, u8 "/v1/realtime/transcription_sessions"), refuse WHY_NOT_REWRITTEN);
  ((POST, u8 "/v1/rerank"), refuse WHY_NOT_REWRITTEN);
  ((POST, u8 "/v1/responses"), rewritten WHY_RESPONSES);
  ((POST, u8 "/v1/responses/compact"), rewritten WHY_COMPACT);
  ((POST, u8 "/v1/responses/input_tokens"), refuse WHY_COUNT);
  ((POST, u8 "/v1/rust_control_plane/logs"), refuse WHY_NO_HOOK);
  ((POST, u8 "/v1/search"), refuse WHY_SEARCH);
  ((POST, u8 "/v1/skills"), refuse WHY_NOT_REWRITTEN);
  ((POST, u8 "/v1/threads"), refuse WHY_PROVIDER);
  ((POST, u8 "/v1/tool/policy"), refuse WHY_ADMIN_OFF);
  ((POST, u8 "/v1/unified_access_group"), refuse WHY_ADMIN_OFF);
  ((POST, u8 "/v1/vector_stores"), refuse WHY_NOT_REWRITTEN);
  ((POST, u8 "/v1/videos"), refuse WHY_NOT_REWRITTEN);
  ((POST, u8 "/v1/videos/characters"), refuse WHY_NOT_REWRITTEN);
  ((POST, u8 "/v1/videos/edits"), refuse WHY_NOT_REWRITTEN);
  ((POST, u8 "/v1/videos/extensions"), refuse WHY_NOT_REWRITTEN);
  ((POST, u8 "/v1/workflows/runs"), refuse WHY_AGENT);
  ((POST, u8 "/v1beta/agents"), refuse WHY_NOT_REWRITTEN);
  ((POST, u8 "/v1beta/interactions"), refuse WHY_NOT_REWRITTEN);
  ((POST, u8 "/v2/key/info"), refuse WHY_ADMIN_OFF);
  ((POST, u8 "/v2/login"), refuse WHY_AUTH_OFF);
  ((POST, u8 "/v2/rerank"), refuse WHY_NOT_REWRITTEN);
  ((POST, u8 "/v3/login"), refuse WHY_AUTH_OFF);
  ((POST, u8 "/v3/login/exchange"), refuse WHY_AUTH_OFF);
  ((POST, u8 "/vantage/dry-run"), refuse WHY_SPEND_EXPORT);
  ((POST, u8 "/vantage/export"), refuse WHY_SPEND_EXPORT);
  ((POST, u8 "/vantage/init"), refuse WHY_SPEND_EXPORT);
  ((POST, u8 "/vector_store/delete"), refuse WHY_ADMIN_OFF);
  ((POST, u8 "/vector_store/info"), refuse WHY_ADMIN_OFF);
  ((POST, u8 "/vector_store/new"), refuse WHY_ADMIN_OFF);
  ((POST, u8 "/vector_store/update"), refuse WHY_ADMIN_OFF);
  ((POST, u8 "/vector_stores"), refuse WHY_NOT_REWRITTEN);
  ((POST, u8 "/videos"), refuse WHY_NOT_REWRITTEN);
  ((POST, u8 "/videos/characters"), refuse WHY_NOT_REWRITTEN);
  ((POST, u8 "/videos/edits"), refuse WHY_NOT_REWRITTEN);
  ((POST, u8 "/videos/extensions"), refuse WHY_NOT_REWRITTEN);
  ((PUT, u8 "/cloudzero/settings"), refuse WHY_ADMIN_OFF);
  ((PUT, u8 "/mcp"), refuse WHY_MCP);
  ((PUT, u8 "/v1/mcp/server"), refuse WHY_ADMIN_OFF);
  ((PUT, u8 "/v1/mcp/toolset"), refuse WHY_ADMIN_OFF);
  ((PUT, u8 "/vantage/settings"), refuse WHY_ADMIN_OFF)].

Definition LITELLM_ROUTE_TABLE : list route_row :=
  LITELLM_ROUTE_TABLE_1 ++ LITELLM_ROUTE_TABLE_2 ++ LITELLM_ROUTE_TABLE_3 ++ LITELLM_ROUTE_TABLE_4.

Definition LITELLM_REGEX_TABLE_1 : list regex_entry := [
  regex_row GET (u8 "/.well-known/oauth-authorization-server/{mcp_server_name}/mcp") (refuse WHY_MCP);
  regex_row GET (u8 "/config/pass_through_endpoint/team/{team_id}") (refuse WHY_ADMIN_OFF);
  regex_row POST (u8 "/config/pass_through_endpoint/{endpoint_id}") (refuse WHY_PROVIDER);
  regex_row GET (u8 "/guardrails/ui/category_yaml/{category_name}") (refuse WHY_ADMIN_OFF);
  regex_row DELETE (u8 "/v1/unified_access_group/{access_group_id}") (refuse WHY_ADMIN_OFF);
  regex_row GET (u8 "/v1/unified_access_group/{access_group_id}") (refuse WHY_ADMIN_OFF);
  regex_row PUT (u8 "/v1/unified_access_group/{access_group_id}") (refuse WHY_ADMIN_OFF);
  regex_row GET (u8 "/guardrails/usage/detail/{guardrail_id}") (refuse WHY_ADMIN_OFF);
  regex_row POST (u8 "/auto_router/shadow_eval/{job_id}/stop") (refuse WHY_ADMIN_OFF);
  regex_row GET (u8 "/auto_router/shadow_eval/{job_id}") (refuse WHY_ADMIN_OFF);
  regex_row POST (u8 "/guardrails/submissions/{guardrail_id}/approve") (refuse WHY_ADMIN_OFF);
  regex_row POST (u8 "/guardrails/submissions/{guardrail_id}/reject") (refuse WHY_ADMIN_OFF);
  regex_row GET (u8 "/guardrails/submissions/{guardrail_id}") (refuse WHY_ADMIN_OFF);
  regex_row GET (u8 "/scim/v2/ResourceTypes/{resource_type_id}") (refuse WHY_ADMIN_OFF);
  regex_row DELETE (u8 "/policies/attachments/{attachment_id}") (refuse WHY_ADMIN_OFF);
  regex_row GET (u8 "/policies/attachments/{attachment_id}") (refuse WHY_ADMIN_OFF);
  regex_row POST (u8 "/scim/v2/placeholders/{user_id}/merge") (refuse WHY_ADMIN_OFF);
  regex_row GET (u8 "/v1/videos/characters/{character_id}") (refuse WHY_NOT_REWRITTEN);
  regex_row GET (u8 "/credentials/by_model/{model_id}") (refuse WHY_ADMIN_OFF);
  regex_row POST (u8 "/v1/fine_tuning/jobs/{fine_tuning_job_id:path}/cancel") (refuse WHY_PROVIDER);
  regex_row GET (u8 "/openai/v1/responses/{response_id}/input_items") (passthrough WHY_STORED_RESPONSE None);
  regex_row GET (u8 "/v1/fine_tuning/jobs/{fine_tuning_job_id:path}") (refuse WHY_PROVIDER);
  regex_row POST (u8 "/v1beta/interactions/{interaction_id}/cancel") (refuse WHY_NOT_REWRITTEN);
  regex_row GET (u8 "/credentials/by_name/{credential_name:path}") (refuse WHY_ADMIN_OFF);
  regex_row GET (u8 "/v1/mcp/server/oauth/{server_id}/authorize") (refuse WHY_MCP);
  regex_row POST (u8 "/claude-code/plugins/{plugin_name}/disable") (refuse WHY_ADMIN_OFF);
  regex_row POST (u8 "/claude-code/plugins/{plugin_name}/enable") (refuse WHY_ADMIN_OFF);
  regex_row POST (u8 "/openai/v1/responses/{response_id}/cancel") (passthrough WHY_STORED_RESPONSE (Some JUST_STORED_RESPONSE));
  regex_row POST (u8 "/v1/mcp/server/oauth/{server_id}/register") (refuse WHY_MCP);
  regex_row POST (u8 "/v1/mcp/server/oauth/{server_id}/token") (refuse WHY_MCP);
  regex_row DELETE (u8 "/v1beta/interactions/{interaction_id}") (refuse WHY_NOT_REWRITTEN);
  regex_row GET (u8 "/v1beta/interactions/{interaction_id}") (refuse WHY_NOT_REWRITTEN);
  regex_row DELETE (u8 "/vertex_ai/discovery/{endpoint:path}") (refuse WHY_PROVIDER);
  regex_row GET (u8 "/vertex_ai/discovery/{endpoint:path}") (refuse WHY_PROVIDER);
  regex_row PATCH (u8 "/vertex_ai/discovery/{endpoint:path}") (refuse WHY_PROVIDER);
  regex_row POST (u8 "/vertex_ai/discovery/{endpoint:path}") (refuse WHY_PROVIDER);
  regex_row PUT (u8 "/vertex_ai/discovery/{endpoint:path}") (refuse WHY_PROVIDER);
  regex_row DELETE (u8 "/claude-code/plugins/{plugin_name}") (refuse WHY_ADMIN_OFF);
  regex_row DELETE (u8 "/openai/v1/responses/{response_id}") (passthrough WHY_STORED_RESPONSE None);
  regex_row GET (u8 "/claude-code/plugins/{plugin_name}") (refuse WHY_ADMIN_OFF);
  regex_row GET (u8 "/openai/v1/responses/{response_id}") (passthrough WHY_STORED_RESPONSE None);
  regex_row PUT (u8 "/claude-code/plugins/{plugin_name}") (refuse WHY_ADMIN_OFF);
  regex_row GET (u8 "/public/v1/model_hub/{facet}") (refuse WHY_PUBLIC_OFF);
  regex_row POST (u8 "/openai/deployments/{model:path}/images/generations") (refuse WHY_NOT_REWRITTEN);
  regex_row POST (u8 "/openai/deployments/{model:path}/chat/completions") (refuse WHY_OPENAI_SHADOWED);
  regex_row POST (u8 "/openai/deployments/{model:path}/images/edits") (refuse WHY_NOT_REWRITTEN);
  regex_row POST (u8 "/openai/deployments/{model:path}/completions") (refuse WHY_PROMPT);
  regex_row POST (u8 "/openai/deployments/{model:path}/embeddings") (refuse WHY_NO_REWRITE);
  regex_row DELETE (u8 "/openai_passthrough/{endpoint:path}") (refuse WHY_PROVIDER);
  regex_row GET (u8 "/openai_passthrough/{endpoint:path}") (refuse WHY_PROVIDER);
  regex_row PATCH (u8 "/openai_passthrough/{endpoint:path}") (refuse WHY_PROVIDER);
  regex_row POST (u8 "/openai_passthrough/{endpoint:path}") (refuse WHY_PROVIDER);
  regex_row PUT (u8 "/openai_passthrough/{endpoint:path}") (refuse WHY_PROVIDER);
  regex_row GET (u8 "/v1/workflows/runs/{run_id}/messages") (refuse WHY_AGENT);
  regex_row POST (u8 "/v1/workflows/runs/{run_id}/messages") (refuse WHY_AGENT);
  regex_row GET (u8 "/v1/workflows/runs/{run_id}/events") (refuse WHY_AGENT);
  regex_row POST (u8 "/v1/workflows/runs/{run_id}/events") (refuse WHY_AGENT);
  regex_row GET (u8 "/videos/characters/{character_id}") (refuse WHY_NOT_REWRITTEN);
  regex_row POST (u8 "/comprehendmedical/{operation}") (refuse WHY_PROVIDER);
  regex_row GET (u8 "/v1/workflows/runs/{run_id}") (refuse WHY_AGENT);
  regex_row PATCH (u8 "/v1/workflows/runs/{run_id}") (refuse WHY_AGENT);
  regex_row GET (u8 "/v1/vector_stores/{vector_store_id}/files/{file_id}/content") (refuse WHY_NOT_REWRITTEN);
  regex_row DELETE (u8 "/v1/vector_stores/{vector_store_id}/files/{file_id}") (refuse WHY_NOT_REWRITTEN);
  regex_row GET (u8 "/v1/vector_stores/{vector_store_id}/files/{file_id}") (refuse WHY_NOT_REWRITTEN);
  regex_row POST (u8 "/v1/vector_stores/{vector_store_id}/files/{file_id}") (refuse WHY_NOT_REWRITTEN);
  regex_row POST (u8 "/fine_tuning/jobs/{fine_tuning_job_id:path}/cancel") (refuse WHY_PROVIDER);
  regex_row POST (u8 "/v1/vector_stores/{vector_store_id:path}/search") (refuse WHY_NOT_REWRITTEN);
  regex_row GET (u8 "/fine_tuning/jobs/{fine_tuning_job_id:path}") (refuse WHY_PROVIDER);
  regex_row GET (u8 "/v1/vector_stores/{vector_store_id}/files") (refuse WHY_NOT_REWRITTEN);
  regex_row POST (u8 "/v1/vector_stores/{vector_store_id}/files") (refuse WHY_NOT_REWRITTEN);
  regex_row DELETE (u8 "/v1/vector_stores/{vector_store_id}") (refuse WHY_NOT_REWRITTEN);
  regex_row GET (u8 "/v1/vector_stores/{vector_store_id}") (refuse WHY_NOT_REWRITTEN);
  regex_row POST (u8 "/v1/vector_stores/{vector_store_id}") (refuse WHY_NOT_REWRITTEN);
  regex_row POST (u8 "/sso/cli/complete/{login_id}") (refuse WHY_AUTH_OFF);
  regex_row DELETE (u8 "/v1/access_group/{access_group_id}") (refuse WHY_ADMIN_OFF);
  regex_row GET (u8 "/v1/access_group/{access_group_id}") (refuse WHY_ADMIN_OFF);
  regex_row PATCH (u8 "/v2/organization/{organization_id}") (refuse WHY_ADMIN_OFF);
  regex_row PUT (u8 "/v1/access_group/{access_group_id}") (refuse WHY_ADMIN_OFF);
  regex_row GET (u8 "/scim/v2/Schemas/{schema_id:path}") (refuse WHY_ADMIN_OFF);
  regex_row DELETE (u8 "/v1/mcp/toolset/{toolset_id}") (refuse WHY_ADMIN_OFF);
  regex_row GET (u8 "/v1/mcp/toolset/{toolset_id}") (refuse WHY_ADMIN_OFF);
  regex_row DELETE (u8 "/scim/v2/Groups/{group_id}") (refuse WHY_ADMIN_OFF);
  regex_row GET (u8 "/scim/v2/Groups/{group_id}") (refuse WHY_ADMIN_OFF);
  regex_row PATCH (u8 "/scim/v2/Groups/{group_id}") (refuse WHY_ADMIN_OFF);
  regex_row PUT (u8 "/scim/v2/Groups/{group_id}") (refuse WHY_ADMIN_OFF);
  regex_row GET (u8 "/vector_stores/{vector_store_id}/files/{file_id}/content") (refuse WHY_NOT_REWRITTEN);
  regex_row GET (u8 "/v1/mcp/server/{server_id}/oauth-user-credential/status") (refuse WHY_ADMIN_OFF);
  regex_row POST (u8 "/v1beta/models/{model_name:path}:streamGenerateContent") (refuse WHY_NOT_REWRITTEN);
  regex_row DELETE (u8 "/v1/mcp/server/{server_id}/oauth-user-credential") (refuse WHY_ADMIN_OFF);
  regex_row DELETE (u8 "/vector_stores/{vector_store_id}/files/{file_id}") (refuse WHY_NOT_REWRITTEN);
  regex_row GET (u8 "/vector_stores/{vector_store_id}/files/{file_id}") (refuse WHY_NOT_REWRITTEN)].

Definition LITELLM_REGEX_TABLE_2 : list regex_entry := [
  regex_row POST (u8 "/v1/mcp/server/{server_id}/oauth-user-credential") (refuse WHY_ADMIN_OFF);
  regex_row POST (u8 "/v1beta/models/{model_name:path}:generateContent") (refuse WHY_NOT_REWRITTEN);
  regex_row POST (u8 "/vector_stores/{vector_store_id}/files/{file_id}") (refuse WHY_NOT_REWRITTEN);
  regex_row POST (u8 "/v1beta/models/{model_name:path}:countTokens") (refuse WHY_COUNT);
  regex_row POST (u8 "/vector_stores/{vector_store_id:path}/search") (refuse WHY_NOT_REWRITTEN);
  regex_row DELETE (u8 "/v1/mcp/server/{server_id}/user-credential") (refuse WHY_ADMIN_OFF);
  regex_row POST (u8 "/v1/mcp/server/{server_id}/user-credential") (refuse WHY_ADMIN_OFF);
  regex_row DELETE (u8 "/policies/name/{policy_name}/all-versions") (refuse WHY_ADMIN_OFF);
  regex_row DELETE (u8 "/v1/mcp/server/{server_id}/user-env-vars") (refuse WHY_ADMIN_OFF);
  regex_row GET (u8 "/v1/mcp/server/{server_id}/user-env-vars") (refuse WHY_ADMIN_OFF);
  regex_row POST (u8 "/v1/mcp/server/{server_id}/user-env-vars") (refuse WHY_ADMIN_OFF);
  regex_row GET (u8 "/vector_stores/{vector_store_id}/files") (refuse WHY_NOT_REWRITTEN);
  regex_row POST (u8 "/vector_stores/{vector_store_id}/files") (refuse WHY_NOT_REWRITTEN);
  regex_row GET (u8 "/policies/name/{policy_name}/versions") (refuse WHY_ADMIN_OFF);
  regex_row POST (u8 "/policies/name/{policy_name}/versions") (refuse WHY_ADMIN_OFF);
  regex_row DELETE (u8 "/v1/assistants/{assistant_id:path}") (refuse WHY_PROVIDER);
  regex_row PUT (u8 "/v1/mcp/server/{server_id}/approve") (refuse WHY_ADMIN_OFF);
  regex_row PUT (u8 "/v1/mcp/server/{server_id}/reject") (refuse WHY_ADMIN_OFF);
  regex_row DELETE (u8 "/vector_stores/{vector_store_id}") (refuse WHY_NOT_REWRITTEN);
  regex_row GET (u8 "/vector_stores/{vector_store_id}") (refuse WHY_NOT_REWRITTEN);
  regex_row POST (u8 "/vector_stores/{vector_store_id}") (refuse WHY_NOT_REWRITTEN);
  regex_row DELETE (u8 "/eu.assemblyai/{endpoint:path}") (refuse WHY_PROVIDER);
  regex_row GET (u8 "/eu.assemblyai/{endpoint:path}") (refuse WHY_PROVIDER);
  regex_row GET (u8 "/v1beta/agents/{name}/versions") (refuse WHY_NOT_REWRITTEN);
  regex_row PATCH (u8 "/eu.assemblyai/{endpoint:path}") (refuse WHY_PROVIDER);
  regex_row POST (u8 "/eu.assemblyai/{endpoint:path}") (refuse WHY_PROVIDER);
  regex_row PUT (u8 "/eu.assemblyai/{endpoint:path}") (refuse WHY_PROVIDER);
  regex_row DELETE (u8 "/v1/containers/{container_id}") (refuse WHY_NOT_REWRITTEN);
  regex_row GET (u8 "/v1/containers/{container_id}") (refuse WHY_NOT_REWRITTEN);
  regex_row GET (u8 "/spend/logs/ui/{request_id}") (refuse WHY_SPEND_OFF);
  regex_row DELETE (u8 "/v1/mcp/server/{server_id}") (refuse WHY_ADMIN_OFF);
  regex_row GET (u8 "/v1/mcp/server/{server_id}") (refuse WHY_ADMIN_OFF);
  regex_row DELETE (u8 "/scim/v2/Users/{user_id}") (refuse WHY_ADMIN_OFF);
  regex_row GET (u8 "/scim/v2/Users/{user_id}") (refuse WHY_ADMIN_OFF);
  regex_row PATCH (u8 "/scim/v2/Users/{user_id}") (refuse WHY_ADMIN_OFF);
  regex_row PUT (u8 "/scim/v2/Users/{user_id}") (refuse WHY_ADMIN_OFF);
  regex_row DELETE (u8 "/v1beta/agents/{name}") (refuse WHY_NOT_REWRITTEN);
  regex_row GET (u8 "/v1beta/agents/{name}") (refuse WHY_NOT_REWRITTEN);
  regex_row DELETE (u8 "/plugin-proxy/{plugin_name}/{path:path}") (refuse WHY_PROVIDER);
  regex_row GET (u8 "/plugin-proxy/{plugin_name}/{path:path}") (refuse WHY_PROVIDER);
  regex_row GET (u8 "/v1/responses/{response_id}/input_items") (passthrough WHY_STORED_RESPONSE None);
  regex_row OPTIONS (u8 "/plugin-proxy/{plugin_name}/{path:path}") (refuse WHY_PROVIDER);
  regex_row PATCH (u8 "/plugin-proxy/{plugin_name}/{path:path}") (refuse WHY_PROVIDER);
  regex_row POST (u8 "/plugin-proxy/{plugin_name}/{path:path}") (refuse WHY_PROVIDER);
  regex_row PUT (u8 "/plugin-proxy/{plugin_name}/{path:path}") (refuse WHY_PROVIDER);
  regex_row POST (u8 "/interactions/{interaction_id}/cancel") (refuse WHY_NOT_REWRITTEN);
  regex_row DELETE (u8 "/access_group/{access_group}/budget") (refuse WHY_ADMIN_OFF);
  regex_row DELETE (u8 "/access_group/{access_group}/delete") (refuse WHY_ADMIN_OFF);
  regex_row GET (u8 "/access_group/{access_group}/budget") (refuse WHY_ADMIN_OFF);
  regex_row PUT (u8 "/access_group/{access_group}/budget") (refuse WHY_ADMIN_OFF);
  regex_row PUT (u8 "/access_group/{access_group}/update") (refuse WHY_ADMIN_OFF);
  regex_row POST (u8 "/v1/responses/{response_id}/cancel") (passthrough WHY_STORED_RESPONSE (Some JUST_STORED_RESPONSE));
  regex_row GET (u8 "/access_group/{access_group}/info") (refuse WHY_ADMIN_OFF);
  regex_row DELETE (u8 "/interactions/{interaction_id}") (refuse WHY_NOT_REWRITTEN);
  regex_row DELETE (u8 "/search_tools/{search_tool_id}") (refuse WHY_SEARCH);
  regex_row GET (u8 "/interactions/{interaction_id}") (refuse WHY_NOT_REWRITTEN);
  regex_row GET (u8 "/search_tools/{search_tool_id}") (refuse WHY_SEARCH);
  regex_row PUT (u8 "/search_tools/{search_tool_id}") (refuse WHY_SEARCH);
  regex_row DELETE (u8 "/v1/responses/{response_id}") (passthrough WHY_STORED_RESPONSE None);
  regex_row GET (u8 "/v1/responses/{response_id}") (passthrough WHY_STORED_RESPONSE None);
  regex_row GET (u8 "/sso/cli/poll/{key_id}") (refuse WHY_AUTH_OFF);
  regex_row DELETE (u8 "/credentials/{credential_name:path}") (refuse WHY_ADMIN_OFF);
  regex_row PATCH (u8 "/credentials/{credential_name:path}") (refuse WHY_ADMIN_OFF);
  regex_row GET (u8 "/policy/info/{policy_name}") (refuse WHY_ADMIN_OFF);
  regex_row POST (u8 "/v1/batches/{batch_id:path}/cancel") (refuse WHY_PROVIDER);
  regex_row GET (u8 "/v1/threads/{thread_id}/messages") (refuse WHY_PROVIDER);
  regex_row POST (u8 "/v1/threads/{thread_id}/messages") (refuse WHY_PROVIDER);
  regex_row DELETE (u8 "/assistants/{assistant_id:path}") (refuse WHY_PROVIDER);
  regex_row GET (u8 "/guardrails/{guardrail_id}/info") (refuse WHY_ADMIN_OFF);
  regex_row POST (u8 "/v1/threads/{thread_id}/runs") (refuse WHY_PROVIDER);
  regex_row DELETE (u8 "/assemblyai/{endpoint:path}") (refuse WHY_PROVIDER);
  regex_row GET (u8 "/assemblyai/{endpoint:path}") (refuse WHY_PROVIDER);
  regex_row GET (u8 "/v1/batches/{batch_id:path}") (refuse WHY_PROVIDER);
  regex_row PATCH (u8 "/assemblyai/{endpoint:path}") (refuse WHY_PROVIDER);
  regex_row POST (u8 "/assemblyai/{endpoint:path}") (refuse WHY_PROVIDER);
  regex_row PUT (u8 "/assemblyai/{endpoint:path}") (refuse WHY_PROVIDER);
  regex_row DELETE (u8 "/containers/{container_id}") (refuse WHY_NOT_REWRITTEN);
  regex_row DELETE (u8 "/guardrails/{guardrail_id}") (refuse WHY_ADMIN_OFF);
  regex_row GET (u8 "/containers/{container_id}") (refuse WHY_NOT_REWRITTEN);
  regex_row GET (u8 "/guardrails/{guardrail_id}") (refuse WHY_ADMIN_OFF);
  regex_row PATCH (u8 "/guardrails/{guardrail_id}") (refuse WHY_ADMIN_OFF);
  regex_row PUT (u8 "/guardrails/{guardrail_id}") (refuse WHY_ADMIN_OFF);
  regex_row GET (u8 "/v1/threads/{thread_id}") (refuse WHY_PROVIDER);
  regex_row GET (u8 "/responses/{response_id}/input_items") (passthrough WHY_STORED_RESPONSE None);
  regex_row POST (u8 "/v1/agents/{agent_id}/make_public") (refuse WHY_AGENT);
  regex_row POST (u8 "/responses/{response_id}/cancel") (passthrough WHY_STORED_RESPONSE (Some JUST_STORED_RESPONSE));
  regex_row GET (u8 "/v1/videos/{video_id}/content") (refuse WHY_NOT_REWRITTEN);
  regex_row POST (u8 "/v1/search/{search_tool_name}") (refuse WHY_SEARCH);
  regex_row POST (u8 "/v1/videos/{video_id}/remix") (refuse WHY_NOT_REWRITTEN);
  regex_row DELETE (u8 "/anthropic/{endpoint:path}") (refuse WHY_PROVIDER);
  regex_row DELETE (u8 "/vertex-ai/{endpoint:path}") (refuse WHY_PROVIDER);
  regex_row DELETE (u8 "/vertex_ai/{endpoint:path}") (refuse WHY_PROVIDER);
  regex_row GET (u8 "/anthropic/{endpoint:path}") (refuse WHY_PROVIDER);
  regex_row GET (u8 "/vertex-ai/{endpoint:path}") (refuse WHY_PROVIDER);
  regex_row GET (u8 "/vertex_ai/{endpoint:path}") (refuse WHY_PROVIDER);
  regex_row PATCH (u8 "/anthropic/{endpoint:path}") (refuse WHY_PROVIDER);
  regex_row PATCH (u8 "/vertex-ai/{endpoint:path}") (refuse WHY_PROVIDER);
  regex_row PATCH (u8 "/vertex_ai/{endpoint:path}") (refuse WHY_PROVIDER);
  regex_row POST (u8 "/anthropic/{endpoint:path}") (refuse WHY_PROVIDER);
  regex_row POST (u8 "/vertex-ai/{endpoint:path}") (refuse WHY_PROVIDER);
  regex_row POST (u8 "/vertex_ai/{endpoint:path}") (refuse WHY_PROVIDER);
  regex_row PUT (u8 "/anthropic/{endpoint:path}") (refuse WHY_PROVIDER);
  regex_row PUT (u8 "/vertex-ai/{endpoint:path}") (refuse WHY_PROVIDER);
  regex_row PUT (u8 "/vertex_ai/{endpoint:path}") (refuse WHY_PROVIDER);
  regex_row DELETE (u8 "/responses/{response_id}") (passthrough WHY_STORED_RESPONSE None);
  regex_row GET (u8 "/responses/{response_id}") (passthrough WHY_STORED_RESPONSE None);
  regex_row DELETE (u8 "/v1/agents/{agent_id}") (refuse WHY_AGENT);
  regex_row DELETE (u8 "/v1/memory/{key:path}") (refuse WHY_MEMORY);
  regex_row DELETE (u8 "/v1/skills/{skill_id}") (refuse WHY_NOT_REWRITTEN);
  regex_row GET (u8 "/v1/agents/{agent_id}") (refuse WHY_AGENT);
  regex_row GET (u8 "/v1/memory/{key:path}") (refuse WHY_MEMORY);
  regex_row GET (u8 "/v1/models/{model_id}") (passthrough WHY_MODELS None);
  regex_row GET (u8 "/v1/skills/{skill_id}") (refuse WHY_NOT_REWRITTEN);
  regex_row GET (u8 "/v1/videos/{video_id}") (refuse WHY_NOT_REWRITTEN);
  regex_row PATCH (u8 "/v1/agents/{agent_id}") (refuse WHY_AGENT);
  regex_row PUT (u8 "/v1/agents/{agent_id}") (refuse WHY_AGENT);
  regex_row PUT (u8 "/v1/memory/{key:path}") (refuse WHY_MEMORY);
  regex_row POST (u8 "/lazy/warm/{name}") (refuse WHY_LAZY_OFF);
  regex_row GET (u8 "/policies/{policy_id}/resolved-guardrails") (refuse WHY_ADMIN_OFF);
  regex_row DELETE (u8 "/v1/evals/{eval_id}/runs/{run_id}") (refuse WHY_NOT_REWRITTEN);
  regex_row GET (u8 "/v1/evals/{eval_id}/runs/{run_id}") (refuse WHY_NOT_REWRITTEN);
  regex_row POST (u8 "/v1/evals/{eval_id}/runs/{run_id}") (refuse WHY_NOT_REWRITTEN);
  regex_row GET (u8 "/v1/files/{file_id:path}/content") (refuse WHY_PROVIDER_STORE);
  regex_row PUT (u8 "/policies/{policy_id}/status") (refuse WHY_ADMIN_OFF);
  regex_row POST (u8 "/v1/evals/{eval_id}/cancel") (refuse WHY_NOT_REWRITTEN);
  regex_row DELETE (u8 "/azure_ai/{endpoint:path}") (refuse WHY_PROVIDER);
  regex_row DELETE (u8 "/gigachat/{endpoint:path}") (refuse WHY_PROVIDER);
  regex_row DELETE (u8 "/langfuse/{endpoint:path}") (refuse WHY_PROVIDER)].

Definition LITELLM_REGEX_TABLE_3 : list regex_entry := [
  regex_row GET (u8 "/azure_ai/{endpoint:path}") (refuse WHY_PROVIDER);
  regex_row GET (u8 "/gigachat/{endpoint:path}") (refuse WHY_PROVIDER);
  regex_row GET (u8 "/langfuse/{endpoint:path}") (refuse WHY_PROVIDER);
  regex_row PATCH (u8 "/azure_ai/{endpoint:path}") (refuse WHY_PROVIDER);
  regex_row PATCH (u8 "/gigachat/{endpoint:path}") (refuse WHY_PROVIDER);
  regex_row PATCH (u8 "/langfuse/{endpoint:path}") (refuse WHY_PROVIDER);
  regex_row POST (u8 "/azure_ai/{endpoint:path}") (refuse WHY_PROVIDER);
  regex_row POST (u8 "/gigachat/{endpoint:path}") (refuse WHY_PROVIDER);
  regex_row POST (u8 "/langfuse/{endpoint:path}") (refuse WHY_PROVIDER);
  regex_row PUT (u8 "/azure_ai/{endpoint:path}") (refuse WHY_PROVIDER);
  regex_row PUT (u8 "/gigachat/{endpoint:path}") (refuse WHY_PROVIDER);
  regex_row PUT (u8 "/langfuse/{endpoint:path}") (refuse WHY_PROVIDER);
  regex_row DELETE (u8 "/v1/files/{file_id:path}") (refuse WHY_PROVIDER_STORE);
  regex_row GET (u8 "/v1/evals/{eval_id}/runs") (refuse WHY_NOT_REWRITTEN);
  regex_row GET (u8 "/v1/files/{file_id:path}") (refuse WHY_PROVIDER_STORE);
  regex_row POST (u8 "/v1/evals/{eval_id}/runs") (refuse WHY_NOT_REWRITTEN);
  regex_row DELETE (u8 "/policies/{policy_id}") (refuse WHY_ADMIN_OFF);
  regex_row GET (u8 "/policies/{policy_id}") (refuse WHY_ADMIN_OFF);
  regex_row PUT (u8 "/policies/{policy_id}") (refuse WHY_ADMIN_OFF);
  regex_row DELETE (u8 "/v1/evals/{eval_id}") (refuse WHY_NOT_REWRITTEN);
  regex_row GET (u8 "/v1/evals/{eval_id}") (refuse WHY_NOT_REWRITTEN);
  regex_row POST (u8 "/v1/evals/{eval_id}") (refuse WHY_NOT_REWRITTEN);
  regex_row DELETE (u8 "/fallback/{model}") (refuse WHY_ADMIN_OFF);
  regex_row GET (u8 "/fallback/{model}") (refuse WHY_ADMIN_OFF);
  regex_row POST (u8 "/engines/{model:path}/chat/completions") (rewritten WHY_CHAT);
  regex_row DELETE (u8 "/v1/tool/{tool_name:path}/overrides") (refuse WHY_ADMIN_OFF);
  regex_row POST (u8 "/engines/{model:path}/completions") (refuse WHY_PROMPT);
  regex_row GET (u8 "/v1/tool/{tool_name:path}/detail") (refuse WHY_ADMIN_OFF);
  regex_row POST (u8 "/engines/{model:path}/embeddings") (refuse WHY_NO_REWRITE);
  regex_row POST (u8 "/batches/{batch_id:path}/cancel") (refuse WHY_PROVIDER);
  regex_row GET (u8 "/v1/tool/{tool_name:path}/logs") (refuse WHY_ADMIN_OFF);
  regex_row GET (u8 "/prompts/{prompt_id}/versions") (refuse WHY_ADMIN_OFF);
  regex_row GET (u8 "/threads/{thread_id}/messages") (refuse WHY_PROVIDER);
  regex_row POST (u8 "/threads/{thread_id}/messages") (refuse WHY_PROVIDER);
  regex_row DELETE (u8 "/toolset/{toolset_name}/mcp") (refuse WHY_MCP);
  regex_row GET (u8 "/toolset/{toolset_name}/mcp") (refuse WHY_MCP);
  regex_row OPTIONS (u8 "/toolset/{toolset_name}/mcp") (refuse WHY_MCP);
  regex_row PATCH (u8 "/toolset/{toolset_name}/mcp") (refuse WHY_MCP);
  regex_row POST (u8 "/toolset/{toolset_name}/mcp") (refuse WHY_MCP);
  regex_row PUT (u8 "/toolset/{toolset_name}/mcp") (refuse WHY_MCP);
  regex_row GET (u8 "/prompts/{prompt_id}/info") (refuse WHY_ADMIN_OFF);
  regex_row GET (u8 "/v1/tool/{tool_name:path}") (refuse WHY_ADMIN_OFF);
  regex_row POST (u8 "/threads/{thread_id}/runs") (refuse WHY_PROVIDER);
  regex_row DELETE (u8 "/bedrock/{endpoint:path}") (refuse WHY_PROVIDER);
  regex_row DELETE (u8 "/mistral/{endpoint:path}") (refuse WHY_PROVIDER);
  regex_row DELETE (u8 "/watsonx/{endpoint:path}") (refuse WHY_PROVIDER);
  regex_row GET (u8 "/batches/{batch_id:path}") (refuse WHY_PROVIDER);
  regex_row GET (u8 "/bedrock/{endpoint:path}") (refuse WHY_PROVIDER);
  regex_row GET (u8 "/mistral/{endpoint:path}") (refuse WHY_PROVIDER);
  regex_row GET (u8 "/watsonx/{endpoint:path}") (refuse WHY_PROVIDER);
  regex_row PATCH (u8 "/bedrock/{endpoint:path}") (refuse WHY_PROVIDER);
  regex_row PATCH (u8 "/mistral/{endpoint:path}") (refuse WHY_PROVIDER);
  regex_row PATCH (u8 "/watsonx/{endpoint:path}") (refuse WHY_PROVIDER);
  regex_row POST (u8 "/bedrock/{endpoint:path}") (refuse WHY_PROVIDER);
  regex_row POST (u8 "/mistral/{endpoint:path}") (refuse WHY_PROVIDER);
  regex_row POST (u8 "/watsonx/{endpoint:path}") (refuse WHY_PROVIDER);
  regex_row PUT (u8 "/bedrock/{endpoint:path}") (refuse WHY_PROVIDER);
  regex_row PUT (u8 "/mistral/{endpoint:path}") (refuse WHY_PROVIDER);
  regex_row PUT (u8 "/watsonx/{endpoint:path}") (refuse WHY_PROVIDER);
  regex_row DELETE (u8 "/prompts/{prompt_id}") (refuse WHY_ADMIN_OFF);
  regex_row GET (u8 "/prompts/{prompt_id}") (refuse WHY_ADMIN_OFF);
  regex_row GET (u8 "/threads/{thread_id}") (refuse WHY_PROVIDER);
  regex_row PATCH (u8 "/prompts/{prompt_id}") (refuse WHY_ADMIN_OFF);
  regex_row PUT (u8 "/prompts/{prompt_id}") (refuse WHY_ADMIN_OFF);
  regex_row POST (u8 "/models/{model_name:path}:streamGenerateContent") (refuse WHY_NOT_REWRITTEN);
  regex_row POST (u8 "/models/{model_name:path}:generateContent") (refuse WHY_NOT_REWRITTEN);
  regex_row POST (u8 "/models/{model_name:path}:countTokens") (refuse WHY_COUNT);
  regex_row POST (u8 "/v1/a2a/{agent_id}/message/send") (refuse WHY_AGENT);
  regex_row GET (u8 "/videos/{video_id}/content") (refuse WHY_NOT_REWRITTEN);
  regex_row POST (u8 "/search/{search_tool_name}") (refuse WHY_SEARCH);
  regex_row POST (u8 "/videos/{video_id}/remix") (refuse WHY_NOT_REWRITTEN);
  regex_row DELETE (u8 "/cohere/{endpoint:path}") (refuse WHY_PROVIDER);
  regex_row DELETE (u8 "/cursor/{endpoint:path}") (refuse WHY_PROVIDER);
  regex_row DELETE (u8 "/gemini/{endpoint:path}") (refuse WHY_PROVIDER);
  regex_row DELETE (u8 "/milvus/{endpoint:path}") (refuse WHY_PROVIDER);
  regex_row DELETE (u8 "/openai/{endpoint:path}") (refuse WHY_PROVIDER);
  regex_row GET (u8 "/cohere/{endpoint:path}") (refuse WHY_PROVIDER);
  regex_row GET (u8 "/cursor/{endpoint:path}") (refuse WHY_PROVIDER);
  regex_row GET (u8 "/gemini/{endpoint:path}") (refuse WHY_PROVIDER);
  regex_row GET (u8 "/milvus/{endpoint:path}") (refuse WHY_PROVIDER);
  regex_row GET (u8 "/openai/{endpoint:path}") (refuse WHY_PROVIDER);
  regex_row PATCH (u8 "/cohere/{endpoint:path}") (refuse WHY_PROVIDER);
  regex_row PATCH (u8 "/cursor/{endpoint:path}") (refuse WHY_PROVIDER);
  regex_row PATCH (u8 "/gemini/{endpoint:path}") (refuse WHY_PROVIDER);
  regex_row PATCH (u8 "/milvus/{endpoint:path}") (refuse WHY_PROVIDER);
  regex_row PATCH (u8 "/openai/{endpoint:path}") (refuse WHY_PROVIDER);
  regex_row POST (u8 "/cohere/{endpoint:path}") (refuse WHY_PROVIDER);
  regex_row POST (u8 "/cursor/{endpoint:path}") (refuse WHY_PROVIDER);
  regex_row POST (u8 "/gemini/{endpoint:path}") (refuse WHY_PROVIDER);
  regex_row POST (u8 "/milvus/{endpoint:path}") (refuse WHY_PROVIDER);
  regex_row POST (u8 "/openai/{endpoint:path}") (refuse WHY_PROVIDER);
  regex_row PUT (u8 "/cohere/{endpoint:path}") (refuse WHY_PROVIDER);
  regex_row PUT (u8 "/cursor/{endpoint:path}") (refuse WHY_PROVIDER);
  regex_row PUT (u8 "/gemini/{endpoint:path}") (refuse WHY_PROVIDER);
  regex_row PUT (u8 "/milvus/{endpoint:path}") (refuse WHY_PROVIDER);
  regex_row PUT (u8 "/openai/{endpoint:path}") (refuse WHY_PROVIDER);
  regex_row GET (u8 "/models/{model_id}") (passthrough WHY_MODELS None);
  regex_row GET (u8 "/videos/{video_id}") (refuse WHY_NOT_REWRITTEN);
  regex_row GET (u8 "/files/{file_id:path}/content") (refuse WHY_PROVIDER_STORE);
  regex_row PATCH (u8 "/model/{model_id}/update") (refuse WHY_ADMIN_OFF);
  regex_row DELETE (u8 "/azure/{endpoint:path}") (refuse WHY_PROVIDER);
  regex_row GET (u8 "/azure/{endpoint:path}") (refuse WHY_PROVIDER);
  regex_row PATCH (u8 "/azure/{endpoint:path}") (refuse WHY_PROVIDER);
  regex_row POST (u8 "/azure/{endpoint:path}") (refuse WHY_PROVIDER);
  regex_row PUT (u8 "/azure/{endpoint:path}") (refuse WHY_PROVIDER);
  regex_row DELETE (u8 "/files/{file_id:path}") (refuse WHY_PROVIDER_STORE);
  regex_row GET (u8 "/files/{file_id:path}") (refuse WHY_PROVIDER_STORE);
  regex_row DELETE (u8 "/team/{team_id:path}/callback/{callback_name}") (refuse WHY_ADMIN_OFF);
  regex_row POST (u8 "/team/{team_id}/member/{user_id}/reset_spend") (refuse WHY_ADMIN_OFF);
  regex_row POST (u8 "/team/{team_id}/disable_logging") (refuse WHY_ADMIN_OFF);
  regex_row GET (u8 "/team/{team_id:path}/callback") (refuse WHY_ADMIN_OFF);
  regex_row POST (u8 "/team/{team_id:path}/callback") (refuse WHY_ADMIN_OFF);
  regex_row GET (u8 "/team/{team_id}/members/me") (refuse WHY_ADMIN_OFF);
  regex_row DELETE (u8 "/vllm/{endpoint:path}") (refuse WHY_PROVIDER);
  regex_row GET (u8 "/vllm/{endpoint:path}") (refuse WHY_PROVIDER);
  regex_row PATCH (u8 "/vllm/{endpoint:path}") (refuse WHY_PROVIDER);
  regex_row POST (u8 "/vllm/{endpoint:path}") (refuse WHY_PROVIDER);
  regex_row PUT (u8 "/vllm/{endpoint:path}") (refuse WHY_PROVIDER);
  regex_row PATCH (u8 "/team/{team_id}") (refuse WHY_ADMIN_OFF);
  regex_row GET (u8 "/a2a/{agent_id}/.well-known/agent-card.json") (refuse WHY_AGENT);
  regex_row GET (u8 "/a2a/{agent_id}/.well-known/agent.json") (refuse WHY_AGENT);
  regex_row POST (u8 "/a2a/{agent_id}/message/send") (refuse WHY_AGENT);
  regex_row POST (u8 "/key/{key:path}/reset_spend") (refuse WHY_ADMIN_OFF);
  regex_row POST (u8 "/key/{key:path}/regenerate") (refuse WHY_ADMIN_OFF);
  regex_row POST (u8 "/a2a/{agent_id}") (refuse WHY_AGENT);
  regex_row POST (u8 "/{provider}/v1/batches/{batch_id:path}/cancel") (refuse WHY_PROVIDER);
  regex_row GET (u8 "/{provider}/v1/files/{file_id:path}/content") (refuse WHY_PROVIDER);
  regex_row GET (u8 "/{provider}/v1/batches/{batch_id:path}") (refuse WHY_PROVIDER);
  regex_row DELETE (u8 "/{provider}/v1/files/{file_id:path}") (refuse WHY_PROVIDER);
  regex_row GET (u8 "/{provider}/v1/files/{file_id:path}") (refuse WHY_PROVIDER);
  regex_row GET (u8 "/{mcp_server_name}/authorize") (refuse WHY_MCP);
  regex_row POST (u8 "/{mcp_server_name}/register") (refuse WHY_MCP);
  regex_row POST (u8 "/{mcp_server_name}/token") (refuse WHY_MCP);
  regex_row DELETE (u8 "/{mcp_server_name}/mcp") (refuse WHY_MCP);
  regex_row GET (u8 "/{mcp_server_name}/mcp") (refuse WHY_MCP);
  regex_row GET (u8 "/{provider}/v1/batches") (refuse WHY_PROVIDER)].

Definition LITELLM_REGEX_TABLE_4 : list regex_entry := [
  regex_row OPTIONS (u8 "/{mcp_server_name}/mcp") (refuse WHY_MCP);
  regex_row PATCH (u8 "/{mcp_server_name}/mcp") (refuse WHY_MCP);
  regex_row POST (u8 "/{mcp_server_name}/mcp") (refuse WHY_MCP);
  regex_row POST (u8 "/{provider}/v1/batches") (refuse WHY_PROVIDER);
  regex_row PUT (u8 "/{mcp_server_name}/mcp") (refuse WHY_MCP);
  regex_row GET (u8 "/{provider}/v1/files") (refuse WHY_PROVIDER);
  regex_row POST (u8 "/{provider}/v1/files") (refuse WHY_PROVIDER)].

Definition LITELLM_REGEX_TABLE : list regex_entry :=
  LITELLM_REGEX_TABLE_1 ++ LITELLM_REGEX_TABLE_2 ++ LITELLM_REGEX_TABLE_3 ++ LITELLM_REGEX_TABLE_4.

Definition GATEWAY_ROUTE_TABLE : list route_row := [
  ((GET, u8 "/healthz/extensions"), passthrough (u8 "gateway-owned health check; no user text") None);
  ((GET, u8 "/healthz/live"), passthrough (u8 "gateway-owned liveness probe; Helm probes it") None);
  ((GET, u8 "/healthz/ready"), passthrough (u8 "gateway-owned readiness probe; Helm probes it") None);
  ((GET, u8 "/healthz/sanitization"), passthrough (u8 "gateway-owned health check; no user text") None);
  ((GET, u8 "/metrics"), passthrough (u8 "gateway-owned Prometheus exposition; no user text") None);
  ((POST, u8 "/internal/issue-token"), passthrough (u8 "gateway-owned issuance; terminates in the gateway, nothing forwarded") (Some (u8 "answered by the HealthRouter, never litellm; body refused, bearer header only; the only outbound call is the configured Keycloak JWKS fetch, carrying no request byte")))].

(** ** Lookup *)

(** [table.get((method, path))] of a table whose keys are distinct. *)
Definition table_get (t : list route_row) (k : route_key) : option Entry := dget k t.

Fixpoint regex_lookup (rows : list regex_entry) (verb path : str) : option Entry :=
  match rows with
  | [] => None
  | row :: rows' =>
    if (if str_eqb (rg_method row) verb then bool_decide (is_Some (re_match (rg_pattern row) path))
        else false)
    then Some (rg_entry row) else regex_lookup rows' verb path
  end.

Definition lookup_route (method path : str) : option Entry :=
  let verb := u_upper method in
  match table_get LITELLM_ROUTE_TABLE (verb, path) with
  | Some e => Some e
  | None =>
    match table_get GATEWAY_ROUTE_TABLE (verb, path) with
    | Some e => Some e
    | None => regex_lookup LITELLM_REGEX_TABLE verb path
    end
  end.

(** [_refused]: HEAD is judged by its GET verdict too. *)
Definition refused (method path : str) : bool :=
  existsb (fun verb => match lookup_route verb path with
                       | Some e => bool_decide (e_verdict e = REFUSE)
                       | None => false
                       end)
          (if str_eqb method HEAD then [method; GET] else [method]).

(** ** [parse_extras] *)

Inductive extras_raw := RawNone | RawText (s : str) | RawItems (l : list str).

(** The [ValueError]s, with the item's position. *)
Inductive extras_error :=
| ExtraMalformed (index : nat)
| ExtraUnknownMethod (index : nat)
| ExtraNoSlash (index : nat)
| ExtraBadPath (index : nat) (offending : list str)
| ExtraRefused (index : nat) (method path : str).

Definition extra_why (method path : str) : str :=
  u8 "operator extra: CORP_LLM_ROUTE_GATE_EXTRA_PASSTHROUGH lists " ++ method ++ u8 " " ++ path.

Definition parse_extra (index : nat) (item : str) (extras : list route_row)
  : result extras_error (list route_row) :=
  let text := strip item in
  if str_eqb text [] then Ok extras else
  match split_ws text with
  | [field; path] =>
    let method := u_upper field in
    if negb (memb method HTTP_METHODS) then Raise (ExtraUnknownMethod index) else
    if negb (starts_with path (u8 "/")) then Raise (ExtraNoSlash index) else
    let bad := List.filter (contains path) BAD_EXTRA_PATH_TOKENS in
    if negb (bool_decide (bad = [])) || existsb is_space path then Raise (ExtraBadPath index bad) else
    if refused method path then Raise (ExtraRefused index method path) else
    Ok (dset (method, path) (passthrough (extra_why method path) None) extras)
  | _ => Raise (ExtraMalformed index)
  end.

Fixpoint parse_items (index : nat) (items : list str) (extras : list route_row)
  : result extras_error (list route_row) :=
  match items with
  | [] => Ok extras
  | item :: items' => let! extras' := parse_extra index item extras in parse_items (S index) items' extras'
  end.

Definition parse_extras (raw : extras_raw) : result extras_error (list route_row) :=
  match raw with
  | RawNone => Ok []
  | RawText s => parse_items 1 (split_by (one_of (u8 "," ++ [10%N])) s) []
  | RawItems l => parse_items 1 l []
  end.
End Table.
