(* ===== verification/RouteGate.v ===== *)
(** * Route classification ([route_gate/classify.py])

    Scope dispatch and the verdict for a method and a path, over the tables of
    [RouteTable].  The theorems say the gate is default-deny, which spellings are
    rewritten, that operator extras open only unlisted routes, and that the
    tables themselves are well formed. *)

From S2P Require Import Prelude Text Regex RouteTable.
Local Open Scope py_scope.

(** [block_reason]s of [classify]. *)
Inductive block_reason :=
| ROUTE_GATE_UNLISTED
| ROUTE_GATE_LISTED
| ROUTE_GATE_WEBSOCKET
| ROUTE_GATE_MALFORMED
| ROUTE_GATE_UNARMED
| ROUTE_GATE_ERROR
| ROUTE_GATE_BODY_POLICIES
| ROUTE_GATE_BODY_NOT_JSON.

#[export] Instance block_reason_eq_dec : EqDecision block_reason.
Proof. solve_decision. Defined.

Record Decision := mkDecision {
  d_verdict : Verdict;
  d_block_reason : option block_reason;
  d_why : str;
}.

Definition ENCODED_MALFORMED : list (list N) := [u8 "%2f"; u8 "%00"; u8 "%2e%2e"].
Definition DECODED_MALFORMED : list str := [u8 ".."; u8 "//"; [0%N]].

Definition LIFESPAN : Decision :=
  mkDecision PASSTHROUGH None (u8 "lifespan scope; forwarded untouched").

Definition HEAD_NEVER_REWRITTEN : Entry :=
  refuse (u8 "HEAD carries no body to rewrite; a REWRITTEN verdict cannot apply to it").

Section Classify.
Context {U : Unicode}.

Definition wants_websocket (upgrade_header : option str) : bool :=
  match upgrade_header with
  | None | Some [] => false
  | Some h => contains (u_lower h) (u8 "websocket")
  end.

(** [raw_path] is the percent-encoded path, as bytes. *)
Definition malformed (path : str) (raw_path : option (list N)) : bool :=
  match raw_path with
  | None | Some [] => false
  | Some raw => existsb (contains (map ascii_lower1 raw)) ENCODED_MALFORMED ||
                existsb (fun byte => 127 <? byte)%N raw
  end || existsb (contains path) DECODED_MALFORMED.

Definition direct (method path : str) (extras : option (list route_row)) : option Entry :=
  match lookup_route method path with
  | Some e => Some e
  | None =>
    match extras with
    | None => None
    | Some ex =>
      match dget (method, path) ex with
      | Some extra => if bool_decide (e_verdict extra = PASSTHROUGH) then Some extra else None
      | None => None
      end
    end
  end.

Definition or_else {A} (a b : option A) : option A := match a with Some _ => a | None => b end.

Definition resolve (method path : str) (extras : option (list route_row)) : option Entry :=
  if negb (str_eqb method HEAD) then direct method path extras else
  let entry := or_else (lookup_route HEAD path) (lookup_route GET path) in
  let entry := match entry with
               | None => or_else (direct HEAD path extras) (direct GET path extras)
               | Some _ => entry
               end in
  match entry with
  | None => None
  | Some e => if bool_decide (e_verdict e = REWRITTEN) then Some HEAD_NEVER_REWRITTEN else Some e
  end.

Definition classify (method path : str) (raw_path : option (list N)) (scope_type : str)
  (upgrade_header : option str) (extras : option (list route_row)) : Decision :=
  if str_eqb scope_type (u8 "lifespan") then LIFESPAN else
  if str_eqb scope_type (u8 "websocket") || wants_websocket upgrade_header
  then mkDecision REFUSE (Some ROUTE_GATE_WEBSOCKET)
         (u8 "websocket frames never reach the hook, so nothing is rewritten") else
  if negb (str_eqb scope_type (u8 "http"))
  then mkDecision REFUSE (Some ROUTE_GATE_ERROR) (u8 "unsupported ASGI scope type") else
  if malformed path raw_path
  then mkDecision REFUSE (Some ROUTE_GATE_MALFORMED)
         (u8 "path is encoded or traversing; it cannot be matched against the table") else
  let verb := u_upper method in
  match resolve verb path extras with
  | None => mkDecision REFUSE (Some ROUTE_GATE_UNLISTED) (u8 "no table entry for this method and path")
  | Some e =>
    if bool_decide (e_verdict e = REFUSE)
    then mkDecision REFUSE (Some ROUTE_GATE_LISTED) (e_why e)
    else mkDecision (e_verdict e) None (e_why e)
  end.
End Classify.

(** ** The tables are well formed *)

Section TableFacts.
Context {U : Unicode}.

(** A path that a template describes: every parameter replaced by [x]. *)
Fixpoint sample_go (template : str) (ms : list mtch) (position : Z) : str :=
  match ms with
  | [] => slice template position (len template)
  | m :: ms' => slice template position (mt_start m) ++ u8 "x" ++ sample_go template ms' (mt_end m)
  end.

Definition sample (template : str) : str := sample_go template (finditer PARAMETER template) 0.

(** Length of the template before its first parameter. *)
Definition static_prefix (template : str) : Z :=
  match finditer PARAMETER template with m :: _ => mt_start m | [] => len template end.

(** The first row, by position, that matches. *)
Fixpoint regex_first (rows : list regex_entry) (verb path : str) (i : nat) : option nat :=
  match rows with
  | [] => None
  | row :: rows' =>
    if (if str_eqb (rg_method row) verb then bool_decide (is_Some (re_match (rg_pattern row) path))
        else false)
    then Some i else regex_first rows' verb path (S i)
  end.

Definition row_reachable (i : nat) (row : regex_entry) : bool :=
  match regex_first LITELLM_REGEX_TABLE (rg_method row) (sample (rg_template row)) 0 with
  | Some j => (j =? i)%nat
  | None => false
  end.

Definition exact_tables : list route_row := LITELLM_ROUTE_TABLE ++ GATEWAY_ROUTE_TABLE.

Definition all_entries : list Entry := map snd exact_tables ++ map rg_entry LITELLM_REGEX_TABLE.

Definition REWRITTEN_ROUTES : list route_key :=
  [(POST, u8 "/chat/completions"); (POST, u8 "/responses"); (POST, u8 "/responses/compact");
   (POST, u8 "/v1/chat/completions"); (POST, u8 "/v1/messages"); (POST, u8 "/v1/responses");
   (POST, u8 "/v1/responses/compact")].

(** *** Membership *)

Lemma regex_lookup_elem rows verb path e :
  regex_lookup rows verb path = Some e ->
  exists row, row ∈ rows /\ rg_method row = verb /\ is_Some (re_match (rg_pattern row) path) /\
              rg_entry row = e.
Proof.
  induction rows as [|row rows IH]; cbn; [done|].
  destruct (str_eqb (rg_method row) verb) eqn:Em.
  - apply str_eqb_eq in Em. case_bool_decide; [intros [= <-]|].
    + exists row. split_and!; [by left|done|done|done].
    + intros (r & ? & ?)%IH. exists r. split; [by right|done].
  - intros (r & ? & ?)%IH. exists r. split; [by right|done].
Qed.

Lemma lookup_route_elem method path e :
  lookup_route method path = Some e ->
  ((u_upper method, path), e) ∈ exact_tables \/
  exists row, row ∈ LITELLM_REGEX_TABLE /\ rg_method row = u_upper method /\
              is_Some (re_match (rg_pattern row) path) /\ rg_entry row = e.
Proof.
  unfold lookup_route, table_get, exact_tables. rewrite elem_of_app.
  destruct (dget _ LITELLM_ROUTE_TABLE) eqn:E1; [intros [= ->]; left; left; by apply dget_elem|].
  destruct (dget _ GATEWAY_ROUTE_TABLE) eqn:E2; [intros [= ->]; left; right; by apply dget_elem|].
  intros ?%regex_lookup_elem. by right.
Qed.

Lemma rewritten_lookup method path :
  (u_upper method, path) ∈ REWRITTEN_ROUTES ->
  exists e, lookup_route method path = Some e /\ e_verdict e = REWRITTEN.
Proof.
  unfold lookup_route. generalize (u_upper method, path). intros k Hk.
  assert (forallb (fun k => match table_get LITELLM_ROUTE_TABLE k with
            | Some e => bool_decide (e_verdict e = REWRITTEN) | None => false end)
            REWRITTEN_ROUTES = true) as H by (vm_compute; reflexivity).
  rewrite forallb_forall in H. apply list_elem_of_In, H in Hk.
  destruct (table_get LITELLM_ROUTE_TABLE k) as [e|]; [|done]. apply bool_decide_eq_true in Hk. eauto.
Qed.

#[local] Opaque lookup_route.

(** *** Rewritten rows *)

Definition is_rewritten (e : Entry) : bool := bool_decide (e_verdict e = REWRITTEN).

Definition ENGINES : str := u8 "/engines/".
Definition CHAT_COMPLETIONS : str := u8 "/chat/completions".

Lemma exact_rewritten :
  map fst (List.filter (fun r : route_row => is_rewritten r.2) exact_tables) = REWRITTEN_ROUTES.
Proof. vm_compute. reflexivity. Qed.

Definition engines_row : regex_entry :=
  regex_row POST (u8 "/engines/{model:path}/chat/completions") (rewritten WHY_CHAT).

Lemma regex_rewritten :
  List.filter (fun r => is_rewritten (rg_entry r)) LITELLM_REGEX_TABLE = [engines_row].
Proof. vm_compute. reflexivity. Qed.

Lemma engines_pattern :
  rg_pattern engines_row =
  anchored (seqs [lit ENGINES; plus dot; lit CHAT_COMPLETIONS]).
Proof. vm_compute. reflexivity. Qed.

Lemma re_match_anchored r text : re_match (anchored r) text = re_fullmatch r text.
Proof. done. Qed.

Lemma lang_lit s w : lang (lit s) w -> w = s.
Proof.
  revert w. induction s as [|c s IH]; intros w; cbn; [done|].
  intros (u & v & -> & (d & -> & Hd) & Hv). apply N.eqb_eq in Hd as <-. by rewrite (IH v Hv).
Qed.

Lemma engines_shape path :
  is_Some (re_match (rg_pattern engines_row) path) ->
  exists model, path = ENGINES ++ model ++ CHAT_COMPLETIONS /\ model <> [].
Proof.
  rewrite engines_pattern, re_match_anchored. intros [m H].
  apply re_fullmatch_ok in H as (Hok & H0 & H1). pose proof (mk_lang _ _ _ Hok) as L.
  rewrite H0, H1, slice_full in L. cbn [seqs lang] in L.
  destruct L as (u & v & -> & Hu & (model & t & -> & Hm & Ht)).
  apply lang_lit in Hu as ->, Ht as ->. exists model. split; [done|].
  destruct Hm as (n & _ & Hm). destruct n; cbn in Hm; destruct Hm as (a & b & -> & (c & -> & _) & _); done.
Qed.

Lemma filter_elem {A} (p : A -> bool) l x : x ∈ l -> p x = true -> x ∈ List.filter p l.
Proof. intros Hx Hp. by apply elem_of_lfilter. Qed.

Lemma map_filter_elem {A B} (f : A -> B) (p : A -> bool) l x :
  x ∈ l -> p x = true -> f x ∈ map f (List.filter p l).
Proof. intros Hx Hp. apply list_elem_of_In, in_map, list_elem_of_In. by apply filter_elem. Qed.

Lemma lookup_rewritten_shape method path e :
  lookup_route method path = Some e -> e_verdict e = REWRITTEN ->
  (u_upper method, path) ∈ REWRITTEN_ROUTES \/
  (u_upper method = POST /\ exists model, path = ENGINES ++ model ++ CHAT_COMPLETIONS /\ model <> []).
Proof.
  intros Hl He. assert (is_rewritten e = true) as Hr by (by apply bool_decide_eq_true).
  destruct (lookup_route_elem _ _ _ Hl) as [Hx|(row & Hrow & Hm & Hp & Ee)].
  - left. rewrite <- exact_rewritten.
    exact (map_filter_elem fst (fun r : route_row => is_rewritten r.2) exact_tables _ Hx Hr).
  - right. rewrite <- Ee in Hr.
    pose proof (filter_elem (fun r => is_rewritten (rg_entry r)) _ _ Hrow Hr) as Hf.
    rewrite regex_rewritten in Hf. apply list_elem_of_singleton in Hf. subst row.
    split; [symmetry; exact Hm|exact (engines_shape _ Hp)].
Qed.

(** *** Resolution *)

Lemma direct_cases method path extras e :
  direct method path extras = Some e ->
  lookup_route method path = Some e \/
  (lookup_route method path = None /\ e_verdict e = PASSTHROUGH /\
   exists ex, extras = Some ex /\ dget (method, path) ex = Some e).
Proof.
  unfold direct. destruct (lookup_route method path); [by left|].
  destruct extras as [ex|]; [|done]. destruct (dget _ ex) eqn:E; [|done].
  case_bool_decide; [|done]. intros [= ->]. right. eauto.
Qed.

Lemma resolve_rewritten method path extras e :
  resolve method path extras = Some e -> e_verdict e = REWRITTEN ->
  method <> HEAD /\ lookup_route method path = Some e.
Proof.
  unfold resolve. destruct (str_eqb method HEAD) eqn:E; cbn [negb].
  - intros H Hv. exfalso. destruct (match or_else _ _ with Some _ => _ | None => _ end); [|done].
    case_bool_decide; injection H as <-; [discriminate Hv|done].
  - apply str_eqb_neq in E. intros [H|(_ & H & _)]%direct_cases Hv; [done|congruence].
Qed.

Lemma classify_forwards method path raw scope up extras :
  d_verdict (classify method path raw scope up extras) <> REFUSE ->
  scope = u8 "lifespan" \/
  (scope = u8 "http" /\ wants_websocket up = false /\ malformed path raw = false /\
   exists e, resolve (u_upper method) path extras = Some e /\
             d_verdict (classify method path raw scope up extras) = e_verdict e).
Proof.
  unfold classify. destruct (str_eqb scope (u8 "lifespan")) eqn:E1; [left; by apply str_eqb_eq|].
  destruct (_ || wants_websocket up) eqn:E2; [done|]. apply orb_false_iff in E2 as [_ E2].
  destruct (str_eqb scope (u8 "http")) eqn:E3; [|done]. cbn [negb]. apply str_eqb_eq in E3.
  destruct (malformed path raw) eqn:E4; [done|].
  destruct (resolve (u_upper method) path extras) as [e|] eqn:E5; [|done].
  case_bool_decide; [done|]. intros _. right. split_and!; [done|done|done|]. by exists e.
Qed.

Lemma resolve_source method path extras e :
  resolve method path extras = Some e -> e_verdict e <> REFUSE ->
  exists verb, (verb = method \/ method = HEAD /\ verb = GET) /\
    (lookup_route verb path = Some e \/
     (lookup_route verb path = None /\ e_verdict e = PASSTHROUGH /\
      exists ex, extras = Some ex /\ dget (verb, path) ex = Some e)).
Proof.
  unfold resolve. destruct (str_eqb method HEAD) eqn:E; cbn [negb].
  - apply str_eqb_eq in E as ->. unfold or_else.
    destruct (lookup_route HEAD path) eqn:E1.
    { case_bool_decide; intros [= <-]; [intros []; reflexivity|]. intros _. exists HEAD.
      split; [left; reflexivity|left; exact E1]. }
    destruct (lookup_route GET path) eqn:E2.
    { case_bool_decide; intros [= <-]; [intros []; reflexivity|]. intros _. exists GET.
      split; [right; split; reflexivity|left; exact E2]. }
    destruct (direct HEAD path extras) eqn:E3.
    { case_bool_decide; intros [= <-]; [intros []; reflexivity|]. intros _. exists HEAD.
      split; [left; reflexivity|exact (direct_cases _ _ _ _ E3)]. }
    destruct (direct GET path extras) eqn:E4; [|discriminate 1].
    case_bool_decide; intros [= <-]; [intros []; reflexivity|]. intros _. exists GET.
    split; [right; split; reflexivity|exact (direct_cases _ _ _ _ E4)].
  - intros H%direct_cases _. exists method. split; [left; reflexivity|exact H].
Qed.

Lemma resolve_extras method path ex :
  resolve method path (Some ex) = resolve method path None \/
  (resolve method path None = None /\
   exists e, resolve method path (Some ex) = Some e /\ e_verdict e = PASSTHROUGH).
Proof.
  assert (forall verb, direct verb path (Some ex) = direct verb path None \/
            (direct verb path None = None /\ exists e, direct verb path (Some ex) = Some e /\
             e_verdict e = PASSTHROUGH)) as Hd.
  { intros verb. unfold direct. destruct (lookup_route verb path); [by left|].
    destruct (dget _ ex) as [e|]; [|by left]. case_bool_decide; [|by left]. right. eauto. }
  unfold resolve. destruct (str_eqb method HEAD); cbn [negb]; [|apply Hd].
  destruct (or_else (lookup_route HEAD path) (lookup_route GET path)) eqn:E0; [by left|].
  assert (direct GET path None = None) as Eg.
  { unfold direct. unfold or_else in E0. destruct (lookup_route HEAD path); [done|]. by rewrite E0. }
  unfold or_else. destruct (Hd HEAD) as [->|(-> & e & -> & He)].
  - destruct (direct HEAD path None); [by left|].
    destruct (Hd GET) as [->|(-> & e & -> & He)]; [by left|]. right. split; [done|].
    exists e. rewrite bool_decide_false by congruence. done.
  - rewrite Eg. right. split; [done|]. exists e. rewrite bool_decide_false by congruence. done.
Qed.

(** *** Extras *)

Lemma lstrip_by_keeps p c l : p c = false -> c ∈ l -> c ∈ lstrip_by p l.
Proof.
  intros Hc. induction l as [|d l IH]; cbn; [done|]. intros H. destruct (p d) eqn:E; [|done].
  apply IH. apply elem_of_cons in H as [->|H]; [congruence|done].
Qed.

Lemma strip_keeps c l : is_space c = false -> c ∈ l -> c ∈ strip l.
Proof.
  intros Hc Hl. unfold strip, rstrip, rstrip_by, lstrip. rewrite elem_of_rev_iff.
  apply lstrip_by_keeps; [done|]. rewrite elem_of_rev_iff. by apply lstrip_by_keeps.
Qed.

(** What every row of the extras satisfies. *)
Record extra_ok (r : route_row) : Prop := ExtraOk {
  eo_verdict : e_verdict r.2 = PASSTHROUGH;
  eo_entry : entry_post_init r.2 = true;
  eo_method : r.1.1 ∈ HTTP_METHODS;
  eo_slash : starts_with r.1.2 (u8 "/") = true;
  eo_matchable : malformed r.1.2 None = false;
  eo_refused : refused r.1.1 r.1.2 = false;
}.

Lemma extra_entry_ok method path : entry_post_init (passthrough (extra_why method path) None) = true.
Proof.
  unfold entry_post_init. cbn [e_why e_justification passthrough]. rewrite andb_true_r.
  apply negb_true_iff, str_eqb_neq. intros E.
  assert (111%N ∈ strip (extra_why method path)) as H by (apply strip_keeps; [done|by left]).
  rewrite E in H. set_solver.
Qed.

Lemma parse_extra_ok i item ex ex' :
  parse_extra i item ex = Ok ex' -> Forall extra_ok ex -> NoDup (dkeys ex) ->
  Forall extra_ok ex' /\ NoDup (dkeys ex').
Proof.
  unfold parse_extra. intros H Hf Hn. destruct (str_eqb (strip item) []); [by injection H as <-|].
  destruct (split_ws (strip item)) as [|field [|path [|? ?]]]; try done.
  destruct (memb (u_upper field) HTTP_METHODS) eqn:E1; [|done]. cbn [negb] in H.
  destruct (starts_with path (u8 "/")) eqn:E2; [|done]. cbn [negb] in H.
  destruct (_ || existsb is_space path) eqn:E3; [done|].
  destruct (refused (u_upper field) path) eqn:E4; [done|]. injection H as <-.
  split; [|by apply dset_NoDup]. apply dset_Forall; [|done]. apply orb_false_iff in E3 as [E3 _].
  apply negb_false_iff, bool_decide_eq_true in E3.
  split; cbn [fst snd]; [done|apply extra_entry_ok|by apply memb_true|done| |done].
  unfold malformed. cbn [orb]. apply not_true_iff_false. rewrite existsb_exists. intros (t & Ht & Hc).
  assert (In t (List.filter (contains path) BAD_EXTRA_PATH_TOKENS)) as Hin; [|by rewrite E3 in Hin].
  apply filter_In. split; [|done]. cbn in *. tauto.
Qed.

Lemma parse_items_ok i items ex ex' :
  parse_items i items ex = Ok ex' -> Forall extra_ok ex -> NoDup (dkeys ex) ->
  Forall extra_ok ex' /\ NoDup (dkeys ex').
Proof.
  revert i ex. induction items as [|item items IH]; intros i ex; cbn [parse_items].
  { by intros [= <-]. }
  intros (ex1 & H1 & H2)%rbind_ok Hf Hn. destruct (parse_extra_ok _ _ _ _ H1 Hf Hn). by eapply IH.
Qed.

(** ** The properties of the gate *)

(** C7: default-deny. A decision that does not refuse is the lifespan scope,
    or an HTTP request without a websocket upgrade whose path is not encoded or
    traversing, and whose verdict is written in a table row for the method (for
    HEAD, possibly the GET row) or, as PASSTHROUGH only, in an operator extra
    for a pair no table knows. *)
Theorem gate_default_deny method path raw scope up extras :
  let d := classify method path raw scope up extras in
  d_verdict d <> REFUSE ->
  scope = u8 "lifespan" \/
  (scope = u8 "http" /\ wants_websocket up = false /\ malformed path raw = false /\
   exists verb e, (verb = u_upper method \/ u_upper method = HEAD /\ verb = GET) /\
     e_verdict e = d_verdict d /\
     (lookup_route verb path = Some e \/
      (lookup_route verb path = None /\ e_verdict e = PASSTHROUGH /\
       exists ex, extras = Some ex /\ dget (verb, path) ex = Some e))).
Proof.
  cbn. intros H. pose proof H as [Hs|(Hs & Hw & Hm & e & Hr & He)]%classify_forwards; [by left|right].
  split_and!; [done|done|done|]. rewrite He in H |- *.
  destruct (resolve_source _ _ _ _ Hr H) as (verb & Hv & Hl). exists verb, e. auto.
Qed.

(** only the hook's spellings are rewritten, whatever the operator
    extras say: a REWRITTEN verdict is given for POST on one of the seven exact
    paths or on [/engines/<model>/chat/completions], and never for HEAD; and the
    seven exact paths do get it. *)
Theorem gate_rewritten_routes method path raw scope up extras :
  (d_verdict (classify method path raw scope up extras) = REWRITTEN ->
   u_upper method <> HEAD /\
   ((u_upper (u_upper method), path) ∈ REWRITTEN_ROUTES \/
    (u_upper (u_upper method) = POST /\
     exists model, path = ENGINES ++ model ++ CHAT_COMPLETIONS /\ model <> []))) /\
  (scope = u8 "http" -> wants_websocket up = false -> malformed path raw = false ->
   u_upper method <> HEAD -> (u_upper (u_upper method), path) ∈ REWRITTEN_ROUTES ->
   d_verdict (classify method path raw scope up extras) = REWRITTEN).
Proof.
  split.
  - intros H. assert (d_verdict (classify method path raw scope up extras) <> REFUSE) as Hn by congruence.
    apply classify_forwards in Hn as [->|(_ & _ & _ & e & Hr & He)]; [done|].
    rewrite He in H. destruct (resolve_rewritten _ _ _ _ Hr H) as [Hh Hl]. split; [done|].
    exact (lookup_rewritten_shape _ _ _ Hl H).
  - intros -> Hw Hm Hh Hin. unfold classify. rewrite Hw, Hm.
    change (str_eqb (u8 "http") (u8 "lifespan")) with false.
    change (str_eqb (u8 "http") (u8 "websocket")) with false.
    change (str_eqb (u8 "http") (u8 "http")) with true. cbn [orb negb].
    destruct (rewritten_lookup _ _ Hin) as (e & Hl & He).
    unfold resolve, direct. rewrite (proj2 (str_eqb_neq _ _) Hh). cbn [negb]. rewrite Hl.
    by rewrite bool_decide_false by congruence.
Qed.

(** operator extras only open unlisted routes. For any extras mapping the
    decision is the one without extras, or that one refused the pair as
    unlisted and the extra passes it through; no refusal of the tables, of a
    malformed path or of a websocket changes, and no rewrite appears or
    disappears. *)
Theorem extras_open_only_unlisted method path raw scope up ex :
  let d0 := classify method path raw scope up None in
  let d := classify method path raw scope up (Some ex) in
  d = d0 \/
  (d_verdict d0 = REFUSE /\ d_block_reason d0 = Some ROUTE_GATE_UNLISTED /\
   d_verdict d = PASSTHROUGH /\ d_block_reason d = None).
Proof.
  cbn zeta. unfold classify. destruct (str_eqb scope (u8 "lifespan")); [by left|].
  destruct (_ || wants_websocket up); [by left|]. destruct (negb _); [by left|].
  destruct (malformed path raw); [by left|].
  destruct (resolve_extras (u_upper method) path ex) as [->|(-> & e & -> & He)]; [by left|right].
  rewrite bool_decide_false by congruence. done.
Qed.

(** parsing the operator's extras never widens the gate by accident: an
    accepted value holds, per method and path, one PASSTHROUGH row with a
    non-empty reason, for a known method and a rooted path that the gate can
    match, which no table refuses (for HEAD, under GET either). *)
Theorem parse_extras_sound raw ex :
  parse_extras raw = Ok ex -> Forall extra_ok ex /\ NoDup (dkeys ex).
Proof.
  destruct raw as [|s|l]; cbn [parse_extras].
  - intros [= <-]. split; constructor.
  - intros H. apply (parse_items_ok _ _ _ _ H); constructor.
  - intros H. apply (parse_items_ok _ _ _ _ H); constructor.
Qed.

Definition descending (l : list Z) : bool :=
  match l with
  | [] => true
  | x :: l' => (fix go x l := match l with [] => true | y :: l' => (y <=? x) && go y l' end) x l'
  end.

(** the tables themselves. The exact tables list no pair twice, so the
    litellm and gateway tables are disjoint; every entry passes the checks of
    [Entry.__post_init__]; the regex rows are ordered longest static prefix
    first; and every regex row is reachable: it is the row that answers for its
    own template. *)
Theorem tables_well_formed :
  NoDup (map fst exact_tables) /\
  forallb entry_post_init all_entries = true /\
  descending (map (fun r => static_prefix (rg_template r)) LITELLM_REGEX_TABLE) = true /\
  forallb (fun ir => row_reachable ir.1 ir.2)
    (zip (seq 0 (length LITELLM_REGEX_TABLE)) LITELLM_REGEX_TABLE) = true.
Proof.
  split_and!; [|vm_compute; reflexivity|vm_compute; reflexivity|vm_compute; reflexivity].
  apply (bool_decide_eq_true_1 _). vm_compute. reflexivity.
Qed.
End TableFacts.

(** ** Witnesses *)

Lemma gate_default_deny_witness :
  exists e, lookup_route (U := ru_unicode) GET (u8 "/models/gpt-4") = Some e /\ e_verdict e = PASSTHROUGH.
Proof.
  destruct (gate_default_deny (U := ru_unicode) (u8 "get") (u8 "/models/gpt-4") None (u8 "http") None None)
    as [H|(_ & _ & _ & verb & e & Hv & He & Hl)]; [vm_compute; discriminate|discriminate|].
  destruct Hl as [Hl|(_ & _ & ex & H & _)]; [|discriminate].
  exists e. split; [|rewrite He; vm_compute; reflexivity].
  destruct Hv as [->|[H _]]; [exact Hl|vm_compute in H; discriminate].
Defined.

Lemma gate_rewritten_routes_witness :
  d_verdict (classify (U := ru_unicode) (u8 "post") (u8 "/v1/messages") None (u8 "http") None None) = REWRITTEN.
Proof.
  apply (gate_rewritten_routes (U := ru_unicode) (u8 "post") (u8 "/v1/messages") None (u8 "http") None None).
  - reflexivity.
  - reflexivity.
  - vm_compute. reflexivity.
  - vm_compute. discriminate.
  - apply memb_true. vm_compute. reflexivity.
Defined.

Lemma parse_extras_sound_witness :
  exists ex, parse_extras (U := ru_unicode) (RawText (u8 "GET /extra, head /probe")) = Ok ex /\
             Forall (extra_ok (U := ru_unicode)) ex /\ length ex = 2%nat.
Proof.
  eexists. split; [vm_compute; reflexivity|]. split; [|reflexivity].
  eapply (parse_extras_sound (U := ru_unicode) (RawText (u8 "GET /extra, head /probe"))).
  vm_compute. reflexivity.
Defined.
