(* ===== verification/ContentBlocks.v ===== *)
(** * The walker over message bodies ([sanitizer/content_blocks.py])

    A request body is a JSON tree of Anthropic content blocks, OpenAI messages
    with tool calls, or Responses items.  The walker finds the texts in it: one
    traversal sanitizes them ([sanitize_*]), one puts originals back
    ([desanitize_*]), and one lists them for the scans before and after
    ([collect_*]).  The three have to agree; the theorems say that they do. *)

From S2P Require Import Prelude Text Json.
Local Open Scope py_scope.

(** ** Steps that change a state and may raise *)

Definition step (St E A : Type) : Type := St -> result E (A * St).

Definition ret {St E A} (a : A) : step St E A := fun s => Ok (a, s).
Definition throw {St E A} (e : E) : step St E A := fun _ => Raise e.
Definition sbind {St E A B} (c : step St E A) (k : A -> step St E B) : step St E B :=
  fun s => rbind (c s) (fun p => k p.1 p.2).

Notation "'let*' x ':=' c 'in' k" := (sbind c (fun x => k))
  (at level 10, x pattern, k at level 200) : py_scope.

Lemma sbind_ok {St E A B} (c : step St E A) (k : A -> step St E B) s b s2 :
  sbind c k s = Ok (b, s2) <-> exists a s1, c s = Ok (a, s1) /\ k a s1 = Ok (b, s2).
Proof.
  unfold sbind. rewrite rbind_ok. split.
  - intros ([a s1] & H1 & H2). eauto.
  - intros (a & s1 & H1 & H2). by exists (a, s1).
Qed.

Lemma ret_bind {St E A B} (a : A) (k : A -> step St E B) : sbind (ret a) k = k a.
Proof. done. Qed.

(** [H : (let* x := c in k) s = Ok (b, s2)] becomes [E : c s = Ok (x, s1)] and
    [H : k s1 = Ok (b, s2)]. *)
Tactic Notation "step_ok" ident(H) "as" simple_intropattern(x) ident(s1) ident(E) :=
  apply sbind_ok in H as (x & s1 & E & H).

(** ** Errors *)

Inductive walk_error (E : Type) :=
| ContentTooDeepError
| UnsanitizableToolArgumentsError (ty : str)
| UnsanitizableContentBlockError (what : str)
| UnhashableType                  (* [TypeError] of [x in frozenset] for a list or dict *)
| FromSanitizeOne (e : E).
Arguments ContentTooDeepError {E}.
Arguments UnsanitizableToolArgumentsError {E} ty.
Arguments UnsanitizableContentBlockError {E} what.
Arguments UnhashableType {E}.
Arguments FromSanitizeOne {E} e.

(** [type(v).__name__] *)
Definition type_name (v : json) : str :=
  match v with
  | JNull => u8 "NoneType"
  | JBool _ => u8 "bool"
  | JInt _ => u8 "int"
  | JFloat _ => u8 "float"
  | JStr _ => u8 "str"
  | JList _ => u8 "list"
  | JObj _ => u8 "dict"
  end.

(** ** Registries *)

Definition MAX_JSON_DEPTH : Z := 64.
Definition JSON_OPAQUE_KEYS : list str := [u8 "encrypted_content"].
Definition BLOCK_FALLBACK_OPAQUE_KEYS : list str := JSON_OPAQUE_KEYS ++ [u8 "signature"].

Definition TEXT_BLOCK_FIELD : list (str * str) :=
  [(u8 "text", u8 "text"); (u8 "input_text", u8 "text"); (u8 "output_text", u8 "text");
   (u8 "reasoning_text", u8 "text"); (u8 "summary_text", u8 "text"); (u8 "refusal", u8 "refusal")].

Definition OPAQUE_BLOCK_TYPES : list str :=
  [u8 "image"; u8 "image_url"; u8 "thinking"; u8 "redacted_thinking"; u8 "container_upload";
   u8 "input_image"; u8 "input_file"; u8 "file"; u8 "input_audio"; u8 "output_audio"].

Definition TOOL_USE_BLOCK_TYPES : list str := [u8 "tool_use"; u8 "server_tool_use"; u8 "mcp_tool_use"].

Definition JSON_RESULT_BLOCK_TYPES : list str :=
  [u8 "web_search_tool_result"; u8 "code_execution_tool_result"; u8 "mcp_tool_result"].

Definition RESPONSES_TEXT_FIELDS : list str :=
  [u8 "arguments"; u8 "content"; u8 "delta"; u8 "input"; u8 "output"; u8 "reasoning"; u8 "refusal";
   u8 "summary"; u8 "text"; u8 "transcript"].
Definition RESPONSES_OPAQUE_FIELDS : list str := [u8 "encrypted_content"].
Definition RESPONSES_BLOCK_LIST_FIELDS : list str := [u8 "content"; u8 "summary"].
Definition RESPONSES_OPAQUE_ITEM_FIELDS : list (str * list str) :=
  [(u8 "computer_call_output", [u8 "output"]); (u8 "image_generation_call", [u8 "result"])].
Definition RESPONSES_STRUCTURAL_FIELDS : list str :=
  [u8 "type"; u8 "id"; u8 "call_id"; u8 "status"; u8 "role"; u8 "container_id"; u8 "name"; u8 "server_label"].
Definition OUTPUT_ITEM_TYPES : list str := [u8 "function_call_output"; u8 "custom_tool_call_output"].

(** ** Dictionaries of the body *)

Abbreviation jdict := (list (str * json)).

(** [d.get(k)] *)
Definition jget (k : str) (d : jdict) : json := default JNull (dget k d).

(** [k in d] *)
Definition dmem (k : str) (d : jdict) : bool := match dget k d with Some _ => true | None => false end.

(** [v == "name"] *)
Definition json_is (v : json) (name : str) : bool := match v with JStr s => str_eqb s name | _ => false end.

(** [v in frozenset(names)]; a list or dict is not hashable. *)
Definition type_in (v : json) (names : list str) : option bool :=
  match v with
  | JStr s => Some (memb s names)
  | JList _ | JObj _ => None
  | _ => Some false
  end.

Definition is_container (v : json) : bool := match v with JList _ | JObj _ => true | _ => false end.

(** [_TEXT_BLOCK_FIELD.get(block_type) if isinstance(block_type, str) else None],
    together with the text the block has there when it is a string. *)
Definition block_text_field (block : jdict) : option (str * str) :=
  match jget (u8 "type") block with
  | JStr t => match dget t TEXT_BLOCK_FIELD with
              | Some f => match dget f block with Some (JStr s) => Some (f, s) | _ => None end
              | None => None
              end
  | _ => None
  end.

(** The value of a field that is a string and not empty. *)
Definition nonempty_str (k : str) (block : jdict) : option str :=
  match jget k block with JStr (c :: t) => Some (c :: t) | _ => None end.

(** [f] at the value of a key, [z] when there is none. *)
Section dwith.
Context {B : Type} (f : json -> B) (z : B) (k : str).
Fixpoint dwith (d : jdict) : B :=
  match d with
  | [] => z
  | (k', v) :: d' => if decide (k = k') then f v else dwith d'
  end.
End dwith.

Lemma dwith_eq {B} (f : json -> B) z k d : dwith f z k d = match dget k d with Some v => f v | None => z end.
Proof. induction d as [|[k' v] d IH]; cbn [dwith dget]; [done|]. by case_decide. Qed.

Lemma dwith_jget {B} (f : json -> B) z k d : dmem k d = true -> dwith f z k d = f (jget k d).
Proof. rewrite dwith_eq. unfold dmem, jget. by destruct (dget k d). Qed.

Lemma dwith_null {B} (f : json -> B) z k d : f JNull = z -> dwith f z k d = f (jget k d).
Proof. intros H. rewrite dwith_eq. unfold jget. by destruct (dget k d). Qed.

Definition is_opaque_item_field (item_type : json) (field : str) : bool :=
  match item_type with
  | JStr t => memb field (default [] (dget t RESPONSES_OPAQUE_ITEM_FIELDS))
  | _ => false
  end.

(** The fields of a Responses item that are not scanned by the loop over fields. *)
Definition item_field_skipped (item_type : json) (field : str) : bool :=
  memb field RESPONSES_OPAQUE_FIELDS || memb field RESPONSES_STRUCTURAL_FIELDS ||
  memb field [u8 "tool_calls"; u8 "function_call"] || is_opaque_item_field item_type field.

(** ** Sanitizing *)

Section Sanitize.
Context {F : FloatText} {St E R : Type}.
Context (sanitize_one : str -> St -> result E (R * St)) (sanitized_text : R -> str).

Abbreviation M := (step St (walk_error E)).

Definition leaf (s : str) : M R :=
  fun st => match sanitize_one s st with Ok p => Ok p | Raise e => Raise (FromSanitizeOne e) end.

Definition sanitize_leaf (s : str) : M (json * list R) :=
  let* r := leaf s in ret (JStr (sanitized_text r), [r]).

(** [block_type in names] as a step *)
Definition check_type (v : json) (names : list str) : M bool :=
  match type_in v names with Some b => ret b | None => throw UnhashableType end.

Section walk.
Context (keep : str -> bool) (f : json -> M (json * list R)).

Fixpoint walk_list (l : list json) : M (list json * list R) :=
  match l with
  | [] => ret ([], [])
  | x :: l' =>
    let* x' := f x in
    let* rest := walk_list l' in
    ret (x'.1 :: rest.1, x'.2 ++ rest.2)
  end.

(** Entries whose key is to be kept are copied. *)
Fixpoint walk_dict (d : jdict) : M (jdict * list R) :=
  match d with
  | [] => ret ([], [])
  | (k, v) :: d' =>
    let* v' := if keep k then ret (v, []) else f v in
    let* rest := walk_dict d' in
    ret ((k, v'.1) :: rest.1, v'.2 ++ rest.2)
  end.
End walk.

Definition opaque_key (k : str) : bool := memb k JSON_OPAQUE_KEYS.

Fixpoint sanitize_json (v : json) (depth : Z) : M (json * list R) :=
  if MAX_JSON_DEPTH <? depth then throw ContentTooDeepError else
  match v with
  | JStr s => sanitize_leaf s
  | JObj d => let* w := walk_dict opaque_key (fun v => sanitize_json v (depth + 1)) d in ret (JObj w.1, w.2)
  | JList l => let* w := walk_list (fun v => sanitize_json v (depth + 1)) l in ret (JList w.1, w.2)
  | _ => ret (v, [])
  end.

Definition sanitize_arguments (arguments : str) : M (str * list R) :=
  match loads arguments with
  | None => let* r := leaf arguments in ret (sanitized_text r, [r])
  | Some parsed => let* w := sanitize_json parsed 0 in ret (dumps w.1, w.2)
  end.

Definition sanitize_tool_arguments (arguments : json) : M (json * list R) :=
  match arguments with
  | JStr s => let* w := sanitize_arguments s in ret (JStr w.1, w.2)
  | JList _ | JObj _ => sanitize_json arguments 0
  | JNull => ret (JNull, [])
  | _ => throw (UnsanitizableToolArgumentsError (type_name arguments))
  end.

(** [{**d, k: v}] for the value a step returns *)
Definition put_field (k : str) (d : jdict) (c : M (json * list R)) : M (jdict * list R) :=
  let* w := c in ret (dset k w.1 d, w.2).

Definition fallback_key (k : str) : bool := str_eqb k (u8 "type") || memb k BLOCK_FALLBACK_OPAQUE_KEYS.

(** [title] and [context] of a document or search result *)
Definition sanitize_title (k : str) (w : jdict * list R) : M (jdict * list R) :=
  match nonempty_str k w.1 with
  | Some t => let* w' := put_field k w.1 (sanitize_leaf t) in ret (w'.1, w.2 ++ w'.2)
  | None => ret w
  end.

Section block.
Context (sanitize_content : json -> M (json * list R)).

(** The [source] of a document: text, nested content, or left alone. *)
Definition sanitize_source (src : jdict) : M (jdict * list R) :=
  match json_is (jget (u8 "type") src) (u8 "text"), jget (u8 "data") src with
  | true, JStr s => put_field (u8 "data") src (sanitize_leaf s)
  | _, _ =>
    if json_is (jget (u8 "type") src) (u8 "content") && dmem (u8 "content") src
    then put_field (u8 "content") src (dwith sanitize_content (ret (JNull, [])) (u8 "content") src)
    else ret (src, [])
  end.

Definition sanitize_block_with (block : jdict) : M (jdict * list R) :=
  let block_type := jget (u8 "type") block in
  match block_text_field block with
  | Some (f, s) => put_field f block (sanitize_leaf s)
  | None =>
  if json_is block_type (u8 "tool_result") && dmem (u8 "content") block then
    put_field (u8 "content") block (dwith sanitize_content (ret (JNull, [])) (u8 "content") block) else
  let* tool_use := check_type block_type TOOL_USE_BLOCK_TYPES in
  if tool_use && dmem (u8 "input") block then
    put_field (u8 "input") block (sanitize_json (jget (u8 "input") block) 0) else
  let* json_result := check_type block_type JSON_RESULT_BLOCK_TYPES in
  if json_result && dmem (u8 "content") block then
    put_field (u8 "content") block (sanitize_json (jget (u8 "content") block) 0) else
  if json_is block_type (u8 "search_result") then
    let* w := sanitize_title (u8 "title") (block, []) in
    if dmem (u8 "content") block then
      let* w2 := put_field (u8 "content") w.1 (dwith sanitize_content (ret (JNull, [])) (u8 "content") block) in
      ret (w2.1, w.2 ++ w2.2)
    else ret w
  else if json_is block_type (u8 "document") then
    let* w := sanitize_title (u8 "title") (block, []) in
    let* w1 := sanitize_title (u8 "context") w in
    match dwith (fun src => match src with JObj sd => Some (sanitize_source sd) | _ => None end)
                None (u8 "source") block with
    | Some run_source => let* w2 := run_source in
                         ret (dset (u8 "source") (JObj w2.1) w1.1, w1.2 ++ w2.2)
    | None => ret w1
    end
  else
  let* opaque := check_type block_type OPAQUE_BLOCK_TYPES in
  if opaque : bool then ret (block, []) else
  walk_dict fallback_key (fun v => sanitize_json v 1) block
  end.
End block.

Fixpoint sanitize_content (content : json) : M (json * list R) :=
  match content with
  | JStr s => sanitize_leaf s
  | JList l =>
    let* w := walk_list (fun item => match item with
                                     | JObj b => let* w := sanitize_block_with sanitize_content b in ret (JObj w.1, w.2)
                                     | _ => ret (item, [])
                                     end) l in
    ret (JList w.1, w.2)
  | JObj b => let* w := sanitize_block_with sanitize_content b in ret (JObj w.1, w.2)
  | _ => ret (content, [])
  end.

Definition sanitize_block : jdict -> M (jdict * list R) := sanitize_block_with sanitize_content.

(** *** Tool calls and messages *)

(** [{**fn, "arguments": new_args}] when [fn] is a dict that has arguments. *)
Definition sanitize_fn (fn : json) : M (option (json * list R)) :=
  match fn with
  | JObj d => match dget (u8 "arguments") d with
              | Some args => let* w := sanitize_tool_arguments args in
                             ret (Some (JObj (dset (u8 "arguments") w.1 d), w.2))
              | None => ret None
              end
  | _ => ret None
  end.

(** One element of [tool_calls]. *)
Definition sanitize_call (call : json) : M (json * list R) :=
  match call with
  | JObj c => let* w := sanitize_fn (jget (u8 "function") c) in
              ret (match w with
                   | Some (fn, r) => (JObj (dset (u8 "function") fn c), r)
                   | None => (call, [])
                   end)
  | _ => ret (call, [])
  end.

Definition sanitize_message_tool_calls_field (message : jdict) : M (jdict * list R) :=
  let* w := match jget (u8 "tool_calls") message with
            | JList calls => let* c := walk_list sanitize_call calls in
                             ret (dset (u8 "tool_calls") (JList c.1) message, c.2)
            | _ => ret (message, [])
            end in
  let* fc := sanitize_fn (jget (u8 "function_call") message) in
  ret (match fc with
       | Some (fn, r) => (dset (u8 "function_call") fn w.1, w.2 ++ r)
       | None => w
       end).

Definition sanitize_tool_calls (message : jdict) : M (jdict * list R) :=
  let* w := sanitize_message_tool_calls_field message in
  let item_type := jget (u8 "type") message in
  if json_is item_type (u8 "function_call") && dmem (u8 "arguments") message then
    let* a := put_field (u8 "arguments") w.1 (sanitize_tool_arguments (jget (u8 "arguments") message)) in
    ret (a.1, w.2 ++ a.2)
  else
  let* output := check_type item_type OUTPUT_ITEM_TYPES in
  if output && dmem (u8 "output") message then
    let* o := put_field (u8 "output") w.1 (sanitize_json (jget (u8 "output") message) 0) in
    ret (o.1, w.2 ++ o.2)
  else ret w.

Definition sanitize_message (message : jdict) : M (jdict * list R) :=
  let* w := match jget (u8 "content") message with
            | JNull | JStr [] => ret (message, [])
            | content => put_field (u8 "content") message (sanitize_content content)
            end in
  let* t := sanitize_tool_calls w.1 in
  ret (t.1, w.2 ++ t.2).

(** *** Responses items *)

(** One field of an item; [None] is [continue]. *)
Definition sanitize_item_field (field : str) (value : json) : M (option (json * list R)) :=
  let some (c : M (json * list R)) : M (option (json * list R)) := let* w := c in ret (Some w) in
  if str_eqb field (u8 "arguments") then some (sanitize_tool_arguments value)
  else if memb field RESPONSES_BLOCK_LIST_FIELDS then some (sanitize_content value)
  else if str_eqb field (u8 "output") then some (sanitize_json value 0)
  else if memb field RESPONSES_TEXT_FIELDS then
    match value with
    | JStr s => some (sanitize_leaf s)
    | JList _ | JObj _ => some (sanitize_json value 0)
    | JNull => ret None
    | _ => throw (UnsanitizableContentBlockError (field ++ u8 ":" ++ type_name value))
    end
  else match value with
       | JStr s => some (sanitize_leaf s)
       | JList _ | JObj _ => some (sanitize_json value 0)
       | _ => ret None
       end.

(** The loop [for field, value in item.items()]: [w] is [new_item], [results]. *)
Fixpoint sanitize_item_fields (item_type : json) (fields : jdict) (w : jdict * list R) : M (jdict * list R) :=
  match fields with
  | [] => ret w
  | (field, value) :: fields' =>
    let* w' := if item_field_skipped item_type field then ret w else
               let* o := sanitize_item_field field value in
               ret (match o with
                    | Some (new_value, r) => (dset field new_value w.1, w.2 ++ r)
                    | None => w
                    end) in
    sanitize_item_fields item_type fields' w'
  end.

Definition sanitize_responses_item (item : jdict) : M (jdict * list R) :=
  let* w := sanitize_message_tool_calls_field item in
  sanitize_item_fields (jget (u8 "type") item) item w.
End Sanitize.

(** [message_has_tool_calls]; [None] is the [TypeError] of an unhashable type. *)
Definition message_has_tool_calls (message : jdict) : option bool :=
  match jget (u8 "tool_calls") message, jget (u8 "function_call") message with
  | JList _, _ => Some true
  | _, JObj _ => Some true
  | _, _ =>
    let item_type := jget (u8 "type") message in
    if json_is item_type (u8 "function_call") && dmem (u8 "arguments") message then Some true else
    match type_in item_type OUTPUT_ITEM_TYPES with
    | Some b => Some (b && dmem (u8 "output") message)
    | None => None
    end
  end.

(** ** Collecting: the read-only mirror *)

Section Collect.
Context {F : FloatText}.

Fixpoint collect_json_text (v : json) (depth : Z) : list str :=
  if MAX_JSON_DEPTH <? depth then [] else
  match v with
  | JStr s => [s]
  | JObj d => concat (map (fun e : str * json => if opaque_key e.1 then [] else collect_json_text e.2 (depth + 1)) d)
  | JList l => concat (map (fun v => collect_json_text v (depth + 1)) l)
  | _ => []
  end.

Definition collect_raw_text_leaves (v : json) : list str := collect_json_text v 0.

Definition collect_arguments_text (arguments : str) : list str :=
  match loads arguments with
  | None => [arguments]
  | Some parsed => collect_json_text parsed 0
  end.

Definition collect_tool_arguments_text (arguments : json) : list str :=
  match arguments with
  | JStr s => collect_arguments_text s
  | JList _ | JObj _ => collect_json_text arguments 0
  | _ => []
  end.

(** The texts of [fn["arguments"]] when [fn] is a dict that has them. *)
Definition collect_fn_text (fn : json) : list str :=
  match fn with
  | JObj d => match dget (u8 "arguments") d with
              | Some args => collect_tool_arguments_text args
              | None => []
              end
  | _ => []
  end.

Definition collect_call_text (call : json) : list str :=
  match call with JObj c => collect_fn_text (jget (u8 "function") c) | _ => [] end.

Definition collect_message_tool_calls_field_text (message : jdict) : list str :=
  match jget (u8 "tool_calls") message with
  | JList calls => concat (map collect_call_text calls)
  | _ => []
  end ++ collect_fn_text (jget (u8 "function_call") message).

Definition collect_tool_call_text (message : jdict) : option (list str) :=
  let out := collect_message_tool_calls_field_text message in
  let item_type := jget (u8 "type") message in
  if json_is item_type (u8 "function_call") && dmem (u8 "arguments") message then
    Some (out ++ collect_tool_arguments_text (jget (u8 "arguments") message)) else
  match type_in item_type OUTPUT_ITEM_TYPES with
  | Some b => Some (if b && dmem (u8 "output") message
                    then out ++ collect_json_text (jget (u8 "output") message) 0 else out)
  | None => None
  end.

Definition title_text (k : str) (block : jdict) : list str :=
  match nonempty_str k block with Some t => [t] | None => [] end.

Section block.
Context (collect_text : json -> option (list str)).

Definition collect_source_text (src : jdict) : option (list str) :=
  match json_is (jget (u8 "type") src) (u8 "text"), jget (u8 "data") src with
  | true, JStr s => Some [s]
  | _, _ =>
    if json_is (jget (u8 "type") src) (u8 "content") && dmem (u8 "content") src
    then dwith collect_text (Some []) (u8 "content") src
    else Some []
  end.

Definition collect_block_text_with (block : jdict) : option (list str) :=
  let block_type := jget (u8 "type") block in
  match block_text_field block with
  | Some (f, s) => Some [s]
  | None =>
  if json_is block_type (u8 "tool_result") && dmem (u8 "content") block then
    dwith collect_text (Some []) (u8 "content") block else
  match type_in block_type TOOL_USE_BLOCK_TYPES, type_in block_type JSON_RESULT_BLOCK_TYPES,
        type_in block_type OPAQUE_BLOCK_TYPES with
  | Some tool_use, Some json_result, Some opaque =>
    if tool_use && dmem (u8 "input") block then Some (collect_json_text (jget (u8 "input") block) 0)
    else if json_result && dmem (u8 "content") block then Some (collect_json_text (jget (u8 "content") block) 0)
    else if json_is block_type (u8 "search_result") then
      match (if dmem (u8 "content") block then dwith collect_text (Some []) (u8 "content") block else Some []) with
      | Some sub => Some (title_text (u8 "title") block ++ sub)
      | None => None
      end
    else if json_is block_type (u8 "document") then
      match dwith (fun src => match src with JObj sd => collect_source_text sd | _ => Some [] end)
                  (Some []) (u8 "source") block with
      | Some sub => Some (title_text (u8 "title") block ++ title_text (u8 "context") block ++ sub)
      | None => None
      end
    else if opaque then Some []
    else Some (concat (map (fun e : str * json =>
           if str_eqb e.1 (u8 "type") || opaque_key e.1 then [] else collect_json_text e.2 1) block))
  | _, _, _ => None
  end
  end.
End block.

Fixpoint collect_text (content : json) : option (list str) :=
  match content with
  | JStr s => Some [s]
  | JList l => collect (fun item => match item with
                                    | JObj b => collect_block_text_with collect_text b
                                    | _ => Some []
                                    end) l
  | JObj b => collect_block_text_with collect_text b
  | _ => Some []
  end.

Definition collect_block_text : jdict -> option (list str) := collect_block_text_with collect_text.

Definition collect_item_field_text (field : str) (value : json) : option (list str) :=
  if str_eqb field (u8 "arguments") then Some (collect_tool_arguments_text value)
  else if memb field RESPONSES_BLOCK_LIST_FIELDS then collect_text value
  else if str_eqb field (u8 "output") then Some (collect_json_text value 0)
  else if memb field RESPONSES_TEXT_FIELDS then
    Some (match value with
          | JStr s => [s]
          | JList _ | JObj _ => collect_json_text value 0
          | _ => []
          end)
  else Some (match value with
             | JStr s => [s]
             | JList _ | JObj _ => collect_json_text value 0
             | _ => []
             end).

Definition collect_responses_item_text (item : jdict) : option (list str) :=
  let item_type := jget (u8 "type") item in
  match collect (fun e : str * json => if item_field_skipped item_type e.1 then Some []
                                       else collect_item_field_text e.1 e.2) item with
  | Some out => Some (collect_message_tool_calls_field_text item ++ out)
  | None => None
  end.

(** [_item_text] of the pre-call hook: what the scans before and after see of
    one element of [messages] or [input]. *)
Inductive request_item := ItemText (t : str) | ItemDict (d : jdict).

Definition item_text (messages_shape : bool) (msg : request_item) : option (list str) :=
  match msg with
  | ItemText t => Some (match t with [] => [] | _ => [t] end)
  | ItemDict d =>
    if messages_shape then
      match collect_text (jget (u8 "content") d), collect_tool_call_text d with
      | Some a, Some b => Some (a ++ b)
      | _, _ => None
      end
    else collect_responses_item_text d
  end.
End Collect.

(** ** Desanitizing *)

Section Desanitize.
Context {F : FloatText} (reverse : str -> str).

Fixpoint desanitize_json (v : json) (depth : Z) : json :=
  if MAX_JSON_DEPTH <? depth then v else
  match v with
  | JStr s => JStr (reverse s)
  | JObj d => JObj (map (fun e : str * json =>
      (e.1, if opaque_key e.1 then e.2 else desanitize_json e.2 (depth + 1))) d)
  | JList l => JList (map (fun v => desanitize_json v (depth + 1)) l)
  | _ => v
  end.

Definition desanitize_arguments (arguments : str) : str :=
  match loads arguments with
  | None => reverse arguments
  | Some parsed => dumps (desanitize_json parsed 0)
  end.

Definition desanitize_tool_arguments (arguments : json) : json :=
  match arguments with
  | JStr s => JStr (desanitize_arguments s)
  | JList _ | JObj _ => desanitize_json arguments 0
  | _ => arguments
  end.

Definition desanitize_fn (fn : json) : option json :=
  match fn with
  | JObj d => match dget (u8 "arguments") d with
              | Some args => Some (JObj (dset (u8 "arguments") (desanitize_tool_arguments args) d))
              | None => None
              end
  | _ => None
  end.

Definition desanitize_call (call : json) : json :=
  match call with
  | JObj c => match desanitize_fn (jget (u8 "function") c) with
              | Some fn => JObj (dset (u8 "function") fn c)
              | None => call
              end
  | _ => call
  end.

Definition desanitize_tool_calls (message : jdict) : option jdict :=
  let m1 := match jget (u8 "tool_calls") message with
            | JList calls => dset (u8 "tool_calls") (JList (map desanitize_call calls)) message
            | _ => message
            end in
  let m2 := match desanitize_fn (jget (u8 "function_call") message) with
            | Some fn => dset (u8 "function_call") fn m1
            | None => m1
            end in
  let item_type := jget (u8 "type") message in
  if json_is item_type (u8 "function_call") && dmem (u8 "arguments") message then
    Some (dset (u8 "arguments") (desanitize_tool_arguments (jget (u8 "arguments") message)) m2) else
  match type_in item_type OUTPUT_ITEM_TYPES with
  | Some b => Some (if b && dmem (u8 "output") message
                    then dset (u8 "output") (desanitize_json (jget (u8 "output") message) 0) m2 else m2)
  | None => None
  end.

Definition desanitize_title (k : str) (block : jdict) : jdict :=
  match nonempty_str k block with Some t => dset k (JStr (reverse t)) block | None => block end.

Section block.
Context (desanitize_content : json -> option json).

(** [{**d, k: v}] for a value that may raise *)
Definition set_field (k : str) (d : jdict) (v : option json) : option jdict :=
  match v with Some w => Some (dset k w d) | None => None end.

Definition desanitize_source (src : jdict) : option jdict :=
  match json_is (jget (u8 "type") src) (u8 "text"), jget (u8 "data") src with
  | true, JStr s => Some (dset (u8 "data") (JStr (reverse s)) src)
  | _, _ =>
    if json_is (jget (u8 "type") src) (u8 "content") && dmem (u8 "content") src
    then set_field (u8 "content") src (dwith desanitize_content (Some JNull) (u8 "content") src)
    else Some src
  end.

Definition desanitize_block_with (block : jdict) : option jdict :=
  let block_type := jget (u8 "type") block in
  match block_text_field block with
  | Some (f, s) => Some (dset f (JStr (reverse s)) block)
  | None =>
  if json_is block_type (u8 "tool_result") && dmem (u8 "content") block then
    set_field (u8 "content") block (dwith desanitize_content (Some JNull) (u8 "content") block) else
  match type_in block_type TOOL_USE_BLOCK_TYPES, type_in block_type JSON_RESULT_BLOCK_TYPES,
        type_in block_type OPAQUE_BLOCK_TYPES with
  | Some tool_use, Some json_result, Some opaque =>
    if tool_use && dmem (u8 "input") block then
      Some (dset (u8 "input") (desanitize_json (jget (u8 "input") block) 0) block)
    else if json_result && dmem (u8 "content") block then
      Some (dset (u8 "content") (desanitize_json (jget (u8 "content") block) 0) block)
    else if json_is block_type (u8 "search_result") then
      let b1 := desanitize_title (u8 "title") block in
      if dmem (u8 "content") block
      then set_field (u8 "content") b1 (dwith desanitize_content (Some JNull) (u8 "content") block)
      else Some b1
    else if json_is block_type (u8 "document") then
      let b2 := desanitize_title (u8 "context") (desanitize_title (u8 "title") block) in
      dwith (fun src => match src with
                        | JObj sd => match desanitize_source sd with
                                     | Some sd' => Some (dset (u8 "source") (JObj sd') b2)
                                     | None => None
                                     end
                        | _ => Some b2
                        end) (Some b2) (u8 "source") block
    else if opaque then Some block
    else Some (map (fun e : str * json => (e.1, if fallback_key e.1 then e.2 else desanitize_json e.2 1)) block)
  | _, _, _ => None
  end
  end.
End block.

(** [[f(item) for item in l]] where [f] may raise *)
Section omap_list.
Context (f : json -> option json).
Fixpoint map_list (l : list json) : option (list json) :=
  match l with
  | [] => Some []
  | x :: l' => match f x, map_list l' with Some y, Some r => Some (y :: r) | _, _ => None end
  end.
End omap_list.

Fixpoint desanitize_content (content : json) : option json :=
  match content with
  | JStr s => Some (JStr (reverse s))
  | JList l =>
    match map_list (fun item => match item with
                                | JObj b => match desanitize_block_with desanitize_content b with
                                            | Some b' => Some (JObj b')
                                            | None => None
                                            end
                                | _ => Some item
                                end) l with
    | Some l' => Some (JList l')
    | None => None
    end
  | JObj b => match desanitize_block_with desanitize_content b with Some b' => Some (JObj b') | None => None end
  | _ => Some content
  end.

Definition desanitize_block : jdict -> option jdict := desanitize_block_with desanitize_content.

(** [_field] is [None] at the top. *)
Fixpoint desanitize_responses_payload (v : json) (field : option str) (depth : Z) : json :=
  if MAX_JSON_DEPTH <? depth then v else
  if match field with Some f => memb f RESPONSES_OPAQUE_FIELDS | None => false end then v else
  match v with
  | JStr s =>
    match field with
    | Some f => if str_eqb f (u8 "arguments") then JStr (desanitize_arguments s)
                else if memb f RESPONSES_TEXT_FIELDS then JStr (reverse s) else v
    | None => v
    end
  | JList l => JList (map (fun x => desanitize_responses_payload x field (depth + 1)) l)
  | JObj d => JObj (map (fun e : str * json => (e.1, desanitize_responses_payload e.2 (Some e.1) (depth + 1))) d)
  | _ => v
  end.
End Desanitize.

(** ** Theorems *)

(** *** The size of a tree, and keys that do not occur in it *)

Fixpoint json_size (v : json) : nat :=
  match v with
  | JList l => S (list_sum (map json_size l))
  | JObj d => S (list_sum (map (fun e => json_size e.2) d))
  | _ => 1
  end.

Lemma list_sum_elem {A} (f : A -> nat) x l : x ∈ l -> (f x <= list_sum (map f l))%nat.
Proof. induction 1 as [|x y l Hx IH]; cbn; [lia|]. change (foldr Nat.add 0%nat) with list_sum. lia. Qed.

Lemma dget_size k v d : dget k d = Some v -> (json_size v < json_size (JObj d))%nat.
Proof. intros H%dget_elem. apply (list_sum_elem (fun e => json_size e.2)) in H. cbn in *. lia. Qed.

Lemma elem_size v l : v ∈ l -> (json_size v < json_size (JList l))%nat.
Proof. intros H. apply (list_sum_elem json_size) in H. cbn in *. lia. Qed.

(** No dict of the tree has the key [k]. *)
Fixpoint key_free (k : str) (v : json) : bool :=
  match v with
  | JList l => forallb (key_free k) l
  | JObj d => forallb (fun e : str * json => negb (str_eqb e.1 k) && key_free k e.2) d
  | _ => true
  end.

Lemma key_free_dget k k' v d : key_free k (JObj d) = true -> dget k' d = Some v -> key_free k v = true.
Proof.
  cbn [key_free]. rewrite forallb_forall. intros H Hg%dget_elem.
  specialize (H _ (proj1 (list_elem_of_In _ _) Hg)). by apply andb_true_iff in H as [_ H].
Qed.

(** *** Which branch a block takes *)

Inductive block_kind :=
| KText (f s : str)          (* a text under the field [f] *)
| KContent                   (* nested content *)
| KTree (k : str)            (* a JSON tree under the key [k] *)
| KSearch
| KDocument
| KOpaque
| KFallback                  (* unknown: scanned as a tree *)
| KUnhashable.

Definition kind_of (block : jdict) : block_kind :=
  let block_type := jget (u8 "type") block in
  match block_text_field block with
  | Some (f, s) => KText f s
  | None =>
    if json_is block_type (u8 "tool_result") && dmem (u8 "content") block then KContent else
    match type_in block_type TOOL_USE_BLOCK_TYPES, type_in block_type JSON_RESULT_BLOCK_TYPES,
          type_in block_type OPAQUE_BLOCK_TYPES with
    | Some tool_use, Some json_result, Some opaque =>
      if tool_use && dmem (u8 "input") block then KTree (u8 "input")
      else if json_result && dmem (u8 "content") block then KTree (u8 "content")
      else if json_is block_type (u8 "search_result") then KSearch
      else if json_is block_type (u8 "document") then KDocument
      else if opaque then KOpaque else KFallback
    | _, _, _ => KUnhashable
    end
  end.

Lemma jget_dset k k' v d : jget k (dset k' v d) = if decide (k = k') then v else jget k d.
Proof. unfold jget. rewrite dget_dset. by case_decide. Qed.

Lemma dmem_dset k k' v d : dmem k' d = true -> dmem k (dset k' v d) = dmem k d.
Proof.
  unfold dmem. rewrite dget_dset. case_decide; [subst|done]. by destruct (dget k' d).
Qed.

Lemma dmem_jget k d : dmem k d = true -> dget k d = Some (jget k d).
Proof. unfold dmem, jget. by destruct (dget k d). Qed.

Lemma jget_dmem k v d : jget k d = v -> v <> JNull -> dget k d = Some v.
Proof. unfold jget. destruct (dget k d); cbn; congruence. Qed.

Lemma text_field_names t f : dget t TEXT_BLOCK_FIELD = Some f -> f = u8 "text" \/ f = u8 "refusal".
Proof. unfold TEXT_BLOCK_FIELD. cbn [dget]. repeat (case_decide; [intros [= <-]; auto|]). done. Qed.

(** The keys under which a text block keeps its text, and its type. *)
Definition HEAD_KEYS : list str := [u8 "type"; u8 "text"; u8 "refusal"].

Definition is_jstr (v : json) : bool := match v with JStr _ => true | _ => false end.
Definition is_jstr' (v : option json) : bool := match v with Some w => is_jstr w | None => false end.

Lemma block_text_field_same b b' :
  jget (u8 "type") b' = jget (u8 "type") b ->
  (forall f, f ∈ [u8 "text"; u8 "refusal"] -> is_jstr' (dget f b') = false /\ is_jstr' (dget f b) = false \/ dget f b' = dget f b) ->
  block_text_field b' = block_text_field b.
Proof.
  intros Ht Hf. unfold block_text_field. rewrite Ht. destruct (jget _ b) as [| | | |t| |]; try done.
  destruct (dget t TEXT_BLOCK_FIELD) as [f|] eqn:E; [|done].
  assert (f ∈ [u8 "text"; u8 "refusal"]) as Hin by (apply text_field_names in E as [->| ->]; set_solver).
  destruct (Hf f Hin) as [[H1 H2]| ->]; [|done].
  destruct (dget f b') as [[]|], (dget f b) as [[]|]; done.
Qed.

Lemma kind_of_same b b' :
  jget (u8 "type") b' = jget (u8 "type") b -> dmem (u8 "content") b' = dmem (u8 "content") b ->
  dmem (u8 "input") b' = dmem (u8 "input") b -> block_text_field b' = block_text_field b ->
  kind_of b' = kind_of b.
Proof. intros H1 H2 H3 H4. unfold kind_of. by rewrite H1, H2, H3, H4. Qed.

Lemma kind_of_dset k v b : k ∉ HEAD_KEYS -> dmem k b = true -> kind_of (dset k v b) = kind_of b.
Proof.
  intros Hk Hm. apply kind_of_same.
  - rewrite jget_dset, decide_False; [done|]. intros <-. apply Hk. by left.
  - by apply dmem_dset.
  - by apply dmem_dset.
  - apply block_text_field_same.
    + rewrite jget_dset, decide_False; [done|]. intros <-. apply Hk. by left.
    + intros f Hf. right. rewrite dget_dset, decide_False; [done|]. intros ->. apply Hk. by right.
Qed.

(** *** What a traversal does: the calls it makes

    [run_all ts] passes the texts [ts] to [sanitize_one] one after the other. *)

Section Theorems.
Context {F : FloatText} {St E R : Type}.
Context (sanitize_one : str -> St -> result E (R * St)) (sanitized_text : R -> str).

Abbreviation M := (step St (walk_error E)).

Fixpoint run_all (ts : list str) : M (list R) :=
  match ts with
  | [] => ret []
  | t :: ts' => let* r := leaf sanitize_one t in let* rs := run_all ts' in ret (r :: rs)
  end.

(** [reverse] undoes what was done to each of the texts. *)
Definition inverts (reverse : str -> str) (ts : list str) (rs : list R) : Prop :=
  reverse [] = [] /\ Forall2 (fun t r => reverse (sanitized_text r) = t) ts rs.

(** A traversal from [s] to [s'] with results [rs]: it passed some texts to
    [sanitize_one]; when [free], these are the texts seen before, and all
    texts seen afterwards are outputs; and the way back is open. *)
Definition traversed (free : Prop) (seen seen' : option (list str)) (back : (str -> str) -> Prop)
  (s : St) (rs : list R) (s' : St) : Prop :=
  exists calls, run_all calls s = Ok (rs, s') /\
  (free -> seen = Some calls /\ exists l, seen' = Some l /\ l ⊆ map sanitized_text rs) /\
  (forall reverse, inverts reverse calls rs -> back reverse).

Lemma run_all_app ts us s rs s1 rs2 s2 :
  run_all ts s = Ok (rs, s1) -> run_all us s1 = Ok (rs2, s2) -> run_all (ts ++ us) s = Ok (rs ++ rs2, s2).
Proof.
  revert s rs. induction ts as [|t ts IH]; intros s rs; cbn [run_all app].
  - intros [= <- <-] H. done.
  - intros H H2. step_ok H as r s0 Er. step_ok H as rs0 s3 E0. injection H as <- <-.
    apply sbind_ok. exists r, s0. split; [done|]. apply sbind_ok. exists (rs0 ++ rs2), s2. split; [by apply IH|done].
Qed.

Lemma run_all_length ts s rs s' : run_all ts s = Ok (rs, s') -> length ts = length rs.
Proof.
  revert s rs. induction ts as [|t ts IH]; intros s rs; cbn [run_all].
  - by intros [= <- <-].
  - intros H. step_ok H as r s0 Er. step_ok H as rs0 s3 E0. injection H as <- <-. cbn. f_equal. by eapply IH.
Qed.

Lemma inverts_app reverse ts us rs rs2 :
  length ts = length rs -> inverts reverse (ts ++ us) (rs ++ rs2) -> inverts reverse ts rs /\ inverts reverse us rs2.
Proof. intros Hl [H0 H]. apply Forall2_app_inv in H as [H1 H2]; [|done]. done. Qed.

Lemma traversed_nil (free : Prop) seen' (back : (str -> str) -> Prop) s :
  (free -> seen' = Some []) -> (forall reverse, back reverse) -> traversed free (Some []) seen' back s [] s.
Proof.
  intros Hs Hb. exists []. split_and!; [done| |auto]. intros Hf. split; [done|].
  exists []. split; [auto|set_solver].
Qed.

Lemma traversed_leaf t s r s' seen' (back : (str -> str) -> Prop) :
  leaf sanitize_one t s = Ok (r, s') -> (exists l, seen' = Some l /\ l ⊆ [sanitized_text r]) ->
  (forall reverse, reverse [] = [] -> reverse (sanitized_text r) = t -> back reverse) ->
  traversed True (Some [t]) seen' back s [r] s'.
Proof.
  intros Hl Hs Hb. exists [t]. split_and!.
  - cbn [run_all]. apply sbind_ok. exists r, s'. split; [done|]. done.
  - done.
  - intros reverse [H0 H]. inversion H; subst. by apply Hb.
Qed.

(** [xs + ys] where either may have raised *)
Definition oapp (a b : option (list str)) : option (list str) :=
  match a, b with Some x, Some y => Some (x ++ y) | _, _ => None end.

Lemma traversed_app (f1 f2 : Prop) a1 a1' a2 a2' (b1 b2 : (str -> str) -> Prop) s r1 s1 r2 s2 :
  traversed f1 a1 a1' b1 s r1 s1 -> traversed f2 a2 a2' b2 s1 r2 s2 ->
  traversed (f1 /\ f2) (oapp a1 a2) (oapp a1' a2') (fun reverse => b1 reverse /\ b2 reverse) s (r1 ++ r2) s2.
Proof.
  intros (c1 & R1 & F1 & B1) (c2 & R2 & F2 & B2). exists (c1 ++ c2). split_and!.
  - by eapply run_all_app.
  - intros [H1 H2]. destruct (F1 H1) as (-> & l1 & -> & L1). destruct (F2 H2) as (-> & l2 & -> & L2).
    split; [done|]. exists (l1 ++ l2). split; [done|]. rewrite map_app. set_solver.
  - intros reverse H. apply inverts_app in H as [H1 H2]; [auto|by eapply run_all_length].
Qed.

Lemma traversed_impl (f g : Prop) a b a' b' (p q : (str -> str) -> Prop) s rs s' :
  traversed f a a' p s rs s' -> (g -> f) -> (g -> b = a) -> (g -> b' = a') ->
  (forall reverse, reverse [] = [] -> p reverse -> q reverse) -> traversed g b b' q s rs s'.
Proof.
  intros (c & Hr & Hf & Hb) Hg Ha Ha' Hpq. exists c. split_and!; [done| |].
  - intros H. rewrite Ha, Ha' by done. auto.
  - intros reverse Hi. apply Hpq; [apply Hi|auto].
Qed.

(** *** Loops *)

Section loops.
Context (f : json -> M (json * list R)).
Context (free : json -> Prop) (C : json -> option (list str)) (D : (str -> str) -> json -> option json).

(** What the body of the loop does to one value. *)
Definition body_ok (v : json) : Prop := forall s v' r s', f v s = Ok ((v', r), s') ->
  traversed (free v) (C v) (C v') (fun reverse => D reverse v' = Some v) s r s'.

Lemma walk_list_traversed l :
  Forall body_ok l -> forall s l' r s', walk_list f l s = Ok ((l', r), s') ->
  traversed (Forall free l) (collect C l) (collect C l') (fun reverse => map_list (D reverse) l' = Some l) s r s'.
Proof.
  induction 1 as [|x l Hx Hl IH]; intros s l' r s'; cbn [walk_list].
  - intros [= <- <- <-]. by apply traversed_nil.
  - intros H. step_ok H as [x' rx] s1 Ex. step_ok H as [l2 r2] s2 El. injection H as <- <- <-.
    eapply traversed_impl; [apply (traversed_app _ _ _ _ _ _ _ _ _ _ _ _ _ (Hx _ _ _ _ Ex) (IH _ _ _ _ El))|..].
    + by intros [H1 H2]%Forall_cons.
    + done.
    + done.
    + cbn [fst snd map_list]. by intros reverse _ [-> ->].
Qed.
End loops.

(** The loop over a dict whose body is the walk over a JSON tree: [keep] are the
    keys it copies, [keepc] those the collecting loop leaves out. *)
Section dict_loop.
Context (keep keepc : str -> bool) (f : json -> M (json * list R)).
Context (C : json -> list str) (D : (str -> str) -> json -> json).

Definition tree_ok (v : json) : Prop := forall s v' r s', f v s = Ok ((v', r), s') ->
  traversed True (Some (C v)) (Some (C v')) (fun reverse => D reverse v' = v) s r s' /\ is_jstr v' = is_jstr v.

Definition collect_dict (d : jdict) : list str :=
  concat (map (fun e : str * json => if keepc e.1 then [] else C e.2) d).

Definition desanitize_dict (reverse : str -> str) (d : jdict) : jdict :=
  map (fun e : str * json => (e.1, if keep e.1 then e.2 else D reverse e.2)) d.

Lemma walk_dict_traversed d :
  Forall (fun e : str * json => tree_ok e.2) d -> forall s d' r s', walk_dict keep f d s = Ok ((d', r), s') ->
  traversed (Forall (fun e : str * json => keep e.1 = keepc e.1) d) (Some (collect_dict d)) (Some (collect_dict d'))
    (fun reverse => desanitize_dict reverse d' = d) s r s'.
Proof.
  induction 1 as [|[k v] d Hx Hl IH]; intros s d' r s'; cbn [walk_dict].
  - intros [= <- <- <-]. by apply traversed_nil.
  - intros H. step_ok H as [v' rx] s1 Ex. step_ok H as [l2 r2] s2 El. injection H as <- <- <-.
    assert (traversed (keep k = keepc k) (Some (if keepc k then [] else C v)) (Some (if keepc k then [] else C v'))
              (fun reverse => (if keep k then v' else D reverse v') = v) s rx s1) as H1.
    { destruct (keep k) eqn:Hk.
      - injection Ex as <- <- <-. exists []. split_and!; [done| |done]. intros <-.
        split; [done|]. exists []. split; [done|set_solver].
      - destruct (Hx _ _ _ _ Ex) as [Ht _]. eapply traversed_impl; [exact Ht|done|intros <-; done|intros <-; done|done]. }
    eapply traversed_impl; [apply (traversed_app _ _ _ _ _ _ _ _ _ _ _ _ _ H1 (IH _ _ _ _ El))|..].
    + by intros [H2 H3]%Forall_cons.
    + done.
    + done.
    + intros reverse _ [Ha Hb]. unfold desanitize_dict in *. cbn [map fst snd]. by rewrite Ha, Hb.
Qed.

(** Keys, kept values and the kind of the others survive the loop. *)
Lemma walk_dict_get d :
  Forall (fun e : str * json => tree_ok e.2) d -> forall s d' r s' k, walk_dict keep f d s = Ok ((d', r), s') ->
  match dget k d with
  | None => dget k d' = None
  | Some v => exists v', dget k d' = Some v' /\ (keep k = true -> v' = v) /\ is_jstr v' = is_jstr v
  end.
Proof.
  induction 1 as [|[k0 v0] d Hx Hl IH]; intros s d' r s' k; cbn [walk_dict dget].
  - by intros [= <- <- <-].
  - intros H. step_ok H as [v' rx] s1 Ex. step_ok H as [l2 r2] s2 El. injection H as <- <- <-. cbn [fst snd dget].
    case_decide as Hk; [subst k0|by eapply IH]. exists v'. split; [done|].
    destruct (keep k); [by injection Ex as <- <- <-|]. destruct (Hx _ _ _ _ Ex) as [_ Hs]. done.
Qed.
End dict_loop.

(** *** The walk over a JSON tree *)

Abbreviation sanitize_json := (ContentBlocks.sanitize_json sanitize_one sanitized_text).

Lemma sanitize_json_tree v : forall depth,
  tree_ok (fun v => sanitize_json v depth) (fun v => collect_json_text v depth)
    (fun reverse v => desanitize_json reverse v depth) v.
Proof.
  assert (forall depth v s v' r s', ret (E := walk_error E) (v, []) s = Ok ((v', r), s') ->
    (forall reverse, collect_json_text v depth = [] /\ desanitize_json reverse v depth = v) ->
    traversed True (Some (collect_json_text v depth)) (Some (collect_json_text v' depth))
      (fun reverse => desanitize_json reverse v' depth = v) s r s' /\ is_jstr v' = is_jstr v) as Hnil.
  { clear v. intros depth v s v' r s' [= <- <- <-] Hv. split; [|done]. destruct (Hv id) as [-> _].
    apply traversed_nil; [done|]. intros reverse. apply Hv. }
  induction v as [|b|z|t|t|l IH|d IH] using json_tree_ind; intros depth s v' r s' H;
    cbn [ContentBlocks.sanitize_json] in H; destruct (MAX_JSON_DEPTH <? depth) eqn:Hd; try done.
  - apply Hnil; [done|]. intros reverse. cbn. by rewrite Hd.
  - apply Hnil; [done|]. intros reverse. cbn. by rewrite Hd.
  - apply Hnil; [done|]. intros reverse. cbn. by rewrite Hd.
  - apply Hnil; [done|]. intros reverse. cbn. by rewrite Hd.
  - unfold sanitize_leaf in H. step_ok H as r0 s1 Er. injection H as <- <- <-. split; [|done].
    cbn [collect_json_text desanitize_json]. rewrite Hd. eapply traversed_leaf; [done|eauto|]. by intros reverse _ ->.
  - step_ok H as [l' r'] s1 El. injection H as <- <- <-. split; [|done].
    cbn [collect_json_text desanitize_json]. rewrite Hd.
    pose proof (walk_list_traversed (fun v => sanitize_json v (depth + 1)) (fun _ => True) (fun v => Some (collect_json_text v (depth + 1)))
                  (fun reverse v => Some (desanitize_json reverse v (depth + 1))) l) as Hw.
    eapply traversed_impl; [eapply Hw; [|exact El]|..].
    + eapply Forall_impl; [exact IH|]. intros x Hx s0 x' rx s2 Ex. destruct (Hx (depth + 1) _ _ _ _ Ex) as [Ht _].
      eapply traversed_impl; [exact Ht|done|done|done|]. by intros reverse _ ->.
    + intros _. apply Forall_true. done.
    + intros _. clear. induction l as [|x l IH]; [done|]. cbn [map concat collect]. by rewrite <- IH.
    + intros _. clear. cbn [fst]. induction l' as [|x l IH]; [done|]. cbn [map concat collect]. by rewrite <- IH.
    + cbn [fst]. intros reverse _ Hb. f_equal. revert Hb. clear. revert l. induction l' as [|x l' IH]; intros l; cbn [map_list map].
      * by intros [= <-].
      * destruct (map_list _ l') eqn:E; [|done]. intros [= <-]. by rewrite (IH _ eq_refl).
  - step_ok H as [d' r'] s1 Ed. injection H as <- <- <-. split; [|done].
    cbn [collect_json_text desanitize_json]. rewrite Hd.
    pose proof (walk_dict_traversed opaque_key opaque_key (fun v => sanitize_json v (depth + 1)) (fun v => collect_json_text v (depth + 1))
                  (fun reverse v => desanitize_json reverse v (depth + 1)) d) as Hw.
    eapply traversed_impl; [eapply Hw; [|exact Ed]|..].
    + eapply Forall_impl; [exact IH|]. intros e He. apply He.
    + intros _. by apply Forall_true.
    + done.
    + done.
    + intros reverse _ Hb. f_equal. exact Hb.
Qed.

(** *** Titles *)

Definition set_title (k : str) (upd : option str) (d : jdict) : jdict :=
  match upd with Some t => dset k (JStr t) d | None => d end.

Lemma nonempty_str_dset k k' v d : k <> k' -> nonempty_str k (dset k' v d) = nonempty_str k d.
Proof. intros H. unfold nonempty_str. by rewrite jget_dset, decide_False. Qed.

Lemma nonempty_str_get k d t : nonempty_str k d = Some t -> dget k d = Some (JStr t) /\ t <> [].
Proof.
  unfold nonempty_str, jget. destruct (dget k d) as [[| | | |[|c u]| |]|]; cbn; try done. by intros [= <-].
Qed.

Lemma title_text_dset k k' v d : k <> k' -> title_text k (dset k' v d) = title_text k d.
Proof. intros H. unfold title_text. by rewrite nonempty_str_dset. Qed.

Lemma desanitize_title_dset reverse k k' v d :
  k <> k' -> desanitize_title reverse k (dset k' v d) = dset k' v (desanitize_title reverse k d).
Proof.
  intros H. unfold desanitize_title. rewrite nonempty_str_dset by done.
  destruct (nonempty_str k d) as [t|] eqn:Et; [|done]. apply nonempty_str_get in Et as [Et _].
  apply dset_comm; congruence.
Qed.

Lemma title_text_set_title k k' upd d : k <> k' -> title_text k (set_title k' upd d) = title_text k d.
Proof. intros H. destruct upd; [by apply title_text_dset|done]. Qed.

Lemma desanitize_title_set_title reverse k k' upd d :
  k <> k' -> desanitize_title reverse k (set_title k' upd d) = set_title k' upd (desanitize_title reverse k d).
Proof. intros H. destruct upd; [by apply desanitize_title_dset|done]. Qed.

Lemma sanitize_title_traversed k x rs0 s y rs1 s' :
  sanitize_title sanitize_one sanitized_text k (x, rs0) s = Ok ((y, rs1), s') ->
  exists upd r, rs1 = rs0 ++ r /\ y = set_title k upd x /\ (upd <> None -> dmem k x = true) /\
  traversed True (Some (title_text k x)) (Some (title_text k y))
    (fun reverse => forall z, dget k z = dget k x -> desanitize_title reverse k (set_title k upd z) = z) s r s'.
Proof.
  unfold sanitize_title, title_text, desanitize_title. cbn [fst snd].
  destruct (nonempty_str k x) as [t|] eqn:Et; intros H.
  - unfold put_field in H. step_ok H as [w rw] s1 Ew. injection H as <- <- <-.
    step_ok Ew as [v rv] s2 Ev. injection Ew as <- <- <-. unfold sanitize_leaf in Ev. step_ok Ev as r0 s3 El.
    injection Ev as <- <- <-. pose proof (nonempty_str_get _ _ _ Et) as [Hk Hne].
    exists (Some (sanitized_text r0)), [r0]. split_and!; [done|done|unfold dmem; by rewrite Hk|].
    apply traversed_leaf; [done| |].
    + unfold nonempty_str. cbn [fst]. rewrite jget_dset, decide_True by done.
      destruct (sanitized_text r0) as [|c u]; eexists; (split; [reflexivity|set_solver]).
    + intros reverse H0 Hr z Hz. unfold nonempty_str. cbn [set_title]. rewrite jget_dset, decide_True by done.
      destruct (sanitized_text r0) as [|c u]; [congruence|].
      rewrite dset_dset, dset_id; [done|]. by rewrite Hz, Hk, <- Hr.
  - injection H as <- <- <-. exists None, []. rewrite app_nil_r, Et. split_and!; [done|done|done|].
    apply traversed_nil; [done|]. intros reverse z Hz. cbn [set_title].
    unfold nonempty_str, jget in *. by rewrite Hz, Et.
Qed.

(** *** Blocks *)

Abbreviation sanitize_content := (ContentBlocks.sanitize_content sanitize_one sanitized_text).

Definition SIGNATURE : str := u8 "signature".

Definition content_ok (c : json) : Prop :=
  body_ok sanitize_content (fun c => key_free SIGNATURE c = true) collect_text desanitize_content c.

Definition block_ok (b : jdict) : Prop := forall s b' r s',
  sanitize_block sanitize_one sanitized_text b s = Ok ((b', r), s') ->
  traversed (key_free SIGNATURE (JObj b) = true) (collect_block_text b) (collect_block_text b')
    (fun reverse => desanitize_block reverse b' = Some b) s r s'.

Lemma sanitize_block_kind b :
  sanitize_block sanitize_one sanitized_text b =
  match kind_of b with
  | KText f t => put_field f b (sanitize_leaf sanitize_one sanitized_text t)
  | KContent => put_field (u8 "content") b (sanitize_content (jget (u8 "content") b))
  | KTree k => put_field k b (sanitize_json (jget k b) 0)
  | KSearch =>
    let* w := sanitize_title sanitize_one sanitized_text (u8 "title") (b, []) in
    if dmem (u8 "content") b then
      let* w2 := put_field (u8 "content") w.1 (sanitize_content (jget (u8 "content") b)) in
      ret (w2.1, w.2 ++ w2.2)
    else ret w
  | KDocument =>
    let* w := sanitize_title sanitize_one sanitized_text (u8 "title") (b, []) in
    let* w1 := sanitize_title sanitize_one sanitized_text (u8 "context") w in
    match jget (u8 "source") b with
    | JObj sd => let* w2 := sanitize_source sanitize_one sanitized_text sanitize_content sd in
                 ret (dset (u8 "source") (JObj w2.1) w1.1, w1.2 ++ w2.2)
    | _ => ret w1
    end
  | KOpaque => ret (b, [])
  | KFallback => walk_dict fallback_key (fun v => sanitize_json v 1) b
  | KUnhashable => throw UnhashableType
  end.
Proof.
  unfold sanitize_block, sanitize_block_with, kind_of, check_type.
  destruct (block_text_field b) as [[f t]|]; [done|].
  destruct (json_is _ (u8 "tool_result") && dmem (u8 "content") b) eqn:H1.
  { apply andb_true_iff in H1 as [_ H1]. by rewrite (dwith_jget _ _ _ _ H1). }
  destruct (jget (u8 "type") b) as [| | | |t| |]; cbn [type_in json_is]; try done.
  rewrite (dwith_null _ _ (u8 "source")) by done. rewrite !ret_bind.
  do 2 (case_match; [done|]). case_match.
  { destruct (dmem (u8 "content") b) eqn:Hc; [|done]. by rewrite (dwith_jget _ _ _ _ Hc). }
  case_match; [by destruct (jget (u8 "source") b)|by case_match].
Qed.

Lemma collect_block_kind b :
  collect_block_text b =
  match kind_of b with
  | KText f t => Some [t]
  | KContent => collect_text (jget (u8 "content") b)
  | KTree k => Some (collect_json_text (jget k b) 0)
  | KSearch => oapp (Some (title_text (u8 "title") b))
                    (if dmem (u8 "content") b then collect_text (jget (u8 "content") b) else Some [])
  | KDocument => oapp (oapp (Some (title_text (u8 "title") b)) (Some (title_text (u8 "context") b)))
                      (match jget (u8 "source") b with JObj sd => collect_source_text collect_text sd | _ => Some [] end)
  | KOpaque => Some []
  | KFallback => Some (collect_dict (fun k => str_eqb k (u8 "type") || opaque_key k) (fun v => collect_json_text v 1) b)
  | KUnhashable => None
  end.
Proof.
  unfold collect_block_text, collect_block_text_with, kind_of, oapp.
  destruct (block_text_field b) as [[f t]|]; [done|].
  destruct (json_is _ (u8 "tool_result") && dmem (u8 "content") b) eqn:H1.
  { apply andb_true_iff in H1 as [_ H1]. by rewrite (dwith_jget _ _ _ _ H1). }
  destruct (jget (u8 "type") b) as [| | | |t| |]; cbn [type_in json_is]; try done.
  rewrite (dwith_null _ _ (u8 "source")) by done.
  do 2 (case_match; [done|]). case_match.
  { destruct (dmem (u8 "content") b) eqn:Hc; [|done]. by rewrite (dwith_jget _ _ _ _ Hc). }
  case_match; [|by case_match]. destruct (jget (u8 "source") b); rewrite <- ?app_assoc; try done.
  by case_match; rewrite <- ?app_assoc.
Qed.

Lemma desanitize_block_kind reverse b :
  desanitize_block reverse b =
  match kind_of b with
  | KText f t => Some (dset f (JStr (reverse t)) b)
  | KContent => set_field (u8 "content") b (desanitize_content reverse (jget (u8 "content") b))
  | KTree k => Some (dset k (desanitize_json reverse (jget k b) 0) b)
  | KSearch =>
    let b1 := desanitize_title reverse (u8 "title") b in
    if dmem (u8 "content") b then set_field (u8 "content") b1 (desanitize_content reverse (jget (u8 "content") b)) else Some b1
  | KDocument =>
    let b2 := desanitize_title reverse (u8 "context") (desanitize_title reverse (u8 "title") b) in
    match jget (u8 "source") b with
    | JObj sd => match desanitize_source reverse (desanitize_content reverse) sd with
                 | Some sd' => Some (dset (u8 "source") (JObj sd') b2)
                 | None => None
                 end
    | _ => Some b2
    end
  | KOpaque => Some b
  | KFallback => Some (desanitize_dict fallback_key (fun reverse v => desanitize_json reverse v 1) reverse b)
  | KUnhashable => None
  end.
Proof.
  unfold desanitize_block, desanitize_block_with, kind_of.
  destruct (block_text_field b) as [[f t]|]; [done|].
  destruct (json_is _ (u8 "tool_result") && dmem (u8 "content") b) eqn:H1.
  { apply andb_true_iff in H1 as [_ H1]. by rewrite (dwith_jget _ _ _ _ H1). }
  destruct (jget (u8 "type") b) as [| | | |t| |]; cbn [type_in json_is]; try done.
  rewrite (dwith_null _ _ (u8 "source")) by done.
  do 2 (case_match; [done|]). case_match.
  { destruct (dmem (u8 "content") b) eqn:Hc; [|done]. by rewrite (dwith_jget _ _ _ _ Hc). }
  case_match; [done|by case_match].
Qed.

Lemma put_field_ok k (d : jdict) (c : M (json * list R)) s d' r s' :
  put_field k d c s = Ok ((d', r), s') -> exists v', c s = Ok ((v', r), s') /\ d' = dset k v' d.
Proof. unfold put_field. intros H. step_ok H as [v' r'] s1 Ec. injection H as <- <- <-. eauto. Qed.

Lemma sanitize_leaf_ok t s v' r s' :
  sanitize_leaf sanitize_one sanitized_text t s = Ok ((v', r), s') ->
  exists r0, leaf sanitize_one t s = Ok (r0, s') /\ v' = JStr (sanitized_text r0) /\ r = [r0].
Proof. unfold sanitize_leaf. intros H. step_ok H as r0 s1 Er. injection H as <- <- <-. eauto. Qed.

Lemma jget_other k k' v d : k <> k' -> jget k (dset k' v d) = jget k d.
Proof. intros H. by rewrite jget_dset, decide_False. Qed.

Lemma jget_self k v d : jget k (dset k v d) = v.
Proof. by rewrite jget_dset, decide_True. Qed.

(** Putting the old value back. *)
Lemma dset_back k v d : dmem k d = true -> dset k (jget k d) (dset k v d) = d.
Proof. intros H. rewrite dset_dset. apply dset_id. by apply dmem_jget. Qed.

Lemma source_traversed sd :
  (forall c, (json_size c < json_size (JObj sd))%nat -> content_ok c) ->
  forall s sd' r s', sanitize_source sanitize_one sanitized_text sanitize_content sd s = Ok ((sd', r), s') ->
  traversed (key_free SIGNATURE (JObj sd) = true) (collect_source_text collect_text sd) (collect_source_text collect_text sd')
    (fun reverse => desanitize_source reverse (desanitize_content reverse) sd' = Some sd) s r s'.
Proof.
  intros Hc s sd' r s'. unfold sanitize_source, collect_source_text, desanitize_source.
  destruct (json_is (jget (u8 "type") sd) (u8 "text")) eqn:Ht.
  - destruct (jget (u8 "type") sd) as [| | | |ty| |] eqn:Ety; try done. cbn [json_is] in *. apply str_eqb_eq in Ht as ->.
    destruct (jget (u8 "data") sd) as [| | | |t| |] eqn:Ed;
      try (cbn; intros [= <- <- <-]; rewrite ?Ety, ?Ed; by apply traversed_nil).
    intros H. apply put_field_ok in H as (v' & H & ->). apply sanitize_leaf_ok in H as (r0 & El & -> & ->).
    rewrite jget_other, Ety, jget_self by done. cbn [json_is]. rewrite (proj2 (str_eqb_eq _ _) eq_refl).
    eapply traversed_impl; [apply (traversed_leaf _ _ _ _ (Some [sanitized_text r0]) (fun reverse => reverse (sanitized_text r0) = t) El)|done..|].
    + eauto.
    + by intros.
    + intros reverse _ ->. rewrite <- Ed, dset_back; [done|]. unfold dmem. by rewrite (jget_dmem _ _ _ Ed).
  - destruct (json_is _ (u8 "content") && dmem (u8 "content") sd) eqn:Hk.
    + apply andb_true_iff in Hk as [Hk Hm]. rewrite !(dwith_jget _ _ _ _ Hm). intros H.
      apply put_field_ok in H as (v' & H & ->).
      rewrite (jget_other (u8 "type")), Ht, Hk, dmem_dset, Hm by done. cbn [andb].
      rewrite (dwith_jget collect_text) by (by rewrite dmem_dset). rewrite jget_self.
      pose proof (dmem_jget _ _ Hm) as Hg. pose proof (Hc _ (dget_size _ _ _ Hg) _ _ _ _ H) as Hv.
      eapply traversed_impl; [exact Hv| |done|done|].
      * intros Hf. by eapply key_free_dget.
      * intros reverse _ Hb. rewrite (dwith_jget (desanitize_content reverse)) by (by rewrite dmem_dset).
        rewrite jget_self, Hb. cbn [set_field]. by rewrite dset_back.
    + intros [= <- <- <-]. rewrite Ht, Hk. by apply traversed_nil.
Qed.

Lemma block_text_field_some b f t :
  block_text_field b = Some (f, t) -> f <> (u8 "type") /\ dget f b = Some (JStr t) /\
  forall t', block_text_field (dset f (JStr t') b) = Some (f, t').
Proof.
  unfold block_text_field. destruct (jget (u8 "type") b) as [| | | |ty| |] eqn:Ety; try done.
  destruct (dget ty TEXT_BLOCK_FIELD) as [f'|] eqn:Ef; [|done].
  destruct (dget f' b) as [[]|] eqn:Eb; try done. intros [= <- <-].
  assert (f' <> (u8 "type")) as Hne by (apply text_field_names in Ef as [->| ->]; done).
  split_and!; [done|done|]. intros t'. by rewrite jget_other, Ety, Ef, dget_dset_eq by done.
Qed.

Lemma block_text_field_none b b' :
  jget (u8 "type") b' = jget (u8 "type") b -> (forall k, is_jstr' (dget k b') = is_jstr' (dget k b)) ->
  block_text_field b = None -> block_text_field b' = None.
Proof.
  unfold block_text_field. intros -> Hk. destruct (jget _ b) as [| | | |ty| |]; try done.
  destruct (dget ty TEXT_BLOCK_FIELD) as [f|]; [|done]. specialize (Hk f).
  destruct (dget f b) as [[]|], (dget f b') as [[]|]; done.
Qed.

Lemma kind_of_set_title k upd d :
  k ∉ HEAD_KEYS -> (upd <> None -> dmem k d = true) -> kind_of (set_title k upd d) = kind_of d.
Proof. intros Hk Hu. destruct upd; [|done]. apply kind_of_dset; [done|]. by apply Hu. Qed.

Lemma dmem_set_title k k' upd d : (upd <> None -> dmem k' d = true) -> dmem k (set_title k' upd d) = dmem k d.
Proof. intros Hu. destruct upd; [|done]. apply dmem_dset. by apply Hu. Qed.

Lemma kind_content d : kind_of d = KContent -> dmem (u8 "content") d = true.
Proof.
  unfold kind_of. destruct (block_text_field d) as [[? ?]|]; [done|].
  destruct (_ && _) eqn:H; [by apply andb_true_iff in H as [_ H]|]. by repeat case_match.
Qed.

Lemma kind_tree d k : kind_of d = KTree k -> k ∉ HEAD_KEYS /\ dmem k d = true.
Proof.
  unfold kind_of. destruct (block_text_field d) as [[? ?]|]; [done|]. destruct (_ && _); [done|].
  destruct (jget (u8 "type") d) as [| | | |t| |]; cbn [type_in]; try done; try (by repeat case_match).
  destruct (_ && dmem (u8 "input") d) eqn:H1.
  { apply andb_true_iff in H1 as [_ H1]. intros [= <-]. split; [set_solver by done|done]. }
  destruct (_ && dmem (u8 "content") d) eqn:H2.
  { apply andb_true_iff in H2 as [_ H2]. intros [= <-]. split; [set_solver by done|done]. }
  by repeat case_match.
Qed.

Lemma kind_fallback d : kind_of d = KFallback -> block_text_field d = None.
Proof. unfold kind_of. by destruct (block_text_field d) as [[? ?]|]. Qed.

Section one_block.
Context (b : jdict) (Hc : forall c, (json_size c < json_size (JObj b))%nat -> content_ok c).
Context (s s' : St) (b' : jdict) (r : list R).

Abbreviation spec := (traversed (key_free SIGNATURE (JObj b) = true) (collect_block_text b) (collect_block_text b')
  (fun reverse => desanitize_block reverse b' = Some b) s r s').

Lemma text_traversed f t :
  kind_of b = KText f t -> put_field f b (sanitize_leaf sanitize_one sanitized_text t) s = Ok ((b', r), s') -> spec.
Proof using.
  intros Hk H. apply put_field_ok in H as (v' & H & ->). apply sanitize_leaf_ok in H as (r0 & El & -> & ->).
  assert (block_text_field b = Some (f, t)) as Ef.
  { unfold kind_of in Hk. destruct (block_text_field b) as [[? ?]|]; [congruence|]. by repeat case_match. }
  apply block_text_field_some in Ef as (_ & Hg & Ef).
  assert (kind_of (dset f (JStr (sanitized_text r0)) b) = KText f (sanitized_text r0)) as Hk'
    by (unfold kind_of; by rewrite Ef).
  eapply traversed_impl; [apply (traversed_leaf _ _ _ _ (Some [sanitized_text r0]) (fun reverse => reverse (sanitized_text r0) = t) El)|..]; eauto.
  - intros _. by rewrite collect_block_kind, Hk.
  - intros _. by rewrite collect_block_kind, Hk'.
  - intros reverse _ Hr. rewrite desanitize_block_kind, Hk', Hr, dset_dset, dset_id; done.
Qed.

Lemma content_traversed :
  kind_of b = KContent -> dmem (u8 "content") b = true ->
  put_field (u8 "content") b (sanitize_content (jget (u8 "content") b)) s = Ok ((b', r), s') -> spec.
Proof using Hc.
  intros Hk Hm H. apply put_field_ok in H as (v' & H & ->).
  assert (kind_of (dset (u8 "content") v' b) = KContent) as Hk' by (rewrite kind_of_dset; [done|set_solver by done|done]).
  pose proof (dmem_jget _ _ Hm) as Hg.
  eapply traversed_impl; [exact (Hc _ (dget_size _ _ _ Hg) _ _ _ _ H)|..].
  - intros Hf. by eapply key_free_dget.
  - intros _. by rewrite collect_block_kind, Hk.
  - intros _. by rewrite collect_block_kind, Hk', jget_self.
  - intros reverse _ Hr. rewrite desanitize_block_kind, Hk', jget_self, Hr. cbn [set_field]. by rewrite dset_back.
Qed.

Lemma tree_traversed k :
  kind_of b = KTree k -> k ∉ HEAD_KEYS -> dmem k b = true ->
  put_field k b (sanitize_json (jget k b) 0) s = Ok ((b', r), s') -> spec.
Proof using.
  intros Hk Hh Hm H. apply put_field_ok in H as (v' & H & ->).
  assert (kind_of (dset k v' b) = KTree k) as Hk' by (by rewrite kind_of_dset).
  destruct (sanitize_json_tree _ _ _ _ _ _ H) as [Ht _].
  eapply traversed_impl; [exact Ht|done|..].
  - intros _. by rewrite collect_block_kind, Hk.
  - intros _. by rewrite collect_block_kind, Hk', jget_self.
  - intros reverse _ Hr. rewrite desanitize_block_kind, Hk', jget_self, Hr. by rewrite dset_back.
Qed.

Lemma fallback_traversed :
  kind_of b = KFallback -> block_text_field b = None ->
  walk_dict fallback_key (fun v => sanitize_json v 1) b s = Ok ((b', r), s') -> spec.
Proof using.
  intros Hk Hbt H.
  assert (Forall (fun e : str * json => tree_ok (fun v => sanitize_json v 1) (fun v => collect_json_text v 1)
                    (fun reverse v => desanitize_json reverse v 1) e.2) b) as Hall.
  { apply Forall_forall. intros e _. apply sanitize_json_tree. }
  pose proof (fun k => walk_dict_get _ _ _ _ _ Hall _ _ _ _ k H) as Hget.
  assert (jget (u8 "type") b' = jget (u8 "type") b) as Hty.
  { unfold jget. specialize (Hget (u8 "type")). destruct (dget (u8 "type") b); [|by rewrite Hget].
    destruct Hget as (v' & -> & Hv & _). by rewrite Hv. }
  assert (forall k, dmem k b' = dmem k b) as Hm.
  { intros k. unfold dmem. specialize (Hget k). destruct (dget k b); [by destruct Hget as (v' & -> & _)|by rewrite Hget]. }
  assert (kind_of b' = KFallback) as Hk'.
  { rewrite <- Hk. apply kind_of_same; [done..|]. rewrite Hbt. eapply block_text_field_none; [done| |done].
    intros k. specialize (Hget k). destruct (dget k b); [by destruct Hget as (v' & -> & _ & Hs)|by rewrite Hget]. }
  eapply traversed_impl; [eapply (walk_dict_traversed _ (fun k => str_eqb k (u8 "type") || opaque_key k)); [exact Hall|exact H]|..].
  - cbn [key_free]. intros Hf. apply Forall_forall. intros e He. rewrite forallb_forall in Hf.
    specialize (Hf e (proj1 (list_elem_of_In _ _) He)). apply andb_true_iff in Hf as [Hf _].
    apply negb_true_iff, str_eqb_neq in Hf. unfold fallback_key, opaque_key, BLOCK_FALLBACK_OPAQUE_KEYS.
    f_equal. unfold memb. apply bool_decide_ext. rewrite elem_of_app. split; [|by left].
    intros [?|Hs%list_elem_of_singleton]; [done|]. done.
  - intros _. by rewrite collect_block_kind, Hk.
  - intros _. by rewrite collect_block_kind, Hk'.
  - intros reverse _ Hr. rewrite desanitize_block_kind, Hk'. by rewrite Hr.
Qed.

Lemma search_traversed :
  kind_of b = KSearch ->
  (let* w := sanitize_title sanitize_one sanitized_text (u8 "title") (b, []) in
   if dmem (u8 "content") b then
     let* w2 := put_field (u8 "content") w.1 (sanitize_content (jget (u8 "content") b)) in
     ret (w2.1, w.2 ++ w2.2)
   else ret w) s = Ok ((b', r), s') -> spec.
Proof using Hc.
  intros Hk H. step_ok H as [y r1] s1 Et. cbn [fst snd] in H.
  apply sanitize_title_traversed in Et as (upd & r1' & -> & -> & Hu & Ht). cbn [app] in H.
  pose proof (kind_of_set_title (u8 "title") upd b ltac:(set_solver by done) Hu) as Hk'. rewrite Hk in Hk'.
  assert (forall k, dmem k (set_title (u8 "title") upd b) = dmem k b) as Hm' by (intros; by apply dmem_set_title).
  destruct (dmem (u8 "content") b) eqn:Hm.
  - step_ok H as [d2 r2] s2 E2. injection H as <- <- <-. apply put_field_ok in E2 as (v' & E2 & ->).
    pose proof (dmem_jget _ _ Hm) as Hg.
    assert (kind_of (dset (u8 "content") v' (set_title (u8 "title") upd b)) = KSearch) as Hk2.
    { rewrite kind_of_dset; [done|set_solver by done|]. by rewrite Hm'. }
    eapply traversed_impl; [apply (traversed_app _ _ _ _ _ _ _ _ _ _ _ _ _ Ht (Hc _ (dget_size _ _ _ Hg) _ _ _ _ E2))|..].
    + intros Hf. split; [done|]. by eapply key_free_dget.
    + intros _. by rewrite collect_block_kind, Hk, Hm.
    + intros _. cbn [fst]. rewrite collect_block_kind, Hk2, dmem_dset, Hm', Hm, jget_self, title_text_dset by (done || by rewrite Hm'). done.
    + intros reverse _ [Hr1 Hr2]. cbn [fst]. rewrite desanitize_block_kind, Hk2. cbv zeta.
      rewrite dmem_dset, Hm', Hm, jget_self, Hr2, desanitize_title_dset, Hr1 by (done || by rewrite Hm').
      cbn [set_field]. by rewrite dset_back.
  - injection H as <- <- <-. eapply traversed_impl; [exact Ht|done|..].
    + intros _. rewrite collect_block_kind, Hk, Hm. cbn [oapp]. by rewrite app_nil_r.
    + intros _. rewrite collect_block_kind, Hk', Hm', Hm. cbn [oapp]. by rewrite app_nil_r.
    + intros reverse _ Hr. rewrite desanitize_block_kind, Hk'. cbv zeta. by rewrite Hm', Hm, Hr.
Qed.

Lemma document_traversed :
  kind_of b = KDocument ->
  (let* w := sanitize_title sanitize_one sanitized_text (u8 "title") (b, []) in
   let* w1 := sanitize_title sanitize_one sanitized_text (u8 "context") w in
   match jget (u8 "source") b with
   | JObj sd => let* w2 := sanitize_source sanitize_one sanitized_text sanitize_content sd in
                ret (dset (u8 "source") (JObj w2.1) w1.1, w1.2 ++ w2.2)
   | _ => ret w1
   end) s = Ok ((b', r), s') -> spec.
Proof using Hc.
  intros Hk H. step_ok H as [y r1] s1 Et. step_ok H as [y2 r2] s2 Et2.
  apply sanitize_title_traversed in Et as (u1 & r1' & -> & -> & Hu1 & Ht1). cbn [app] in Et2.
  apply sanitize_title_traversed in Et2 as (u2 & r2' & -> & -> & Hu2 & Ht2).
  set (y := set_title (u8 "context") u2 (set_title (u8 "title") u1 b)) in *.
  assert (forall k, dmem k y = dmem k b) as Hm.
  { intros k. unfold y. rewrite dmem_set_title by done. by apply dmem_set_title. }
  assert (kind_of y = KDocument) as Hk'.
  { unfold y. rewrite kind_of_set_title; [|set_solver by done|done]. rewrite kind_of_set_title; [done|set_solver by done|done]. }
  assert (forall k, k <> (u8 "title") -> k <> (u8 "context") -> jget k y = jget k b) as Hj.
  { intros k H1 H2. unfold y. destruct u1, u2; cbn [set_title]; by rewrite ?jget_other by done. }
  assert (traversed True (Some (title_text (u8 "title") b ++ title_text (u8 "context") b))
    (Some (title_text (u8 "title") y ++ title_text (u8 "context") y))
    (fun reverse => desanitize_title reverse (u8 "context") (desanitize_title reverse (u8 "title") y) = b)
    s (r1' ++ r2') s2) as Ht.
  { eapply traversed_impl; [apply (traversed_app _ _ _ _ _ _ _ _ _ _ _ _ _ Ht1 Ht2)|done|..].
    - intros _. cbn [oapp]. by rewrite title_text_set_title.
    - intros _. cbn [oapp]. unfold y. by rewrite (title_text_set_title (u8 "title") (u8 "context")).
    - intros reverse _ [Hr1 Hr2]. unfold y. rewrite desanitize_title_set_title, Hr1, Hr2; [done| |done|done].
      by destruct u1; cbn [set_title]; rewrite ?dget_dset_ne. }
  destruct (jget (u8 "source") b) as [| | | | | |sd] eqn:Hsrc;
    try (injection H as <- <- <-; eapply traversed_impl; [exact Ht|done|..];
      [intros _; by rewrite collect_block_kind, Hk, Hsrc; cbn [oapp]; rewrite app_nil_r
      |intros _; by rewrite collect_block_kind, Hk', Hj, Hsrc by done; cbn [oapp]; rewrite app_nil_r
      |intros reverse _ Hr; rewrite desanitize_block_kind, Hk'; cbv zeta; by rewrite Hj, Hsrc, Hr by done]).
  step_ok H as [sd' r3] s3 E3. injection H as <- <- <-. cbn [fst snd].
  pose proof (jget_dmem _ _ _ Hsrc ltac:(done)) as Hg. pose proof (dget_size _ _ _ Hg) as Hsz.
  assert (dmem (u8 "source") b = true) as Hms by (unfold dmem; by rewrite Hg).
  assert (traversed (key_free SIGNATURE (JObj sd) = true) (collect_source_text collect_text sd) (collect_source_text collect_text sd')
    (fun reverse => desanitize_source reverse (desanitize_content reverse) sd' = Some sd) s2 r3 s3) as Hs.
  { eapply source_traversed; [|exact E3]. intros c Hlt. apply Hc. lia. }
  assert (kind_of (dset (u8 "source") (JObj sd') y) = KDocument) as Hk2.
  { rewrite kind_of_dset; [done|set_solver by done|]. by rewrite Hm. }
  eapply traversed_impl; [apply (traversed_app _ _ _ _ _ _ _ _ _ _ _ _ _ Ht Hs)|..].
  - intros Hf. split; [done|]. by eapply key_free_dget.
  - intros _. by rewrite collect_block_kind, Hk, Hsrc.
  - intros _. by rewrite collect_block_kind, Hk2, jget_self, !title_text_dset by done.
  - intros reverse _ [Hr1 Hr2]. rewrite desanitize_block_kind, Hk2. cbv zeta.
    rewrite jget_self, Hr2, !desanitize_title_dset, Hr1 by done.
    rewrite <- Hsrc, dset_back; done.
Qed.

Lemma block_traversed : sanitize_block sanitize_one sanitized_text b s = Ok ((b', r), s') -> spec.
Proof using Hc.
  rewrite sanitize_block_kind. destruct (kind_of b) eqn:Hk; intros H.
  - by eapply text_traversed.
  - apply content_traversed; [done| |done]. by apply kind_content in Hk.
  - apply kind_tree in Hk as Hk2. destruct Hk2 as [Hh Hm]. by eapply tree_traversed.
  - by apply search_traversed.
  - by apply document_traversed.
  - injection H as <- <- <-. rewrite collect_block_kind, Hk. apply traversed_nil; [done|].
    intros reverse. by rewrite desanitize_block_kind, Hk.
  - apply fallback_traversed; [done| |done]. by apply kind_fallback.
  - done.
Qed.
End one_block.

Lemma content_all c : content_ok c.
Proof.
  remember (json_size c) as n eqn:Hn. revert c Hn. induction n as [n IH] using lt_wf_ind. intros c ->.
  assert (forall d, (json_size (JObj d) <= json_size c)%nat -> block_ok d) as Hb.
  { intros d Hd s b' r s' H. eapply block_traversed; [|exact H]. intros c' Hc'. apply (IH (json_size c')); [lia|done]. }
  intros s c' r s' H. destruct c as [|b|z|t|t|l|d]; cbn [ContentBlocks.sanitize_content] in H;
    try (injection H as <- <- <-; by apply traversed_nil).
  - apply sanitize_leaf_ok in H as (r0 & El & -> & ->). cbn [collect_text desanitize_content].
    eapply traversed_impl; [apply (traversed_leaf _ _ _ _ (Some [sanitized_text r0]) (fun reverse => reverse (sanitized_text r0) = t) El)|..];
      [eauto|done|done|done|done|]. by intros reverse _ ->.
  - step_ok H as [l' rl] s1 El. injection H as <- <- <-. cbn [fst snd].
    cbn [collect_text desanitize_content]. fold collect_block_text. fold (desanitize_block).
    eapply traversed_impl; [eapply (walk_list_traversed _ (fun c => key_free SIGNATURE c = true)
       (fun item => match item with JObj b => collect_block_text b | _ => Some [] end)
       (fun reverse item => match item with
                    | JObj b => match desanitize_block reverse b with Some b' => Some (JObj b') | None => None end
                    | _ => Some item
                    end)); [|exact El]|..].
    + apply Forall_forall. intros x Hx s0 x' rx s2 Ex.
      destruct x as [|b|z|t|t|l0|d]; try (injection Ex as <- <- <-; by apply traversed_nil).
      step_ok Ex as [d' rd] s3 Ed. injection Ex as <- <- <-. cbn [fst snd].
      apply Hb in Ed; [|apply elem_size in Hx; lia].
      eapply traversed_impl; [exact Ed|done..|]. by intros reverse _ ->.
    + cbn [key_free]. rewrite forallb_forall. intros Hf. apply Forall_forall. intros x Hx. apply Hf. by apply list_elem_of_In.
    + done.
    + done.
    + intros reverse _ Hr. unfold desanitize_block in Hr. by rewrite Hr.
  - step_ok H as [d' rd] s1 Ed. injection H as <- <- <-. cbn [fst snd].
    apply Hb in Ed; [|done]. eapply traversed_impl; [exact Ed|done..|].
    intros reverse _ Hr. cbn [desanitize_content]. unfold desanitize_block in Hr. by rewrite Hr.
Qed.

(** *** Tool arguments *)

Lemma walk_list_ok (f : json -> M (json * list R)) (P : json -> Prop) l :
  Forall (fun v => forall s v' r s', f v s = Ok ((v', r), s') -> P v') l ->
  forall s l' r s', walk_list f l s = Ok ((l', r), s') -> Forall P l'.
Proof.
  induction 1 as [|x l Hx Hl IH]; intros s l' r s'; cbn [walk_list]; [by intros [= <- _ _]|].
  intros H. step_ok H as [x' rx] s1 Ex. step_ok H as [l2 r2] s2 El. injection H as <- _ _. constructor; eauto.
Qed.

Lemma walk_dict_ok keep (f : json -> M (json * list R)) (P : json -> Prop) d :
  Forall (fun e : str * json => P e.2 /\ forall s v' r s', f e.2 s = Ok ((v', r), s') -> P v') d ->
  forall s d' r s', walk_dict keep f d s = Ok ((d', r), s') ->
  Forall (fun e : str * json => P e.2) d' /\ dkeys d' = dkeys d.
Proof.
  induction 1 as [|[k v] d [Hv Hx] Hl IH]; intros s d' r s'; cbn [walk_dict]; [by intros [= <- _ _]|].
  intros H. step_ok H as [x' rx] s1 Ex. step_ok H as [l2 r2] s2 El. injection H as <- _ _.
  destruct (IH _ _ _ _ El) as [H1 H2]. cbn [fst dkeys map]. split; [|f_equal; exact H2].
  constructor; [|done]. cbn [snd]. destruct (keep k); [by injection Ex as <- _ _|eauto].
Qed.

Lemma sanitize_json_ok v : forall depth s v' r s',
  sanitize_json v depth s = Ok ((v', r), s') -> json_ok v = true -> json_ok v' = true.
Proof.
  induction v as [|b|z|t|t|l IH|d IH] using json_tree_ind; intros depth s v' r s' H Hok;
    cbn [ContentBlocks.sanitize_json] in H; destruct (MAX_JSON_DEPTH <? depth); try done;
    try (by injection H as <- _ _).
  - apply sanitize_leaf_ok in H as (r0 & _ & -> & _). done.
  - step_ok H as [l' rl] s1 El. injection H as <- _ _. cbn [json_ok fst] in *.
    apply forallb_forall. intros x Hx. apply list_elem_of_In in Hx. revert x Hx. apply Forall_forall.
    eapply walk_list_ok; [|exact El]. rewrite forallb_forall in Hok. apply Forall_forall. intros x Hx s0 x' rx s2 Ex.
    rewrite Forall_forall in IH. eapply IH; [done|exact Ex|]. apply Hok. by apply list_elem_of_In.
  - step_ok H as [d' rl] s1 El. injection H as <- _ _. cbn [json_ok fst] in *. apply andb_true_iff in Hok as [Hnd Hok].
    eapply (walk_dict_ok _ _ (fun v => json_ok v = true)) in El as [H1 H2].
    + rewrite H2, Hnd. cbn [andb]. apply forallb_forall. intros e He. apply list_elem_of_In in He.
      rewrite Forall_forall in H1. by apply H1.
    + rewrite forallb_forall in Hok. apply Forall_forall. intros e He.
      assert (json_ok e.2 = true) as He2 by (apply (Hok e); by apply list_elem_of_In). split; [done|].
      intros s0 v' rv s2 Ev. rewrite Forall_forall in IH. by eapply IH.
Qed.

Lemma sanitize_json_calls v depth s v' r s' :
  sanitize_json v depth s = Ok ((v', r), s') -> run_all (collect_json_text v depth) s = Ok (r, s').
Proof. intros H. apply sanitize_json_tree in H as [(calls & Hr & Hf & _) _]. by destruct (Hf I) as [[= ->] _]. Qed.

Lemma run_leaf t s r s' : leaf sanitize_one t s = Ok (r, s') -> run_all [t] s = Ok ([r], s').
Proof. intros H. cbn [run_all]. apply sbind_ok. by exists r, s'. Qed.

Lemma tool_arguments_calls v s v' r s' :
  sanitize_tool_arguments sanitize_one sanitized_text v s = Ok ((v', r), s') ->
  run_all (collect_tool_arguments_text v) s = Ok (r, s').
Proof.
  unfold sanitize_tool_arguments, collect_tool_arguments_text.
  destruct v; try done; try apply sanitize_json_calls; [by intros [= _ <- <-]|].
  intros H. step_ok H as [t' r'] s1 Ea. injection H as _ <- <-.
  unfold sanitize_arguments, collect_arguments_text in *. destruct (loads s0) as [parsed|].
  - step_ok Ea as [w rw] s2 Ew. injection Ea as _ <- <-. by eapply sanitize_json_calls.
  - step_ok Ea as r0 s2 Er. injection Ea as _ <- <-. by apply run_leaf.
Qed.

Lemma fn_calls fn s o s' :
  sanitize_fn sanitize_one sanitized_text fn s = Ok (o, s') ->
  run_all (collect_fn_text fn) s = Ok (match o with Some (_, r) => r | None => [] end, s').
Proof.
  unfold sanitize_fn, collect_fn_text. destruct fn; try (by intros [= <- <-]).
  destruct (dget (u8 "arguments") d) as [args|]; [|by intros [= <- <-]].
  intros H. step_ok H as [w rw] s1 Ew. injection H as <- <-. by eapply tool_arguments_calls.
Qed.

Lemma call_calls call s c' r s' :
  sanitize_call sanitize_one sanitized_text call s = Ok ((c', r), s') -> run_all (collect_call_text call) s = Ok (r, s').
Proof.
  unfold sanitize_call, collect_call_text. destruct call; try (by intros [= _ <- <-]).
  intros H. step_ok H as o s1 Eo. apply fn_calls in Eo. destruct o as [[fn ro]|]; by injection H as _ <- <-.
Qed.

Lemma walk_list_calls (f : json -> M (json * list R)) (C : json -> list str) l :
  (forall v s v' r s', f v s = Ok ((v', r), s') -> run_all (C v) s = Ok (r, s')) ->
  forall s l' r s', walk_list f l s = Ok ((l', r), s') -> run_all (concat (map C l)) s = Ok (r, s').
Proof.
  intros Hf. induction l as [|x l IH]; intros s l' r s'; cbn [walk_list map concat]; [by intros [= _ <- <-]|].
  intros H. step_ok H as [x' rx] s1 Ex. step_ok H as [l2 r2] s2 El. injection H as _ <- <-.
  eapply run_all_app; eauto.
Qed.

Lemma message_tool_calls_field_calls m s m' r s' :
  sanitize_message_tool_calls_field sanitize_one sanitized_text m s = Ok ((m', r), s') ->
  run_all (collect_message_tool_calls_field_text m) s = Ok (r, s').
Proof.
  unfold sanitize_message_tool_calls_field, collect_message_tool_calls_field_text. intros H.
  step_ok H as [m1 r1] s1 E1. step_ok H as o s2 Eo. apply fn_calls in Eo.
  assert (r = r1 ++ match o with Some (_, r2) => r2 | None => [] end /\ s' = s2) as [-> ->].
  { destruct o as [[fn ro]|]; injection H as _ <- <-; [done|]. by rewrite app_nil_r. }
  eapply run_all_app; [|exact Eo]. destruct (jget (u8 "tool_calls") m); try (by injection E1 as _ <- <-).
  step_ok E1 as [c rc] s3 Ec. injection E1 as _ <- <-. eapply walk_list_calls; [|exact Ec]. intros. by eapply call_calls.
Qed.

Lemma tool_calls_calls m s m' r s' :
  sanitize_tool_calls sanitize_one sanitized_text m s = Ok ((m', r), s') ->
  exists calls, collect_tool_call_text m = Some calls /\ run_all calls s = Ok (r, s').
Proof.
  unfold sanitize_tool_calls, collect_tool_call_text, check_type. intros H. step_ok H as [m1 r1] s1 E1.
  apply message_tool_calls_field_calls in E1. cbv zeta in H. cbn [fst snd] in H.
  destruct (json_is _ (u8 "function_call") && _).
  { step_ok H as [m2 r2] s2 E2. injection H as _ <- <-. apply put_field_ok in E2 as (v' & E2 & _).
    apply tool_arguments_calls in E2. eexists. split; [reflexivity|]. by eapply run_all_app. }
  destruct (type_in _ OUTPUT_ITEM_TYPES) as [out|]; [|done]. rewrite ret_bind in H.
  eexists. split; [reflexivity|]. destruct (out && _).
  - step_ok H as [m2 r2] s2 E2. injection H as _ <- <-. apply put_field_ok in E2 as (v' & E2 & _).
    apply sanitize_json_calls in E2. by eapply run_all_app.
  - by injection H as _ <- <-.
Qed.

(** *** Responses items *)

Lemma content_calls c s c' r s' :
  key_free SIGNATURE c = true -> sanitize_content c s = Ok ((c', r), s') ->
  exists calls, collect_text c = Some calls /\ run_all calls s = Ok (r, s').
Proof. intros Hf H. apply content_all in H as (calls & Hr & Hs & _). destruct (Hs Hf) as [-> _]. eauto. Qed.

Lemma item_field_calls field v s o s' :
  key_free SIGNATURE v = true -> sanitize_item_field sanitize_one sanitized_text field v s = Ok (o, s') ->
  exists calls, collect_item_field_text field v = Some calls /\
                run_all calls s = Ok (match o with Some (_, r) => r | None => [] end, s').
Proof.
  intros Hf. unfold sanitize_item_field, collect_item_field_text. cbv zeta.
  assert (forall (c : M (json * list R)) calls,
    (forall v' r s', c s = Ok ((v', r), s') -> run_all calls s = Ok (r, s')) ->
    (let* w := c in ret (Some w)) s = Ok (o, s') ->
    run_all calls s = Ok (match o with Some (_, r) => r | None => [] end, s')) as Hsome.
  { intros c calls Hcc H. step_ok H as [v' r] s1 Ec. injection H as <- <-. by eapply Hcc. }
  assert (forall t, (let* w := sanitize_leaf sanitize_one sanitized_text t in ret (Some w)) s = Ok (o, s') ->
    run_all [t] s = Ok (match o with Some (_, r) => r | None => [] end, s')) as Hleaf.
  { intros t. apply Hsome. intros v' r s1 (r0 & El & _ & ->)%sanitize_leaf_ok. by apply run_leaf. }
  assert (forall v, (let* w := sanitize_json v 0 in ret (Some w)) s = Ok (o, s') ->
    run_all (collect_json_text v 0) s = Ok (match o with Some (_, r) => r | None => [] end, s')) as Htree.
  { intros w. apply Hsome. intros. by eapply sanitize_json_calls. }
  destruct (str_eqb field (u8 "arguments")).
  { intros H. eexists. split; [reflexivity|]. eapply Hsome; [|exact H]. intros. by eapply tool_arguments_calls. }
  destruct (memb field RESPONSES_BLOCK_LIST_FIELDS).
  { intros H. step_ok H as [c' r] s1 Ec. injection H as <- <-. by eapply content_calls. }
  destruct (str_eqb field (u8 "output")); [eauto|].
  destruct (memb field RESPONSES_TEXT_FIELDS), v; eauto; try done;
    intros [= <- <-]; by eexists.
Qed.

Lemma item_fields_calls ty fields : forall w s w' s',
  Forall (fun e : str * json => key_free SIGNATURE e.2 = true) fields ->
  sanitize_item_fields sanitize_one sanitized_text ty fields w s = Ok (w', s') ->
  exists calls r, collect (fun e : str * json => if item_field_skipped ty e.1 then Some []
                                       else collect_item_field_text e.1 e.2) fields = Some calls /\
                  w'.2 = w.2 ++ r /\ run_all calls s = Ok (r, s').
Proof.
  induction fields as [|[field v] fields IH]; intros w s w' s' Hf; cbn [sanitize_item_fields collect].
  - intros [= <- <-]. exists [], []. by rewrite app_nil_r.
  - apply Forall_cons in Hf as [Hv Hf]. intros H. step_ok H as w1 s1 E1.
    destruct (IH _ _ _ _ Hf H) as (calls & r & -> & Hw & Hr). cbn [fst snd]. destruct (item_field_skipped ty field).
    + injection E1 as <- <-. by exists calls, r.
    + step_ok E1 as o s2 Eo. injection E1 as <- <-. apply item_field_calls in Eo as (c1 & -> & Hr1); [|done].
      exists (c1 ++ calls), (match o with Some (_, r1) => r1 | None => [] end ++ r).
      split_and!; [done| |by eapply run_all_app]. rewrite Hw. destruct o as [[v' r1]|]; cbn [snd]; [by rewrite app_assoc|done].
Qed.

Lemma key_free_values k d : key_free k (JObj d) = true -> Forall (fun e : str * json => key_free k e.2 = true) d.
Proof.
  cbn [key_free]. rewrite forallb_forall. intros H. apply Forall_forall. intros e He.
  specialize (H e (proj1 (list_elem_of_In _ _) He)). by apply andb_true_iff in H as [_ H].
Qed.

Lemma responses_item_calls item s item' r s' :
  key_free SIGNATURE (JObj item) = true ->
  sanitize_responses_item sanitize_one sanitized_text item s = Ok ((item', r), s') ->
  exists calls, collect_responses_item_text item = Some calls /\ run_all calls s = Ok (r, s').
Proof.
  unfold sanitize_responses_item, collect_responses_item_text. intros Hf%key_free_values H.
  step_ok H as [w rw] s1 Ew. apply message_tool_calls_field_calls in Ew.
  apply item_fields_calls in H as (calls & r1 & -> & Hr & Hrun); [|done]. cbn [snd] in Hr. subst r.
  eexists. split; [reflexivity|]. by eapply run_all_app.
Qed.

(** Nothing is written to the fields that hold tool calls. *)
Lemma collect_tool_call_text_content m c : collect_tool_call_text (dset (u8 "content") c m) = collect_tool_call_text m.
Proof.
  unfold collect_tool_call_text, collect_message_tool_calls_field_text, dmem.
  by rewrite !jget_other, !dget_dset_ne by done.
Qed.

Lemma message_calls m s m' r s' :
  key_free SIGNATURE (JObj m) = true ->
  sanitize_message sanitize_one sanitized_text m s = Ok ((m', r), s') ->
  exists calls, run_all calls s = Ok (r, s') /\
    (item_text true (ItemDict m) = Some calls \/
     jget (u8 "content") m = JStr [] /\ item_text true (ItemDict m) = Some ([] :: calls)).
Proof.
  intros Hf H. unfold sanitize_message in H. step_ok H as [w rw] s1 Ew. step_ok H as [t rt] s2 Et.
  injection H as _ <- <-. cbn [fst] in Et. apply tool_calls_calls in Et as (c2 & Ec2 & Hr2). cbn [item_text].
  assert (dget (u8 "content") m = None \/ key_free SIGNATURE (jget (u8 "content") m) = true) as Hfc.
  { unfold jget. destruct (dget (u8 "content") m) eqn:Eg; [right|by left]. by eapply key_free_dget. }
  assert (jget (u8 "content") m = JNull \/ jget (u8 "content") m = JStr [] \/
    put_field (u8 "content") m (sanitize_content (jget (u8 "content") m)) s = Ok ((w, rw), s1)) as [Hc|[Hc|Hc]].
  { destruct (jget (u8 "content") m) as [| | | |[|c t']| |]; auto. }
  - rewrite Hc in Ew. injection Ew as <- <- <-. exists c2. split; [done|]. left. rewrite Hc, Ec2. done.
  - rewrite Hc in Ew. injection Ew as <- <- <-. exists c2. split; [done|]. right. split; [done|]. rewrite Hc, Ec2. done.
  - apply put_field_ok in Hc as (v' & Hc & ->). rewrite collect_tool_call_text_content in Ec2.
    assert (key_free SIGNATURE (jget (u8 "content") m) = true) as Hk.
    { destruct Hfc as [Hn|]; [|done]. unfold jget. by rewrite Hn. }
    destruct (content_calls _ _ _ _ _ Hk Hc) as (c1 & Ec1 & Hr1).
    exists (c1 ++ c2). split; [by eapply run_all_app|]. left. by rewrite Ec1, Ec2.
Qed.

(** *** Depth *)

(** Every string value of a tree outside the opaque keys, at any depth. *)
Fixpoint string_leaves (v : json) : list str :=
  match v with
  | JStr s => [s]
  | JObj d => concat (map (fun e : str * json => if opaque_key e.1 then [] else string_leaves e.2) d)
  | JList l => concat (map string_leaves l)
  | _ => []
  end.

Lemma walk_list_leaves (f : json -> M (json * list R)) (C : json -> list str) l :
  Forall (fun v => forall s v' r s', f v s = Ok ((v', r), s') ->
    C v = string_leaves v /\ string_leaves v' = map sanitized_text r) l ->
  forall s l' r s', walk_list f l s = Ok ((l', r), s') ->
  concat (map C l) = concat (map string_leaves l) /\ concat (map string_leaves l') = map sanitized_text r.
Proof.
  induction 1 as [|x l Hx Hl IH]; intros s l' r s'; cbn [walk_list]; [by intros [= <- <- _]|].
  intros H. step_ok H as [x' rx] s1 Ex. step_ok H as [l2 r2] s2 El. injection H as <- <- _.
  destruct (Hx _ _ _ _ Ex) as [H0 H1]. destruct (IH _ _ _ _ El) as [H2 H3]. cbn [map concat fst snd] in *.
  by rewrite H0, H1, H2, H3, map_app.
Qed.

Lemma walk_dict_leaves (f : json -> M (json * list R)) (C : json -> list str) d :
  Forall (fun e : str * json => forall s v' r s', f e.2 s = Ok ((v', r), s') ->
    C e.2 = string_leaves e.2 /\ string_leaves v' = map sanitized_text r) d ->
  forall s d' r s', walk_dict opaque_key f d s = Ok ((d', r), s') ->
  concat (map (fun e : str * json => if opaque_key e.1 then [] else C e.2) d) = string_leaves (JObj d) /\
  string_leaves (JObj d') = map sanitized_text r.
Proof.
  cbn [string_leaves]. induction 1 as [|[k x] l Hx Hl IH]; intros s l' r s'; cbn [walk_dict]; [by intros [= <- <- _]|].
  intros H. step_ok H as [x' rx] s1 Ex. step_ok H as [l2 r2] s2 El. injection H as <- <- _.
  destruct (IH _ _ _ _ El) as [H2 H3]. cbn [map concat fst snd] in *. rewrite map_app, H2, H3.
  destruct (opaque_key k); [by injection Ex as _ <- _|]. destruct (Hx _ _ _ _ Ex) as [-> ->]. done.
Qed.

Lemma sanitize_json_leaves v : forall depth s v' r s', sanitize_json v depth s = Ok ((v', r), s') ->
  collect_json_text v depth = string_leaves v /\ string_leaves v' = map sanitized_text r.
Proof.
  induction v as [|b|z|t|t|l IH|d IH] using json_tree_ind; intros depth s v' r s' H;
    cbn [ContentBlocks.sanitize_json collect_json_text] in *; destruct (MAX_JSON_DEPTH <? depth); try done;
    try (by injection H as <- <- _).
  - apply sanitize_leaf_ok in H as (r0 & _ & -> & ->). done.
  - step_ok H as [l' rl] s1 El. injection H as <- <- _. eapply walk_list_leaves; [|exact El].
    eapply Forall_impl; [exact IH|]. intros x Hx s0 v' r s2 Hv. by eapply Hx.
  - step_ok H as [l' rl] s1 El. injection H as <- <- _. eapply (walk_dict_leaves _ (fun v => collect_json_text v (depth + 1))); [|exact El].
    eapply Forall_impl; [exact IH|]. intros x Hx s0 v' r s2 Hv. by eapply Hx.
Qed.

(** *** Properties *)

(** C10: what [sanitize_content] did to a body is undone by [desanitize_content]
    when [reverse] undoes each of the calls of [sanitize_one] it made: blocks of
    every kind, nested content, tool inputs and unknown blocks come back as they
    were. *)
Theorem content_roundtrip content s content' rs s' :
  sanitize_content content s = Ok ((content', rs), s') ->
  exists calls, run_all calls s = Ok (rs, s') /\
    forall reverse, inverts reverse calls rs -> desanitize_content reverse content' = Some content.
Proof. intros H. apply content_all in H as (calls & Hr & _ & Hb). eauto. Qed.

(** the read-only mirror agrees with the rewriting walk: [collect_text] lists
    exactly the texts that were passed to [sanitize_one], in order, and in the
    rewritten body it finds nothing but outputs of [sanitize_one] (a body with a
    [signature] key in it apart, which is scanned and not rewritten). *)
Theorem content_scan_agrees content s content' rs s' :
  key_free SIGNATURE content = true ->
  sanitize_content content s = Ok ((content', rs), s') ->
  exists calls seen, collect_text content = Some calls /\ run_all calls s = Ok (rs, s') /\
    collect_text content' = Some seen /\ seen ⊆ map sanitized_text rs.
Proof.
  intros Hf H. apply content_all in H as (calls & Hr & Hs & _).
  destruct (Hs Hf) as (-> & seen & Hseen & Hsub). by exists calls, seen.
Qed.

(** the scans before and after see of a message or Responses item exactly the
    texts the rewriting passes to [sanitize_one], in order; the one difference is
    an empty [content] string, which is seen and not passed on. *)
Theorem item_scan_agrees (d : jdict) s rs s' :
  key_free SIGNATURE (JObj d) = true ->
  (forall d', sanitize_message sanitize_one sanitized_text d s = Ok ((d', rs), s') ->
     exists calls, run_all calls s = Ok (rs, s') /\
       (item_text true (ItemDict d) = Some calls \/
        jget (u8 "content") d = JStr [] /\ item_text true (ItemDict d) = Some ([] :: calls))) /\
  (forall d', sanitize_responses_item sanitize_one sanitized_text d s = Ok ((d', rs), s') ->
     exists calls, run_all calls s = Ok (rs, s') /\ item_text false (ItemDict d) = Some calls).
Proof.
  intros Hf. split; intros d' H.
  - by eapply message_calls.
  - destruct (responses_item_calls _ _ _ _ _ Hf H) as (calls & Hc & Hr). eauto.
Qed.

(** C11: a JSON tree that is not refused has every string value outside
    [encrypted_content] rewritten, however deep it lies: nesting past the limit
    raises instead of being skipped. *)
Theorem no_leaf_skipped v s v' rs s' :
  sanitize_json v 0 s = Ok ((v', rs), s') ->
  run_all (string_leaves v) s = Ok (rs, s') /\ string_leaves v' = map sanitized_text rs.
Proof.
  intros H. pose proof (sanitize_json_calls _ _ _ _ _ _ H) as Hr.
  destruct (sanitize_json_leaves _ _ _ _ _ _ H) as [Hc Hl]. by rewrite <- Hc.
Qed.

(** the JSON text of a tool call's arguments stays JSON, the scan sees in it
    what was passed to [sanitize_one], and desanitizing gives the canonical
    encoding of the original arguments. *)
Theorem tool_arguments_roundtrip `{FL : !FloatLaws F} arguments parsed s arguments' rs s' :
  loads arguments = Some parsed ->
  sanitize_arguments sanitize_one sanitized_text arguments s = Ok ((arguments', rs), s') ->
  run_all (collect_arguments_text arguments) s = Ok (rs, s') /\
  collect_arguments_text arguments' ⊆ map sanitized_text rs /\
  forall reverse, inverts reverse (collect_arguments_text arguments) rs ->
    desanitize_arguments reverse arguments' = dumps parsed /\ loads (dumps parsed) = Some parsed.
Proof.
  intros Hl H. unfold sanitize_arguments, collect_arguments_text, desanitize_arguments in *. rewrite Hl in *.
  step_ok H as [v' r] s1 Ev. injection H as <- <- <-. cbn [fst].
  pose proof (loads_ok _ _ Hl) as Hok. pose proof (sanitize_json_ok _ _ _ _ _ _ Ev Hok) as Hok'.
  rewrite (loads_dumps v' Hok').
  destruct (sanitize_json_tree _ _ _ _ _ _ Ev) as [(calls & Hr & Hs & Hb) _].
  destruct (Hs I) as ([= <-] & l & [= <-] & Hsub). split_and!; [done|done|].
  intros reverse Hi. rewrite (Hb _ Hi). split; [done|]. by apply loads_dumps.
Qed.
End Theorems.

(** ** A concrete body *)

(** Replaces a name and writes down what it was given. *)
Definition demo_one (t : str) (log : list str) : result unit (str * list str) :=
  Ok (py_replace t (u8 "bob") (u8 "[[NAME_001]]"), log ++ [t]).
Definition demo_reverse (t : str) : str := py_replace t (u8 "[[NAME_001]]") (u8 "bob").

Abbreviation demo_sanitize_content := (sanitize_content demo_one (fun r => r)).

Definition demo_body : json :=
  default JNull (loads (F := id_floats)
    (js8 "[{'type':'text','text':'hi bob'},{'type':'tool_use','name':'f','input':{'who':'bob','n':3,'encrypted_content':'bob'}},{'type':'document','title':'bob','source':{'type':'content','content':[{'type':'text','text':'about bob'}]}},{'type':'new_kind','note':['bob', null]},{'type':'thinking','thinking':'bob'},{'type':'tool_result','content':'for bob'}]")).

Definition demo_clean : json :=
  default JNull (loads (F := id_floats)
    (js8 "[{'type':'text','text':'hi [[NAME_001]]'},{'type':'tool_use','name':'f','input':{'who':'[[NAME_001]]','n':3,'encrypted_content':'bob'}},{'type':'document','title':'[[NAME_001]]','source':{'type':'content','content':[{'type':'text','text':'about [[NAME_001]]'}]}},{'type':'new_kind','note':['[[NAME_001]]', null]},{'type':'thinking','thinking':'bob'},{'type':'tool_result','content':'for [[NAME_001]]'}]")).

Definition demo_log : list str := [u8 "hi bob"; u8 "bob"; u8 "bob"; u8 "about bob"; u8 "bob"; u8 "for bob"].
Definition demo_results : list str := map (fun t => py_replace t (u8 "bob") (u8 "[[NAME_001]]")) demo_log.

Lemma demo_run : demo_sanitize_content demo_body [] = Ok ((demo_clean, demo_results), demo_log).
Proof. vm_compute. reflexivity. Qed.

Lemma demo_run_log ts log rs log' : run_all demo_one ts log = Ok (rs, log') -> log' = log ++ ts.
Proof.
  revert log rs. induction ts as [|t ts IH]; intros log rs; cbn [run_all].
  - intros [= _ <-]. by rewrite app_nil_r.
  - intros H. step_ok H as r s1 Er. step_ok H as rs2 s2 E2. injection H as _ <-.
    injection Er as _ <-. apply IH in E2. by rewrite E2, <- app_assoc.
Qed.

Lemma demo_inverts : inverts (fun r : str => r) demo_reverse demo_log demo_results.
Proof. split; [done|]. vm_compute. repeat constructor. Qed.

Lemma content_roundtrip_witness :
  demo_sanitize_content demo_body [] = Ok ((demo_clean, demo_results), demo_log) /\
  desanitize_content demo_reverse demo_clean = Some demo_body.
Proof.
  split; [exact demo_run|].
  destruct (content_roundtrip demo_one (fun r => r) demo_body [] demo_clean demo_results demo_log demo_run)
    as (calls & Hr & Hb). apply Hb. apply demo_run_log in Hr. cbn [app] in Hr. subst calls. exact demo_inverts.
Defined.

Lemma content_scan_agrees_witness :
  key_free SIGNATURE demo_body = true /\
  exists calls seen, collect_text demo_body = Some calls /\
    run_all demo_one calls [] = Ok (demo_results, demo_log) /\
    collect_text demo_clean = Some seen /\ seen ⊆ map (fun r => r) demo_results.
Proof.
  split; [by vm_compute|].
  apply (content_scan_agrees demo_one (fun r => r) demo_body [] demo_clean demo_results demo_log);
    [by vm_compute|exact demo_run].
Defined.

Definition demo_message : jdict :=
  match loads (F := id_floats)
    (js8 "{'role':'assistant','content':'bob?','tool_calls':[{'id':'1','function':{'name':'f','arguments':'{\'who\': \'bob\'}'}}]}") with
  | Some (JObj d) => d
  | _ => []
  end.
Definition demo_texts : list str := [u8 "bob"; u8 "bob?"].

Lemma item_scan_agrees_witness :
  key_free SIGNATURE (JObj demo_message) = true /\
  exists calls, run_all demo_one calls [] = Ok (map (fun t => py_replace t (u8 "bob") (u8 "[[NAME_001]]")) demo_texts, demo_texts) /\
    item_text (F := id_floats) false (ItemDict demo_message) = Some calls.
Proof.
  split; [by vm_compute|].
  refine (proj2 (item_scan_agrees (F := id_floats) demo_one (fun r => r) demo_message []
    (map (fun t => py_replace t (u8 "bob") (u8 "[[NAME_001]]")) demo_texts) demo_texts _) _ _).
  - by vm_compute.
  - vm_compute. reflexivity.
Defined.

Lemma no_leaf_skipped_witness :
  run_all demo_one (string_leaves demo_body) [] =
    Ok (map (fun t => py_replace t (u8 "bob") (u8 "[[NAME_001]]")) (string_leaves demo_body), string_leaves demo_body).
Proof.
  refine (proj1 (no_leaf_skipped demo_one (fun r => r) demo_body [] _ _ _ _)).
  vm_compute. reflexivity.
Defined.

Definition demo_arguments : str := js8 "{'who':'bob', 'n': [1,2.50]}".

Lemma tool_arguments_roundtrip_witness :
  loads (F := id_floats) demo_arguments = Some (default JNull (loads (F := id_floats) demo_arguments)) /\
  run_all demo_one (collect_arguments_text (F := id_floats) demo_arguments) [] = Ok ([u8 "[[NAME_001]]"], [u8 "bob"]).
Proof.
  split; [by vm_compute|].
  refine (proj1 (tool_arguments_roundtrip (F := id_floats) demo_one (fun r => r) demo_arguments
    (default JNull (loads (F := id_floats) demo_arguments)) [] _ _ _ _ _)).
  - by vm_compute.
  - vm_compute. reflexivity.
Defined.

(** A string that stands as an element of a content list is neither rewritten
    nor seen by the scans. *)
Example bare_string_in_list :
  demo_sanitize_content (JList [JStr (u8 "bob")]) [] = Ok ((JList [JStr (u8 "bob")], []), []) /\
  collect_text (JList [JStr (u8 "bob")]) = Some [].
Proof. split; reflexivity. Qed.

(** Nesting past the limit raises. *)
Example deep_tree_refused :
  sanitize_json demo_one (fun r => r) (Nat.iter 65 (fun v => JList [v]) (JStr (u8 "bob"))) 0 [] = Raise ContentTooDeepError /\
  is_ok (sanitize_json demo_one (fun r => r) (Nat.iter 64 (fun v => JList [v]) (JStr (u8 "bob"))) 0 []) = true.
Proof. split; vm_compute; reflexivity. Qed.
