(* ===== verification/Inflight.v ===== *)
(** * The in-flight limiter ([route_gate/inflight.py])

    The limiter reads a request's body under a byte budget and a cap on
    concurrent reads, then takes a slot and holds it until the request ends.
    Between two awaits the code runs alone, so one request is a sequence of
    atomic steps and many requests are an interleaving of them. *)

From S2P Require Import Prelude Text Json.
Local Open Scope py_scope.

(** ** Configuration and construction *)

(** A Python [float] argument: [None] is [nan] or an infinity. *)
Abbreviation py_float := (option Q).

Inductive limiter_error :=
| BadMaxInflight | BadCancelGrace | BadBodyRead | BadMaxDraining | ZeroMaxDraining | BadMaxDrainingBytes.

Definition MAX_BODY_BYTES : Z := 25 * 1024 * 1024.
Definition DRAINING_PER_SLOT : Z := 4.
Definition DEFAULT_MAX_DRAINING_BYTES : Z := 512 * 1024 * 1024.

Record limits := Limits {
  lm_max : Z;               (* [_max], 0 is no cap *)
  lm_max_draining : Z;      (* [_max_draining], 0 is no cap *)
  lm_max_body : Z;
  lm_max_bytes : Z;
}.

(** The counters. *)
Record counters := Counters { inflight : Z; draining : Z; buffered : Z }.

(** [_count]: an [int] that is not a [bool], and not negative. *)
Definition count_value (v : json) : option Z :=
  match v with JInt z => if 0 <=? z then Some z else None | _ => None end.

Definition positive_finite (f : py_float) : bool :=
  match f with Some q => negb (Qle_bool q 0) | None => false end.

Definition limiter_init (max_inflight : json) (cancel_grace_s body_read_s : py_float)
  (max_draining : option json) (max_draining_bytes : json) (max_body_bytes : Z) : result limiter_error (limits * counters) :=
  match count_value max_inflight with
  | None => Raise BadMaxInflight
  | Some max =>
    if negb (positive_finite cancel_grace_s) then Raise BadCancelGrace else
    if negb (positive_finite body_read_s) then Raise BadBodyRead else
    match count_value (match max_draining with Some v => v | None => JInt (DRAINING_PER_SLOT * max) end) with
    | None => Raise BadMaxDraining
    | Some dmax =>
      if dmax <? max then Raise BadMaxDraining else
      if negb (max =? 0) && (dmax =? 0) then Raise ZeroMaxDraining else
      match count_value max_draining_bytes with
      | None => Raise BadMaxDrainingBytes
      | Some bmax =>
        if bmax <? Z.max max_body_bytes 1 then Raise BadMaxDrainingBytes
        else Ok (Limits max dmax max_body_bytes bmax, Counters 0 0 0)
      end
    end
  end.

(** ** Operations on the counters *)

Section Limiter.
Context (L : limits).

Definition slots_full (c : counters) : bool := negb (lm_max L =? 0) && (lm_max L <=? inflight c).

Definition try_acquire (c : counters) : bool * counters :=
  if slots_full c then (false, c)
  else (true, Counters (inflight c + 1) (draining c) (buffered c)).

Definition release (c : counters) : counters := Counters (inflight c - 1) (draining c) (buffered c).

(** [_hold]: [held] is [_Held.bytes]. *)
Definition hold (c : counters) (held size : Z) : bool * Z * counters :=
  let more := size - held in
  if more <=? 0 then (true, held, c)
  else if lm_max_bytes L <? buffered c + more then (false, held, c)
  else (true, size, Counters (inflight c) (draining c) (buffered c + more)).

Definition give_back (c : counters) (held : Z) : counters :=
  if held =? 0 then c else Counters (inflight c) (draining c) (buffered c - held).

(** ** [_declared_length] *)

Definition ascii_ws (c : N) : bool := in_range 9 13 c || (c =? 32)%N.
Definition bytes_lower (b : list N) : list N := map ascii_lower1 b.
Definition bytes_strip (b : list N) : list N := rstrip_by ascii_ws (lstrip_by ascii_ws b).

(** [Raise] is the [ValueError] of [int()] on more digits than Python converts. *)
Definition declared_length (headers : list (list N * list N)) : result unit (option Z) :=
  match List.filter (fun h : list N * list N => str_eqb (bytes_lower h.1) (u8 "content-length")) headers with
  | [h] =>
    let raw := bytes_strip h.2 in
    if str_eqb raw [] || negb (forallb ascii_digit_p raw) then Ok None
    else if INT_MAX_STR_DIGITS <? len raw then Raise tt
    else Ok (Some (Z_of_digits raw))
  | _ => Ok None
  end.

(** ** [_drain]: one message of the body *)

Inductive message :=
| HttpRequest (body : list N) (more_body : bool)
| OtherMessage.

Inductive drained := Chunks (chunks : list (list N)) | Disconnected | Oversize | BodyTimeout | OverBudget.

(** The body read so far: the loop variables of [_drain] and what is held. *)
Record reading := Reading { rd_chunks : list (list N); rd_total : Z; rd_held : Z }.

(** One turn of the loop: go on, or the value [_drain] returns. *)
Definition drain_step (c : counters) (r : reading) (m : message) : (reading + drained * Z) * counters :=
  match m with
  | OtherMessage => (inr (Disconnected, rd_held r), c)
  | HttpRequest body more =>
    let total := rd_total r + len body in
    if lm_max_body L <? total then (inr (Oversize, rd_held r), c) else
    let '(ok, held, c1) := hold c (rd_held r) total in
    if negb ok then (inr (OverBudget, held), c1) else
    let chunks := match body with [] => rd_chunks r | _ => rd_chunks r ++ [body] end in
    if more then (inl (Reading chunks total held), c1) else (inr (Chunks chunks, held), c1)
  end.

(** ** [run]: one request *)

(** Where a request waits.  [Refusing] and [Notifying] hold nothing any more. *)
Inductive phase :=
| PReading (r : reading)
| PServing (held : Z)
| PRefusing (reason : str)
| PNotifying.

Definition ROUTE_GATE_CAPACITY : str := u8 "capacity".
Definition ROUTE_GATE_BODY_TIMEOUT : str := u8 "body_timeout".
Definition OVERSIZE_BLOCKED : str := u8 "oversize:blocked".

(** [run] and [_admit] up to the first await: the caps, the declared length, and
    the start of the body read. *)
Definition arrive (c : counters) (declared : option Z) : phase * counters :=
  if slots_full c || (negb (lm_max_draining L =? 0) && (lm_max_draining L <=? draining c))
  then (PRefusing ROUTE_GATE_CAPACITY, c) else
  let '(ok, held, c1) := match declared with
                         | Some n => hold c 0 (Z.min n (lm_max_body L))
                         | None => (true, 0, c)
                         end in
  if negb ok then (PRefusing ROUTE_GATE_CAPACITY, give_back c1 held)
  else (PReading (Reading [] 0 held), Counters (inflight c1) (draining c1 + 1) (buffered c1)).

(** [_admit_ticket] after [_drain]: [check] is the verdict on a complete body, and
    may raise; no phase is the end of the request. *)
Definition after_drain (check : list (list N) -> result unit (option str)) (c : counters) (d : drained) (held : Z)
  : option phase * counters :=
  let c1 := Counters (inflight c) (draining c - 1) (buffered c) in
  match d with
  | Oversize => (Some (PRefusing OVERSIZE_BLOCKED), give_back c1 held)
  | OverBudget => (Some (PRefusing ROUTE_GATE_CAPACITY), give_back c1 held)
  | BodyTimeout => (Some (PRefusing ROUTE_GATE_BODY_TIMEOUT), give_back c1 held)
  | Disconnected => (Some PNotifying, give_back c1 held)
  | Chunks chunks =>
    match check chunks with
    | Raise _ => (None, give_back c1 held)
    | Ok (Some reason) => (Some (PRefusing reason), give_back c1 held)
    | Ok None =>
      let '(ok, c2) := try_acquire c1 in
      if ok : bool then (Some (PServing held), c2) else (Some (PRefusing ROUTE_GATE_CAPACITY), give_back c2 held)
    end
  end.

(** The end of [_serve], however it ends: the ticket is closed, then the slot is
    freed, then [run] gives the bytes back. *)
Definition finish_serving (c : counters) (held : Z) : counters := give_back (release c) held.

(** ** Many requests *)

Record system := System { sy_counters : counters; sy_requests : gmap nat phase }.

Context (check : list (list N) -> result unit (option str)).

Inductive event :=
| EArrive (declared : option Z)      (* the server calls [run] *)
| EMessage (m : message)             (* [receive] of the body returns *)
| EReadTimeout                       (* the body deadline passes *)
| EReadAborted                       (* [receive] raises, or the request is cancelled, while reading *)
| EServed                            (* [_serve] returns or raises *)
| EAnswered.                         (* [refuse] or [_cancelled] returns or raises *)

(** What the event [e] of request [i] does; [None] where it cannot happen. *)
Definition fire (sy : system) (i : nat) (e : event) : option system :=
  let c := sy_counters sy in
  let put p c' := Some (System c' (<[i := p]> (sy_requests sy))) in
  let put' (o : option phase * counters) := Some (System o.2 (partial_alter (fun _ => o.1) i (sy_requests sy))) in
  match sy_requests sy !! i, e with
  | None, EArrive declared => let '(p, c') := arrive c declared in put p c'
  | Some (PReading r), EMessage m =>
    match drain_step c r m with
    | (inl r', c') => put (PReading r') c'
    | (inr (d, held), c') => put' (after_drain check c' d held)
    end
  | Some (PReading r), EReadTimeout => put' (after_drain check c BodyTimeout (rd_held r))
  | Some (PReading r), EReadAborted =>
    Some (System (give_back (Counters (inflight c) (draining c - 1) (buffered c)) (rd_held r)) (delete i (sy_requests sy)))
  | Some (PServing held), EServed => Some (System (finish_serving c held) (delete i (sy_requests sy)))
  | Some (PRefusing _), EAnswered | Some PNotifying, EAnswered => Some (System c (delete i (sy_requests sy)))
  | _, _ => None
  end.

Fixpoint run_events (sy : system) (es : list (nat * event)) : option system :=
  match es with
  | [] => Some sy
  | (i, e) :: es' => match fire sy i e with Some sy' => run_events sy' es' | None => None end
  end.

Definition initial : system := System (Counters 0 0 0) ∅.

Inductive reachable : system -> Prop :=
| reach_init : reachable initial
| reach_fire sy i e sy' : reachable sy -> fire sy i e = Some sy' -> reachable sy'.
End Limiter.

(** *** A body read from start to end

    Each message finds the counters as the other requests left them. *)
Fixpoint drain (L : limits) (r : reading) (ms : list (counters * message)) : option drained :=
  match ms with
  | [] => None                                  (* still waiting for [receive] *)
  | (c, m) :: ms' =>
    match (drain_step L c r m).1 with
    | inl r' => drain L r' ms'
    | inr (d, _) => Some d
    end
  end.

(** ** [_Replay]: the downstream's [receive] *)

Record replay := Replay { rp_chunks : list (list N); rp_body_done : bool; rp_disconnected : bool }.

Inductive replayed := RRequest (body : list N) (more_body : bool) | RDisconnect.

Definition replay_init (chunks : list (list N)) : replay := Replay chunks false false.
Definition replay_disconnect (r : replay) : replay := Replay (rp_chunks r) (rp_body_done r) true.

(** [None] waits for the disconnect. *)
Definition replay_receive (r : replay) : option (replayed * replay) :=
  if negb (rp_body_done r) && negb (rp_disconnected r) then
    let '(body, rest) := match rp_chunks r with b :: rest => (b, rest) | [] => ([], []) end in
    let more := match rest with [] => false | _ => true end in
    Some (RRequest body more, Replay rest (negb more) false)
  else if rp_disconnected r then Some (RDisconnect, r) else None.

(** The body a downstream assembles that reads until [more_body] is false. *)
Fixpoint read_body (fuel : nat) (r : replay) : option (list N) :=
  match fuel with
  | O => None
  | S n =>
    match replay_receive r with
    | Some (RRequest body more, r') =>
      if more then match read_body n r' with Some rest => Some (body ++ rest) | None => None end else Some body
    | _ => None
    end
  end.

(** ** [RequestTicket] *)

Inductive origin := CancelClient | CancelServer.

(** A hook is known by its identity; [tk_runs] are the calls made so far. *)
Record ticket := Ticket {
  tk_gateway_id : str;
  tk_call_ids : list str;
  tk_cancelled : bool;
  tk_cancel_origin : option origin;
  tk_closed : bool;
  tk_on_close : list nat;
  tk_runs : list nat;
}.

Definition ticket_init (gateway_id : str) : ticket := Ticket gateway_id [] false None false [] [].

Definition mark_cancelled (o : origin) (t : ticket) : ticket :=
  match tk_cancel_origin t with
  | Some _ => t
  | None => Ticket (tk_gateway_id t) (tk_call_ids t)
              (match o with CancelClient => true | CancelServer => tk_cancelled t end)
              (Some o) (tk_closed t) (tk_on_close t) (tk_runs t)
  end.

Definition request_ids (t : ticket) : list str :=
  match tk_call_ids t with [] => [tk_gateway_id t] | ids => ids end.

Definition bind_call_id (call_id : str) (t : ticket) : ticket :=
  if memb call_id (tk_call_ids t) then t
  else Ticket (tk_gateway_id t) (tk_call_ids t ++ [call_id]) (tk_cancelled t) (tk_cancel_origin t) (tk_closed t)
              (tk_on_close t) (tk_runs t).

Definition on_close (hook : nat) (t : ticket) : bool * ticket :=
  if tk_closed t then (false, t)
  else if memb hook (tk_on_close t) then (true, t)
  else (true, Ticket (tk_gateway_id t) (tk_call_ids t) (tk_cancelled t) (tk_cancel_origin t) false
                     (tk_on_close t ++ [hook]) (tk_runs t)).

(** The number of hooks that raised, and the ticket; a hook that raises does not
    stop the others. *)
Definition close (raises : nat -> bool) (t : ticket) : Z * ticket :=
  if tk_closed t then (0, t)
  else (len (List.filter raises (tk_on_close t)),
        Ticket (tk_gateway_id t) (tk_call_ids t) (tk_cancelled t) (tk_cancel_origin t) true [] (tk_runs t ++ tk_on_close t)).

Inductive ticket_op := OpMark (o : origin) | OpBind (id : str) | OpOnClose (hook : nat) | OpClose.

Definition ticket_step (raises : nat -> bool) (t : ticket) (op : ticket_op) : ticket :=
  match op with
  | OpMark o => mark_cancelled o t
  | OpBind id => bind_call_id id t
  | OpOnClose h => (on_close h t).2
  | OpClose => (close raises t).2
  end.

(** ** [_serve]: who ended the request *)

Record serve_state := Serve {
  sv_ticket : ticket;
  sv_response_complete : bool;
  sv_replay : replay;
}.

Inductive serve_event :=
| SendBody (more_body : bool)      (* the downstream sends a body message *)
| SendOther                        (* the downstream sends anything else *)
| ReceiveDisconnect                (* [_watch]: [http.disconnect], or [receive] raised *)
| ReceiveUnexpected                (* [_watch]: any other message *)
| ServerCancel.                    (* the server cancels the request *)

Definition client_gone (s : serve_state) : serve_state :=
  Serve (if sv_response_complete s then sv_ticket s else mark_cancelled CancelClient (sv_ticket s))
        (sv_response_complete s) (replay_disconnect (sv_replay s)).

Definition serve_step (s : serve_state) (e : serve_event) : serve_state :=
  match e with
  | SendBody more => Serve (sv_ticket s) (sv_response_complete s || negb more) (sv_replay s)
  | SendOther | ReceiveUnexpected => s
  | ReceiveDisconnect => client_gone s
  | ServerCancel => Serve (mark_cancelled CancelServer (sv_ticket s)) (sv_response_complete s) (sv_replay s)
  end.

(** The test after [asyncio.wait]: the downstream is cancelled and the guardrail told. *)
Definition treats_as_cancelled (s : serve_state) : bool :=
  rp_disconnected (sv_replay s) && negb (sv_response_complete s).

(** ** Theorems *)

(** *** Sums over the requests *)

Definition total (w : phase -> Z) (m : gmap nat phase) : Z := map_fold (fun _ p acc => w p + acc) 0 m.

Lemma total_empty w : total w ∅ = 0.
Proof. done. Qed.

Lemma total_insert w m i p : m !! i = None -> total w (<[i := p]> m) = w p + total w m.
Proof. intros H. unfold total. rewrite map_fold_insert_L; [done|intros; lia|done]. Qed.

Lemma total_delete w m i p : m !! i = Some p -> total w (delete i m) = total w m - w p.
Proof. intros H. unfold total. rewrite (map_fold_delete_L _ _ i p m); [lia|intros; lia|done]. Qed.

Lemma total_update w m i p q : m !! i = Some p -> total w (<[i := q]> m) = total w m - w p + w q.
Proof.
  intros H. rewrite <- insert_delete_eq, total_insert, (total_delete _ _ _ p) by (done || apply lookup_delete_eq). lia.
Qed.

Lemma total_nonneg w m : (forall i p, m !! i = Some p -> 0 <= w p) -> 0 <= total w m.
Proof.
  induction m as [|i p m Hi IH] using map_ind; intros H; [done|].
  rewrite total_insert by done. pose proof (H i p (lookup_insert_eq _ _ _)). enough (0 <= total w m) by lia.
  apply IH. intros j q Hj. apply (H j). rewrite lookup_insert_ne; [done|]. congruence.
Qed.

Definition serving (p : phase) : Z := match p with PServing _ => 1 | _ => 0 end.
Definition reads (p : phase) : Z := match p with PReading _ => 1 | _ => 0 end.
Definition held_bytes (p : phase) : Z :=
  match p with PReading r => rd_held r | PServing h => h | _ => 0 end.

Definition body_bytes (chunks : list (list N)) : Z := len (concat chunks).

(** What one request keeps true. *)
Definition phase_ok (L : limits) (p : phase) : Prop :=
  0 <= held_bytes p /\
  match p with
  | PReading r => body_bytes (rd_chunks r) = rd_total r /\ rd_total r <= rd_held r /\ rd_held r <= Z.max 0 (lm_max_body L)
  | PServing h => h <= Z.max 0 (lm_max_body L)
  | _ => True
  end.

Record limiter_inv (L : limits) (sy : system) : Prop := {
  inv_inflight : inflight (sy_counters sy) = total serving (sy_requests sy);
  inv_draining : draining (sy_counters sy) = total reads (sy_requests sy);
  inv_buffered : buffered (sy_counters sy) = total held_bytes (sy_requests sy);
  inv_slots : lm_max L <> 0 -> inflight (sy_counters sy) <= lm_max L;
  inv_reads : lm_max_draining L <> 0 -> draining (sy_counters sy) <= lm_max_draining L;
  inv_budget : buffered (sy_counters sy) <= lm_max_bytes L;
  inv_phases : forall i p, sy_requests sy !! i = Some p -> phase_ok L p;
}.

Section Invariant.
Context (L : limits) (check : list (list N) -> result unit (option str)).

Definition wopt (w : phase -> Z) (o : option phase) : Z := match o with Some p => w p | None => 0 end.

Lemma total_alter w m i o :
  total w (partial_alter (fun _ => o) i m) = total w m - wopt w (m !! i) + wopt w o.
Proof.
  destruct o as [q|]; [change (partial_alter _ i m) with (<[i := q]> m)|change (partial_alter _ i m) with (delete i m)];
    destruct (m !! i) as [p|] eqn:E; cbn [wopt].
  - by rewrite (total_update _ _ _ p).
  - rewrite total_insert by done. lia.
  - rewrite (total_delete _ _ _ p) by done. lia.
  - rewrite delete_id by done. lia.
Qed.

(** The counters follow one request from [o] to [o']. *)
Record moved (c : counters) (o o' : option phase) (c' : counters) : Prop := {
  mv_inflight : inflight c' = inflight c - wopt serving o + wopt serving o';
  mv_draining : draining c' = draining c - wopt reads o + wopt reads o';
  mv_buffered : buffered c' = buffered c - wopt held_bytes o + wopt held_bytes o';
  mv_slots : lm_max L <> 0 -> inflight c <= lm_max L -> inflight c' <= lm_max L;
  mv_reads : lm_max_draining L <> 0 -> draining c <= lm_max_draining L -> draining c' <= lm_max_draining L;
  mv_budget : buffered c <= lm_max_bytes L -> buffered c' <= lm_max_bytes L;
  mv_phase : match o' with Some p => phase_ok L p | None => True end;
}.

Lemma hold_spec c h size ok h' c' :
  hold L c h size = (ok, h', c') -> 0 <= h ->
  inflight c' = inflight c /\ draining c' = draining c /\ buffered c' = buffered c - h + h' /\
  (buffered c <= lm_max_bytes L -> buffered c' <= lm_max_bytes L) /\
  h' = (if ok then Z.max h size else h).
Proof.
  unfold hold. intros H Hh. destruct (Z.leb_spec (size - h) 0); [injection H as <- <- <-; split_and!; lia|].
  destruct (Z.ltb_spec (lm_max_bytes L) (buffered c + (size - h))); injection H as <- <- <-; cbn; split_and!; lia.
Qed.

Lemma give_back_spec c h :
  inflight (give_back c h) = inflight c /\ draining (give_back c h) = draining c /\
  buffered (give_back c h) = buffered c - h.
Proof. unfold give_back. destruct (Z.eqb_spec h 0); cbn; split_and!; lia. Qed.

(** A request that stops reading and keeps nothing. *)
Lemma stop_reading c r o' :
  phase_ok L (PReading r) -> (match o' with Some (PRefusing _) | Some PNotifying | None => True | _ => False end) ->
  moved c (Some (PReading r)) o' (give_back (Counters (inflight c) (draining c - 1) (buffered c)) (rd_held r)).
Proof.
  intros (Hh & _) Ho. cbn in Hh.
  destruct (give_back_spec (Counters (inflight c) (draining c - 1) (buffered c)) (rd_held r)) as (H1 & H2 & H3).
  cbn in H1, H2, H3.
  split; rewrite ?H1, ?H2, ?H3; destruct o' as [[]|]; cbn in *; try done; try lia.
Qed.

Lemma after_drain_moved c r d :
  phase_ok L (PReading r) ->
  moved c (Some (PReading r)) (after_drain L check c d (rd_held r)).1 (after_drain L check c d (rd_held r)).2.
Proof.
  intros Hr. destruct d as [chunks| | | |]; try (by apply stop_reading).
  unfold after_drain. destruct (check chunks) as [[reason|]|]; try (by apply stop_reading).
  unfold try_acquire, slots_full. destruct Hr as (Hh & Hb & Hle & Hmax). cbn [held_bytes] in Hh. cbn [inflight].
  destruct (Z.eqb_spec (lm_max L) 0) as [H0|H0], (Z.leb_spec (lm_max L) (inflight c)); cbn [negb andb fst snd];
    try (by apply stop_reading);
    (split; cbn; try lia; split; cbn; lia).
Qed.

(** One message of the body. *)
Lemma drain_step_moved c r m :
  phase_ok L (PReading r) ->
  match drain_step L c r m with
  | (inl r', c') => moved c (Some (PReading r)) (Some (PReading r')) c'
  | (inr (d, h), c') => exists r', h = rd_held r' /\ moved c (Some (PReading r)) (Some (PReading r')) c'
  end.
Proof.
  intros Hr. pose proof Hr as (Hh & Hb & Hle & Hmax). cbn [held_bytes] in Hh.
  assert (moved c (Some (PReading r)) (Some (PReading r)) c) as Hid by (split; cbn; try lia; done).
  destruct m as [body more|]; cbn [drain_step]; [|by exists r].
  destruct (Z.ltb_spec (lm_max_body L) (rd_total r + len body)); [by exists r|].
  destruct (hold L c (rd_held r) (rd_total r + len body)) as [[ok h] c1] eqn:E.
  apply hold_spec in E as (E1 & E2 & E3 & E4 & ->); [|done].
  destruct ok; cbn [negb]; [|exists r; split; [done|split; cbn; try lia; done]].
  set (chunks := match body with [] => rd_chunks r | _ :: _ => rd_chunks r ++ [body] end).
  assert (body_bytes chunks = rd_total r + len body) as Hc.
  { unfold chunks, body_bytes in *. destruct body; [unfold len in *; cbn [length]; lia|].
    rewrite concat_app, len_app. cbn [concat]. rewrite app_nil_r. lia. }
  pose proof (len_nonneg body).
  assert (moved c (Some (PReading r)) (Some (PReading (Reading chunks (rd_total r + len body)
            (rd_held r `max` (rd_total r + len body))))) c1) as Hm.
  { split; cbn; try lia; try done. split; cbn; [lia|]. split_and!; [done|lia|lia]. }
  destruct more; [done|]. eexists. by split; [|exact Hm].
Qed.

Lemma moved_trans c o o1 c1 o2 c2 : moved c o o1 c1 -> moved c1 o1 o2 c2 -> moved c o o2 c2.
Proof. intros [] []. split; try lia; auto. Qed.

Lemma arrive_moved c declared :
  moved c None (Some (arrive L c declared).1) (arrive L c declared).2.
Proof.
  assert (forall h, 0 <= h -> h <= Z.max 0 (lm_max_body L) -> forall c1,
    inflight c1 = inflight c -> draining c1 = draining c -> buffered c1 = buffered c + h ->
    (buffered c <= lm_max_bytes L -> buffered c1 <= lm_max_bytes L) ->
    slots_full L c || (negb (lm_max_draining L =? 0) && (lm_max_draining L <=? draining c)) = false ->
    moved c None (Some (PReading (Reading [] 0 h))) (Counters (inflight c1) (draining c1 + 1) (buffered c1))) as Hok.
  { intros h H0 Hm c1 -> -> -> Hb Hf. apply orb_false_iff in Hf as [_ Hf].
    split; cbn; try lia; try done. }
  assert (moved c None (Some (PRefusing ROUTE_GATE_CAPACITY)) c) as Href by (split; cbn; try lia; done).
  unfold arrive. destruct (slots_full L c || _) eqn:Hf; [exact Href|].
  destruct declared as [n|].
  - destruct (hold L c 0 (n `min` lm_max_body L)) as [[ok h] c1] eqn:E.
    apply hold_spec in E as (E1 & E2 & E3 & E4 & ->); [|done].
    destruct ok; cbn [negb fst snd].
    + apply Hok; try lia; done.
    + destruct (give_back_spec c1 0) as (G1 & G2 & G3). split; cbn; try lia; split; cbn; done || lia.
  - cbn [negb fst snd]. apply Hok; try lia; done.
Qed.

Lemma serving_moved c h : 0 <= h -> moved c (Some (PServing h)) None (finish_serving c h).
Proof.
  intros Hh. unfold finish_serving. destruct (give_back_spec (release c) h) as (G1 & G2 & G3). cbn in G1, G2, G3.
  split; cbn; try lia. 
Qed.

(** Whatever happens, one request moves and the counters follow it. *)
Lemma fire_moved sy i e sy' :
  limiter_inv L sy -> fire L check sy i e = Some sy' ->
  exists o', sy_requests sy' = partial_alter (fun _ => o') i (sy_requests sy) /\
             moved (sy_counters sy) (sy_requests sy !! i) o' (sy_counters sy').
Proof.
  intros Hi. unfold fire. destruct (sy_requests sy !! i) as [p|] eqn:Ei.
  - pose proof (inv_phases _ _ Hi _ _ Ei) as Hp.
    destruct p as [r|h|reason|], e as [d|m| | | |]; try done.
    + intros H. pose proof (drain_step_moved (sy_counters sy) r m Hp) as Hm.
      destruct (drain_step L (sy_counters sy) r m) as [[r'|[d h]] c1].
      * injection H as <-. by exists (Some (PReading r')).
      * destruct Hm as (r' & -> & Hm). injection H as <-. eexists. split; [reflexivity|].
        eapply moved_trans; [exact Hm|]. apply after_drain_moved. exact (mv_phase _ _ _ _ Hm).
    + intros [= <-]. eexists. split; [reflexivity|]. by apply stop_reading.
    + intros [= <-]. exists None. split; [done|]. by apply stop_reading.
    + intros [= <-]. exists None. split; [done|]. apply serving_moved. apply Hp.
    + intros [= <-]. exists None. split; [done|]. split; cbn; try lia; done.
    + intros [= <-]. exists None. split; [done|]. split; cbn; try lia; done.
  - destruct e as [d|m| | | |]; try done. pose proof (arrive_moved (sy_counters sy) d) as Hm.
    destruct (arrive L (sy_counters sy) d) as [p c1]. intros [= <-]. by exists (Some p).
Qed.

Lemma fire_inv sy i e sy' : limiter_inv L sy -> fire L check sy i e = Some sy' -> limiter_inv L sy'.
Proof.
  intros Hi Hf. destruct (fire_moved _ _ _ _ Hi Hf) as (o' & Hr & []).
  destruct Hi. split; rewrite ?Hr, ?total_alter; try lia; auto.
  intros j p. rewrite lookup_partial_alter. case_decide; [subst|by apply inv_phases0].
  intros ->. exact mv_phase0.
Qed.

Lemma reachable_inv sy : 0 <= lm_max L -> 0 <= lm_max_draining L -> 0 <= lm_max_bytes L ->
  reachable L check sy -> limiter_inv L sy.
Proof.
  intros H1 H2 H3. induction 1 as [|sy i e sy' _ IH Hf]; [|by eapply fire_inv].
  split; cbn; try done; lia.
Qed.
End Invariant.

Lemma limiter_init_ok mi grace rs md mb body L c :
  limiter_init mi grace rs md mb body = Ok (L, c) ->
  0 <= lm_max L /\ lm_max L <= lm_max_draining L /\ (lm_max L <> 0 -> lm_max_draining L <> 0) /\
  Z.max (lm_max_body L) 1 <= lm_max_bytes L /\ lm_max_body L = body /\ c = Counters 0 0 0.
Proof.
  unfold limiter_init, count_value. intros H.
  repeat (case_match; simplify_eq; cbn); repeat match goal with
  | H : (_ <=? _) = true |- _ => apply Z.leb_le in H
  | H : (_ <? _) = false |- _ => apply Z.ltb_ge in H
  end; split_and!; lia || done.
Qed.

Section Properties.
Context (mi : json) (grace rs : py_float) (md : option json) (mb : json) (body : Z) (L : limits) (c0 : counters).
Context (Hinit : limiter_init mi grace rs md mb body = Ok (L, c0)).
Context (check : list (list N) -> result unit (option str)).

(** C14: in every state that any interleaving of requests can reach, the three
    counters are what the requests hold: the slots are the requests being served
    and never more than the cap, the body reads are the requests reading and
    never more than theirs, and the buffered bytes are the sum of what each
    request holds and stay within the budget. *)
Theorem limiter_invariant sy :
  reachable L check sy ->
  inflight (sy_counters sy) = total serving (sy_requests sy) /\
  draining (sy_counters sy) = total reads (sy_requests sy) /\
  buffered (sy_counters sy) = total held_bytes (sy_requests sy) /\
  (lm_max L <> 0 -> 0 <= inflight (sy_counters sy) <= lm_max L) /\
  (lm_max L <> 0 -> 0 <= draining (sy_counters sy) <= lm_max_draining L) /\
  0 <= buffered (sy_counters sy) <= lm_max_bytes L.
Proof using Hinit.
  intros Hr. apply limiter_init_ok in Hinit as (H1 & H2 & H3 & H4 & _ & _).
  apply reachable_inv in Hr; [|lia..]. pose proof Hr as [].
  assert (0 <= total serving (sy_requests sy)) by (apply total_nonneg; intros j [] _; cbn; lia).
  assert (0 <= total reads (sy_requests sy)) by (apply total_nonneg; intros j [] _; cbn; lia).
  assert (0 <= total held_bytes (sy_requests sy)) by (apply total_nonneg; intros j p Hp; by apply inv_phases0 in Hp as [? _]).
  split_and!; try done; lia.
Qed.

(** *** Every request can end *)

Lemma drop_request sy i p :
  sy_requests sy !! i = Some p ->
  exists e sy', fire L check sy i e = Some sy' /\ sy_requests sy' = delete i (sy_requests sy).
Proof using.
  intros Hi. destruct p as [r|h|reason|].
  - eexists EReadAborted, _. unfold fire. rewrite Hi. split; [reflexivity|done].
  - eexists EServed, _. unfold fire. rewrite Hi. split; [reflexivity|done].
  - eexists EAnswered, _. unfold fire. rewrite Hi. split; [reflexivity|done].
  - eexists EAnswered, _. unfold fire. rewrite Hi. split; [reflexivity|done].
Qed.

Lemma drop_all n sy :
  size (sy_requests sy) = n -> exists es sy', run_events L check sy es = Some sy' /\ sy_requests sy' = ∅ /\ length es = n.
Proof using.
  revert sy. induction n as [|n IH]; intros sy Hn.
  - exists [], sy. split_and!; [done| |done]. by apply map_size_empty_inv.
  - destruct (map_choose (sy_requests sy)) as (i & p & Hi); [intros H; rewrite H in Hn; done|].
    destruct (drop_request _ _ _ Hi) as (e & sy1 & Hf & Hd).
    destruct (IH sy1) as (es & sy' & Hr & He & Hl); [rewrite Hd, map_size_delete_Some by done; lia|].
    exists ((i, e) :: es), sy'. cbn [run_events length]. rewrite Hf. split_and!; [done|done|by rewrite Hl].
Qed.

Lemma run_reachable es : forall sy sy', reachable L check sy -> run_events L check sy es = Some sy' -> reachable L check sy'.
Proof using.
  induction es as [|[i e] es IH]; intros sy sy' Hr; cbn [run_events]; [by intros [= <-]|].
  destruct (fire L check sy i e) as [sy1|] eqn:Hf; [|done]. apply IH. by eapply reach_fire.
Qed.

Lemma idle_counters sy : reachable L check sy -> sy_requests sy = ∅ -> sy_counters sy = Counters 0 0 0.
Proof using Hinit.
  intros Hr He. apply limiter_init_ok in Hinit as (H1 & H2 & H3 & H4 & _ & _).
  apply reachable_inv in Hr; [|lia..]. destruct Hr as [E1 E2 E3 _ _ _ _]. rewrite He, total_empty in E1, E2, E3.
  destruct (sy_counters sy). cbn in *. congruence.
Qed.

(** C15: no slot, no read and no byte is lost: from every reachable state each
    pending request can end in one event, and once all have ended the counters are
    back at zero, so that a body within the cap that arrives then is served. *)
Theorem limiter_drains sy :
  reachable L check sy ->
  exists es sy', run_events L check sy es = Some sy' /\ length es = size (sy_requests sy) /\
    sy_requests sy' = ∅ /\ sy_counters sy' = Counters 0 0 0 /\
    forall i b bs, len (b :: bs) <= body -> check [b :: bs] = Ok None ->
      exists sy2, run_events L check sy' [(i, EArrive None); (i, EMessage (HttpRequest (b :: bs) false))] = Some sy2 /\
        sy_requests sy2 !! i = Some (PServing (len (b :: bs))).
Proof using Hinit.
  intros Hr. destruct (drop_all _ sy eq_refl) as (es & sy' & Hrun & He & Hl).
  pose proof (run_reachable _ _ _ Hr Hrun) as Hr'. pose proof (idle_counters _ Hr' He) as Hc.
  exists es, sy'. split_and!; [done..|]. intros i b bs Hb Hk.
  apply limiter_init_ok in Hinit as (H1 & H2 & H3 & H4 & H5 & _). rewrite <- H5 in Hb.
  destruct sy' as [c m]. cbn in He, Hc. subst c m. pose proof (len_nonneg (b :: bs)).
  assert (slots_full L (Counters 0 0 0) = false) as Hs.
  { unfold slots_full. cbn. destruct (Z.eqb_spec (lm_max L) 0); cbn; [done|]. lia. }
  assert (negb (lm_max_draining L =? 0) && (lm_max_draining L <=? 0) = false) as Hd by lia.
  unfold run_events, fire. cbn [sy_requests sy_counters]. rewrite lookup_empty. unfold arrive.
  rewrite Hs. cbn [draining orb]. rewrite Hd. cbn [negb sy_requests sy_counters inflight draining buffered].
  rewrite lookup_insert_eq. unfold drain_step. cbn [rd_total rd_held rd_chunks]. rewrite Z.add_0_l.
  destruct (Z.ltb_spec (lm_max_body L) (len (b :: bs))); [lia|].
  unfold hold. cbn [buffered inflight draining]. rewrite Z.sub_0_r. destruct (Z.leb_spec (len (b :: bs)) 0).
  { rewrite len_cons in *. pose proof (len_nonneg bs). lia. }
  rewrite Z.add_0_l. destruct (Z.ltb_spec (lm_max_bytes L) (len (b :: bs))); [lia|]. cbn [negb app].
  unfold after_drain. rewrite Hk. unfold try_acquire, slots_full in *. cbn [inflight] in *. rewrite Hs.
  eexists. split; [reflexivity|]. cbn [sy_requests fst]. by rewrite lookup_partial_alter_eq.
Qed.
End Properties.

(** *** The body reaches the downstream *)

(** The bytes of a body: up to the first message that says it is the last. *)
Fixpoint message_bytes (ms : list (counters * message)) : list N :=
  match ms with
  | (_, HttpRequest body more) :: ms' => body ++ (if more then message_bytes ms' else [])
  | _ => []
  end.

Lemma drain_chunks L r ms chunks :
  body_bytes (rd_chunks r) = rd_total r -> drain L r ms = Some (Chunks chunks) ->
  concat chunks = concat (rd_chunks r) ++ message_bytes ms /\ body_bytes chunks <= lm_max_body L.
Proof.
  revert r. induction ms as [|[c m] ms IH]; intros r Hr; cbn [drain message_bytes]; [done|].
  destruct m as [b more|]; cbn [drain_step fst]; [|done].
  destruct (Z.ltb_spec (lm_max_body L) (rd_total r + len b)); [done|].
  destruct (hold L c (rd_held r) (rd_total r + len b)) as [[ok h] c1]. destruct ok; [|done]. cbn [negb].
  set (cs := match b with [] => rd_chunks r | _ :: _ => rd_chunks r ++ [b] end).
  assert (concat cs = concat (rd_chunks r) ++ b) as Hcs.
  { unfold cs. destruct b; [by rewrite app_nil_r|]. rewrite concat_app. cbn [concat]. by rewrite app_nil_r. }
  assert (body_bytes cs = rd_total r + len b) as Hb by (unfold body_bytes in *; rewrite Hcs, len_app; lia).
  destruct more.
  - intros Hd. apply IH in Hd as [-> Hle]; [|done]. cbn [rd_chunks]. by rewrite Hcs, <- app_assoc.
  - intros [= <-]. by rewrite Hcs, app_nil_r, Hb.
Qed.

Lemma read_body_replay n b chunks :
  (length chunks < n)%nat -> read_body n (Replay (b :: chunks) false false) = Some (concat (b :: chunks)).
Proof.
  revert n b. induction chunks as [|c chunks IH]; intros [|n] b Hn; cbn [length] in Hn; try lia.
  - cbn. by rewrite app_nil_r.
  - cbn [read_body replay_receive negb andb rp_body_done rp_disconnected rp_chunks]. rewrite IH by lia. done.
Qed.

(** what the downstream reads from the replay is the body the client sent,
    byte for byte, whatever the other requests did meanwhile, and it is within
    the body cap. *)
Theorem body_replayed L h ms chunks :
  drain L (Reading [] 0 h) ms = Some (Chunks chunks) ->
  read_body (S (length chunks)) (replay_init chunks) = Some (message_bytes ms) /\
  len (message_bytes ms) <= lm_max_body L.
Proof.
  intros Hd. apply drain_chunks in Hd as [Hc Hl]; [|done]. cbn [rd_chunks concat app] in Hc.
  unfold body_bytes in Hl. rewrite <- Hc. split; [|done]. destruct chunks as [|b chunks]; [done|].
  apply read_body_replay. cbn [length]. lia.
Qed.

(** *** Tickets *)

Record ticket_inv (t : ticket) : Prop := {
  ti_open : tk_closed t = false -> tk_runs t = [];
  ti_closed : tk_closed t = true -> tk_on_close t = [];
  ti_nodup : NoDup (tk_runs t ++ tk_on_close t);
  ti_cancelled : tk_cancelled t = true <-> tk_cancel_origin t = Some CancelClient;
}.

Lemma NoDup_snoc {A} (l : list A) x : NoDup l -> x ∉ l -> NoDup (l ++ [x]).
Proof. intros Hl Hx. apply NoDup_app. split_and!; [done|set_solver|apply NoDup_singleton]. Qed.

Lemma ticket_step_inv raises t op : ticket_inv t -> ticket_inv (ticket_step raises t op).
Proof.
  intros Hi. pose proof Hi as [H1 H2 H3 H4]. destruct op as [o|id|h|]; cbn [ticket_step].
  - unfold mark_cancelled. destruct (tk_cancel_origin t) as [|] eqn:Eo; [exact Hi|].
    split; cbn; try done. destruct o; [done|]. rewrite H4. done.
  - unfold bind_call_id. destruct (memb _ _); [exact Hi|]. by split.
  - unfold on_close. destruct (tk_closed t) eqn:Ec; [exact Hi|]. destruct (memb h (tk_on_close t)) eqn:Em; [exact Hi|].
    apply memb_false in Em. split; cbn; try done. rewrite H1 in H3 |- * by done. by apply NoDup_snoc.
  - unfold close. destruct (tk_closed t) eqn:Ec; [exact Hi|]. split; cbn; try done. by rewrite app_nil_r.
Qed.

(** over any sequence of operations on a ticket every close hook runs at most
    once, a hook that was accepted runs at the close, the client flag is set
    exactly when the client was the first to cancel, and the guardrail always has
    an id to be told. *)
Theorem ticket_hooks_once gateway_id raises ops :
  let t := foldl (ticket_step raises) (ticket_init gateway_id) ops in
  NoDup (tk_runs t) /\
  (forall hook, (on_close hook t).1 = true -> hook ∈ tk_runs (close raises (on_close hook t).2).2) /\
  (tk_cancelled t = true <-> tk_cancel_origin t = Some CancelClient) /\
  (1 <= length (request_ids t))%nat.
Proof.
  intros t. assert (ticket_inv t) as [H1 H2 H3 H4].
  { unfold t. assert (ticket_inv (ticket_init gateway_id)) as H0 by (by split; [..|constructor|]).
    clear t. revert H0. generalize (ticket_init gateway_id). induction ops as [|op ops IH]; intros t0 H0; [done|].
    cbn [foldl]. apply IH. by apply ticket_step_inv. }
  split_and!.
  - by apply NoDup_app in H3 as (? & _ & _).
  - intros h. unfold on_close, close. destruct (tk_closed t) eqn:Ec; [done|].
    destruct (memb h (tk_on_close t)) eqn:Em; cbn; [rewrite Ec; cbn; apply memb_true in Em; set_solver|set_solver].
  - apply H4.
  - unfold request_ids. destruct (tk_call_ids t); cbn; lia.
Qed.

(** *** Who ended a request being served *)

Definition is_final (e : serve_event) : bool := match e with SendBody false => true | _ => false end.
Definition is_server (e : serve_event) : bool := match e with ServerCancel => true | _ => false end.

(** A client that left before the response was complete and before the server cancelled. *)
Definition client_left (es : list serve_event) : Prop :=
  exists pre post, es = pre ++ ReceiveDisconnect :: post /\
    forallb (fun e => negb (is_final e) && negb (is_server e)) pre = true.

Lemma origin_kept s es o :
  tk_cancel_origin (sv_ticket s) = Some o -> tk_cancel_origin (sv_ticket (foldl serve_step s es)) = Some o.
Proof.
  revert s. induction es as [|e es IH]; intros s H; [done|]. cbn [foldl]. apply IH.
  destruct e as [more| | | |]; cbn [serve_step sv_ticket client_gone]; try done;
    [destruct (sv_response_complete s); [done|]|]; unfold mark_cancelled; by rewrite H.
Qed.

Lemma complete_no_client s es :
  sv_response_complete s = true -> tk_cancel_origin (sv_ticket s) = None ->
  tk_cancel_origin (sv_ticket (foldl serve_step s es)) <> Some CancelClient.
Proof.
  revert s. induction es as [|e es IH]; intros s Hc Ho; [cbn; congruence|]. cbn [foldl].
  destruct e as [more| | | |]; cbn [serve_step client_gone].
  - apply IH; cbn; [by rewrite Hc|done].
  - by apply IH.
  - apply IH; cbn; [done|by rewrite Hc].
  - by apply IH.
  - rewrite (origin_kept _ _ CancelServer); [done|]. cbn. unfold mark_cancelled. by rewrite Ho.
Qed.

Lemma client_left_cons e es :
  is_final e = false -> is_server e = false -> (client_left (e :: es) <-> e = ReceiveDisconnect \/ client_left es).
Proof.
  intros Hf Hs. split.
  - intros ([|e' pre] & post & [= -> E] & H); [by left|]. right. exists pre, post. split; [done|].
    cbn [forallb] in H. by apply andb_true_iff in H as [_ H].
  - intros [->|(pre & post & -> & H)]; [by exists [], es|]. exists (e :: pre), post. split; [done|].
    cbn [forallb]. by rewrite Hf, Hs.
Qed.

Lemma client_cancel_iff s es :
  sv_response_complete s = false -> tk_cancel_origin (sv_ticket s) = None ->
  (tk_cancel_origin (sv_ticket (foldl serve_step s es)) = Some CancelClient <-> client_left es).
Proof.
  revert s. induction es as [|e es IH]; intros s Hc Ho.
  { split; [cbn; congruence|]. intros ([] & ? & ? & _); done. }
  assert (forall pre post, is_final e || is_server e = true -> e :: es = pre ++ ReceiveDisconnect :: post ->
    forallb (fun e => negb (is_final e) && negb (is_server e)) pre = true -> False) as Hbad.
  { intros [|e' pre] post He [= -> _] H; [done|]. cbn [forallb] in H. destruct (is_final e'), (is_server e'); done. }
  cbn [foldl]. destruct e as [[]| | | |]; cbn [serve_step client_gone].
  - rewrite client_left_cons, IH by (cbn; rewrite ?Hc; done). naive_solver.
  - split; [intros H; exfalso; revert H; apply complete_no_client; cbn; [by rewrite orb_true_r|done]|].
    intros (pre & post & E & H). exfalso. by eapply Hbad.
  - rewrite client_left_cons, IH by done. naive_solver.
  - rewrite client_left_cons by done. rewrite (origin_kept _ _ CancelClient); [by split; auto|].
    cbn. rewrite Hc. unfold mark_cancelled. by rewrite Ho.
  - rewrite client_left_cons, IH by done. naive_solver.
  - rewrite (origin_kept _ _ CancelServer) by (cbn; unfold mark_cancelled; by rewrite Ho). split; [done|].
    intros (pre & post & E & H). exfalso. by eapply Hbad.
Qed.

Lemma cancelled_has_origin s es :
  (treats_as_cancelled s = true -> exists o, tk_cancel_origin (sv_ticket s) = Some o) ->
  let s' := foldl serve_step s es in treats_as_cancelled s' = true -> exists o, tk_cancel_origin (sv_ticket s') = Some o.
Proof.
  revert s. induction es as [|e es IH]; intros s Hs; [done|]. cbn [foldl]. apply IH.
  destruct (tk_cancel_origin (sv_ticket s)) as [o|] eqn:Eo.
  { intros _. exists o. exact (origin_kept s [e] o Eo). }
  assert (treats_as_cancelled s = false) as Hf.
  { destruct (treats_as_cancelled s); [|done]. by destruct Hs as (o & ?). }
  unfold treats_as_cancelled in *. destruct e as [more| | | |]; cbn [serve_step client_gone sv_replay sv_response_complete sv_ticket].
  - destruct (rp_disconnected _), (sv_response_complete s); done.
  - by rewrite Hf.
  - destruct (sv_response_complete s); cbn; [done|]. unfold mark_cancelled. rewrite Eo. cbn. eauto.
  - by rewrite Hf.
  - intros _. unfold mark_cancelled. rewrite Eo. cbn. eauto.
Qed.

(** a request is marked as cancelled by its client exactly when the client
    left before the last byte of the response was sent and before the server
    cancelled it; a disconnect after the response is complete never counts, and
    whenever the downstream is cancelled for a disconnect the ticket already says
    who did it. *)
Theorem cancel_attribution gateway_id chunks es :
  let s := foldl serve_step (Serve (ticket_init gateway_id) false (replay_init chunks)) es in
  (tk_cancel_origin (sv_ticket s) = Some CancelClient <-> client_left es) /\
  (treats_as_cancelled s = true -> exists o, tk_cancel_origin (sv_ticket s) = Some o).
Proof.
  intros s. split; [by apply client_cancel_iff|]. unfold s. apply cancelled_has_origin. by intros.
Qed.

(** ** A concrete limiter: two slots, three body reads, ten bytes *)

Definition demo_limits : limits := Limits 2 3 8 10.
Definition demo_check (chunks : list (list N)) : result unit (option str) :=
  if str_eqb (concat chunks) (u8 "bad") then Ok (Some (u8 "refused")) else Ok None.

Definition demo_events : list (nat * event) :=
  [(1%nat, EArrive (Some 4)); (2%nat, EArrive None); (1%nat, EMessage (HttpRequest (u8 "abcd") false));
   (3%nat, EArrive None); (2%nat, EMessage (HttpRequest (u8 "ba") true)); (2%nat, EMessage (HttpRequest (u8 "d") false));
   (3%nat, EMessage (HttpRequest (u8 "xy") true))].

Definition demo_system : system := default initial (run_events demo_limits demo_check initial demo_events).

Lemma demo_init :
  limiter_init (JInt 2) (Some 5%Q) (Some 30%Q) (Some (JInt 3)) (JInt 10) 8 = Ok (demo_limits, Counters 0 0 0).
Proof. reflexivity. Qed.

Lemma demo_reachable : reachable demo_limits demo_check demo_system.
Proof. eapply (run_reachable _ _ demo_events initial); [constructor|vm_compute; reflexivity]. Qed.

Lemma limiter_invariant_witness :
  sy_counters demo_system = Counters 1 1 6 /\
  inflight (sy_counters demo_system) = total serving (sy_requests demo_system).
Proof.
  split; [vm_compute; reflexivity|].
  exact (proj1 (limiter_invariant _ _ _ _ _ _ _ _ demo_init demo_check demo_system demo_reachable)).
Defined.

Lemma limiter_drains_witness :
  exists es sy', run_events demo_limits demo_check demo_system es = Some sy' /\
    length es = size (sy_requests demo_system) /\ sy_requests sy' = ∅ /\ sy_counters sy' = Counters 0 0 0.
Proof.
  destruct (limiter_drains _ _ _ _ _ _ _ _ demo_init demo_check demo_system demo_reachable)
    as (es & sy' & H1 & H2 & H3 & H4 & _).
  exists es, sy'. exact (conj H1 (conj H2 (conj H3 H4))).
Defined.

Definition demo_messages : list (counters * message) :=
  [(Counters 0 1 0, HttpRequest (u8 "ab") true); (Counters 1 2 5, HttpRequest [] true);
   (Counters 0 1 2, HttpRequest (u8 "cd") false); (Counters 0 0 0, OtherMessage)].

Lemma body_replayed_witness :
  drain demo_limits (Reading [] 0 0) demo_messages = Some (Chunks [u8 "ab"; u8 "cd"]) /\
  read_body 3 (replay_init [u8 "ab"; u8 "cd"]) = Some (message_bytes demo_messages).
Proof.
  split; [vm_compute; reflexivity|].
  exact (proj1 (body_replayed demo_limits 0 demo_messages [u8 "ab"; u8 "cd"] eq_refl)).
Defined.

Example declared_lengths :
  map declared_length [[(u8 "Content-Length", u8 " 12 ")]; [(u8 "content-length", u8 "+12")]; [];
                       [(u8 "content-length", u8 "1"); (u8 "CONTENT-LENGTH", u8 "1")]]
  = [Ok (Some 12); Ok None; Ok None; Ok None].
Proof. reflexivity. Qed.
