(* ===== verification/Tokens.v ===== *)
(** * Corporate tokens ([tokens/], [auth/rbac.py])

    A developer trades an OIDC token for a corporate token; requests carry the
    corporate token and are authenticated against the store through a cache.
    Here are the in-memory store with its issuance policy, the issuers, the
    authentication middleware with its single-flight lookup, and the operator
    check of the admin command line.  Times are microseconds; one clock stands for the
    wall clock of the rows and the monotonic clock of the cache. *)

From S2P Require Import Prelude Text Json ContentBlocks.
Local Open Scope py_scope.

(** ** Rows *)

Record token_info := TokenInfo {
  ti_corp_token : str;
  ti_user_id : str;
  ti_team_id : str;
  ti_scopes : list str;
  ti_issued_at : Z;
  ti_expires_at : Z;
  ti_revoked_at : option Z;
}.

#[global] Instance token_info_eq_dec : EqDecision token_info.
Proof. solve_decision. Defined.

(** [dataclasses.replace(info, revoked_at=...)] *)
Definition set_revoked (r : option Z) (i : token_info) : token_info :=
  TokenInfo (ti_corp_token i) (ti_user_id i) (ti_team_id i) (ti_scopes i) (ti_issued_at i) (ti_expires_at i) r.

(** ** [InMemoryTokenStore] *)

Abbreviation subject := (str * str)%type.           (* issuer, subject *)

Record token_store := TokenStore {
  st_tokens : list (str * token_info);
  st_subjects : list (str * subject);
  st_jtis : list str;
}.

Definition empty_store : token_store := TokenStore [] [] [].

Inductive issue_error := IssueReplay | IssueRate | TokenCollision.

Definition upsert (info : token_info) (st : token_store) : token_store :=
  TokenStore (dset (ti_corp_token info) info (st_tokens st)) (st_subjects st) (st_jtis st).

Definition lookup_token (tok : str) (st : token_store) : option token_info := dget tok (st_tokens st).

(** What [revoke_user] does to one row. *)
Definition revoke_row (user : str) (now : Z) (i : token_info) : token_info :=
  if str_eqb (ti_user_id i) user && bool_decide (ti_revoked_at i = None) then set_revoked (Some now) i else i.

Definition revoke_user (user : str) (now : Z) (st : token_store) : Z * token_store :=
  (len (List.filter (fun e : str * token_info =>
          str_eqb (ti_user_id e.2) user && bool_decide (ti_revoked_at e.2 = None)) (st_tokens st)),
   TokenStore (map (fun e : str * token_info => (e.1, revoke_row user now e.2)) (st_tokens st))
              (st_subjects st) (st_jtis st)).

Definition list_tokens (user : option str) (st : token_store) : list token_info :=
  List.filter (fun i => match user with None => true | Some u => str_eqb (ti_user_id i) u end) (map snd (st_tokens st)).

(** The rows of a subject. *)
Definition held_by (key : subject) (st : token_store) : list token_info :=
  omap (fun e : str * subject => if decide (e.2 = key) then lookup_token e.1 st else None) (st_subjects st).

Definition is_active (now : Z) (i : token_info) : bool :=
  bool_decide (ti_revoked_at i = None) && (now <? ti_expires_at i).

(** [(held.issued_at, held.corp_token)], compared as Python compares tuples *)
Definition age_key (i : token_info) : list Q := zk (ti_issued_at i) :: map (fun c => zk (Z.of_N c)) (ti_corp_token i).

(** [max((held.issued_at for ...), default=None)] *)
Definition latest_issue (held : list token_info) : option Z :=
  foldr (fun i acc => Some (match acc with Some m => Z.max (ti_issued_at i) m | None => ti_issued_at i end)) None held.

Definition revoke_token (now : Z) (tokens : list (str * token_info)) (i : token_info) : list (str * token_info) :=
  dset (ti_corp_token i) (set_revoked (Some now) i) tokens.

Definition issue_for_subject (info : token_info) (key : subject) (jti : str) (max_active min_interval : Z)
  (st : token_store) : result issue_error (token_info * token_store) :=
  if memb jti (st_jtis st) then Raise IssueReplay else
  let now := ti_issued_at info in
  let held := held_by key st in
  if match latest_issue held with Some l => now - l <? min_interval | None => false end then Raise IssueRate else
  match lookup_token (ti_corp_token info) st with
  | Some _ => Raise TokenCollision
  | None =>
    let active := sort_on age_key (List.filter (is_active now) held) in
    let doomed := take (Z.to_nat (Z.max 0 (len active - max_active + 1))) active in
    let tokens := foldl (revoke_token now) (st_tokens st) doomed in
    let stored := set_revoked None info in
    Ok (stored, TokenStore (dset (ti_corp_token stored) stored tokens)
                           (dset (ti_corp_token stored) key (st_subjects st)) (jti :: st_jtis st))
  end.

(** ** [TokenIssuer] and [IssuancePolicy] *)

Record oidc_claims := OidcClaims {
  oc_user_id : str;
  oc_team_id : str;
  oc_scopes : list str;
  oc_issuer : str;
  oc_subject : str;
  oc_jti : str;
}.

Inductive issuer_error :=
| OidcVerificationError (code : str)
| FromVerifier
| FromStore (e : issue_error).

Record issuance_policy := IssuancePolicy { ip_ttl : Z; ip_max_active : Z; ip_min_interval : Z }.

Definition DAY : Z := 24 * 3600 * 1000000.

(** [timedelta(days=...)], [timedelta(seconds=...)] of the settings *)
Definition policy_init (token_ttl_days max_active min_interval_seconds : Z) : issuance_policy :=
  IssuancePolicy (token_ttl_days * DAY) max_active (min_interval_seconds * 1000000).

Definition claims_info (c : oidc_claims) (corp_token : str) (now ttl : Z) : token_info :=
  TokenInfo corp_token (oc_user_id c) (oc_team_id c) (oc_scopes c) now (now + ttl) None.

Definition policy_issue (p : issuance_policy) (c : oidc_claims) (corp_token : str) (now : Z) (st : token_store)
  : result issuer_error ((str * Z) * token_store) :=
  if str_eqb (oc_issuer c) [] || str_eqb (oc_subject c) [] || str_eqb (oc_jti c) []
  then Raise (OidcVerificationError (u8 "E_OIDC_CLAIMS")) else
  match issue_for_subject (claims_info c corp_token now (ip_ttl p)) (oc_issuer c, oc_subject c) (oc_jti c)
          (ip_max_active p) (ip_min_interval p) st with
  | Raise e => Raise (FromStore e)
  | Ok (stored, st') => Ok ((ti_corp_token stored, ti_expires_at stored), st')
  end.

Definition DEFAULT_TOKEN_TTL : Z := 30 * DAY.

(** [TokenIssuer.issue]: [verifier] is the OIDC verifier the host wires up. *)
Definition issuer_issue (verifier : str -> option oidc_claims) (policy : option issuance_policy) (ttl : Z)
  (oidc_token corp_token : str) (now : Z) (st : token_store) : result issuer_error ((str * Z) * token_store) :=
  if str_eqb oidc_token [] then Raise (OidcVerificationError (u8 "missing OIDC token")) else
  match verifier oidc_token with
  | None => Raise FromVerifier
  | Some c =>
    match policy with
    | Some p => policy_issue p c corp_token now st
    | None => let info := claims_info c corp_token now ttl in
              Ok ((corp_token, ti_expires_at info), upsert info st)
    end
  end.

(** ** [AuthMiddleware] *)

Inductive auth_error := MissingToken | InvalidToken | RevokedToken | ExpiredToken.

Record auth_context := AuthContext { ac_user_id : str; ac_team_id : str; ac_scopes : list str }.

Definition validate (info : token_info) (now : Z) : result auth_error auth_context :=
  if match ti_revoked_at info with Some r => r <=? now | None => false end then Raise RevokedToken else
  if ti_expires_at info <=? now then Raise ExpiredToken else
  Ok (AuthContext (ti_user_id info) (ti_team_id info) (ti_scopes info)).

Section Headers.
Context {U : Unicode}.

Definition HEADER_LOWER : str := u8 "x-corp-auth".

Definition strip_corp_token (headers : list (str * str)) : list (str * str) :=
  List.filter (fun h : str * str => negb (str_eqb (u_lower h.1) HEADER_LOWER)) headers.

Fixpoint extract_corp_token (headers : list (str * str)) : option str :=
  match headers with
  | [] => None
  | (k, v) :: hs => if str_eqb (u_lower k) HEADER_LOWER then Some v else extract_corp_token hs
  end.
End Headers.

(** A lookup in flight: started, or the store has been read at a time and the
    answer is on its way. *)
Inductive fetch := Started | Fetched (info : option token_info) (read_at : Z).

(** The cache keeps the row and the time it was written; [ce_read] is the time
    the store was read, which the code does not keep. *)
Record cache_entry := CacheEntry { ce_info : token_info; ce_written : Z; ce_read : Z }.

Record auth_state := AuthState {
  au_now : Z;
  au_store : token_store;
  au_cache : gmap str cache_entry;
  au_inflight : gmap str fetch;
}.

Section Auth.
Context (cache_ttl : Z).

(** The first lines of [_lookup]: a cached row that is fresh enough. *)
Definition cache_hit (tok : str) (s : auth_state) : option token_info :=
  match au_cache s !! tok with
  | Some e => if au_now s - ce_written e <? cache_ttl then Some (ce_info e) else None
  | None => None
  end.

(** The rest of [_lookup] up to its await: join the lookup in flight or start one. *)
Definition begin_lookup (tok : str) (s : auth_state) : auth_state :=
  match cache_hit tok s, au_inflight s !! tok with
  | None, None => AuthState (au_now s) (au_store s) (au_cache s) (<[tok := Started]> (au_inflight s))
  | _, _ => s
  end.

(** [_fetch]: the store reads the row. *)
Definition store_read (tok : str) (s : auth_state) : auth_state :=
  match au_inflight s !! tok with
  | Some Started => AuthState (au_now s) (au_store s) (au_cache s)
                      (<[tok := Fetched (lookup_token tok (au_store s)) (au_now s)]> (au_inflight s))
  | _ => s
  end.

(** The end of [_fetch] and [_forget]: the row is cached and the task goes; every
    caller that waits gets the row. *)
Definition fetch_done (tok : str) (s : auth_state) : option (option token_info * auth_state) :=
  match au_inflight s !! tok with
  | Some (Fetched info r) =>
    Some (info, AuthState (au_now s) (au_store s)
                  (match info with Some i => <[tok := CacheEntry i (au_now s) r]> (au_cache s) | None => au_cache s end)
                  (delete tok (au_inflight s)))
  | _ => None
  end.

(** What [authenticate] answers with the row its lookup gave. *)
Definition authenticate_with (tok : str) (row : option token_info) (now : Z) : result auth_error auth_context :=
  if str_eqb tok [] then Raise MissingToken else
  match row with
  | None => Raise InvalidToken
  | Some info => validate info now
  end.
End Auth.

(** ** The operator check of the command line ([auth/rbac.py]) *)

Inductive operator_error := OperatorDenied | MissingCryptography.

Inductive jwt_result := JwtPayload (p : jdict) | JwtError | JwtNotImplemented.

Definition OPERATOR : str := u8 "gateway:operator".

(** ["gateway:operator" in roles] *)
Definition has_operator (roles : list json) : bool := memb (JStr OPERATOR) roles.

Definition has_operator_role (payload : jdict) : bool :=
  match jget (u8 "realm_access") payload with
  | JObj ra => match dget (u8 "roles") ra with Some (JList roles) => has_operator roles | _ => false end
  | _ => false
  end ||
  match jget (u8 "roles") payload with JList flat => has_operator flat | _ => false end ||
  match jget (u8 "scope") payload with JStr scope => memb OPERATOR (split_ws scope) | _ => false end.

(** [decode] is [jwt.decode] pinned to RS256 with the key, audience and issuer. *)
Definition verify_operator (decode : str -> str -> str -> str -> jwt_result) (token key audience issuer : str)
  : result operator_error unit :=
  if str_eqb token [] then Raise OperatorDenied else
  if str_eqb key [] || str_eqb audience [] || str_eqb issuer [] then Raise OperatorDenied else
  match decode token key audience issuer with
  | JwtError => Raise OperatorDenied
  | JwtNotImplemented => Raise MissingCryptography
  | JwtPayload p => if has_operator_role p then Ok tt else Raise OperatorDenied
  end.

Definition get_admin_token (cli_token : option str) (configured : option str) : str :=
  match cli_token with
  | Some (c :: t) => c :: t
  | _ => default [] configured
  end.

(** ** Theorems *)

(** *** The rows of a subject *)

(** What the operations keep: a row is filed under its own token, once, and only
    stored tokens have a subject. *)
Record store_ok (st : token_store) : Prop := {
  so_tokens : NoDup (dkeys (st_tokens st));
  so_key : forall k i, dget k (st_tokens st) = Some i -> ti_corp_token i = k;
  so_subjects : NoDup (dkeys (st_subjects st));
  so_stored : forall k key, dget k (st_subjects st) = Some key -> is_Some (dget k (st_tokens st));
}.

Lemma elem_held_by key st i :
  store_ok st -> i ∈ held_by key st <->
  dget (ti_corp_token i) (st_subjects st) = Some key /\ lookup_token (ti_corp_token i) st = Some i.
Proof.
  intros []. unfold held_by. rewrite list_elem_of_omap. split.
  - intros ([k key'] & Hk & H). cbn in H. case_decide; [subst key'|done].
    pose proof (so_key0 _ _ H) as <-. split; [by apply elem_dget|done].
  - intros [H1 H2]. exists (ti_corp_token i, key). split; [by apply dget_elem|]. cbn. by rewrite decide_True.
Qed.

Lemma held_by_same key st st' (f : token_info -> token_info) :
  st_subjects st' = st_subjects st ->
  (forall k, (k, key) ∈ st_subjects st -> lookup_token k st' = f <$> lookup_token k st) ->
  held_by key st' = map f (held_by key st).
Proof.
  unfold held_by. intros ->. induction (st_subjects st) as [|[k key'] l IH]; intros H; [done|].
  cbn [omap list_omap fst snd]. destruct (decide (key' = key)) as [->|Hk].
  - rewrite (H k) by (by left). destruct (lookup_token k st); cbn [fmap option_fmap option_map map];
      rewrite IH by (intros; apply H; by right); done.
  - apply IH. intros; apply H; by right.
Qed.

Lemma held_by_NoDup key st : store_ok st -> NoDup (held_by key st).
Proof.
  intros [_ Hk Hs _]. unfold held_by. unfold dkeys in Hs.
  induction (st_subjects st) as [|[k key'] l IH]; cbn [omap list_omap]; [constructor|].
  cbn [map fst] in Hs. apply NoDup_cons in Hs as [Hn Hs]. case_decide; [|by apply IH]. cbn [fst].
  destruct (lookup_token k st) as [i|] eqn:E; [|by apply IH]. constructor; [|by apply IH].
  rewrite list_elem_of_omap. intros ([k2 key2] & H2 & H3). cbn in H3. case_decide; [|done].
  apply Hk in E, H3. apply Hn. apply list_elem_of_fmap. exists (k2, key2). split; [cbn [fst]; congruence|done].
Qed.

(** *** Revoking some rows *)

Lemma dget_revoke_fold now l tokens k :
  dget k (foldl (revoke_token now) tokens l) =
  match List.find (fun i => str_eqb (ti_corp_token i) k) (rev l) with
  | Some i => Some (set_revoked (Some now) i)
  | None => dget k tokens
  end.
Proof.
  revert tokens. induction l as [|i l IH] using rev_ind; intros tokens; [done|].
  rewrite foldl_app, rev_app_distr. cbn [foldl rev app List.find]. unfold revoke_token at 1.
  rewrite dget_dset. destruct (str_eqb (ti_corp_token i) k) eqn:E.
  - apply str_eqb_eq in E as <-. by rewrite decide_True.
  - apply str_eqb_neq in E. rewrite decide_False by congruence. apply IH.
Qed.

(** The rows of [l] are revoked, the others stay. *)
Lemma revoke_fold_lookup now l st k :
  store_ok st -> (forall i, i ∈ l -> lookup_token (ti_corp_token i) st = Some i) ->
  dget k (foldl (revoke_token now) (st_tokens st) l) =
  (fun i => if decide (i ∈ l) then set_revoked (Some now) i else i) <$> lookup_token k st.
Proof.
  intros Hok Hl. rewrite dget_revoke_fold.
  destruct (List.find _ (rev l)) as [i|] eqn:E.
  - apply find_some in E as [Hi Hk]. apply list_elem_of_In in Hi. rewrite elem_of_rev_iff in Hi. apply str_eqb_eq in Hk as <-.
    rewrite (Hl i Hi). cbn. by rewrite decide_True.
  - unfold lookup_token. destruct (dget k (st_tokens st)) as [i|] eqn:Ek; [|done]. cbn. rewrite decide_False; [done|].
    intros Hi. pose proof (find_none _ _ E i (proj1 (list_elem_of_In _ _) (proj2 (elem_of_rev_iff _ _) Hi))) as Hf.
    apply str_eqb_neq in Hf. apply Hf. by apply (so_key _ Hok).
Qed.

Lemma set_revoked_key r i : ti_corp_token (set_revoked r i) = ti_corp_token i.
Proof. done. Qed.

Lemma revoked_not_active now t i : is_active t (set_revoked (Some now) i) = false.
Proof. done. Qed.

Lemma is_active_mono now t i : now <= t -> is_active t i = true -> is_active now i = true.
Proof. unfold is_active. intros Ht [H1 H2]%andb_true_iff. rewrite H1. cbn. lia. Qed.

(** Of a duplicate-free list, dropping the first [n] of its active rows leaves at
    most the rest of them active. *)
Lemma active_after (held doomed : list token_info) now t n :
  NoDup held -> now <= t ->
  let active := sort_on age_key (List.filter (is_active now) held) in
  doomed = take n active ->
  (length (List.filter (is_active t)
     (map (fun i => if decide (i ∈ doomed) then set_revoked (Some now) i else i) held)) <= length active - n)%nat.
Proof.
  intros Hnd Ht active ->.
  set (p := fun i => is_active now i && negb (memb i (take n active))).
  assert (length (List.filter (is_active t)
     (map (fun i => if decide (i ∈ take n active) then set_revoked (Some now) i else i) held)) <= length (List.filter p held))%nat as H1.
  { clearbody active. clear Hnd. induction held as [|i l IH]; [done|]. cbn [map List.filter]. unfold p at 1.
    unfold memb. case_decide as Hd.
    - rewrite revoked_not_active, bool_decide_eq_true_2 by done. rewrite andb_false_r. exact IH.
    - rewrite bool_decide_eq_false_2 by done. cbn [negb]. rewrite andb_true_r. destruct (is_active t i) eqn:Ea.
      + rewrite (is_active_mono _ _ _ Ht Ea). cbn [length]. lia.
      + destruct (is_active now i); cbn [length]; lia. }
  enough (length (List.filter p held) = length active - n)%nat by lia.
  unfold p. rewrite <- filter_filter_and.
  assert (forall q, List.filter q (List.filter (is_active now) held) ≡ₚ List.filter q active) as Hp.
  { intros q. unfold active. by rewrite sort_on_filter, sort_on_perm. }
  rewrite Hp.
  assert (NoDup active) as Ha.
  { unfold active. rewrite sort_on_perm. by apply NoDup_ListNoDup, List.NoDup_filter, NoDup_ListNoDup. }
  clearbody active. clear -Ha. rewrite <- (take_drop n active) in Ha. apply NoDup_app in Ha as (_ & Ha & _).
  assert (List.filter (fun i => negb (memb i (take n active))) (take n active ++ drop n active) = drop n active) as Hq.
  { rewrite List.filter_app, (filter_all_false _ (take n active)), (filter_all_true _ (drop n active)); [done| |].
    - intros x Hx. rewrite negb_true_iff. apply memb_false. intros Hi. by apply (Ha x).
    - intros x Hx. rewrite negb_false_iff. by apply memb_true. }
  rewrite take_drop in Hq. by rewrite Hq, length_drop.
Qed.

(** *** Runs of the store *)

Section Policy.
Context (max_active min_interval : Z) (Hmax : 1 <= max_active).

(** The stores that issuance by the policy, revocation, and insertion of fresh
    tokens without a subject lead to, with the time of the last operation. *)
Inductive issued : token_store -> Z -> Prop :=
| issued_empty t : issued empty_store t
| issued_issue st last info key jti stored st' :
    issued st last -> last <= ti_issued_at info ->
    issue_for_subject info key jti max_active min_interval st = Ok (stored, st') -> issued st' (ti_issued_at info)
| issued_revoke st last user now : issued st last -> last <= now -> issued (revoke_user user now st).2 now
| issued_insert st last info :
    issued st last -> lookup_token (ti_corp_token info) st = None -> issued (upsert info st) last.

Definition active_count (key : subject) (t : Z) (st : token_store) : Z := len (List.filter (is_active t) (held_by key st)).

Record policy_inv (st : token_store) (last : Z) : Prop := {
  pi_ok : store_ok st;
  pi_active : forall key t, last <= t -> active_count key t st <= max_active;
  pi_jtis : NoDup (st_jtis st);
  pi_spaced : forall key i j, i ∈ held_by key st -> j ∈ held_by key st -> i <> j ->
                min_interval <= Z.abs (ti_issued_at i - ti_issued_at j);
}.

Lemma dkeys_map_values {A B} (f : A -> B) (d : list (str * A)) : dkeys (map (fun e : str * A => (e.1, f e.2)) d) = dkeys d.
Proof. unfold dkeys. rewrite map_map. done. Qed.

Lemma dget_map_values {A B} (f : A -> B) k (d : list (str * A)) :
  dget k (map (fun e : str * A => (e.1, f e.2)) d) = f <$> dget k d.
Proof. induction d as [|[k' v] d IH]; [done|]. cbn. by case_decide. Qed.

Lemma latest_issue_ge held i : i ∈ held -> exists l, latest_issue held = Some l /\ ti_issued_at i <= l.
Proof.
  unfold latest_issue. induction 1 as [i l|i j l Hi (m & IH & Hm)]; cbn [foldr].
  - destruct (foldr _ None l); eexists; (split; [reflexivity|lia]).
  - rewrite IH. eexists. split; [reflexivity|lia].
Qed.

Lemma dkeys_foldl_revoke now l tokens :
  (forall i, i ∈ l -> is_Some (dget (ti_corp_token i) tokens)) -> dkeys (foldl (revoke_token now) tokens l) = dkeys tokens.
Proof.
  revert tokens. induction l as [|i l IH]; intros tokens H; [done|]. cbn [foldl]. unfold revoke_token at 2.
  assert (ti_corp_token i ∈ dkeys tokens) as Hi.
  { destruct (H i ltac:(by left)) as [v Hv]. apply dget_elem in Hv. apply list_elem_of_fmap. by exists (ti_corp_token i, v). }
  rewrite IH; [by rewrite dkeys_dset, decide_True|].
  intros j Hj. rewrite dget_dset. case_decide; [by eexists|]. apply H. by right.
Qed.

(** What a successful issuance does to the rows. *)
Record issuance (info : token_info) (key : subject) (st : token_store) (st' : token_store) : Prop := {
  is_ok_store : store_ok st';
  is_own : exists doomed,
    doomed = take (Z.to_nat (Z.max 0 (len (sort_on age_key (List.filter (is_active (ti_issued_at info)) (held_by key st))) - max_active + 1)))
               (sort_on age_key (List.filter (is_active (ti_issued_at info)) (held_by key st))) /\
    held_by key st' = map (fun i => if decide (i ∈ doomed) then set_revoked (Some (ti_issued_at info)) i else i) (held_by key st)
                      ++ [set_revoked None info];
  is_others : forall key', key' <> key -> held_by key' st' = held_by key' st;
}.

Lemma held_by_snoc key k key0 tokens subs jtis :
  held_by key (TokenStore tokens (subs ++ [(k, key0)]) jtis) =
  held_by key (TokenStore tokens subs jtis) ++
  (if decide (key0 = key) then match dget k tokens with Some i => [i] | None => [] end else []).
Proof.
  unfold held_by. cbn [st_subjects]. rewrite omap_app. f_equal. cbn [omap list_omap fst snd].
  case_decide; [|done]. unfold lookup_token. cbn [st_tokens]. by destruct (dget k tokens).
Qed.

Lemma issue_effect info key jti stored st st' :
  store_ok st -> issue_for_subject info key jti max_active min_interval st = Ok (stored, st') ->
  issuance info key st st' /\ stored = set_revoked None info /\ memb jti (st_jtis st) = false /\
  st_jtis st' = jti :: st_jtis st /\
  match latest_issue (held_by key st) with Some l => ti_issued_at info - l <? min_interval | None => false end = false /\
  lookup_token (ti_corp_token info) st' = Some (set_revoked None info).
Proof.
  intros Hok. unfold issue_for_subject. destruct (memb jti (st_jtis st)) eqn:Hj; [done|].
  set (now := ti_issued_at info). set (held := held_by key st).
  destruct (match latest_issue held with Some l => now - l <? min_interval | None => false end) eqn:Hrate; [done|].
  destruct (lookup_token (ti_corp_token info) st) eqn:Hcol; [done|].
  set (active := sort_on age_key (List.filter (is_active now) held)).
  set (doomed := take (Z.to_nat (Z.max 0 (len active - max_active + 1))) active).
  set (tokens := foldl (revoke_token now) (st_tokens st) doomed).
  intros [= <- <-]. cbn [ti_corp_token set_revoked st_jtis].
  assert (forall i, i ∈ doomed -> i ∈ held) as Hdh.
  { intros i Hi. unfold doomed, active in Hi. apply elem_of_take in Hi as (n & Hi & _). apply list_elem_of_lookup_2 in Hi.
    rewrite elem_of_sort_on, elem_of_lfilter in Hi. apply Hi. }
  assert (forall i, i ∈ doomed -> lookup_token (ti_corp_token i) st = Some i) as Hdl.
  { intros i Hi%Hdh. by apply elem_held_by in Hi as [_ Hi]. }
  assert (forall k, dget k tokens = (fun i => if decide (i ∈ doomed) then set_revoked (Some now) i else i) <$> lookup_token k st) as Htok
    by (intros; by apply revoke_fold_lookup).
  assert (dkeys tokens = dkeys (st_tokens st)) as Hkeys.
  { apply dkeys_foldl_revoke. intros i Hi. eexists. by apply Hdl. }
  assert (dget (ti_corp_token info) tokens = None) as Hnone by (by rewrite Htok, Hcol).
  assert (dget (ti_corp_token info) (st_subjects st) = None) as Hsub.
  { destruct (dget (ti_corp_token info) (st_subjects st)) eqn:E; [|done]. apply (so_stored _ Hok) in E as [v Hv].
    unfold lookup_token in Hcol. congruence. }
  assert (dset (ti_corp_token info) key (st_subjects st) = st_subjects st ++ [(ti_corp_token info, key)]) as Hs by (by apply dset_fresh).
  assert (forall k, k <> ti_corp_token info ->
     dget k (dset (ti_corp_token info) (set_revoked None info) tokens) = dget k tokens) as Hne by (intros; by apply dget_dset_ne).
  assert (forall key', held_by key' (TokenStore (dset (ti_corp_token info) (set_revoked None info) tokens)
              (st_subjects st) (jti :: st_jtis st)) =
            map (fun i => if decide (i ∈ doomed) then set_revoked (Some now) i else i) (held_by key' st)) as Hheld.
  { intros key'. apply held_by_same; [done|]. intros k Hk. cbn [lookup_token st_tokens].
    unfold lookup_token at 1. cbn [st_tokens]. rewrite Hne; [apply Htok|]. intros ->.
    apply dget_None in Hsub. apply Hsub. apply list_elem_of_fmap. by exists (ti_corp_token info, key'). }
  split_and!; [|done|done|done|done|unfold lookup_token; cbn; by rewrite dget_dset_eq].
  rewrite Hs. split.
  - split; cbn [st_tokens st_subjects].
    + apply dset_NoDup. rewrite Hkeys. apply Hok.
    + intros k i. rewrite dget_dset. case_decide as Hk; [intros [= <-]; by subst|].
      rewrite Htok. intros H. destruct (lookup_token k st) as [i0|] eqn:E; [|done]. injection H as <-.
      apply (so_key _ Hok) in E. by case_decide.
    + rewrite <- Hs. apply dset_NoDup, Hok.
    + intros k key'. rewrite <- Hs, !dget_dset. case_decide; [by eexists|]. intros Hst%(so_stored _ Hok).
      rewrite Htok. unfold lookup_token. destruct Hst as [v ->]. by eexists.
  - exists doomed. split; [done|]. rewrite held_by_snoc, Hheld, dget_dset_eq, decide_True by done. done.
  - intros key' Hk. rewrite held_by_snoc, Hheld, decide_False by done. rewrite app_nil_r.
    erewrite map_ext_in; [apply map_id|]. intros i Hi. rewrite decide_False; [done|]. intros Hd%Hdh.
    apply list_elem_of_In in Hi. apply elem_held_by in Hd as [Hd _]; [|done]. apply elem_held_by in Hi as [Hi _]; [|done]. congruence.
Qed.

Lemma revoke_store_ok user now st : store_ok st -> store_ok (revoke_user user now st).2.
Proof using.
  intros [S1 S2 S3 S4]. split; cbn [revoke_user snd st_tokens st_subjects].
  - by rewrite (dkeys_map_values (revoke_row user now)).
  - intros k i. rewrite (dget_map_values (revoke_row user now)). destruct (dget k _) eqn:Ek; [|done].
    intros [= <-]. apply S2 in Ek. unfold revoke_row. by case_match.
  - done.
  - intros k key Hk%S4. rewrite (dget_map_values (revoke_row user now)). destruct Hk as [v ->]. by eexists.
Qed.

Lemma insert_store_ok info st : store_ok st -> store_ok (upsert info st).
Proof using.
  intros [S1 S2 S3 S4]. split; cbn [upsert st_tokens st_subjects].
  - by apply dset_NoDup.
  - intros k i. rewrite dget_dset. case_decide; [intros [= <-]; done|apply S2].
  - done.
  - intros k key Hs. rewrite dget_dset. case_decide; [by eexists|by eapply S4].
Qed.

(** A change of rows that keeps issue times and reactivates none. *)
Lemma mapped_inv st st' last last' (f : token_info -> token_info) :
  policy_inv st last -> store_ok st' -> last <= last' -> st_jtis st' = st_jtis st ->
  (forall key, held_by key st' = map f (held_by key st)) ->
  (forall i, ti_issued_at (f i) = ti_issued_at i) ->
  (forall t i, is_active t (f i) = true -> is_active t i = true) -> policy_inv st' last'.
Proof using.
  intros [H1 H2 H3 H4] Hok Hle Hj Hh Hf Ha. split; [done| |by rewrite Hj|].
  - intros key t Ht. etrans; [|apply (H2 key t); lia]. unfold active_count. rewrite Hh. clear -Ha.
    induction (held_by key st) as [|i l IH]; [done|]. cbn [map List.filter].
    destruct (is_active t (f i)) eqn:E; [rewrite (Ha _ _ E)|destruct (is_active t i)]; rewrite ?len_cons; lia.
  - intros key i j. rewrite Hh. intros (i0 & -> & Hi)%list_elem_of_fmap (j0 & -> & Hj0)%list_elem_of_fmap Hne.
    rewrite !Hf. apply (H4 key); [done..|]. congruence.
Qed.

Lemma issue_inv info key jti stored st st' last :
  policy_inv st last -> last <= ti_issued_at info ->
  issue_for_subject info key jti max_active min_interval st = Ok (stored, st') -> policy_inv st' (ti_issued_at info).
Proof using Hmax.
  intros [H1 H2 H3 H4] Hle H. apply issue_effect in H as ([Hok (doomed & Hd & Hown) Hoth] & _ & Hj & Hj' & Hrate & _); [|done].
  split; [done| | |].
  - intros key' t Ht. destruct (decide (key' = key)) as [->|Hne].
    + unfold active_count. rewrite Hown, List.filter_app, len_app.
      pose proof (active_after (held_by key st) doomed (ti_issued_at info) t _ (held_by_NoDup _ _ H1) Ht Hd) as Hl.
      set (active := sort_on age_key (List.filter (is_active (ti_issued_at info)) (held_by key st))) in *.
      assert (len (List.filter (is_active t) [set_revoked None info]) <= 1) as Hn.
      { cbn [List.filter]. destruct (is_active t (set_revoked None info)); unfold len; cbn [length]; lia. }
      unfold len in *. lia.
    + unfold active_count. rewrite Hoth by done. apply H2. lia.
  - rewrite Hj'. constructor; [by apply memb_false|done].
  - intros key' i j Hi Hj0 Hne. destruct (decide (key' = key)) as [->|Hk];
      [|rewrite Hoth in Hi, Hj0 by done; by apply (H4 key')].
    rewrite Hown in Hi, Hj0. apply elem_of_app in Hi, Hj0.
    assert (forall x, x ∈ held_by key st -> min_interval <= Z.abs (ti_issued_at info - ti_issued_at x)) as Hnew.
    { intros x Hx. destruct (latest_issue_ge _ _ Hx) as (l & El & Hl). rewrite El in Hrate. lia. }
    assert (forall x : token_info, ti_issued_at (if decide (x ∈ doomed) then set_revoked (Some (ti_issued_at info)) x else x)
              = ti_issued_at x) as Hf by (intros; by case_decide).
    destruct Hi as [(i0 & -> & Hi)%list_elem_of_fmap|Hi%list_elem_of_singleton],
             Hj0 as [(j0 & -> & Hj0)%list_elem_of_fmap|Hj0%list_elem_of_singleton]; rewrite ?Hf.
    + apply (H4 key); [done..|]. intros ->. by apply Hne.
    + subst j. cbn. specialize (Hnew i0 Hi). lia.
    + subst i. cbn. by apply Hnew.
    + congruence.
Qed.

Lemma issued_inv st last : issued st last -> policy_inv st last.
Proof using Hmax.
  induction 1 as [t|st last info key jti stored st' _ IH Hle H|st last user now _ IH Hle|st last info _ IH Hn].
  - split; [split; cbn; (constructor || done)| |constructor|cbn; set_solver]. intros key t' _. change (0 <= max_active). lia.
  - by eapply issue_inv.
  - eapply (mapped_inv _ _ _ _ (revoke_row user now) IH); [|done|done| | |].
    + apply revoke_store_ok, (pi_ok _ _ IH).
    + intros key. apply held_by_same; [done|]. intros k _. apply (dget_map_values (revoke_row user now)).
    + intros i. unfold revoke_row. by case_match.
    + intros t i. unfold revoke_row. by case_match.
  - assert (forall k v, dget k (st_subjects st) = Some v -> k <> ti_corp_token info) as Hk.
    { intros k v Hk ->. apply (so_stored _ (pi_ok _ _ IH)) in Hk as [i Hi]. unfold lookup_token in Hn. congruence. }
    eapply (mapped_inv _ _ _ _ (fun i => i) IH); [|done|done| |done|done].
    + apply insert_store_ok, (pi_ok _ _ IH).
    + intros key. apply held_by_same; [done|]. intros k Hin. unfold lookup_token. cbn [upsert st_tokens].
      rewrite dget_dset_ne; [by destruct (dget k (st_tokens st))|].
      eapply Hk, elem_dget; [apply (pi_ok _ _ IH)|done].
Qed.

(** C18: the issuance policy holds in every store that issuance, revocation and
    insertion lead to, with a clock that does not go back: a subject never has
    more than [max_active] tokens that are neither revoked nor expired, two of its
    tokens were issued at least [min_interval] apart, and no [jti] minted twice. *)
Theorem issuance_policy_holds st last key t i j :
  issued st last -> last <= t ->
  active_count key t st <= max_active /\ NoDup (st_jtis st) /\
  (i ∈ held_by key st -> j ∈ held_by key st -> i <> j -> min_interval <= Z.abs (ti_issued_at i - ti_issued_at j)).
Proof using Hmax.
  intros Hi Ht. apply issued_inv in Hi as [H1 H2 H3 H4]. split_and!; [by apply H2|done|by apply H4].
Qed.
End Policy.

(** *** How long a revoked token is still accepted *)

(** What the store operations do to a row that is there: nothing, or revoke it now. *)
Definition evolves (now : Z) (st st' : token_store) : Prop :=
  forall tok i, lookup_token tok st = Some i ->
    lookup_token tok st' = Some i \/
    ti_revoked_at i = None /\ lookup_token tok st' = Some (set_revoked (Some now) i).

Definition revoked_by (now : Z) (st : token_store) : Prop :=
  forall tok i v, lookup_token tok st = Some i -> ti_revoked_at i = Some v -> v <= now.

Lemma revoke_evolves user now st : evolves now st (revoke_user user now st).2.
Proof.
  intros tok i H. unfold lookup_token in *. cbn [revoke_user snd st_tokens].
  rewrite (dget_map_values (revoke_row user now)), H. cbn. unfold revoke_row.
  destruct (str_eqb _ _ && _) eqn:E; [right|by left]. apply andb_true_iff in E as [_ E]. by apply bool_decide_eq_true in E.
Qed.

Lemma issue_evolves info key jti ma mi stored st st' :
  store_ok st -> issue_for_subject info key jti ma mi st = Ok (stored, st') -> evolves (ti_issued_at info) st st'.
Proof.
  intros Hok H tok i Hl. unfold issue_for_subject in H. destruct (memb jti _); [done|].
  destruct (match latest_issue _ with Some _ => _ | None => _ end); [done|].
  destruct (lookup_token (ti_corp_token info) st) eqn:Hcol; [done|]. injection H as <- <-.
  unfold lookup_token. cbn [st_tokens set_revoked ti_corp_token].
  assert (tok <> ti_corp_token info) as Hne by congruence. rewrite !dget_dset_ne by done.
  set (doomed := take _ _).
  assert (forall j, j ∈ doomed -> j ∈ held_by key st /\ is_active (ti_issued_at info) j = true) as Hd.
  { intros j Hj. unfold doomed in Hj. apply elem_of_take in Hj as (n & Hj & _). apply list_elem_of_lookup_2 in Hj.
    by rewrite elem_of_sort_on, elem_of_lfilter in Hj. }
  rewrite revoke_fold_lookup; [|done|intros j [Hj _]%Hd; by apply elem_held_by in Hj as [_ Hj]].
  rewrite Hl. cbn. case_decide as Hi; [right|by left]. split; [|done].
  apply Hd in Hi as [_ Hi]. unfold is_active in Hi. apply andb_true_iff in Hi as [Hi _]. by apply bool_decide_eq_true in Hi.
Qed.

(** The one new row of an issuance. *)
Lemma issue_new_row info key jti ma mi stored st st' tok i :
  issue_for_subject info key jti ma mi st = Ok (stored, st') ->
  store_ok st -> lookup_token tok st = None -> lookup_token tok st' = Some i -> ti_revoked_at i = None.
Proof.
  intros H Hok Hn Hl. unfold issue_for_subject in H. destruct (memb jti _); [done|].
  destruct (match latest_issue _ with Some _ => _ | None => _ end); [done|].
  destruct (lookup_token (ti_corp_token info) st) eqn:Hcol; [done|]. injection H as <- <-.
  unfold lookup_token in Hl. cbn [st_tokens set_revoked ti_corp_token] in Hl. rewrite dget_dset in Hl.
  case_decide; [by injection Hl as <-|]. rewrite revoke_fold_lookup, Hn in Hl; [done|done|].
  intros j Hj. apply elem_of_take in Hj as (n & Hj & _). apply list_elem_of_lookup_2 in Hj.
  rewrite elem_of_sort_on, elem_of_lfilter in Hj. destruct Hj as [Hj _]. by apply elem_held_by in Hj as [_ Hj].
Qed.

Lemma insert_evolves info now st : lookup_token (ti_corp_token info) st = None -> evolves now st (upsert info st).
Proof.
  intros Hn tok i Hl. left. unfold lookup_token in *. cbn [upsert st_tokens]. rewrite dget_dset_ne; [done|]. congruence.
Qed.

Section Lag.
Context (cache_ttl delta : Z).

Definition with_store (st : token_store) (s : auth_state) : auth_state :=
  AuthState (au_now s) st (au_cache s) (au_inflight s).

(** One thing happens: time passes, the store changes, or a lookup advances.
    [delta] is how long an answer of the store takes to be cached at most. *)
Inductive auth_step : auth_state -> auth_state -> Prop :=
| auth_tick s dt : 0 <= dt -> auth_step s (AuthState (au_now s + dt) (au_store s) (au_cache s) (au_inflight s))
| auth_revoke s user : auth_step s (with_store (revoke_user user (au_now s) (au_store s)).2 s)
| auth_issue s info key jti ma mi stored st' :
    ti_issued_at info = au_now s -> issue_for_subject info key jti ma mi (au_store s) = Ok (stored, st') ->
    auth_step s (with_store st' s)
| auth_insert s info :
    lookup_token (ti_corp_token info) (au_store s) = None -> ti_revoked_at info = None ->
    auth_step s (with_store (upsert info (au_store s)) s)
| auth_begin s tok : auth_step s (begin_lookup cache_ttl tok s)
| auth_read s tok : auth_step s (store_read tok s)
| auth_done s tok row r s' :
    au_inflight s !! tok = Some (Fetched row r) -> au_now s - r <= delta ->
    fetch_done tok s = Some (row, s') -> auth_step s s'.

Inductive auth_reach : auth_state -> Prop :=
| auth_start now st : store_ok st -> revoked_by now st -> auth_reach (AuthState now st ∅ ∅)
| auth_next s s' : auth_reach s -> auth_step s s' -> auth_reach s'.

(** A row read at [r]: the store still has it, or revoked it later. *)
Definition seen_at (st : token_store) (tok : str) (i : token_info) (r : Z) : Prop :=
  exists cur, lookup_token tok st = Some cur /\
    (cur = i \/ ti_revoked_at i = None /\ exists v, r <= v /\ cur = set_revoked (Some v) i).

Record auth_inv (s : auth_state) : Prop := {
  ai_store : store_ok (au_store s);
  ai_revoked : revoked_by (au_now s) (au_store s);
  ai_cache : forall tok e, au_cache s !! tok = Some e ->
    seen_at (au_store s) tok (ce_info e) (ce_read e) /\ ce_read e <= ce_written e <= au_now s /\ ce_written e - ce_read e <= delta;
  ai_inflight : forall tok i r, au_inflight s !! tok = Some (Fetched (Some i) r) ->
    seen_at (au_store s) tok i r /\ r <= au_now s;
}.

Lemma seen_evolves now st st' tok i r :
  evolves now st st' -> r <= now -> seen_at st tok i r -> seen_at st' tok i r.
Proof using.
  intros He Hr (cur & Hl & [->|(Hn & v & Hv & ->)]); destruct (He _ _ Hl) as [H|[H1 H2]].
  - exists i. auto.
  - exists (set_revoked (Some now) i). split; [done|]. right. eauto.
  - eexists. split; [exact H|]. right. eauto.
  - done.
Qed.

Lemma store_change_inv s st' :
  auth_inv s -> store_ok st' -> evolves (au_now s) (au_store s) st' -> revoked_by (au_now s) st' ->
  auth_inv (with_store st' s).
Proof using.
  intros [H1 H2 H3 H4] Hok He Hr. split; cbn; [done|done| |].
  - intros tok e Ht. destruct (H3 _ _ Ht) as (Hs & Hw & Hd). split_and!; [|lia..].
    eapply seen_evolves; [exact He|lia|done].
  - intros tok i r Ht. destruct (H4 _ _ _ Ht) as [Hs Hn]. split; [|done]. by eapply seen_evolves.
Qed.

(** New rows are not revoked, and revocations happen now. *)
Lemma evolves_revoked now st st' :
  evolves now st st' -> revoked_by now st ->
  (forall tok i, lookup_token tok st = None -> lookup_token tok st' = Some i -> ti_revoked_at i = None) -> revoked_by now st'.
Proof using.
  intros He Hr Hn tok i v Hl Hv. destruct (lookup_token tok st) as [j|] eqn:E.
  - destruct (He _ _ E) as [H|[_ H]]; rewrite H in Hl; injection Hl as <-; [by eapply Hr|]. cbn in Hv. by injection Hv as <-.
  - apply Hn in Hl; [congruence|done].
Qed.

Lemma auth_step_inv s s' : auth_inv s -> auth_step s s' -> auth_inv s'.
Proof using.
  intros Hi Hst. pose proof Hi as [H1 H2 H3 H4].
  destruct Hst as [s dt Hdt|s user|s info key jti ma mi stored st' Ht H|s info Hn Hr|s tok|s tok|s tok row r s' Hf Hd H].
  - split; cbn; [done| | |].
    + intros tok i v Hl Hv. pose proof (H2 _ _ _ Hl Hv). lia.
    + intros tok e He. destruct (H3 _ _ He) as (? & ? & ?). split_and!; done || lia.
    + intros tok i r He. destruct (H4 _ _ _ He) as (? & ?). split; [done|lia].
  - apply store_change_inv; [done| |apply revoke_evolves|].
    + by apply revoke_store_ok.
    + eapply evolves_revoked; [apply revoke_evolves|done|]. intros tok i Hn Hl. unfold lookup_token in *.
      cbn [revoke_user snd st_tokens] in Hl. rewrite (dget_map_values (revoke_row user (au_now s))), Hn in Hl. done.
  - pose proof (issue_evolves _ _ _ _ _ _ _ _ H1 H) as He. rewrite Ht in He.
    pose proof (issue_effect _ _ _ _ _ _ _ _ H1 H) as ([Hok _ _] & -> & _ & _ & _ & Hnew).
    apply store_change_inv; [done|done|done|]. eapply evolves_revoked; [exact He|done|].
    intros tok i Hn Hl. by eapply issue_new_row.
  - apply store_change_inv; [done|by apply insert_store_ok|by apply insert_evolves|].
    eapply evolves_revoked; [by apply insert_evolves|done|]. intros tok i Hno Hl. unfold lookup_token in *.
    cbn [upsert st_tokens] in Hl. rewrite dget_dset in Hl. case_decide; [by injection Hl as <-|congruence].
  - unfold begin_lookup. destruct (cache_hit cache_ttl tok s); [done|]. destruct (au_inflight s !! tok); [done|].
    split; cbn; [done..|]. intros tok' i r Hl. destruct (decide (tok' = tok)) as [->|Hne].
    + by rewrite lookup_insert_eq in Hl.
    + rewrite lookup_insert_ne in Hl by done. by eapply H4.
  - unfold store_read. destruct (au_inflight s !! tok) as [[|]|] eqn:E; [|done..].
    split; cbn; [done..|]. intros tok' i r Hl. destruct (decide (tok' = tok)) as [->|Hne].
    + rewrite lookup_insert_eq in Hl. injection Hl as Hl <-. split; [|lia]. exists i. auto.
    + rewrite lookup_insert_ne in Hl by done. by eapply H4.
  - unfold fetch_done in H. rewrite Hf in H. injection H as <-. split; cbn; [done|done| |].
    + intros tok' e Hl. destruct row as [i|]; [|by eapply H3]. destruct (decide (tok' = tok)) as [->|Hne].
      * rewrite lookup_insert_eq in Hl. injection Hl as <-. cbn. destruct (H4 _ _ _ Hf) as [Hs Hr]. split_and!; done || lia.
      * rewrite lookup_insert_ne in Hl by done. by eapply H3.
    + intros tok' i r' Hl. apply lookup_delete_Some in Hl as [_ Hl]. by eapply H4.
Qed.

Lemma auth_reach_inv s : auth_reach s -> auth_inv s.
Proof using.
  induction 1 as [now st Hok Hr|s s' _ IH Hst]; [|by eapply auth_step_inv]. split; cbn; [done|done|..]; intros *; by rewrite lookup_empty.
Qed.

(** A row accepted at [now] that the store has revoked at [v] was read before [v]. *)
Lemma accepted_read st tok i r now cur v ctx :
  seen_at st tok i r -> lookup_token tok st = Some cur -> ti_revoked_at cur = Some v -> v <= now ->
  validate i now = Ok ctx -> r <= v.
Proof using.
  intros (cur' & Hl & Hc) Hl' Hv Hle Hok. rewrite Hl' in Hl. injection Hl as <-.
  destruct Hc as [->|(_ & v' & Hr & ->)]; [|cbn in Hv; by injection Hv as ->].
  unfold validate in Hok. rewrite Hv in Hok. destruct (Z.leb_spec v now); [done|lia].
Qed.

(** C19: a token that was revoked at [v] is accepted no longer than the cache time
    plus the latency of the store: from the cache only before [v + delta + ttl],
    from a lookup in flight only up to [v + delta]. *)
Theorem revocation_lag s tok cur v ctx :
  auth_reach s -> lookup_token tok (au_store s) = Some cur -> ti_revoked_at cur = Some v ->
  (forall i, cache_hit cache_ttl tok s = Some i -> authenticate_with tok (Some i) (au_now s) = Ok ctx ->
     au_now s < v + delta + cache_ttl) /\
  (forall i r s', au_inflight s !! tok = Some (Fetched (Some i) r) -> au_now s - r <= delta ->
     fetch_done tok s = Some (Some i, s') -> authenticate_with tok (Some i) (au_now s) = Ok ctx ->
     au_now s <= v + delta).
Proof using.
  intros Hr Hl Hv. apply auth_reach_inv in Hr as [H1 H2 H3 H4]. pose proof (H2 _ _ _ Hl Hv) as Hle. split.
  - intros i Hh Ha. unfold cache_hit in Hh. destruct (au_cache s !! tok) as [e|] eqn:E; [|done].
    destruct (Z.ltb_spec (au_now s - ce_written e) cache_ttl); [|done]. injection Hh as <-.
    destruct (H3 _ _ E) as (Hs & Hw & Hd). unfold authenticate_with in Ha. destruct (str_eqb tok []); [done|].
    pose proof (accepted_read _ _ _ _ _ _ _ _ Hs Hl Hv Hle Ha). lia.
  - intros i r s' Hf Hd _ Ha. destruct (H4 _ _ _ Hf) as [Hs Hn]. unfold authenticate_with in Ha.
    destruct (str_eqb tok []); [done|]. pose proof (accepted_read _ _ _ _ _ _ _ _ Hs Hl Hv Hle Ha). lia.
Qed.
End Lag.

(** ** A concrete store *)

Definition demo_key : subject := (u8 "iss", u8 "sub").
Definition demo_info (tok : str) (now : Z) : token_info := TokenInfo tok (u8 "u") (u8 "team") [] now (now + 1000) None.
Definition issued_store (r : result issue_error (token_info * token_store)) : token_store :=
  match r with Ok (_, st) => st | Raise _ => empty_store end.
Definition demo_issue (tok jti : str) (now : Z) (st : token_store) : result issue_error (token_info * token_store) :=
  issue_for_subject (demo_info tok now) demo_key jti 2 10 st.

Definition demo_st1 : token_store := issued_store (demo_issue (u8 "t1") (u8 "j1") 0 empty_store).
Definition demo_st2 : token_store := issued_store (demo_issue (u8 "t2") (u8 "j2") 10 demo_st1).
Definition demo_st3 : token_store := issued_store (demo_issue (u8 "t3") (u8 "j3") 20 demo_st2).

Lemma demo_issued : issued 2 10 demo_st3 20.
Proof.
  apply (issued_issue 2 10 demo_st2 10 (demo_info (u8 "t3") 20) demo_key (u8 "j3") (demo_info (u8 "t3") 20)); [|done|vm_compute; reflexivity].
  apply (issued_issue 2 10 demo_st1 0 (demo_info (u8 "t2") 10) demo_key (u8 "j2") (demo_info (u8 "t2") 10)); [|done|vm_compute; reflexivity].
  apply (issued_issue 2 10 empty_store 0 (demo_info (u8 "t1") 0) demo_key (u8 "j1") (demo_info (u8 "t1") 0)); [|done|vm_compute; reflexivity].
  constructor.
Qed.

Lemma issuance_policy_holds_witness :
  map (fun e : str * token_info => (e.1, ti_revoked_at e.2)) (st_tokens demo_st3)
    = [(u8 "t1", Some 20); (u8 "t2", None); (u8 "t3", None)] /\
  active_count demo_key 25 demo_st3 <= 2.
Proof.
  split; [vm_compute; reflexivity|].
  refine (proj1 (issuance_policy_holds 2 10 _ demo_st3 20 demo_key 25 (demo_info [] 0) (demo_info [] 0) demo_issued _)); done.
Defined.

(** The policy refuses a repeated [jti] and an issuance that comes too early. *)
Example demo_refused :
  demo_issue (u8 "t4") (u8 "j3") 40 demo_st3 = Raise IssueReplay /\
  demo_issue (u8 "t4") (u8 "j4") 29 demo_st3 = Raise IssueRate.
Proof. split; vm_compute; reflexivity. Qed.

(** A token is looked up, cached, and revoked while it is cached. *)
Definition demo_auth0 : auth_state := AuthState 100 demo_st3 ∅ ∅.
Definition demo_auth1 : auth_state := store_read (u8 "t3") (begin_lookup 60 (u8 "t3") demo_auth0).
Definition demo_auth2 : auth_state := match fetch_done (u8 "t3") demo_auth1 with Some (_, s) => s | None => demo_auth0 end.
Definition demo_auth3 : auth_state := with_store (revoke_user (u8 "u") (au_now demo_auth2) (au_store demo_auth2)).2 demo_auth2.
Definition demo_auth4 : auth_state := AuthState (au_now demo_auth3 + 59) (au_store demo_auth3) (au_cache demo_auth3) (au_inflight demo_auth3).

Lemma demo_auth_reach : auth_reach 60 0 demo_auth4.
Proof.
  apply (auth_next _ _ demo_auth3); [|by apply auth_tick].
  apply (auth_next _ _ demo_auth2); [|apply auth_revoke].
  apply (auth_next _ _ demo_auth1).
  - apply (auth_next _ _ (begin_lookup 60 (u8 "t3") demo_auth0)); [|apply auth_read].
    apply (auth_next _ _ demo_auth0); [|apply auth_begin]. apply auth_start.
    + eapply pi_ok, issued_inv; [|apply demo_issued]. lia.
    + intros tok i v H Hv. unfold lookup_token in H. apply dget_elem in H.
      assert (forallb (fun e : str * token_info => match ti_revoked_at e.2 with Some r => r <=? 100 | None => true end)
                (st_tokens demo_st3) = true) as Hall by (vm_compute; reflexivity).
      rewrite forallb_forall in Hall. specialize (Hall _ (proj1 (list_elem_of_In _ _) H)). cbn [snd] in Hall. rewrite Hv in Hall. lia.
  - eapply (auth_done _ _ _ (u8 "t3")); [vm_compute; reflexivity|done|vm_compute; reflexivity].
Qed.

Lemma revocation_lag_witness :
  ti_revoked_at (default (demo_info [] 0) (lookup_token (u8 "t3") (au_store demo_auth4))) = Some 100 /\
  authenticate_with (u8 "t3") (cache_hit 60 (u8 "t3") demo_auth4) 159 = Ok (AuthContext (u8 "u") (u8 "team") []) /\
  au_now demo_auth4 < 100 + 0 + 60.
Proof.
  split; [vm_compute; reflexivity|]. split; [vm_compute; reflexivity|].
  refine (proj1 (revocation_lag 60 0 demo_auth4 (u8 "t3")
    (default (demo_info [] 0) (lookup_token (u8 "t3") (au_store demo_auth4))) 100 (AuthContext (u8 "u") (u8 "team") [])
    demo_auth_reach _ _) (demo_info (u8 "t3") 20) _ _); vm_compute; reflexivity.
Defined.
