(* ===== verification/Profiles.v ===== *)
(** * Profiles ([profiles/], [sanitizer/profile_orchestrator.py])

    A team selects profiles: bundles of detectors, terms, rules, an allowlist and
    policy knobs that extend one another.  Here are the composition of policies,
    the expansion of [extends], the merge of layers into one bundle, the
    integrity hash, and the per-team resolution with its memo tables. *)

From S2P Require Import Prelude Text Json ContentBlocks Regex Placeholder Rules Sha256 CachePolicy.
Local Open Scope py_scope.

(** ** Policy knobs ([profiles/base.py]) *)

Inductive fail_policy := FailClosed | Continue.

#[global] Instance fail_policy_eq_dec : EqDecision fail_policy.
Proof. solve_decision. Defined.

Record fail_overrides := FailOverrides {
  fo_pre_pass_down : fail_policy;
  fo_audit_sink_down : fail_policy;
  fo_audit_buffer_full : fail_policy;
}.

Definition default_overrides : fail_overrides := FailOverrides Continue Continue FailClosed.

Record policy_knobs := PolicyKnobs {
  pk_size_threshold : Z;
  pk_block_payloads : bool;
  pk_dlp_guard : bool;
  pk_oracle_mode : str;
  pk_allowed_providers : option (gset str);
  pk_canary_patterns : list str;
  pk_fail_policy : fail_overrides;
  pk_retention_hot_days : option Z;
  pk_retention_cold_years : option Z;
}.

Definition default_knobs : policy_knobs :=
  PolicyKnobs DEFAULT_THRESHOLD_BYTES false false (u8 "gazetteer_hit") None [] default_overrides None None.

(** [s.partition(sep)]: what is before the first [sep], and what follows it *)
Fixpoint partition_char (sep : N) (s : str) : str * str :=
  match s with
  | [] => ([], [])
  | c :: s' => if (c =? sep)%N then ([], s') else let '(h, t) := partition_char sep s' in (c :: h, t)
  end.

Section Oracle.
Context {U : Unicode}.

Definition sampled_pct (mode : str) : option Z :=
  let '(head, tail) := partition_char (chr ":") mode in
  if str_eqb (u_lower (strip head)) (u8 "sampled") then py_int (strip tail) else None.

Definition canonical_oracle_mode (mode : str) : str :=
  match sampled_pct mode with
  | None => mode
  | Some pct => if 100 <=? pct then u8 "always" else if pct <=? 0 then u8 "gazetteer_hit" else mode
  end.

Definition ORACLE_COVERAGE : list (str * Z) :=
  [(u8 "gazetteer_hit", 0); (u8 "sampled", 1); (u8 "any_local_finding", 2); (u8 "always", 3)].

Definition oracle_rank (mode : str) : Z :=
  default (-1) (dget (u_lower (strip (partition_char (chr ":") (canonical_oracle_mode mode)).1)) ORACLE_COVERAGE).

(** [(oracle_rank(mode), _sampled_pct(mode) or 0)] *)
Definition coverage_key (mode : str) : Z * Z := (oracle_rank mode, default 0 (sampled_pct mode)).

Definition key_ltb (a b : Z * Z) : bool := (a.1 <? b.1) || ((a.1 =? b.1) && (a.2 <? b.2)).

(** [max(modes, key=...)]: the first of the largest *)
Definition max_mode (best : str) (modes : list str) : str :=
  foldl (fun best m => if key_ltb (coverage_key best) (coverage_key m) then m else best) best modes.

Definition broadest_oracle_mode (modes : list str) : str :=
  match map canonical_oracle_mode modes with
  | [] => u8 "gazetteer_hit"
  | m :: ms => max_mode m ms
  end.

Definition effective_oracle_trigger (global_trigger policy_mode : str) : result config_error str :=
  let! g := normalize_oracle_trigger (Some global_trigger) in
  let! p := normalize_oracle_trigger (Some policy_mode) in
  Ok (broadest_oracle_mode [g; p]).

(** ** [PolicyKnobs.merge] *)

Definition intersect_providers (layers : list policy_knobs) : option (gset str) :=
  foldl (fun result layer =>
    match pk_allowed_providers layer with
    | None => result
    | Some p => Some (match result with None => p | Some r => r ∩ p end)
    end) None layers.

(** Elements in order of first appearance. *)
Definition ordered_union (lists : list (list str)) : list str :=
  foldl (fun out x => if memb x out then out else out ++ [x]) [] (concat lists).

Definition closed (a b : fail_policy) : fail_policy :=
  match a, b with Continue, Continue => Continue | _, _ => FailClosed end.

Definition merge_fail_policy (layers : list policy_knobs) : fail_overrides :=
  foldl (fun acc layer =>
    FailOverrides (closed (fo_pre_pass_down acc) (fo_pre_pass_down (pk_fail_policy layer)))
                  (closed (fo_audit_sink_down acc) (fo_audit_sink_down (pk_fail_policy layer)))
                  (closed (fo_audit_buffer_full acc) (fo_audit_buffer_full (pk_fail_policy layer))))
    (FailOverrides Continue Continue Continue) layers.

Definition last_writer (values : list (option Z)) : option Z :=
  foldl (fun result v => match v with Some _ => v | None => result end) None values.

Definition merge (layers : list policy_knobs) : policy_knobs :=
  match layers with
  | [] => default_knobs
  | l :: ls =>
    PolicyKnobs (foldl Z.min (pk_size_threshold l) (map pk_size_threshold ls))
      (existsb pk_block_payloads layers) (existsb pk_dlp_guard layers)
      (broadest_oracle_mode (map pk_oracle_mode layers))
      (intersect_providers layers) (ordered_union (map pk_canary_patterns layers)) (merge_fail_policy layers)
      (last_writer (map pk_retention_hot_days layers)) (last_writer (map pk_retention_cold_years layers))
  end.
End Oracle.

(** ** Manifests ([profiles/manifest.py]) *)

Inductive profile_error :=
| ProfileParseError (what : str)
| ProfileNotFoundError
| ProfileCycleError (chain : list str)
| ProfileDepthError (chain : list str)
| ProfileIntegrityError
| ProfileSignatureError
| UnknownDetector (name : str)
| NoLayers.

Record manifest := Manifest {
  mf_name : str;
  mf_extends : list str;
  mf_detectors : list str;
  mf_gazetteer_dirs : list str;
  mf_policy : policy_knobs;
  mf_content_hash : option str;
  mf_signature : option str;
}.

Definition as_str_tuple (v : json) (field : str) : result profile_error (list str) :=
  match v with
  | JNull => Ok []
  | JStr s => Ok [s]
  | JList l => rfold (fun out item => match item with
                                      | JStr s => Ok (out ++ [s])
                                      | _ => Raise (ProfileParseError field)
                                      end) [] l
  | _ => Raise (ProfileParseError field)
  end.

Definition as_str (v : json) (field : str) : result profile_error str :=
  match v with JStr s => Ok s | _ => Raise (ProfileParseError field) end.

Definition as_int (v : json) (field : str) : result profile_error Z :=
  match v with JInt z => Ok z | _ => Raise (ProfileParseError field) end.

Definition as_bool (v : json) (field : str) : result profile_error bool :=
  match v with JBool b => Ok b | _ => Raise (ProfileParseError field) end.

Definition opt_str (v : json) (field : str) : result profile_error (option str) :=
  match v with JNull => Ok None | _ => let! s := as_str v field in Ok (Some s) end.

(** [if key in raw: kwargs[key] = f(raw[key], key)] *)
Definition field_or {A} (d : A) (f : json -> str -> result profile_error A) (key : str) (raw : jdict) : result profile_error A :=
  match dget key raw with Some v => f v key | None => Ok d end.

Definition pick_fail_policy (raw : jdict) (key : str) (d : fail_policy) : result profile_error fail_policy :=
  match dget key raw with
  | None => Ok d
  | Some v => if json_is v (u8 "fail-closed") then Ok FailClosed
              else if json_is v (u8 "continue") then Ok Continue
              else Raise (ProfileParseError (u8 "fail_policy." ++ key))
  end.

Definition parse_fail_policy (v : json) (field : str) : result profile_error fail_overrides :=
  match v with
  | JObj raw =>
    let! pre := pick_fail_policy raw (u8 "pre_pass_down") (fo_pre_pass_down default_overrides) in
    let! sink := pick_fail_policy raw (u8 "audit_sink_down") (fo_audit_sink_down default_overrides) in
    let! buf := pick_fail_policy raw (u8 "audit_buffer_full") (fo_audit_buffer_full default_overrides) in
    Ok (FailOverrides pre sink buf)
  | _ => Raise (ProfileParseError field)
  end.

Section Manifest.
Context {U : Unicode}.

Definition parse_oracle_mode (v : json) (field : str) : result profile_error str :=
  let! value := as_str v field in
  match normalize_oracle_trigger (Some value) with
  | Ok m => Ok m
  | Raise _ => Raise (ProfileParseError field)
  end.

Definition parse_providers (v : json) (field : str) : result profile_error (option (gset str)) :=
  let! l := as_str_tuple v field in Ok (Some (list_to_set l)).

Definition some_int (v : json) (field : str) : result profile_error (option Z) :=
  let! z := as_int v field in Ok (Some z).

Definition parse_policy (v : json) : result profile_error policy_knobs :=
  match v with
  | JObj raw =>
    let! size := field_or (pk_size_threshold default_knobs) as_int (u8 "size_threshold_bytes") raw in
    let! block := field_or (pk_block_payloads default_knobs) as_bool (u8 "block_payloads") raw in
    let! dlp := field_or (pk_dlp_guard default_knobs) as_bool (u8 "dlp_guard") raw in
    let! oracle := field_or (pk_oracle_mode default_knobs) parse_oracle_mode (u8 "oracle_mode") raw in
    let! providers := field_or (pk_allowed_providers default_knobs) parse_providers (u8 "allowed_providers") raw in
    let! canaries := field_or (pk_canary_patterns default_knobs) as_str_tuple (u8 "canary_patterns") raw in
    let! hot := field_or (pk_retention_hot_days default_knobs) some_int (u8 "retention_hot_days") raw in
    let! cold := field_or (pk_retention_cold_years default_knobs) some_int (u8 "retention_cold_years") raw in
    let! fp := field_or (pk_fail_policy default_knobs) parse_fail_policy (u8 "fail_policy") raw in
    Ok (PolicyKnobs size block dlp oracle providers canaries fp hot cold)
  | _ => Raise (ProfileParseError (u8 "[policy]"))
  end.

(** [toml] is [tomllib.loads]; [None] is its error. *)
Definition parse_manifest (toml : str -> option jdict) (text : str) : result profile_error manifest :=
  match toml text with
  | None => Raise (ProfileParseError (u8 "profile.toml"))
  | Some data =>
    match jget (u8 "name") data with
    | JStr name =>
      if str_eqb (strip name) [] then Raise (ProfileParseError (u8 "name")) else
      let! content_hash := opt_str (jget (u8 "content_hash") data) (u8 "content_hash") in
      let! signature := opt_str (jget (u8 "signature") data) (u8 "signature") in
      let! extends := as_str_tuple (jget (u8 "extends") data) (u8 "extends") in
      let! detectors := as_str_tuple (jget (u8 "detectors") data) (u8 "detectors") in
      let! gazetteer_dirs := as_str_tuple (jget (u8 "gazetteer_dirs") data) (u8 "gazetteer_dirs") in
      let! policy := parse_policy (default (JObj []) (dget (u8 "policy") data)) in
      Ok (Manifest name extends detectors gazetteer_dirs policy content_hash signature)
    | _ => Raise (ProfileParseError (u8 "name"))
    end
  end.
End Manifest.

(** *** [resolve_extends] *)

Definition MAX_EXTENDS_DEPTH : Z := 8.

Section Extends.
Context (read : str -> result profile_error manifest).

(** [visit]: [levels] is how many more levels the depth bound allows, and
    [order] is both [order] and [done]. *)
Fixpoint visit (levels : nat) (ancestors : list str) (order : list str) (profile_id : str) : result profile_error (list str) :=
  match levels with
  | O => Raise (ProfileDepthError (ancestors ++ [profile_id]))
  | S n =>
    if memb profile_id ancestors then Raise (ProfileCycleError (ancestors ++ [profile_id])) else
    if memb profile_id order then Ok order else
    let! m := read profile_id in
    let! order' := rfold (visit n (ancestors ++ [profile_id])) order (mf_extends m) in
    Ok (order' ++ [profile_id])
  end.

Definition resolve_extends (roots : list str) (max_depth : Z) : result profile_error (list str) :=
  rfold (visit (Z.to_nat (max_depth + 1)) []) [] roots.
End Extends.

(** *** Integrity *)

(** What [compute_content_hash] hashes; names are encoded already. *)
Definition hash_preimage (parts : list (list N * list N)) : list N :=
  concat (map (fun p : list N * list N => p.1 ++ [0%N] ++ p.2 ++ [0%N])
    (sort_on (fun p : list N * list N => map (fun c => zk (Z.of_N c)) p.1) parts)).

Definition compute_content_hash (parts : list (list N * list N)) : str := hexdigest (sha256 (hash_preimage parts)).

Definition verify_signature (require : bool) : result profile_error unit :=
  if require then Raise ProfileSignatureError else Ok tt.

Definition verify_integrity (require : bool) (m : manifest) (computed : str) : result profile_error unit :=
  match mf_content_hash m with
  | Some h => if str_eqb h computed then verify_signature require else Raise ProfileIntegrityError
  | None => verify_signature require
  end.

(** ** Bundles ([profiles/file_loader.py], [profiles/registry.py], [profiles/resolver.py]) *)

Record layer_source := LayerSource {
  ls_profile_id : str;
  ls_manifest : manifest;
  ls_terms : list (str * str);
  ls_rules : rules;
  ls_allowlist : list str;
}.

(** The files of a profile directory, as far as the loader reads them. *)
Record profile_dir := ProfileDir {
  pd_manifest : option str;                       (* [profile.toml] *)
  pd_rules : option str;                          (* [replace.md] *)
  pd_terms : list str -> list (str * str);        (* [_read_terms] of the gazetteer directories *)
  pd_allowlist : option str;                      (* [allowlist.txt] *)
  pd_files : list (list N * list N);              (* every other file: relative path, bytes *)
}.

Section Bundles.
Context {U : Unicode} {D : Type} (toml : str -> option jdict) (parse_rules : str -> option rules).
Context (require_signature : bool).

(** [_read_allowlist]: one original per line, comments and blank lines apart. *)
Definition read_allowlist (text : option str) : list str :=
  match text with
  | None => []
  | Some t => List.filter (fun l => negb (str_eqb l []) && negb (starts_with l (u8 "#"))) (map strip (splitlines t))
  end.

Definition read_layer_source (dir : option profile_dir) (profile_id : str) : result profile_error layer_source :=
  match dir with
  | None => Raise ProfileNotFoundError
  | Some d =>
    match pd_manifest d with
    | None => Raise ProfileNotFoundError
    | Some text =>
      let! m := parse_manifest toml text in
      let! rs := match pd_rules d with
                 | None => Ok []
                 | Some md => match parse_rules md with Some r => Ok r | None => Raise (ProfileParseError (u8 "replace.md")) end
                 end in
      let terms := pd_terms d (mf_gazetteer_dirs m) in
      let allow := read_allowlist (pd_allowlist d) in
      let! _ := match mf_content_hash m with
                | Some _ => verify_integrity require_signature m (compute_content_hash (pd_files d))
                | None => Ok tt
                end in
      Ok (LayerSource profile_id m terms rs allow)
    end
  end.

Record bundle := Bundle {
  bu_detectors : list D;
  bu_terms : option (list (str * str));           (* what [Gazetteer] is built from *)
  bu_rules : rules;
  bu_allowlist : list str;
  bu_policy : policy_knobs;
  bu_profile_ids : list str;
  bu_detector_names : list str;
}.

(** [DETECTOR_REGISTRY]: the factory of a name; a factory may raise. *)
Context (registry : str -> option (result profile_error D)).

Definition CODE_SAFE_DETECTORS : list str := [u8 "regex_checksum"; u8 "dual_ner"; u8 "ner_ru"; u8 "ner_en"].
Definition NETWORK_DETECTORS : list str := [u8 "corp_ner"].

Definition build_detectors (names : list str) : result profile_error (list D) :=
  let! w := rfold (fun (w : list D * list str) name =>
    if memb name w.2 then Ok w else
    match registry name with
    | None => Raise (UnknownDetector name)
    | Some made => let! d := made in Ok (w.1 ++ [d], w.2 ++ [name])
    end) ([], []) names in
  Ok w.1.

(** The most specific layer wins a term. *)
Definition merge_terms (sources : list layer_source) : list (str * str) :=
  foldl (fun m e => dsetdefault e.1 e.2 m) [] (concat (map ls_terms (rev sources))).

Definition build_bundle (sources : list layer_source) : result profile_error bundle :=
  match sources with
  | [] => Raise NoLayers
  | _ =>
    let names := ordered_union (map (fun s => mf_detectors (ls_manifest s)) sources) in
    let! detectors := build_detectors names in
    Ok (Bundle detectors (match merge_terms sources with [] => None | m => Some m end)
          (concat (map ls_rules sources)) (ordered_union (map ls_allowlist sources))
          (merge (map (fun s => mf_policy (ls_manifest s)) sources)) (map ls_profile_id sources) names)
  end.

Definition empty_bundle : bundle := Bundle [] None [] [] default_knobs [] [].

(** [zip(names, detectors, strict=False)], code-safe names only *)
Definition code_safe_detectors (b : bundle) : list D :=
  map snd (List.filter (fun e : str * D => memb e.1 CODE_SAFE_DETECTORS) (zip (bu_detector_names b) (bu_detectors b))).

(** *** [bundle_fingerprint]: the bytes that are hashed.  [enc] is the UTF-8
    encoding of the strings. *)
Context (detector_class : D -> str).

Definition enc (s : str) : list N := default [] (utf8_encode s).
Definition joined (sep : N) (parts : list (list N)) : list N := join [sep] parts.

Definition providers_bytes (p : option (gset str)) : list N :=
  match p with
  | None => [0%N]
  | Some s => joined 30%N (map enc (sort_on (fun x => map (fun c => zk (Z.of_N c)) x) (elements s)))
  end.

Definition fail_bytes (f : fail_policy) : list N := match f with FailClosed => u8 "fail-closed" | Continue => u8 "continue" end.
Definition opt_int_bytes (o : option Z) : list N := match o with Some z => dump_int z | None => u8 "None" end.
Definition flag_bytes (b : bool) : list N := if b then u8 "1" else u8 "0".

Definition policy_bytes (p : policy_knobs) : list N :=
  joined 31%N [dump_int (pk_size_threshold p); flag_bytes (pk_block_payloads p); flag_bytes (pk_dlp_guard p);
    enc (pk_oracle_mode p); providers_bytes (pk_allowed_providers p); joined 30%N (map enc (pk_canary_patterns p));
    fail_bytes (fo_pre_pass_down (pk_fail_policy p)); fail_bytes (fo_audit_sink_down (pk_fail_policy p));
    fail_bytes (fo_audit_buffer_full (pk_fail_policy p)); opt_int_bytes (pk_retention_hot_days p);
    opt_int_bytes (pk_retention_cold_years p)].

Definition fingerprint_preimage (b : bundle) : list N :=
  concat (map (fun pid => enc pid ++ [31%N]) (bu_profile_ids b)) ++ [29%N] ++
  concat (map (fun d => enc (detector_class d) ++ [31%N]) (bu_detectors b)) ++ [29%N] ++
  (match bu_terms b with Some _ => u8 "g1" | None => u8 "g0" end) ++ [29%N] ++
  concat (map (fun r => enc (r_pattern r) ++ [30%N] ++ enc (r_replacement r) ++ [31%N]) (bu_rules b)) ++ [29%N] ++
  policy_bytes (bu_policy b).

Definition bundle_fingerprint (b : bundle) : str := hexdigest (sha256 (fingerprint_preimage b)).

(** ** [ProfileResolver] and [ProfileAwareOrchestrator] *)

Context (read_source : str -> result profile_error layer_source).
Context (max_depth : Z) (default_profile_ids : list str).
Context {O : Type} (core : O) (build_inner : bundle -> O).

(** [_cache] of the resolver; [_inner_by_key] and [_fingerprint_by_key]. *)
Record resolver_state := ResolverState {
  rs_bundles : gmap (list str) bundle;
  rs_inner : gmap (list str) O;
  rs_fingerprints : gmap (list str) str;
}.

Definition read_manifest (profile_id : str) : result profile_error manifest :=
  let! s := read_source profile_id in Ok (ls_manifest s).

Definition make_bundle (ordered : list str) : result profile_error bundle :=
  match ordered with
  | [] => Ok empty_bundle
  | _ => let! sources := rfold (fun acc pid => let! s := read_source pid in Ok (acc ++ [s])) [] ordered in
         build_bundle sources
  end.

Definition resolve_ordered (ordered : list str) (st : resolver_state) : result profile_error (bundle * resolver_state) :=
  match rs_bundles st !! ordered with
  | Some b => Ok (b, st)
  | None => let! b := make_bundle ordered in
            Ok (b, ResolverState (<[ordered := b]> (rs_bundles st)) (rs_inner st) (rs_fingerprints st))
  end.

(** The layers a team resolves to. *)
Definition team_layers (profile_ids : list str) : result profile_error (list str) :=
  match (match profile_ids with [] => default_profile_ids | _ => profile_ids end) with
  | [] => Ok []
  | ids => resolve_extends read_manifest ids max_depth
  end.

Definition resolve_team (profile_ids : list str) (st : resolver_state) : result profile_error (bundle * resolver_state) :=
  let! ordered := team_layers profile_ids in resolve_ordered ordered st.

Record resolved_profile := ResolvedProfile {
  rp_policy : policy_knobs;
  rp_fingerprint : option str;
  rp_orchestrator : O;
  rp_profile_ids : list str;
}.

Definition passthrough_resolved : resolved_profile := ResolvedProfile default_knobs None core [].

(** [resolve]: the memo tables are filled under the lock, the fingerprint first. *)
Definition resolve (profile_ids : list str) (st : resolver_state) : result profile_error (resolved_profile * resolver_state) :=
  let! w := resolve_team profile_ids st in
  let '(b, st1) := w in
  match bu_profile_ids b with
  | [] => Ok (passthrough_resolved, st1)
  | key =>
    match rs_inner st1 !! key with
    | Some inner =>
      match rs_fingerprints st1 !! key with
      | Some fp => Ok (ResolvedProfile (bu_policy b) (Some fp) inner key, st1)
      | None => Raise (ProfileParseError (u8 "KeyError"))
      end
    | None =>
      let fp := bundle_fingerprint b in
      let inner := build_inner b in
      Ok (ResolvedProfile (bu_policy b) (Some fp) inner key,
          ResolverState (rs_bundles st1) (<[key := inner]> (rs_inner st1)) (<[key := fp]> (rs_fingerprints st1)))
    end
  end.
End Bundles.

(** ** The order of policies

    [stricter p q]: [p] restricts at least as much as [q] in every security
    knob.  The coverage of an oracle mode is the key of its canonical form. *)

Section Order.
Context {U : Unicode} {UL : UnicodeLaws U}.

Definition oracle_key (mode : str) : Z * Z := coverage_key (canonical_oracle_mode mode).

Definition providers_within (p q : option (gset str)) : Prop :=
  match q with
  | None => True
  | Some s => match p with None => False | Some t => t ⊆ s end
  end.

Definition closed_within (a b : fail_policy) : Prop := b = FailClosed -> a = FailClosed.

Record stricter (p q : policy_knobs) : Prop := {
  st_size : pk_size_threshold p <= pk_size_threshold q;
  st_block : pk_block_payloads q = true -> pk_block_payloads p = true;
  st_dlp : pk_dlp_guard q = true -> pk_dlp_guard p = true;
  st_oracle : key_ltb (oracle_key (pk_oracle_mode p)) (oracle_key (pk_oracle_mode q)) = false;
  st_providers : providers_within (pk_allowed_providers p) (pk_allowed_providers q);
  st_canaries : pk_canary_patterns q ⊆ pk_canary_patterns p;
  st_pre : closed_within (fo_pre_pass_down (pk_fail_policy p)) (fo_pre_pass_down (pk_fail_policy q));
  st_sink : closed_within (fo_audit_sink_down (pk_fail_policy p)) (fo_audit_sink_down (pk_fail_policy q));
  st_buffer : closed_within (fo_audit_buffer_full (pk_fail_policy p)) (fo_audit_buffer_full (pk_fail_policy q));
}.

Lemma key_ltb_lt a b : key_ltb a b = true <-> a.1 < b.1 \/ (a.1 = b.1 /\ a.2 < b.2).
Proof. unfold key_ltb. rewrite orb_true_iff, andb_true_iff, !Z.ltb_lt, Z.eqb_eq. done. Qed.

Lemma key_ltb_ge a b : key_ltb a b = false <-> ~ (a.1 < b.1 \/ (a.1 = b.1 /\ a.2 < b.2)).
Proof. rewrite <-key_ltb_lt. destruct (key_ltb a b); split; intros; congruence. Qed.

Lemma stricter_refl p : stricter p p.
Proof.
  split; try done; try lia.
  - apply key_ltb_ge; lia.
  - unfold providers_within. by destruct (pk_allowed_providers p).
  - by intros ?.
  - by intros ?.
  - by intros ?.
Qed.

Lemma stricter_trans p q r : stricter p q -> stricter q r -> stricter p r.
Proof.
  intros [A1 A2 A3 A4 A5 A6 A7 A8 A9] [B1 B2 B3 B4 B5 B6 B7 B8 B9].
  split; unfold closed_within in *; eauto.
  - lia.
  - rewrite key_ltb_ge in *; lia.
  - unfold providers_within in *. destruct (pk_allowed_providers r); [|done].
    destruct (pk_allowed_providers q); [|done]. destruct (pk_allowed_providers p); [|done]. set_solver.
  - set_solver.
Qed.

Lemma sampled_pct_fixed m : forallb is_ascii m = true ->
  str_eqb (map ascii_lower1 (Text.strip (partition_char (chr ":") m).1)) (u8 "sampled") = false ->
  forallb is_ascii (Text.strip (partition_char (chr ":") m).1) = true -> sampled_pct m = None.
Proof.
  unfold sampled_pct. destruct (partition_char _ m) as [h t] eqn:P. cbn [fst].
  intros _ Hne Ha. rewrite (lower_ascii _ Ha), Hne. done.
Qed.

Lemma canonical_idem m : canonical_oracle_mode (canonical_oracle_mode m) = canonical_oracle_mode m.
Proof.
  unfold canonical_oracle_mode at 2 3. destruct (sampled_pct m) as [pct|] eqn:Em.
  - destruct (100 <=? pct) eqn:E1; [|destruct (pct <=? 0) eqn:E2].
    + unfold canonical_oracle_mode. rewrite sampled_pct_fixed; [done|by vm_compute..].
    + unfold canonical_oracle_mode. rewrite sampled_pct_fixed; [done|by vm_compute..].
    + unfold canonical_oracle_mode. by rewrite Em, E1, E2.
  - unfold canonical_oracle_mode. by rewrite Em.
Qed.

Lemma max_mode_spec best ms :
  max_mode best ms ∈ best :: ms /\
  forall m, m ∈ best :: ms -> key_ltb (coverage_key (max_mode best ms)) (coverage_key m) = false.
Proof.
  unfold max_mode. revert best. induction ms as [|m ms IH]; intros best; cbn [foldl].
  - split; [set_solver|]. intros m ->%list_elem_of_singleton. apply key_ltb_ge. lia.
  - destruct (key_ltb (coverage_key best) (coverage_key m)) eqn:E.
    + destruct (IH m) as [I1 I2]. split; [set_solver|].
      intros x [->|Hx]%elem_of_cons; [|by apply I2].
      specialize (I2 m ltac:(set_solver)). rewrite key_ltb_ge in *. rewrite key_ltb_lt in E. lia.
    + destruct (IH best) as [I1 I2]. split; [set_solver|].
      intros x [->|[->|Hx]%elem_of_cons]%elem_of_cons; [apply I2; set_solver| |apply I2; set_solver].
      specialize (I2 best ltac:(set_solver)). rewrite key_ltb_ge in *. lia.
Qed.

Lemma broadest_spec modes : modes <> [] ->
  (exists m, m ∈ modes /\ oracle_key (broadest_oracle_mode modes) = oracle_key m) /\
  forall m, m ∈ modes -> key_ltb (oracle_key (broadest_oracle_mode modes)) (oracle_key m) = false.
Proof.
  destruct modes as [|m ms]; [done|]. intros _. unfold broadest_oracle_mode. cbn [map].
  destruct (max_mode_spec (canonical_oracle_mode m) (map canonical_oracle_mode ms)) as [I1 I2].
  change (canonical_oracle_mode m :: map canonical_oracle_mode ms) with (map canonical_oracle_mode (m :: ms)) in I1, I2.
  apply list_elem_of_fmap in I1 as (x & Ex & Hx).
  split.
  - exists x. split; [done|]. unfold oracle_key. by rewrite Ex, canonical_idem.
  - intros y Hy. unfold oracle_key at 1. rewrite Ex, canonical_idem, <-Ex.
    unfold oracle_key. apply I2. apply list_elem_of_fmap. by exists y.
Qed.

Lemma fold_min_spec x l :
  foldl Z.min x l ∈ x :: l /\ forall y, y ∈ x :: l -> foldl Z.min x l <= y.
Proof.
  revert x. induction l as [|a l IH]; intros x; cbn [foldl].
  - split; [set_solver|]. intros y ->%list_elem_of_singleton. lia.
  - destruct (IH (Z.min x a)) as [I1 I2]. split.
    + apply elem_of_cons in I1 as [->|I1]; [|set_solver]. destruct (Z.min_spec x a) as [[_ ->]|[_ ->]]; set_solver.
    + intros y [->|[->|Hy]%elem_of_cons]%elem_of_cons; [..|apply I2; set_solver];
        specialize (I2 (Z.min x a) ltac:(set_solver)); lia.
Qed.

Lemma closed_iff a b : closed a b = FailClosed <-> a = FailClosed \/ b = FailClosed.
Proof. destruct a, b; cbn; intuition congruence. Qed.

(** Each knob of the fail policy is closed when a layer closes it. *)
Lemma merge_fail_spec layers :
  (fo_pre_pass_down (merge_fail_policy layers) = FailClosed <-> exists l, l ∈ layers /\ fo_pre_pass_down (pk_fail_policy l) = FailClosed) /\
  (fo_audit_sink_down (merge_fail_policy layers) = FailClosed <-> exists l, l ∈ layers /\ fo_audit_sink_down (pk_fail_policy l) = FailClosed) /\
  (fo_audit_buffer_full (merge_fail_policy layers) = FailClosed <-> exists l, l ∈ layers /\ fo_audit_buffer_full (pk_fail_policy l) = FailClosed).
Proof.
  unfold merge_fail_policy. induction layers as [|l ls IH] using rev_ind.
  - cbn. repeat split; intros; try done; destruct H as (? & ?%not_elem_of_nil & _); done.
  - rewrite foldl_snoc. cbn [fo_pre_pass_down fo_audit_sink_down fo_audit_buffer_full].
    destruct IH as (I1 & I2 & I3). rewrite !closed_iff, I1, I2, I3.
    setoid_rewrite elem_of_app. setoid_rewrite list_elem_of_singleton. naive_solver.
Qed.

Lemma intersect_spec layers :
  match intersect_providers layers with
  | None => forall l, l ∈ layers -> pk_allowed_providers l = None
  | Some r => (exists l p, l ∈ layers /\ pk_allowed_providers l = Some p) /\
              forall x, x ∈ r <-> forall l p, l ∈ layers -> pk_allowed_providers l = Some p -> x ∈ p
  end.
Proof using.
  clear UL U.
  unfold intersect_providers. induction layers as [|l ls IH] using rev_ind.
  - cbn. by intros ? ?%not_elem_of_nil.
  - rewrite foldl_snoc. destruct (foldl _ None ls) as [r|], (pk_allowed_providers l) as [p|] eqn:Ep.
    + destruct IH as [(l0 & p0 & H0 & E0) I]. split; [exists l0, p0; set_solver|].
      intros x. rewrite elem_of_intersection, I. split.
      * intros [A B] l' p' [H1| ->%list_elem_of_singleton]%elem_of_app E1; [eauto|]. congruence.
      * intros A. split; [intros l' p' H1 E1; apply (A l'); set_solver|]. apply (A l); set_solver.
    + destruct IH as [(l0 & p0 & H0 & E0) I]. split; [exists l0, p0; set_solver|].
      intros x. rewrite I. split; intros A l' p' H1 E1; [|apply (A l'); set_solver].
      apply elem_of_app in H1 as [H1| ->%list_elem_of_singleton]; [eauto|congruence].
    + split; [exists l, p; set_solver|]. intros x. split.
      * intros A l' p' [H1| ->%list_elem_of_singleton]%elem_of_app E1; [by rewrite (IH _ H1) in E1|congruence].
      * intros A. apply (A l); set_solver.
    + intros l' [H1| ->%list_elem_of_singleton]%elem_of_app; auto.
Qed.

Lemma elem_of_ordered_union x lists : x ∈ ordered_union lists <-> exists l, l ∈ lists /\ x ∈ l.
Proof using.
  clear UL U.
  unfold ordered_union. transitivity (x ∈ concat lists).
  - generalize (concat lists) as l. intros l. induction l as [|y l IH] using rev_ind; [done|].
    rewrite foldl_snoc, elem_of_app, list_elem_of_singleton. unfold memb. case_bool_decide as E.
    + rewrite IH. split; [tauto|]. intros [?| ->]; [done|]. by apply IH.
    + rewrite elem_of_app, list_elem_of_singleton, IH. done.
  - rewrite list_elem_of_In, in_concat. split; intros (l & A & B); exists l; by rewrite !list_elem_of_In in *.
Qed.

Lemma ordered_union_NoDup lists : NoDup (ordered_union lists).
Proof using.
  clear UL U.
  unfold ordered_union. generalize (concat lists) as l. intros l.
  induction l as [|y l IH] using rev_ind; [constructor|].
  rewrite foldl_snoc. unfold memb. case_bool_decide; [done|].
  apply NoDup_app. split; [done|]. split; [set_solver|apply NoDup_singleton].
Qed.

Lemma existsb_of {A} (f : A -> bool) x l : x ∈ l -> f x = true -> existsb f l = true.
Proof using. clear UL U. intros Hx Hf. apply existsb_exists. exists x. by rewrite <-list_elem_of_In. Qed.

Lemma merge_lower layers l : l ∈ layers -> stricter (merge layers) l.
Proof.
  intros Hl. destruct layers as [|l0 ls]; [by apply not_elem_of_nil in Hl|].
  destruct (broadest_spec (map pk_oracle_mode (l0 :: ls)) ltac:(done)) as [_ Ho].
  pose proof (intersect_spec (l0 :: ls)) as Hp. pose proof (merge_fail_spec (l0 :: ls)) as (F1 & F2 & F3).
  unfold merge. split; cbn [pk_size_threshold pk_block_payloads pk_dlp_guard pk_oracle_mode pk_allowed_providers pk_canary_patterns pk_fail_policy].
  - apply (fold_min_spec (pk_size_threshold l0) (map pk_size_threshold ls)).
    change (pk_size_threshold l ∈ map pk_size_threshold (l0 :: ls)). apply list_elem_of_fmap. by exists l.
  - by apply existsb_of.
  - by apply existsb_of.
  - apply Ho, list_elem_of_fmap. by exists l.
  - destruct (intersect_providers (l0 :: ls)) as [r|]; unfold providers_within.
    + destruct (pk_allowed_providers l) as [p|] eqn:Ep; [|done]. intros x Hx. by apply (proj1 (proj2 Hp x) Hx l).
    + by rewrite (Hp _ Hl).
  - intros x Hx. apply elem_of_ordered_union. eexists. split; [|done]. apply list_elem_of_fmap. by exists l.
  - intros E. apply F1. eauto.
  - intros E. apply F2. eauto.
  - intros E. apply F3. eauto.
Qed.

Lemma merge_greatest layers r : layers <> [] ->
  (forall l, l ∈ layers -> stricter r l) -> stricter r (merge layers).
Proof.
  intros Hne Hr. destruct layers as [|l0 ls]; [done|].
  destruct (broadest_spec (map pk_oracle_mode (l0 :: ls)) ltac:(done)) as [(m & Hm & Em) _].
  apply list_elem_of_fmap in Hm as (lm & -> & Hlm).
  pose proof (intersect_spec (l0 :: ls)) as Hp. pose proof (merge_fail_spec (l0 :: ls)) as (F1 & F2 & F3).
  unfold merge. split; cbn [pk_size_threshold pk_block_payloads pk_dlp_guard pk_oracle_mode pk_allowed_providers pk_canary_patterns pk_fail_policy].
  - destruct (fold_min_spec (pk_size_threshold l0) (map pk_size_threshold ls)) as [A _].
    change (foldl Z.min (pk_size_threshold l0) (map pk_size_threshold ls) ∈ map pk_size_threshold (l0 :: ls)) in A.
    apply list_elem_of_fmap in A as (l & -> & Hl). by apply Hr.
  - intros (l & Hl%list_elem_of_In & E)%existsb_exists. by apply (Hr l).
  - intros (l & Hl%list_elem_of_In & E)%existsb_exists. by apply (Hr l).
  - rewrite Em. by apply (Hr lm).
  - destruct (intersect_providers (l0 :: ls)) as [s|]; [|done]. destruct Hp as [(l & p & Hl & E) Hx].
    pose proof (st_providers _ _ (Hr l Hl)) as S0. rewrite E in S0. unfold providers_within in *.
    destruct (pk_allowed_providers r) as [t|] eqn:Et; [|done].
    intros x Hxt. apply Hx. intros l' p' Hl' E'. pose proof (st_providers _ _ (Hr l' Hl')) as S1.
    unfold providers_within in S1. rewrite Et, E' in S1. set_solver.
  - intros x (q & Hq & Hx)%elem_of_ordered_union. apply list_elem_of_fmap in Hq as (l & -> & Hl). by apply (Hr l Hl).
  - intros (l & Hl & E)%F1. by apply (Hr l Hl).
  - intros (l & Hl & E)%F2. by apply (Hr l Hl).
  - intros (l & Hl & E)%F3. by apply (Hr l Hl).
Qed.
End Order.

(** ** The expansion of [extends] *)

Section ExtendsSpec.
Context (read : str -> result profile_error manifest).

Definition extends_rel (a b : str) : Prop := exists m, read a = Ok m /\ b ∈ mf_extends m.

(** Consecutive profiles of a chain extend one another. *)
Definition chain_ok (c : list str) : Prop :=
  forall i a b, c !! i = Some a -> c !! S i = Some b -> extends_rel a b.

(** Each profile once, after every profile it extends. *)
Definition layered (order : list str) : Prop :=
  NoDup order /\
  forall i x, order !! i = Some x -> exists m, read x = Ok m /\ forall q, q ∈ mf_extends m -> q ∈ take i order.

Lemma layered_snoc order x m :
  layered order -> x ∉ order -> read x = Ok m -> (forall q, q ∈ mf_extends m -> q ∈ order) -> layered (order ++ [x]).
Proof.
  intros [Hn Hl] Hx Hm Hq. split.
  - apply NoDup_app. split; [done|]. split; [set_solver|apply NoDup_singleton].
  - intros i y [Hi|[Hi Hy]]%lookup_app_Some.
    + destruct (Hl _ _ Hi) as (my & E & Hy). exists my. split; [done|]. intros q Hqm.
      rewrite take_app_le; [auto|]. apply lookup_lt_Some in Hi. lia.
    + apply list_lookup_singleton_Some in Hy as [Hi0 <-]. exists m. split; [done|].
      intros q Hqm. rewrite take_app_ge by lia. apply elem_of_app. left. auto.
Qed.

Lemma chain_snoc c a b : chain_ok (c ++ [a]) -> extends_rel a b -> chain_ok ((c ++ [a]) ++ [b]).
Proof.
  intros Hc Hab i x y Hx Hy.
  apply lookup_app_Some in Hy as [Hy|[Hi Hy]].
  - apply (Hc i x y); [|done]. rewrite lookup_app_l in Hx; [done|]. apply lookup_lt_Some in Hy. lia.
  - apply list_lookup_singleton_Some in Hy as [Hi0 <-]. rewrite length_app in *. cbn [length] in *.
    assert (i = length c) by lia. subst i.
    rewrite lookup_app_l in Hx by (rewrite length_app; cbn; lia).
    rewrite lookup_app_r, Nat.sub_diag in Hx by lia. cbn in Hx. by simplify_eq.
Qed.

Lemma visit_ok n anc order p order' :
  layered order -> visit read n anc order p = Ok order' ->
  layered order' /\ p ∈ order' /\
  exists ext, order' = order ++ ext /\ forall x, x ∈ ext -> x ∉ anc /\ rtc extends_rel p x.
Proof.
  revert anc order p order'. induction n as [|n IH]; intros anc order p order' Hl; cbn [visit]; [done|].
  destruct (memb p anc) eqn:Ea; [done|]. destruct (memb p order) eqn:Eo.
  - intros [= <-]. py_elem in Eo. split_and!; [done..|]. exists []. split; [by rewrite app_nil_r|]. set_solver.
  - intros Hv. bind_ok Hv as m Em. bind_ok Hv as o Ev. injection Hv as <-. py_elem in Ea. py_elem in Eo.
    pose proof (rfold_visit := IH (anc ++ [p])). clear IH.
    assert (G : layered o /\ (forall q, q ∈ mf_extends m -> q ∈ o) /\
                exists ext, o = order ++ ext /\ forall x, x ∈ ext -> x ∉ anc ++ [p] /\ rtc extends_rel p x).
    { revert Ev. assert (Hsub : forall q, q ∈ mf_extends m -> extends_rel p q) by (intros q Hq; by exists m).
      revert Hsub. generalize (mf_extends m) as l. intros l Hsub Ev. clear Em Ea Eo m.
      revert o Ev. induction l as [|q l IHl] using rev_ind; intros o Ev.
      - injection Ev as <-. split_and!; [done|set_solver|]. exists []. split; [by rewrite app_nil_r|set_solver].
      - rewrite rfold_app in Ev. bind_ok Ev as o1 E1. cbn [rfold] in Ev. bind_ok Ev as o2 E2. injection Ev as ->.
        destruct (IHl ltac:(set_solver) o1 E1) as (L1 & Q1 & e1 & -> & X1).
        destruct (rfold_visit _ _ _ L1 E2) as (L2 & Q2 & e2 & -> & X2).
        split_and!; [done|set_solver|]. exists (e1 ++ e2). split; [by rewrite app_assoc|].
        intros x [Hx|Hx]%elem_of_app; [by apply X1|]. destruct (X2 x Hx). split; [done|].
        apply rtc_l with q; [apply Hsub; set_solver|done]. }
    destruct G as (Lo & Qo & ext & -> & X). split_and!.
    + apply (layered_snoc _ _ m); [done| |done|done]. intros [?|Hp]%elem_of_app; [done|]. destruct (X _ Hp). set_solver.
    + set_solver.
    + exists (ext ++ [p]). split; [by rewrite app_assoc|].
      intros x [Hx| ->%list_elem_of_singleton]%elem_of_app; [destruct (X x Hx); set_solver|]. split; [done|reflexivity].
Qed.

(** The errors of the walk: of [read], a cycle, or a chain past the bound. *)
Definition explains (max_depth : Z) (e : profile_error) : Prop :=
  (exists x, read x = Raise e) \/
  (exists c p, e = ProfileCycleError (c ++ [p]) /\ p ∈ c /\ chain_ok (c ++ [p])) \/
  (exists c, e = ProfileDepthError c /\ chain_ok c /\ len c = Z.max 0 (max_depth + 1) + 1).

Lemma visit_raise max_depth n anc order p e :
  Z.of_nat n + len anc = Z.max 0 (max_depth + 1) -> chain_ok (anc ++ [p]) ->
  visit read n anc order p = Raise e -> explains max_depth e.
Proof.
  revert anc order p. induction n as [|n IH]; intros anc order p Hn Hc; cbn [visit].
  - intros [= <-]. right; right. eexists. split; [done|]. split; [done|]. rewrite len_app, len_cons, len_nil. lia.
  - destruct (memb p anc) eqn:Ea.
    + intros [= <-]. py_elem in Ea. right; left. by exists anc, p.
    + destruct (memb p order); [done|]. destruct (read p) as [m|e0] eqn:Em; cbn [rbind].
      * destruct (rfold _ order _) eqn:Ev; cbn [rbind]; [done|]. intros [= ->].
        apply rfold_raise in Ev as (o & q & Hq & Ev). apply IH in Ev; [done|rewrite len_app, len_cons, len_nil; lia|].
        apply chain_snoc; [done|]. by exists m.
      * intros [= <-]. left. by exists p.
Qed.
End ExtendsSpec.

(** ** What a bundle holds of its layers *)

Section BundleSpec.
Context {U : Unicode} {UL : UnicodeLaws U} {D : Type} (registry : str -> option (result profile_error D)).

Lemma build_detectors_each names ds : NoDup names -> build_detectors registry names = Ok ds ->
  Forall2 (fun n d => registry n = Some (Ok d)) names ds.
Proof using. clear UL.
  intros Hn Hb. unfold build_detectors in Hb. bind_ok Hb as w Ew. injection Hb as <-.
  cut (w.2 = names /\ Forall2 (fun n d => registry n = Some (Ok d)) names w.1); [tauto|].
  revert w Ew. induction names as [|n names IH] using rev_ind; intros w Ew.
  - injection Ew as <-. by split; [|constructor].
  - apply NoDup_app in Hn as (Hn & Hd & _). rewrite rfold_app in Ew. bind_ok Ew as w1 E1. cbn [rfold] in Ew.
    destruct (IH Hn w1 E1) as [I1 I2]. bind_ok Ew as w2 E2. injection Ew as <-.
    destruct (memb n w1.2) eqn:Em; [py_elem in Em; rewrite I1 in Em; set_solver|].
    destruct (registry n) as [made|] eqn:Er; [|done]. bind_ok E2 as d Ed. injection E2 as <-. cbn [fst snd].
    rewrite I1. split; [done|]. apply Forall2_app; [done|]. constructor; [by subst made|constructor].
Qed.

Lemma merge_terms_lookup t sources :
  dget t (merge_terms sources) = dget t (concat (map ls_terms (rev sources))).
Proof using. unfold merge_terms. rewrite dget_setdefaults. done. Qed.

Lemma dget_concat_None {K V} `{EqDecision K} (k : K) (ls : list (list (K * V))) :
  (forall l, l ∈ ls -> dget k l = None) -> dget k (concat ls) = None.
Proof using.
  clear. intros Hl. induction ls as [|l ls IH]; cbn [concat]; [done|]. rewrite dget_app, Hl by set_solver.
  apply IH. set_solver.
Qed.

(** The term of a layer that no later layer has. *)
Lemma merge_terms_layer pre s post t c :
  dget t (ls_terms s) = Some c -> (forall s', s' ∈ post -> dget t (ls_terms s') = None) ->
  dget t (merge_terms (pre ++ s :: post)) = Some c.
Proof using.
  clear UL U. intros Hs Hp. rewrite merge_terms_lookup, rev_app_distr, map_app, concat_app, dget_app.
  cbn [rev]. rewrite map_app, concat_app, dget_app. rewrite (dget_concat_None t (map ls_terms (rev post))).
  - cbn [map concat]. by rewrite app_nil_r, Hs.
  - intros l (s' & -> & Hs')%list_elem_of_fmap. apply Hp. by apply elem_of_rev_iff.
Qed.

Lemma build_bundle_fields sources b : build_bundle registry sources = Ok b ->
  Forall2 (fun n d => registry n = Some (Ok d)) (bu_detector_names b) (bu_detectors b) /\
  bu_detector_names b = ordered_union (map (fun s => mf_detectors (ls_manifest s)) sources) /\
  bu_terms b = (match merge_terms sources with [] => None | m => Some m end) /\
  bu_rules b = concat (map ls_rules sources) /\
  bu_policy b = merge (map (fun s => mf_policy (ls_manifest s)) sources) /\
  bu_profile_ids b = map ls_profile_id sources.
Proof using. clear UL.
  unfold build_bundle. destruct sources as [|s0 ss]; [done|]. intros Hb. bind_ok Hb as ds Eds. injection Hb as <-.
  cbn [bu_detector_names bu_detectors bu_terms bu_rules bu_policy bu_profile_ids].
  split_and!; try done. apply build_detectors_each; [apply ordered_union_NoDup|done].
Qed.

Lemma elem_layer_policy pre s post :
  mf_policy (ls_manifest s) ∈ map (fun s => mf_policy (ls_manifest s)) (pre ++ s :: post).
Proof using. rewrite map_app. apply elem_of_app. right. by left. Qed.

(** A bundle holds every layer: its policy is at least as strict as each layer's,
    each rule of a layer is a rule of the bundle, each detector a layer names is
    built by the factory of that name, and a term resolves to its canonical form
    in the most specific layer that lists it.  A detector runs on code only when its declared
    name is in the code-safe list. *)
Theorem bundle_holds_layers pre s post b :
  build_bundle registry (pre ++ s :: post) = Ok b ->
  stricter (bu_policy b) (mf_policy (ls_manifest s)) /\
  ls_rules s ⊆ bu_rules b /\
  (forall name, name ∈ mf_detectors (ls_manifest s) ->
     exists i d, bu_detector_names b !! i = Some name /\ bu_detectors b !! i = Some d /\ registry name = Some (Ok d)) /\
  (forall t c, dget t (ls_terms s) = Some c -> (forall s', s' ∈ post -> dget t (ls_terms s') = None) ->
     exists terms, bu_terms b = Some terms /\ dget t terms = Some c) /\
  (forall d, d ∈ code_safe_detectors b -> exists name, name ∈ CODE_SAFE_DETECTORS /\ registry name = Some (Ok d)).
Proof.
  intros (F & En & Et & Er & Ep & _)%build_bundle_fields. split_and!.
  - rewrite Ep. apply merge_lower, elem_layer_policy.
  - rewrite Er, map_app, concat_app. cbn [map concat]. set_solver.
  - intros name Hn. assert (Hi : name ∈ bu_detector_names b).
    { rewrite En. apply elem_of_ordered_union. exists (mf_detectors (ls_manifest s)). split; [|done].
      rewrite map_app. apply elem_of_app. right. by left. }
    apply list_elem_of_lookup in Hi as (i & Hi). destruct (Forall2_lookup_l _ _ _ _ _ F Hi) as (d & Hd & E).
    by exists i, d.
  - intros t c Hc Hp. pose proof (merge_terms_layer pre s post t c Hc Hp) as Hm. rewrite Et.
    destruct (merge_terms (pre ++ s :: post)) as [|e m]; [done|]. by eexists.
  - intros d Hd. unfold code_safe_detectors in Hd. apply list_elem_of_fmap in Hd as ([n d'] & -> & Hd).
    apply elem_of_lfilter in Hd as [Hz Hn]. py_elem in Hn. exists n. split; [done|].
    apply list_elem_of_lookup in Hz as (i & Hz). apply lookup_zip_Some in Hz as [H1 H2].
    exact (Forall2_lookup_lr _ _ _ _ _ _ F H1 H2).
Qed.
End BundleSpec.

(** ** The memo tables of the resolver *)

Section Memo.
Context {U : Unicode} {D : Type} (toml : str -> option jdict) (parse_rules : str -> option rules).
Context (require_signature : bool) (dirs : str -> option profile_dir).
Context (registry : str -> option (result profile_error D)) (detector_class : D -> str).
Context (max_depth : Z) (default_profile_ids : list str) {O : Type} (core : O) (build_inner : @bundle D -> O).

Definition file_source (profile_id : str) : result profile_error layer_source :=
  read_layer_source toml parse_rules require_signature (dirs profile_id) profile_id.

Definition empty_state : resolver_state := ResolverState (D := D) (O := O) ∅ ∅ ∅.

Definition resolve_files := resolve registry detector_class file_source max_depth default_profile_ids core build_inner.

(** The state after requests with these selections; a request that raised
    leaves the tables as they were. *)
Definition serve_requests (requests : list (list str)) : resolver_state :=
  foldl (fun st ids => match resolve_files ids st with Ok (_, st') => st' | Raise _ => st end) empty_state requests.

Definition answer {E A B} (r : result E (A * B)) : result E A :=
  match r with Ok (a, _) => Ok a | Raise e => Raise e end.

Notation make := (make_bundle registry file_source).

Definition memo_ok (st : resolver_state) : Prop :=
  (forall k b, rs_bundles st !! k = Some b -> make k = Ok b) /\
  forall k o, rs_inner st !! k = Some o ->
    exists b, make k = Ok b /\ o = build_inner b /\ rs_fingerprints st !! k = Some (bundle_fingerprint detector_class b).

Lemma file_source_id pid s : file_source pid = Ok s -> ls_profile_id s = pid.
Proof.
  unfold file_source, read_layer_source. intros Hr. destruct (dirs pid) as [d|]; [|done].
  destruct (pd_manifest d); [|done]. bind_ok Hr as m Em. bind_ok Hr as rs Er. bind_ok Hr as u Eu. by injection Hr as <-.
Qed.

Lemma make_bundle_ids k b : make k = Ok b -> bu_profile_ids b = k.
Proof.
  unfold make_bundle. destruct k as [|p k']; [by intros [= <-]|]. set (k := p :: k').
  intros Hb. bind_ok Hb as ss Ess. apply build_bundle_fields in Hb as (_ & _ & _ & _ & _ & ->).
  revert ss Ess. generalize k as l. intros l. induction l as [|x l IH] using rev_ind; intros ss Ess; [by injection Ess as <-|].
  rewrite rfold_app in Ess. bind_ok Ess as s1 E1. cbn [rfold] in Ess. bind_ok Ess as s2 E2. injection Ess as <-.
  bind_ok E2 as s Es. injection E2 as <-. rewrite map_app, (IH _ E1). cbn [map]. by rewrite (file_source_id _ _ Es).
Qed.

Lemma resolve_ordered_memo st k : memo_ok st ->
  match make k with
  | Ok b => exists st', resolve_ordered registry file_source k st = Ok (b, st') /\ memo_ok st'
  | Raise e => resolve_ordered registry file_source k st = Raise e
  end.
Proof.
  intros [Hb Hi]. unfold resolve_ordered. destruct (rs_bundles st !! k) as [b|] eqn:El.
  - rewrite (Hb _ _ El). by exists st.
  - destruct (make k) as [b|e] eqn:Em; cbn [rbind]; [|done]. eexists. split; [done|]. split; [|done].
    intros k' b'. cbn [rs_bundles]. intros [[<- <-]|[_ ?]]%lookup_insert_Some; auto.
Qed.

(** What [resolve] answers, tables aside. *)
Definition resolve_pure (profile_ids : list str) : result profile_error (@resolved_profile O) :=
  let! ordered := team_layers file_source max_depth default_profile_ids profile_ids in
  let! b := make ordered in
  match ordered with
  | [] => Ok (passthrough_resolved core)
  | _ => Ok (ResolvedProfile (bu_policy b) (Some (bundle_fingerprint detector_class b)) (build_inner b) ordered)
  end.

Lemma resolve_memo st ids : memo_ok st ->
  answer (resolve_files ids st) = resolve_pure ids /\
  forall a st', resolve_files ids st = Ok (a, st') -> memo_ok st'.
Proof.
  intros Hst. unfold resolve_files, resolve, resolve_team, resolve_pure.
  destruct (team_layers _ _ _ ids) as [k|e]; cbn [rbind]; [|by split].
  pose proof (resolve_ordered_memo st k Hst) as Ho. destruct (make k) as [b|e] eqn:Em; cbn [rbind].
  - destruct Ho as (st1 & -> & H1). cbn [rbind]. rewrite (make_bundle_ids _ _ Em).
    destruct k as [|p k']; [split; [done|intros a st' [= _ <-]; done]|]. set (k := p :: k') in *.
    destruct (rs_inner st1 !! k) as [o|] eqn:Ei.
    + destruct (proj2 H1 _ _ Ei) as (b' & Eb' & -> & ->). rewrite Em in Eb'. injection Eb' as <-.
      split; [done|]. by intros a st' [= _ <-].
    + split; [done|]. intros a st' [= _ <-]. destruct H1 as [B1 I1]. split; [done|]. cbn [rs_inner rs_fingerprints].
      intros k0 o0 [[<- <-]|[Hne Hk]]%lookup_insert_Some.
      * exists b. by rewrite lookup_insert_eq.
      * destruct (I1 _ _ Hk) as (b0 & ? & ? & ?). exists b0. by rewrite lookup_insert_ne.
  - rewrite Ho. by split.
Qed.

(** The memo tables do not show: whatever teams were served before, a selection
    resolves to the policy, fingerprint and orchestrator that its layers determine,
    and raises what they determine; the fingerprint table never misses a key of the orchestrator table. *)
Theorem resolver_memo_transparent requests ids :
  answer (resolve_files ids (serve_requests requests)) = resolve_pure ids.
Proof.
  apply resolve_memo. unfold serve_requests. induction requests as [|r rs IH] using rev_ind.
  - split; intros ? ?; cbn; rewrite lookup_empty; done.
  - rewrite foldl_snoc. destruct (resolve_files r _) as [[a st']|e] eqn:E; [|done]. exact (proj2 (resolve_memo _ _ IH) _ _ E).
Qed.
End Memo.

(** ** The claims *)

(** C20: The merge of layers is the loosest policy that is as strict as every
    layer: smallest size limit, blocking and guard when any layer asks, widest oracle
    coverage, providers intersected, canaries united, fail-closed when any layer is. *)
Theorem policy_merge_meet {U : Unicode} {UL : UnicodeLaws U} (layers : list policy_knobs) :
  layers <> [] ->
  (forall l, l ∈ layers -> stricter (merge layers) l) /\
  forall r, (forall l, l ∈ layers -> stricter r l) -> stricter r (merge layers).
Proof. intros Hne. split; [apply merge_lower|]. intros r. by apply merge_greatest. Qed.

(** C21: [resolve_extends] answers a list without repetition that holds the roots,
    puts every profile after all it extends and holds nothing the roots do not reach;
    when it raises, the cause is an unreadable manifest, a chain that
    returns to one of its profiles, or a chain one longer than the bound allows. *)
Theorem resolve_extends_sound read roots max_depth :
  match resolve_extends read roots max_depth with
  | Ok order => layered read order /\ (forall r, r ∈ roots -> r ∈ order) /\
                forall x, x ∈ order -> exists r, r ∈ roots /\ rtc (extends_rel read) r x
  | Raise e => explains read max_depth e
  end.
Proof.
  unfold resolve_extends. set (n := Z.to_nat _). destruct (rfold _ _ roots) as [order|e] eqn:Er.
  - revert order Er. induction roots as [|r rs IH] using rev_ind; intros order Er.
    + injection Er as <-. split_and!; [split; [constructor|done]|set_solver|set_solver].
    + rewrite rfold_app in Er. bind_ok Er as o1 E1. cbn [rfold] in Er. bind_ok Er as o2 E2. injection Er as <-.
      destruct (IH _ E1) as (L1 & R1 & X1). destruct (visit_ok _ _ _ _ _ _ L1 E2) as (L2 & R2 & ext & -> & X2).
      split_and!; [done|set_solver|]. intros x [Hx|Hx]%elem_of_app.
      * destruct (X1 x Hx) as (r0 & ? & ?). exists r0. set_solver.
      * exists r. split; [set_solver|]. by apply X2.
  - apply rfold_raise in Er as (o & r & _ & Er). eapply visit_raise; [..|done].
    + subst n. rewrite len_nil. lia.
    + intros i a b Ha Hb. by destruct i.
Qed.

(** ** Concrete inputs *)

Definition demo_core : policy_knobs :=
  PolicyKnobs 1000 false true (u8 "sampled:100") (Some {[u8 "a"; u8 "b"]}) [u8 "x"] default_overrides (Some 7) None.
Definition demo_team : policy_knobs :=
  PolicyKnobs 500 true false (u8 "any_local_finding") None [u8 "y"; u8 "x"] (FailOverrides FailClosed Continue Continue) None (Some 2).

Example demo_merge : merge (U := ru_unicode) [demo_core; demo_team] =
  PolicyKnobs 500 true true (u8 "always") (Some {[u8 "a"; u8 "b"]}) [u8 "x"; u8 "y"]
    (FailOverrides FailClosed Continue FailClosed) (Some 7) (Some 2).
Proof. vm_compute. reflexivity. Qed.

Lemma policy_merge_meet_witness : stricter (U := ru_unicode) (merge (U := ru_unicode) [demo_core; demo_team]) demo_team.
Proof. apply (policy_merge_meet (U := ru_unicode) [demo_core; demo_team]); [discriminate|set_solver]. Defined.

(** A diamond: [d] extends [b] and [c], which extend [a]; [loop] extends itself. *)
Definition demo_read (p : str) : result profile_error manifest :=
  let m ext := Ok (Manifest p ext [] [] default_knobs None None) in
  if str_eqb p (u8 "a") then m []
  else if str_eqb p (u8 "b") then m [u8 "a"]
  else if str_eqb p (u8 "c") then m [u8 "a"]
  else if str_eqb p (u8 "d") then m [u8 "b"; u8 "c"]
  else if str_eqb p (u8 "loop") then m [u8 "loop"]
  else Raise ProfileNotFoundError.

Example diamond_once : resolve_extends demo_read [u8 "d"; u8 "b"] MAX_EXTENDS_DEPTH = Ok [u8 "a"; u8 "b"; u8 "c"; u8 "d"].
Proof. vm_compute. reflexivity. Qed.

Example self_loop : resolve_extends demo_read [u8 "loop"] MAX_EXTENDS_DEPTH = Raise (ProfileCycleError [u8 "loop"; u8 "loop"]).
Proof. vm_compute. reflexivity. Qed.

Example too_deep : resolve_extends demo_read [u8 "d"] 1 = Raise (ProfileDepthError [u8 "d"; u8 "b"; u8 "a"]).
Proof. vm_compute. reflexivity. Qed.

Definition demo_layer (p : str) (detectors : list str) (terms : list (str * str)) : layer_source :=
  LayerSource p (Manifest p [] detectors [] demo_team None None) terms [] [].

Definition demo_registry (name : str) : option (result profile_error str) :=
  if memb name (CODE_SAFE_DETECTORS ++ NETWORK_DETECTORS) then Some (Ok name) else None.

Definition demo_layers : list layer_source :=
  [demo_layer (u8 "core") [u8 "regex_checksum"; u8 "corp_ner"] [(u8 "acme", u8 "ACME")];
   demo_layer (u8 "team") [u8 "ner_ru"; u8 "corp_ner"] [(u8 "acme", u8 "Acme Ltd")]].

Definition demo_bundle : @bundle str :=
  match build_bundle (U := ru_unicode) demo_registry demo_layers with Ok b => b | Raise _ => empty_bundle end.

Lemma bundle_holds_layers_witness :
  exists terms, bu_terms demo_bundle = Some terms /\ dget (u8 "acme") terms = Some (u8 "Acme Ltd").
Proof.
  apply (bundle_holds_layers (U := ru_unicode) demo_registry [demo_layer (u8 "core") [u8 "regex_checksum"; u8 "corp_ner"] [(u8 "acme", u8 "ACME")]]
    (demo_layer (u8 "team") [u8 "ner_ru"; u8 "corp_ner"] [(u8 "acme", u8 "Acme Ltd")]) [] demo_bundle).
  - vm_compute. reflexivity.
  - vm_compute. reflexivity.
  - by intros s' ?%not_elem_of_nil.
Defined.

(** The fingerprint of a bundle does not depend on the terms of its gazetteer
    nor on its allowlist. *)
Lemma fingerprint_ignores_terms {D} (cls : D -> str) (b : @bundle D) t1 t2 a1 a2 :
  bundle_fingerprint cls (Bundle (bu_detectors b) (Some t1) (bu_rules b) a1 (bu_policy b) (bu_profile_ids b) (bu_detector_names b)) =
  bundle_fingerprint cls (Bundle (bu_detectors b) (Some t2) (bu_rules b) a2 (bu_policy b) (bu_profile_ids b) (bu_detector_names b)).
Proof. reflexivity. Qed.

(** Two sets of files with one content hash: the separator may occur in the data. *)
Lemma content_hash_collision :
  compute_content_hash [(u8 "a", u8 "1"); (u8 "b", u8 "2")] =
  compute_content_hash [(u8 "a", u8 "1" ++ [0%N] ++ u8 "b" ++ [0%N] ++ u8 "2")].
Proof. vm_compute. reflexivity. Qed.
