(* ===== verification/Sse.v ===== *)
(** * Server-sent event streams ([sanitizer/streaming.py], [SseStreamDesanitizer])

    A response arrives as bytes of an SSE stream, cut anywhere.  The class cuts
    it into events, rewrites the text fields of Anthropic content block deltas and
    OpenAI chat chunks through the desanitizers of [Streaming.v], and passes
    every other event as it is.  The theorems: the cut of the bytes does not
    matter, nothing held trails the event that ends a stream, and the text of a content
    block comes out with its originals. *)

From S2P Require Import Prelude Text Json ContentBlocks Regex Placeholder Rules Sha256 CachePolicy Streaming.
Local Open Scope py_scope.

(** ** Python values *)

(** [bool(v)]; a float prints as ["0.0"] or ["-0.0"] when it is zero. *)
Definition truthy (v : json) : bool :=
  match v with
  | JNull => false
  | JBool b => b
  | JInt z => negb (z =? 0)
  | JFloat t => negb (str_eqb t (u8 "0.0") || str_eqb t (u8 "-0.0"))
  | JStr s => negb (str_eqb s [])
  | JList l => match l with [] => false | _ => true end
  | JObj d => match d with [] => false | _ => true end
  end.

(** [v or {}] when the result is a dict *)
Definition dict_or_empty (v : json) : option jdict :=
  match v with JObj d => Some d | _ => if truthy v then None else Some [] end.

(** What the model leaves open of the interpreter: [int] of a float, the
    integer that equals a float, and [str] of a list or dict. *)
Class PyValues := {
  float_trunc : str -> option Z;
  float_equals : str -> option Z;
  container_str : json -> str;
}.

(** ** Incremental UTF-8 decoding, errors="replace" *)

Inductive utf8_item :=
| UChar (c : N) (rest : list N)
| UBad (rest : list N)            (* one [U+FFFD] for the longest well-formed prefix *)
| UIncomplete.

(** Continuation bytes after a leading byte, less one, and the range of the first. *)
Definition utf8_lead (a : N) : option (N * N * N) :=
  if in_range 194 223 a then Some (0, 128, 191)%N
  else if (a =? 224)%N then Some (1, 160, 191)%N
  else if (a =? 237)%N then Some (1, 128, 159)%N
  else if in_range 225 239 a then Some (1, 128, 191)%N
  else if (a =? 240)%N then Some (2, 144, 191)%N
  else if in_range 241 243 a then Some (2, 128, 191)%N
  else if (a =? 244)%N then Some (2, 128, 143)%N
  else None.

Definition utf8_next (l : list N) : utf8_item :=
  match l with
  | [] => UIncomplete
  | a :: l1 =>
    if (a <? 128)%N then UChar a l1 else
    match utf8_lead a with
    | None => UBad l1
    | Some (n, lo, hi) =>
      match l1 with
      | [] => UIncomplete
      | b :: l2 =>
        if negb (in_range lo hi b) then UBad l1
        else if (n =? 0)%N then UChar ((a - 192) * 64 + (b - 128))%N l2
        else match l2 with
             | [] => UIncomplete
             | c :: l3 =>
               if negb (in_range 128 191 c) then UBad l2
               else if (n =? 1)%N then UChar ((a - 224) * 4096 + (b - 128) * 64 + (c - 128))%N l3
               else match l3 with
                    | [] => UIncomplete
                    | d :: l4 =>
                      if negb (in_range 128 191 d) then UBad l3
                      else UChar ((a - 240) * 262144 + (b - 128) * 4096 + (c - 128) * 64 + (d - 128))%N l4
                    end
             end
      end
    end
  end.

(** The text of the bytes, and the bytes of an unfinished character; each step
    takes a byte at least, so the length is enough fuel. *)
Fixpoint utf8_go (fuel : nat) (l : list N) : str * list N :=
  match fuel with
  | O => ([], l)
  | S n =>
    match utf8_next l with
    | UChar c r => let '(t, p) := utf8_go n r in (c :: t, p)
    | UBad r => let '(t, p) := utf8_go n r in (65533%N :: t, p)
    | UIncomplete => ([], l)
    end
  end.

Definition utf8_inc (l : list N) : str * list N := utf8_go (length l) l.

(** ** Events *)

(** [_SSE_BOUNDARY], its alternatives in order *)
Definition SSE_BOUNDARY : list str := [[13; 10; 13; 10]; [10; 10]; [13; 13]]%N.

(** The boundary the text starts with *)
Definition boundary_at (s : str) : option str := List.find (starts_with s) SSE_BOUNDARY.

(** The leftmost boundary: the event up to and with it, the boundary, the rest. *)
Fixpoint next_event (s : str) : option (str * str * str) :=
  match boundary_at s with
  | Some b => Some (b, b, drop (length b) s)
  | None => match s with
            | [] => None
            | c :: s' => match next_event s' with Some (e, b, r) => Some (c :: e, b, r) | None => None end
            end
  end.

Definition extract_data_line (event_text : str) : option str :=
  match List.filter (fun line => starts_with line (u8 "data:")) (splitlines event_text) with
  | line :: _ => Some (lstrip_by (N.eqb 32) (drop 5 line))
  | [] => None
  end.

Definition boundary_from (event_text : str) : str :=
  match next_event event_text with Some (_, b, _) => b | None => [10; 10]%N end.

Definition is_crlf (c : N) : bool := (c =? 13)%N || (c =? 10)%N.

Definition rebuild_event (original_event : str) (new_obj : jdict) (boundary : str) : str :=
  let line l := if starts_with l (u8 "data:") then u8 "data: " ++ dumps (JObj new_obj) else l in
  let sep := if contains boundary [13; 10]%N then [13; 10]%N else [10%N] in
  join sep (map line (splitlines (rstrip_by is_crlf original_event))) ++ boundary.

Definition delta_event (delta : jdict) (index : Z) : str :=
  u8 "event: content_block_delta" ++ [10%N] ++ u8 "data: " ++
  dumps (JObj [(u8 "type", JStr (u8 "content_block_delta")); (u8 "index", JInt index); (u8 "delta", JObj delta)]).

Definition make_text_delta_event (index : Z) (text : str) : str :=
  delta_event [(u8 "type", JStr (u8 "text_delta")); (u8 "text", JStr text)] index.

Definition make_input_json_delta_event (index : Z) (partial_json : str) : str :=
  delta_event [(u8 "type", JStr (u8 "input_json_delta")); (u8 "partial_json", JStr partial_json)] index.

Definition is_stream_error_event (obj : json) : bool :=
  match obj with
  | JObj d => json_is (jget (u8 "type") d) (u8 "error") || (truthy (jget (u8 "error") d) && negb (dmem (u8 "choices") d))
  | _ => false
  end.

(** ** Errors that reach the caller *)

Inductive sse_error :=
| FromDesanitizer (e : stream_error)
| DigitsError                     (* [ValueError] of [json.loads] *)
| IndexTypeError                  (* [TypeError] of [int(index)] *)
| IndexValueError                 (* [ValueError] or [OverflowError] of [int(index)] *)
| TailTypeError                   (* a held tail meets a field that is not text *)
| SurrogateError.                 (* [UnicodeEncodeError] *)

Inductive emitted := EBytes (b : list N) | EText (t : str).

(** ** [_ChatChoice] *)

Record chat_choice := ChatChoice {
  cc_content : option desanitizer;
  cc_function_call : option desanitizer;
  cc_tools : tool_calls;
  cc_tool_index : option Z;
}.

Definition chat_choice_init (mapping : list pair) : chat_choice := ChatChoice None None (tool_calls_init mapping) None.

(** A delta of held tails: [ht_calls] is what [flush_before_tool_call] puts
    under [tool_calls], [ht_more] what [flush] adds. *)
Record held_tail := HeldTail {
  ht_content : option str;
  ht_calls : list (Z * str);
  ht_function : option str;
  ht_more : list (Z * str);
}.

Definition tail_empty (h : held_tail) : bool :=
  match h with HeldTail None [] None [] => true | _ => false end.

Definition call_obj (c : Z * str) : json :=
  JObj [(u8 "index", JInt c.1); (u8 "function", JObj [(u8 "arguments", JStr c.2)])].

(** The dict, keys in the order they were set. *)
Definition tail_delta (h : held_tail) : jdict :=
  let content := match ht_content h with Some t => [(u8 "content", JStr t)] | None => [] end in
  let function := match ht_function h with Some t => [(u8 "function_call", JObj [(u8 "arguments", JStr t)])] | None => [] end in
  let calls := match ht_calls h ++ ht_more h with [] => [] | l => [(u8 "tool_calls", JList (map call_obj l))] end in
  match ht_calls h with [] => content ++ function ++ calls | _ => content ++ calls ++ function end.

(** [tail] when it is not empty *)
Definition some_text (s : str) : option str := if str_eqb s [] then None else Some s.

Section Sse.
Context {U : Unicode} {F : FloatText} {V : PyValues}.

(** [coerce_tool_index] *)
Definition coerce_tool_index (v : json) : option Z :=
  match v with JInt z => Some z | JStr s => py_int s | _ => None end.

(** [int(obj.get("index", 0))] *)
Definition event_index (obj : jdict) : result sse_error Z :=
  match dget (u8 "index") obj with
  | None => Ok 0
  | Some (JInt z) => Ok z
  | Some (JBool b) => Ok (if b then 1 else 0)
  | Some (JFloat t) => match float_trunc t with Some z => Ok z | None => Raise IndexValueError end
  | Some (JStr s) => match py_int s with Some z => Ok z | None => Raise IndexValueError end
  | Some _ => Raise IndexTypeError
  end.

Definition lift_ds {A} (r : result stream_error A) : result sse_error A :=
  match r with Ok a => Ok a | Raise e => Raise (FromDesanitizer e) end.

(** [tc.get("index", 0)] *)
Definition index_of (tc : jdict) : option Z := coerce_tool_index (default (JInt 0) (dget (u8 "index") tc)).

Definition feed_tool_call (c : chat_choice) (tc : json) : result sse_error (json * chat_choice) :=
  match tc with
  | JObj d =>
    match jget (u8 "function") d with
    | JObj fn =>
      match jget (u8 "arguments") fn with
      | JStr arguments =>
        match index_of d with
        | None => Ok (tc, c)
        | Some idx =>
          let! fed := lift_ds (tc_feed (cc_tools c) idx arguments) in
          Ok (JObj (dset (u8 "function") (JObj (dset (u8 "arguments") (JStr fed.1) fn)) d),
              ChatChoice (cc_content c) (cc_function_call c) fed.2 (Some idx))
        end
      | _ => Ok (tc, c)
      end
    | _ => Ok (tc, c)
    end
  | _ => Ok (tc, c)
  end.

Definition flush_content (c : chat_choice) : option str :=
  match cc_content c with Some ds => some_text (flush ds).1 | None => None end.

Definition flush_before_tool_call (c : chat_choice) : held_tail * chat_choice :=
  let '(calls, tools) :=
    match cc_tool_index c with
    | Some i => let '(tail, t) := tc_flush_index (cc_tools c) i in
                (match some_text tail with Some s => [(i, s)] | None => [] end, t)
    | None => ([], cc_tools c)
    end in
  (HeldTail (flush_content c) calls None [], ChatChoice None (cc_function_call c) tools (cc_tool_index c)).

(** [_ChatChoice.flush]; the object is dropped by its callers. *)
Definition chat_flush (c : chat_choice) : held_tail :=
  let '(h, c1) := flush_before_tool_call c in
  let function := match cc_function_call c1 with Some ds => some_text (flush ds).1 | None => None end in
  HeldTail (ht_content h) (ht_calls h) function (tc_flush (cc_tools c1)).1.

(** *** [_merge_tail] *)

(** [list(v or [])] *)
Definition list_or_empty (v : json) : result sse_error (list json) :=
  match v with
  | JList l => Ok l
  | JStr s => Ok (map (fun c => JStr [c]) s)
  | JObj d => Ok (map JStr (dkeys d))
  | _ => if truthy v then Raise TailTypeError else Ok []
  end.

(** [str(v or "")] *)
Definition str_or_empty (v : json) : str :=
  if truthy v then
    match v with
    | JStr s => s
    | JInt z => dump_int z
    | JFloat t => t
    | JBool _ => u8 "True"
    | _ => container_str v
    end
  else [].

(** The arguments of a call with this index, when [existing] is one. *)
Definition call_matches (index : Z) (existing : json) : option (jdict * jdict * str) :=
  match existing with
  | JObj d => match jget (u8 "function") d with
              | JObj fn => match jget (u8 "arguments") fn with
                           | JStr a => if bool_decide (index_of d = Some index) then Some (d, fn, a) else None
                           | _ => None
                           end
              | _ => None
              end
  | _ => None
  end.

(** The last call with the index gets the tail appended, else a new call is added:
    the list is walked from its end. *)
Fixpoint append_rev (index : Z) (tail : str) (calls : list json) : option (list json) :=
  match calls with
  | [] => None
  | e :: calls' =>
    match call_matches index e with
    | Some (d, fn, a) => Some (JObj (dset (u8 "function") (JObj (dset (u8 "arguments") (JStr (a ++ tail)) fn)) d) :: calls')
    | None => match append_rev index tail calls' with Some l => Some (e :: l) | None => None end
    end
  end.

Definition append_call (calls : list json) (c : Z * str) : list json :=
  match append_rev c.1 c.2 (rev calls) with Some l => rev l | None => calls ++ [call_obj c] end.

Definition merge_tail (delta : jdict) (tail : held_tail) : result sse_error jdict :=
  let! d1 := match ht_content tail with
             | None => Ok delta
             | Some t => match jget (u8 "content") delta with
                         | JStr s => Ok (dset (u8 "content") (JStr (s ++ t)) delta)
                         | v => if truthy v then Raise TailTypeError else Ok (dset (u8 "content") (JStr t) delta)
                         end
             end in
  let d2 := match ht_function tail with
            | None => d1
            | Some t => let fc := match jget (u8 "function_call") d1 with JObj f => f | _ => [] end in
                        dset (u8 "function_call") (JObj (dset (u8 "arguments") (JStr (str_or_empty (jget (u8 "arguments") fc) ++ t)) fc)) d1
            end in
  let! calls := list_or_empty (jget (u8 "tool_calls") d2) in
  match foldl append_call calls (ht_calls tail ++ ht_more tail) with
  | [] => Ok d2
  | l => Ok (dset (u8 "tool_calls") (JList l) d2)
  end.

(** ** [SseStreamDesanitizer] *)

(** What the events change: everything but the input side. *)
Record sse_core := Core {
  co_mapping : list pair;
  co_blocks : list (Z * desanitizer);
  co_block_types : list (Z * bool);           (* [true]: tool_use, [false]: text *)
  co_chat : list (Z * chat_choice);
  co_chat_meta : jdict;
}.

(** The bytes of [_buf] are always the encoding of a text: kept as the text. *)
Record sse := Sse {
  ss_source_is_bytes : option bool;
  ss_utf8 : list N;                           (* bytes the decoder holds *)
  ss_buf : str;
  ss_core : sse_core;
}.

Definition sse_init (mapping : list pair) : sse := Sse None [] [] (Core mapping [] [] [] []).

Definition CHAT_META_KEYS : list str :=
  [u8 "id"; u8 "object"; u8 "created"; u8 "model"; u8 "system_fingerprint"; u8 "service_tier"].

Definition with_blocks (blocks : list (Z * desanitizer)) (types : list (Z * bool)) (s : sse_core) : sse_core :=
  Core (co_mapping s) blocks types (co_chat s) (co_chat_meta s).
Definition with_chat (chat : list (Z * chat_choice)) (s : sse_core) : sse_core :=
  Core (co_mapping s) (co_blocks s) (co_block_types s) chat (co_chat_meta s).

(** [_encode]: bytes when the source is bytes *)
Definition encode (source : option bool) (text : str) : result sse_error emitted :=
  match source with
  | Some true => match utf8_encode text with Some b => Ok (EBytes b) | None => Raise SurrogateError end
  | _ => Ok (EText text)
  end.

Definition encode_events (source : option bool) (texts : list str) : result sse_error (list emitted) :=
  rfold (fun out t => let! e := encode source t in Ok (out ++ [e])) [] texts.

Definition block_tail_event (tool_use : bool) (idx : Z) (tail : str) : str :=
  if tool_use then make_input_json_delta_event idx tail else make_text_delta_event idx tail.

Definition chat_tail (s : sse_core) (index : Z) (h : held_tail) : str :=
  u8 "data: " ++
  dumps (JObj (dset (u8 "choices")
    (JList [JObj [(u8 "index", JInt index); (u8 "delta", JObj (tail_delta h)); (u8 "finish_reason", JNull)]]) (co_chat_meta s)))
  ++ [10; 10]%N.

(** [_held_tails]: what is emitted; the buffers are emptied. *)
Definition held_tails (s : sse_core) : list str * sse_core :=
  let blocks := concat (map (fun e : Z * desanitizer =>
    match some_text (flush e.2).1 with
    | Some tail => [block_tail_event (default false (dget e.1 (co_block_types s))) e.1 tail ++ [10; 10]%N]
    | None => []
    end) (co_blocks s)) in
  let chats := concat (map (fun e : Z * chat_choice =>
    let h := chat_flush e.2 in if tail_empty h then [] else [chat_tail s e.1 h])
    (sort_on (fun e => [zk e.1]) (co_chat s))) in
  (blocks ++ chats, with_chat [] (with_blocks [] [] s)).

(** *** [_rewrite_choice] *)

Inductive choice_out := Unchanged | HeldBack | Changed (c : jdict).

Definition first_index (calls : list json) : option Z :=
  match omap (fun tc => match tc with JObj d => index_of d | _ => None end) calls with i :: _ => Some i | [] => None end.

Definition feed_calls (c : chat_choice) (calls : list json) : result sse_error (list json * chat_choice) :=
  rfold (fun w tc => let! r := feed_tool_call w.2 tc in Ok (w.1 ++ [r.1], r.2)) ([], c) calls.

(** [delta["function_call"]] when its arguments are a string *)
Definition function_arguments (delta : jdict) : option (jdict * str) :=
  match jget (u8 "function_call") delta with
  | JObj fc => match jget (u8 "arguments") fc with JStr a => Some (fc, a) | _ => None end
  | _ => None
  end.

Definition feed_content (s : sse_core) (content : json) (w : jdict * chat_choice) : result sse_error (jdict * chat_choice) :=
  match content with
  | JStr t =>
    let ds := default (desanitizer_init (co_mapping s) None) (cc_content w.2) in
    let! fed := lift_ds (feed ds t) in
    Ok (dset (u8 "content") (JStr fed.1) w.1,
        ChatChoice (Some fed.2) (cc_function_call w.2) (cc_tools w.2) (cc_tool_index w.2))
  | _ => Ok w
  end.

Definition feed_calls_field (calls : json) (w : jdict * chat_choice) : result sse_error (jdict * chat_choice) :=
  match calls with
  | JList l => let! fed := feed_calls w.2 l in Ok (dset (u8 "tool_calls") (JList fed.1) w.1, fed.2)
  | _ => Ok w
  end.

Definition feed_function (s : sse_core) (f : option (jdict * str)) (w : jdict * chat_choice) : result sse_error (jdict * chat_choice) :=
  match f with
  | Some (fc, a) =>
    let ds := default (desanitizer_init (co_mapping s) (Some json_string_escape)) (cc_function_call w.2) in
    let! fed := lift_ds (feed ds a) in
    Ok (dset (u8 "function_call") (JObj (dset (u8 "arguments") (JStr fed.1) fc)) w.1,
        ChatChoice (cc_content w.2) (Some fed.2) (cc_tools w.2) (cc_tool_index w.2))
  | None => Ok w
  end.

(** What goes before the choice, the choice, and the state. *)
Definition rewrite_choice (s : sse_core) (choice : json) : result sse_error (list str * choice_out * sse_core) :=
  match choice with
  | JObj ch =>
    match jget (u8 "delta") ch, index_of ch with
    | JObj delta, Some idx =>
      let finishing := negb (bool_decide (jget (u8 "finish_reason") ch = JNull)) in
      let content := jget (u8 "content") delta in
      let calls := jget (u8 "tool_calls") delta in
      let function := function_arguments delta in
      let has_content := match content with JStr _ => true | _ => false end in
      let has_calls := match calls with JList _ => true | _ => false end in
      let has_function := match function with Some _ => true | None => false end in
      let known := match dget idx (co_chat s) with Some _ => true | None => false end in
      if negb (has_content || has_calls || has_function) && negb (finishing && known) then Ok ([], Unchanged, s) else
      let state := default (chat_choice_init (co_mapping s)) (dget idx (co_chat s)) in
      let '(before, state1) :=
        match (match calls with JList l => first_index l | _ => None end) with
        | Some i => if bool_decide (Some i <> cc_tool_index state)
                    then let '(h, c) := flush_before_tool_call state in
                         (if tail_empty h then [] else [chat_tail s idx h], c)
                    else ([], state)
        | None => ([], state)
        end in
      let! w1 := feed_content s content (delta, state1) in
      let! w2 := feed_calls_field calls w1 in
      let! w3 := feed_function s function w2 in
      if finishing then
        let! d := merge_tail w3.1 (chat_flush w3.2) in
        Ok (before, Changed (dset (u8 "delta") (JObj d) ch), with_chat (ddel idx (co_chat s)) s)
      else
        let s' := with_chat (dset idx w3.2 (co_chat s)) s in
        if has_content && bool_decide (dkeys w3.1 = [u8 "content"]) && json_is (jget (u8 "content") w3.1) [] &&
           bool_decide (jget (u8 "logprobs") ch = JNull)
        then Ok (before, HeldBack, s')
        else Ok (before, Changed (dset (u8 "delta") (JObj w3.1) ch), s')
    | _, _ => Ok ([], Unchanged, s)
    end
  | _ => Ok ([], Unchanged, s)
  end.

(** *** [_process_chat] *)

Definition chat_meta_update (obj meta : jdict) : jdict :=
  foldl (fun m k => match dget k obj with Some v => dset k v m | None => m end) meta CHAT_META_KEYS.

Record chat_walk := ChatWalk {
  cw_before : list str;
  cw_choices : list json;
  cw_changed : bool;
  cw_state : sse_core;
}.

Definition walk_choice (w : chat_walk) (choice : json) : result sse_error chat_walk :=
  let! r := rewrite_choice (cw_state w) choice in
  let '(before, rw, s') := r in
  Ok (match rw with
      | Unchanged => ChatWalk (cw_before w ++ before) (cw_choices w ++ [choice]) (cw_changed w) s'
      | HeldBack => ChatWalk (cw_before w ++ before) (cw_choices w) true s'
      | Changed c => ChatWalk (cw_before w ++ before) (cw_choices w ++ [JObj c]) true s'
      end).

Definition process_chat (s : sse_core) (event_text : str) (obj : jdict) (choices : list json) : result sse_error (list str * sse_core) :=
  let s0 := Core (co_mapping s) (co_blocks s) (co_block_types s) (co_chat s) (chat_meta_update obj (co_chat_meta s)) in
  let! w := rfold walk_choice (ChatWalk [] [] false s0) choices in
  if negb (cw_changed w) then Ok (cw_before w ++ [event_text], cw_state w)
  else if (match choices with [] => false | _ => true end) && (match cw_choices w with [] => true | _ => false end) &&
          bool_decide (jget (u8 "usage") obj = JNull)
  then Ok (cw_before w, cw_state w)
  else Ok (cw_before w ++ [rebuild_event event_text (dset (u8 "choices") (JList (cw_choices w)) obj) (boundary_from event_text)],
           cw_state w).

(** *** [_process_event] *)

Definition start_block (s : sse_core) (obj : jdict) : result sse_error sse_core :=
  match dict_or_empty (jget (u8 "content_block") obj) with
  | None => Ok s
  | Some cb =>
    let! idx := event_index obj in
    if json_is (jget (u8 "type") cb) (u8 "text") then
      Ok (with_blocks (dset idx (desanitizer_init (co_mapping s) None) (co_blocks s)) (dset idx false (co_block_types s)) s)
    else if json_is (jget (u8 "type") cb) (u8 "tool_use") then
      Ok (with_blocks (dset idx (desanitizer_init (co_mapping s) (Some json_string_escape)) (co_blocks s))
                      (dset idx true (co_block_types s)) s)
    else Ok s
  end.

(** A text delta or a JSON delta: the field of [delta] that is rewritten. *)
Definition rewrite_delta (s : sse_core) (event_text : str) (obj delta : jdict) (field : str) : result sse_error (list str * sse_core) :=
  let! idx := event_index obj in
  match default (JStr []) (dget field delta) with
  | JStr text_in =>
    match dget idx (co_blocks s) with
    | None => Ok ([event_text], s)
    | Some ds =>
      let! fed := lift_ds (feed ds text_in) in
      let s' := with_blocks (dset idx fed.2 (co_blocks s)) (co_block_types s) s in
      match fed.1 with
      | [] => Ok ([], s')
      | rewritten => Ok ([rebuild_event event_text
                           (dset (u8 "delta") (JObj (dset field (JStr rewritten) delta)) obj) (boundary_from event_text)], s')
      end
    end
  | _ => Ok ([event_text], s)
  end.

Definition stop_block (s : sse_core) (event_text : str) (obj : jdict) : result sse_error (list str * sse_core) :=
  let! idx := event_index obj in
  let tool_use := default false (dget idx (co_block_types s)) in
  let s' := with_blocks (ddel idx (co_blocks s)) (ddel idx (co_block_types s)) s in
  match dget idx (co_blocks s) with
  | None => Ok ([event_text], s')
  | Some ds =>
    match some_text (flush ds).1 with
    | Some tail => Ok ([block_tail_event tool_use idx tail ++ boundary_from event_text; event_text], s')
    | None => Ok ([event_text], s')
    end
  end.

(** The events to send, before [_encode]. *)
Definition process_texts (s : sse_core) (event_text : str) : result sse_error (list str * sse_core) :=
  match extract_data_line event_text with
  | None => Ok ([event_text], s)
  | Some data_str =>
    if str_eqb data_str (u8 "[DONE]") then let '(tails, s') := held_tails s in Ok (tails ++ [event_text], s') else
    match loads_exc data_str with
    | Raise JSONDecodeError => Ok ([event_text], s)
    | Raise TooManyDigits => Raise DigitsError
    | Ok obj =>
      if is_stream_error_event obj then let '(tails, s') := held_tails s in Ok (tails ++ [event_text], s') else
      match obj with
      | JObj d =>
        let ev_type := jget (u8 "type") d in
        if json_is ev_type (u8 "content_block_start") then let! s' := start_block s d in Ok ([event_text], s') else
        let delta := match dict_or_empty (jget (u8 "delta") d) with Some x => x | None => [] end in
        let delta_type := jget (u8 "type") delta in
        if json_is ev_type (u8 "content_block_delta") && json_is delta_type (u8 "text_delta")
        then rewrite_delta s event_text d delta (u8 "text") else
        if json_is ev_type (u8 "content_block_delta") && json_is delta_type (u8 "input_json_delta")
        then rewrite_delta s event_text d delta (u8 "partial_json") else
        if json_is ev_type (u8 "content_block_stop") then stop_block s event_text d else
        match jget (u8 "choices") d with
        | JList choices => process_chat s event_text d choices
        | _ => Ok ([event_text], s)
        end
      | _ => Ok ([event_text], s)
      end
    end
  end.

Definition process_event (source : option bool) (s : sse_core) (event_text : str) : result sse_error (list emitted * sse_core) :=
  let! r := process_texts s event_text in
  let! out := encode_events source r.1 in
  Ok (out, r.2).

(** [_drain]: what is emitted, the state, and what is left of the buffer.  An
    event takes two characters at least, so the length is enough fuel. *)
Fixpoint drain_go (fuel : nat) (source : option bool) (s : sse_core) (buf : str) : result sse_error (list emitted * sse_core * str) :=
  match fuel with
  | O => Ok ([], s, buf)
  | S n =>
    match next_event buf with
    | None => Ok ([], s, buf)
    | Some (event_text, _, rest) =>
      let! r := process_event source s event_text in
      let! r' := drain_go n source r.2 rest in
      Ok (r.1 ++ r'.1.1, r'.1.2, r'.2)
    end
  end.

Definition sse_drain (source : option bool) (s : sse_core) (buf : str) : result sse_error (list emitted * sse_core * str) :=
  drain_go (length buf) source s buf.

(** [chunk if isinstance(chunk, bytes) else chunk.encode("utf-8")] *)
Definition chunk_bytes (chunk : emitted) : option (list N) :=
  match chunk with EBytes b => Some b | EText t => utf8_encode t end.

Definition sse_feed (s : sse) (chunk : emitted) : result sse_error (list emitted * sse) :=
  let source := match ss_source_is_bytes s with
                | Some b => b
                | None => match chunk with EBytes _ => true | EText _ => false end
                end in
  match chunk_bytes chunk with
  | None => Raise SurrogateError
  | Some raw =>
    let '(decoded, held) := utf8_inc (ss_utf8 s ++ raw) in
    let! r := sse_drain (Some source) (ss_core s) (ss_buf s ++ decoded) in
    Ok (r.1.1, Sse (Some source) held r.2 r.1.2)
  end.

Definition sse_flush (s : sse) : result sse_error (list emitted * sse) :=
  let tail_decoded := match ss_utf8 s with [] => [] | _ => [65533%N] end in
  let source := ss_source_is_bytes s in
  let! r := sse_drain source (ss_core s) (ss_buf s ++ tail_decoded) in
  let '(tails, core) := held_tails r.1.2 in
  let! out := encode_events source tails in
  let! last := match r.2 with [] => Ok [] | partial => let! e := encode source partial in Ok [e] end in
  Ok (r.1.1 ++ out ++ last, Sse source [] [] core).
End Sse.

(** ** A stream in the model *)

Section Runs.
Context {U : Unicode} {F : FloatText} {V : PyValues}.

(** [feed] on each chunk, the outputs one after the other *)
Definition feed_all (s : sse) (chunks : list emitted) : result sse_error (list emitted * sse) :=
  rfold (fun w c => let! r := sse_feed w.2 c in Ok (w.1 ++ r.1, r.2)) ([], s) chunks.

(** The same for events that are cut already. *)
Definition events_all (s : sse_core) (events : list str) : result sse_error (list str * sse_core) :=
  rfold (fun w e => let! r := process_texts w.2 e in Ok (w.1 ++ r.1, r.2)) ([], s) events.
End Runs.

Definition no_floats : PyValues := {| float_trunc _ := None; float_equals _ := None; container_str _ := [] |}.

Definition demo_mapping : list pair := [(u8 "Acme", u8 "[ORG_001]")].
Definition demo_stream : str :=
  js8 "event: content_block_start" ++ [10%N] ++ js8 "data: {'type': 'content_block_start', 'index': 0, 'content_block': {'type': 'text', 'text': ''}}" ++ [10; 10]%N ++
  js8 "data: {'type': 'content_block_delta', 'index': 0, 'delta': {'type': 'text_delta', 'text': 'é for [ORG'}}" ++ [10; 10]%N ++
  js8 "data: {'type': 'content_block_delta', 'index': 0, 'delta': {'type': 'text_delta', 'text': '_001].'}}" ++ [10; 10]%N ++
  js8 "data: {'type': 'content_block_stop', 'index': 0}" ++ [10; 10]%N.

Definition demo_bytes : list N := default [] (utf8_encode demo_stream).

Definition demo_out : str :=
  js8 "event: content_block_start" ++ [10%N] ++ js8 "data: {'type': 'content_block_start', 'index': 0, 'content_block': {'type': 'text', 'text': ''}}" ++ [10; 10]%N ++
  js8 "data: {'type': 'content_block_delta', 'index': 0, 'delta': {'type': 'text_delta', 'text': 'é'}}" ++ [10; 10]%N ++
  js8 "data: {'type': 'content_block_delta', 'index': 0, 'delta': {'type': 'text_delta', 'text': ' '}}" ++ [10; 10]%N ++
  js8 "event: content_block_delta" ++ [10%N] ++ js8 "data: {'type': 'content_block_delta', 'index': 0, 'delta': {'type': 'text_delta', 'text': 'for Acme.'}}" ++ [10; 10]%N ++
  js8 "data: {'type': 'content_block_stop', 'index': 0}" ++ [10; 10]%N.

Definition texts_of (l : list emitted) : str :=
  concat (map (fun e => match e with EText t => t | EBytes b => utf8_decode b end) l).

Example demo_restored :
  match feed_all (U := ru_unicode) (F := id_floats) (V := no_floats) (sse_init demo_mapping)
          [EBytes (take 140 demo_bytes); EBytes (take 60 (drop 140 demo_bytes)); EBytes (drop 200 demo_bytes)] with
  | Ok (out, _) => texts_of out = demo_out
  | Raise _ => False
  end.
Proof. vm_compute. reflexivity. Qed.

(** A line separator inside the JSON text of an event (JSON allows it raw):
    [splitlines] cuts the data line there, what is left does not parse, and the
    event goes out with its placeholder, ahead of the text that is still held. *)
Definition separator_stream : str :=
  js8 "data: {'type': 'content_block_start', 'index': 0, 'content_block': {'type': 'text', 'text': ''}}" ++ [10; 10]%N ++
  js8 "data: {'type': 'content_block_delta', 'index': 0, 'delta': {'type': 'text_delta', 'text': 'first'}}" ++ [10; 10]%N.
Definition separator_event : str :=
  js8 "data: {'type': 'content_block_delta', 'index': 0, 'delta': {'type': 'text_delta', 'text': '" ++ [8232%N] ++ js8 "[ORG_001]'}}" ++ [10; 10]%N.

Lemma line_separator_skipped :
  match feed_all (U := ru_unicode) (F := id_floats) (V := no_floats) (sse_init demo_mapping) [EText separator_stream] with
  | Ok (out, s) =>
    length out = 1%nat /\
    match sse_feed (U := ru_unicode) (F := id_floats) (V := no_floats) s (EText separator_event) with
    | Ok (out', s') => out' = [EText separator_event] /\ map (fun e => ds_buffer e.2) (co_blocks (ss_core s')) = [u8 "first"]
    | Raise _ => False
    end
  | Raise _ => False
  end.
Proof. vm_compute. repeat split. Qed.

(** ** The cut of the bytes *)

Lemma starts_with_app x y p :
  starts_with (x ++ y) p = true -> starts_with x p = true \/ exists z, z <> [] /\ p = x ++ z.
Proof.
  unfold starts_with. revert x. induction p as [|a p IH]; intros x; cbn; [by left|].
  destruct x as [|b x]; cbn.
  - intros _. right. by exists (a :: p).
  - destruct (N.eqb_spec a b) as [->|]; cbn; [|done]. intros [H|(z & Hz & ->)]%IH; [by left|].
    right. by exists z.
Qed.

Lemma starts_with_more x y p : starts_with x p = true -> starts_with (x ++ y) p = true.
Proof.
  unfold starts_with. revert x. induction p as [|a p IH]; intros [|b x]; cbn; try done.
  destruct (a =? b)%N; cbn; [apply IH|done].
Qed.

(** No unfinished boundary holds a boundary. *)
Definition proper_prefixes (p : str) : list str := map (fun n => take n p) (seq 0 (length p)).

Lemma proper_prefix_elem (x z p : str) : z <> [] -> p = x ++ z -> x ∈ proper_prefixes p.
Proof.
  intros Hz ->. unfold proper_prefixes. apply list_elem_of_fmap. exists (length x).
  split; [by rewrite take_app_length|]. apply elem_of_seq. rewrite length_app. destruct z; [done|cbn; lia].
Qed.

Lemma unfinished_boundary : forallb (fun p => forallb (fun x => bool_decide (next_event x = None)) (proper_prefixes p)) SSE_BOUNDARY = true.
Proof. vm_compute. reflexivity. Qed.

Lemma boundary_at_app x y b : boundary_at (x ++ y) = Some b -> boundary_at x = Some b \/ next_event x = None.
Proof.
  intros Hb. pose proof (find_some _ _ Hb) as [Hin Hs].
  destruct (next_event x) as [e|] eqn:En; [left|by right].
  assert (K : forall p, p ∈ SSE_BOUNDARY -> starts_with (x ++ y) p = true -> starts_with x p = true).
  { intros p Hp [H|(z & Hz & E)]%starts_with_app; [done|]. exfalso.
    pose proof unfinished_boundary as Hu. rewrite forallb_forall in Hu. apply list_elem_of_In in Hp.
    apply Hu in Hp. rewrite forallb_forall in Hp. specialize (Hp x).
    rewrite bool_decide_eq_true, En in Hp. discriminate Hp. apply list_elem_of_In. by eapply proper_prefix_elem. }
  unfold boundary_at in *. rewrite <-Hb. clear Hb Hs Hin. revert K.
  generalize SSE_BOUNDARY as ps. induction ps as [|p ps IH]; intros K; cbn [List.find]; [done|].
  destruct (starts_with x p) eqn:E1.
  - by rewrite (starts_with_more _ _ _ E1).
  - destruct (starts_with (x ++ y) p) eqn:E2; [rewrite K in E1; [done|by left|done]|].
    apply IH. intros q Hq. apply K. by right.
Qed.

Lemma boundary_at_more x y b : boundary_at x = Some b -> boundary_at (x ++ y) = Some b /\ exists r, x = b ++ r.
Proof.
  intros Hb. pose proof (find_some _ _ Hb) as [Hin Hs]. split.
  - destruct (boundary_at (x ++ y)) as [b'|] eqn:Hb'.
    + destruct (boundary_at_app _ _ _ Hb') as [H|H]; [congruence|].
      destruct x as [|c x]; [done|]. cbn [next_event] in H. by rewrite Hb in H.
    + exfalso. pose proof (find_none _ _ Hb' _ Hin) as Hn. by rewrite (starts_with_more _ _ _ Hs) in Hn.
  - exists (drop (length b) x). clear Hb Hin. revert x Hs. unfold starts_with.
    induction b as [|a b IH]; intros [|c x]; cbn; try done.
    destruct (N.eqb_spec a c) as [->|]; cbn; [|done]. intros H. by rewrite <-(IH _ H) at 1.
Qed.

Lemma next_event_app x y e b r : next_event x = Some (e, b, r) -> next_event (x ++ y) = Some (e, b, r ++ y).
Proof.
  revert e r. induction x as [|c x IH]; intros e r H; [done|].
  assert (Hn : next_event (c :: x) <> None) by congruence.
  cbn [next_event app] in H |- *. destruct (boundary_at (c :: x)) as [b'|] eqn:Eb.
  - destruct (boundary_at_more _ y _ Eb) as [Hy [r' Er]]. change (c :: x ++ y) with ((c :: x) ++ y).
    rewrite Hy. injection H as <- <- <-. by rewrite Er, <-app_assoc, !drop_app_length.
  - destruct (boundary_at (c :: x ++ y)) as [b'|] eqn:Eb'.
    + change (c :: x ++ y) with ((c :: x) ++ y) in Eb'. apply boundary_at_app in Eb' as [?|?]; congruence.
    + destruct (next_event x) as [[[e' b'] r']|] eqn:En; [|done]. simplify_eq. by rewrite (IH _ _ eq_refl).
Qed.

Lemma next_event_cut x e b r : next_event x = Some (e, b, r) -> x = e ++ r /\ (0 < length e)%nat.
Proof.
  revert e r. induction x as [|c x IH]; intros e r H; [done|]. cbn [next_event] in H.
  destruct (boundary_at (c :: x)) as [b'|] eqn:Eb.
  - destruct (boundary_at_more _ [] _ Eb) as [_ [r' Er]]. simplify_eq. rewrite Er at 2. rewrite drop_app_length.
    split; [done|]. pose proof (find_some _ _ Eb) as [Hin _]. cbn in Hin. destruct Hin as [<-|[<-|[<-|[]]]]; cbn; lia.
  - destruct (next_event x) as [[[e' b'] r']|] eqn:En; [|done]. simplify_eq. destruct (IH _ _ eq_refl) as [-> ?]. cbn. auto with lia.
Qed.

Lemma utf8_next_app l k :
  match utf8_next l with
  | UChar c r => utf8_next (l ++ k) = UChar c (r ++ k) /\ (length r < length l)%nat
  | UBad r => utf8_next (l ++ k) = UBad (r ++ k) /\ (length r < length l)%nat
  | UIncomplete => True
  end.
Proof.
  destruct l as [|a l1]; cbn; [done|]. destruct (a <? 128)%N; [by cbn; auto with lia|].
  destruct (utf8_lead a) as [[[n lo] hi]|]; [|by cbn; auto with lia].
  destruct l1 as [|b l2]; cbn; [done|]. destruct (in_range lo hi b); cbn; [|by auto with lia].
  destruct (n =? 0)%N; [by cbn; auto with lia|]. destruct l2 as [|c l3]; cbn; [done|].
  destruct (in_range 128 191 c); cbn; [|by auto with lia]. destruct (n =? 1)%N; [by cbn; auto with lia|].
  destruct l3 as [|d l4]; cbn; [done|]. destruct (in_range 128 191 d); cbn; by auto with lia.
Qed.

Lemma utf8_go_fuel n m l : (length l <= n)%nat -> (length l <= m)%nat -> utf8_go n l = utf8_go m l.
Proof.
  revert m l. induction n as [|n IH]; intros [|m] l Hn Hm; [done| | |].
  1, 2: destruct l; [done|cbn in *; lia].
  cbn [utf8_go]. pose proof (utf8_next_app l []) as Hx. destruct (utf8_next l); [..|done].
  all: destruct Hx as [_ Hx]; by rewrite (IH m) by lia.
Qed.

Lemma utf8_inc_eq l :
  utf8_inc l = match utf8_next l with
               | UChar c r => let '(t, p) := utf8_inc r in (c :: t, p)
               | UBad r => let '(t, p) := utf8_inc r in (65533%N :: t, p)
               | UIncomplete => ([], l)
               end.
Proof.
  unfold utf8_inc. destruct l as [|a l]; [done|]. cbn [length utf8_go].
  pose proof (utf8_next_app (a :: l) []) as Hx. destruct (utf8_next (a :: l)); [..|done].
  all: destruct Hx as [_ Hx]; cbn in Hx; by rewrite (utf8_go_fuel (length l) (length rest)) by lia.
Qed.

Lemma utf8_inc_app a b :
  utf8_inc (a ++ b) = ((utf8_inc a).1 ++ (utf8_inc ((utf8_inc a).2 ++ b)).1, (utf8_inc ((utf8_inc a).2 ++ b)).2).
Proof.
  induction a as [a IH] using (induction_ltof1 _ (@length N)). unfold ltof in IH.
  rewrite (utf8_inc_eq a). pose proof (utf8_next_app a b) as Hx.
  destruct (utf8_next a) as [c r|r|] eqn:E.
  - destruct Hx as [Hx Hl]. rewrite utf8_inc_eq, Hx, IH by done.
    destruct (utf8_inc r) as [t p]. cbn [fst snd]. by destruct (utf8_inc (p ++ b)).
  - destruct Hx as [Hx Hl]. rewrite utf8_inc_eq, Hx, IH by done.
    destruct (utf8_inc r) as [t p]. cbn [fst snd]. by destruct (utf8_inc (p ++ b)).
  - cbn [fst snd]. by destruct (utf8_inc (a ++ b)).
Qed.

Section Cut.
Context {U : Unicode} {F : FloatText} {V : PyValues}.

Lemma drain_go_fuel n m src s buf : (length buf <= n)%nat -> (length buf <= m)%nat -> drain_go n src s buf = drain_go m src s buf.
Proof.
  revert m s buf. induction n as [|n IH]; intros [|m] s buf Hn Hm; [done| | |].
  1, 2: destruct buf; [done|cbn in *; lia].
  cbn [drain_go]. destruct (next_event buf) as [[[e b] r]|] eqn:E; [|done].
  apply next_event_cut in E as [-> He]. rewrite length_app in *.
  destruct (process_event src s e) as [p|]; cbn [rbind]; [|done]. by rewrite (IH m) by lia.
Qed.

Lemma sse_drain_eq src s buf :
  sse_drain src s buf =
  match next_event buf with
  | None => Ok ([], s, buf)
  | Some (e, _, rest) =>
    let! r := process_event src s e in
    let! r' := sse_drain src r.2 rest in
    Ok (r.1 ++ r'.1.1, r'.1.2, r'.2)
  end.
Proof.
  unfold sse_drain. destruct buf as [|c buf]; [done|]. cbn [length drain_go].
  destruct (next_event (c :: buf)) as [[[e b] r]|] eqn:E; [|done].
  apply next_event_cut in E as [E He]. apply (f_equal length) in E. rewrite length_app in E. cbn [length] in E.
  destruct (process_event src s e) as [p|]; cbn [rbind]; [|done]. by rewrite (drain_go_fuel (length buf) (length r)) by lia.
Qed.

Lemma sse_drain_app src s x y :
  sse_drain src s (x ++ y) =
  let! r := sse_drain src s x in
  let! r2 := sse_drain src r.1.2 (r.2 ++ y) in
  Ok (r.1.1 ++ r2.1.1, r2.1.2, r2.2).
Proof.
  revert s. induction x as [x IH] using (induction_ltof1 _ (@length N)). unfold ltof in IH. intros s.
  rewrite (sse_drain_eq src s x). destruct (next_event x) as [[[e b] r]|] eqn:E.
  - rewrite sse_drain_eq, (next_event_app _ _ _ _ _ E). apply next_event_cut in E as [-> He].
    destruct (process_event src s e) as [p|]; cbn [rbind]; [|done].
    rewrite IH by (rewrite length_app; lia). destruct (sse_drain src p.2 r) as [q|]; cbn [rbind fst snd]; [|done].
    destruct (sse_drain src q.1.2 _) as [q2|]; cbn [rbind fst snd]; [|done]. by rewrite app_assoc.
  - cbn [rbind fst snd]. by destruct (sse_drain src s (x ++ y)) as [[[? ?] ?]|].
Qed.

Lemma sse_feed_app s a b :
  sse_feed s (EBytes (a ++ b)) =
  let! r := sse_feed s (EBytes a) in let! r2 := sse_feed r.2 (EBytes b) in Ok (r.1 ++ r2.1, r2.2).
Proof.
  unfold sse_feed. cbn [chunk_bytes]. rewrite app_assoc, utf8_inc_app.
  destruct (utf8_inc (ss_utf8 s ++ a)) as [t1 p1]. cbn [fst snd].
  destruct (utf8_inc (p1 ++ b)) as [t2 p2] eqn:E2. cbn [fst snd]. rewrite app_assoc, sse_drain_app.
  set (src := Some _). destruct (sse_drain src (ss_core s) (ss_buf s ++ t1)) as [r|]; cbn [rbind fst snd]; [|done].
  cbn [ss_utf8 ss_source_is_bytes ss_core ss_buf]. rewrite E2.
  change (Some match src with Some b0 => b0 | None => true end) with src. destruct (sse_drain src r.1.2 (r.2 ++ t2)); done.
Qed.

(** The chunks one by one, or all at once. *)
Lemma feed_all_concat s first chunks :
  feed_all s (map EBytes (first :: chunks)) = sse_feed s (EBytes (concat (first :: chunks))).
Proof.
  unfold feed_all. revert first. induction chunks as [|c chunks IH] using rev_ind; intros first.
  - cbn [map rfold concat]. rewrite app_nil_r. cbn [snd fst rbind].
    destruct (sse_feed s (EBytes first)) as [[o s']|]; done.
  - rewrite app_comm_cons, map_app, rfold_app, IH. rewrite concat_app. generalize (concat (first :: chunks)) as done.
    intros done. cbn [concat]. rewrite app_nil_r, sse_feed_app. destruct (sse_feed s _) as [[o s']|]; cbn [rbind map rfold fst snd]; [|done].
    destruct (sse_feed s' (EBytes c)) as [[o' s'']|]; done.
Qed.
(** C9: The cut of the bytes does not matter: an SSE stream that arrives in any
    pieces, characters and event boundaries cut apart included, gives the events and
    leaves the state that it gives in one piece, or raises the same error. *)
Theorem sse_cut_invariant s first chunks :
  feed_all s (map EBytes (first :: chunks)) = sse_feed s (EBytes (concat (first :: chunks))).
Proof. apply feed_all_concat. Qed.
End Cut.

(** ** No desanitizer is used after its flush *)

Section Live.
Context {U : Unicode} {F : FloatText} {V : PyValues}.

Definition live (d : desanitizer) : Prop := ds_flushed d = false.
Definition live_opt (o : option desanitizer) : Prop := forall d, o = Some d -> live d.
Definition live_tools (t : tool_calls) : Prop := forall i d, (i, d) ∈ tc_by_index t -> live d.
Definition live_choice (c : chat_choice) : Prop :=
  live_opt (cc_content c) /\ live_opt (cc_function_call c) /\ live_tools (cc_tools c).
Definition live_core (s : sse_core) : Prop :=
  (forall i d, (i, d) ∈ co_blocks s -> live d) /\ (forall i c, (i, c) ∈ co_chat s -> live_choice c).

(** Returns with [P], or raises something else than the error of a flushed desanitizer. *)
Definition fine {A} (P : A -> Prop) (r : result sse_error A) : Prop :=
  match r with Ok a => P a | Raise (FromDesanitizer _) => False | Raise _ => True end.

Lemma fine_bind {A B} (P : A -> Prop) (Q : B -> Prop) r (k : A -> result sse_error B) :
  fine P r -> (forall a, P a -> fine Q (k a)) -> fine Q (rbind r k).
Proof. destruct r as [a|[]]; cbn; auto. Qed.

Lemma fine_rfold {A B} (P : B -> Prop) (f : B -> A -> result sse_error B) b l :
  P b -> (forall b x, P b -> fine P (f b x)) -> fine P (rfold f b l).
Proof.
  intros Hb Hf. revert b Hb. induction l as [|x l IH]; intros b Hb; [done|]. cbn [rfold].
  eapply fine_bind; [by apply Hf|]. auto.
Qed.

Lemma feed_live d t : live d -> fine (fun r => live r.2) (lift_ds (feed d t)).
Proof. unfold live, feed. intros ->. by repeat case_match; simplify_eq. Qed.

Lemma elem_dset {K W} `{EqDecision K} (k : K) (w : W) d e : e ∈ dset k w d -> e = (k, w) \/ e ∈ d.
Proof.
  induction d as [|[k' w'] d IH]; cbn [dset]; [intros ->%list_elem_of_singleton; by left|].
  case_decide as E; [subst|]; intros [->|H]%elem_of_cons; [by left|by right; right|by right; left|].
  destruct (IH H); [by left|by right; right].
Qed.

Lemma elem_ddel {K W} `{EqDecision K} (k : K) (d : list (K * W)) e : e ∈ ddel k d -> e ∈ d.
Proof. induction d as [|[k' w'] d IH]; cbn [ddel]; [done|]. case_decide; set_solver. Qed.

Lemma tc_feed_live t i a : live_tools t -> fine (fun r => live_tools r.2) (lift_ds (tc_feed t i a)).
Proof.
  intros Ht. unfold tc_feed. set (ds := match dget i _ with Some d => d | None => _ end).
  assert (Hd : live ds) by (subst ds; destruct (dget i _) as [d|] eqn:E; [eapply Ht, dget_elem, E|done]).
  pose proof (feed_live ds a Hd) as Hf. destruct (feed ds a) as [[o d']|[]]; cbn in *; [|done].
  intros j d [[= -> ->]|H]%elem_dset; [done|]. by eapply Ht.
Qed.

Lemma feed_tool_call_live c tc : live_choice c -> fine (fun r => live_choice r.2) (feed_tool_call c tc).
Proof.
  intros Hc. unfold feed_tool_call. repeat case_match; try done. destruct Hc as (L1 & L2 & L3).
  eapply fine_bind; [by apply tc_feed_live|]. by intros r Hr.
Qed.

Lemma flush_before_live c : live_choice c -> live_choice (flush_before_tool_call c).2.
Proof.
  intros (H1 & H2 & H3). unfold flush_before_tool_call, tc_flush_index.
  destruct (cc_tool_index c) as [i|]; [destruct (dget i _) as [d|]|]; cbn; split_and!; try done.
  intros j d' H%elem_ddel. by eapply H3.
Qed.

Lemma default_live o m e : live_opt o -> live (default (desanitizer_init m e) o).
Proof. intros H. destruct o as [d|]; [by apply H|done]. Qed.

Lemma rewrite_choice_live s ch : live_core s -> fine (fun r => live_core r.2) (rewrite_choice s ch).
Proof.
  intros Hs. unfold rewrite_choice. destruct ch as [| | | | | |ch]; try done.
  destruct (jget (u8 "delta") ch) as [| | | | | |delta]; try done. destruct (index_of ch) as [idx|]; [|done].
  cbv zeta. destruct (negb _ && negb _); [done|]. set (state := default _ _).
  assert (Hst : live_choice state).
  { subst state. destruct (dget idx (co_chat s)) as [c|] eqn:E; [eapply Hs, dget_elem, E|].
    split_and!; [by intros d ?|by intros d ?|by intros i d ?%not_elem_of_nil]. }
  set (bs := match _ with Some i => _ | None => _ end).
  assert (Hbs : live_choice bs.2).
  { subst bs. destruct (match jget _ delta with JList l => first_index l | _ => None end); [|done].
    case_bool_decide; [|done]. pose proof (flush_before_live state Hst) as Hf. by destruct (flush_before_tool_call state). }
  destruct bs as [before state1]. cbn [snd] in Hbs.
  eapply fine_bind with (P := fun w => live_choice w.2).
  { unfold feed_content. destruct (jget (u8 "content") delta); try done.
    eapply fine_bind; [apply feed_live, default_live, Hbs|]. intros r Hr. destruct Hbs as (_ & H2 & H3).
    split_and!; [|done|done]. cbn. by intros d [= <-]. }
  intros w1 H1. eapply fine_bind with (P := fun w => live_choice w.2).
  { unfold feed_calls_field. destruct (jget (u8 "tool_calls") delta) as [| | | | |l|]; try done.
    eapply fine_bind with (P := fun w => live_choice w.2); [|by intros r Hr].
    unfold feed_calls. apply fine_rfold; [done|]. intros b x Hb. eapply fine_bind; [by apply feed_tool_call_live|]. by intros r Hr. }
  intros w2 H2. eapply fine_bind with (P := fun w => live_choice w.2).
  { unfold feed_function. destruct (function_arguments delta) as [[fc a]|]; [|done].
    eapply fine_bind; [apply feed_live, default_live, H2|]. intros r Hr. destruct H2 as (G1 & _ & G3).
    split_and!; [done| |done]. cbn. by intros d [= <-]. }
  intros w3 H3. destruct Hs as [Hb Hc]. destruct (negb _).
  - eapply fine_bind with (P := fun _ => True).
    + unfold merge_tail, list_or_empty. repeat (case_match; simplify_eq; cbn; try done).
    + intros d _. split; [done|]. cbn. intros i c Hi%elem_ddel. by eapply Hc.
  - match goal with |- fine _ (if ?b then _ else _) => destruct b end; cbn; (split; [done|]);
      intros i c [[= -> ->]|Hi]%elem_dset; [done|by eapply Hc|done|by eapply Hc].
Qed.

Lemma event_index_fine d : fine (fun _ => True) (event_index d).
Proof. unfold event_index. repeat case_match; done. Qed.

Lemma process_texts_live s ev : live_core s -> fine (fun r => live_core r.2) (process_texts s ev).
Proof.
  intros Hs. pose proof Hs as [Hb Hc]. unfold process_texts.
  destruct (extract_data_line ev) as [data|]; [|done].
  destruct (str_eqb data _); [by split; cbn; intros ? ? ?%not_elem_of_nil|].
  destruct (loads_exc data) as [obj|[]]; [|done..].
  destruct (is_stream_error_event obj); [by split; cbn; intros ? ? ?%not_elem_of_nil|].
  destruct obj as [| | | | | |d]; try done. cbv zeta. destruct (json_is _ (u8 "content_block_start")).
  { eapply fine_bind with (P := live_core); [|done]. unfold start_block. destruct (dict_or_empty _); [|done].
    eapply fine_bind; [apply event_index_fine|]. intros idx _.
    repeat (match goal with |- fine _ (if ?b then _ else _) => destruct b end); [..|done];
      (split; [|done]); cbn; intros i x [[= -> ->]|H]%elem_dset; try done; by eapply Hb. }
  assert (R : forall delta field, fine (fun r => live_core r.2) (rewrite_delta s ev d delta field)).
  { intros delta field. unfold rewrite_delta. eapply fine_bind; [apply event_index_fine|]. intros idx _.
    destruct (default _ _); try done. destruct (dget idx _) as [ds|] eqn:E; [|done].
    eapply fine_bind; [apply feed_live; eapply Hb, dget_elem, E|]. intros fed Hf.
    destruct fed.1; (split; [|done]); cbn; intros i x [[= -> ->]|H]%elem_dset; try done; by eapply Hb. }
  destruct (_ && _); [apply R|]. destruct (_ && _); [apply R|]. clear R.
  destruct (json_is _ (u8 "content_block_stop")).
  { unfold stop_block. eapply fine_bind; [apply event_index_fine|]. intros idx _.
    destruct (dget idx _); [destruct (some_text _)|]; (split; [|done]); cbn; intros i x Hi%elem_ddel; by eapply Hb. }
  destruct (jget (u8 "choices") d) as [| | | | |choices|]; try done.
  unfold process_chat. eapply fine_bind with (P := fun w => live_core (cw_state w)).
  - apply fine_rfold; [done|]. intros w x Hw. eapply fine_bind; [by apply rewrite_choice_live|].
    intros [[before rw] s'] Hs'. by destruct rw.
  - intros w Hw. repeat (match goal with |- fine _ (if ?b then _ else _) => destruct b end); done.
Qed.

Lemma encode_events_fine src ts : fine (fun _ => True) (encode_events src ts).
Proof.
  apply fine_rfold; [done|]. intros b x _. unfold encode. destruct src as [[]|]; [|done..]. by destruct (utf8_encode x).
Qed.

Lemma drain_live src s buf : live_core s -> fine (fun r => live_core r.1.2) (sse_drain src s buf).
Proof.
  revert s. induction buf as [buf IH] using (induction_ltof1 _ (@length N)). unfold ltof in IH. intros s Hs.
  rewrite sse_drain_eq. destruct (next_event buf) as [[[e b] r]|] eqn:E; [|done]. apply next_event_cut in E as [-> He].
  eapply fine_bind with (P := fun r => live_core r.2).
  - unfold process_event. eapply fine_bind; [by apply process_texts_live|]. intros p Hp.
    eapply fine_bind; [apply encode_events_fine|]. done.
  - intros p Hp. eapply fine_bind; [apply IH; [rewrite length_app; lia|done]|]. done.
Qed.

Lemma sse_feed_live s c : live_core (ss_core s) -> fine (fun r => live_core (ss_core r.2)) (sse_feed s c).
Proof.
  intros Hs. unfold sse_feed. destruct (chunk_bytes c); [|done]. destruct (utf8_inc _).
  eapply fine_bind; [by apply drain_live|]. done.
Qed.

(** The stream never feeds a desanitizer that was flushed: whatever chunks
    arrive, [feed] and [flush] do not raise the [RuntimeError] of a desanitizer,
    and [flush] leaves no text behind. *)
Theorem sse_never_reuses_flushed mapping chunks :
  match feed_all (sse_init mapping) chunks with
  | Ok (_, s) =>
    match sse_flush s with
    | Ok (_, s') => ss_buf s' = [] /\ ss_utf8 s' = [] /\ co_blocks (ss_core s') = [] /\ co_chat (ss_core s') = []
    | Raise (FromDesanitizer _) => False
    | Raise _ => True
    end
  | Raise (FromDesanitizer _) => False
  | Raise _ => True
  end.
Proof.
  assert (H : fine (fun r => live_core (ss_core r.2)) (feed_all (sse_init mapping) chunks)).
  { apply fine_rfold; [by split; cbn; intros ? ? ?%not_elem_of_nil|]. intros w c Hw.
    eapply fine_bind; [by apply sse_feed_live|]. done. }
  destruct (feed_all _ chunks) as [[out s]|[]]; try done. cbn in H.
  match goal with |- match ?r with _ => _ end =>
    cut (fine (fun p => ss_buf p.2 = [] /\ ss_utf8 p.2 = [] /\ co_blocks (ss_core p.2) = [] /\ co_chat (ss_core p.2) = []) r);
    [by destruct r as [[? ?]|[]]|] end.
  unfold sse_flush. eapply fine_bind; [by apply drain_live|]. intros r Hr. cbn [held_tails].
  eapply fine_bind; [apply encode_events_fine|]. intros o _. eapply fine_bind with (P := fun _ => True).
  - destruct r.2; [done|]. unfold encode. destruct (ss_source_is_bytes s) as [[]|]; [|done..]. by destruct (utf8_encode _).
  - done.
Qed.
End Live.

(** ** The text of a content block *)

(** A character that does not end a line *)
Definition plain (s : str) : bool := forallb (fun c => negb (is_linebreak c)) s.

(** A text whose JSON form stays on one line *)
Definition one_line (s : str) : bool := forallb (fun c => negb ((c =? 133) || (c =? 8232) || (c =? 8233))%N) s.

Lemma plain_app a b : plain (a ++ b) = plain a && plain b.
Proof. apply forallb_app. Qed.

Lemma plain_str_of_uint d : plain (str_of_uint d) = true.
Proof. induction d; cbn; done. Qed.

Lemma plain_dump_int z : plain (dump_int z) = true.
Proof. destruct z; cbn; [done|apply plain_str_of_uint..]. Qed.

Lemma plain_u_escape : forallb (fun c => plain (u_escape (N.of_nat c))) (seq 0 32) = true.
Proof. vm_compute. reflexivity. Qed.

Lemma plain_raw_escape c : negb ((c =? 133) || (c =? 8232) || (c =? 8233))%N = true -> plain (raw_escape_char c) = true.
Proof.
  intros Hc. unfold raw_escape_char, short_escape.
  repeat (match goal with |- plain (match (if ?b then _ else _) with _ => _ end) = _ => destruct b; [reflexivity|] end).
  destruct (N.ltb_spec c 32).
  - pose proof plain_u_escape as Hu. rewrite forallb_forall in Hu. specialize (Hu (N.to_nat c)).
    rewrite N2Nat.id in Hu. apply Hu, in_seq. lia.
  - cbn. rewrite andb_true_r. unfold is_linebreak, in_range.
    apply negb_true_iff. apply negb_true_iff in Hc. rewrite !orb_false_iff in *. rewrite !andb_false_iff. lia.
Qed.

Lemma plain_dump_string s : one_line s = true -> plain (dump_string s) = true.
Proof.
  intros Hs. unfold dump_string. rewrite !plain_app. cbn [plain forallb]. rewrite andb_true_r.
  induction s as [|c s IH]; [done|]. cbn in Hs. apply andb_true_iff in Hs as [Hc Hs]. cbn [map concat].
  rewrite plain_app, plain_raw_escape by done. by apply IH.
Qed.

(** The events of a block as Anthropic sends them. *)
Definition wire (name : str) (obj : jdict) : str :=
  u8 "event: " ++ name ++ [10%N] ++ u8 "data: " ++ dumps (JObj obj) ++ [10; 10]%N.

Section Block.
Context (tool_use : bool) (i : Z).

Definition block_type : str := if tool_use then u8 "tool_use" else u8 "text".
Definition delta_type : str := if tool_use then u8 "input_json_delta" else u8 "text_delta".
Definition delta_field : str := if tool_use then u8 "partial_json" else u8 "text".
Definition block_escape : option (str -> str) := if tool_use then Some json_string_escape else None.

Definition start_obj : jdict :=
  [(u8 "type", JStr (u8 "content_block_start")); (u8 "index", JInt i); (u8 "content_block", JObj [(u8 "type", JStr block_type)])].
Definition delta_obj (t : str) : jdict :=
  [(u8 "type", JStr (u8 "content_block_delta")); (u8 "index", JInt i);
   (u8 "delta", JObj [(u8 "type", JStr delta_type); (delta_field, JStr t)])].
Definition stop_obj : jdict := [(u8 "type", JStr (u8 "content_block_stop")); (u8 "index", JInt i)].

Definition start_event : str := wire (u8 "content_block_start") start_obj.
Definition text_event (t : str) : str := wire (u8 "content_block_delta") (delta_obj t).
Definition stop_event : str := wire (u8 "content_block_stop") stop_obj.

(** A block whose text comes in these pieces *)
Definition block_events (texts : list str) : list str := start_event :: map text_event texts ++ [stop_event].
End Block.

Lemma splitlines_line x rest : plain x = true -> splitlines (x ++ 10%N :: rest) = x :: splitlines rest.
Proof.
  intros Hx. unfold splitlines at 1.
  assert (G : forall cur b, splitlines_go cur b (x ++ 10%N :: rest) = (rev cur ++ x) :: splitlines rest); [|exact (G [] false)].
  induction x as [|c x IH]; intros cur b; cbn [app splitlines_go].
  - by rewrite app_nil_r.
  - cbn in Hx. apply andb_true_iff in Hx as [Hc Hx]. apply negb_true_iff in Hc. rewrite Hc, (IH Hx). cbn [rev].
    by rewrite <-app_assoc.
Qed.

Lemma splitlines_last x : plain x = true -> x <> [] -> splitlines x = [x].
Proof.
  intros Hx Hne. unfold splitlines.
  assert (G : forall cur b, x <> [] \/ b = true -> splitlines_go cur b x = [rev cur ++ x]).
  { clear Hne. induction x as [|c x IH]; intros cur b Hb; cbn [splitlines_go].
    - destruct Hb as [?| ->]; [done|]. by rewrite app_nil_r.
    - cbn in Hx. apply andb_true_iff in Hx as [Hc Hx]. apply negb_true_iff in Hc. rewrite Hc, (IH Hx) by by right.
      cbn [rev]. by rewrite <-app_assoc. }
  by rewrite G by by left.
Qed.

(** *** Reading an event of this form *)

Lemma dumps_obj_braces obj : exists m, dumps (JObj obj) = (chr "{") :: m ++ [chr "}"].
Proof. eexists. cbn [dumps]. rewrite <-app_comm_cons. reflexivity. Qed.

Lemma wire_eq name obj :
  wire name obj = (u8 "event: " ++ name) ++ 10%N :: (u8 "data: " ++ dumps (JObj obj)) ++ 10%N :: [10%N].
Proof. unfold wire. by rewrite <-!app_assoc. Qed.

Lemma wire_lines name obj : plain name = true -> plain (dumps (JObj obj)) = true ->
  splitlines (wire name obj) = [u8 "event: " ++ name; u8 "data: " ++ dumps (JObj obj); []].
Proof.
  intros Hn Hd. rewrite wire_eq, splitlines_line by (rewrite plain_app, Hn; reflexivity).
  rewrite splitlines_line by (rewrite plain_app, Hd; reflexivity). done.
Qed.

Lemma extract_wire name obj : plain name = true -> plain (dumps (JObj obj)) = true ->
  extract_data_line (wire name obj) = Some (dumps (JObj obj)).
Proof.
  intros Hn Hd. unfold extract_data_line. rewrite wire_lines by done.
  destruct (dumps_obj_braces obj) as (m & ->). reflexivity.
Qed.

Lemma rebuild_wire name obj new : plain name = true -> plain (dumps (JObj obj)) = true ->
  rebuild_event (wire name obj) new [10; 10]%N = wire name new.
Proof.
  intros Hn Hd. unfold rebuild_event.
  assert (E : rstrip_by is_crlf (wire name obj) = (u8 "event: " ++ name) ++ 10%N :: u8 "data: " ++ dumps (JObj obj)).
  { unfold rstrip_by. rewrite wire_eq. destruct (dumps_obj_braces obj) as (m & ->).
    set (l := (u8 "event: " ++ name) ++ 10%N :: u8 "data: " ++ (chr "{") :: m).
    replace (_ ++ 10%N :: (u8 "data: " ++ (chr "{") :: m ++ [chr "}"]) ++ [10; 10]%N) with (l ++ [chr "}"; 10; 10]%N)
      by (subst l; rewrite <-!app_assoc; cbn [app]; by rewrite <-!app_assoc).
    replace (_ ++ 10%N :: u8 "data: " ++ (chr "{") :: m ++ [chr "}"]) with (l ++ [chr "}"])
      by (subst l; rewrite <-!app_assoc; cbn [app]; done).
    rewrite rev_app_distr. cbn [rev app lstrip_by]. change (is_crlf 10) with true. change (is_crlf (chr "}")) with false.
    cbv iota. cbn [rev]. by rewrite rev_involutive. }
  rewrite E, splitlines_line by (rewrite plain_app, Hn; reflexivity).
  rewrite splitlines_last; [|rewrite plain_app, Hd; reflexivity|discriminate].
  unfold wire. cbn [map]. change (contains [10; 10]%N [13; 10]%N) with false. cbv iota.
  change (starts_with (u8 "event: " ++ name) (u8 "data:")) with false.
  change (starts_with (u8 "data: " ++ dumps (JObj obj)) (u8 "data:")) with true. cbv iota.
  cbn [join]. by rewrite <-!app_assoc.
Qed.

(** Text without line ends takes no part in a boundary. *)
Lemma next_event_plain x y : plain x = true ->
  next_event (x ++ y) = match next_event y with Some (e, b, r) => Some (x ++ e, b, r) | None => None end.
Proof.
  induction x as [|c x IH]; intros Hx; [cbn [app]; by destruct (next_event y) as [[[? ?] ?]|]|].
  cbn in Hx. apply andb_true_iff in Hx as [Hc Hx]. cbn [app next_event].
  assert (Hb : boundary_at (c :: x ++ y) = None).
  { unfold boundary_at, SSE_BOUNDARY, starts_with. cbn [List.find prefix_by].
    destruct (N.eqb_spec 13 c) as [<-|]; [done|]. destruct (N.eqb_spec 10 c) as [<-|]; [done|]. done. }
  rewrite Hb, (IH Hx). by destruct (next_event y) as [[[? ?] ?]|].
Qed.

Lemma next_event_wire name obj rest : plain name = true -> plain (dumps (JObj obj)) = true ->
  next_event (wire name obj ++ rest) = Some (wire name obj, [10; 10]%N, rest).
Proof.
  intros Hn Hd. rewrite wire_eq, <-!app_assoc. cbn [app]. rewrite <-!app_assoc. cbn [app].
  set (body := dumps (JObj obj)) in *.
  assert (E1 : next_event (u8 "data: " ++ body ++ 10%N :: 10%N :: rest) =
               Some (u8 "data: " ++ body ++ [10; 10]%N, [10; 10]%N, rest)).
  { by rewrite !next_event_plain. }
  assert (E2 : next_event (10%N :: u8 "data: " ++ body ++ 10%N :: 10%N :: rest) =
               Some (10%N :: u8 "data: " ++ body ++ [10; 10]%N, [10; 10]%N, rest)).
  { cbn [next_event]. change (boundary_at _) with (@None str). cbv iota. by rewrite E1. }
  pose proof (next_event_plain (u8 "event: " ++ name) (10%N :: u8 "data: " ++ body ++ 10%N :: 10%N :: rest)) as E3.
  rewrite E2 in E3. rewrite <-!app_assoc in E3. apply E3. by rewrite plain_app, Hn.
Qed.

Lemma loads_exc_dumps {F : FloatText} v : json_ok v = true -> loads_exc (dumps v) = Ok v.
Proof. intros H. unfold loads_exc. by rewrite loads_dumps. Qed.

Section BlockRun.
Context {U : Unicode} {F : FloatText} {V : PyValues} (tool_use : bool) (i : Z).
Hypothesis Hi : json_ok (JInt i) = true.

Lemma plain_start : plain (dumps (JObj (start_obj tool_use i))) = true.
Proof using. clear. unfold start_obj; cbn [dumps map join fst snd]. rewrite !plain_app, plain_dump_int. by destruct tool_use. Qed.

Lemma plain_stop : plain (dumps (JObj (stop_obj i))) = true.
Proof using. clear. unfold stop_obj; cbn [dumps map join fst snd]. rewrite !plain_app, plain_dump_int. done. Qed.

Lemma plain_delta t : one_line t = true -> plain (dumps (JObj (delta_obj tool_use i t))) = true.
Proof using.
  clear. intros Ht. unfold delta_obj; cbn [dumps map join fst snd]. rewrite !plain_app, plain_dump_int, (plain_dump_string t Ht). by destruct tool_use.
Qed.

Lemma process_start s :
  process_texts s (start_event tool_use i) =
  Ok ([start_event tool_use i],
      with_blocks (dset i (desanitizer_init (co_mapping s) (block_escape tool_use)) (co_blocks s)) (dset i tool_use (co_block_types s)) s).
Proof.
  unfold process_texts, start_event at 1. rewrite extract_wire by (done || apply plain_start).
  rewrite loads_exc_dumps by (cbn in Hi |- *; rewrite Hi; by destruct tool_use).
  destruct (str_eqb (dumps _) _) eqn:E; [apply str_eqb_eq in E; by destruct (dumps_obj_braces (start_obj tool_use i)) as (m & Hm); rewrite Hm in E|].
  by destruct tool_use.
Qed.

Lemma process_delta s ds t r ds' : one_line t = true ->
  dget i (co_blocks s) = Some ds -> feed ds t = Ok (r, ds') ->
  process_texts s (text_event tool_use i t) =
  Ok (map (text_event tool_use i) (yielded r), with_blocks (dset i ds' (co_blocks s)) (co_block_types s) s).
Proof.
  intros Ht Hg Hf. pose proof (plain_delta t Ht) as Hp. unfold process_texts, text_event at 1. rewrite extract_wire by done.
  rewrite loads_exc_dumps by (cbn in Hi |- *; rewrite Hi; by destruct tool_use).
  destruct (str_eqb (dumps _) _) eqn:E; [apply str_eqb_eq in E; by destruct (dumps_obj_braces (delta_obj tool_use i t)) as (m & Hm); rewrite Hm in E|].
  assert (R : forall event, boundary_from event = [10; 10]%N -> event = text_event tool_use i t ->
    rewrite_delta s event (delta_obj tool_use i t) [(u8 "type", JStr (delta_type tool_use)); (delta_field tool_use, JStr t)] (delta_field tool_use) =
    Ok (map (text_event tool_use i) (yielded r), with_blocks (dset i ds' (co_blocks s)) (co_block_types s) s)).
  { intros event Hb ->. unfold rewrite_delta. change (event_index (delta_obj tool_use i t)) with (@Ok sse_error Z i). cbn [rbind].
    replace (dget (delta_field tool_use) _) with (Some (JStr t)) by by destruct tool_use. cbn [default from_option id].
    rewrite Hg, Hf. cbn [lift_ds rbind fst snd]. rewrite Hb. unfold yielded.
    destruct r as [|c r]; [done|]. cbn [str_eqb map]. unfold str_eqb. rewrite bool_decide_false by done. cbn [map].
    unfold text_event at 1. rewrite rebuild_wire by done. by destruct tool_use. }
  specialize (R (text_event tool_use i t)). unfold boundary_from in R.
  pose proof (next_event_wire (u8 "content_block_delta") (delta_obj tool_use i t) [] eq_refl Hp) as En. rewrite app_nil_r in En.
  fold (text_event tool_use i t) in En. rewrite En in R. specialize (R eq_refl eq_refl). rewrite <-R. by destruct tool_use.
Qed.

Lemma process_stop s ds :
  dget i (co_blocks s) = Some ds -> dget i (co_block_types s) = Some tool_use ->
  process_texts s (stop_event i) =
  Ok (map (text_event tool_use i) (yielded (flush ds).1) ++ [stop_event i],
      with_blocks (ddel i (co_blocks s)) (ddel i (co_block_types s)) s).
Proof.
  intros Hg Ht. unfold process_texts, stop_event at 1. rewrite extract_wire by (done || apply plain_stop).
  rewrite loads_exc_dumps by (cbn in Hi |- *; by rewrite Hi).
  destruct (str_eqb (dumps _) _) eqn:E; [apply str_eqb_eq in E; by destruct (dumps_obj_braces (stop_obj i)) as (m & Hm); rewrite Hm in E|].
  transitivity (stop_block s (stop_event i) (stop_obj i)); [done|].
  unfold stop_block. change (event_index (stop_obj i)) with (@Ok sse_error Z i). cbn [rbind]. rewrite Hg, Ht.
  unfold boundary_from. pose proof (next_event_wire (u8 "content_block_stop") (stop_obj i) [] eq_refl plain_stop) as En.
  rewrite app_nil_r in En. fold (stop_event i) in En. rewrite En. unfold yielded, some_text.
  destruct (str_eqb (flush ds).1 []); [done|]. cbn [map app default from_option id]. f_equal. f_equal. f_equal.
  unfold block_tail_event, text_event, make_text_delta_event, make_input_json_delta_event, delta_event.
  rewrite wire_eq. destruct tool_use; rewrite <-!app_assoc; done.
Qed.
End BlockRun.

(** *** UTF-8 both ways *)

Definition code_point (c : N) : bool := (c <? 1114112)%N && negb (in_range 55296 57343 c).

(** Quotients and remainders as natural numbers. *)
Ltac byte_atoms := repeat match goal with
  | |- context [N.modulo ?a ?b] => let m := fresh "m" in remember (N.modulo a b) as m
  | |- context [N.div ?a ?b] => let q := fresh "q" in remember (N.div a b) as q
  | H : context [N.modulo ?a ?b] |- _ => lazymatch type of H with ?m = N.modulo a b => fail | _ => let m := fresh "m" in remember (N.modulo a b) as m end
  | H : context [N.div ?a ?b] |- _ => lazymatch type of H with ?m = N.div a b => fail | _ => let m := fresh "m" in remember (N.div a b) as m end
  end;
  repeat match goal with H : ?m = N.modulo _ _ |- _ => clear H end; repeat match goal with H : ?m = N.div _ _ |- _ => clear H end.

(** Decides the range tests on bytes that are known as arithmetic. *)
Ltac byte_tests := repeat (cbv beta iota; match goal with
  | |- context [if ?b then _ else _] => let E := fresh in destruct b eqn:E;
      rewrite ?negb_true_iff, ?negb_false_iff, ?andb_true_iff, ?andb_false_iff, ?N.leb_le, ?N.leb_gt, ?N.ltb_lt, ?N.ltb_ge, ?N.eqb_eq, ?N.eqb_neq in E;
      try (exfalso; lia)
  end).

Lemma utf8_char_next c rest : code_point c = true ->
  exists bs, utf8_char c = Some bs /\ utf8_next (bs ++ rest) = UChar c rest.
Proof.
  unfold code_point. rewrite andb_true_iff, negb_true_iff. intros [Hc Hs]. unfold utf8_char.
  destruct (N.ltb_spec c 128); [eexists; split; [done|]; cbn; by rewrite (proj2 (N.ltb_lt c 128))|].
  apply N.ltb_lt in Hc. unfold in_range in Hs. apply andb_false_iff in Hs.
  pose proof (N.div_mod' c 64). pose proof (N.mod_lt c 64 ltac:(lia)).
  pose proof (N.div_mod' (c / 64) 64). pose proof (N.mod_lt (c / 64) 64 ltac:(lia)).
  destruct (N.ltb_spec c 2048).
  { eexists. split; [done|]. cbn [app utf8_next]. unfold utf8_lead, in_range. byte_atoms; byte_tests; f_equal; lia. }
  destruct (in_range 55296 57343 c) eqn:Er; [unfold in_range in Er; rewrite andb_true_iff, !N.leb_le in Er; rewrite !N.leb_gt in Hs; lia|].
  rewrite !N.leb_gt in Hs. pose proof (N.Div0.div_div c 64 64) as D2. change (64 * 64)%N with 4096%N in D2.
  destruct (N.ltb_spec c 65536).
  { eexists. split; [done|]. cbn [app utf8_next]. unfold utf8_lead, in_range. byte_atoms; byte_tests; f_equal; lia. }
  eexists. split; [done|]. pose proof (N.Div0.div_div c 4096 64) as D3. change (4096 * 64)%N with 262144%N in D3.
  pose proof (N.div_mod' (c / 4096) 64). pose proof (N.mod_lt (c / 4096) 64 ltac:(lia)).
  cbn [app utf8_next]. unfold utf8_lead, in_range. byte_atoms; byte_tests; f_equal; lia.
Qed.

Lemma utf8_roundtrip s : forallb code_point s = true -> exists b, utf8_encode s = Some b /\ utf8_inc b = (s, []).
Proof.
  induction s as [|c s IH]; intros Hs; [by exists []|]. cbn in Hs. apply andb_true_iff in Hs as [Hc Hs].
  destruct (IH Hs) as (b & Eb & Ib). destruct (utf8_char_next c b Hc) as (bs & E1 & E2).
  exists (bs ++ b). split.
  - change (c :: s) with ([c] ++ s). rewrite utf8_encode_app, Eb. unfold utf8_encode at 1. cbn. rewrite E1. cbn. by rewrite app_nil_r.
  - rewrite utf8_inc_eq, E2, Ib. done.
Qed.

Lemma code_point_ascii c : (c < 128)%N -> code_point c = true.
Proof. intros H. unfold code_point, in_range. apply andb_true_iff. split; [apply N.ltb_lt; lia|]. apply negb_true_iff, andb_false_iff. left. apply N.leb_gt. lia. Qed.

(** *** A whole block *)

Section BlockStream.
Context {U : Unicode} {F : FloatText} {V : PyValues} (tool_use : bool) (i : Z).
Hypothesis Hi : json_ok (JInt i) = true.

Lemma deltas_run s ds out texts ys d' :
  forallb one_line texts = true -> dget i (co_blocks s) = Some ds -> dget i (co_block_types s) = Some tool_use ->
  stream ds texts = Ok (ys, d') ->
  exists s', rfold (fun w e => let! r := process_texts w.2 e in Ok (w.1 ++ r.1, r.2)) (out, s)
      (map (text_event tool_use i) texts ++ [stop_event i]) =
    Ok (out ++ map (text_event tool_use i) ys ++ [stop_event i], s').
Proof.
  revert s ds ys out. induction texts as [|t texts IH]; intros s ds ys out Ht Hg Hty Hs; cbn [stream] in Hs.
  - destruct (flush ds) as [tail dd] eqn:Ef. injection Hs as <- <-. cbn [map app rfold fst snd].
    rewrite (process_stop tool_use i Hi s ds Hg Hty), Ef. cbn [rbind fst snd]. by eexists.
  - cbn in Ht. apply andb_true_iff in Ht as [Ht1 Ht]. bind_ok Hs as fed Ef. destruct fed as [r ds']. bind_ok Hs as rest Er.
    destruct rest as [ys' dd]. injection Hs as <- <-. cbn [map app rfold fst snd].
    rewrite (process_delta tool_use i Hi s ds t r ds' Ht1 Hg Ef). cbn [rbind fst snd].
    destruct (IH (with_blocks (dset i ds' (co_blocks s)) (co_block_types s) s) ds' ys' (out ++ map (text_event tool_use i) (yielded r)))
      as [s' Hr]; [done|apply dget_dset_eq|done|done|].
    exists s'. rewrite Hr, map_app, <-!app_assoc. done.
Qed.

Lemma block_run s texts ys d' :
  forallb one_line texts = true ->
  stream (desanitizer_init (co_mapping s) (block_escape tool_use)) texts = Ok (ys, d') ->
  exists s', events_all s (block_events tool_use i texts) = Ok (block_events tool_use i ys, s').
Proof.
  intros Ht Hs. unfold block_events, events_all. cbn [rfold fst snd]. rewrite (process_start tool_use i Hi). cbn [rbind fst snd].
  refine (deltas_run _ _ [start_event tool_use i] texts ys d' Ht _ _ Hs); apply dget_dset_eq.
Qed.

Lemma encode_events_acc src acc ts :
  rfold (fun out t => let! e := encode src t in Ok (out ++ [e])) acc ts = let! y := encode_events src ts in Ok (acc ++ y).
Proof.
  clear. unfold encode_events. revert acc. induction ts as [|t ts IH]; intros acc; cbn [rfold rbind]; [by rewrite app_nil_r|].
  destruct (encode src t); cbn [rbind app]; [|done]. rewrite (IH (acc ++ _)), (IH [_]).
  destruct (rfold _ [] ts); cbn [rbind]; [|done]. by rewrite <-app_assoc.
Qed.

(** Whole events in the buffer are processed one by one. *)
Lemma drain_events src s evs outs s' ems :
  (forall e, e ∈ evs -> forall rest, exists b, next_event (e ++ rest) = Some (e, b, rest)) ->
  events_all s evs = Ok (outs, s') -> encode_events src outs = Ok ems ->
  sse_drain src s (concat evs) = Ok (ems, s', []).
Proof.
  clear Hi. revert outs s' ems. induction evs as [|e evs IH] using rev_ind; intros outs s' ems He Hr Hm.
  - injection Hr as <- <-. injection Hm as <-. done.
  - unfold events_all in Hr. rewrite rfold_app in Hr. bind_ok Hr as w Ew. destruct w as [o1 s1]. cbn [rfold fst snd] in Hr.
    bind_ok Hr as w2 Ew2. injection Hr as Hr. subst w2. bind_ok Ew2 as p Ep. destruct p as [o2 s2]. injection Ew2 as <- <-.
    unfold encode_events in Hm. rewrite rfold_app in Hm. bind_ok Hm as m1 Em1. rewrite encode_events_acc in Hm. bind_ok Hm as m2 Em2. injection Hm as <-.
    rewrite concat_app, sse_drain_app. rewrite (IH o1 s1 m1); [|set_solver|done|done]. cbn [rbind fst snd concat app].
    rewrite app_nil_r, sse_drain_eq. destruct (He e ltac:(set_solver) []) as [b Hb]. rewrite app_nil_r in Hb. rewrite Hb.
    unfold process_event. rewrite Ep. cbn [rbind fst snd].
    rewrite Em2. cbn [rbind fst snd]. rewrite sse_drain_eq. cbn. by rewrite app_nil_r.
Qed.

Lemma block_events_cut texts e : forallb one_line texts = true -> e ∈ block_events tool_use i texts ->
  forall rest, exists b, next_event (e ++ rest) = Some (e, b, rest).
Proof.
  clear Hi. intros Ht He rest. eexists. unfold block_events in He. rewrite elem_of_cons, elem_of_app, list_elem_of_singleton in He.
  destruct He as [->|[(t & -> & Hin)%list_elem_of_fmap| ->]]; apply next_event_wire; try done.
  - apply plain_start.
  - apply plain_delta. rewrite forallb_forall in Ht. apply Ht. by apply list_elem_of_In.
  - apply plain_stop.
Qed.

(** Characters of an event, by those of its text *)
Lemma code_dumps_string s : forallb code_point s = true -> forallb code_point (dump_string s) = true.
Proof.
  clear. intros Hs. cut (forallb code_point (concat (map raw_escape_char s)) = true).
  { intros G. unfold dump_string. by rewrite !forallb_app, G. }
  induction s as [|c s IH]; [done|]. cbn in Hs. apply andb_true_iff in Hs as [Hc Hs]. cbn [map concat]. rewrite forallb_app, (IH Hs), andb_true_r.
  unfold raw_escape_char, short_escape.
  repeat (match goal with |- forallb _ (match (if ?b then _ else _) with _ => _ end) = _ => destruct b; [reflexivity|] end).
  destruct (N.ltb_spec c 32); [|cbn; by rewrite Hc].
  assert (Hu : forallb (fun c => forallb code_point (u_escape (N.of_nat c))) (seq 0 32) = true) by by vm_compute.
  rewrite forallb_forall in Hu. specialize (Hu (N.to_nat c)). rewrite N2Nat.id in Hu. apply Hu, in_seq. lia.
Qed.

Lemma code_dump_int z : forallb code_point (dump_int z) = true.
Proof. clear. assert (H : forall d, forallb code_point (str_of_uint d) = true) by (induction d; cbn; done). destruct z; cbn; [done|apply H..]. Qed.

Lemma code_text_event t : forallb code_point t = true -> forallb code_point (text_event tool_use i t) = true.
Proof.
  clear. intros Ht. unfold text_event, wire, delta_obj. cbn [dumps map join fst snd].
  rewrite !forallb_app, code_dump_int, (code_dumps_string t Ht). by destruct tool_use.
Qed.

Lemma code_block_events texts : forallb (forallb code_point) texts = true -> forallb (forallb code_point) (block_events tool_use i texts) = true.
Proof.
  clear. intros Ht. unfold block_events. cbn [forallb]. rewrite forallb_app. rewrite !andb_true_iff. split_and!.
  - unfold start_event, wire, start_obj. cbn [dumps map join fst snd]. rewrite !forallb_app, code_dump_int. by destruct tool_use.
  - rewrite forallb_forall in *. intros e He. apply in_map_iff in He as (t & <- & Hin). by apply code_text_event, Ht.
  - cbn [forallb]. rewrite andb_true_r. unfold stop_event, wire, stop_obj. cbn [dumps map join fst snd]. rewrite !forallb_app, code_dump_int. done.
Qed.

Lemma encode_events_total ts : forallb (forallb code_point) ts = true -> exists ems, encode_events (Some true) ts = Ok ems.
Proof.
  clear. induction ts as [|t ts IH]; intros Ht; [by eexists|].
  cbn in Ht. apply andb_true_iff in Ht as [H1 H2]. destruct (utf8_roundtrip t H1) as (b & Eb & _).
  unfold encode_events. cbn [rfold]. unfold encode at 1. rewrite Eb. cbn [rbind app]. rewrite encode_events_acc.
  destruct (IH H2) as [ems ->]. cbn [rbind]. by eexists.
Qed.

Lemma forallb_concat {A} (p : A -> bool) ls : forallb p (concat ls) = forallb (forallb p) ls.
Proof. clear. induction ls as [|l ls IH]; [done|]. cbn. by rewrite forallb_app, IH. Qed.

(** C8: A content block, text or tool use, alone in its stream, comes out with
    its originals from a fresh desanitizer. The provider sends it as one start event,
    one delta event per text piece and one stop event, each an "event:" line and a
    "data:" line with the object as [dumps] writes it; the bytes arrive in any pieces,
    characters and placeholders cut anywhere. The assumptions on the text: it is literal
    text and placeholders of the mapping, which are all of the form [...] with no bracket
    inside and do not occur in the restored text; its pieces have no U+0085, U+2028 or
    U+2029, at which the parser would cut the data line; it and the restored text have no
    lone surrogate. Then the feed does not fail and gives the bytes of the events of the
    same block, whose deltas, none empty, together are the text with every placeholder
    replaced by its original (JSON-escaped inside tool arguments). *)
Theorem sse_block_restored mapping items texts first chunks bytes :
  stream_ok (escape_pairs (block_escape tool_use) mapping) items ->
  concat texts = render [] items ->
  forallb one_line texts = true ->
  forallb code_point (render [] items) = true -> forallb code_point (source items) = true ->
  utf8_encode (concat (block_events tool_use i texts)) = Some bytes -> concat (first :: chunks) = bytes ->
  exists ys out s,
    feed_all (sse_init mapping) (map EBytes (first :: chunks)) = Ok (out, s) /\
    encode_events (Some true) (block_events tool_use i ys) = Ok out /\ concat ys = source items /\ [] ∉ ys.
Proof.
  intros Hok Hc Hl Hr Hso Hb <-. rewrite feed_all_concat.
  destruct (stream_run mapping _ items texts Hok Hc) as (ys & d' & Hs & Ho & _).
  destruct (block_run (ss_core (sse_init mapping)) texts ys d' Hl Hs) as [s' He].
  destruct (encode_events_total (block_events tool_use i ys)) as [ems Hm].
  { apply code_block_events. by rewrite <-forallb_concat, Ho. }
  assert (Hcode : forallb code_point (concat (block_events tool_use i texts)) = true).
  { rewrite forallb_concat. apply code_block_events. by rewrite <-forallb_concat, Hc. }
  destruct (utf8_roundtrip _ Hcode) as (b & Eb & Ib). assert (b = concat (first :: chunks)) as -> by congruence.
  exists ys, ems, (Sse (Some true) [] [] s'). split_and!; [|done|done|].
  - unfold sse_feed. cbn [chunk_bytes sse_init ss_utf8 ss_source_is_bytes ss_buf]. rewrite app_nil_l, Ib, app_nil_l.
    rewrite (drain_events _ _ _ _ _ _ (fun e He => block_events_cut texts e Hl He) He Hm). done.
  - clear -Hs. revert ys Hs. generalize (desanitizer_init mapping (block_escape tool_use)) as ds.
    assert (Y : forall x, [] ∉ yielded x).
    { intros x. unfold yielded. destruct (str_eqb x []) eqn:E; [set_solver|]. apply str_eqb_neq in E. set_solver. }
    induction texts as [|t texts IH]; intros ds ys Hs; cbn [stream] in Hs.
    + destruct (flush ds) as [tail dd]. injection Hs as <- <-. apply Y.
    + bind_ok Hs as fed Ef. bind_ok Hs as rest Er. destruct rest as [ys' dd]. injection Hs as <- <-.
      rewrite elem_of_app. intros [H|H]; [by apply (Y fed.1)|by apply (IH _ _ Er)].
Qed.
End BlockStream.

(** ** Witnesses *)

Definition demo_texts : list str := [u8 "é for [ORG"; u8 "_001]."].
Definition demo_items : list item := map Lit (u8 "é for ") ++ [Tok (u8 "Acme") (u8 "[ORG_001]")] ++ map Lit (u8 ".").
Definition demo_block : list N := default [] (utf8_encode (concat (block_events false 0 demo_texts))).

Lemma demo_items_ok : stream_ok (escape_pairs None demo_mapping) demo_items.
Proof.
  split.
  - intros o p Hop. apply list_elem_of_singleton in Hop as [= -> ->]. split; [|reflexivity].
    exists (u8 "ORG_001"). split_and!; [reflexivity| |]; apply memb_false; reflexivity.
  - intros o p Hop. unfold demo_items in Hop. rewrite !elem_of_app, list_elem_of_singleton, !list_elem_of_fmap in Hop.
    destruct Hop as [(? & ? & _)|[[= -> ->]|(? & ? & _)]]; done.
Qed.

Lemma sse_block_restored_witness :
  exists ys out s,
    feed_all (U := ru_unicode) (F := id_floats) (V := no_floats) (sse_init demo_mapping)
      (map EBytes [take 150 demo_block; drop 150 demo_block]) = Ok (out, s) /\
    encode_events (Some true) (block_events false 0 ys) = Ok out /\ concat ys = u8 "é for Acme." /\ [] ∉ ys.
Proof.
  apply (sse_block_restored (U := ru_unicode) (F := id_floats) (V := no_floats) false 0 eq_refl demo_mapping demo_items demo_texts
    (take 150 demo_block) [drop 150 demo_block] demo_block).
  - exact demo_items_ok.
  - reflexivity.
  - reflexivity.
  - vm_compute; reflexivity.
  - vm_compute; reflexivity.
  - vm_compute; reflexivity.
  - vm_compute; reflexivity.
Defined.
