(* ===== verification/ResponsesStream.v ===== *)
(** * Responses API streams ([sanitizer/streaming.py], [ResponsesStreamDesanitizer])

    The typed events of a [/v1/responses] stream: deltas are held back per output
    field, tails go out before the event that ends the field, duplicated text in
    terminal events is rewritten, and sequence numbers are made consecutive.  An event
    is a dict, a JSON text, or an object of the client library, whose methods
    are a parameter. *)

From S2P Require Import Prelude Text Json ContentBlocks Regex Placeholder Rules Sha256 CachePolicy Streaming Sse.
Local Open Scope py_scope.

(** ** Registries *)

Definition RESPONSES_DELTA_EVENTS : list (str * (str * bool)) :=
  [(u8 "response.output_text.delta", (u8 "delta", false));
   (u8 "response.reasoning_summary_text.delta", (u8 "delta", false));
   (u8 "response.reasoning_text.delta", (u8 "delta", false));
   (u8 "response.refusal.delta", (u8 "delta", false));
   (u8 "response.function_call_arguments.delta", (u8 "delta", true));
   (u8 "response.custom_tool_call_input.delta", (u8 "delta", false))].

Definition RESPONSES_DONE_EVENTS : list (str * (str * str)) :=
  [(u8 "response.output_text.done", (u8 "text", u8 "response.output_text.delta"));
   (u8 "response.reasoning_summary_text.done", (u8 "text", u8 "response.reasoning_summary_text.delta"));
   (u8 "response.reasoning_text.done", (u8 "text", u8 "response.reasoning_text.delta"));
   (u8 "response.refusal.done", (u8 "refusal", u8 "response.refusal.delta"));
   (u8 "response.function_call_arguments.done", (u8 "arguments", u8 "response.function_call_arguments.delta"));
   (u8 "response.custom_tool_call_input.done", (u8 "input", u8 "response.custom_tool_call_input.delta"))].

Definition KEY_FIELDS : list str := [u8 "item_id"; u8 "output_index"; u8 "content_index"; u8 "summary_index"].
Definition RESPONSES_EVENT_ID_FIELDS : list str := KEY_FIELDS ++ [u8 "sequence_number"].

Definition RESPONSES_TERMINAL_EVENTS : list str :=
  [u8 "response.completed"; u8 "response.failed"; u8 "response.incomplete"; u8 "error"].
Definition RESPONSES_ITEM_DONE_EVENTS : list str := [u8 "response.output_item.done"; u8 "response.content_part.done"].
Definition RESPONSES_DUPLICATE_EVENTS : list str :=
  [u8 "response.completed"; u8 "response.failed"; u8 "response.incomplete"; u8 "response.output_item.added";
   u8 "response.output_item.done"; u8 "response.content_part.added"; u8 "response.content_part.done"].

(** ** Objects of the client library *)

Class EventObjects := {
  event_obj : Type;
  obj_dump : event_obj -> option jdict;                       (* [model_dump()], when it is a dict *)
  obj_sequence : event_obj -> json;                           (* [getattr(event, "sequence_number", None)] *)
  obj_validate : event_obj -> option (jdict -> option event_obj);  (* [type(o).model_validate]; [None]: it raised *)
  obj_private : event_obj -> event_obj -> event_obj;          (* private attributes of the first put on the second *)
  obj_copy : event_obj -> option (jdict -> event_obj);        (* [model_copy(update=...)] *)
}.

Section Responses.
Context {U : Unicode} {F : FloatText} {V : PyValues} {O : EventObjects}.

Inductive chunk := CText (t : str) | CDict (d : jdict) | CObj (o : event_obj).

Definition responses_event_payload (c : chunk) : option jdict :=
  match c with CDict d => Some d | CObj o => obj_dump o | CText _ => None end.

Definition restore_responses_event (original : chunk) (payload : jdict) : chunk :=
  match original with
  | CObj o =>
    match obj_validate o with
    | Some validator => match validator payload with
                        | Some restored => CObj (obj_private o restored)
                        | None => original
                        end
    | None => match obj_copy o with Some copier => CObj (copier payload) | None => CDict payload end
    end
  | _ => CDict payload
  end.

(** ** Keys of the held streams *)

(** Equal numbers are one dictionary key, whatever their type. *)
Definition norm_key (v : json) : json :=
  match v with
  | JBool b => JInt (if b then 1 else 0)
  | JFloat t => match float_equals t with Some z => JInt z | None => v end
  | _ => v
  end.

Definition stream_key_of : Type := str * list json.

(** [TypeError]: a list or dict in the key *)
Inductive responses_error := UnhashableKey | StreamRaised (e : stream_error).

Definition stream_key (event_type : str) (payload : jdict) : result responses_error stream_key_of :=
  let vs := map (fun f => jget f payload) KEY_FIELDS in
  if existsb is_container vs then Raise UnhashableKey else Ok (event_type, map norm_key vs).

Definition event_metadata (payload : jdict) : jdict :=
  omap (fun f => match dget f payload with Some v => Some (f, v) | None => None end) RESPONSES_EVENT_ID_FIELDS.

(** [_item_matcher(payload)] *)
Definition item_matcher (payload : jdict) (key : stream_key_of) : bool :=
  let item_id := match jget (u8 "item") payload with JObj item => jget (u8 "id") item | _ => JNull end in
  let output_index := jget (u8 "output_index") payload in
  let content_index := jget (u8 "content_index") payload in
  let same v w := negb (bool_decide (v = JNull)) && bool_decide (w = norm_key v) in
  match key.2 with
  | key_item :: key_output :: key_content :: _ =>
    let same_item := same item_id key_item || same output_index key_output in
    if bool_decide (content_index = JNull) then same_item else same_item && bool_decide (key_content = norm_key content_index)
  | _ => false
  end.

(** ** The desanitizer *)

Record responses := Responses {
  rp_mapping : list pair;
  rp_streams : list (stream_key_of * desanitizer);
  rp_metadata : list (stream_key_of * jdict);
  rp_last_sequence : option Z;
}.

Definition responses_init (mapping : list pair) : responses := Responses mapping [] [] None.

Definition with_streams (streams : list (stream_key_of * desanitizer)) (metadata : list (stream_key_of * jdict)) (r : responses) : responses :=
  Responses (rp_mapping r) streams metadata (rp_last_sequence r).

Definition tail_event (event_type : str) (metadata : jdict) (tail : str) : chunk :=
  CText (dumps (JObj ([(u8 "type", JStr event_type)] ++ metadata ++ [(u8 "delta", JStr tail)]))).

(** [_flush_where] *)
Definition flush_where (selected : stream_key_of -> bool) (r : responses) : list chunk * responses :=
  let chosen := List.filter (fun e : stream_key_of * desanitizer => selected e.1) (rp_streams r) in
  (concat (map (fun e : stream_key_of * desanitizer =>
      match some_text (flush e.2).1 with
      | Some tail => [tail_event e.1.1 (default [] (dget e.1 (rp_metadata r))) tail]
      | None => []
      end) chosen),
   with_streams (List.filter (fun e => negb (selected e.1)) (rp_streams r))
                (foldl (fun m (e : stream_key_of * desanitizer) => ddel e.1 m) (rp_metadata r) chosen) r).

Definition reverse_whole (r : responses) (text : str) : str := reverse_text (rp_mapping r) true 0 text.

Definition payload_restored (r : responses) (payload : jdict) : jdict :=
  match desanitize_responses_payload (reverse_whole r) (JObj payload) None 0 with JObj d => d | _ => payload end.

(** A delta event: fed to the stream of its key. *)
Definition feed_delta (r : responses) (c : chunk) (payload : jdict) (event_type field : str) (json_escape : bool) (value : str)
  : result responses_error (list chunk * responses) :=
  let! key := stream_key event_type payload in
  let ds := default (desanitizer_init (rp_mapping r) (if json_escape then Some json_string_escape else None)) (dget key (rp_streams r)) in
  match feed ds value with
  | Raise e => Raise (StreamRaised e)
  | Ok (rewritten, ds') =>
    let r' := with_streams (dset key ds' (rp_streams r)) (dset key (event_metadata payload) (rp_metadata r)) r in
    match rewritten with
    | [] => Ok ([], r')
    | _ => Ok ([restore_responses_event c (dset field (JStr rewritten) payload)], r')
    end
  end.

(** A done event: the tail of its stream, then the event rewritten. *)
Definition feed_done (r : responses) (c : chunk) (payload : jdict) (delta_type : str)
  : result responses_error (list chunk * responses) :=
  let! key := stream_key delta_type payload in
  let metadata := default (event_metadata payload) (dget key (rp_metadata r)) in
  let tails := match dget key (rp_streams r) with
               | Some ds => match some_text (flush ds).1 with Some tail => [tail_event delta_type metadata tail] | None => [] end
               | None => []
               end in
  Ok (tails ++ [restore_responses_event c (payload_restored r payload)],
      with_streams (ddel key (rp_streams r)) (ddel key (rp_metadata r)) r).

(** [_feed] *)
Definition responses_step (r : responses) (c : chunk) : result responses_error (list chunk * responses) :=
  match responses_event_payload c with
  | None => Ok ([c], r)
  | Some payload =>
    match jget (u8 "type") payload with
    | JStr event_type =>
      match dget event_type RESPONSES_DELTA_EVENTS with
      | Some (field, json_escape) =>
        match jget field payload with
        | JStr value => feed_delta r c payload event_type field json_escape value
        | _ => Ok ([c], r)
        end
      | None =>
        match dget event_type RESPONSES_DONE_EVENTS with
        | Some (_, delta_type) => feed_done r c payload delta_type
        | None =>
          let '(tails, r') :=
            if memb event_type RESPONSES_TERMINAL_EVENTS then flush_where (fun _ => true) r
            else if memb event_type RESPONSES_ITEM_DONE_EVENTS then flush_where (item_matcher payload) r
            else ([], r) in
          let last := if memb event_type RESPONSES_DUPLICATE_EVENTS
                      then restore_responses_event c (payload_restored r payload) else c in
          Ok (tails ++ [last], r')
        end
      end
    | _ => Ok ([c], r)
    end
  end.

(** *** [_numbered] *)

(** The sequence number an event carries. *)
Definition sequence_of (c : chunk) : json :=
  match c with
  | CText t => match loads t with Some (JObj d) => jget (u8 "sequence_number") d | _ => JNull end
  | CDict d => jget (u8 "sequence_number") d
  | CObj o => obj_sequence o
  end.

Definition with_number (c : chunk) (n : Z) : option chunk :=
  let upd d := dset (u8 "sequence_number") (JInt n) d in
  match c with
  | CText t => match loads t with Some (JObj d) => Some (CText (dumps (JObj (upd d)))) | _ => None end
  | CDict d => Some (CDict (upd d))
  | CObj o => match obj_copy o with Some copier => Some (CObj (copier [(u8 "sequence_number", JInt n)])) | None => None end
  end.

Definition numbered (last : option Z) (c : chunk) : chunk * option Z :=
  match sequence_of c with
  | JInt current =>
    let number := match last with None => current | Some l => l + 1 end in
    if number =? current then (c, Some number) else
    match with_number c number with
    | Some c' => (c', Some number)
    | None => (c, Some current)
    end
  | _ => (c, last)
  end.

Fixpoint renumber (last : option Z) (events : list chunk) : list chunk * option Z :=
  match events with
  | [] => ([], last)
  | c :: events' => let '(c', last') := numbered last c in
                    let '(out, l) := renumber last' events' in (c' :: out, l)
  end.

Definition with_last (w : list chunk * responses) : list chunk * responses :=
  let '(out, l) := renumber (rp_last_sequence w.2) w.1 in
  (out, Responses (rp_mapping w.2) (rp_streams w.2) (rp_metadata w.2) l).

(** [feed] and [flush] *)
Definition responses_feed (r : responses) (c : chunk) : result responses_error (list chunk * responses) :=
  let! w := responses_step r c in Ok (with_last w).

Definition responses_flush (r : responses) : list chunk * responses := with_last (flush_where (fun _ => true) r).

Definition responses_run (r : responses) (chunks : list chunk) : result responses_error (list chunk * responses) :=
  rfold (fun w c => let! p := responses_feed w.2 c in Ok (w.1 ++ p.1, p.2)) ([], r) chunks.
End Responses.

(** ** Theorems *)

(** *** Sequence numbers *)

Section Numbers.
Context {U : Unicode} {F : FloatText} {FL : FloatLaws F} {V : PyValues} {O : EventObjects}.

Definition marked (c : chunk) : bool := match sequence_of c with JInt _ => true | _ => false end.

(** The sequence numbers a client reads in these events. *)
Definition numbers (events : list chunk) : list Z :=
  omap (fun c => match sequence_of c with JInt n => Some n | _ => None end) events.

(** [model_copy] updates the attribute. *)
Definition copies_sequence : Prop :=
  forall o n, exists f, obj_copy o = Some f /\ obj_sequence (f [(u8 "sequence_number", JInt n)]) = JInt n.

Hypothesis Hcopy : copies_sequence.

Lemma with_number_ok c z n : sequence_of c = JInt z -> json_ok (JInt n) = true ->
  exists c', with_number c n = Some c' /\ sequence_of c' = JInt n.
Proof.
  intros Hs Hn. destruct c as [t|d|o]; cbn [sequence_of with_number] in *.
  - destruct (loads t) as [v|] eqn:El; [|done]. pose proof (loads_ok _ _ El) as Hv. destruct v as [| | | | | |d]; try done.
    eexists. split; [done|]. cbn [sequence_of]. rewrite loads_dumps.
    + unfold jget. by rewrite dget_dset_eq.
    + cbn [json_ok] in *. apply andb_true_iff in Hv as [Hnd Hall]. apply andb_true_iff. split.
      * apply bool_decide_eq_true. apply bool_decide_eq_true in Hnd. by apply dset_NoDup.
      * rewrite forallb_forall in *. intros e He. apply list_elem_of_In in He.
        apply elem_dset in He as [->|He]; [done|]. by apply Hall, list_elem_of_In.
  - eexists. split; [done|]. cbn [sequence_of]. unfold jget. by rewrite dget_dset_eq.
  - destruct (Hcopy o n) as (f & -> & Hf). eauto.
Qed.

Lemma numbered_some m c z : sequence_of c = JInt z -> json_ok (JInt (m + 1)) = true ->
  exists c', numbered (Some m) c = (c', Some (m + 1)) /\ sequence_of c' = JInt (m + 1).
Proof.
  intros Hs Hn. unfold numbered. rewrite Hs. destruct (Z.eqb_spec (m + 1) z) as [->|Hne]; [by eexists|].
  destruct (with_number_ok c z (m + 1) Hs Hn) as (c' & -> & Hc). eauto.
Qed.

Definition count_marked (events : list chunk) : nat := length (List.filter marked events).

Lemma numbered_unmarked last c : marked c = false -> numbered last c = (c, last).
Proof. unfold marked, numbered. by destruct (sequence_of c). Qed.

Lemma renumber_after m events :
  (forall n, m < n <= m + Z.of_nat (count_marked events) -> json_ok (JInt n) = true) ->
  numbers (renumber (Some m) events).1 = seqZ (m + 1) (Z.of_nat (count_marked events)) /\
  (renumber (Some m) events).2 = Some (m + Z.of_nat (count_marked events)).
Proof.
  revert m. induction events as [|c events IH]; intros m Hn; [split; [done|cbn; f_equal; lia]|]. cbn [renumber].
  unfold count_marked in *. cbn [List.filter] in *. destruct (marked c) eqn:Em.
  - unfold marked in Em. destruct (sequence_of c) as [| |z| | | |] eqn:Ez; try done. cbn [length] in *.
    destruct (numbered_some m c z Ez) as (c' & -> & Hc); [apply Hn; lia|].
    destruct (IH (m + 1)) as [I1 I2]; [intros n Hr; apply Hn; lia|].
    destruct (renumber (Some (m + 1)) events) as [out l]. cbn [fst snd] in *. split; [|rewrite I2; f_equal; lia].
    unfold numbers in *. cbn [omap list_omap]. rewrite Hc, I1. rewrite (seqZ_cons (m + 1)) by lia. f_equal. f_equal; lia.
  - rewrite (numbered_unmarked _ _ Em). destruct (IH m) as [I1 I2]; [done|].
    destruct (renumber (Some m) events) as [out l]. cbn [fst snd] in *. split; [|done].
    unfold numbers in *. cbn [omap list_omap]. unfold marked in Em. by destruct (sequence_of c).
Qed.

Lemma renumber_length last events : length (renumber last events).1 = length events.
Proof using.
  clear Hcopy. revert last. induction events as [|c events IH]; intros last; [done|]. cbn [renumber]. destruct (numbered last c) as [c' l'].
  specialize (IH l'). destruct (renumber l' events). cbn in *. by rewrite IH.
Qed.

Lemma renumber_fresh events z0 :
  head (numbers (renumber None events).1) = Some z0 ->
  (forall n, z0 <= n < z0 + len events -> json_ok (JInt n) = true) ->
  exists k, numbers (renumber None events).1 = seqZ z0 k.
Proof.
  induction events as [|c events IH]; [done|]. cbn [renumber]. intros Hh Hn.
  destruct (marked c) eqn:Em.
  - unfold marked in Em. destruct (sequence_of c) as [| |z| | | |] eqn:Ez; try done.
    assert (E : numbered None c = (c, Some z)) by (unfold numbered; by rewrite Ez, Z.eqb_refl).
    rewrite E in *. pose proof (renumber_after z events) as Hr.
    destruct (renumber (Some z) events) as [out l]. cbn [fst snd] in *. unfold numbers in *. cbn [omap list_omap] in *.
    rewrite Ez in *. cbn in Hh. injection Hh as <-. destruct Hr as [-> _].
    + intros n Hr. apply Hn. rewrite len_cons. unfold count_marked in Hr. pose proof (filter_length_le marked events) as Hl. unfold len. lia.
    + exists (1 + Z.of_nat (count_marked events)). rewrite (seqZ_cons z) by lia. f_equal. f_equal; lia.
  - rewrite (numbered_unmarked _ _ Em) in *. destruct (renumber None events) as [out l]. cbn [fst snd] in *.
    unfold numbers in *. cbn [omap list_omap] in *. unfold marked in Em. rewrite len_cons in Hn.
    destruct (sequence_of c); try done; apply IH; try done; intros n Hr; apply Hn; lia.
Qed.

Lemma renumber_app last a b :
  renumber last (a ++ b) = ((renumber last a).1 ++ (renumber (renumber last a).2 b).1, (renumber (renumber last a).2 b).2).
Proof using.
  clear Hcopy. revert last. induction a as [|c a IH]; intros last; cbn [app renumber fst snd]; [by destruct (renumber last b)|].
  destruct (numbered last c) as [c' l']. rewrite IH. by destruct (renumber l' a) as [o l].
Qed.

Lemma step_last r c w : responses_step r c = Ok w -> rp_last_sequence w.2 = rp_last_sequence r.
Proof using.
  clear. unfold responses_step. destruct (responses_event_payload c) as [p|]; [|by intros [= <-]].
  destruct (jget (u8 "type") p); try (by intros [= <-]).
  destruct (dget s RESPONSES_DELTA_EVENTS) as [[f esc]|].
  { destruct (jget f p); try (by intros [= <-]). unfold feed_delta. intros H. bind_ok H as k Ek.
    repeat case_match; by simplify_eq. }
  destruct (dget s RESPONSES_DONE_EVENTS) as [[f d]|].
  { unfold feed_done. intros H. bind_ok H as k Ek. by simplify_eq. }
  destruct (memb s RESPONSES_TERMINAL_EVENTS); [by intros [= <-]|].
  destruct (memb s RESPONSES_ITEM_DONE_EVENTS); by intros [= <-].
Qed.

(** The events of a run before they are numbered *)
Lemma responses_run_raw r chunks out r' : responses_run r chunks = Ok (out, r') ->
  exists raw, (out, rp_last_sequence r') = renumber (rp_last_sequence r) raw.
Proof using.
  clear Hcopy. revert out r'. unfold responses_run. induction chunks as [|c chunks IH] using rev_ind; intros out r' Hr.
  - injection Hr as <- <-. by exists [].
  - rewrite rfold_app in Hr. bind_ok Hr as w Ew. destruct w as [o1 r1]. destruct (IH _ _ Ew) as [raw1 E1].
    cbn [rfold fst snd] in Hr. bind_ok Hr as w2 Ew2. injection Hr as ->. unfold responses_feed in Ew2.
    bind_ok Ew2 as p Ep. bind_ok Ep as q Eq. injection Ep as <-. injection Ew2 as <- <-.
    assert (Hl : rp_last_sequence q.2 = rp_last_sequence r1).
    { by eapply step_last. }
    exists (raw1 ++ q.1). rewrite renumber_app, <-E1. cbn [fst snd]. unfold with_last. rewrite Hl.
    destruct (renumber (rp_last_sequence r1) q.1) as [o2 l2]. done.
Qed.

(** The sequence numbers of a stream are consecutive: however events were held
    back and tails added, the numbers a client reads in the emitted events go up by
    one from the first (numbers within the digits that JSON text is read with). *)
Theorem responses_numbering mapping chunks out r z0 :
  responses_run (responses_init mapping) chunks = Ok (out, r) ->
  head (numbers out) = Some z0 -> (forall n, z0 <= n < z0 + len out -> json_ok (JInt n) = true) ->
  exists k, numbers out = seqZ z0 k.
Proof.
  intros Hr Hh Hn. destruct (responses_run_raw _ _ _ _ Hr) as [raw E]. cbn in E.
  pose proof (renumber_length None raw) as Hl. pose proof (renumber_fresh raw z0) as Hf. rewrite <-E in *. cbn [fst] in *.
  apply Hf; [done|]. intros n Hr'. apply Hn. unfold len in *. lia.
Qed.
End Numbers.

(** *** The text of an output field *)

Section Field.
Context {U : Unicode} {F : FloatText} {V : PyValues} {O : EventObjects}.
Context (delta_type : str) (json_escape : bool).
Hypothesis Hdelta : dget delta_type RESPONSES_DELTA_EVENTS = Some (u8 "delta", json_escape).

Definition field_escape : option (str -> str) := if json_escape then Some json_string_escape else None.

(** What a client reads of an emitted delta event. *)
Definition delta_text (c : chunk) : option str :=
  let payload := match c with
                 | CDict d => Some d
                 | CText t => match loads t with Some (JObj d) => Some d | _ => None end
                 | CObj o => obj_dump o
                 end in
  match payload with
  | Some d => if json_is (jget (u8 "type") d) delta_type then match jget (u8 "delta") d with JStr s => Some s | _ => None end else None
  | None => None
  end.

(** [_feed] on each chunk *)
Definition steps_run (r : responses) (chunks : list chunk) : result responses_error (list chunk * responses) :=
  rfold (fun w c => let! p := responses_step w.2 c in Ok (w.1 ++ p.1, p.2)) ([], r) chunks.

(** A delta event of the field with this key *)
Record delta_ok (key : stream_key_of) (p : jdict) (t : str) : Prop := {
  do_type : jget (u8 "type") p = JStr delta_type;
  do_text : jget (u8 "delta") p = JStr t;
  do_key : stream_key delta_type p = Ok key;
  do_json : json_ok (JObj p) = true;
}.

Definition delta_chunk (p : jdict) (y : str) : chunk := CDict (dset (u8 "delta") (JStr y) p).

Lemma delta_step r key p t ds y ds' : delta_ok key p t ->
  default (desanitizer_init (rp_mapping r) field_escape) (dget key (rp_streams r)) = ds -> feed ds t = Ok (y, ds') ->
  responses_step r (CDict p) =
  Ok (map (delta_chunk p) (yielded y), with_streams (dset key ds' (rp_streams r)) (dset key (event_metadata p) (rp_metadata r)) r).
Proof.
  intros [Ht Hx Hk _] Hds Hf. unfold responses_step. cbn [responses_event_payload]. rewrite Ht, Hdelta, Hx.
  unfold feed_delta. rewrite Hk. cbn [rbind]. unfold field_escape in Hds. rewrite Hds, Hf. unfold yielded.
  destruct y as [|c y]; [done|]. unfold str_eqb. by rewrite bool_decide_false.
Qed.

Lemma delta_chunk_text key p t y : delta_ok key p t -> delta_text (delta_chunk p y) = Some y.
Proof using.
  clear Hdelta. intros [Ht _ _ _]. unfold delta_text, delta_chunk. unfold jget in *. rewrite dget_dset_ne by discriminate.
  rewrite Ht. cbn [json_is]. rewrite (proj2 (str_eqb_eq _ _) eq_refl), dget_dset_eq. done.
Qed.

Lemma event_metadata_keys p : dkeys (event_metadata p) `sublist_of` RESPONSES_EVENT_ID_FIELDS.
Proof using.
  clear. unfold event_metadata, dkeys. generalize RESPONSES_EVENT_ID_FIELDS as fs.
  induction fs as [|f fs IH]; [done|]. cbn [omap list_omap]. destruct (dget f p); cbn [map fst]; by constructor.
Qed.

Lemma event_metadata_ok p : json_ok (JObj p) = true -> forallb (fun e => json_ok e.2) (event_metadata p) = true.
Proof using.
  clear. cbn [json_ok]. intros [_ H]%andb_true_iff. rewrite forallb_forall in *. intros e He%list_elem_of_In.
  unfold event_metadata in He. apply list_elem_of_omap in He as (f & _ & E). destruct (dget f p) as [v|] eqn:Ev; [|done].
  injection E as <-. apply dget_elem in Ev. by apply (H (f, v)), list_elem_of_In.
Qed.

Lemma tail_event_text p s : json_ok (JObj p) = true -> delta_text (tail_event delta_type (event_metadata p) s) = Some s.
Proof using.
  clear Hdelta. intros Hp. unfold delta_text, tail_event.
  pose proof (event_metadata_keys p) as Hk. pose proof (event_metadata_ok p Hp) as Hv.
  set (d := [(u8 "type", JStr delta_type)] ++ event_metadata p ++ [(u8 "delta", JStr s)]).
  assert (Hj : json_ok (JObj d) = true).
  { cbn [json_ok]. apply andb_true_iff. split; [|by unfold d; rewrite !forallb_app, Hv]. apply bool_decide_eq_true.
    assert (Hs : dkeys d `sublist_of` [u8 "type"] ++ RESPONSES_EVENT_ID_FIELDS ++ [u8 "delta"]).
    { unfold d, dkeys. rewrite !map_app. apply sublist_app; [done|]. by apply sublist_app. }
    eapply sublist_NoDup; [|exact Hs]. apply (bool_decide_unpack _). by vm_compute. }
  rewrite (loads_dumps _ Hj).
  assert (Ht : jget (u8 "type") d = JStr delta_type) by done. rewrite Ht. cbn [json_is].
  rewrite (proj2 (str_eqb_eq _ _) eq_refl).
  assert (Hn : dget (u8 "delta") (event_metadata p) = None).
  { apply dget_None. intros Hin. assert (u8 "delta" ∈ RESPONSES_EVENT_ID_FIELDS) as Hbad by by eapply elem_of_sublist.
    revert Hbad. apply memb_false. by vm_compute. }
  unfold jget, d. rewrite !dget_app, Hn. done.
Qed.

(** The event that ends the field: its own done event, or one that ends the stream. *)
Definition closes (key : stream_key_of) (p : jdict) : Prop :=
  exists ty, jget (u8 "type") p = JStr ty /\ dget ty RESPONSES_DELTA_EVENTS = None /\
    ((exists f, dget ty RESPONSES_DONE_EVENTS = Some (f, delta_type)) /\ stream_key delta_type p = Ok key \/
     dget ty RESPONSES_DONE_EVENTS = None /\ memb ty RESPONSES_TERMINAL_EVENTS = true).

Lemma close_step r key ds p pe t : rp_streams r = [(key, ds)] -> rp_metadata r = [(key, event_metadata p)] ->
  key.1 = delta_type -> delta_ok key p t -> closes key pe ->
  exists last r', responses_step r (CDict pe) =
    Ok (map (tail_event delta_type (event_metadata p)) (yielded (flush ds).1) ++ [last], r') /\ rp_streams r' = [].
Proof using.
  clear Hdelta. intros Hs Hm Hk Hp (ty & Ht & Hnd & Hend). unfold responses_step. cbn [responses_event_payload]. rewrite Ht, Hnd.
  assert (Hy : (match some_text (flush ds).1 with Some tail => [tail_event delta_type (event_metadata p) tail] | None => [] end) =
               map (tail_event delta_type (event_metadata p)) (yielded (flush ds).1)).
  { unfold some_text, yielded. by destruct (str_eqb _ _). }
  destruct Hend as [[[f Hd] Hkey]|[Hd Hterm]]; rewrite Hd.
  - unfold feed_done. rewrite Hkey, Hs, Hm. cbn [rbind dget]. rewrite !(decide_True _ _ (eq_refl key)). cbn [default from_option id].
    rewrite Hy. eexists _, _. split; [done|]. cbn. by rewrite decide_True.
  - rewrite Hterm. unfold flush_where. rewrite Hs, Hm. cbn [List.filter map concat fst snd negb]. rewrite app_nil_r, Hk.
    cbn [dget]. rewrite !(decide_True _ _ (eq_refl key)). cbn [default from_option id]. rewrite Hy. eexists _, _. by split.
Qed.

Lemma deltas_then_close r out key p0 t0 ds ps pe ys d' :
  rp_streams r = [(key, ds)] -> rp_metadata r = [(key, event_metadata p0)] -> key.1 = delta_type -> delta_ok key p0 t0 ->
  Forall (fun e : jdict * str => delta_ok key e.1 e.2) ps -> closes key pe ->
  stream ds (map snd ps) = Ok (ys, d') ->
  exists outs last r',
    rfold (fun w c => let! p := responses_step w.2 c in Ok (w.1 ++ p.1, p.2)) (out, r) (map (fun e => CDict e.1) ps ++ [CDict pe]) =
    Ok (out ++ outs ++ [last], r') /\ omap delta_text outs = ys /\ rp_streams r' = [].
Proof.
  revert r out p0 t0 ds ys. induction ps as [|[p t] ps IH]; intros r out p0 t0 ds ys Hs Hm Hk Hp0 Hps Hc Hst; cbn [map stream snd] in Hst.
  - destruct (close_step r key ds p0 pe t0 Hs Hm Hk Hp0 Hc) as (last & r' & Hr & He).
    destruct (flush ds) as [tail dd]. injection Hst as <- <-. cbn [map app rfold fst snd]. rewrite Hr. cbn [rbind fst snd].
    eexists _, last, r'. split; [done|]. split; [|done]. unfold yielded. destruct (str_eqb tail []); [done|]. cbn [map omap list_omap].
    by rewrite (tail_event_text p0 tail (do_json _ _ _ Hp0)).
  - apply Forall_cons in Hps as [Hp Hps]. cbn [fst snd] in Hp. bind_ok Hst as fed Ef. destruct fed as [y ds1]. bind_ok Hst as rest Er.
    destruct rest as [ys1 dd]. injection Hst as <- <-. cbn [fst snd] in *.
    assert (Hds : default (desanitizer_init (rp_mapping r) field_escape) (dget key (rp_streams r)) = ds).
    { rewrite Hs. cbn [dget]. by rewrite decide_True. }
    cbn [map app rfold fst snd]. rewrite (delta_step r key p t ds y ds1 Hp Hds Ef). cbn [rbind fst snd].
    set (r1 := with_streams _ _ r).
    destruct (IH r1 (out ++ map (delta_chunk p) (yielded y)) p t ds1 ys1) as (outs & last & r' & Hr & Ho & He); try done.
    { unfold r1. cbn [with_streams rp_streams]. rewrite Hs. cbn [dset]. by rewrite decide_True. }
    { unfold r1. cbn [with_streams rp_metadata]. rewrite Hm. cbn [dset]. by rewrite decide_True. }
    exists (map (delta_chunk p) (yielded y) ++ outs), last, r'. split; [|split; [|done]].
    + rewrite Hr, <-!app_assoc. done.
    + rewrite omap_app, Ho. f_equal. unfold yielded. destruct (str_eqb y []); [done|]. cbn [map omap list_omap].
      by rewrite (delta_chunk_text key p t y Hp).
Qed.

(** The deltas of an output field come out with their originals: a client
    that joins the deltas emitted before the event that ends the field, the done event of the field or
    the end of the stream, reads the answer with every placeholder replaced
    (escaped inside function arguments), and nothing is held after it. *)
Theorem responses_field_restored mapping items key p0 t0 ps pe :
  stream_ok (escape_pairs field_escape mapping) items ->
  t0 ++ concat (map snd ps) = render [] items ->
  Forall (fun e : jdict * str => delta_ok key e.1 e.2) ((p0, t0) :: ps) -> closes key pe ->
  exists outs last r,
    steps_run (responses_init mapping) (CDict p0 :: map (fun e => CDict e.1) ps ++ [CDict pe]) = Ok (outs ++ [last], r) /\
    concat (omap delta_text outs) = source items /\ rp_streams r = [].
Proof.
  intros Hok Hc [Hp0 Hps]%Forall_cons Hcl. cbn [fst snd] in Hp0.
  destruct (stream_run mapping field_escape items (t0 :: map snd ps) Hok Hc) as (ys & d' & Hs & Ho & _).
  cbn [stream] in Hs. bind_ok Hs as fed Ef. destruct fed as [y ds1]. bind_ok Hs as rest Er. destruct rest as [ys1 dd].
  injection Hs as <- <-. cbn [fst snd] in *.
  assert (Hk : key.1 = delta_type).
  { pose proof (do_key _ _ _ Hp0) as Hk. unfold stream_key in Hk. destruct (existsb _ _); [done|]. by injection Hk as <-. }
  unfold steps_run. cbn [rfold fst snd]. rewrite (delta_step (responses_init mapping) key p0 t0 _ y ds1 Hp0 eq_refl Ef). cbn [rbind fst snd].
  destruct (deltas_then_close (with_streams [(key, ds1)] [(key, event_metadata p0)] (responses_init mapping))
    (map (delta_chunk p0) (yielded y)) key p0 t0 ds1 ps pe ys1 dd) as (outs & last & r' & Hr & Hd & He); try done.
  exists (map (delta_chunk p0) (yielded y) ++ outs), last, r'. split; [|split; [|done]].
  - rewrite <-app_assoc. exact Hr.
  - rewrite omap_app, Hd, concat_app, <-Ho, concat_app. f_equal. unfold yielded. destruct (str_eqb y []); [done|].
    cbn [map omap list_omap concat]. by rewrite (delta_chunk_text key p0 t0 y Hp0).
Qed.
End Field.

(** ** Witnesses *)

(** Event objects that are dicts themselves. *)
#[local] Instance dict_objects : EventObjects := {|
  event_obj := jdict;
  obj_dump d := Some d;
  obj_sequence d := jget (u8 "sequence_number") d;
  obj_validate _ := Some Some;
  obj_private _ d := d;
  obj_copy d := Some (fun u => foldl (fun acc e => dset e.1 e.2 acc) d u);
|}.

Lemma dict_copies_sequence : copies_sequence.
Proof. intros o n. eexists. split; [reflexivity|]. cbn. unfold jget. by rewrite dget_dset_eq. Qed.

Definition delta_dict (n : Z) (t : str) : jdict :=
  [(u8 "type", JStr (u8 "response.output_text.delta")); (u8 "item_id", JStr (u8 "m1")); (u8 "output_index", JInt 0);
   (u8 "content_index", JInt 0); (u8 "sequence_number", JInt n); (u8 "delta", JStr t)].
Definition completed_dict (n : Z) : jdict := [(u8 "type", JStr (u8 "response.completed")); (u8 "sequence_number", JInt n)].
Definition demo_key : stream_key_of := (u8 "response.output_text.delta", [JStr (u8 "m1"); JInt 0; JInt 0; JNull]).

Definition demo_chunks : list chunk :=
  [CDict (delta_dict 4 (u8 "a longer text, for [ORG")); CObj (delta_dict 5 (u8 "_001].")); CDict (completed_dict 6)].
Definition demo_run : list chunk :=
  match responses_run (U := ru_unicode) (F := id_floats) (V := no_floats) (responses_init demo_mapping) demo_chunks with
  | Ok (out, _) => out
  | Raise _ => []
  end.

Lemma responses_numbering_witness : exists k, numbers (F := id_floats) demo_run = seqZ 4 k.
Proof.
  destruct (responses_run (U := ru_unicode) (F := id_floats) (V := no_floats) (responses_init demo_mapping) demo_chunks)
    as [[out r]|e] eqn:E; [|vm_compute in E; discriminate E].
  apply (responses_numbering (U := ru_unicode) (V := no_floats) dict_copies_sequence demo_mapping demo_chunks demo_run r 4).
  - unfold demo_run. rewrite E. reflexivity.
  - vm_compute. reflexivity.
  - assert (H : len demo_run = 4) by (vm_compute; reflexivity). rewrite H. intros n Hn.
    assert (n = 4 \/ n = 5 \/ n = 6 \/ n = 7) as [->|[->|[->| ->]]] by lia; reflexivity.
Defined.

Example demo_numbers : numbers (F := id_floats) demo_run = [4; 5; 6; 7].
Proof. vm_compute. reflexivity. Qed.

Lemma responses_field_restored_witness :
  exists outs last r,
    steps_run (U := ru_unicode) (F := id_floats) (V := no_floats) (responses_init demo_mapping)
      [CDict (delta_dict 4 (u8 "é for [ORG")); CDict (delta_dict 5 (u8 "_001].")); CDict (completed_dict 6)] = Ok (outs ++ [last], r) /\
    concat (omap (delta_text (F := id_floats) (O := dict_objects) (u8 "response.output_text.delta")) outs) = u8 "é for Acme." /\ rp_streams r = [].
Proof.
  apply (responses_field_restored (U := ru_unicode) (F := id_floats) (V := no_floats) (u8 "response.output_text.delta") false eq_refl
    demo_mapping demo_items demo_key (delta_dict 4 (u8 "é for [ORG")) (u8 "é for [ORG") [(delta_dict 5 (u8 "_001]."), u8 "_001].")] (completed_dict 6)).
  - exact demo_items_ok.
  - reflexivity.
  - repeat constructor; vm_compute; reflexivity.
  - exists (u8 "response.completed"). split_and!; [reflexivity..|]. right. by split.
Defined.
