(* ===== verification/Oracle.v ===== *)
(** * Reading the corp-LLM's answer ([sanitizer/strategies.py], [sanitizer/engine.py])

    The oracle is asked for pairs of originals and replacements.  Three
    strategies read its answer, a tool call, JSON in the message text, or lines of
    prose; the engine takes the first that succeeds.  [ChatCompletionResponse] is
    from [corp_llm/client.py]. *)

From S2P Require Import Prelude Text Json ContentBlocks Regex Placeholder Rules Sha256 CachePolicy Streaming Sse.
Local Open Scope py_scope.

(** ** Values and exceptions *)

Inductive oracle_error :=
| StrategyError
| NotImplemented
| CorpLlmHttpError
| AttributeError
| PyError                          (* [TypeError], [KeyError], [ValueError] *)
| AllStrategiesFailed.

(** What the client returns, a parsed body, or text. *)
Inductive raw_output := Response (raw : jdict) | RawDict (raw : jdict) | RawText (t : str).

Definition SANITIZE_TOOL_NAME : str := u8 "report_pii_findings".

Definition raises {A} (e : oracle_error) : result oracle_error A := Raise e.

(** [v.get(key)] *)
Definition attr_get (v : json) (key : str) : result oracle_error json :=
  match v with JObj d => Ok (jget key d) | _ => raises AttributeError end.

(** [v or {}], [v or []] *)
Definition or_dict (v : json) : json := if truthy v then v else JObj [].
Definition or_list (v : json) : json := if truthy v then v else JList [].

(** [v[0]] of a value that is not empty *)
Definition index0 (v : json) : result oracle_error json :=
  match v with
  | JList (x :: _) => Ok x
  | JStr (c :: _) => Ok (JStr [c])
  | _ => raises PyError
  end.

Section Oracle.
Context {U : Unicode} {F : FloatText} {V : PyValues}.

(** [str(v)] *)
Definition py_str (v : json) : str :=
  match v with
  | JNull => u8 "None"
  | JBool b => if b then u8 "True" else u8 "False"
  | JInt z => dump_int z
  | JFloat t => if str_eqb t (u8 "NaN") then u8 "nan" else if str_eqb t (u8 "Infinity") then u8 "inf"
                else if str_eqb t (u8 "-Infinity") then u8 "-inf" else t
  | JStr s => s
  | _ => container_str v
  end.

(** ** [ChatCompletionResponse] *)

Definition first_message (raw : jdict) : result oracle_error json :=
  let choices := or_list (jget (u8 "choices") raw) in
  if truthy choices then
    let! c := index0 choices in
    let! m := attr_get c (u8 "message") in
    Ok (or_dict m)
  else raises CorpLlmHttpError.

Definition first_tool_calls (raw : jdict) : result oracle_error (list json) :=
  let! m := first_message raw in
  let! tc := attr_get m (u8 "tool_calls") in
  match or_list tc with JList l => Ok l | _ => raises CorpLlmHttpError end.

Definition is_text_part (part : json) : option jdict :=
  match part with JObj p => if json_is (jget (u8 "type") p) (u8 "text") then Some p else None | _ => None end.

(** ["".join(parts)] of the text parts *)
Definition join_parts (l : list json) : result oracle_error str :=
  rfold (fun acc part => match is_text_part part with
                         | None => Ok acc
                         | Some p => match default (JStr []) (dget (u8 "text") p) with
                                     | JStr t => Ok (acc ++ t)
                                     | _ => raises PyError
                                     end
                         end) [] l.

Definition text_content (raw : jdict) : result oracle_error str :=
  let! m := first_message raw in
  let! content := attr_get m (u8 "content") in
  match content with
  | JStr s => Ok s
  | JList l => join_parts l
  | _ => Ok []
  end.

(** ** Helpers of the strategies *)

(** [hasattr] lets every exception through but [AttributeError]. *)
Definition extract_tool_calls (raw : raw_output) : result oracle_error (list json) :=
  match raw with
  | Response d => match first_tool_calls d with
                  | Raise AttributeError => Ok []
                  | r => r
                  end
  | RawDict d =>
    let choices := or_list (jget (u8 "choices") d) in
    if truthy choices then
      let! c := index0 choices in
      let! m := attr_get c (u8 "message") in
      let! tc := attr_get (or_dict m) (u8 "tool_calls") in
      Ok (match or_list tc with JList l => l | _ => [] end)
    else Ok []
  | RawText _ => Ok []
  end.

Definition extract_text (raw : raw_output) : result oracle_error str :=
  match raw with
  | RawText t => Ok t
  | Response d => match text_content d with
                  | Raise AttributeError => Ok []
                  | r => r
                  end
  | RawDict d =>
    let choices := or_list (jget (u8 "choices") d) in
    if truthy choices then
      let! c := index0 choices in
      let! m := attr_get c (u8 "message") in
      let! content := attr_get (or_dict m) (u8 "content") in
      match content with
      | JStr s => Ok s
      | JList l => Ok (concat (map (fun part => match is_text_part part with
                                                | Some p => py_str (default (JStr []) (dget (u8 "text") p))
                                                | None => []
                                                end) l))
      | _ => Ok []
      end
    else Ok []
  end.

(** The scan of [_extract_json_snippet] from the first brace: what it has
    passed, reversed, is in [taken]. *)
Fixpoint snippet_go (depth : Z) (in_string escape : bool) (taken : str) (s : str) : option str :=
  match s with
  | [] => None
  | ch :: s' =>
    if escape then snippet_go depth in_string false (ch :: taken) s'
    else if in_string then
      if (ch =? 92)%N then snippet_go depth true true (ch :: taken) s'
      else if (ch =? 34)%N then snippet_go depth false false (ch :: taken) s'
      else snippet_go depth true false (ch :: taken) s'
    else if (ch =? 34)%N then snippet_go depth true false (ch :: taken) s'
    else if (ch =? (chr "{"))%N then snippet_go (depth + 1) false false (ch :: taken) s'
    else if (ch =? (chr "}"))%N then
      if depth - 1 =? 0 then Some (rev (ch :: taken)) else snippet_go (depth - 1) false false (ch :: taken) s'
    else snippet_go depth false false (ch :: taken) s'
  end.

(** [text[text.find("{"):]] *)
Fixpoint from_brace (s : str) : option str :=
  match s with
  | [] => None
  | c :: s' => if (c =? (chr "{"))%N then Some s else from_brace s'
  end.

Definition extract_json_snippet (text : str) : option str :=
  match from_brace text with Some s => snippet_go 0 false false [] s | None => None end.

(** One element of [pairs] *)
Definition add_pair (out : list pair) (item : json) : result oracle_error (list pair) :=
  match item with
  | JObj e =>
    match jget (u8 "original") e, jget (u8 "replacement") e with
    | JStr o, JStr r => Ok (if str_eqb o [] || str_eqb r [] then out else out ++ [(o, r)])
    | _, _ => raises StrategyError
    end
  | _ => raises StrategyError
  end.

Definition parse_pairs (parsed : json) : result oracle_error (list pair) :=
  match parsed with
  | JObj d => match jget (u8 "pairs") d with JList items => rfold add_pair [] items | _ => raises StrategyError end
  | _ => raises StrategyError
  end.

(** [json.loads] under [except json.JSONDecodeError] *)
Definition loads_strategy (s : str) : result oracle_error json :=
  match loads_exc s with
  | Ok v => Ok v
  | Raise JSONDecodeError => raises StrategyError
  | Raise TooManyDigits => raises PyError
  end.

(** ** The strategies *)

(** [(tc.get("function") or {})] *)
Definition call_function (tc : json) : result oracle_error json :=
  let! f := attr_get tc (u8 "function") in Ok (or_dict f).

(** The first call of the tool *)
Fixpoint find_call (calls : list json) : result oracle_error (option json) :=
  match calls with
  | [] => Ok None
  | tc :: calls' =>
    let! f := call_function tc in
    let! name := attr_get f (u8 "name") in
    if json_is name SANITIZE_TOOL_NAME then Ok (Some tc) else find_call calls'
  end.

Definition function_call_strategy (raw : raw_output) : result oracle_error (list pair) :=
  let! calls := extract_tool_calls raw in
  match calls with
  | [] => raises StrategyError
  | _ =>
    let! target := find_call calls in
    match target with
    | None => raises StrategyError
    | Some tc =>
      let! f := call_function tc in
      let! args_raw := attr_get f (u8 "arguments") in
      match args_raw with
      | JStr s => let! args := loads_strategy s in parse_pairs args
      | _ => raises StrategyError
      end
    end
  end.

Definition json_strategy (raw : raw_output) : result oracle_error (list pair) :=
  let! text := extract_text raw in
  match text with
  | [] => raises StrategyError
  | _ => match extract_json_snippet text with
         | None => raises StrategyError
         | Some snippet => let! parsed := loads_strategy snippet in parse_pairs parsed
         end
  end.

Definition not_tick (c : N) : bool := negb (c =? (chr "`"))%N.

Definition REGEX_PAIR : re :=
  seqs [Bos; star space; opt (cls (one_of (u8 "-*"))); star space; opt (lit (u8 "`")); Grp 1 (lazy_plus (cls not_tick));
        opt (lit (u8 "`")); star space; alts [lit (u8 "→"); lit (u8 "->")]; star space; opt (lit (u8 "`"));
        Grp 2 (lazy_plus (cls not_tick)); opt (lit (u8 "`")); star space; Eol].

Definition line_pair (line : str) : option pair :=
  match re_match REGEX_PAIR line with
  | None => None
  | Some m =>
    let original := Text.strip (default [] (mt_group 1 line m)) in
    let replacement := Text.strip (default [] (mt_group 2 line m)) in
    if str_eqb original [] || str_eqb replacement [] then None else Some (original, replacement)
  end.

Definition regex_strategy (raw : raw_output) : result oracle_error (list pair) :=
  let! text := extract_text raw in
  match text with
  | [] => raises StrategyError
  | _ => match omap line_pair (splitlines text) with
         | [] => raises StrategyError
         | pairs => Ok pairs
         end
  end.

(** ** [CorpLlmSanitizer] *)

Definition DEFAULT_STRATEGIES : list (raw_output -> result oracle_error (list pair)) :=
  [function_call_strategy; json_strategy; regex_strategy].

(** [extract]: the first that succeeds; other exceptions than the two end it. *)
Fixpoint extract (strategies : list (raw_output -> result oracle_error (list pair))) (raw : raw_output)
  : result oracle_error (list pair) :=
  match strategies with
  | [] => raises AllStrategiesFailed
  | strategy :: rest =>
    match strategy raw with
    | Ok pairs => Ok pairs
    | Raise NotImplemented | Raise StrategyError => extract rest raw
    | Raise e => Raise e
    end
  end.

(** [apply] and [reverse] of the class *)
Definition engine_apply (text : str) (pairs : list pair) : str :=
  let by_original := dict_of pairs in
  foldl (fun t o => py_replace t o (default [] (dget o by_original))) text
        (sort_placeholders_by_descending_length (dkeys by_original)).

Definition engine_reverse (text : str) (pairs : list pair) : str :=
  let by_placeholder := dict_of (map (fun p : pair => (p.2, p.1)) pairs) in
  foldl (fun t p => py_replace t p (default [] (dget p by_placeholder))) text
        (sort_placeholders_by_descending_length (dkeys by_placeholder)).
End Oracle.

(** ** Examples *)

Example prose_line :
  map (line_pair (U := ru_unicode)) [u8 "- `Acme Corp` -> `[ORG_001]`"; u8 "* Ivan → [NAME_001] "; u8 "nothing here"]
  = [Some (u8 "Acme Corp", u8 "[ORG_001]"); Some (u8 "Ivan", u8 "[NAME_001]"); None].
Proof. vm_compute. reflexivity. Qed.

(** A response without choices: [hasattr] raises what the property raises, so
    the other strategies are not tried. *)
Example no_choices_raises :
  extract (DEFAULT_STRATEGIES (U := ru_unicode) (F := id_floats) (V := no_floats)) (Response []) = Raise CorpLlmHttpError.
Proof. vm_compute. reflexivity. Qed.

(** ** Theorems *)

Section Facts.
Context {U : Unicode} {F : FloatText} {V : PyValues}.

Definition nonempty_pair (p : pair) : Prop := p.1 <> [] /\ p.2 <> [].

Lemma parse_pairs_nonempty v ps : parse_pairs v = Ok ps -> Forall nonempty_pair ps.
Proof.
  unfold parse_pairs. destruct v as [| | | | | |d]; try done. destruct (jget (u8 "pairs") d) as [| | | | |items|]; try done.
  intros H. refine (rfold_inv _ (Forall nonempty_pair) [] items ps (List.Forall_nil _) _ H).
  intros out item out' _ Hout Hs. unfold add_pair in Hs. destruct item as [| | | | | |e]; try done.
  destruct (jget (u8 "original") e); try done. destruct (jget (u8 "replacement") e); try done.
  destruct (str_eqb s []) eqn:E1; cbn in Hs; [by simplify_eq|]. destruct (str_eqb s0 []) eqn:E2; simplify_eq; [done|].
  apply Forall_app. split; [done|]. apply Forall_singleton. split; cbn; by apply str_eqb_neq.
Qed.

Lemma loads_parse_nonempty s ps : (let! v := loads_strategy s in parse_pairs v) = Ok ps -> Forall nonempty_pair ps.
Proof. intros H. bind_ok H as v Ev. by eapply parse_pairs_nonempty. Qed.

Lemma function_call_nonempty raw ps : function_call_strategy raw = Ok ps -> Forall nonempty_pair ps.
Proof.
  unfold function_call_strategy. intros H. bind_ok H as calls Ec. destruct calls as [|c0 cs]; [done|].
  bind_ok H as target Et. destruct target as [tc|]; [|done]. bind_ok H as f Ef. bind_ok H as a Ea.
  destruct a; try done. by eapply loads_parse_nonempty.
Qed.

Lemma json_nonempty raw ps : json_strategy raw = Ok ps -> Forall nonempty_pair ps.
Proof.
  unfold json_strategy. intros H. bind_ok H as t Et. destruct t as [|c t]; [done|].
  destruct (extract_json_snippet (c :: t)); [|done]. by eapply loads_parse_nonempty.
Qed.

Lemma regex_nonempty raw ps : regex_strategy raw = Ok ps -> Forall nonempty_pair ps.
Proof.
  unfold regex_strategy. intros H. bind_ok H as t Et. destruct t as [|c t]; [done|].
  assert (K : Forall nonempty_pair (omap line_pair (splitlines (c :: t)))).
  { apply Forall_forall. intros p (l & _ & Hl)%list_elem_of_omap. unfold line_pair in Hl.
    destruct (re_match REGEX_PAIR l) as [m|]; [|done]. destruct (str_eqb _ [] || str_eqb _ []) eqn:E; [done|].
    apply orb_false_iff in E as [E1 E2]. apply str_eqb_neq in E1. apply str_eqb_neq in E2. by simplify_eq. }
  destruct (omap line_pair (splitlines (c :: t))); [done|]. by injection H as <-.
Qed.

(** C40: Whatever the oracle answers, the pairs that are read from it have a
    non-empty original and a non-empty replacement. *)
Theorem extracted_pairs_nonempty raw ps : extract DEFAULT_STRATEGIES raw = Ok ps -> Forall nonempty_pair ps.
Proof.
  unfold DEFAULT_STRATEGIES. cbn [extract]. intros H.
  destruct (function_call_strategy raw) as [p1|[]] eqn:E1; simplify_eq; [by eapply function_call_nonempty|..];
  (destruct (json_strategy raw) as [p2|[]] eqn:E2; simplify_eq; [by eapply json_nonempty|..]);
  (destruct (regex_strategy raw) as [p3|[]] eqn:E3; simplify_eq; by eapply regex_nonempty).
Qed.

(** *** Finding the JSON in prose *)

(** The scan runs over the text and comes out in the same state. *)
Definition passes (depth : Z) (s : str) : Prop :=
  forall taken rest, snippet_go depth false false taken (s ++ rest) = snippet_go depth false false (rev s ++ taken) rest.

Lemma passes_app depth a b : passes depth a -> passes depth b -> passes depth (a ++ b).
Proof. intros Ha Hb taken rest. rewrite <-app_assoc, Ha, Hb, rev_app_distr, app_assoc. done. Qed.

Definition neutral (s : str) : bool := forallb (fun c => negb (memb c [34; chr "{"; chr "}"]%N)) s.

Lemma passes_neutral depth s : neutral s = true -> passes depth s.
Proof.
  induction s as [|c s IH]; intros H taken rest; [done|]. cbn [neutral forallb] in H. apply andb_true_iff in H as [Hc Hs].
  apply negb_true_iff, memb_false in Hc. cbn [app snippet_go rev].
  destruct (N.eqb_spec c 34) as [->|]; [set_solver|]. destruct (N.eqb_spec c (chr "{")) as [->|]; [set_solver|].
  destruct (N.eqb_spec c (chr "}")) as [->|]; [set_solver|]. rewrite IH by done. by rewrite <-app_assoc.
Qed.

(** Inside a string literal, one written character. *)
Lemma snippet_char depth c taken rest :
  snippet_go depth true false taken (raw_escape_char c ++ rest) = snippet_go depth true false (rev (raw_escape_char c) ++ taken) rest.
Proof.
  unfold raw_escape_char. destruct (short_escape c) as [e|] eqn:E.
  - cbn [app snippet_go rev]. done.
  - assert (c <> 34 /\ c <> 92)%N as [H1 H2].
    { unfold short_escape in E. repeat (match type of E with (if ?b then _ else _) = _ => destruct b eqn:?; [done|] end). lia. }
    destruct (N.ltb_spec c 32).
    + assert (Hu : forallb (fun k => forallb (fun x => negb (memb x [34; 92]%N)) (drop 1 (u_escape (N.of_nat k)))) (seq 0 32) = true) by by vm_compute.
      rewrite forallb_forall in Hu. specialize (Hu (N.to_nat c)). rewrite N2Nat.id in Hu.
      specialize (Hu ltac:(apply in_seq; lia)). unfold u_escape in *. cbn [app drop] in Hu. cbn [app snippet_go rev N.eqb].
      cbn [forallb] in Hu. rewrite !andb_true_iff, !negb_true_iff in Hu. destruct Hu as (Hu0 & Hu1 & Hu2 & Hu3 & Hu4 & _).
      repeat match goal with H : memb ?x _ = false |- _ => apply memb_false in H end.
      repeat (match goal with |- context [(?x =? 92)%N] => destruct (N.eqb_spec x 92); [set_solver|] end).
      repeat (match goal with |- context [(?x =? 34)%N] => destruct (N.eqb_spec x 34); [set_solver|] end). done.
    + cbn [app snippet_go rev]. destruct (N.eqb_spec c 92); [done|]. destruct (N.eqb_spec c 34); [done|]. done.
Qed.

Lemma passes_dump_string depth s : passes depth (dump_string s).
Proof.
  intros taken rest. unfold dump_string. rewrite <-!app_assoc. cbn [app snippet_go N.eqb Pos.eqb].
  assert (G : forall taken, snippet_go depth true false taken (concat (map raw_escape_char s) ++ [34%N] ++ rest) =
     snippet_go depth false false (34%N :: rev (concat (map raw_escape_char s)) ++ taken) rest).
  { induction s as [|c s IH]; intros tk; cbn [map concat]; [done|].
    rewrite <-app_assoc, snippet_char, IH, rev_app_distr, <-app_assoc. done. }
  cbn [app] in G. rewrite G. cbn [rev app]. rewrite rev_app_distr. cbn [rev app]. by rewrite <-app_assoc.
Qed.

Lemma passes_braces depth s : 0 < depth -> passes (depth + 1) s -> passes depth ((chr "{") :: s ++ [chr "}"]).
Proof.
  intros Hd Hs taken rest. cbn [app snippet_go N.eqb Pos.eqb]. rewrite <-app_assoc, Hs. cbn [app snippet_go N.eqb Pos.eqb].
  replace (depth + 1 - 1) with depth by lia. destruct (Z.eqb_spec depth 0); [lia|].
  cbn [rev]. rewrite rev_app_distr. cbn [rev app]. by rewrite <-app_assoc.
Qed.

Lemma passes_join depth sep l : passes depth sep -> Forall (passes depth) l -> passes depth (join sep l).
Proof.
  intros Hs Hl. induction Hl as [|x l Hx Hl IH]; [by intros taken rest|]. destruct l as [|y l]; [done|].
  change (join sep (x :: y :: l)) with (x ++ sep ++ join sep (y :: l)). apply passes_app; [done|]. by apply passes_app.
Qed.

#[local] Opaque dump_string.

(** The answer the oracle is asked for *)
Definition pair_json (p : pair) : json := JObj [(u8 "original", JStr p.1); (u8 "replacement", JStr p.2)].
Definition pairs_json (ps : list pair) : jdict := [(u8 "pairs", JList (map pair_json ps))].

Lemma passes_pair_json depth p : 0 < depth -> passes depth (dumps (pair_json p)).
Proof.
  intros Hd. unfold pair_json. cbn [dumps map join fst snd]. apply passes_braces; [done|].
  repeat apply passes_app; (apply passes_dump_string || by apply passes_neutral).
Qed.

Lemma snippet_pairs_json ps pre post : (chr "{") ∉ pre ->
  extract_json_snippet (pre ++ dumps (JObj (pairs_json ps)) ++ post) = Some (dumps (JObj (pairs_json ps))).
Proof.
  intros Hpre. unfold extract_json_snippet. destruct (dumps_obj_braces (pairs_json ps)) as (m & Hm). rewrite Hm.
  assert (Hf : from_brace (pre ++ ((chr "{") :: m ++ [chr "}"]) ++ post) = Some (((chr "{") :: m ++ [chr "}"]) ++ post)).
  { clear Hm. induction pre as [|c pre IH]; [done|]. cbn [app from_brace]. destruct (N.eqb_spec c (chr "{")) as [->|]; [set_solver|].
    apply IH. set_solver. }
  rewrite Hf. assert (Hp : passes 1 m).
  { unfold pairs_json in Hm. cbn [dumps map join fst snd] in Hm.
    apply (f_equal (fun l => drop 1 l)) in Hm. cbn [drop app] in Hm.
    change (?a ++ u8 "}") with (a ++ [chr "}"]) in Hm. apply app_inj_tail in Hm as [<- _].
    apply passes_app; [apply passes_dump_string|].
    change (passes 1 (u8 ": [" ++ join (u8 ", ") (map dumps (map pair_json ps)) ++ u8 "]")).
    apply passes_app; [by apply passes_neutral|]. apply passes_app; [|by apply passes_neutral].
    apply passes_join; [by apply passes_neutral|]. rewrite map_map. apply Forall_forall. intros x (p & -> & _)%list_elem_of_fmap.
    by apply passes_pair_json. }
  cbn [app snippet_go N.eqb Pos.eqb]. rewrite <-app_assoc. change (0 + 1) with 1. rewrite Hp. cbn [app snippet_go N.eqb Pos.eqb Z.eqb Z.sub Z.opp Z.add Z.pos_sub].
  cbn [rev]. by rewrite rev_app_distr, rev_involutive.
Qed.

Lemma parse_pairs_json ps : Forall nonempty_pair ps -> parse_pairs (JObj (pairs_json ps)) = Ok ps.
Proof.
  intros Hn. unfold parse_pairs, pairs_json. change (jget (u8 "pairs") _) with (JList (map pair_json ps)). cbv iota.
  cut (forall out, rfold add_pair out (map pair_json ps) = Ok (out ++ ps)); [intros G; exact (G [])|].
  induction Hn as [|p ps [H1 H2] Hn IH]; intros out; cbn [map rfold]; [by rewrite app_nil_r|].
  apply str_eqb_neq in H1. apply str_eqb_neq in H2.
  assert (E : add_pair out (pair_json p) = Ok (if str_eqb p.1 [] || str_eqb p.2 [] then out else out ++ [(p.1, p.2)])) by reflexivity.
  rewrite E, H1, H2. cbn [orb rbind]. rewrite IH, <-app_assoc. by destruct p.
Qed.

Lemma pairs_json_ok ps : json_ok (JObj (pairs_json ps)) = true.
Proof. cbn. rewrite andb_true_r. apply forallb_forall. intros v (p & <- & _)%in_map_iff. done. Qed.

Definition tool_response (arguments : str) : jdict :=
  [(u8 "choices", JList [JObj [(u8 "message", JObj [(u8 "content", JNull); (u8 "tool_calls", JList [JObj
     [(u8 "function", JObj [(u8 "name", JStr SANITIZE_TOOL_NAME); (u8 "arguments", JStr arguments)])]])])]])].
Definition text_response (text : str) : jdict :=
  [(u8 "choices", JList [JObj [(u8 "message", JObj [(u8 "content", JStr text)])]])].

(** An answer in the agreed form is read back exactly: as the arguments of
    the tool call, and as JSON in a message with any prose around it that has no brace
    before. *)
Theorem oracle_answer_recovered ps pre post : Forall nonempty_pair ps -> (chr "{") ∉ pre ->
  extract DEFAULT_STRATEGIES (Response (tool_response (dumps (JObj (pairs_json ps))))) = Ok ps /\
  extract DEFAULT_STRATEGIES (Response (text_response (pre ++ dumps (JObj (pairs_json ps)) ++ post))) = Ok ps.
Proof.
  intros Hn Hpre. unfold DEFAULT_STRATEGIES. cbn [extract].
  assert (L : loads_strategy (dumps (JObj (pairs_json ps))) = Ok (JObj (pairs_json ps)))
    by (unfold loads_strategy; by rewrite (loads_exc_dumps _ (pairs_json_ok ps))).
  split.
  - assert (E : function_call_strategy (Response (tool_response (dumps (JObj (pairs_json ps))))) =
                (let! v := loads_strategy (dumps (JObj (pairs_json ps))) in parse_pairs v)) by reflexivity.
    rewrite E, L. cbn [rbind]. by rewrite (parse_pairs_json ps Hn).
  - set (text := pre ++ dumps (JObj (pairs_json ps)) ++ post).
    assert (E : function_call_strategy (Response (text_response text)) = Raise StrategyError) by reflexivity. rewrite E.
    unfold json_strategy. change (extract_text (Response (text_response text))) with (@Ok oracle_error str text). cbn [rbind].
    assert (Hs : extract_json_snippet text = Some (dumps (JObj (pairs_json ps)))) by (by apply snippet_pairs_json).
    destruct text as [|c t]; [done|]. rewrite Hs, L. cbn [rbind]. by rewrite (parse_pairs_json ps Hn).
Qed.
End Facts.

(** ** Witnesses *)

Definition demo_pairs : list pair := [(u8 "Acme", u8 "[ORG_001]"); (u8 "O'Brien {x}", u8 "[NAME_001]")].

Lemma demo_pairs_nonempty : Forall nonempty_pair demo_pairs.
Proof. repeat constructor; discriminate. Qed.

Lemma extracted_pairs_nonempty_witness : Forall nonempty_pair [(u8 "Ivan", u8 "[NAME_001]")].
Proof.
  apply (extracted_pairs_nonempty (U := ru_unicode) (F := id_floats) (V := no_floats) (RawText (u8 "* Ivan → [NAME_001]"))).
  vm_compute. reflexivity.
Defined.

Lemma oracle_answer_recovered_witness :
  extract (DEFAULT_STRATEGIES (U := ru_unicode) (F := id_floats) (V := no_floats))
    (Response (text_response (u8 "Here: " ++ dumps (JObj (pairs_json demo_pairs)) ++ u8 " {ok}"))) = Ok demo_pairs.
Proof.
  apply (oracle_answer_recovered (U := ru_unicode) (F := id_floats) (V := no_floats) demo_pairs (u8 "Here: ") (u8 " {ok}")).
  - exact demo_pairs_nonempty.
  - apply memb_false. vm_compute. reflexivity.
Defined.
