(* ===== verification/Egress.v ===== *)
(** * The scans before egress

    [sanitizer/dlp_guard.py] (stage 5: canaries and raw secrets in the outbound
    request), [payload/classifier.py] (stage 0: configuration files and log
    dumps), [sanitizer/identity_preamble.py], [payload/quota.py] and
    [payload/compression.py]. *)

From S2P Require Import Prelude Text Json Regex ContentBlocks.
Local Open Scope py_scope.

Definition found (o : option mtch) : bool := match o with Some _ => true | None => false end.

(** ** sanitizer/dlp_guard.py *)

Section Dlp.
Context {U : Unicode}.

Definition alnum_p (c : N) : bool := ascii_alnum_p c.
Definition token_p (c : N) : bool := ascii_alnum_p c || (c =? chr "_")%N || (c =? chr "-")%N.
Definition upper_digit_p (c : N) : bool := ascii_upper_p c || ascii_digit_p c.

Definition any_char : re := Chr (fun _ => true).      (* [\s\S] *)

Definition key_banner (word : str) : re :=
  seqs [lit (u8 "-----" ++ word ++ u8 " "); opt (Seq (plus word_ch) (lit (u8 " "))); lit (u8 "PRIVATE KEY-----")].

Definition PEM_SECRET : re :=
  seqs [key_banner (u8 "BEGIN"); Rep false 1 (Some 8191%N) any_char; key_banner (u8 "END")].
Definition JWT_SECRET : re :=
  seqs [WordB; lit (u8 "eyJ"); plus (Chr token_p); lit (u8 "."); plus (Chr token_p); lit (u8 "."); star (Chr token_p); WordB].
Definition SK_SECRET : re := seqs [WordB; lit (u8 "sk-"); rep_at_least 32 (Chr alnum_p); WordB].
Definition AKIA_SECRET : re := seqs [WordB; lit (u8 "AKIA"); rep 16 (Chr upper_digit_p); WordB].
Definition GHP_SECRET : re := seqs [WordB; lit (u8 "ghp_"); rep 36 (Chr alnum_p); WordB].

Definition SECRET_PATTERNS : list re := [PEM_SECRET; JWT_SECRET; SK_SECRET; AKIA_SECRET; GHP_SECRET].

(** A guard: whether raw secrets are searched, and the compiled canaries. *)
Record dlp_guard := DlpGuard { dg_secret_rescan : bool; dg_canaries : list re }.

(** [DlpEgressGuard(canary_patterns, secret_rescan=...)]; [compile] is [re.compile],
    [None] its [re.error]. *)
Definition dlp_init (compile : str -> option re) (canary_patterns : list str) (secret_rescan : bool) : option dlp_guard :=
  match mapM compile canary_patterns with
  | Some pats => Some (DlpGuard secret_rescan pats)
  | None => None
  end.

Definition scan (g : dlp_guard) (text : str) : option str :=
  if existsb (fun p => found (re_search p text)) (dg_canaries g) then Some (u8 "dlp:canary")
  else if dg_secret_rescan g && existsb (fun p => found (re_search p text)) SECRET_PATTERNS
       then Some (u8 "dlp:secret_leak")
       else None.

(** ** payload/classifier.py *)

Definition tab_or_space (c : N) : bool := (c =? 32)%N || (c =? 9)%N.

(** [^```[ \t]*(?:...)[ \t]*$] with MULTILINE and IGNORECASE. *)
Definition fenced (tags : list re) : re :=
  seqs [Bol; lit (u8 "```"); star (Chr tab_or_space); alts tags; star (Chr tab_or_space); EolM].

Definition RE_FENCED_ENV : re := fenced [ci_lit (u8 "env"); ci_lit (u8 "dotenv"); ci_lit (u8 ".env")].
Definition RE_FENCED_NGINX : re := fenced [ci_lit (u8 "nginx"); ci_lit (u8 "nginx.conf")].
Definition RE_FENCED_INI : re := fenced [ci_lit (u8 "ini"); ci_lit (u8 "toml"); ci_lit (u8 "cfg"); ci_lit (u8 "conf")].
Definition RE_FENCED_LOG : re :=
  fenced [ci_lit (u8 "log"); ci_lit (u8 "logs");
          seqs [ci_lit (u8 "access"); opt (ci_lit (u8 "_")); ci_lit (u8 "log")]; ci_lit (u8 "syslog")].

Definition upper_us (c : N) : bool := ascii_upper_p c || (c =? chr "_")%N.
Definition alpha_p (c : N) : bool := ascii_upper_p c || ascii_lower_p c.

Definition RE_ENV_LINE : re :=
  seqs [Bol; Chr upper_us; star (Chr (fun c => upper_us c || ascii_digit_p c)); star space; lit (u8 "=")].
Definition RE_KUBE_API_VERSION : re :=
  seqs [WordB; lit (u8 "apiVersion"); star space; lit (u8 ":"); star space; plus (Chr (fun c => negb (is_space c)))].
Definition RE_KUBE_KIND : re :=
  seqs [WordB; lit (u8 "kind"); star space; lit (u8 ":"); star space; Chr ascii_upper_p; plus (Chr alpha_p); WordB].
Definition RE_KUBE_CLUSTERS : re := seqs [Bol; lit (u8 "clusters"); star space; lit (u8 ":")].
Definition RE_KUBE_CONTEXTS : re := seqs [Bol; lit (u8 "contexts"); star space; lit (u8 ":")].
Definition RE_NGINX_SERVER : re := seqs [WordB; lit (u8 "server"); star space; lit (u8 "{")].
Definition RE_NGINX_LOCATION : re :=
  seqs [WordB; lit (u8 "location"); plus space; Chr (fun c => one_of (u8 "/~") c || u_word c)].
Definition ini_name_p (c : N) : bool := ascii_alnum_p c || one_of (u8 "_.-") c.
Definition RE_INI_SECTION : re :=
  seqs [Bol; star space; lit (u8 "["); plus (Chr ini_name_p); lit (u8 "]"); star space; EolM].
Definition RE_INI_KV : re :=
  seqs [Bos; star space; Chr (fun c => alpha_p c || (c =? chr "_")%N); star (Chr ini_name_p); star space;
        Chr (one_of (u8 "=:")); star space; Chr (fun c => negb (is_space c))].

Definition digits (n : nat) : re := rep n digit.
Definition clock : re := seqs [digits 2; lit (u8 ":"); digits 2; lit (u8 ":"); digits 2].
Definition clf_date : re := seqs [digits 2; lit (u8 "/"); rep 3 (Chr alpha_p); lit (u8 "/"); digits 4].
Definition RE_LOG_TIMESTAMP : re :=
  alts [seqs [digits 4; lit (u8 "-"); digits 2; lit (u8 "-"); digits 2; Chr (one_of (u8 "T ")); clock];
        seqs [clf_date; lit (u8 ":"); clock];
        seqs [lit (u8 "["); clf_date]].
Definition RE_LOG_LEVEL : re :=
  seqs [WordB; alts [lit (u8 "INFO"); Seq (lit (u8 "WARN")) (opt (lit (u8 "ING"))); lit (u8 "ERROR"); lit (u8 "DEBUG");
                     lit (u8 "TRACE"); lit (u8 "FATAL"); lit (u8 "CRITICAL")]; WordB].

Definition word_dot (c : N) : bool := u_word c || (c =? chr ".")%N.
Definition RE_FRAME_JAVA : re :=
  seqs [WordB; lit (u8 "at "); word_ch; plus (Chr word_dot); lit (u8 "."); plus word_ch; lit (u8 "(")].
Definition RE_FRAME_PYTHON : re :=
  seqs [lit (u8 "File " ++ [34%N]); plus (Chr (fun c => negb (c =? 34)%N)); lit ([34%N] ++ u8 ", line "); plus digit].
Definition RE_FRAME_JS : re :=
  seqs [plus space; lit (u8 "at "); word_ch; star (Chr word_dot); plus space; lit (u8 "(")].

Definition has (r : re) (text : str) : bool := found (re_search r text).
Definition heads (r : re) (line : str) : bool := found (re_match r line).

(** [sum(1 for ln in lines if p(ln))]. *)
Definition count_lines (p : str -> bool) (lines : list str) : Z := len (List.filter p lines).

(** Lines that are neither blank nor a comment. *)
Definition content_lines (comment : list str) (lines : list str) : list str :=
  List.filter (fun ln => negb (str_eqb (strip ln) []) && negb (existsb (starts_with (lstrip ln)) comment)) lines.

Definition check_fenced_tags (text : str) : option str :=
  if has RE_FENCED_ENV text then Some (u8 "config:env")
  else if has RE_FENCED_LOG text then Some (u8 "log:dump")
  else if has RE_FENCED_NGINX text then Some (u8 "config:nginx")
  else if has RE_FENCED_INI text then Some (u8 "config:ini")
  else None.

(** Ratios are compared in integers: [env_count / n > 0.5] is [2 * env_count > n]. *)
Definition is_env_file (lines : list str) : bool :=
  let non_blank := content_lines [u8 "#"] lines in
  if len non_blank <? 3 then false else
  let env_count := count_lines (heads RE_ENV_LINE) non_blank in
  (3 <=? env_count) && (len non_blank <? 2 * env_count).

Definition is_kube (text : str) : bool :=
  if has RE_KUBE_API_VERSION text && has RE_KUBE_KIND text then true
  else has RE_KUBE_CLUSTERS text && has RE_KUBE_CONTEXTS text.

Definition is_nginx (text : str) : bool := has RE_NGINX_SERVER text && has RE_NGINX_LOCATION text.

Definition is_ini (lines : list str) : bool :=
  if count_lines (heads RE_INI_SECTION) lines <? 2 then false else
  match content_lines [u8 "#"; u8 ";"] lines with
  | [] => false
  | non_blank => 2 * len non_blank <? 5 * count_lines (heads RE_INI_KV) non_blank
  end.

Definition is_log_dump (lines : list str) : bool :=
  if len lines <? 5 then false else
  let ts_count := count_lines (has RE_LOG_TIMESTAMP) lines in
  let level_count := count_lines (has RE_LOG_LEVEL) lines in
  if (5 <=? ts_count) && (4 <=? level_count) then true
  else if (8 <=? ts_count) && (3 * len lines <? 5 * ts_count) then true
  else 5 <=? count_lines (fun ln => has RE_FRAME_JAVA ln || has RE_FRAME_PYTHON ln || has RE_FRAME_JS ln) lines.

Definition classify_block (text : str) : option str :=
  match check_fenced_tags text with
  | Some reason => Some reason
  | None =>
    let lines := splitlines text in
    if is_env_file lines then Some (u8 "config:env")
    else if is_kube text then Some (u8 "config:kube")
    else if is_nginx text then Some (u8 "config:nginx")
    else if is_ini lines then Some (u8 "config:ini")
    else if is_log_dump lines then Some (u8 "log:dump")
    else None
  end.
End Dlp.

(** ** sanitizer/identity_preamble.py *)

Definition CLAUDE_CODE_IDENTITY_PREAMBLES : list str :=
  [u8 "You are Claude Code, Anthropic's official CLI for Claude.";
   u8 "You are Claude Code, Anthropic's official CLI for Claude, running within the Claude Agent SDK.";
   u8 "You are a Claude agent, built on Anthropic's Claude Agent SDK."].

Definition BILLING_HEADER_PREFIX : str := u8 "x-anthropic-billing-header:".

Definition is_identity_preamble (text : str) : bool := memb text CLAUDE_CODE_IDENTITY_PREAMBLES.

(** The text of a [{"type": "text", "text": ...}] block. *)
Definition text_block (block : json) : option str :=
  match block with
  | JObj b => if json_is (jget (u8 "type") b) (u8 "text")
              then match jget (u8 "text") b with JStr t => Some t | _ => None end
              else None
  | _ => None
  end.

Fixpoint leading_index (blocks : list json) (index : nat) : option nat :=
  match blocks with
  | [] => None
  | block :: rest =>
    match text_block block with
    | None => None
    | Some text =>
      if is_identity_preamble text then Some index
      else if starts_with text BILLING_HEADER_PREFIX then leading_index rest (S index)
      else None
    end
  end.

Definition leading_identity_block_index (system : json) : option nat :=
  match system with JList blocks => leading_index blocks 0 | _ => None end.

(** ** payload/quota.py *)

Record quota := Quota { qt_default : Z; qt_limits : list (str * Z); qt_used : list (str * Z) }.

(** [None] is the [ValueError] of a negative number of bytes. *)
Definition quota_init (default_limit : Z) : option quota :=
  if default_limit <? 0 then None else Some (Quota default_limit [] []).

Definition quota_limit (team : str) (q : quota) : Z := default (qt_default q) (dget team (qt_limits q)).
Definition quota_used (team : str) (q : quota) : Z := default 0 (dget team (qt_used q)).

Definition set_team_limit (team : str) (limit : Z) (q : quota) : option quota :=
  if limit <? 0 then None else Some (Quota (qt_default q) (dset team limit (qt_limits q)) (qt_used q)).

Definition try_consume (team : str) (size : Z) (q : quota) : option (bool * quota) :=
  if size <? 0 then None else
  let current := quota_used team q in
  if quota_limit team q <? current + size then Some (false, q)
  else Some (true, Quota (qt_default q) (qt_limits q) (dset team (current + size) (qt_used q))).

Definition quota_release (team : str) (size : Z) (q : quota) : option quota :=
  if size <? 0 then None
  else Some (Quota (qt_default q) (qt_limits q) (dset team (Z.max 0 (quota_used team q - size)) (qt_used q))).

(** ** payload/compression.py *)

Definition DEFAULT_GZIP_MIN_BYTES : Z := 1024.

Section Gzip.
Variable (gzip_compress : list N -> list N) (gzip_decompress : list N -> option (list N)).

Definition maybe_gzip (raw : list N) (min_bytes : Z) : list N * bool :=
  if len raw <? min_bytes then (raw, false) else (gzip_compress raw, true).

Definition maybe_gunzip (data : list N) (is_gzipped : bool) : option (list N) :=
  if is_gzipped then gzip_decompress data else Some data.

(** What was stored comes back, compressed or not. *)
Lemma gzip_roundtrip raw min_bytes :
  (forall b, gzip_decompress (gzip_compress b) = Some b) ->
  maybe_gunzip (maybe_gzip raw min_bytes).1 (maybe_gzip raw min_bytes).2 = Some raw.
Proof. intros H. unfold maybe_gzip, maybe_gunzip. destruct (_ <? _); cbn; auto. Qed.
End Gzip.

(** ** A key in the outbound text is found *)

Section Keys.
Context {U : Unicode} {UL : UnicodeLaws U}.

(** A search finds a match that exists anywhere. *)
Lemma search_go_complete r a b prev pos :
  is_Some (match_at r false (MSt (match last a with Some c => Some c | None => prev end) b (pos + len a) [])) ->
  is_Some (search_go r false prev pos (a ++ b)).
Proof.
  revert prev pos. induction a as [|c a IH]; intros prev pos H.
  - cbn [app]. rewrite len_nil, Z.add_0_r in H. cbn [last] in H. destruct H as [x Hx].
    destruct b; cbn [search_go]; rewrite Hx; by eexists.
  - cbn [app search_go]. destruct (match_at r false (MSt prev (c :: a ++ b) pos [])) as [e|]; [by eexists|]. apply IH.
    rewrite len_cons in H. replace (pos + 1 + len a) with (pos + (1 + len a)) by lia.
    destruct a as [|c' a]; [exact H|]. destruct (last (c' :: a)) as [x|] eqn:El; [|by apply last_None in El].
    by rewrite last_cons, El in H.
Qed.

(** Where the matcher stands after [w]. *)
Definition after (w rest : str) (s : mst) : mst :=
  MSt (match last w with Some c => Some c | None => m_prev s end) rest (m_pos s + len w) (m_groups s).

Lemma after_cons c w rest s : after w rest (m_step c (w ++ rest) s) = after (c :: w) rest s.
Proof.
  unfold after, m_step. cbn. rewrite len_cons. rewrite last_cons. f_equal; [by destruct (last w)|lia].
Qed.

Lemma matches_lit p rest s k : m_rest s = p ++ rest -> matches (lit p) s k = k (after p rest s).
Proof.
  revert s. induction p as [|c p IH]; intros s Hs; cbn [lit matches].
  - cbn in Hs. unfold after. cbn. rewrite len_nil, Z.add_0_r, <- Hs. by destruct s.
  - cbn [app] in Hs. unfold ch. cbn [matches]. rewrite Hs, N.eqb_refl. rewrite IH by done. by rewrite after_cons.
Qed.

Lemma matches_rep q w rest s k :
  forallb q w = true -> m_rest s = w ++ rest -> matches (rep (length w) (Chr q)) s k = k (after w rest s).
Proof.
  unfold rep. cbn [matches]. revert s. induction w as [|c w IH]; intros s Hq Hs.
  - cbn in Hs. cbn [length rep_need]. unfold after. cbn. rewrite len_nil, Z.add_0_r, <- Hs. by destruct s.
  - cbn [forallb] in Hq. apply andb_true_iff in Hq as [Hc Hq]. cbn [app] in Hs.
    change (matches (Chr q) s (fun s' => rep_need (matches (Chr q)) true (Some 0%N) k (length w) s') = k (after (c :: w) rest s)).
    cbn [matches]. rewrite Hs, Hc. rewrite IH by done. by rewrite after_cons.
Qed.

Lemma opt_word_ascii c : is_ascii c = true -> opt_word (Some c) = ascii_alnum_p c || (c =? 95)%N.
Proof. apply word_ascii. Qed.

(** A pattern [\bPREFIX[class]{n}\b] and a text it describes. *)
Definition key_re (prefix : str) (n : nat) (q : N -> bool) : re := seqs [WordB; lit prefix; rep n (Chr q); WordB].

(** Word characters only, on both sides something else or nothing. *)
Definition delimited (a b : str) : bool := negb (opt_word (last a)) && negb (opt_word (head b)).

Definition word_text (w : str) : bool := forallb (fun c => is_ascii c && (ascii_alnum_p c || (c =? 95)%N)) w.

Lemma word_text_last w : word_text w = true -> w <> [] -> opt_word (last w) = true.
Proof.
  intros Hw Hn. destruct (last w) as [c|] eqn:E; [|by apply last_None in E].
  unfold word_text in Hw. rewrite forallb_forall in Hw.
  specialize (Hw c ltac:(apply list_elem_of_In, last_Some_elem_of, E)).
  apply andb_true_iff in Hw as [Ha Hw]. by rewrite opt_word_ascii.
Qed.

Lemma word_text_head w : word_text w = true -> w <> [] -> opt_word (head w) = true.
Proof.
  destruct w as [|c w]; [done|]. intros [Hc _]%andb_true_iff _. apply andb_true_iff in Hc as [Ha Hw].
  cbn [head]. by rewrite opt_word_ascii.
Qed.

Lemma key_found prefix n q a w b :
  prefix <> [] -> w <> [] -> word_text (prefix ++ w) = true -> length w = n -> forallb q w = true ->
  delimited a b = true -> is_Some (re_search (key_re prefix n q) (a ++ (prefix ++ w) ++ b)).
Proof.
  intros Hp Hw0 Hword Hn Hq [Ha Hb]%andb_true_iff. rewrite negb_true_iff in Ha, Hb.
  assert (is_Some (search_go (key_re prefix n q) false None 0 (a ++ (prefix ++ w) ++ b))) as [x Hx].
  2:{ unfold re_search. rewrite Hx. destruct x. by eexists. }
  apply search_go_complete. unfold match_at, m_clear. cbn [m_prev m_rest m_pos].
  set (s := MSt _ _ _ _). unfold key_re. cbn [seqs].
  assert (m_rest s = prefix ++ w ++ b) as Hs by (unfold s; cbn; by rewrite app_assoc).
  assert (opt_word (m_prev s) = false) as Hprev by (unfold s; cbn; by destruct (last a)).
  assert (forall r k, matches (Seq WordB r) s k = matches r s k) as HB.
  { intros r k. cbn [matches]. rewrite Hprev, Hs. destruct prefix as [|c p]; [done|].
    pose proof (word_text_head ((c :: p) ++ w) Hword ltac:(done)) as Hh. cbn [app head] in *. by rewrite Hh. }
  rewrite HB. clear HB.
  change (is_Some (matches (lit prefix) s (fun s' => matches (rep n (Chr q)) s' (fun s2 => matches WordB s2
    (fun s3 => if false && (m_pos s3 =? 0 + len a) then None else Some s3))))).
  rewrite (matches_lit _ _ _ _ Hs). subst n. rewrite (matches_rep q w b) by done.
  cbn [matches]. set (s2 := after w b _).
  assert (opt_word (m_prev s2) = true) as Hlast.
  { unfold s2, after. cbn [m_prev]. destruct (last w) as [c|] eqn:El; [|by apply last_None in El].
    rewrite <- El. apply word_text_last; [|done]. unfold word_text in *. rewrite forallb_app in Hword.
    by apply andb_true_iff in Hword as [_ ?]. }
  rewrite Hlast. change (m_rest s2) with b. rewrite Hb. by eexists.
Qed.

(** ** The reasons *)

Definition STAGE0_REASONS : list str :=
  [u8 "config:env"; u8 "config:kube"; u8 "config:nginx"; u8 "config:ini"; u8 "log:dump"].
Definition STAGE5_REASONS : list str := [u8 "dlp:canary"; u8 "dlp:secret_leak"].

Lemma classify_reason text r : classify_block text = Some r -> r ∈ STAGE0_REASONS.
Proof.
  unfold classify_block, check_fenced_tags. intros H. apply memb_true.
  repeat (case_match; simplify_eq; try (vm_compute; reflexivity)).
Qed.

Lemma scan_reason g text r : scan g text = Some r -> r ∈ STAGE5_REASONS.
Proof. unfold scan. intros H. apply memb_true. repeat (case_match; simplify_eq; try (vm_compute; reflexivity)). Qed.

(** ** The claims *)

(** the egress guard is not fooled about provider keys: an AWS access key id or
    a GitHub token standing anywhere in the outbound text, with no word character
    on either side, is refused, whatever canaries are configured and whatever
    surrounds it; and the reason never quotes the text. *)
Theorem dlp_blocks_keys (g : dlp_guard) a prefix w b :
  dg_secret_rescan g = true ->
  prefix = u8 "AKIA" /\ length w = 16%nat /\ forallb upper_digit_p w = true \/
  prefix = u8 "ghp_" /\ length w = 36%nat /\ forallb alnum_p w = true ->
  delimited a b = true ->
  exists r, scan g (a ++ (prefix ++ w) ++ b) = Some r /\ r ∈ STAGE5_REASONS.
Proof.
  intros Hg Hk Hd.
  assert (existsb (fun p => found (re_search p (a ++ (prefix ++ w) ++ b))) SECRET_PATTERNS = true) as Hs.
  { apply existsb_exists. destruct Hk as [(-> & Hn & Hq)|(-> & Hn & Hq)].
    - exists AKIA_SECRET. split; [cbn; tauto|]. edestruct (key_found (u8 "AKIA") 16 upper_digit_p a w b) as [m Hm]; try done.
      + by intros ->.
      + unfold word_text. rewrite forallb_app. apply andb_true_iff. split; [done|].
        rewrite forallb_forall in *. intros c Hc%Hq. revert Hc.
        unfold upper_digit_p, ascii_alnum_p, ascii_upper_p, ascii_lower_p, ascii_digit_p, is_ascii, in_range. lia.
      + change AKIA_SECRET with (key_re (u8 "AKIA") 16 upper_digit_p). by rewrite Hm.
    - exists GHP_SECRET. split; [cbn; tauto|]. edestruct (key_found (u8 "ghp_") 36 alnum_p a w b) as [m Hm]; try done.
      + by intros ->.
      + unfold word_text. rewrite forallb_app. apply andb_true_iff. split; [done|].
        rewrite forallb_forall in *. intros c Hc%Hq. revert Hc.
        unfold alnum_p, ascii_alnum_p, ascii_upper_p, ascii_lower_p, ascii_digit_p, is_ascii, in_range. lia.
      + change GHP_SECRET with (key_re (u8 "ghp_") 36 alnum_p). by rewrite Hm. }
  destruct (scan g (a ++ (prefix ++ w) ++ b)) as [r|] eqn:E; [by eauto using scan_reason|].
  exfalso. unfold scan in E. rewrite Hg, Hs in E. by destruct (existsb _ (dg_canaries g)).
Qed.
End Keys.

Lemma dlp_blocks_keys_witness :
  exists r, @scan ru_unicode (DlpGuard true []) (u8 "key=AKIA0123456789ABCDEF;") = Some r.
Proof.
  destruct (@dlp_blocks_keys ru_unicode _ (DlpGuard true []) (u8 "key=") (u8 "AKIA") (u8 "0123456789ABCDEF") (u8 ";"))
    as (r & Hr & _); [reflexivity|left; repeat split; reflexivity|reflexivity|]. exists r. exact Hr.
Defined.

(** ** Identity blocks and quotas *)

(** The block held out of rewriting is one of the three constants, and only
    billing markers stand before it. *)
Lemma leading_index_spec blocks i k :
  leading_index blocks i = Some k ->
  exists n, k = (i + n)%nat /\
    (exists t block, blocks !! n = Some block /\ text_block block = Some t /\ is_identity_preamble t = true) /\
    forall m block, (m < n)%nat -> blocks !! m = Some block ->
      exists t, text_block block = Some t /\ starts_with t BILLING_HEADER_PREFIX = true.
Proof.
  revert i. induction blocks as [|b blocks IH]; intros i; cbn [leading_index]; [done|].
  destruct (text_block b) as [t|] eqn:Et; [|done]. destruct (is_identity_preamble t) eqn:Ei.
  - intros [= <-]. exists 0%nat. split_and!; [lia|by exists t, b|]. intros m block Hm. lia.
  - destruct (starts_with t BILLING_HEADER_PREFIX) eqn:Es; [|done]. intros (n & -> & Hb & Hm)%IH.
    exists (S n). split_and!; [lia|exact Hb|]. intros [|m] block Hlt Hlk; [|apply (Hm m); [lia|done]].
    injection Hlk as <-. eauto.
Qed.

(** What a team holds never goes above a bound on its limits, nor below zero. *)
Inductive quota_op := QLimit (team : str) (limit : Z) | QConsume (team : str) (size : Z) | QRelease (team : str) (size : Z).

Definition quota_step (q : quota) (op : quota_op) : quota :=
  match op with
  | QLimit t l => default q (set_team_limit t l q)
  | QConsume t n => match try_consume t n q with Some (_, q') => q' | None => q end
  | QRelease t n => default q (quota_release t n q)
  end.

Lemma quota_bounded bound ops q0 team :
  quota_init bound = Some q0 -> (forall t l, QLimit t l ∈ ops -> l <= bound) ->
  0 <= quota_used team (foldl quota_step q0 ops) <= bound.
Proof.
  unfold quota_init. destruct (bound <? 0) eqn:Eb; [done|]. intros [= <-] Hl.
  set (inv q := qt_default q = bound /\ (forall t l, dget t (qt_limits q) = Some l -> l <= bound) /\
                forall t, 0 <= quota_used t q <= bound).
  assert (inv (Quota bound [] [])) as H0.
  { split_and!; [done|by intros ? ?|]. intros t. unfold quota_used. cbn. lia. }
  assert (forall q op, (forall t l, op = QLimit t l -> l <= bound) -> inv q -> inv (quota_step q op)) as Hstep.
  { intros q op Hop (Hd & Hlim & Hu). destruct op as [t l|t n|t n]; cbn [quota_step].
    - unfold set_team_limit. destruct (l <? 0); cbn; [by split_and!|]. split_and!; [done| |done].
      intros t' l'. cbn. rewrite dget_dset. case_decide; [intros [= <-]; by eapply Hop|apply Hlim].
    - unfold try_consume. destruct (n <? 0) eqn:En; [by split_and!|]. cbv zeta.
      destruct (quota_limit t q <? quota_used t q + n) eqn:Ec; [by split_and!|]. split_and!; [done|exact Hlim|]. intros t'. unfold quota_used. cbn.
      rewrite dget_dset. case_decide as Ht; [|apply Hu]. cbn. pose proof (Hu t).
      assert (quota_limit t q <= bound) by (unfold quota_limit; destruct (dget t (qt_limits q)) eqn:E; cbn; [by eapply Hlim|lia]).
      fold (quota_used t q). lia.
    - unfold quota_release. destruct (n <? 0) eqn:En; cbn; [by split_and!|]. split_and!; [done|exact Hlim|]. intros t'.
      unfold quota_used. cbn. rewrite dget_dset. case_decide; [|apply Hu]. cbn. fold (quota_used t q). pose proof (Hu t). lia. }
  assert (inv (foldl quota_step (Quota bound [] []) ops)) as (_ & _ & H); [|apply H].
  revert H0 Hl. generalize (Quota bound [] []). induction ops as [|op ops IH]; intros q Hq Hl; [done|].
  cbn [foldl]. apply IH; [|intros t l Hin; apply (Hl t l); by right].
  apply Hstep; [|done]. intros t l ->. apply (Hl t l). by left.
Qed.

(** Stage 0 on small payloads. *)
Example classify_examples :
  let U := ru_unicode in
  classify_block (u8 "A=1
B=2
C = 3
") = Some (u8 "config:env") /\
  classify_block (u8 "x
``` NGINX
") = Some (u8 "config:nginx") /\
  classify_block (u8 "apiVersion: v1
kind: Pod") = Some (u8 "config:kube") /\
  classify_block (u8 "please fix: def f(x): return x") = None.
Proof. vm_compute. repeat split. Qed.
