(* ===== verification/AuditLog.v ===== *)
(** * The audit trail

    [audit/invariants.py] (the gate that refuses mapping data, original text and
    credentials in a record), [audit/event.py], [audit/logger.py],
    [audit/sinks.py] and [audit/langfuse_sink.py].

    Records are trees of Python values.  The gate's three routines call each
    other; they are written over the recursive call ([Gate]) and the knot is tied
    on the depth of the value, with [walk_unfold] as the equation of the code.  The
    interpreter's recursion limit, past which a record raises instead of being
    checked, is not modelled. *)

From S2P Require Import Prelude Text Json Regex CachePolicy.
Local Open Scope py_scope.

(** ** Python values as the gate sees them *)

(** A dictionary key: a string, or another hashable. *)
Inductive pykey := KStr (s : str) | KOther (n : Z).

#[global] Instance pykey_eq_dec : EqDecision pykey.
Proof. solve_decision. Defined.

Inductive pyval :=
| PNone
| PBool (b : bool)
| PInt (z : Z)
| PFloat (text : str)
| PStr (s : str)
| PEnum (mixin : bool) (s : str)      (* an enum member with [.value] s; [mixin]: also a [str] *)
| PList (l : list pyval)
| PTuple (l : list pyval)
| PMap (d : list (pykey * pyval))
| POther.                             (* an object of another class *)

(** How deep a value nests. *)
Fixpoint depth (v : pyval) : nat :=
  match v with
  | PList l | PTuple l => S ((fix go l := match l with [] => 0%nat | x :: l' => Nat.max (depth x) (go l') end) l)
  | PMap d => S ((fix go d := match d with [] => 0%nat | (_, x) :: d' => Nat.max (depth x) (go d') end) d)
  | _ => 0%nat
  end.

(** Every string of a value: the keys of its maps and its leaves. *)
Fixpoint texts (v : pyval) : list str :=
  match v with
  | PStr s | PEnum _ s => [s]
  | PList l | PTuple l => (fix go l := match l with [] => [] | x :: l' => texts x ++ go l' end) l
  | PMap d => (fix go d := match d with
                           | [] => []
                           | (k, x) :: d' => match k with KStr s => [s] | KOther _ => [] end ++ texts x ++ go d'
                           end) d
  | _ => []
  end.

(** ** audit/invariants.py: the constants *)

Definition NEVER_FIELDS : list str :=
  [u8 "mapping"; u8 "mapping_table"; u8 "pairs"; u8 "original_content"; u8 "unredacted_content";
   u8 "pre_sanitization"; u8 "replace_md"; u8 "rule_values"; u8 "x_corp_auth"; u8 "corp_token";
   u8 "api_key"; u8 "authorization"; u8 "cookie"; u8 "set_cookie"; u8 "extra_headers"].

Definition DATA_KEYED_FIELDS : list str := [u8 "finding_label_counts"].

Definition GUARDRAIL_INFORMATION_KEYS : list str :=
  [u8 "guardrail_name"; u8 "guardrail_provider"; u8 "guardrail_mode"; u8 "guardrail_response";
   u8 "guardrail_status"; u8 "start_time"; u8 "end_time"; u8 "duration"; u8 "masked_entity_count"].

Definition GUARDRAIL_RESPONSE_KEYS : list str :=
  [u8 "block_reason"; u8 "redaction_count"; u8 "finding_label_counts"].

Definition GUARDRAIL_RESPONSE_REQUIRED : list str :=
  List.filter (fun k => negb (str_eqb k (u8 "block_reason"))) GUARDRAIL_RESPONSE_KEYS.

Definition GUARDRAIL_STATUSES : list str :=
  [u8 "success"; u8 "guardrail_flagged"; u8 "guardrail_intervened";
   u8 "guardrail_failed_to_respond"; u8 "not_run"].

Definition GUARDRAIL_INFORMATION_FIELDS : list str :=
  [u8 "guardrail_information"; u8 "standard_logging_guardrail_information"].

Definition az (c : N) : bool := ascii_lower_p c.
Definition az09 (c : N) : bool := ascii_lower_p c || ascii_digit_p c.
Definition az09_ (c : N) : bool := az09 c || (c =? 95)%N.

Definition GUARDRAIL_NAME : re :=
  Seq (Chr az09) (rep_range 0 63 (Chr (fun c => az09_ c || (c =? 45)%N))).
Definition GUARDRAIL_MODE : re := Seq (Chr az) (rep_range 0 31 (Chr (fun c => az c || (c =? 95)%N))).
Definition BLOCK_REASON : re :=
  seqs [Ahead true (Seq (rep_range 1 64 dot) Eol); Chr az; star (Chr az09_);
        opt (seqs [ch (chr ":"); Chr az; star (Chr az09_)])].
Definition FINDING_LABEL : re :=
  Seq (Chr ascii_upper_p)
      (rep_range 0 63 (Chr (fun c => ascii_upper_p c || ascii_digit_p c || (c =? 95)%N))).

(** [NeverFieldPresentError(key)], [GuardrailInformationRejectedError(rule)], and
    the interpreter's [TypeError] (an unhashable value tested against a set),
    [RecursionError] and [ValueError]. *)
Inductive audit_error :=
| NeverFieldPresentError (key : str)
| GuardrailInformationRejectedError (rule : str)
| TypeError
| RecursionError
| ValueError.

Definition reject {A} (rule : str) : result audit_error A := Raise (GuardrailInformationRejectedError rule).

(** [if not ok: _reject(rule)]. *)
Definition require (ok : bool) (rule : str) : result audit_error unit :=
  if ok then Ok tt else reject rule.

(** ** The leaf tests *)

Section Gate.
Context {U : Unicode}.

Definition normalize_key (key : str) : str := py_replace (u_lower key) (u8 "-") (u8 "_").

Definition matches_label (pattern : re) (value : pyval) : bool :=
  match value with
  | PStr s | PEnum true s => match re_fullmatch pattern s with Some _ => true | None => false end
  | _ => false
  end.

Definition is_number (value : pyval) : bool :=
  match value with PInt _ | PFloat _ => true | _ => false end.

Definition is_count (value : pyval) : bool :=
  match value with PInt z => 0 <=? z | _ => false end.

Definition is_none (value : pyval) : bool := match value with PNone => true | _ => false end.

(** [getattr(mode, "value", mode)]. *)
Definition enum_value (mode : pyval) : pyval := match mode with PEnum _ s => PStr s | _ => mode end.

Fixpoint hashable (v : pyval) : bool :=
  match v with
  | PList _ | PMap _ => false
  | PTuple l => (fix go l := match l with [] => true | x :: l' => hashable x && go l' end) l
  | _ => true
  end.

(** [value not in GUARDRAIL_STATUSES]: a lookup in a set hashes the value. *)
Definition in_statuses (value : pyval) : result audit_error bool :=
  match value with
  | PStr s | PEnum true s => Ok (memb s GUARDRAIL_STATUSES)
  | _ => if hashable value then Ok false else Raise TypeError
  end.

(** [set(a) <= set(b)] and [set(a) == set(b)]. *)
Definition subset_keys (a b : list pykey) : bool := forallb (fun k => memb k b) a.
Definition same_keys (a b : list pykey) : bool := subset_keys a b && subset_keys b a.

Definition str_keys (l : list str) : list pykey := map KStr l.

(** [entry[key]] once the keys are known to be there. *)
Definition item (key : str) (entry : list (pykey * pyval)) : pyval :=
  match dget (KStr key) entry with Some v => v | None => PNone end.

Definition check_labels (labels : list (pykey * pyval)) : result audit_error unit :=
  rfold (fun _ e => require
    (matches_label FINDING_LABEL (match e.1 with KStr s => PStr s | KOther _ => POther end) && is_count e.2)
    (u8 "finding_label_counts holds something other than label counts")) tt labels.

Definition check_response (response : pyval) : result audit_error unit :=
  match response with
  | PMap d =>
    let! _ := require (subset_keys (str_keys GUARDRAIL_RESPONSE_REQUIRED) (dkeys d) &&
                       subset_keys (dkeys d) (str_keys GUARDRAIL_RESPONSE_KEYS))
                (u8 "guardrail_response keys differ from the allow-list") in
    let! _ := require (negb (memb (KStr (u8 "block_reason")) (dkeys d)) ||
                       matches_label BLOCK_REASON (item (u8 "block_reason") d))
                (u8 "block_reason is not a reason code") in
    let! _ := require (is_count (item (u8 "redaction_count") d)) (u8 "redaction_count is not a count") in
    match item (u8 "finding_label_counts") d with
    | PMap labels => check_labels labels
    | _ => reject (u8 "finding_label_counts is not a map")
    end
  | _ => reject (u8 "guardrail_response keys differ from the allow-list")
  end.

(** The body of the loop of [assert_guardrail_information_allowed] after the
    NEVER walk of the entry. *)
Definition check_entry (entry : list (pykey * pyval)) : result audit_error unit :=
  let! _ := require (same_keys (dkeys entry) (str_keys GUARDRAIL_INFORMATION_KEYS))
              (u8 "entry keys differ from the allow-list") in
  let! _ := require (matches_label GUARDRAIL_NAME (item (u8 "guardrail_name") entry))
              (u8 "guardrail_name is not a name") in
  let! _ := require (matches_label GUARDRAIL_MODE (enum_value (item (u8 "guardrail_mode") entry)))
              (u8 "guardrail_mode is not a mode") in
  let! known := in_statuses (item (u8 "guardrail_status") entry) in
  let! _ := require known (u8 "guardrail_status is not a litellm status") in
  let! _ := require (is_none (item (u8 "guardrail_provider") entry) &&
                     is_none (item (u8 "masked_entity_count") entry))
              (u8 "guardrail_provider and masked_entity_count must be None") in
  let! _ := rfold (fun _ key => require (is_none (item key entry) || is_number (item key entry))
                                  (u8 "a timing field is not a number"))
              tt [u8 "start_time"; u8 "end_time"; u8 "duration"] in
  check_response (item (u8 "guardrail_response") entry).

(** ** The walk *)

Section Open.
Variable walk_ : pyval -> result audit_error unit.

Definition walk_all (l : list pyval) : result audit_error unit := rfold (fun _ x => walk_ x) tt l.

Definition walk_values_only_with (node : pyval) : result audit_error unit :=
  match node with
  | PMap d => walk_all (map snd d)
  | PList l | PTuple l => walk_all l
  | _ => Ok tt
  end.

Definition guardrail_entries (value : pyval) : list pyval :=
  match value with PList l => l | _ => [value] end.

Definition assert_guardrail_with (value : pyval) : result audit_error unit :=
  if is_none value then Ok tt else
  rfold (fun _ entry =>
    match entry with
    | PMap d => let! _ := walk_ entry in check_entry d
    | _ => reject (u8 "entry is not a mapping")
    end) tt (guardrail_entries value).

(** One item of a mapping. *)
Definition walk_item (e : pykey * pyval) : result audit_error unit :=
  match e.1 with
  | KOther _ => walk_ e.2
  | KStr key =>
    let normalized := normalize_key key in
    if memb normalized DATA_KEYED_FIELDS then walk_values_only_with e.2
    else if memb normalized NEVER_FIELDS then Raise (NeverFieldPresentError key)
    else if memb normalized GUARDRAIL_INFORMATION_FIELDS then assert_guardrail_with e.2
    else walk_ e.2
  end.

Definition walk_body (node : pyval) : result audit_error unit :=
  match node with
  | PMap d => rfold (fun _ e => walk_item e) tt d
  | PList l | PTuple l => walk_all l
  | _ => Ok tt
  end.
End Open.

Fixpoint walk_fuel (n : nat) (node : pyval) : result audit_error unit :=
  match n with
  | O => Raise RecursionError
  | S n' => walk_body (walk_fuel n') node
  end.

Definition walk (node : pyval) : result audit_error unit := walk_fuel (S (depth node)) node.

Definition walk_values_only : pyval -> result audit_error unit := walk_values_only_with walk.

Definition assert_guardrail_information_allowed : pyval -> result audit_error unit :=
  assert_guardrail_with walk.

Definition assert_no_never_fields (record : pyval) : result audit_error unit := walk record.
End Gate.

(** ** The equation of the walk *)

Lemma depth_list l x : x ∈ l -> (depth x < depth (PList l))%nat.
Proof.
  intros Hx. cbn [depth]. apply Nat.lt_succ_r. induction l as [|y l IH]; [by apply not_elem_of_nil in Hx|].
  apply elem_of_cons in Hx as [->|Hx]; [lia|]. specialize (IH Hx). lia.
Qed.

Lemma depth_tuple l x : x ∈ l -> (depth x < depth (PTuple l))%nat.
Proof. apply depth_list. Qed.

Lemma depth_map d k x : (k, x) ∈ d -> (depth x < depth (PMap d))%nat.
Proof.
  intros Hx. cbn [depth]. apply Nat.lt_succ_r. induction d as [|[k' y] d IH]; [by apply not_elem_of_nil in Hx|].
  apply elem_of_cons in Hx as [[= -> ->]|Hx]; [lia|]. specialize (IH Hx). lia.
Qed.

#[local] Hint Resolve depth_list depth_tuple depth_map : audit.

(** A loop over a list that only checks. *)
Lemma check_all_ok {E A} (f : A -> result E unit) l :
  rfold (fun _ x => f x) tt l = Ok tt <-> forall x, x ∈ l -> f x = Ok tt.
Proof.
  induction l as [|x l IH]; cbn [rfold]; [split; [by intros _ x Hx%not_elem_of_nil|done]|].
  destruct (f x) as [[]|e] eqn:Ex; cbn [rbind].
  - rewrite IH. split; [|set_solver]. intros H y [->|Hy]%elem_of_cons; auto.
  - split; [done|]. intros H. rewrite H in Ex by set_solver. done.
Qed.

Lemma check_all_ext {E A} (f g : A -> result E unit) l :
  (forall x, x ∈ l -> f x = g x) -> rfold (fun _ x => f x) tt l = rfold (fun _ x => g x) tt l.
Proof.
  induction l as [|x l IH]; cbn [rfold]; intros H; [done|]. rewrite H by set_solver.
  destruct (g x) as [[]|]; cbn [rbind]; [|done]. apply IH. set_solver.
Qed.

Lemma ok_tt {E} (r : result E unit) u : r = Ok u -> r = Ok tt.
Proof. by destruct u. Qed.

Section Walk.
Context {U : Unicode}.
Implicit Types (f g : pyval -> result audit_error unit) (v : pyval).

Lemma walk_values_ext f g v :
  (forall x, (depth x < depth v)%nat -> f x = g x) ->
  walk_values_only_with f v = walk_values_only_with g v.
Proof.
  intros H. destruct v; cbn [walk_values_only_with]; try done; unfold walk_all; apply check_all_ext;
    intros x Hx; apply H; eauto with audit.
  apply list_elem_of_fmap in Hx as ([k y] & -> & Hy). eauto with audit.
Qed.

Lemma entry_depth v e : e ∈ guardrail_entries v -> (depth e <= depth v)%nat.
Proof.
  destruct v; cbn [guardrail_entries]; try (intros ->%list_elem_of_singleton; done).
  intros H%depth_list. lia.
Qed.

Lemma guardrail_ext f g v :
  (forall x, (depth x <= depth v)%nat -> f x = g x) -> assert_guardrail_with f v = assert_guardrail_with g v.
Proof.
  intros H. unfold assert_guardrail_with. destruct (is_none v); [done|].
  apply check_all_ext. intros e He%entry_depth. destruct e; try done. by rewrite H.
Qed.

Lemma walk_body_ext f g v :
  (forall x, (depth x < depth v)%nat -> f x = g x) -> walk_body f v = walk_body g v.
Proof.
  intros H. destruct v; cbn [walk_body]; try done; try (apply check_all_ext; eauto with audit; fail).
  apply check_all_ext. intros [k x] Hx%depth_map. unfold walk_item; cbn [fst snd].
  destruct k as [key|n]; [|by apply H]. repeat case_match; try done.
  - apply walk_values_ext. intros y Hy. apply H. lia.
  - apply guardrail_ext. intros y Hy. apply H. lia.
  - by apply H.
Qed.

Lemma walk_fuel_enough n m v :
  (depth v < n)%nat -> (depth v < m)%nat -> walk_fuel n v = walk_fuel m v.
Proof.
  revert m v. induction n as [|n IH]; intros [|m] v Hn Hm; try lia. cbn [walk_fuel].
  apply walk_body_ext. intros x Hx. apply IH; lia.
Qed.

Lemma walk_unfold v : walk v = walk_body walk v.
Proof.
  unfold walk at 1. cbn [walk_fuel]. apply walk_body_ext. intros x Hx. apply walk_fuel_enough; lia.
Qed.
End Walk.

(** ** What the gate keeps out *)

(** The values one layer below a data-keyed field. *)
Definition children (v : pyval) : list pyval :=
  match v with PMap d => map snd d | PList l | PTuple l => l | _ => [] end.

(** [exposed v key]: somewhere in [v] the key [key] names a NEVER field.  The
    keys directly under a data-keyed field are data and do not count; what lies
    below them does. *)
Inductive exposed {U : Unicode} : pyval -> str -> Prop :=
| exposed_key d key v : (KStr key, v) ∈ d -> normalize_key key ∈ NEVER_FIELDS -> exposed (PMap d) key
| exposed_other d n v key : (KOther n, v) ∈ d -> exposed v key -> exposed (PMap d) key
| exposed_value d k v key :
    (KStr k, v) ∈ d -> normalize_key k ∉ DATA_KEYED_FIELDS -> exposed v key -> exposed (PMap d) key
| exposed_data d k v x key :
    (KStr k, v) ∈ d -> normalize_key k ∈ DATA_KEYED_FIELDS -> x ∈ children v -> exposed x key ->
    exposed (PMap d) key
| exposed_list l x key : x ∈ l -> exposed x key -> exposed (PList l) key
| exposed_tuple l x key : x ∈ l -> exposed x key -> exposed (PTuple l) key.

Section Exposure.
Context {U : Unicode}.

Lemma never_not_data k : k ∈ NEVER_FIELDS -> k ∉ DATA_KEYED_FIELDS.
Proof.
  intros H. apply memb_false. revert k H. rewrite <- Forall_forall.
  by repeat (constructor; [reflexivity|]).
Qed.

(** Passing the guardrail check includes passing the walk. *)
Lemma guardrail_walks v : assert_guardrail_information_allowed v = Ok tt -> walk v = Ok tt.
Proof.
  unfold assert_guardrail_information_allowed, assert_guardrail_with. rewrite walk_unfold.
  destruct v; cbn [is_none guardrail_entries walk_body]; try done.
  - unfold walk_all. rewrite !check_all_ok. intros H x Hx. specialize (H x Hx).
    destruct x; try done. apply rbind_ok in H as ([] & ? & _). done.
  - rewrite check_all_ok. intros H. specialize (H (PMap d) ltac:(by left)). cbv beta iota in H.
    apply rbind_ok in H as ([] & Hw & _). by rewrite walk_unfold in Hw.
Qed.

Lemma walk_item_ok e : walk_item walk e = Ok tt ->
  match e.1 with
  | KOther _ => walk e.2 = Ok tt
  | KStr key => normalize_key key ∉ NEVER_FIELDS /\
      (if memb (normalize_key key) DATA_KEYED_FIELDS then forall x, x ∈ children e.2 -> walk x = Ok tt
       else walk e.2 = Ok tt)
  end.
Proof.
  unfold walk_item. destruct e as [[key|n] v]; cbn [fst snd]; [|done]. cbv zeta.
  destruct (memb _ DATA_KEYED_FIELDS) eqn:Ed.
  - intros H. split.
    + intros Hn%never_not_data. by apply Hn, memb_true.
    + destruct v; cbn [walk_values_only_with children] in *;
        try (intros x Hx; by apply not_elem_of_nil in Hx); by apply check_all_ok.
  - destruct (memb _ NEVER_FIELDS) eqn:En; [done|]. apply memb_false in En. intros H. split; [done|].
    destruct (memb _ GUARDRAIL_INFORMATION_FIELDS); [by apply guardrail_walks|done].
Qed.

Lemma walk_map_ok d e : walk (PMap d) = Ok tt -> e ∈ d -> walk_item walk e = Ok tt.
Proof. rewrite walk_unfold. cbn [walk_body]. rewrite check_all_ok. auto. Qed.

Lemma walk_clean v key : exposed v key -> walk v <> Ok tt.
Proof.
  induction 1 as [d key v Hd Hk|d n v key Hd _ IH|d k v key Hd Hk _ IH|d k v x key Hd Hk Hx _ IH
                 |l x key Hx _ IH|l x key Hx _ IH]; intros Hw.
  - apply (walk_map_ok _ _ Hw), walk_item_ok in Hd as [? _]. done.
  - by apply (walk_map_ok _ _ Hw), walk_item_ok in Hd.
  - apply (walk_map_ok _ _ Hw), walk_item_ok in Hd as [_ H]. cbn [fst snd] in H.
    by rewrite (proj2 (memb_false _ _) Hk) in H.
  - apply (walk_map_ok _ _ Hw), walk_item_ok in Hd as [_ H]. cbn [fst snd] in H.
    rewrite (proj2 (memb_true _ _) Hk) in H. by apply IH, H.
  - rewrite walk_unfold in Hw. cbn [walk_body] in Hw. unfold walk_all in Hw.
    rewrite check_all_ok in Hw. by apply IH, Hw.
  - rewrite walk_unfold in Hw. cbn [walk_body] in Hw. unfold walk_all in Hw.
    rewrite check_all_ok in Hw. by apply IH, Hw.
Qed.

(** What an error of the gate says of the value it was raised for: a key that
    is named is there, the recursion is deep enough. *)
Definition explains (v : pyval) (e : audit_error) : Prop :=
  match e with
  | NeverFieldPresentError key => exposed v key
  | GuardrailInformationRejectedError _ | TypeError => True
  | RecursionError | ValueError => False
  end.

Lemma explains_mono v w e : (forall key, exposed v key -> exposed w key) -> explains v e -> explains w e.
Proof. destruct e; cbn [explains]; auto. Qed.

(** The checks of a guardrail entry only reject. *)
Definition rejects {A} (r : result audit_error A) : Prop := forall e, r = Raise e -> explains PNone e.

Lemma rejects_bind {A B} (r : result audit_error A) (k : A -> result audit_error B) :
  rejects r -> (forall a, rejects (k a)) -> rejects (rbind r k).
Proof. intros H1 H2 e. destruct r; cbn [rbind]; [apply H2|]. intros [= ->]. by apply H1. Qed.

Lemma rejects_require b rule : rejects (require b rule).
Proof. intros e. destruct b; [done|]. by intros [= <-]. Qed.

Lemma rejects_rfold {A B} (f : B -> A -> result audit_error B) b l :
  (forall b x, rejects (f b x)) -> rejects (rfold f b l).
Proof. intros H e (b' & x & _ & E)%rfold_raise. by apply H in E. Qed.

Lemma rejects_reject {A} rule : rejects (reject rule : result audit_error A).
Proof. by intros e [= <-]. Qed.

Ltac solve_rejects :=
  repeat first [ apply rejects_require | apply rejects_reject | apply rejects_rfold; intros ? ?
               | apply rejects_bind; [|intros ?] ].

Lemma check_response_rejects v : rejects (check_response v).
Proof. unfold check_response. destruct v; solve_rejects. destruct (item _ _); solve_rejects. Qed.

Lemma check_entry_rejects d : rejects (check_entry d).
Proof.
  unfold check_entry. solve_rejects; [|apply check_response_rejects].
  intros e. unfold in_statuses. repeat case_match; try done; by intros [= <-].
Qed.

Lemma walk_all_raises (l : list pyval) e : walk_all walk l = Raise e -> exists x, x ∈ l /\ walk x = Raise e.
Proof. intros (_ & x & Hx & E)%rfold_raise. eauto. Qed.

Lemma guardrail_raises v e :
  assert_guardrail_information_allowed v = Raise e ->
  explains PNone e \/ exists x, x ∈ guardrail_entries v /\ walk x = Raise e.
Proof.
  unfold assert_guardrail_information_allowed, assert_guardrail_with.
  destruct (is_none v); [done|]. intros (_ & x & He & E)%rfold_raise.
  destruct x as [| | | | | | | |d|]; try (left; by injection E as <-).
  destruct (walk (PMap d)) as [[]|e'] eqn:Ew; cbn [rbind] in E.
  - left. by apply check_entry_rejects in E.
  - right. injection E as ->. eauto.
Qed.

Lemma guardrail_entry_exposed v x key : x ∈ guardrail_entries v -> exposed x key -> exposed v key.
Proof.
  destruct v; cbn [guardrail_entries]; try (intros ->%list_elem_of_singleton; done).
  intros Hx He. by eapply exposed_list.
Qed.

Lemma explains_none v e : explains PNone e -> explains v e.
Proof. apply explains_mono. intros key H. inversion H. Qed.

(** An error of the walk is about something in the value. *)
Lemma walk_explains v e : walk v = Raise e -> explains v e.
Proof.
  revert e. induction (Nat.lt_wf_0_projected depth v) as [v _ IH]. intros e. rewrite walk_unfold.
  destruct v as [| | | | | |l|l|d|]; cbn [walk_body]; try done.
  - intros (x & Hx & E)%walk_all_raises. apply IH in E; [|by apply depth_list].
    revert E. apply explains_mono. intros key. by apply exposed_list.
  - intros (x & Hx & E)%walk_all_raises. apply IH in E; [|by apply depth_tuple].
    revert E. apply explains_mono. intros key. by apply exposed_tuple.
  - intros (_ & [k v] & Hd & E)%rfold_raise. pose proof (depth_map _ _ _ Hd) as Hlt.
    unfold walk_item in E; cbn [fst snd] in E. destruct k as [k|n].
    2:{ apply IH in E; [|done]. revert E. apply explains_mono. intros key. by apply exposed_other with n. }
    cbv zeta in E. destruct (memb _ DATA_KEYED_FIELDS) eqn:Ed.
    + apply memb_true in Ed.
      assert (exists x, x ∈ children v /\ walk x = Raise e) as (x & Hx & Ex).
      { by destruct v; cbn [walk_values_only_with] in E; try done; apply walk_all_raises in E. }
      assert (depth x < depth v)%nat.
      { destruct v; cbn [children] in Hx; try (by apply not_elem_of_nil in Hx); eauto with audit.
        apply list_elem_of_fmap in Hx as ([k' y] & -> & Hx). eauto with audit. }
      apply IH in Ex; [|lia]. revert Ex. apply explains_mono. intros key. by eapply exposed_data.
    + apply memb_false in Ed. destruct (memb _ NEVER_FIELDS) eqn:En.
      { injection E as <-. by eapply exposed_key; [done|apply memb_true]. }
      apply explains_mono with v; [intros key; by eapply exposed_value|].
      destruct (memb _ GUARDRAIL_INFORMATION_FIELDS); [|by apply IH].
      apply guardrail_raises in E as [E|(x & Hx & E)]; [by apply explains_none|].
      pose proof (entry_depth _ _ Hx). apply IH in E; [|lia]. revert E. apply explains_mono.
      intros key. by apply guardrail_entry_exposed.
Qed.
End Exposure.

(** ** Guardrail information holds labels only *)

Definition label_char (c : N) : bool :=
  ascii_alnum_p c || ((c =? chr "_") || (c =? chr "-") || (c =? chr ":"))%N.

(** A label: at most 64 characters out of letters, digits and [_-:]; no space,
    no at sign, no dot, no quote. *)
Definition label (s : str) : bool := (len s <=? 64) && forallb label_char s.

(** Python dictionaries have distinct keys. *)
Fixpoint dicts_ok (v : pyval) : Prop :=
  match v with
  | PList l | PTuple l => (fix go l := match l with [] => True | x :: l' => dicts_ok x /\ go l' end) l
  | PMap d => NoDup (dkeys d) /\
      (fix go d := match d with [] => True | (_, x) :: d' => dicts_ok x /\ go d' end) d
  | _ => True
  end.

Lemma dicts_ok_list l x : dicts_ok (PList l) -> x ∈ l -> dicts_ok x.
Proof.
  cbn [dicts_ok]. induction l as [|y l IH]; [by intros _ Hx%not_elem_of_nil|].
  intros [Hy Hl] [->|Hx]%elem_of_cons; auto.
Qed.

Lemma dicts_ok_map d k x : dicts_ok (PMap d) -> (k, x) ∈ d -> dicts_ok x.
Proof.
  intros [_ H]. induction d as [|[k' y] d IH]; [by intros Hx%not_elem_of_nil|].
  destruct H as [Hy Hd]. intros [[= -> ->]|Hx]%elem_of_cons; auto.
Qed.

Lemma texts_list l s : s ∈ texts (PList l) -> exists x, x ∈ l /\ s ∈ texts x.
Proof.
  cbn [texts]. induction l as [|y l IH]; [by intros Hx%not_elem_of_nil|].
  intros [Hs|Hs]%elem_of_app; [exists y; split; [by left|done]|].
  destruct (IH Hs) as (x & Hx & Hs'). exists x. split; [by right|done].
Qed.

Lemma texts_map d s : s ∈ texts (PMap d) -> exists k x, (k, x) ∈ d /\ (k = KStr s \/ s ∈ texts x).
Proof.
  cbn [texts]. induction d as [|[k y] d IH]; [by intros Hx%not_elem_of_nil|].
  intros [Hs|[Hs|Hs]%elem_of_app]%elem_of_app.
  - exists k, y. split; [by left|]. left. destruct k; set_solver.
  - exists k, y. split; [by left|by right].
  - destruct (IH Hs) as (k' & x & Hx & Hs'). exists k', x. split; [by right|done].
Qed.

Section Labels.
Context {U : Unicode}.

Lemma lpow_chr_length p n w : lpow (lang (Chr p)) n w -> length w = n.
Proof.
  revert w. induction n as [|n IH]; intros w; cbn [lpow]; [by intros ->|].
  intros (u & v & -> & (c & -> & _) & Hv). cbn. by rewrite (IH v).
Qed.

Lemma lang_head_tail p q k w :
  lang (Seq (Chr p) (Rep true 0 (Some k) (Chr q))) w -> len w <= 1 + Z.of_N k.
Proof.
  intros (u & v & -> & (c & -> & _) & (n & Hn & Hv)). apply lpow_chr_length in Hv.
  rewrite len_app. unfold len. rewrite Hv. cbn [within] in Hn. cbn [length]. lia.
Qed.

Lemma fullmatch_lang r s : is_Some (re_fullmatch r s) -> lang r s.
Proof.
  intros [m (Hok & H0 & H1)%re_fullmatch_ok]. pose proof (mk_lang _ _ _ Hok) as L.
  by rewrite H0, H1, slice_full in L.
Qed.

Lemma label_of r s :
  all_chars (fun c => label_char c = true) r -> is_Some (re_fullmatch r s) -> len s <= 64 -> label s = true.
Proof.
  intros Hr Hm Hl. apply andb_true_iff. split; [lia|]. apply forallb_forall.
  pose proof (lang_chars _ _ _ Hr (fullmatch_lang _ _ Hm)) as Hc. rewrite Forall_forall in Hc.
  intros c Hin%list_elem_of_In. by apply Hc.
Qed.

(** The classes of the four patterns are label characters. *)
Lemma label_res : Forall (all_chars (fun c => label_char c = true))
  [GUARDRAIL_NAME; GUARDRAIL_MODE; BLOCK_REASON; FINDING_LABEL].
Proof.
  repeat constructor; intros c;
    unfold label_char, az, az09_, az09, ascii_alnum_p, ascii_upper_p, ascii_lower_p, ascii_digit_p, in_range; lia.
Qed.

(** The look-ahead of the reason pattern bounds its length. *)
Lemma block_reason_length s : is_Some (re_fullmatch BLOCK_REASON s) -> len s <= 64.
Proof.
  intros Hm. pose proof (fullmatch_lang _ _ Hm) as L. pose proof label_res as Hr.
  rewrite !Forall_cons in Hr. destruct Hr as (_ & _ & Hr & _).
  apply (lang_chars _ _ _ Hr) in L as Hc. destruct Hm as [m Hm]. unfold re_fullmatch in Hm.
  destruct (matches BLOCK_REASON (m_init s) _) as [e|] eqn:E; [|done]. clear Hm Hr L.
  unfold BLOCK_REASON in E. cbn [seqs] in E.
  match type of E with matches (Seq (Ahead true ?a) ?b) ?s ?k = _ =>
    change (match matches a s Some with Some _ => matches b s k | None => None end = Some e) in E end.
  destruct (matches (Seq _ Eol) _ _) as [e'|] eqn:Ea; [|done]. clear E.
  change (matches (rep_range 1 64 dot) (m_init s) (fun s' => matches Eol s' Some) = Some e') in Ea.
  apply matches_ok in Ea as (w & s' & M & (n & Hn & Hw) & _ & _ & Hk).
  apply lpow_chr_length in Hw. cbn [within] in Hn.
  pose proof (mv_rest _ _ _ M) as Hs. cbn [m_init m_rest] in Hs.
  cbn [matches] in Hk. destruct (m_rest s') as [|c [|]]; [| |done].
  - rewrite Hs, app_nil_r. unfold len. lia.
  - exfalso. destruct (is_newline c) eqn:Ec; [|done]. apply N.eqb_eq in Ec as ->.
    rewrite Hs, Forall_app, Forall_singleton in Hc. by destruct Hc.
Qed.

(** A value that passes one of the four tests holds label texts only. *)
Lemma matches_label_texts r v s :
  r ∈ [GUARDRAIL_NAME; GUARDRAIL_MODE; BLOCK_REASON; FINDING_LABEL] ->
  matches_label r v = true -> s ∈ texts v -> label s = true.
Proof.
  intros Hr Hm Hs.
  assert (is_Some (re_fullmatch r s)) as Hf.
  { destruct v as [| | | |s'|[] s'| | | |]; try done; cbn in Hm, Hs; apply list_elem_of_singleton in Hs as ->;
      by destruct (re_fullmatch r s'). }
  apply (label_of r); [by apply (proj1 (Forall_forall _ _) label_res)|done|].
  pose proof (fullmatch_lang _ _ Hf) as L.
  repeat (apply elem_of_cons in Hr as [->|Hr]); [..|by apply not_elem_of_nil in Hr].
  - by apply lang_head_tail in L.
  - apply lang_head_tail in L. lia.
  - by apply block_reason_length.
  - by apply lang_head_tail in L.
Qed.

Lemma require_ok b rule u : require b rule = Ok u -> b = true.
Proof. by destruct b. Qed.

(** The keys of a map whose key set is inside [allowed]. *)
Lemma allowed_item d allowed k x :
  NoDup (dkeys d) -> subset_keys (dkeys d) (str_keys allowed) = true -> (k, x) ∈ d ->
  exists s, k = KStr s /\ s ∈ allowed /\ item s d = x.
Proof.
  intros Hnd Hs Hd. unfold subset_keys in Hs. rewrite forallb_forall in Hs.
  assert (k ∈ dkeys d) as Hk by (apply list_elem_of_fmap; by exists (k, x)).
  specialize (Hs k ltac:(by apply list_elem_of_In)). apply memb_true, list_elem_of_fmap in Hs as (s & -> & Hs).
  exists s. split_and!; [done..|]. unfold item. by rewrite (elem_dget _ _ _ Hnd Hd).
Qed.

Lemma count_texts v : is_count v = true -> texts v = [].
Proof. by destruct v. Qed.

Lemma time_texts v : is_none v || is_number v = true -> texts v = [].
Proof. by destruct v. Qed.

Lemma none_texts v : is_none v = true -> texts v = [].
Proof. by destruct v. Qed.

(** The fixed keys and the statuses are labels. *)
Lemma constants_are_labels :
  Forall (fun s => label s = true) (GUARDRAIL_INFORMATION_KEYS ++ GUARDRAIL_RESPONSE_KEYS ++ GUARDRAIL_STATUSES).
Proof. repeat (constructor; [reflexivity|]). constructor. Qed.

Lemma constant_label s :
  s ∈ GUARDRAIL_INFORMATION_KEYS \/ s ∈ GUARDRAIL_RESPONSE_KEYS \/ s ∈ GUARDRAIL_STATUSES -> label s = true.
Proof.
  intros H. apply (proj1 (Forall_forall _ _) constants_are_labels). rewrite !elem_of_app. done.
Qed.

Lemma check_labels_texts labels s :
  check_labels labels = Ok tt -> s ∈ texts (PMap labels) -> label s = true.
Proof.
  unfold check_labels. rewrite check_all_ok. intros H (k & x & Hd & Hs)%texts_map.
  specialize (H _ Hd). apply require_ok, andb_true_iff in H as [Hk Hx]. cbn [fst snd] in *.
  rewrite (count_texts _ Hx) in Hs. destruct Hs as [->|Hs]; [|by apply not_elem_of_nil in Hs].
  eapply (matches_label_texts FINDING_LABEL); [by repeat constructor|exact Hk|by left].
Qed.

Lemma check_response_texts v s :
  dicts_ok v -> check_response v = Ok tt -> s ∈ texts v -> label s = true.
Proof.
  destruct v as [| | | | | | | |d|]; try done. intros Hok H (k & x & Hd & Hs)%texts_map.
  cbn [check_response] in H. bind_ok H as u1 E1. bind_ok H as u2 E2. bind_ok H as u3 E3.
  apply require_ok in E1, E2, E3. apply andb_true_iff in E1 as [_ E1].
  destruct (allowed_item _ _ _ _ (proj1 Hok) E1 Hd) as (key & -> & Hkey & <-).
  destruct Hs as [[= ->]|Hs]; [by apply constant_label; auto|].
  repeat (apply elem_of_cons in Hkey as [->|Hkey]); [..|by apply not_elem_of_nil in Hkey].
  - rewrite (proj2 (memb_true _ _)) in E2.
    + eapply (matches_label_texts BLOCK_REASON); [by repeat constructor|exact E2|done].
    + apply list_elem_of_fmap. by eexists (_, _).
  - rewrite (count_texts _ E3) in Hs. by apply not_elem_of_nil in Hs.
  - destruct (item (u8 "finding_label_counts") d); try done. by eapply check_labels_texts.
Qed.

Lemma in_statuses_texts v s : in_statuses v = Ok true -> s ∈ texts v -> label s = true.
Proof.
  assert (forall s', memb s' GUARDRAIL_STATUSES = true -> s ∈ [s'] -> label s = true) as H.
  { intros s' Hm%memb_true ->%list_elem_of_singleton. apply constant_label. auto. }
  destruct v as [| | | |s'|[] s'| |l|d|]; cbn [in_statuses texts hashable]; try done; try (intros [= E]; eauto).
  by destruct (_ l).
Qed.

Lemma check_entry_texts d s :
  dicts_ok (PMap d) -> check_entry d = Ok tt -> s ∈ texts (PMap d) -> label s = true.
Proof.
  intros Hok H (k & x & Hd & Hs)%texts_map. unfold check_entry in H.
  bind_ok H as u1 E1. bind_ok H as u2 E2. bind_ok H as u3 E3. bind_ok H as known E4.
  bind_ok H as u5 E5. bind_ok H as u6 E6. bind_ok H as u7 E7. apply ok_tt in E7.
  rewrite check_all_ok in E7. apply require_ok in E1, E2, E3, E5, E6. subst known.
  apply andb_true_iff in E1 as [E1 _]. apply andb_true_iff in E6 as [E6 E6'].
  destruct (allowed_item _ _ _ _ (proj1 Hok) E1 Hd) as (key & -> & Hkey & <-).
  destruct Hs as [[= ->]|Hs]; [by apply constant_label; auto|].
  assert (Htime : key ∈ [u8 "start_time"; u8 "end_time"; u8 "duration"] -> label s = true).
  { intros Ht. specialize (E7 _ Ht). apply require_ok, time_texts in E7.
    rewrite E7 in Hs. by apply not_elem_of_nil in Hs. }
  repeat (apply elem_of_cons in Hkey as [->|Hkey]); [..|by apply not_elem_of_nil in Hkey];
    try (apply Htime, memb_true; vm_compute; reflexivity).
  - eapply (matches_label_texts GUARDRAIL_NAME); [by repeat constructor|exact E2|done].
  - rewrite (none_texts _ E6) in Hs. by apply not_elem_of_nil in Hs.
  - eapply (matches_label_texts GUARDRAIL_MODE); [by repeat constructor|exact E3|].
    by destruct (item (u8 "guardrail_mode") d).
  - apply (check_response_texts _ _ (dicts_ok_map _ _ _ Hok Hd)); done.
  - by eapply in_statuses_texts.
  - rewrite (none_texts _ E6') in Hs. by apply not_elem_of_nil in Hs.
Qed.

Lemma guardrail_texts v s :
  dicts_ok v -> assert_guardrail_information_allowed v = Ok tt -> s ∈ texts v -> label s = true.
Proof.
  unfold assert_guardrail_information_allowed, assert_guardrail_with. intros Hok H Hs.
  destruct (is_none v) eqn:Hn; [by rewrite (none_texts _ Hn) in Hs; apply not_elem_of_nil in Hs|].
  rewrite check_all_ok in H.
  assert (exists e, e ∈ guardrail_entries v /\ dicts_ok e /\ s ∈ texts e) as (e & He & Hoke & Hse).
  { destruct v; cbn [guardrail_entries]; try (eexists; split; [by left|done]).
    apply texts_list in Hs as (x & Hx & Hsx). eauto using dicts_ok_list. }
  specialize (H e He). destruct e as [| | | | | | | |d|]; try done.
  bind_ok H as u Ew. by eapply check_entry_texts.
Qed.
End Labels.

(** ** audit/event.py *)

(** An aware UTC [datetime]. *)
Record datetime := DateTime {
  dt_year : N; dt_month : N; dt_day : N; dt_hour : N; dt_minute : N; dt_second : N; dt_microsecond : N;
}.

Definition zero_pad (w : nat) (n : N) : str := let d := str_of_N n in replicate (w - length d) 48%N ++ d.

(** [timestamp.isoformat()]. *)
Definition isoformat (t : datetime) : str :=
  zero_pad 4 (dt_year t) ++ u8 "-" ++ zero_pad 2 (dt_month t) ++ u8 "-" ++ zero_pad 2 (dt_day t) ++ u8 "T" ++
  zero_pad 2 (dt_hour t) ++ u8 ":" ++ zero_pad 2 (dt_minute t) ++ u8 ":" ++ zero_pad 2 (dt_second t) ++
  (if (dt_microsecond t =? 0)%N then [] else u8 "." ++ zero_pad 6 (dt_microsecond t)) ++ u8 "+00:00".

Inductive status := StatusOk | StatusFailed | StatusDegraded | StatusCancelled.

Definition status_text (s : status) : str :=
  match s with
  | StatusOk => u8 "ok"
  | StatusFailed => u8 "failed"
  | StatusDegraded => u8 "degraded"
  | StatusCancelled => u8 "cancelled"
  end.

Record AuditEvent := {
  ev_timestamp : datetime;
  ev_request_id : str;
  ev_user_id : str;
  ev_team_id : str;
  ev_provider : str;
  ev_model : str;
  ev_latency_ms : Z;
  ev_prompt_token_count : Z;
  ev_completion_token_count : Z;
  ev_redaction_count : Z;
  ev_finding_label_counts : list (str * Z);
  ev_cache_a_hit : bool;
  ev_status : status;
  ev_placeholder_list : option (list str);
  ev_error_code : option str;
  ev_block_reason : option str;
  ev_corp_llm_latency_ms : option Z;
  ev_pre_pass_latency_ms : option Z;
  ev_audit_buffer_full : option bool;
  ev_profile_ids : list str;
  ev_jurisdiction : option str;
}.

(** ** audit/logger.py *)

Abbreviation record := (list (pykey * pyval)).

Definition field (key : str) (v : pyval) : record := [(KStr key, v)].

(** [if x is not None: record[key] = x]. *)
Definition opt_field {A} (key : str) (f : A -> pyval) (x : option A) : record :=
  match x with Some a => field key (f a) | None => [] end.

Definition str_list (l : list str) : pyval := PList (map PStr l).

Definition label_map (counts : list (str * Z)) : pyval :=
  PMap (map (fun e => (KStr e.1, PInt e.2)) counts).

(** The fields from the timestamp to [cache_a_hit], alike in both serializers. *)
Definition always_fields (e : AuditEvent) : record :=
  field (u8 "timestamp") (PStr (isoformat (ev_timestamp e))) ++
  field (u8 "request_id") (PStr (ev_request_id e)) ++
  field (u8 "user_id") (PStr (ev_user_id e)) ++
  field (u8 "team_id") (PStr (ev_team_id e)) ++
  field (u8 "provider") (PStr (ev_provider e)) ++
  field (u8 "model") (PStr (ev_model e)) ++
  field (u8 "latency_ms") (PInt (ev_latency_ms e)) ++
  field (u8 "prompt_token_count") (PInt (ev_prompt_token_count e)) ++
  field (u8 "completion_token_count") (PInt (ev_completion_token_count e)) ++
  field (u8 "redaction_count") (PInt (ev_redaction_count e)) ++
  field (u8 "finding_label_counts") (label_map (ev_finding_label_counts e)) ++
  field (u8 "cache_a_hit") (PBool (ev_cache_a_hit e)).

(** The latencies and the policy facts, alike in both serializers. *)
Definition policy_fields (e : AuditEvent) : record :=
  opt_field (u8 "corp_llm_latency_ms") PInt (ev_corp_llm_latency_ms e) ++
  opt_field (u8 "pre_pass_latency_ms") PInt (ev_pre_pass_latency_ms e) ++
  opt_field (u8 "audit_buffer_full") PBool (ev_audit_buffer_full e) ++
  (match ev_profile_ids e with [] => [] | ids => field (u8 "profile_ids") (str_list ids) end) ++
  opt_field (u8 "jurisdiction") PStr (ev_jurisdiction e).

(** [AuditLogger._serialize]. *)
Definition serialize (gateway_version : str) (e : AuditEvent) : record :=
  always_fields e ++
  field (u8 "gateway_version") (PStr gateway_version) ++
  field (u8 "status") (PStr (status_text (ev_status e))) ++
  opt_field (u8 "placeholder_list") str_list (ev_placeholder_list e) ++
  opt_field (u8 "error_code") PStr (ev_error_code e) ++
  opt_field (u8 "block_reason") PStr (ev_block_reason e) ++
  policy_fields e.

(** *** The interface of a sink *)

(** Why a write failed: perhaps delivered, or certainly not. *)
Inductive sink_error :=
| AuditWriteAmbiguousError
| LangfuseIngestionError
| SinkRefused (e : audit_error)         (* the sink's own gate, or [json.dumps] *)
| SinkFailed.                           (* any other exception *)

Class Sink (S : Type) := { write : record -> S -> result sink_error S }.

Inductive emit_error := EmitRefused (e : audit_error) | EmitSink (e : sink_error).

Definition lift_gate {A} (r : result audit_error A) : result emit_error A :=
  match r with Ok a => Ok a | Raise e => Raise (EmitRefused e) end.
Definition lift_sink {A} (r : result sink_error A) : result emit_error A :=
  match r with Ok a => Ok a | Raise e => Raise (EmitSink e) end.

(** [AuditLogger.emit]. *)
Definition emit `{Unicode} {S} `{Sink S} (gateway_version : str) (e : AuditEvent) (s : S) : result emit_error S :=
  let rec := serialize gateway_version e in
  let! _ := lift_gate (assert_no_never_fields (PMap rec)) in
  lift_sink (write rec s).

(** ** audit/sinks.py *)

(** [ListSink]: the records it was given. *)
#[global] Instance list_sink : Sink (list record) := { write r s := Ok (s ++ [r]) }.

(** One character in a string literal of [json.dumps], [ensure_ascii] on. *)
Definition ascii_escape_char (c : N) : str :=
  match short_escape c with
  | Some e => [92%N; e]
  | None =>
    if in_range 32 126 c then [c]
    else if (c <? 65536)%N then u_escape c
    else u_escape (55296 + (c - 65536) / 1024)%N ++ u_escape (56320 + (c - 65536) mod 1024)%N
  end.

Definition dump_ascii (s : str) : str := [34%N] ++ concat (map ascii_escape_char s) ++ [34%N].

(** [json.dumps(v, separators=(",", ":"))]; [None] stands for the [TypeError] of
    a value JSON does not have, and [other_key] renders a key that is no string
    (numbers, booleans and None are converted, the rest refused). *)
Section Stdout.
Variable other_key : Z -> option str.

Definition key_text (k : pykey) : option str :=
  match k with KStr s => Some s | KOther n => other_key n end.

Fixpoint dumps_compact (v : pyval) : option str :=
  match v with
  | PNone => Some (u8 "null")
  | PBool true => Some (u8 "true")
  | PBool false => Some (u8 "false")
  | PInt z => Some (dump_int z)
  | PFloat t => Some t
  | PStr s | PEnum true s => Some (dump_ascii s)
  | PEnum false _ | POther => None
  | PList l | PTuple l =>
    option_map (fun parts => u8 "[" ++ join (u8 ",") parts ++ u8 "]")
      ((fix go l := match l with
                    | [] => Some []
                    | x :: l' => match dumps_compact x, go l' with Some t, Some ts => Some (t :: ts) | _, _ => None end
                    end) l)
  | PMap d =>
    option_map (fun parts => u8 "{" ++ join (u8 ",") parts ++ u8 "}")
      ((fix go d := match d with
                    | [] => Some []
                    | (k, x) :: d' =>
                      match key_text k, dumps_compact x, go d' with
                      | Some kt, Some t, Some ts => Some ((dump_ascii kt ++ u8 ":" ++ t) :: ts)
                      | _, _, _ => None
                      end
                    end) d)
  end.

(** [StdoutSink]: the characters written to the stream. *)
Definition stdout_sink : Sink str :=
  {| write r s := match dumps_compact (PMap r) with
                  | Some line => Ok (s ++ line ++ [10%N])
                  | None => Raise (SinkRefused TypeError)
                  end |}.
End Stdout.

(** ** audit/langfuse_sink.py *)

(** [_event_to_record]: no gateway version, no block reason. *)
Definition event_to_record (e : AuditEvent) : record :=
  always_fields e ++
  field (u8 "status") (PStr (status_text (ev_status e))) ++
  opt_field (u8 "placeholder_list") str_list (ev_placeholder_list e) ++
  opt_field (u8 "error_code") PStr (ev_error_code e) ++
  policy_fields e.

Section Langfuse.
Context {U : Unicode}.

(** [repr] of the values below that are not written out, and the ids of
    [uuid.uuid4()] in the order they are drawn. *)
Variable repr_other : pyval -> str.
Variable uuid4 : nat -> str.

(** [str(v)] and [f"{v}"]. *)
Definition py_str (v : pyval) : str :=
  match v with
  | PStr s => s
  | PNone => u8 "None"
  | PBool true => u8 "True"
  | PBool false => u8 "False"
  | PInt z => dump_int z
  | PFloat t => t
  | _ => repr_other v
  end.

(** [int(v)]. *)
Definition py_int_of (v : pyval) : result audit_error Z :=
  match v with
  | PInt z => Ok z
  | PBool b => Ok (Z.b2z b)
  | PStr s => match py_int s with Some z => Ok z | None => Raise ValueError end
  | _ => Raise TypeError
  end.

(** [record.get(key, default)]. *)
Definition get_or (key : str) (default : pyval) (r : record) : pyval :=
  match dget (KStr key) r with Some v => v | None => default end.
Definition get (key : str) (r : record) : pyval := get_or key PNone r.

Definition py_true (v : pyval) : bool :=
  match v with
  | PNone | PBool false | PInt 0 | PStr [] | PList [] | PTuple [] | PMap [] => false
  | _ => true
  end.

Definition obj (fields : record) : pyval := PMap fields.

(** The metadata of the trace. *)
Definition trace_metadata (r : record) : record :=
  field (u8 "team_id") (get (u8 "team_id") r) ++
  field (u8 "redaction_count") (get_or (u8 "redaction_count") (PInt 0) r) ++
  field (u8 "cache_a_hit") (get_or (u8 "cache_a_hit") (PBool false) r) ++
  field (u8 "finding_label_counts") (get_or (u8 "finding_label_counts") (PMap []) r) ++
  field (u8 "gateway_version") (get (u8 "gateway_version") r) ++
  field (u8 "status") (get (u8 "status") r) ++
  field (u8 "error_code") (get (u8 "error_code") r) ++
  (if py_true (get (u8 "profile_ids") r) then field (u8 "profile_ids") (get (u8 "profile_ids") r) else []) ++
  (if is_none (get (u8 "jurisdiction") r) then [] else field (u8 "jurisdiction") (get (u8 "jurisdiction") r)).

(** The two events of one record; [n] ids were drawn before.  [uuid.uuid4()] as
    the default of [get] is evaluated whether it is needed or not. *)
Definition record_events (n : nat) (r : record) : result audit_error (list pyval) :=
  let trace_id := py_str (get_or (u8 "request_id") (PStr (uuid4 n)) r) in
  let ts := py_str (get_or (u8 "timestamp") (PStr []) r) in
  let trace := obj (
    field (u8 "id") (PStr (uuid4 (n + 1))) ++
    field (u8 "type") (PStr (u8 "trace-create")) ++
    field (u8 "timestamp") (PStr ts) ++
    field (u8 "body") (obj (
      field (u8 "id") (PStr trace_id) ++
      field (u8 "name") (PStr (u8 "corp-llm-gateway")) ++
      field (u8 "userId") (get (u8 "user_id") r) ++
      field (u8 "metadata") (obj (trace_metadata r)) ++
      field (u8 "tags") (PList [PStr (u8 "team:" ++ py_str (get (u8 "team_id") r));
                                PStr (u8 "provider:" ++ py_str (get (u8 "provider") r))])))) in
  let! input := py_int_of (get_or (u8 "prompt_token_count") (PInt 0) r) in
  let! output := py_int_of (get_or (u8 "completion_token_count") (PInt 0) r) in
  let generation := obj (
    field (u8 "id") (PStr (uuid4 (n + 2))) ++
    field (u8 "type") (PStr (u8 "generation-create")) ++
    field (u8 "timestamp") (PStr ts) ++
    field (u8 "body") (obj (
      field (u8 "id") (PStr (uuid4 (n + 3))) ++
      field (u8 "traceId") (PStr trace_id) ++
      field (u8 "name") (PStr (py_str (get (u8 "provider") r) ++ u8 "-call")) ++
      field (u8 "model") (get (u8 "model") r) ++
      field (u8 "startTime") (PStr ts) ++
      field (u8 "usage") (obj (
        field (u8 "input") (get_or (u8 "prompt_token_count") (PInt 0) r) ++
        field (u8 "output") (get_or (u8 "completion_token_count") (PInt 0) r) ++
        field (u8 "total") (PInt (input + output)) ++
        field (u8 "unit") (PStr (u8 "TOKENS")))) ++
      field (u8 "metadata") (obj (
        field (u8 "latency_ms") (get (u8 "latency_ms") r) ++
        field (u8 "corp_llm_latency_ms") (get (u8 "corp_llm_latency_ms") r) ++
        field (u8 "pre_pass_latency_ms") (get (u8 "pre_pass_latency_ms") r)))))) in
  Ok [trace; generation].

Fixpoint batch_events (n : nat) (records : list record) : result audit_error (list pyval) :=
  match records with
  | [] => Ok []
  | r :: rs =>
    let! here := record_events n r in
    let! rest := batch_events (n + 4) rs in
    Ok (here ++ rest)
  end.

(** [_records_to_batch]. *)
Definition records_to_batch (n : nat) (records : list record) : result audit_error pyval :=
  let! events := batch_events n records in Ok (obj (field (u8 "batch") (PList events))).

(** What the HTTP client answers. *)
Inductive http_outcome :=
| ReadTimeout | RemoteProtocolError      (* the request went out *)
| OtherHttpError                         (* connect, write, pool: it did not *)
| Response (status_code : Z).

(** [_post]: the batches that were delivered, and how the write ends. *)
Definition post_result (o : http_outcome) : result sink_error unit :=
  match o with
  | ReadTimeout | RemoteProtocolError => Raise AuditWriteAmbiguousError
  | OtherHttpError => Raise LangfuseIngestionError
  | Response code => if 400 <=? code then Raise LangfuseIngestionError else Ok tt
  end.

Variable http : pyval -> http_outcome.

Definition post (batch : pyval) (sent : list pyval) : result sink_error (list pyval) :=
  let! _ := post_result (http batch) in Ok (sent ++ [batch]).

Definition refused {A} (r : result audit_error A) : result sink_error A :=
  match r with Ok a => Ok a | Raise e => Raise (SinkRefused e) end.

(** [LangfuseSink.write] and [write_event]. *)
Definition langfuse_write (r : record) (sent : list pyval) : result sink_error (list pyval) :=
  let! _ := refused (assert_no_never_fields (PMap r)) in
  let! batch := refused (records_to_batch (4 * length sent) [r]) in
  post batch sent.

Definition langfuse_sink : Sink (list pyval) := {| write := langfuse_write |}.

Definition write_event (e : AuditEvent) (sent : list pyval) : result sink_error (list pyval) :=
  langfuse_write (event_to_record e) sent.
End Langfuse.

(** ** Records the gateway builds pass *)

(** The normal form of an ASCII key. *)
Definition ascii_norm (k : str) : str := py_replace (map ascii_lower1 k) (u8 "-") (u8 "_").

(** A key that the gate does not single out. *)
Definition open_key (k : str) : bool :=
  forallb is_ascii k &&
  negb (memb (ascii_norm k) (DATA_KEYED_FIELDS ++ NEVER_FIELDS ++ GUARDRAIL_INFORMATION_FIELDS)).

Section Accepted.
Context {U : Unicode} {UL : UnicodeLaws U}.

Lemma normalize_ascii k : forallb is_ascii k = true -> normalize_key k = ascii_norm k.
Proof. intros H. unfold normalize_key. by rewrite lower_ascii. Qed.

(** The items of a map pass. *)
Definition fields_ok (d : record) : Prop := forall e, e ∈ d -> walk_item walk e = Ok tt.

Lemma walk_fields d : walk (PMap d) = Ok tt <-> fields_ok d.
Proof. rewrite walk_unfold. cbn [walk_body]. apply check_all_ok. Qed.

Lemma fields_ok_app d1 d2 : fields_ok d1 -> fields_ok d2 -> fields_ok (d1 ++ d2).
Proof. intros H1 H2 e [He|He]%elem_of_app; auto. Qed.

Lemma fields_ok_open k v : open_key k = true -> walk v = Ok tt -> fields_ok (field k v).
Proof.
  intros [Hp Hk]%andb_true_iff Hv e ->%list_elem_of_singleton.
  rewrite negb_true_iff, memb_false, !elem_of_app in Hk. unfold walk_item; cbn [fst snd].
  rewrite (normalize_ascii _ Hp). cbv zeta. repeat (rewrite (proj2 (memb_false _ _)) by tauto). done.
Qed.

Lemma fields_ok_cons k v d :
  open_key k = true -> walk v = Ok tt -> fields_ok d -> fields_ok ((KStr k, v) :: d).
Proof. intros Hk Hv Hd. apply (fields_ok_app (field k v)); [by apply fields_ok_open|done]. Qed.

Lemma fields_ok_data v :
  (forall x, x ∈ children v -> walk x = Ok tt) -> fields_ok (field (u8 "finding_label_counts") v).
Proof.
  intros Hv e ->%list_elem_of_singleton. unfold walk_item; cbn [fst snd].
  rewrite normalize_ascii by done. cbv zeta. rewrite (proj2 (memb_true _ _)) by (by left).
  destruct v; cbn [walk_values_only_with children] in *; try done; by apply check_all_ok.
Qed.

Lemma fields_ok_opt {A} k (f : A -> pyval) x :
  open_key k = true -> (forall a, walk (f a) = Ok tt) -> fields_ok (opt_field k f x).
Proof. intros Hk Hf. destruct x; [by apply fields_ok_open|]. by intros e ?%not_elem_of_nil. Qed.

Lemma walk_list l : (forall x, x ∈ l -> walk x = Ok tt) -> walk (PList l) = Ok tt.
Proof. rewrite walk_unfold. cbn [walk_body]. apply check_all_ok. Qed.

Lemma walk_str_list l : walk (str_list l) = Ok tt.
Proof. apply walk_list. by intros x (s & -> & _)%list_elem_of_fmap. Qed.

Lemma fields_ok_labels counts : fields_ok (field (u8 "finding_label_counts") (label_map counts)).
Proof.
  apply fields_ok_data. intros x. cbn [label_map children]. rewrite map_map.
  by intros (e & -> & _)%list_elem_of_fmap.
Qed.

Ltac solve_fields :=
  repeat first [ apply fields_ok_app | apply fields_ok_labels | apply fields_ok_opt; [reflexivity|]
               | apply fields_ok_open; [reflexivity|] ]; try reflexivity; auto using walk_str_list.

Lemma always_fields_ok e : fields_ok (always_fields e).
Proof. unfold always_fields. solve_fields. Qed.

Lemma policy_fields_ok e : fields_ok (policy_fields e).
Proof.
  unfold policy_fields. solve_fields. destruct (ev_profile_ids e) as [|i ids]; [by intros ? ?%not_elem_of_nil|].
  solve_fields.
Qed.

Lemma serialize_ok version e : assert_no_never_fields (PMap (serialize version e)) = Ok tt.
Proof.
  apply walk_fields. unfold serialize. apply fields_ok_app; [apply always_fields_ok|].
  repeat (first [apply policy_fields_ok | apply fields_ok_app]; [solve_fields; fail|]). apply policy_fields_ok.
Qed.

Lemma event_to_record_ok e : assert_no_never_fields (PMap (event_to_record e)) = Ok tt.
Proof.
  apply walk_fields. unfold event_to_record. apply fields_ok_app; [apply always_fields_ok|].
  repeat (first [apply policy_fields_ok | apply fields_ok_app]; [solve_fields; fail|]). apply policy_fields_ok.
Qed.

(** *** What Langfuse receives *)

(** A value taken from a record that passed. *)
Lemma get_or_ok k default r :
  walk (PMap r) = Ok tt -> open_key k = true -> walk default = Ok tt -> walk (get_or k default r) = Ok tt.
Proof.
  intros Hr%walk_fields [Hp Hk]%andb_true_iff Hd. unfold get_or.
  destruct (dget (KStr k) r) as [v|] eqn:E; [|done]. apply dget_elem, Hr, walk_item_ok in E as [_ E].
  cbn [fst snd] in E. rewrite (normalize_ascii _ Hp) in E.
  rewrite negb_true_iff, memb_false, !elem_of_app in Hk. by rewrite (proj2 (memb_false _ _)) in E by tauto.
Qed.

Lemma get_labels_ok default r :
  walk (PMap r) = Ok tt -> children default = [] ->
  fields_ok (field (u8 "finding_label_counts") (get_or (u8 "finding_label_counts") default r)).
Proof.
  intros Hr%walk_fields Hd. apply fields_ok_data. unfold get_or. destruct (dget _ r) as [v|] eqn:E.
  - apply dget_elem, Hr, walk_item_ok in E as [_ E]. cbn [fst snd] in E.
    rewrite normalize_ascii in E by done. by rewrite (proj2 (memb_true _ _)) in E by (by left).
  - rewrite Hd. by intros x ?%not_elem_of_nil.
Qed.

Lemma trace_metadata_ok r : walk (PMap r) = Ok tt -> fields_ok (trace_metadata r).
Proof.
  intros Hr. unfold trace_metadata, get.
  repeat apply fields_ok_app; try (apply fields_ok_open; [reflexivity|by apply get_or_ok]).
  - by apply get_labels_ok.
  - destruct (py_true _); [|by intros ? ?%not_elem_of_nil].
    apply fields_ok_open; [reflexivity|by apply get_or_ok].
  - destruct (is_none _); [by intros ? ?%not_elem_of_nil|].
    apply fields_ok_open; [reflexivity|by apply get_or_ok].
Qed.

Ltac solve_batch :=
  repeat match goal with
  | |- fields_ok [] => by intros ? ?%not_elem_of_nil
  | |- fields_ok (_ :: _) => apply fields_ok_cons; [reflexivity|..]
  | |- fields_ok (field _ _) => apply fields_ok_open; [reflexivity|]
  | |- fields_ok (_ ++ _) => apply fields_ok_app
  | |- fields_ok (trace_metadata _) => by apply trace_metadata_ok
  | |- walk (get_or _ _ _) = _ => by apply get_or_ok
  | |- walk (PMap _) = _ => apply walk_fields
  | |- walk _ = _ => reflexivity
  end.

Lemma batch_ok (repr_other : pyval -> str) (uuid4 : nat -> str) n r b :
  walk (PMap r) = Ok tt -> records_to_batch repr_other uuid4 n [r] = Ok b -> walk b = Ok tt.
Proof.
  intros Hr H. unfold records_to_batch in H. bind_ok H as events E. injection H as <-.
  cbn [batch_events] in E. bind_ok E as here E1. injection E as <-. rewrite app_nil_r.
  unfold record_events in E1. cbv zeta in E1. bind_ok E1 as input E2. bind_ok E1 as output E3.
  injection E1 as <-. unfold obj, get. apply walk_fields, fields_ok_open; [reflexivity|].
  apply walk_list. intros x [->|[->|Hx]%elem_of_cons]%elem_of_cons; [..|by apply not_elem_of_nil in Hx];
    solve_batch.
Qed.
End Accepted.

(** ** One record, one line *)

Definition one_line (s : str) : bool := forallb (fun c => negb (c =? 10)%N) s.

Lemma one_line_app a b : one_line (a ++ b) = one_line a && one_line b.
Proof. apply forallb_app. Qed.

Lemma str_of_uint_line d : one_line (str_of_uint d) = true.
Proof. by induction d. Qed.

Lemma dump_int_line z : one_line (dump_int z) = true.
Proof. destruct z as [|p|p]; [done|..]; apply str_of_uint_line. Qed.

Lemma u_escape_line n : one_line (u_escape n) = true.
Proof.
  assert (forall m, negb (hex_digit m =? 10)%N = true) as H.
  { intros m. unfold hex_digit. destruct (m <? 10)%N eqn:E; lia. }
  unfold u_escape. rewrite one_line_app. cbn [one_line forallb andb]. unfold one_line. cbn [forallb andb].
  by rewrite !H.
Qed.

Lemma ascii_escape_line c : one_line (ascii_escape_char c) = true.
Proof.
  unfold ascii_escape_char. destruct (short_escape c) as [e|] eqn:E.
  - cbn. revert E. unfold short_escape. repeat case_match; intros [= <-]; reflexivity.
  - destruct (in_range 32 126 c) eqn:Er; [|by destruct (c <? 65536)%N; rewrite ?one_line_app, ?u_escape_line].
    unfold in_range in Er. cbn. lia.
Qed.

Lemma dump_ascii_line s : one_line (dump_ascii s) = true.
Proof.
  unfold dump_ascii. rewrite !one_line_app. cbn [one_line forallb]. rewrite andb_true_r.
  induction s as [|c s IH]; [done|]. cbn [map concat]. by rewrite one_line_app, ascii_escape_line.
Qed.

Lemma join_line sep parts : one_line sep = true -> Forall (fun p => one_line p = true) parts -> one_line (join sep parts) = true.
Proof.
  intros Hs. induction 1 as [|p ps Hp Hps IH]; [done|]. destruct ps; [done|].
  change (one_line (p ++ sep ++ join sep (l :: ps)) = true). by rewrite !one_line_app, Hp, Hs, IH.
Qed.

Section Lines.
Variable other_key : Z -> option str.
Abbreviation dumps_c := (dumps_compact other_key).

(** [v] is written, and on one line. *)
Definition lineable (v : pyval) : Prop := exists t, dumps_c v = Some t /\ one_line t = true.

Lemma lineable_str s : lineable (PStr s).
Proof. eexists. split; [done|]. apply dump_ascii_line. Qed.

Lemma lineable_int z : lineable (PInt z).
Proof. eexists. split; [done|]. apply dump_int_line. Qed.

Lemma lineable_bool b : lineable (PBool b).
Proof. by destruct b; eexists. Qed.

(** The elements and the members, one after the other. *)
Lemma dumps_list l :
  dumps_c (PList l) = option_map (fun parts => u8 "[" ++ join (u8 ",") parts ++ u8 "]") (mapM dumps_c l).
Proof. done. Qed.

Definition dump_item (e : pykey * pyval) : option str :=
  match key_text other_key e.1, dumps_c e.2 with
  | Some kt, Some t => Some (dump_ascii kt ++ u8 ":" ++ t)
  | _, _ => None
  end.

Lemma dumps_map d :
  dumps_c (PMap d) = option_map (fun parts => u8 "{" ++ join (u8 ",") parts ++ u8 "}") (mapM dump_item d).
Proof.
  cbn [dumps_compact]. f_equal. induction d as [|[k x] d IH]; [done|]. cbn [mapM]. rewrite IH.
  destruct (dump_item (k, x)) eqn:E; unfold dump_item in E; cbn [fst snd] in E;
    destruct (key_text other_key k); simplify_eq; destruct (dumps_c x); by simplify_eq.
Qed.

Lemma mapM_lines {A} (f : A -> option str) l :
  Forall (fun x => exists t, f x = Some t /\ one_line t = true) l ->
  exists ts, mapM f l = Some ts /\ Forall (fun p => one_line p = true) ts.
Proof.
  induction 1 as [|x l (t & Et & Ht) _ (ts & E & Hts)]; [by exists []|]. exists (t :: ts).
  cbn [mapM]. rewrite Et. cbn. rewrite E. auto.
Qed.

Lemma lineable_list l : Forall lineable l -> lineable (PList l).
Proof.
  intros (ts & E & Hts)%mapM_lines. eexists. rewrite dumps_list, E. split; [done|].
  by rewrite !one_line_app, join_line.
Qed.

(** A map with string keys and lineable values. *)
Definition lineable_item (e : pykey * pyval) : Prop := (exists s, e.1 = KStr s) /\ lineable e.2.

Lemma lineable_map d : Forall lineable_item d -> lineable (PMap d).
Proof.
  intros H. assert (Forall (fun e => exists t, dump_item e = Some t /\ one_line t = true) d) as (ts & E & Hts)%mapM_lines.
  { eapply Forall_impl; [exact H|]. intros [k x] [[s Hk] (t & Et & Ht)]. unfold dump_item; cbn [fst snd] in *. subst k.
    rewrite Et. eexists. split; [done|]. by rewrite !one_line_app, dump_ascii_line. }
  eexists. rewrite dumps_map, E. split; [done|]. by rewrite !one_line_app, join_line.
Qed.

Lemma lineable_str_list l : lineable (str_list l).
Proof. apply lineable_list, Forall_forall. intros x (s & -> & _)%list_elem_of_fmap. apply lineable_str. Qed.

Lemma lineable_labels counts : lineable (label_map counts).
Proof.
  apply lineable_map, Forall_forall. intros x (e & -> & _)%list_elem_of_fmap.
  split; [by eexists|apply lineable_int].
Qed.

#[local] Hint Resolve lineable_str lineable_int lineable_bool lineable_str_list lineable_labels : audit.

Lemma lineable_field k v : lineable v -> Forall lineable_item (field k v).
Proof. intros H. apply Forall_singleton. split; [by eexists|done]. Qed.

Lemma lineable_opt {A} k (f : A -> pyval) x : (forall a, lineable (f a)) -> Forall lineable_item (opt_field k f x).
Proof. intros H. destruct x; [by apply lineable_field|constructor]. Qed.

Lemma serialize_line version e : lineable (PMap (serialize version e)).
Proof.
  apply lineable_map. unfold serialize, always_fields, policy_fields.
  repeat match goal with
  | |- Forall _ (_ ++ _) => apply Forall_app_2
  | |- Forall _ (field _ _) => apply lineable_field; auto with audit
  | |- Forall _ (opt_field _ _ _) => apply lineable_opt; auto with audit
  end.
  destruct (ev_profile_ids e); [constructor|]. apply lineable_field. auto with audit.
Qed.

Lemma split_line l s : one_line l = true -> split_char 10 (l ++ 10%N :: s) = l :: split_char 10 s.
Proof.
  induction l as [|c l IH]; cbn [app split_char one_line forallb]; [done|].
  intros [Hc Hl]%andb_true_iff. rewrite (IH Hl). by destruct (c =? 10)%N.
Qed.

(** The stream after the lines [ls]. *)
Lemma split_lines ls :
  Forall (fun l => one_line l = true) ls -> split_char 10 (concat (map (fun l => l ++ [10%N]) ls)) = ls ++ [[]].
Proof.
  induction 1 as [|l ls Hl Hls IH]; [done|]. cbn [map concat app].
  rewrite <- app_assoc. cbn [app]. by rewrite split_line, IH.
Qed.
End Lines.

(** ** The claims *)

(** C22: the gate is exact.  A record it lets through has no NEVER key at any
    depth, whatever the nesting of maps, lists and tuples and whatever the case
    and the dashes of the key; only the keys directly under a data-keyed field
    are exempt.  An error that names a key names one that is there, and the walk
    always comes to an end. *)
Theorem audit_gate_exact {U : Unicode} (r : pyval) :
  match assert_no_never_fields r with
  | Ok _ => forall key, ~ exposed r key
  | Raise (NeverFieldPresentError key) => exposed r key
  | Raise (GuardrailInformationRejectedError _ | TypeError) => True
  | Raise (RecursionError | ValueError) => False
  end.
Proof.
  destruct (assert_no_never_fields r) as [[]|e] eqn:E.
  - intros key Hk. by apply walk_clean in Hk.
  - apply walk_explains in E. by destruct e.
Qed.

(** guardrail information carries no free text: every string in a value that
    [assert_guardrail_information_allowed] accepts, keys included, at any depth,
    has at most 64 characters, all of them letters, digits or one of [_-:]. *)
Theorem guardrail_labels_only {U : Unicode} (v : pyval) (s : str) :
  dicts_ok v -> assert_guardrail_information_allowed v = Ok tt -> s ∈ texts v -> label s = true.
Proof. apply guardrail_texts. Qed.

Definition demo_entry : pyval := PMap (
  field (u8 "guardrail_name") (PStr (u8 "corp-llm-gateway")) ++
  field (u8 "guardrail_provider") PNone ++
  field (u8 "guardrail_mode") (PEnum true (u8 "pre_call")) ++
  field (u8 "guardrail_response") (PMap (
    field (u8 "block_reason") (PStr (u8 "dlp:aws_key")) ++
    field (u8 "redaction_count") (PInt 2) ++
    field (u8 "finding_label_counts") (label_map [(u8 "API_KEY", 2)]))) ++
  field (u8 "guardrail_status") (PStr (u8 "guardrail_intervened")) ++
  field (u8 "start_time") (PFloat (u8 "1.5")) ++
  field (u8 "end_time") (PFloat (u8 "2.5")) ++
  field (u8 "duration") (PInt 1) ++
  field (u8 "masked_entity_count") PNone).

Lemma guardrail_labels_only_witness : label (u8 "dlp:aws_key") = true.
Proof.
  apply (@guardrail_labels_only ru_unicode (PList [demo_entry])).
  - vm_compute. repeat split; repeat (constructor; [set_solver|]); constructor.
  - vm_compute. reflexivity.
  - apply memb_true. vm_compute. reflexivity.
Defined.

(** the gate never costs an audit record: whatever the event, its record
    passes, both on the logger's path and on the direct Langfuse path, so that
    emission ends as the sink ends; and what is sent to Langfuse for a record
    that passed passes the gate again. *)
Theorem emit_reaches_sink {U : Unicode} {UL : UnicodeLaws U} {S} `{Sink S} version e (s : S) r repr_other uuid4 n b :
  assert_no_never_fields (PMap r) = Ok tt -> records_to_batch repr_other uuid4 n [r] = Ok b ->
  emit version e s = lift_sink (write (serialize version e) s) /\
  assert_no_never_fields (PMap (event_to_record e)) = Ok tt /\
  assert_no_never_fields b = Ok tt.
Proof.
  intros Hr Hb. split_and!.
  - unfold emit. cbv zeta. by rewrite serialize_ok.
  - apply event_to_record_ok.
  - by eapply batch_ok.
Qed.

Definition demo_event : AuditEvent := {|
  ev_timestamp := DateTime 2025 1 2 3 4 5 0; ev_request_id := u8 "r-1"; ev_user_id := u8 "u"; ev_team_id := u8 "t";
  ev_provider := u8 "anthropic"; ev_model := u8 "m"; ev_latency_ms := 12; ev_prompt_token_count := 3;
  ev_completion_token_count := 4; ev_redaction_count := 1; ev_finding_label_counts := [(u8 "API_KEY", 1)];
  ev_cache_a_hit := false; ev_status := StatusFailed; ev_placeholder_list := Some [u8 "[[API_KEY_001]]"];
  ev_error_code := Some (u8 "blocked"); ev_block_reason := Some (u8 "dlp:aws_key");
  ev_corp_llm_latency_ms := None; ev_pre_pass_latency_ms := Some 2; ev_audit_buffer_full := None;
  ev_profile_ids := [u8 "gdpr"]; ev_jurisdiction := Some (u8 "EU") |}.

Lemma emit_reaches_sink_witness :
  is_ok (@emit ru_unicode _ list_sink (u8 "1.0") demo_event []) = true.
Proof.
  set (r := serialize (u8 "1.0") demo_event). set (ids := fun n : nat => u8 "id").
  destruct (@records_to_batch ru_unicode (fun _ => []) ids 0 [r]) as [b|] eqn:Eb; [|by vm_compute in Eb].
  destruct (@emit_reaches_sink ru_unicode ru_unicode_laws _ list_sink (u8 "1.0") demo_event [] r (fun _ => []) ids 0 b
              ltac:(vm_compute; reflexivity) Eb) as (-> & _ & _). reflexivity.
Defined.

(** the audit stream is one JSON line per event, in order: emitting events to
    the stdout sink always succeeds, and splitting the stream at its newlines
    gives back exactly the serialized records. *)
Theorem audit_stream_lines {U : Unicode} {UL : UnicodeLaws U} (other_key : Z -> option str) version (es : list AuditEvent) :
  exists out lines,
    rfold (fun s e => @emit U _ (stdout_sink other_key) version e s) [] es = Ok out /\
    split_char 10 out = lines ++ [[]] /\
    Forall2 (fun e line => dumps_compact other_key (PMap (serialize version e)) = Some line) es lines.
Proof.
  assert (exists lines,
    Forall (fun l => one_line l = true) lines /\
    Forall2 (fun e line => dumps_compact other_key (PMap (serialize version e)) = Some line) es lines /\
    forall acc, rfold (fun s e => @emit U _ (stdout_sink other_key) version e s) acc es =
      Ok (acc ++ concat (map (fun l => l ++ [10%N]) lines))) as (lines & Hl & H2 & Hr).
  { induction es as [|e es (lines & Hl & H2 & Hr)].
    { exists []. split_and!; [constructor..|]. intros acc. cbn. by rewrite app_nil_r. }
    destruct (serialize_line other_key version e) as (t & Et & Ht). exists (t :: lines).
    split_and!; [by constructor..|]. intros acc. cbn [rfold]. unfold emit at 1. cbv zeta.
    rewrite serialize_ok. cbn [lift_gate rbind write stdout_sink]. rewrite Et. cbn [lift_sink rbind].
    rewrite Hr. f_equal. cbn [map concat]. by rewrite <- !app_assoc. }
  exists (concat (map (fun l => l ++ [10%N]) lines)), lines. split_and!; [apply Hr|by apply split_lines|done].
Qed.

(** The two serializers differ: [_event_to_record] never carries the block reason
    or the gateway version. *)
Lemma langfuse_record_omits e :
  dget (KStr (u8 "block_reason")) (event_to_record e) = None /\
  dget (KStr (u8 "gateway_version")) (event_to_record e) = None.
Proof.
  unfold event_to_record, always_fields, policy_fields.
  destruct (ev_placeholder_list e), (ev_error_code e), (ev_corp_llm_latency_ms e), (ev_pre_pass_latency_ms e),
    (ev_audit_buffer_full e), (ev_profile_ids e), (ev_jurisdiction e); split; reflexivity.
Qed.

(** The keys under the label counts are data, one layer deep. *)
Example gate_examples :
  let gate := @assert_no_never_fields ru_unicode in
  gate (PMap [(KStr (u8 "finding_label_counts"), PMap [(KStr (u8 "API_KEY"), PInt 1)])]) = Ok tt /\
  gate (PMap [(KStr (u8 "finding_label_counts"), PMap [(KStr (u8 "x"), PMap [(KStr (u8 "API-Key"), PInt 1)])])])
    = Raise (NeverFieldPresentError (u8 "API-Key")) /\
  gate (PMap [(KStr (u8 "a"), PList [PTuple [PMap [(KStr (u8 "X-Corp-Auth"), PNone)]]])])
    = Raise (NeverFieldPresentError (u8 "X-Corp-Auth")).
Proof. vm_compute. repeat split. Qed.
