(* ===== verification/TeamConfig.v ===== *)
(** * Team configuration and retention

    [team_config/models.py], [team_config/in_memory.py], the row and JSON
    conversions of [team_config/postgres_store.py], and [audit/retention.py]. *)

From S2P Require Import Prelude Text Json AuditLog.
Local Open Scope py_scope.

(** ** team_config/models.py *)

Definition DEFAULT_RETENTION_HOT_DAYS : Z := 90.
Definition DEFAULT_RETENTION_COLD_YEARS : Z := 7.

Inductive FailPolicy := FailClosed | Continue.

Definition policy_text (p : FailPolicy) : str :=
  match p with FailClosed => u8 "fail-closed" | Continue => u8 "continue" end.

(** The annotations say [FailPolicy]; a row of the database may hold any JSON
    value there, which the loader does not check. *)
Record FailPolicyOverrides (P : Type) := {
  pre_pass_down : P;
  audit_sink_down : P;
  audit_buffer_full : P;
}.
Arguments pre_pass_down {P} _.
Arguments audit_sink_down {P} _.
Arguments audit_buffer_full {P} _.
Arguments Build_FailPolicyOverrides {P} _ _ _.

Definition default_overrides : FailPolicyOverrides FailPolicy :=
  Build_FailPolicyOverrides Continue Continue FailClosed.

Record TeamConfig (P : Type) := {
  tc_team_id : str;
  tc_name : str;
  tc_replace_md_path : option str;
  tc_profile_ids : list str;
  tc_retention_hot_days : Z;
  tc_retention_cold_years : Z;
  tc_fail_policy : FailPolicyOverrides P;
}.
Arguments tc_team_id {P} _.
Arguments tc_name {P} _.
Arguments tc_replace_md_path {P} _.
Arguments tc_profile_ids {P} _.
Arguments tc_retention_hot_days {P} _.
Arguments tc_retention_cold_years {P} _.
Arguments tc_fail_policy {P} _.
Arguments Build_TeamConfig {P} _ _ _ _ _ _ _.

(** The value as the loader stores it. *)
Definition as_json (p : FailPolicy) : json := JStr (policy_text p).

Definition map_overrides {P Q} (f : P -> Q) (o : FailPolicyOverrides P) : FailPolicyOverrides Q :=
  Build_FailPolicyOverrides (f (pre_pass_down o)) (f (audit_sink_down o)) (f (audit_buffer_full o)).

Definition map_config {P Q} (f : P -> Q) (c : TeamConfig P) : TeamConfig Q :=
  Build_TeamConfig (tc_team_id c) (tc_name c) (tc_replace_md_path c) (tc_profile_ids c)
    (tc_retention_hot_days c) (tc_retention_cold_years c) (map_overrides f (tc_fail_policy c)).

(** ** team_config/in_memory.py *)

Inductive team_error := TeamNotFoundError (team_id : str).

Abbreviation team_store P := (list (str * TeamConfig P)).

Definition team_get {P} (team_id : str) (s : team_store P) : result team_error (TeamConfig P) :=
  match dget team_id s with Some c => Ok c | None => Raise (TeamNotFoundError team_id) end.

Definition upsert {P} (c : TeamConfig P) (s : team_store P) : team_store P := dset (tc_team_id c) c s.

Definition list_all {P} (s : team_store P) : list (TeamConfig P) := map snd s.

(** ** team_config/postgres_store.py: rows *)

Definition dump_pair (k v : str) : str := dump_ascii k ++ u8 ": " ++ dump_ascii v.

(** [_fail_policy_to_json]. *)
Definition fail_policy_to_json (fp : FailPolicyOverrides FailPolicy) : str :=
  u8 "{" ++ join (u8 ", ")
    [dump_pair (u8 "pre_pass_down") (policy_text (pre_pass_down fp));
     dump_pair (u8 "audit_sink_down") (policy_text (audit_sink_down fp));
     dump_pair (u8 "audit_buffer_full") (policy_text (audit_buffer_full fp))] ++ u8 "}".

(** What the driver hands over for a [jsonb] column: NULL, its text, or a tree. *)
Inductive jsonb := JNone | JText (s : str) | JTree (v : json).

Section Rows.
Context {F : FloatText} {U : Unicode}.

Definition data_or_default (data : list (str * json)) (key : str) (default : FailPolicy) : json :=
  match dget key data with Some v => v | None => as_json default end.

Definition overrides_of (data : json) : FailPolicyOverrides json :=
  match data with
  | JObj ((_ :: _) as d) => Build_FailPolicyOverrides
      (data_or_default d (u8 "pre_pass_down") (pre_pass_down default_overrides))
      (data_or_default d (u8 "audit_sink_down") (audit_sink_down default_overrides))
      (data_or_default d (u8 "audit_buffer_full") (audit_buffer_full default_overrides))
  | _ => map_overrides as_json default_overrides
  end.

(** [_fail_policy_from_json]; a text that is not JSON raises. *)
Definition fail_policy_from_json (raw : jsonb) : result loads_error (FailPolicyOverrides json) :=
  match raw with
  | JNone | JText [] => Ok (map_overrides as_json default_overrides)
  | JText s => let! data := loads_exc s in Ok (overrides_of data)
  | JTree v => Ok (overrides_of v)
  end.

(** A row of the table, and [_row_to_team_config]. *)
Record team_row := TeamRow {
  row_team_id : str; row_name : str; row_replace_md_path : option str; row_profile_ids : option (list str);
  row_retention_hot_days : Z; row_retention_cold_years : Z; row_fail_policy : jsonb;
}.

Definition row_to_team_config (row : team_row) : result loads_error (TeamConfig json) :=
  let! fp := fail_policy_from_json (row_fail_policy row) in
  Ok (Build_TeamConfig (row_team_id row) (row_name row) (row_replace_md_path row)
        (match row_profile_ids row with Some ids => ids | None => [] end)
        (row_retention_hot_days row) (row_retention_cold_years row) fp).

(** The values [upsert] binds in its INSERT. *)
Definition upsert_values (c : TeamConfig FailPolicy) : team_row :=
  TeamRow (tc_team_id c) (tc_name c) (tc_replace_md_path c) (Some (tc_profile_ids c))
    (tc_retention_hot_days c) (tc_retention_cold_years c) (JText (fail_policy_to_json (tc_fail_policy c))).
End Rows.

(** ** audit/retention.py *)

Record lifecycle_rule := LifecycleRule {
  lr_id : str; lr_status : str; lr_prefix : str; lr_transition_days : Z; lr_storage_class : str; lr_expire_days : Z;
}.

Definition lifecycle_rule_for {P} (config : TeamConfig P) : lifecycle_rule :=
  let days_to_glacier := Z.max 1 (tc_retention_hot_days config) in
  let days_to_expire := days_to_glacier + tc_retention_cold_years config * 365 in
  LifecycleRule (u8 "corp-llm-gateway-" ++ tc_team_id config) (u8 "Enabled") (tc_team_id config ++ u8 "/")
    days_to_glacier (u8 "GLACIER") days_to_expire.

Definition lifecycle_configuration {P} (configs : list (TeamConfig P)) : list lifecycle_rule :=
  map lifecycle_rule_for configs.

(** ** Facts *)

(** What was stored is what is read back, from memory and from a row. *)
Lemma team_get_upsert {P} (c : TeamConfig P) team s :
  team_get team (upsert c s) = if decide (team = tc_team_id c) then Ok c else team_get team s.
Proof. unfold team_get, upsert. rewrite dget_dset. by destruct (decide _). Qed.

Lemma fail_policy_roundtrip {F : FloatText} (fp : FailPolicyOverrides FailPolicy) :
  fail_policy_from_json (JText (fail_policy_to_json fp)) = Ok (map_overrides as_json fp).
Proof. destruct fp as [[] [] []]; vm_compute; reflexivity. Qed.

(** The object key [key] lies under the prefix of a rule. *)
Definition under (key : str) (r : lifecycle_rule) : bool := starts_with key (lr_prefix r).

Lemma prefix_cut (a b s t : str) :
  (chr "/") ∉ a -> (chr "/") ∉ b -> a ++ (chr "/") :: s = b ++ (chr "/") :: t -> a = b.
Proof.
  revert b. induction a as [|x a IH]; intros [|y b] Ha Hb H; cbn [app] in H; try done.
  - injection H as <- _. exfalso. apply Hb. by left.
  - injection H as -> _. exfalso. apply Ha. by left.
  - injection H as -> H. f_equal. rewrite elem_of_cons in Ha, Hb. apply IH; tauto.
Qed.

(** The configurations of a store: one per team. *)
Definition store_ok {P} (s : team_store P) : Prop :=
  NoDup (dkeys s) /\ forall k c, (k, c) ∈ s -> tc_team_id c = k.

Lemma upsert_ok {P} (c : TeamConfig P) s : store_ok s -> store_ok (upsert c s).
Proof.
  intros [Hn Hk]. split; [by apply dset_NoDup|]. intros k c' Hin.
  apply elem_dget in Hin; [|by apply dset_NoDup]. unfold upsert in Hin. rewrite dget_dset in Hin.
  case_decide; [by simplify_eq|]. by apply Hk, dget_elem.
Qed.

(** a team's audit objects follow its own retention and no other team's: a
    configuration written through the JSON column is read back as it was; in a
    store filled by [upsert], team ids without a slash give every object key at
    most one rule, and that rule moves it to the cold tier on day 1 or later and
    deletes it never before, later still when cold years are asked for. *)
Theorem retention_rules_separate {F : FloatText} (updates : list (TeamConfig FailPolicy)) c1 c2 key :
  let s := foldl (fun s c => upsert c s) [] updates in
  c1 ∈ list_all s -> c2 ∈ list_all s ->
  (chr "/") ∉ tc_team_id c1 -> (chr "/") ∉ tc_team_id c2 -> 0 <= tc_retention_cold_years c1 ->
  under key (lifecycle_rule_for c1) = true -> under key (lifecycle_rule_for c2) = true ->
  c1 = c2 /\ row_to_team_config (upsert_values c1) = Ok (map_config as_json c1) /\
  1 <= lr_transition_days (lifecycle_rule_for c1) <= lr_expire_days (lifecycle_rule_for c1) /\
  (0 < tc_retention_cold_years c1 ->
   lr_transition_days (lifecycle_rule_for c1) < lr_expire_days (lifecycle_rule_for c1)).
Proof.
  intros s H1 H2 Hs1 Hs2 Hy U1 U2.
  assert (store_ok s) as [Hn Hk].
  { subst s. assert (store_ok (@nil (str * TeamConfig FailPolicy))) as H0.
    { split; [constructor|]. by intros k c ?%not_elem_of_nil. }
    revert H0. generalize (@nil (str * TeamConfig FailPolicy)).
    clear. induction updates as [|c us IH]; intros s Hs; [done|]. cbn [foldl]. by apply IH, upsert_ok. }
  split_and!.
  - apply list_elem_of_fmap in H1 as ([k1 c1'] & -> & H1), H2 as ([k2 c2'] & -> & H2). cbn [snd] in *.
    unfold under, lifecycle_rule_for in U1, U2. cbv zeta in U1, U2. cbn [lr_prefix] in U1, U2.
    apply starts_with_iff in U1 as [t1 E1], U2 as [t2 E2]. rewrite <- app_assoc in E1, E2. cbn [app] in E1, E2.
    assert (tc_team_id c1' = tc_team_id c2') as Ht by (apply (prefix_cut _ _ t1 t2); [done..|by rewrite <- E1, <- E2]).
    rewrite (Hk _ _ H1), (Hk _ _ H2) in Ht. subst k2. apply elem_dget in H1, H2; [|done..]. congruence.
  - unfold row_to_team_config, upsert_values. cbn [row_fail_policy]. by rewrite fail_policy_roundtrip.
  - unfold lifecycle_rule_for. cbn. lia.
  - unfold lifecycle_rule_for. cbn. lia.
  - unfold lifecycle_rule_for. cbn. lia.
Qed.

Definition demo_team (id : str) (years : Z) : TeamConfig FailPolicy :=
  Build_TeamConfig id (u8 "Team") None [] 0 years default_overrides.

Lemma retention_rules_separate_witness :
  let c := demo_team (u8 "pay") 7 in
  @row_to_team_config id_floats (upsert_values c) = Ok (map_config as_json c).
Proof.
  intros c.
  apply (@retention_rules_separate id_floats [demo_team (u8 "pay") 1; demo_team (u8 "payroll") 2; c] c c (u8 "pay/1.json"));
    try (vm_compute; reflexivity); try (cbn; lia); try (by vm_compute; set_solver);
    try (apply memb_false; vm_compute; reflexivity).
Defined.
