(* ===== verification/TerminalAudit.v ===== *)
(** * The terminal audit record ([route_gate/terminal_audit.py])

    A ticketed request has one audit record.  The pre-call deposits the facts,
    the response path publishes an outcome, the ticket's close decides what is
    left, and a failed write gets one retry.  Writes are asynchronous: a write in
    flight is a part of the state and its end is an event, so that the runs below
    are the interleavings of the response path, the close and the sink. *)

From Stdlib Require Import Qround.
From S2P Require Import Prelude Text Json AuditLog Inflight.
Local Open Scope py_scope.

Definition E_INTERNAL : str := u8 "E_INTERNAL".
Definition E_CLIENT_DISCONNECTED : str := u8 "E_CLIENT_DISCONNECTED".
Definition E_SERVER_SHUTDOWN : str := u8 "E_SERVER_SHUTDOWN".

Inductive outcome := OutOk | OutFailed | OutCancelled.

Definition outcome_status (o : outcome) : status :=
  match o with OutOk => StatusOk | OutFailed => StatusFailed | OutCancelled => StatusCancelled end.

Abbreviation decision := (outcome * option str)%type.

#[global] Instance outcome_eq_dec : EqDecision outcome.
Proof. solve_decision. Defined.

#[global] Instance origin_eq_dec : EqDecision origin.
Proof. solve_decision. Defined.

(** ** [AuditFacts] *)

(** What the pre-call knows, fixed at the deposit. *)
Record facts := Facts {
  af_request_id : str;
  af_user_id : str;
  af_team_id : str;
  af_provider : str;
  af_model : str;
  af_redaction_count : Z;
  af_finding_label_counts : list (str * Z);
  af_cache_a_hit : bool;
  af_block_reason : option str;
  af_error_code : option str;
  af_profile_ids : list str;
  af_placeholders : list str;
  af_status : outcome;
  af_started : Q;
  af_client_asked_usage : bool;
}.

(** The fields that change afterwards. *)
Record progress := Progress {
  pr_prompt : Z;
  pr_completion : Z;
  pr_decided : option decision;
  pr_published : bool;
  pr_publishing : bool;
  pr_attempts : nat;
  pr_retry_on_failure : bool;
}.

Definition progress_init : progress := Progress 0 0 None false false 0 false.

Definition set_decided (d : decision) (p : progress) : progress :=
  Progress (pr_prompt p) (pr_completion p) (Some d) (pr_published p) (pr_publishing p) (pr_attempts p) (pr_retry_on_failure p).
Definition set_tokens (prompt completion : Z) (p : progress) : progress :=
  Progress prompt completion (pr_decided p) (pr_published p) (pr_publishing p) (pr_attempts p) (pr_retry_on_failure p).
Definition set_retry (p : progress) : progress :=
  Progress (pr_prompt p) (pr_completion p) (pr_decided p) (pr_published p) (pr_publishing p) (pr_attempts p) true.
(** [facts.publishing = True; facts.attempts += 1]. *)
Definition begin_write (p : progress) : progress :=
  Progress (pr_prompt p) (pr_completion p) (pr_decided p) (pr_published p) true (S (pr_attempts p)) (pr_retry_on_failure p).
(** [published] as the write ended, [publishing] and [retry_on_failure] reset. *)
Definition end_write (landed : bool) (p : progress) : progress :=
  Progress (pr_prompt p) (pr_completion p) (pr_decided p) (pr_published p || landed) false (pr_attempts p) false.

(** ** [TerminalRecord.event] *)

(** [sorted] of strings: by code point. *)
Definition str_key (s : str) : list Q := map (fun c => zk (Z.of_N c)) s.
Definition sorted_strs (l : list str) : list str := sort_on str_key l.

(** [max(0, int((now - started) * 1000))]. *)
Definition latency_of (now started : Q) : Z := Z.max 0 (Qfloor ((now - started) * 1000)).

Definition record_event (now : datetime) (f : facts) (p : progress) (d : decision) (latency_ms : Z) : AuditEvent :=
  let placeholders := match d.1 with OutCancelled => [] | _ => af_placeholders f end in
  {| ev_timestamp := now;
     ev_request_id := af_request_id f;
     ev_user_id := af_user_id f;
     ev_team_id := af_team_id f;
     ev_provider := af_provider f;
     ev_model := af_model f;
     ev_latency_ms := latency_ms;
     ev_prompt_token_count := pr_prompt p;
     ev_completion_token_count := pr_completion p;
     ev_redaction_count := af_redaction_count f;
     ev_finding_label_counts := af_finding_label_counts f;
     ev_cache_a_hit := af_cache_a_hit f;
     ev_status := outcome_status d.1;
     ev_placeholder_list := match placeholders with [] => None | _ => Some (sorted_strs placeholders) end;
     ev_error_code := d.2;
     ev_block_reason := af_block_reason f;
     ev_corp_llm_latency_ms := None;
     ev_pre_pass_latency_ms := None;
     ev_audit_buffer_full := None;
     ev_profile_ids := af_profile_ids f;
     ev_jurisdiction := None |}.

(** ** The deposit *)

(** [deposit]: facts are taken by an open ticket that was not cancelled. *)
Definition deposit (t : option ticket) : bool :=
  match t with
  | None => false
  | Some t => negb (tk_closed t || tk_cancelled t)
  end.

(** [deposit_usage]: counts replace the last ones while the record is open. *)
Definition deposit_usage (prompt completion : Z) (p : progress) : bool * progress :=
  if pr_published p || pr_publishing p then (false, p)
  else (true, set_tokens (Z.max 0 prompt) (Z.max 0 completion) p).

(** ** [TerminalAudit] *)

(** How a write ends: it landed, it may have ([AuditWriteAmbiguousError]), it
    failed with an [Exception], was cancelled, or died of another [BaseException]. *)
Inductive write_end := Landed | Ambiguous | EndException | EndCancelled | EndBase.

Definition may_have_landed (r : write_end) : bool := match r with Landed | Ambiguous => true | _ => false end.

Record tstate := TState {
  ts_ticket : ticket;
  ts_facts : facts;
  ts_progress : progress;
  ts_writing : option decision;       (* the response path's write in flight *)
  ts_scheduled : nat;                 (* tasks of the close that have not started *)
  ts_closing : option decision;       (* the write of such a task in flight *)
  ts_log : list decision;             (* what landed, or may have *)
  ts_lost : nat;                      (* records counted as lost *)
  ts_killed : bool;                   (* a task was cancelled before it ran *)
}.

Definition with_progress (p : progress) (s : tstate) : tstate :=
  TState (ts_ticket s) (ts_facts s) p (ts_writing s) (ts_scheduled s) (ts_closing s) (ts_log s) (ts_lost s) (ts_killed s).
Definition with_ticket (t : ticket) (s : tstate) : tstate :=
  TState t (ts_facts s) (ts_progress s) (ts_writing s) (ts_scheduled s) (ts_closing s) (ts_log s) (ts_lost s) (ts_killed s).
Definition schedule (s : tstate) : tstate :=
  TState (ts_ticket s) (ts_facts s) (ts_progress s) (ts_writing s) (S (ts_scheduled s)) (ts_closing s) (ts_log s) (ts_lost s) (ts_killed s).

(** [error_code if error_code is not None else facts.error_code]. *)
Definition code_or (code : option str) (f : facts) : option str :=
  match code with Some c => Some c | None => af_error_code f end.

(** [_closing_outcome]. *)
Definition closing_outcome (t : ticket) : decision :=
  if tk_cancelled t then (OutCancelled, Some E_CLIENT_DISCONNECTED)
  else match tk_cancel_origin t with
       | Some CancelServer => (OutCancelled, Some E_SERVER_SHUTDOWN)
       | _ => (OutFailed, Some E_INTERNAL)
       end.

(** [_write] up to its [await]: what is written, if anything. *)
Definition write_start (p : progress) : option decision :=
  if pr_published p || pr_publishing p then None else pr_decided p.

(** The response path's write begins. *)
Definition start_response_write (s : tstate) : tstate :=
  match write_start (ts_progress s) with
  | None => s
  | Some d => TState (ts_ticket s) (ts_facts s) (begin_write (ts_progress s)) (Some d) (ts_scheduled s) (ts_closing s)
                (ts_log s) (ts_lost s) (ts_killed s)
  end.

(** [decide]. *)
Definition decide_outcome (o : outcome) (code : option str) (s : tstate) : tstate :=
  match pr_decided (ts_progress s) with
  | None => if tk_closed (ts_ticket s) then s
            else with_progress (set_decided (o, code_or code (ts_facts s)) (ts_progress s)) s
  | Some _ => s
  end.

(** The outcome [publish] decides on when none was decided. *)
Definition published_outcome (t : ticket) (f : facts) (o : outcome) (code : option str) : decision :=
  let restoration_failure := bool_decide (o = OutFailed) && bool_decide (code = Some E_INTERNAL) in
  if tk_cancelled t && negb restoration_failure then (OutCancelled, Some E_CLIENT_DISCONNECTED)
  else (o, code_or code f).

(** [publish] up to its [await]. *)
Definition publish (o : outcome) (code : option str) (s : tstate) : tstate :=
  if tk_closed (ts_ticket s) then s else
  let s1 := match pr_decided (ts_progress s) with
            | None => with_progress (set_decided (published_outcome (ts_ticket s) (ts_facts s) o code) (ts_progress s)) s
            | Some _ => s
            end in
  if (pr_attempts (ts_progress s1) =? 0)%nat then start_response_write s1 else s1.

(** The rest of the response path's [_write], with [_not_written]. *)
Definition response_write_done (r : write_end) (s : tstate) : tstate :=
  match ts_writing s with
  | None => s
  | Some d =>
    let p := ts_progress s in
    let s1 := TState (ts_ticket s) (ts_facts s) (end_write (may_have_landed r) p) None (ts_scheduled s) (ts_closing s)
                (if may_have_landed r then ts_log s ++ [d] else ts_log s) (ts_lost s) (ts_killed s) in
    if negb (pr_published (ts_progress s1)) && pr_retry_on_failure p then schedule s1 else s1
  end.

(** [_on_close]. *)
Definition on_ticket_close (s : tstate) : tstate :=
  let p := ts_progress s in
  if pr_published p then s else
  let p1 := match pr_decided p with None => set_decided (closing_outcome (ts_ticket s)) p | Some _ => p end in
  if pr_publishing p1 then with_progress (set_retry p1) s else schedule (with_progress p1 s).

(** [RequestTicket.close], of which [_on_close] is a hook. *)
Definition close_ticket (s : tstate) : tstate :=
  if tk_closed (ts_ticket s) then s
  else on_ticket_close (with_ticket (close (fun _ => false) (ts_ticket s)).2 s).

(** A task of the close starts; it returns at once when there is nothing to write. *)
Definition task_start (s : tstate) : tstate :=
  match ts_scheduled s, ts_closing s with
  | S n, None =>
    let s1 := TState (ts_ticket s) (ts_facts s) (ts_progress s) (ts_writing s) n None (ts_log s) (ts_lost s) (ts_killed s) in
    match write_start (ts_progress s) with
    | None => s1
    | Some d => TState (ts_ticket s) (ts_facts s) (begin_write (ts_progress s)) (ts_writing s) n (Some d)
                  (ts_log s) (ts_lost s) (ts_killed s)
    end
  | _, _ => s
  end.

(** [_lost] in [_not_written], or the count of [_closed] when the task died. *)
Definition lost_count (r : write_end) : nat :=
  let by_not_written := match r with EndException | EndCancelled => 1%nat | _ => 0%nat end in
  let by_closed := match r with EndBase => 1%nat | _ => 0%nat end in
  (by_not_written + by_closed)%nat.

Definition task_done (r : write_end) (s : tstate) : tstate :=
  match ts_closing s with
  | None => s
  | Some d =>
    TState (ts_ticket s) (ts_facts s) (end_write (may_have_landed r) (ts_progress s)) (ts_writing s) (ts_scheduled s) None
      (if may_have_landed r then ts_log s ++ [d] else ts_log s)
      (ts_lost s + lost_count r)%nat (ts_killed s)
  end.

(** The event loop is torn down before the task ran: [_closed] sees it cancelled. *)
Definition task_killed (s : tstate) : tstate :=
  match ts_scheduled s with
  | O => s
  | S n => TState (ts_ticket s) (ts_facts s) (ts_progress s) (ts_writing s) n (ts_closing s) (ts_log s) (ts_lost s) true
  end.

Inductive tevent :=
| EvDecide (o : outcome) (code : option str)
| EvPublish (o : outcome) (code : option str)
| EvUsage (prompt completion : Z)
| EvMark (o : origin)
| EvClose
| EvWriteDone (r : write_end)
| EvTaskStart
| EvTaskDone (r : write_end)
| EvTaskKilled.

Definition tstep (s : tstate) (e : tevent) : tstate :=
  match e with
  | EvDecide o code => decide_outcome o code s
  | EvPublish o code => publish o code s
  | EvUsage p c => with_progress (deposit_usage p c (ts_progress s)).2 s
  | EvMark o => with_ticket (mark_cancelled o (ts_ticket s)) s
  | EvClose => close_ticket s
  | EvWriteDone r => response_write_done r s
  | EvTaskStart => task_start s
  | EvTaskDone r => task_done r s
  | EvTaskKilled => task_killed s
  end.

(** A request from its deposit on. *)
Definition deposited (t : ticket) (f : facts) : tstate := TState t f progress_init None 0 None [] 0 false.

Definition trun (t : ticket) (f : facts) (es : list tevent) : tstate := foldl tstep (deposited t f) es.

(** [drain] has nothing to wait for: no write in flight, no task left. *)
Definition drained (s : tstate) : Prop :=
  ts_writing s = None /\ ts_scheduled s = 0%nat /\ ts_closing s = None.

(** ** The life of a record *)

(** The phases a record goes through; each fixes what is in flight, what was
    written and what was lost. *)
Inductive phase_of (f : facts) : tstate -> Prop :=
| ph_open t pt ct dec : tk_closed t = false ->
    phase_of f (TState t f (Progress pt ct dec false false 0 false) None 0 None [] 0 false)
| ph_writing t pt ct d retry : retry = tk_closed t ->
    phase_of f (TState t f (Progress pt ct (Some d) false true 1 retry) (Some d) 0 None [] 0 false)
| ph_failed t pt ct d : tk_closed t = false ->
    phase_of f (TState t f (Progress pt ct (Some d) false false 1 false) None 0 None [] 0 false)
| ph_waiting t pt ct d a : tk_closed t = true -> (a <= 1)%nat ->
    phase_of f (TState t f (Progress pt ct (Some d) false false a false) None 1 None [] 0 false)
| ph_closing t pt ct d a : tk_closed t = true -> (1 <= a <= 2)%nat ->
    phase_of f (TState t f (Progress pt ct (Some d) false true a false) None 0 (Some d) [] 0 false)
| ph_published t pt ct d a : (1 <= a <= 2)%nat ->
    phase_of f (TState t f (Progress pt ct (Some d) true false a false) None 0 None [d] 0 false)
| ph_lost t pt ct d a : tk_closed t = true -> (1 <= a <= 2)%nat ->
    phase_of f (TState t f (Progress pt ct (Some d) false false a false) None 0 None [] 1 false)
| ph_killed t pt ct d a : tk_closed t = true -> (a <= 1)%nat ->
    phase_of f (TState t f (Progress pt ct (Some d) false false a false) None 0 None [] 0 true).

#[local] Hint Constructors phase_of : terminal.

Lemma mark_cancelled_closed o t : tk_closed (mark_cancelled o t) = tk_closed t.
Proof. unfold mark_cancelled. by destruct (tk_cancel_origin t). Qed.

Ltac show := unfold begin_write, end_write, set_decided, set_retry, set_tokens, with_progress, with_ticket, schedule in *; cbn.
Ltac in_phase := show; constructor; first [done | lia | congruence].

Lemma phase_mark f o s : phase_of f s -> phase_of f (with_ticket (mark_cancelled o (ts_ticket s)) s).
Proof. destruct 1; unfold with_ticket; cbn; constructor; rewrite ?mark_cancelled_closed; done. Qed.

Lemma phase_usage f p c s : phase_of f s -> phase_of f (with_progress (deposit_usage p c (ts_progress s)).2 s).
Proof. destruct 1; cbn; in_phase. Qed.

Lemma phase_decide f o code s : phase_of f s -> phase_of f (decide_outcome o code s).
Proof.
  destruct 1 as [t pt ct dec H| | | | | | |]; unfold decide_outcome; cbn; try in_phase.
  rewrite H. destruct dec; in_phase.
Qed.

Lemma phase_publish f o code s : phase_of f s -> phase_of f (publish o code s).
Proof.
  destruct 1 as [t pt ct dec H|t pt ct d r H|t pt ct d H|t pt ct d a H Ha|t pt ct d a H Ha|t pt ct d a Ha|t pt ct d a H Ha|t pt ct d a H Ha];
    unfold publish, start_response_write; cbn; destruct (tk_closed t) eqn:Ec; simplify_eq; try in_phase.
  - destruct dec as [d|]; in_phase.
  - destruct a as [|a]; [lia|]. in_phase.
Qed.

Lemma phase_write_done f r s : phase_of f s -> phase_of f (response_write_done r s).
Proof.
  destruct 1 as [| t pt ct d retry ->| | | | | |]; unfold response_write_done; cbn; try in_phase.
  destruct (may_have_landed r); cbn; [in_phase|]. destruct (tk_closed t) eqn:Ec; in_phase.
Qed.

Lemma phase_close f s : phase_of f s -> phase_of f (close_ticket s).
Proof.
  destruct 1 as [t pt ct dec H|t pt ct d r H|t pt ct d H|t pt ct d a H Ha|t pt ct d a H Ha|t pt ct d a Ha|t pt ct d a H Ha|t pt ct d a H Ha];
    unfold close_ticket; cbn; destruct (tk_closed t) eqn:Ec; simplify_eq; try in_phase;
    unfold close; rewrite Ec; unfold on_ticket_close; cbn; try in_phase.
  destruct dec as [d|]; in_phase.
Qed.

Lemma phase_task_start f s : phase_of f s -> phase_of f (task_start s).
Proof. destruct 1; unfold task_start; in_phase. Qed.

Lemma phase_task_done f r s : phase_of f s -> phase_of f (task_done r s).
Proof. destruct 1; unfold task_done; try in_phase. destruct r; in_phase. Qed.

Lemma phase_task_killed f s : phase_of f s -> phase_of f (task_killed s).
Proof. destruct 1; unfold task_killed; in_phase. Qed.

Lemma phase_step f s e : phase_of f s -> phase_of f (tstep s e).
Proof.
  destruct e; cbn [tstep]; auto using phase_mark, phase_usage, phase_decide, phase_publish, phase_write_done,
    phase_close, phase_task_start, phase_task_done, phase_task_killed.
Qed.

Lemma phase_run t f es : deposit (Some t) = true -> phase_of f (trun t f es).
Proof.
  intros Ht. assert (phase_of f (deposited t f)) as H0.
  { cbn in Ht. rewrite negb_true_iff, orb_false_iff in Ht. destruct Ht. by constructor. }
  unfold trun. revert H0. generalize (deposited t f). induction es as [|e es IH]; intros s Hs; [done|].
  cbn [foldl]. by apply IH, phase_step.
Qed.

(** A decided outcome stands. *)
Lemma decided_step s e d : pr_decided (ts_progress s) = Some d -> pr_decided (ts_progress (tstep s e)) = Some d.
Proof.
  intros H. destruct e; cbn [tstep].
  - unfold decide_outcome. by rewrite H.
  - unfold publish. destruct (tk_closed _); [done|]. rewrite H. destruct (_ =? 0)%nat; [|done].
    unfold start_response_write. by destruct (write_start _).
  - cbn. unfold deposit_usage. by destruct (_ || _).
  - done.
  - unfold close_ticket. destruct (tk_closed _); [done|]. unfold on_ticket_close. cbn.
    destruct (pr_published _); [done|]. rewrite H. by destruct (pr_publishing _).
  - unfold response_write_done. destruct (ts_writing s); [|done]. cbv zeta. by destruct (_ && _).
  - unfold task_start. destruct (ts_scheduled s), (ts_closing s); try done. cbv zeta. by destruct (write_start _).
  - unfold task_done. by destruct (ts_closing s).
  - unfold task_killed. by destruct (ts_scheduled s).
Qed.

Lemma decided_run s es d :
  pr_decided (ts_progress s) = Some d -> pr_decided (ts_progress (foldl tstep s es)) = Some d.
Proof. revert s. induction es as [|e es IH]; intros s H; [done|]. cbn [foldl]. by apply IH, decided_step. Qed.

(** ** The claims *)

(** C24: exactly one terminal record.  Whatever the order of publications, cancels,
    the close and the ends of writes: at most one write landed or may have landed,
    no more than two are ever attempted, and what was written carries the decided
    outcome.  Once the ticket is closed and nothing is in flight, the record was
    written, or it was counted as lost exactly once, or the process stopped before
    the last attempt. *)
Theorem terminal_record_once t f es :
  deposit (Some t) = true ->
  let s := trun t f es in
  (length (ts_log s) <= 1)%nat /\ (pr_attempts (ts_progress s) <= 2)%nat /\
  Forall (fun d => pr_decided (ts_progress s) = Some d) (ts_log s) /\
  (tk_closed (ts_ticket s) = true -> drained s ->
   (length (ts_log s) + ts_lost s + (if ts_killed s then 1 else 0) = 1)%nat).
Proof.
  intros Ht s. pose proof (phase_run t f es Ht) as Hp. fold s in Hp. unfold drained.
  destruct Hp; cbn; split_and!; try lia; auto; intros Hc (? & ? & ?); congruence || lia.
Qed.

(** the request decides the outcome and the sink never changes it.  An outcome
    once decided stands against every later event; a restoration failure is
    [failed]/[E_INTERNAL] even after a cancel; an outcome published once the client
    had left is a client cancellation; without a publication the close decides by
    who cancelled, and an unanswered request nobody cancelled is an internal
    failure. *)
Theorem terminal_outcome_stands t f es es' o code :
  deposit (Some t) = true ->
  let s := trun t f es in
  (forall d, pr_decided (ts_progress s) = Some d -> pr_decided (ts_progress (trun t f (es ++ es'))) = Some d) /\
  (pr_decided (ts_progress s) = None ->
   tk_closed (ts_ticket s) = false /\
   pr_decided (ts_progress (tstep s (EvDecide OutFailed (Some E_INTERNAL)))) = Some (OutFailed, Some E_INTERNAL) /\
   pr_decided (ts_progress (tstep s (EvPublish OutFailed (Some E_INTERNAL)))) = Some (OutFailed, Some E_INTERNAL) /\
   pr_decided (ts_progress (tstep s (EvPublish o code))) =
     Some (if tk_cancelled (ts_ticket s) && negb (bool_decide ((o, code) = (OutFailed, Some E_INTERNAL)))
           then (OutCancelled, Some E_CLIENT_DISCONNECTED) else (o, code_or code f)) /\
   pr_decided (ts_progress (tstep s EvClose)) =
     Some (if tk_cancelled (ts_ticket s) then (OutCancelled, Some E_CLIENT_DISCONNECTED)
           else if bool_decide (tk_cancel_origin (ts_ticket s) = Some CancelServer)
                then (OutCancelled, Some E_SERVER_SHUTDOWN) else (OutFailed, Some E_INTERNAL))).
Proof.
  intros Ht s. split.
  - intros d Hd. unfold trun. rewrite foldl_app. by apply decided_run.
  - pose proof (phase_run t f es Ht) as Hp. fold s in Hp. destruct Hp as [t' pt ct dec Hc| | | | | | |]; try done.
    intros Hd. cbn in Hd. subst dec. cbn [tstep ts_ticket ts_facts ts_progress].
    assert (forall o code, pr_decided (ts_progress (publish o code
      (TState t' f (Progress pt ct None false false 0 false) None 0 None [] 0 false))) =
      Some (published_outcome t' f o code)) as Hpub.
    { intros o' code'. unfold publish. cbn. by rewrite Hc. }
    split_and!.
    + done.
    + unfold decide_outcome. cbn. by rewrite Hc.
    + rewrite Hpub. unfold published_outcome. rewrite !bool_decide_true by done. cbn. by rewrite andb_false_r.
    + rewrite Hpub. unfold published_outcome. f_equal.
      replace (bool_decide ((o, code) = (OutFailed, Some E_INTERNAL)))
        with (bool_decide (o = OutFailed) && bool_decide (code = Some E_INTERNAL)); [done|].
      rewrite <- bool_decide_and. apply bool_decide_ext. naive_solver.
    + unfold close_ticket. cbn. rewrite Hc. unfold close. rewrite Hc. cbn. unfold closing_outcome. cbn.
      destruct (tk_cancelled t'); [done|]. destruct (tk_cancel_origin t') as [[]|]; by rewrite ?bool_decide_true, ?bool_decide_false by done.
Qed.

Definition demo_facts : facts :=
  Facts (u8 "r") (u8 "u") (u8 "t") (u8 "anthropic") (u8 "m") 1 [] false None None [] [u8 "[[EMAIL_001]]"] OutOk 0 true.
Definition demo_ticket : ticket := ticket_init (u8 "g").

(** The response path's write fails after the close; the retry lands. *)
Definition demo_run : list tevent :=
  [EvPublish OutOk None; EvMark CancelServer; EvClose; EvWriteDone EndException; EvTaskStart; EvTaskDone Landed].

Lemma terminal_record_once_witness :
  ts_log (trun demo_ticket demo_facts demo_run) = [(OutOk, None)] /\
  (length (ts_log (trun demo_ticket demo_facts demo_run)) <= 1)%nat.
Proof.
  split; [reflexivity|].
  apply (terminal_record_once demo_ticket demo_facts demo_run). reflexivity.
Defined.

Lemma terminal_outcome_stands_witness :
  pr_decided (ts_progress (trun demo_ticket demo_facts ([EvPublish OutOk None] ++ [EvMark CancelClient; EvClose]))) = Some (OutOk, None).
Proof.
  destruct (terminal_outcome_stands demo_ticket demo_facts [EvPublish OutOk None] [EvMark CancelClient; EvClose] OutOk None
              eq_refl) as [H _]. apply H. reflexivity.
Defined.
