(* ===== verification/HookAudit.v ===== *)
(** * The guardrail's own audit records ([litellm_hook.py])

    One record per request although several things may ask for one: the pre-call
    when it refuses, litellm's log events, the route gate when the client leaves,
    and a retry after a sink failure.  The state below is the guardrail's; the
    code between two [await]s is one step, a call waiting for a write in flight
    is an element of [g_waiting], and a write in flight is an entry of the two
    tables of writes. *)

From Stdlib Require Import Qround.
From S2P Require Import Prelude Text Placeholder AuditLog Inflight TerminalAudit.
Local Open Scope py_scope.

Definition AUDIT_DEDUP_CAP : Z := 4096.
Definition CANCEL_PENDING_CAP : Z := 4096.
Definition AUDIT_COMPONENT : str := u8 "audit".
Definition ROUTE_GATE_COMPONENT : str := u8 "route_gate".
Definition UNKNOWN : str := u8 "unknown".

(** ** [OrderedDict]s with a bound *)

(** [d[key] = v; if len(d) > cap: d.popitem(last=False)]: what is evicted, what
    is left. *)
Definition fifo_add (cap : Z) (key : str) (l : list str) : list str * list str :=
  let l1 := if memb key l then l else l ++ [key] in
  if cap <? len l1 then (take 1 l1, drop 1 l1) else ([], l1).

(** [d[key] = v; d.move_to_end(key); while len(d) > cap: d.popitem(last=False)]. *)
Definition queue_add {V} (cap : Z) (key : str) (v : V) (d : list (str * V)) : list (str * V) :=
  let d1 := ddel key d ++ [(key, v)] in
  drop (Z.to_nat (len d1 - cap)) d1.

(** ** The state of one request *)

Record request_state := RequestState {
  rs_request_id : str;
  rs_user_id : str;
  rs_team_id : str;
  rs_provider : str;
  rs_model : str;
  rs_redaction_count : Z;
  rs_placeholders : list str;
  rs_cache_a_hit : bool;
  rs_mapping : list pair;
  rs_response_alias_exclusions : list str;
  rs_ticket : option nat;             (* the route gate's request, by identity *)
  rs_error_code : option str;
  rs_block_reason : option str;
  rs_profile_ids : list str;
  rs_started_at : Q;
}.

Section Labels.
Context {U : Unicode}.

(** [_label_counts]. *)
Definition label_counts (placeholders : list str) : list (str * Z) :=
  foldl (fun counts ph =>
    let family := match placeholder_family ph with Some (c :: f) => c :: f | _ => u8 "UNKNOWN" end in
    dset family (match dget family counts with Some n => n + 1 | None => 1 end) counts) [] placeholders.

(** [_latency_ms] of two clock readings in seconds. *)
Definition latency_ms (start_time end_time : Q) : Z := latency_of end_time start_time.

(** ** [_CancelRecord] *)

Record cancel_record := CancelRecord {
  cr_user_id : str;
  cr_team_id : str;
  cr_provider : str;
  cr_model : str;
  cr_latency_ms : Z;
  cr_redaction_count : Z;
  cr_finding_label_counts : list (str * Z);
  cr_cache_a_hit : bool;
  cr_block_reason : option str;
  cr_profile_ids : list str;
}.

Definition cancel_of (state : option request_state) (latency : Z) : cancel_record :=
  match state with
  | None => CancelRecord UNKNOWN UNKNOWN UNKNOWN UNKNOWN (Z.max 0 latency) 0 [] false None []
  | Some s => CancelRecord (rs_user_id s) (rs_team_id s) (rs_provider s) (rs_model s) (Z.max 0 latency)
                (rs_redaction_count s) (label_counts (rs_placeholders s)) (rs_cache_a_hit s) (rs_block_reason s)
                (rs_profile_ids s)
  end.

Definition cancel_event (now : datetime) (request_id : str) (r : cancel_record) : AuditEvent :=
  {| ev_timestamp := now;
     ev_request_id := request_id;
     ev_user_id := cr_user_id r;
     ev_team_id := cr_team_id r;
     ev_provider := cr_provider r;
     ev_model := cr_model r;
     ev_latency_ms := cr_latency_ms r;
     ev_prompt_token_count := 0;
     ev_completion_token_count := 0;
     ev_redaction_count := cr_redaction_count r;
     ev_finding_label_counts := cr_finding_label_counts r;
     ev_cache_a_hit := cr_cache_a_hit r;
     ev_status := StatusCancelled;
     ev_placeholder_list := None;
     ev_error_code := Some E_CLIENT_DISCONNECTED;
     ev_block_reason := cr_block_reason r;
     ev_corp_llm_latency_ms := None;
     ev_pre_pass_latency_ms := None;
     ev_audit_buffer_full := None;
     ev_profile_ids := cr_profile_ids r;
     ev_jurisdiction := None |}.

(** *** The arguments of [audit] *)

Record audit_args := AuditArgs {
  aa_now : datetime;
  aa_model : str;                     (* [str(request_data.get("model") or "unknown")] *)
  aa_start : Q;
  aa_end : Q;
  aa_tokens : Z * Z;                  (* of the response *)
  aa_status : status;
  aa_error_code : option str;
  aa_log_event : bool;
}.

(** The event [audit] builds. *)
Definition audit_event (request_id : str) (a : audit_args) (state : option request_state) : AuditEvent :=
  {| ev_timestamp := aa_now a;
     ev_request_id := request_id;
     ev_user_id := match state with Some s => rs_user_id s | None => UNKNOWN end;
     ev_team_id := match state with Some s => rs_team_id s | None => UNKNOWN end;
     ev_provider := match state with Some s => rs_provider s | None => u8 "anthropic" end;
     ev_model := match state with Some s => rs_model s | None => aa_model a end;
     ev_latency_ms := latency_ms (aa_start a) (aa_end a);
     ev_prompt_token_count := (aa_tokens a).1;
     ev_completion_token_count := (aa_tokens a).2;
     ev_redaction_count := match state with Some s => rs_redaction_count s | None => 0 end;
     ev_finding_label_counts := match state with Some s => label_counts (rs_placeholders s) | None => [] end;
     ev_cache_a_hit := match state with Some s => rs_cache_a_hit s | None => false end;
     ev_status := aa_status a;
     ev_placeholder_list :=
       match state with
       | Some s => match rs_placeholders s with [] => None | l => Some (sorted_strs l) end
       | None => None
       end;
     ev_error_code := match aa_error_code a with
                      | Some c => Some c
                      | None => match state with Some s => rs_error_code s | None => None end
                      end;
     ev_block_reason := match state with Some s => rs_block_reason s | None => None end;
     ev_corp_llm_latency_ms := None;
     ev_pre_pass_latency_ms := None;
     ev_audit_buffer_full := None;
     ev_profile_ids := match state with Some s => rs_profile_ids s | None => [] end;
     ev_jurisdiction := None |}.

(** ** The guardrail *)

(** What the guardrail reads of a ticket: whether its client left, whether it is
    closed, the request id of the facts deposited on it, the ids bound to it. *)
Record tview := TView {
  tv_cancelled : bool;
  tv_closed : bool;
  tv_facts : option str;
  tv_ids : list str;
}.

Inductive metric :=
| MFailure (component : str)
| MBlock (reason : str)
| MLatency (request_id : str) (st : status).

(** A call suspended in [_emits_resolved]. *)
Inductive waiter :=
| WAudit (ctx : option nat) (request_id : str) (a : audit_args)
| WCancel (now : datetime) (request_id : str) (own : cancel_record).

Record guard := Guard {
  g_req : gmap str request_state;                     (* _req_state *)
  g_audited : list str;                               (* _audited_ids, oldest first *)
  g_latency : list str;                               (* _latency_observed_ids *)
  g_pending : list (str * cancel_record);             (* _cancel_pending *)
  g_cancel_emitting : gmap str (cancel_record * AuditEvent);
  g_audit_emitting : gmap str AuditEvent;
  g_owned : list (str * nat);                         (* _terminal_owned *)
  g_bound : bool;                                     (* _response_mappings is not None *)
  g_tickets : gmap nat tview;                         (* the tickets that are alive *)
  g_waiting : list waiter;
  g_metrics : list metric;
  g_written : list (str * AuditEvent);                (* landed, or may have *)
  g_evicted : list str;                               (* ids the audited window dropped *)
}.

Definition set_req r g := Guard r (g_audited g) (g_latency g) (g_pending g) (g_cancel_emitting g) (g_audit_emitting g)
  (g_owned g) (g_bound g) (g_tickets g) (g_waiting g) (g_metrics g) (g_written g) (g_evicted g).
Definition set_pending p g := Guard (g_req g) (g_audited g) (g_latency g) p (g_cancel_emitting g) (g_audit_emitting g)
  (g_owned g) (g_bound g) (g_tickets g) (g_waiting g) (g_metrics g) (g_written g) (g_evicted g).
Definition set_emitting c a g := Guard (g_req g) (g_audited g) (g_latency g) (g_pending g) c a
  (g_owned g) (g_bound g) (g_tickets g) (g_waiting g) (g_metrics g) (g_written g) (g_evicted g).
Definition set_owned o g := Guard (g_req g) (g_audited g) (g_latency g) (g_pending g) (g_cancel_emitting g) (g_audit_emitting g)
  o (g_bound g) (g_tickets g) (g_waiting g) (g_metrics g) (g_written g) (g_evicted g).
Definition set_tickets t g := Guard (g_req g) (g_audited g) (g_latency g) (g_pending g) (g_cancel_emitting g) (g_audit_emitting g)
  (g_owned g) (g_bound g) t (g_waiting g) (g_metrics g) (g_written g) (g_evicted g).
Definition set_waiting w g := Guard (g_req g) (g_audited g) (g_latency g) (g_pending g) (g_cancel_emitting g) (g_audit_emitting g)
  (g_owned g) (g_bound g) (g_tickets g) w (g_metrics g) (g_written g) (g_evicted g).
Definition add_metric m g := Guard (g_req g) (g_audited g) (g_latency g) (g_pending g) (g_cancel_emitting g) (g_audit_emitting g)
  (g_owned g) (g_bound g) (g_tickets g) (g_waiting g) (g_metrics g ++ [m]) (g_written g) (g_evicted g).
Definition add_written id e g := Guard (g_req g) (g_audited g) (g_latency g) (g_pending g) (g_cancel_emitting g) (g_audit_emitting g)
  (g_owned g) (g_bound g) (g_tickets g) (g_waiting g) (g_metrics g) (g_written g ++ [(id, e)]) (g_evicted g).

(** [self._audited_ids[request_id] = None] with its bound. *)
Definition add_audited id g :=
  let '(out, l) := fifo_add AUDIT_DEDUP_CAP id (g_audited g) in
  Guard (g_req g) l (g_latency g) (g_pending g) (g_cancel_emitting g) (g_audit_emitting g)
    (g_owned g) (g_bound g) (g_tickets g) (g_waiting g) (g_metrics g) (g_written g) (out ++ g_evicted g).

(** [if request_id not in self._latency_observed_ids: ...]. *)
Definition observe_latency id st g :=
  if memb id (g_latency g) then g else
  Guard (g_req g) (g_audited g) (fifo_add AUDIT_DEDUP_CAP id (g_latency g)).2 (g_pending g) (g_cancel_emitting g) (g_audit_emitting g)
    (g_owned g) (g_bound g) (g_tickets g) (g_waiting g) (g_metrics g ++ [MLatency id st]) (g_written g) (g_evicted g).

Definition mark_audited (request_id : str) (g : guard) : guard :=
  add_audited request_id (set_pending (ddel request_id (g_pending g)) (set_req (delete request_id (g_req g)) g)).

Definition queue_cancelled (request_id : str) (r : cancel_record) (g : guard) : guard :=
  set_pending (queue_add CANCEL_PENDING_CAP request_id r (g_pending g)) g.

Definition ticket_of (ctx : option nat) (g : guard) : option tview := ctx ≫= fun n => g_tickets g !! n.

(** [ticket is not None and ticket.cancelled]. *)
Definition ticket_cancelled (t : option tview) : bool := match t with Some v => tv_cancelled v | None => false end.

(** [_terminal_owner]: whether a ticket writes the record, and which. *)
Definition terminal_owner (ctx : option nat) (request_id : str) (g : guard) : bool * option nat :=
  match ticket_of ctx g with
  | Some (TView _ _ (Some rid) _) =>
    if str_eqb rid request_id then (true, ctx)
    else match dget request_id (g_owned g) with None => (false, None) | Some n => (true, Some n) end
  | _ => match dget request_id (g_owned g) with None => (false, None) | Some n => (true, Some n) end
  end.

(** [_add_to_terminal_record]; the token counts go to the ticket's facts. *)
Definition add_to_terminal_record (request_id : str) (owner : option nat) (st : status) (g : guard) : guard :=
  if ticket_cancelled (ticket_of owner g) then g else observe_latency request_id st g.

(** [_emits_resolved]: no write of this id is in flight. *)
Definition emits_resolved (request_id : str) (g : guard) : bool :=
  match g_cancel_emitting g !! request_id, g_audit_emitting g !! request_id with None, None => true | _, _ => false end.

(** [_emit_cancelled] up to the write. *)
Definition emit_cancelled (now : datetime) (request_id : str) (r : cancel_record) (g : guard) : guard :=
  set_emitting (<[request_id := (r, cancel_event now request_id r)]> (g_cancel_emitting g)) (g_audit_emitting g) g.

(** [audit] up to [_emits_resolved]. *)
Definition audit_call (ctx : option nat) (request_id : str) (a : audit_args) (g : guard) : guard :=
  let '(owned, owner) := terminal_owner ctx request_id g in
  if owned then add_to_terminal_record request_id owner (aa_status a) g
  else set_waiting (g_waiting g ++ [WAudit ctx request_id a]) g.

(** The rest of [audit] up to the write. *)
Definition audit_resume (ctx : option nat) (request_id : str) (a : audit_args) (g : guard) : guard :=
  if memb request_id (g_audited g) then g else
  match dget request_id (g_pending g) with
  | Some pending => emit_cancelled (aa_now a) request_id pending g
  | None =>
    if ticket_cancelled (ticket_of ctx g) then g else
    let state := g_req g !! request_id in
    match state with
    | None =>
      if aa_log_event a && g_bound g then add_metric (MFailure AUDIT_COMPONENT) g else
      let g1 := observe_latency request_id (aa_status a) g in
      set_emitting (g_cancel_emitting g1) (<[request_id := audit_event request_id a None]> (g_audit_emitting g1)) g1
    | Some s =>
      let g1 := observe_latency request_id (aa_status a) g in
      set_emitting (g_cancel_emitting g1) (<[request_id := audit_event request_id a (Some s)]> (g_audit_emitting g1)) g1
    end
  end.

(** The end of [audit]'s write: marked when it landed or may have, else the state
    stays for a retry. *)
Definition audit_end (request_id : str) (r : write_end) (g : guard) : guard :=
  match g_audit_emitting g !! request_id with
  | None => g
  | Some e =>
    let g1 := set_emitting (g_cancel_emitting g) (delete request_id (g_audit_emitting g)) g in
    if may_have_landed r then mark_audited request_id (add_written request_id e g1) else g1
  end.

(** The end of [_emit_cancelled_once]'s write. *)
Definition cancel_end (request_id : str) (r : write_end) (g : guard) : guard :=
  match g_cancel_emitting g !! request_id with
  | None => g
  | Some (rec, e) =>
    let g1 := set_emitting (delete request_id (g_cancel_emitting g)) (g_audit_emitting g) g in
    if may_have_landed r then mark_audited request_id (add_written request_id e g1)
    else queue_cancelled request_id rec g1
  end.

(** [_cancel_reaches]. *)
Definition cancel_reaches (ctx : option nat) (owner : option nat) (g : guard) : bool :=
  match owner with
  | None => true
  | Some n => match ctx with
              | Some c => bool_decide (c = n)
              | None => ticket_cancelled (g_tickets g !! n)
              end
  end.

(** [on_request_cancelled] up to [_emits_resolved]. *)
Definition cancel_call (ctx : option nat) (now : datetime) (request_id : str) (latency : Z) (g : guard) : guard :=
  if (terminal_owner ctx request_id g).1 then set_pending (ddel request_id (g_pending g)) g else
  let state := g_req g !! request_id in
  if match state with Some s => negb (cancel_reaches ctx (rs_ticket s) g) | None => false end
  then add_metric (MFailure ROUTE_GATE_COMPONENT) g
  else let g1 := set_req (delete request_id (g_req g)) g in
       set_waiting (g_waiting g1 ++ [WCancel now request_id (cancel_of state latency)]) g1.

(** The rest of [on_request_cancelled] up to the write. *)
Definition cancel_resume (now : datetime) (request_id : str) (own : cancel_record) (g : guard) : guard :=
  if memb request_id (g_audited g) then set_pending (ddel request_id (g_pending g)) g
  else emit_cancelled now request_id (match dget request_id (g_pending g) with Some p => p | None => own end) g.

(** The route gate's deadline ends the wait. *)
Definition cancel_wait_cut (request_id : str) (own : cancel_record) (g : guard) : guard :=
  if memb request_id (g_audited g) || memb request_id (dkeys (g_pending g)) then g
  else queue_cancelled request_id own g.

Definition waiter_id (w : waiter) : str := match w with WAudit _ id _ => id | WCancel _ id _ => id end.

(** The waiter at [i] goes on, when nothing of its id is in flight. *)
Definition resume (i : nat) (g : guard) : guard :=
  match g_waiting g !! i with
  | None => g
  | Some w =>
    if emits_resolved (waiter_id w) g then
      let g1 := set_waiting (list_delete i (g_waiting g)) g in
      match w with
      | WAudit ctx id a => audit_resume ctx id a g1
      | WCancel now id own => cancel_resume now id own g1
      end
    else g
  end.

(** The waiter at [i] is cancelled. *)
Definition cut (i : nat) (g : guard) : guard :=
  match g_waiting g !! i with
  | None => g
  | Some w =>
    let g1 := set_waiting (list_delete i (g_waiting g)) g in
    match w with WAudit _ _ _ => g1 | WCancel _ id own => cancel_wait_cut id own g1 end
  end.

(** [_release_owned]: at the ticket's close its ids leave the hand-over table. *)
Definition release_owned (n : nat) (ids : list str) (g : guard) : guard :=
  foldl (fun g id => match dget id (g_owned g) with
                     | Some m => if bool_decide (m = n) then add_audited id (set_owned (ddel id (g_owned g)) g) else g
                     | None => g
                     end) g ids.

(** [_hand_over]: the record is the ticket's from here. *)
Definition hand_over (request_id : str) (n : nat) (g : guard) : guard :=
  let g1 := set_owned (queue_add AUDIT_DEDUP_CAP request_id n (g_owned g)) g in
  let g2 := match g_tickets g !! n with
            | Some v => if tv_closed v then release_owned n (tv_ids v) g1 else g1
            | None => g1
            end in
  set_req (delete request_id (g_req g2)) g2.

(** The pre-call registers its state. *)
Definition register (request_id : str) (s : request_state) (g : guard) : guard := set_req (<[request_id := s]> (g_req g)) g.

Inductive gevent :=
| GRegister (request_id : str) (s : request_state)
| GAudit (ctx : option nat) (request_id : str) (a : audit_args)
| GCancel (ctx : option nat) (now : datetime) (request_id : str) (latency : Z)
| GResume (i : nat)
| GCut (i : nat)
| GAuditEnd (request_id : str) (r : write_end)
| GCancelEnd (request_id : str) (r : write_end)
| GHandOver (request_id : str) (n : nat)
| GRelease (n : nat) (ids : list str)
| GTicket (n : nat) (v : option tview).    (* a ticket changes, or is gone *)

Definition gstep (g : guard) (e : gevent) : guard :=
  match e with
  | GRegister id s => register id s g
  | GAudit ctx id a => audit_call ctx id a g
  | GCancel ctx now id latency => cancel_call ctx now id latency g
  | GResume i => resume i g
  | GCut i => cut i g
  | GAuditEnd id r => audit_end id r g
  | GCancelEnd id r => cancel_end id r g
  | GHandOver id n => hand_over id n g
  | GRelease n ids => release_owned n ids g
  | GTicket n v => set_tickets (partial_alter (fun _ => v) n (g_tickets g)) g
  end.

Definition guard_init (bound : bool) : guard := Guard ∅ [] [] [] ∅ ∅ [] bound ∅ [] [] [] [].

Definition grun (bound : bool) (es : list gevent) : guard := foldl gstep (guard_init bound) es.
End Labels.

(** ** At most one record per request *)

Section Facts.
Context {U : Unicode}.
Implicit Types (g : guard) (id : str).

(** How many records of [id] landed, or may have. *)
Definition count (id : str) (g : guard) : nat := length (List.filter (fun e => str_eqb e.1 id) (g_written g)).

(** The part of the state the invariant is about. *)
Definition core (g : guard) := (g_audited g, g_cancel_emitting g, g_audit_emitting g, g_written g, g_evicted g).

(** Ids that the audited window dropped are set apart: they can be written again. *)
Record guard_inv (g : guard) : Prop := {
  gi_one : forall id, g_cancel_emitting g !! id = None \/ g_audit_emitting g !! id = None;
  gi_flight : forall id, id ∉ g_evicted g -> emits_resolved id g = false -> count id g = 0%nat;
  gi_marked : forall id, id ∉ g_evicted g -> (0 < count id g)%nat -> id ∈ g_audited g;
  gi_once : forall id, id ∉ g_evicted g -> (count id g <= 1)%nat;
  gi_nodup : NoDup (g_audited g);
  gi_bound : len (g_audited g) <= AUDIT_DEDUP_CAP;
  gi_full : g_evicted g <> [] -> len (g_audited g) = AUDIT_DEDUP_CAP;
}.

Lemma inv_core g g' : core g = core g' -> guard_inv g -> guard_inv g'.
Proof.
  intros [= H1 H2 H3 H4 H5] [I1 I2 I3 I4 I5 I6 I7].
  split; unfold count, emits_resolved in *; rewrite <- ?H1, <- ?H2, <- ?H3, <- ?H4, <- ?H5; auto.
Qed.

Lemma fifo_add_spec cap id l out l' :
  fifo_add cap id l = (out, l') -> NoDup l -> 0 <= cap -> len l <= cap ->
  NoDup l' /\ len l' <= cap /\ (forall x, x ∈ l \/ x = id -> x ∈ out \/ x ∈ l') /\
  (out <> [] \/ len l = cap -> len l' = cap).
Proof.
  unfold fifo_add. intros H Hn Hc Hl. set (l1 := if memb id l then l else l ++ [id]) in *.
  assert (NoDup l1 /\ len l <= len l1 <= cap + 1 /\ forall x, x ∈ l \/ x = id -> x ∈ l1) as (Hn1 & Hl1 & Hx).
  { unfold l1. destruct (memb id l) eqn:Em.
    - apply memb_true in Em. split_and!; [done|lia|lia|]. by intros x [?| ->].
    - apply memb_false in Em. split_and!; [by apply NoDup_snoc|rewrite len_app, len_cons, len_nil; lia..|set_solver]. }
  clearbody l1. destruct (cap <? len l1) eqn:Ec; injection H as <- <-.
  - destruct l1 as [|y l1]; [rewrite len_nil in Ec; lia|]. rewrite len_cons in Hl1. change (drop 1 (y :: l1)) with l1.
    rewrite len_cons in Ec. apply NoDup_cons in Hn1 as [_ Hn1]. split_and!; [done|lia| |lia]. intros x Hin%Hx. set_solver.
  - split_and!; [done|lia| |]; [intros x Hin; right; by apply Hx|]. intros [?|?]; [done|lia].
Qed.

Lemma AUDIT_DEDUP_CAP_pos : 0 <= AUDIT_DEDUP_CAP.
Proof. done. Qed.

(** Marking an id keeps what was known of the others, but for evicted ones. *)
Lemma add_audited_inv id g : guard_inv g -> guard_inv (add_audited id g).
Proof.
  intros [I1 I2 I3 I4 I5 I6 I7]. unfold add_audited. destruct (fifo_add _ _ _) as [out l] eqn:E.
  apply fifo_add_spec in E as (Hn & Hl & Hx & Hfull); [|done..].
  split; unfold count, emits_resolved in *; cbn; auto; [intros id' Hid; rewrite elem_of_app in Hid..|].
  - intros H. apply I2; tauto.
  - intros H. destruct (Hx id') as [?|?]; [left; apply I3; tauto|tauto|done].
  - apply I4. tauto.
  - intros Hne. apply Hfull. destruct out; [right; by apply I7|by left].
Qed.

Lemma add_audited_member id g : guard_inv g -> id ∉ g_evicted (add_audited id g) -> id ∈ g_audited (add_audited id g).
Proof.
  intros [_ _ _ _ I5 I6 _]. unfold add_audited. destruct (fifo_add _ _ _) as [out l] eqn:E.
  apply fifo_add_spec in E as (_ & _ & Hx & _); [|done..]. cbn. intros H. destruct (Hx id) as [?|?]; [by right|set_solver|done].
Qed.

Lemma count_add id id' e g : count id (add_written id' e g) = (count id g + if str_eqb id' id then 1 else 0)%nat.
Proof.
  unfold count, add_written. cbn [g_written]. rewrite List.filter_app, length_app. cbn. by destruct (str_eqb id' id).
Qed.

(** A write of [id] that landed. *)
Lemma landed_inv id e g1 :
  guard_inv g1 -> (id ∉ g_evicted g1 -> count id g1 = 0%nat) -> emits_resolved id g1 = true ->
  guard_inv (add_audited id (add_written id e g1)).
Proof.
  intros Hi H0 Hr. pose proof Hi as [I1 I2 I3 I4 I5 I6 I7].
  (* marking first gives the same state *)
  replace (add_audited id (add_written id e g1)) with (add_written id e (add_audited id g1)).
  2:{ unfold add_audited, add_written. cbn. by destruct (fifo_add _ _ _). }
  pose proof (add_audited_inv id g1 Hi) as [J1 J2 J3 J4 J5 J6 J7].
  pose proof (add_audited_member id g1 Hi) as Hmem.
  assert (g_evicted (add_audited id g1) = (fifo_add AUDIT_DEDUP_CAP id (g_audited g1)).1 ++ g_evicted g1) as Hev.
  { unfold add_audited. by destruct (fifo_add _ _ _). }
  assert (count id (add_audited id g1) = count id g1) as Hcount.
  { unfold count, add_audited. by destruct (fifo_add _ _ _). }
  assert (emits_resolved id (add_audited id g1) = true) as Hr'.
  { unfold emits_resolved, add_audited in *. by destruct (fifo_add _ _ _). }
  split.
  - exact J1.
  - intros id' Hid Hf. change (id' ∉ g_evicted (add_audited id g1)) in Hid.
    change (emits_resolved id' (add_audited id g1) = false) in Hf. rewrite count_add.
    destruct (str_eqb id id') eqn:E; [apply str_eqb_eq in E as ->; congruence|]. rewrite (J2 id' Hid Hf). done.
  - intros id' Hid. change (id' ∉ g_evicted (add_audited id g1)) in Hid. rewrite count_add.
    destruct (str_eqb id id') eqn:E; [apply str_eqb_eq in E as ->; intros _; by apply Hmem|].
    rewrite Nat.add_0_r. by apply J3.
  - intros id' Hid. change (id' ∉ g_evicted (add_audited id g1)) in Hid. rewrite count_add.
    destruct (str_eqb id id') eqn:E; [|rewrite Nat.add_0_r; by apply J4].
    apply str_eqb_eq in E as <-. rewrite Hcount, H0; [done|]. rewrite Hev, elem_of_app in Hid. tauto.
  - exact J5.
  - exact J6.
  - exact J7.
Qed.

Lemma emits_resolved_true id g :
  emits_resolved id g = true <-> g_cancel_emitting g !! id = None /\ g_audit_emitting g !! id = None.
Proof.
  unfold emits_resolved. destruct (g_cancel_emitting g !! id), (g_audit_emitting g !! id); naive_solver.
Qed.

(** A write begins for an id that was not audited and has none in flight. *)
Lemma start_inv id c a g :
  guard_inv g -> emits_resolved id g = true -> id ∉ g_audited g ->
  (forall id', id' <> id -> c !! id' = g_cancel_emitting g !! id' /\ a !! id' = g_audit_emitting g !! id') ->
  c !! id = None \/ a !! id = None ->
  guard_inv (set_emitting c a g).
Proof.
  intros [I1 I2 I3 I4 I5 I6 I7] Hr Ha Hne Hid. split; cbn; auto.
  - intros id'. destruct (decide (id' = id)) as [->|Hd]; [done|]. destruct (Hne id' Hd) as [-> ->]. apply I1.
  - intros id' He Hf. change (count id' g = 0%nat). destruct (decide (id' = id)) as [->|Hd].
    + destruct (count id g) eqn:Ec; [done|]. exfalso. apply Ha, I3; [done|]. rewrite Ec. lia.
    + apply I2; [done|]. unfold emits_resolved in *. cbn in Hf. destruct (Hne id' Hd) as [E1 E2]. by rewrite E1, E2 in Hf.
Qed.

(** A write leaves the tables. *)
Lemma stop_inv id c a g :
  guard_inv g ->
  (forall id', id' <> id -> c !! id' = g_cancel_emitting g !! id' /\ a !! id' = g_audit_emitting g !! id') ->
  c !! id = None -> a !! id = None -> guard_inv (set_emitting c a g).
Proof.
  intros [I1 I2 I3 I4 I5 I6 I7] Hne Hc Ha. split; cbn; auto.
  - intros id'. destruct (decide (id' = id)) as [->|Hd]; [by left|]. destruct (Hne id' Hd) as [-> ->]. apply I1.
  - intros id' He Hf. change (count id' g = 0%nat). destruct (decide (id' = id)) as [->|Hd].
    + unfold emits_resolved in Hf. cbn in Hf. by rewrite Hc, Ha in Hf.
    + apply I2; [done|]. unfold emits_resolved in *. cbn in Hf. destruct (Hne id' Hd) as [E1 E2]. by rewrite E1, E2 in Hf.
Qed.

Lemma mark_core id g : core (add_audited id g) = core (mark_audited id g).
Proof. unfold mark_audited, add_audited, core. cbn. by destruct (fifo_add _ _ _). Qed.

(** The end of a write of [id]: recorded and marked, or dropped. *)
Lemma end_inv id e c a g r k :
  guard_inv g -> emits_resolved id g = false ->
  (forall id', id' <> id -> c !! id' = g_cancel_emitting g !! id' /\ a !! id' = g_audit_emitting g !! id') ->
  c !! id = None -> a !! id = None ->
  (forall g1, core (k g1) = core g1) ->
  guard_inv (if may_have_landed r then mark_audited id (add_written id e (set_emitting c a g)) else k (set_emitting c a g)).
Proof.
  intros Hi Hf Hne Hc Ha Hk. pose proof (stop_inv id c a g Hi Hne Hc Ha) as H1. destruct (may_have_landed r).
  - eapply inv_core; [apply mark_core|]. apply landed_inv; [done| |].
    + intros He. change (count id g = 0%nat). by apply (gi_flight g Hi).
    + by apply emits_resolved_true.
  - by eapply inv_core; [symmetry; apply Hk|].
Qed.

Lemma audit_end_inv id r g : guard_inv g -> guard_inv (audit_end id r g).
Proof.
  intros Hi. unfold audit_end. destruct (g_audit_emitting g !! id) as [e|] eqn:E; [|done].
  destruct (gi_one g Hi id) as [Hc|Ha]; [|congruence].
  apply (end_inv id e _ _ g r (fun g => g)); [done| | |done|apply lookup_delete_eq|done].
  - unfold emits_resolved. by rewrite E, Hc.
  - intros id' Hne. by rewrite lookup_delete_ne by congruence.
Qed.

Lemma cancel_end_inv id r g : guard_inv g -> guard_inv (cancel_end id r g).
Proof.
  intros Hi. unfold cancel_end. destruct (g_cancel_emitting g !! id) as [[rec e]|] eqn:E; [|done].
  destruct (gi_one g Hi id) as [Hc|Ha]; [congruence|].
  apply (end_inv id e _ _ g r (queue_cancelled id rec)); [done| | |apply lookup_delete_eq|done|done].
  - unfold emits_resolved. by rewrite E.
  - intros id' Hne. by rewrite lookup_delete_ne by congruence.
Qed.

Lemma emit_cancelled_inv now id rec g :
  guard_inv g -> emits_resolved id g = true -> id ∉ g_audited g -> guard_inv (emit_cancelled now id rec g).
Proof.
  intros Hi Hr Ha. apply (start_inv id); [done..| |].
  - intros id' Hne. by rewrite lookup_insert_ne by congruence.
  - apply emits_resolved_true in Hr as [_ Hr]. by right.
Qed.

Lemma observe_core id st g : core (observe_latency id st g) = core g.
Proof. unfold observe_latency. by destruct (memb id (g_latency g)). Qed.

Lemma core_resolved g g' id : core g = core g' -> emits_resolved id g = emits_resolved id g'.
Proof. intros [= _ H1 H2 _ _]. unfold emits_resolved. by rewrite H1, H2. Qed.

Lemma audit_emit_inv id e st g :
  guard_inv g -> emits_resolved id g = true -> id ∉ g_audited g ->
  let g1 := observe_latency id st g in
  guard_inv (set_emitting (g_cancel_emitting g1) (<[id := e]> (g_audit_emitting g1)) g1).
Proof.
  intros Hi Hr Ha g1. pose proof (observe_core id st g) as Hc. fold g1 in Hc. apply (start_inv id).
  - by eapply inv_core; [symmetry; exact Hc|].
  - by rewrite (core_resolved _ _ _ Hc).
  - injection Hc as -> _ _ _ _. done.
  - intros id' Hne. by rewrite lookup_insert_ne by congruence.
  - rewrite <- (core_resolved _ _ _ Hc) in Hr. apply emits_resolved_true in Hr as [Hr _]. by left.
Qed.

Lemma audit_resume_inv ctx id a g :
  guard_inv g -> emits_resolved id g = true -> guard_inv (audit_resume ctx id a g).
Proof.
  intros Hi Hr. unfold audit_resume. destruct (memb id (g_audited g)) eqn:Em; [done|]. apply memb_false in Em.
  destruct (dget id (g_pending g)); [by apply emit_cancelled_inv|].
  destruct (ticket_cancelled _); [done|]. cbv zeta.
  destruct (g_req g !! id); [by apply audit_emit_inv|].
  destruct (aa_log_event a && g_bound g); [by eapply inv_core; [|exact Hi]|]. by apply audit_emit_inv.
Qed.

Lemma cancel_resume_inv now id own g :
  guard_inv g -> emits_resolved id g = true -> guard_inv (cancel_resume now id own g).
Proof.
  intros Hi Hr. unfold cancel_resume. destruct (memb id (g_audited g)) eqn:Em; [by eapply inv_core; [|exact Hi]|].
  apply memb_false in Em. by apply emit_cancelled_inv.
Qed.

Lemma release_inv n ids g : guard_inv g -> guard_inv (release_owned n ids g).
Proof.
  unfold release_owned. revert g. induction ids as [|id ids IH]; intros g Hi; [done|]. cbn [foldl]. apply IH.
  destruct (dget id (g_owned g)) as [m|]; [|done]. destruct (bool_decide (m = n)); [|done].
  apply add_audited_inv. by eapply inv_core; [|exact Hi].
Qed.

Ltac same_core Hi := eapply inv_core; [|exact Hi]; reflexivity.

Lemma gstep_inv g e : guard_inv g -> guard_inv (gstep g e).
Proof.
  intros Hi. destruct e as [id s|ctx id a|ctx now id latency|i|i|id r|id r|id n|n ids|n v]; cbn [gstep].
  - same_core Hi.
  - unfold audit_call. destruct (terminal_owner ctx id g) as [[] owner]; [|same_core Hi].
    unfold add_to_terminal_record. destruct (ticket_cancelled _); [done|].
    eapply inv_core; [symmetry; apply observe_core|done].
  - unfold cancel_call. destruct (terminal_owner ctx id g).1; [same_core Hi|]. cbv zeta.
    destruct (match _ with Some _ => _ | None => _ end); same_core Hi.
  - unfold resume. destruct (g_waiting g !! i) as [w|]; [|done]. destruct (emits_resolved (waiter_id w) g) eqn:Er; [|done].
    assert (guard_inv (set_waiting (list_delete i (g_waiting g)) g)) as H1 by same_core Hi.
    destruct w; [by apply audit_resume_inv|by apply cancel_resume_inv].
  - unfold cut. destruct (g_waiting g !! i) as [w|]; [|done]. destruct w; [same_core Hi|].
    unfold cancel_wait_cut. destruct (_ || _); same_core Hi.
  - by apply audit_end_inv.
  - by apply cancel_end_inv.
  - unfold hand_over. cbv zeta.
    assert (guard_inv (set_owned (queue_add AUDIT_DEDUP_CAP id n (g_owned g)) g)) as H1 by same_core Hi.
    destruct (g_tickets g !! n) as [v|]; [destruct (tv_closed v)|]; try (same_core H1).
    eapply inv_core; [|apply (release_inv n (tv_ids v) _ H1)]. reflexivity.
  - by apply release_inv.
  - same_core Hi.
Qed.

Lemma grun_inv bound es : guard_inv (grun bound es).
Proof.
  assert (guard_inv (guard_init bound)) as H0.
  { split; cbn; intros; first [done | by left | by constructor | cbv; lia]. }
  unfold grun. revert H0. generalize (guard_init bound). induction es as [|e es IH]; intros g Hg; [done|].
  cbn [foldl]. by apply IH, gstep_inv.
Qed.

(** ** Queued cancel records *)

Lemma queue_add_NoDup {V} cap k (v : V) d : NoDup (dkeys d) -> NoDup (dkeys (queue_add cap k v d)).
Proof.
  intros Hn. unfold queue_add. cbv zeta. apply (ddel_NoDup k) in Hn as [H1 H2].
  eapply sublist_NoDup; [|unfold dkeys; apply fmap_sublist, sublist_drop].
  change (NoDup (dkeys (ddel k d ++ [(k, v)]))). unfold dkeys. rewrite map_app. by apply NoDup_snoc.
Qed.

Lemma drop_snoc_get {V} n (k : str) (v : V) (d : list (str * V)) :
  k ∉ dkeys d -> (n <= length d)%nat -> dget k (drop n (d ++ [(k, v)])) = Some v.
Proof.
  intros Hk Hn. rewrite drop_app_le by done. rewrite dget_app.
  replace (dget k (drop n d)) with (@None V); [cbn; by rewrite decide_True by done|].
  symmetry. apply dget_None. intros Hin. apply Hk. unfold dkeys in *. rewrite <- (take_drop n d), map_app.
  apply elem_of_app. by right.
Qed.

Lemma queue_add_get {V} cap k (v : V) d : NoDup (dkeys d) -> 1 <= cap -> dget k (queue_add cap k v d) = Some v.
Proof.
  intros Hn Hc. unfold queue_add. cbv zeta. apply (ddel_NoDup k) in Hn as [H1 H2]. apply drop_snoc_get; [done|].
  rewrite len_app, len_cons, len_nil. unfold len. lia.
Qed.

Definition pending_ok (g : guard) : Prop := NoDup (dkeys (g_pending g)).

Lemma release_pending n ids g : g_pending (release_owned n ids g) = g_pending g.
Proof.
  unfold release_owned. revert g. induction ids as [|id ids IH]; intros g; [done|]. cbn [foldl]. rewrite IH.
  destruct (dget id (g_owned g)) as [m|]; [|done]. destruct (bool_decide (m = n)); [|done].
  unfold add_audited. by destruct (fifo_add _ _ _).
Qed.

Lemma observe_pending id st g : g_pending (observe_latency id st g) = g_pending g.
Proof. unfold observe_latency. by destruct (memb id (g_latency g)). Qed.

Lemma mark_pending id g : g_pending (mark_audited id g) = ddel id (g_pending g).
Proof. unfold mark_audited, add_audited. cbn. by destruct (fifo_add _ _ _). Qed.

Lemma pending_step g e : pending_ok g -> pending_ok (gstep g e).
Proof.
  unfold pending_ok. intros Hi. pose proof (fun id => proj1 (ddel_NoDup id _ Hi)) as Hdel.
  pose proof (fun id (r : cancel_record) => queue_add_NoDup CANCEL_PENDING_CAP id r _ Hi) as Hadd.
  destruct e as [id s|ctx id a|ctx now id latency|i|i|id r|id r|id n|n ids|n v]; cbn [gstep]; try done.
  - unfold audit_call. destruct (terminal_owner ctx id g) as [[] owner]; [|done].
    unfold add_to_terminal_record. destruct (ticket_cancelled _); [done|]. by rewrite observe_pending.
  - unfold cancel_call. destruct (terminal_owner ctx id g).1; [apply Hdel|]. cbv zeta. by destruct (match _ with Some _ => _ | None => _ end).
  - unfold resume. destruct (g_waiting g !! i) as [w|]; [|done]. destruct (emits_resolved (waiter_id w) g); [|done].
    destruct w as [ctx id a|now id own]; cbv zeta.
    + unfold audit_resume. destruct (memb _ _); [done|]. destruct (dget _ _); [done|]. destruct (ticket_cancelled _); [done|].
      cbv zeta. destruct (g_req _ !! id); [by cbn; rewrite observe_pending|].
      destruct (_ && _); [done|]. by cbn; rewrite observe_pending.
    + unfold cancel_resume. destruct (memb _ _); [apply Hdel|done].
  - unfold cut. destruct (g_waiting g !! i) as [[]|]; try done. cbv zeta. unfold cancel_wait_cut. destruct (_ || _); [done|].
    apply Hadd.
  - unfold audit_end. destruct (g_audit_emitting g !! id); [|done]. cbv zeta.
    destruct (may_have_landed r); [|done]. rewrite mark_pending. apply Hdel.
  - unfold cancel_end. destruct (g_cancel_emitting g !! id) as [[]|]; [|done]. cbv zeta.
    destruct (may_have_landed r); [rewrite mark_pending; apply Hdel|apply Hadd].
  - unfold hand_over. cbv zeta. destruct (g_tickets g !! n) as [v|]; [destruct (tv_closed v)|]; try done.
    cbn. by rewrite release_pending.
  - by rewrite release_pending.
Qed.

Lemma pending_run bound es : pending_ok (grun bound es).
Proof.
  assert (pending_ok (guard_init bound)) as H0 by constructor.
  unfold grun. revert H0. generalize (guard_init bound). induction es as [|e es IH]; intros g Hg; [done|].
  cbn [foldl]. by apply IH, pending_step.
Qed.

(** ** The claims *)

(** C23: a request has at most one record of the guardrail's own, whatever the
    interleaving of refusals, log events, cancels, hand-overs, ticket closes and
    ends of writes: while a write is in flight none of the id landed, and an id
    with a record is in the audited window.  The window is bounded, and an id can
    have been dropped from it (and then be written again) only once it is full. *)
Theorem hook_audit_once bound es id :
  let g := grun bound es in
  (id ∉ g_evicted g ->
     (count id g <= 1)%nat /\
     (emits_resolved id g = false -> count id g = 0%nat) /\
     ((0 < count id g)%nat -> id ∈ g_audited g)) /\
  len (g_audited g) <= AUDIT_DEDUP_CAP /\
  (g_evicted g <> [] -> len (g_audited g) = AUDIT_DEDUP_CAP).
Proof.
  intros g. pose proof (grun_inv bound es) as [I1 I2 I3 I4 I5 I6 I7]. split_and!; auto.
Qed.

(** a cancelled request frees its content at once and keeps its record: the
    cancel that reaches a request's state removes it before anything is awaited;
    the [cancelled] event carries no placeholder; and when its write fails, the
    next audit of that id, whatever it was about, writes the queued counts. *)
Theorem cancel_record_survives bound es ctx now id latency rec e r a ctx' :
  let g := grun bound es in
  (terminal_owner ctx id g).1 = false ->
  (forall s, g_req g !! id = Some s -> cancel_reaches ctx (rs_ticket s) g = true) ->
  (let g1 := gstep g (GCancel ctx now id latency) in
   g_req g1 !! id = None /\ last (g_waiting g1) = Some (WCancel now id (cancel_of (g_req g !! id) latency))) /\
  ev_placeholder_list (cancel_event now id (cancel_of (g_req g !! id) latency)) = None /\
  (g_cancel_emitting g !! id = Some (rec, e) -> may_have_landed r = false -> id ∉ g_audited g ->
   let g2 := gstep g (GCancelEnd id r) in
   (terminal_owner ctx' id g2).1 = false ->
   let g3 := gstep g2 (GAudit ctx' id a) in
   g_cancel_emitting (gstep g3 (GResume (length (g_waiting g2)))) !! id = Some (rec, cancel_event (aa_now a) id rec)).
Proof.
  intros g Ho Hr.
  assert (match g_req g !! id with Some s => negb (cancel_reaches ctx (rs_ticket s) g) | None => false end = false) as Hreach.
  { destruct (g_req g !! id) as [s|]; [|done]. by rewrite Hr. }
  split; [|split; [done|]].
  - cbn [gstep]. unfold cancel_call. rewrite Ho. cbv zeta. rewrite Hreach. cbn. split; [apply lookup_delete_eq|].
    by rewrite last_snoc.
  - intros Hc Hl Ha g2 Ho2 g3.
    assert (g2 = queue_cancelled id rec (set_emitting (delete id (g_cancel_emitting g)) (g_audit_emitting g) g)) as E2.
    { unfold g2. cbn [gstep]. unfold cancel_end. by rewrite Hc, Hl. }
    assert (g3 = set_waiting (g_waiting g2 ++ [WAudit ctx' id a]) g2) as E3.
    { unfold g3. cbn [gstep]. unfold audit_call. destruct (terminal_owner ctx' id g2) as [o ow]. cbn in Ho2. by rewrite Ho2. }
    assert (g_audit_emitting g !! id = None) as Hnone.
    { destruct (gi_one _ (grun_inv bound es) id) as [H|H]; [|done]. fold g in H. congruence. }
    clearbody g3. cbn [gstep]. unfold resume. rewrite E3. cbn [g_waiting set_waiting].
    rewrite list_lookup_middle by done. cbn [waiter_id].
    replace (emits_resolved id _) with true.
    2:{ symmetry. apply emits_resolved_true. rewrite E2. cbn. split; [apply lookup_delete_eq|done]. }
    cbv zeta. unfold audit_resume. cbn [g_audited set_waiting g_pending].
    replace (g_audited g2) with (g_audited g) by (by rewrite E2). rewrite (proj2 (memb_false _ _) Ha).
    replace (dget id (g_pending g2)) with (Some rec).
    + cbn. by rewrite lookup_insert_eq.
    + rewrite E2. cbn [queue_cancelled set_pending g_pending]. symmetry. apply queue_add_get; [apply pending_run|done].
Qed.
End Facts.

(** *** Witnesses *)

Definition demo_now : datetime := DateTime 2025 1 2 3 4 5 0.
Definition demo_state : request_state :=
  RequestState (u8 "r1") (u8 "u") (u8 "t") (u8 "openai") (u8 "m") 1 [u8 "[[EMAIL_001]]"] false
    [(u8 "a@b.ru", u8 "[[EMAIL_001]]")] [] (Some 1%nat) None None [] 0.
Definition demo_audit (log : bool) : audit_args := AuditArgs demo_now (u8 "m") 0 1 (3, 4) StatusFailed None log.

(** The client leaves while a refusal's record is being written; that write fails,
    the cancel's write fails too, and a log event writes the counts. *)
Definition demo_events : list gevent :=
  [GTicket 1 (Some (TView false false None [])); GRegister (u8 "r1") demo_state;
   GAudit (Some 1%nat) (u8 "r1") (demo_audit false); GResume 0;
   GTicket 1 (Some (TView true false None [])); GCancel (Some 1%nat) demo_now (u8 "r1") 12;
   GAuditEnd (u8 "r1") EndException; GResume 0].

Lemma cancel_record_survives_witness :
  let U := ru_unicode in
  let g := grun true demo_events in
  let rec := cancel_of (Some demo_state) 12 in
  let g2 := gstep g (GCancelEnd (u8 "r1") EndException) in
  g_cancel_emitting (gstep (gstep g2 (GAudit None (u8 "r1") (demo_audit true))) (GResume (length (g_waiting g2)))) !! u8 "r1"
    = Some (rec, cancel_event demo_now (u8 "r1") rec).
Proof.
  intros U g rec g2.
  assert (g_cancel_emitting g !! u8 "r1" = Some (rec, cancel_event demo_now (u8 "r1") rec)) as Hc by (vm_compute; reflexivity).
  destruct (cancel_record_survives true demo_events None demo_now (u8 "r1") 12 rec
    (cancel_event demo_now (u8 "r1") rec) EndException (demo_audit true) None) as (_ & _ & H).
  - vm_compute. reflexivity.
  - intros s Hs. fold g in Hs. assert (g_req g !! u8 "r1" = None) as E by (vm_compute; reflexivity). congruence.
  - apply H; [exact Hc|reflexivity| |vm_compute; reflexivity].
    assert (g_audited g = []) as E by (vm_compute; reflexivity). fold g. rewrite E. apply not_elem_of_nil.
Defined.
