(* ===== verification/HookData.v ===== *)
(** * The request dictionary of the LiteLLM callback

    [litellm_hook.py] works in place on the dictionary LiteLLM hands it.  This file
    models the functions on that dictionary: reading the headers for
    authentication and stripping the corporate token from every place that holds
    headers, the request id and its join with the log events, the header selection
    of the two subscription bridges, the view of messages or input and its write
    back, the snapshot of the body, the reverse substitution of a whole response,
    and the small tables that name providers and failures.

    The dictionary is a JSON tree with ordered keys; LiteLLM's logging object, a
    Python object stored next to it, is the record [logging_obj] of the attributes
    the code reads.  Two places of the tree that are one object in the process are
    two copies here: each function below does the same deletion or assignment at
    every place it visits. *)

From S2P Require Import Prelude Text Json Placeholder ContentBlocks Tokens Sse Orchestrator TerminalAudit HookAudit.
Local Open Scope py_scope.
Local Open Scope Z_scope.

(** ** Python values *)

(** [str(v)]; of a list or a dict it is [container_str]. *)
Definition str_of `{PyValues} (v : json) : str :=
  match v with
  | JStr s => s
  | JNull => u8 "None"
  | JBool b => if b then u8 "True" else u8 "False"
  | JInt z => dump_int z
  | JFloat t => if str_eqb t (u8 "NaN") then u8 "nan"
                else if str_eqb t (u8 "Infinity") then u8 "inf"
                else if str_eqb t (u8 "-Infinity") then u8 "-inf" else t
  | JList _ | JObj _ => container_str v
  end.

(** [a or b] of two values. *)
Definition py_or (a b : json) : json := if truthy a then a else b.

(** [holder.get(k)] when it is a dict. *)
Definition dict_at (k : str) (d : jdict) : option jdict :=
  match dget k d with Some (JObj b) => Some b | _ => None end.

(** [f] applied in place to the dict at [k], when there is one. *)
Definition at_dict (k : str) (f : jdict -> jdict) (d : jdict) : jdict :=
  match dget k d with Some (JObj b) => dset k (JObj (f b)) d | _ => d end.

Abbreviation headers := (list (str * str)).

(** ** The corporate token *)

Section Headers.
Context {U : Unicode}.

Definition WIRE_HEADERS_TO_DROP : list str :=
  [u8 "host"; u8 "user-agent"; u8 "content-length"; u8 "accept"; u8 "connection"; u8 "content-type";
   u8 "x-forwarded-for"; u8 "x-forwarded-proto"; u8 "x-forwarded-host"; u8 "x-real-ip"; HEADER_LOWER].

(** A header name other than the corporate token's. *)
Definition not_corp (name : str) : bool := negb (str_eqb (u_lower name) HEADER_LOWER).

Definition drop_wire_headers (h : jdict) : jdict :=
  List.filter (fun e => negb (memb (u_lower e.1) WIRE_HEADERS_TO_DROP)) h.

Definition drop_corp_token (h : jdict) : jdict := List.filter (fun e => not_corp e.1) h.

Definition drop_from_bucket (bucket : jdict) : jdict :=
  at_dict (u8 "requester_metadata") (at_dict (u8 "headers") drop_corp_token)
    (at_dict (u8 "headers") drop_corp_token bucket).

Definition drop_corp_token_from_metadata (holder : jdict) : jdict :=
  at_dict (u8 "litellm_metadata") drop_from_bucket (at_dict (u8 "metadata") drop_from_bucket holder).

Definition drop_from_proxy_request (request : jdict) : jdict :=
  at_dict (u8 "body") drop_corp_token_from_metadata (at_dict (u8 "headers") drop_corp_token request).

Definition drop_corp_token_from_request (holder : jdict) : jdict :=
  at_dict (u8 "proxy_server_request") drop_from_proxy_request (drop_corp_token_from_metadata holder).

Definition strip_corp_token_everywhere (data : jdict) : jdict :=
  at_dict (u8 "secret_fields") (at_dict (u8 "raw_headers") drop_corp_token)
    (at_dict (u8 "litellm_params") drop_corp_token_from_request
       (drop_corp_token_from_request (at_dict (u8 "headers") drop_corp_token data))).

(** The optional strip of wire headers. *)
Definition strip_wire_headers (data : jdict) : jdict :=
  at_dict (u8 "litellm_metadata") (at_dict (u8 "headers") drop_wire_headers)
    (at_dict (u8 "proxy_server_request") (at_dict (u8 "headers") drop_wire_headers)
       (at_dict (u8 "headers") drop_wire_headers data)).

(** LiteLLM's logging object: the attributes the code reads.  [lo_messages] is what
    [update_messages] was last called with, when the method exists. *)
Record logging_obj := LoggingObj {
  lo_model_call_details : option jdict;
  lo_litellm_params : option jdict;
  lo_messages : option (list json);
  lo_stream_options : option json;
}.

Definition strip_corp_token_from_logging_obj (o : logging_obj) : logging_obj :=
  let strip_params p := default p (dict_at (u8 "litellm_params")
                          (strip_corp_token_everywhere [(u8 "litellm_params", JObj p)])) in
  LoggingObj (strip_corp_token_everywhere <$> lo_model_call_details o)
    (strip_params <$> lo_litellm_params o) (lo_messages o) (lo_stream_options o).

Definition scrub_bucket (d : jdict) : jdict := ddel (u8 "user") (ddel (u8 "metadata") d).

Definition scrub_retained_request_metadata (o : logging_obj) : logging_obj :=
  LoggingObj ((fun details => at_dict (u8 "litellm_params") scrub_bucket (scrub_bucket details)) <$> lo_model_call_details o)
    (lo_litellm_params o) (lo_messages o) (lo_stream_options o).

(** ** Reading headers *)

Context {R : PyValues}.

(** [{str(k): str(v) for k, v in h.items()}] *)
Definition str_items (h : jdict) : headers := map (fun e => (e.1, str_of e.2)) h.

Definition extract_headers (data : jdict) : headers :=
  match py_or (py_or (jget (u8 "headers") data) (jget (u8 "proxy_server_request") data)) (JObj []) with
  | JObj raw => str_items (default raw (dict_at (u8 "headers") raw))
  | _ => []
  end.

Definition opt_headers (k : str) (bucket : option jdict) : list jdict :=
  match bucket ≫= dict_at k with Some h => [h] | None => [] end.

(** The header dicts in the order they are merged. *)
Definition auth_buckets (data : jdict) : list jdict :=
  let lparams := dict_at (u8 "litellm_params") data in
  opt_headers (u8 "headers") (Some data)
  ++ opt_headers (u8 "headers") (dict_at (u8 "metadata") data)
  ++ opt_headers (u8 "headers") (dict_at (u8 "litellm_metadata") data)
  ++ opt_headers (u8 "headers") (dict_at (u8 "proxy_server_request") data)
  ++ opt_headers (u8 "headers") (lparams ≫= dict_at (u8 "metadata"))
  ++ opt_headers (u8 "headers") (lparams ≫= dict_at (u8 "proxy_server_request"))
  ++ opt_headers (u8 "raw_headers") (dict_at (u8 "secret_fields") data).

Definition merge_header (merged : list (str * (str * str))) (e : str * json) : list (str * (str * str)) :=
  dset (u_lower e.1) (e.1, str_of e.2) merged.

Definition merged_headers (data : jdict) : list (str * (str * str)) :=
  foldl merge_header [] (concat (auth_buckets data)).

Definition extract_auth_headers (data : jdict) : headers := dict_of (map snd (merged_headers data)).

(** ** The subscription bridges *)

Definition CHATGPT_HEADER_ALLOWLIST : list str :=
  [u8 "authorization"; u8 "chatgpt-account-id"; u8 "originator"; u8 "session-id"; u8 "thread-id";
   u8 "user-agent"; u8 "x-openai-internal-codex-responses-lite"].

Definition ANTHROPIC_HEADER_ALLOWLIST : list str :=
  [u8 "authorization"; u8 "anthropic-beta"; u8 "anthropic-version"; u8 "user-agent"].

Definition ANTHROPIC_OAUTH_TOKEN_PREFIX_FALLBACK : str := u8 "sk-ant-oat".

(** [litellm_prefix]: the constant of the installed litellm, if it is a string. *)
Definition resolve_anthropic_oauth_prefix (litellm_prefix : option str) : str :=
  match litellm_prefix with
  | Some (c :: p) => c :: p
  | _ => ANTHROPIC_OAUTH_TOKEN_PREFIX_FALLBACK
  end.

Definition is_authorization (name : str) : bool := str_eqb (u_lower name) (u8 "authorization").

(** The loop over the inbound headers: what is selected, and the last
    [authorization]. *)
Definition select_header (allowed : str -> bool) (acc : headers * option str) (e : str * str) : headers * option str :=
  let '(selected, authorization) := acc in
  let lower := u_lower e.1 in
  if str_eqb lower HEADER_LOWER then acc else
  (if allowed lower then dset e.1 e.2 selected else selected,
   if str_eqb lower (u8 "authorization") then Some e.2 else authorization).

Definition select_headers (allowed : str -> bool) (inbound : headers) : headers * option str :=
  foldl (select_header allowed) ([], None) inbound.

(** [authorization[7:].strip()] *)
Definition bearer_of (authorization : str) : str := strip (slice authorization 7 (len authorization)).

Definition has_newline (s : str) : bool := memb 10%N s || memb 13%N s.

(** The checks on the header; [None] is a [ValueError]. *)
Definition bearer_ok (authorization : option str) : option str :=
  match authorization with
  | None => None
  | Some a =>
    if negb (starts_with (u_lower a) (u8 "bearer ")) then None else
    if str_eqb (bearer_of a) [] || has_newline a then None else Some (bearer_of a)
  end.

Definition chatgpt_upstream_headers (inbound : headers) : option headers :=
  let '(selected, authorization) :=
    select_headers (fun lower => memb lower CHATGPT_HEADER_ALLOWLIST || starts_with lower (u8 "x-codex-")) inbound in
  match bearer_ok authorization with Some _ => Some selected | None => None end.

Definition anthropic_upstream_headers (prefix : str) (inbound : headers) : option headers :=
  let '(selected, authorization) := select_headers (fun lower => memb lower ANTHROPIC_HEADER_ALLOWLIST) inbound in
  match bearer_ok authorization with
  | Some bearer => if starts_with bearer prefix then Some selected else None
  | None => None
  end.

(** [next(value for name, value in selected.items() if name.lower() == "authorization")];
    [None] is [StopIteration]. *)
Fixpoint first_authorization (selected : headers) : option str :=
  match selected with
  | [] => None
  | (name, value) :: rest => if is_authorization name then Some value else first_authorization rest
  end.

Definition json_headers (h : headers) : json := JObj (map (fun e => (e.1, JStr e.2)) h).

(** [data["api_key"]] and [data["extra_headers"]]; [None]: the [next] found nothing. *)
Definition publish_bridge (selected : headers) (data : jdict) : option jdict :=
  match first_authorization selected with
  | None => None
  | Some a =>
    Some (dset (u8 "extra_headers") (json_headers (List.filter (fun e => negb (is_authorization e.1)) selected))
            (dset (u8 "api_key") (JStr (bearer_of a)) data))
  end.
End Headers.

(** ** The request id *)

Definition REQUEST_ID_KEY : str := u8 "_corp_gateway_request_id".

Definition REQUEST_ID_LOOKUP_PATHS : list (list str) :=
  [[REQUEST_ID_KEY]; [u8 "metadata"; REQUEST_ID_KEY]; [u8 "litellm_metadata"; REQUEST_ID_KEY];
   [u8 "litellm_params"; u8 "metadata"; REQUEST_ID_KEY]].

Definition REQUEST_ID_MAX_LEN : Z := 256.

Definition valid_request_id (value : str) : bool :=
  negb (str_eqb value []) && (len value <=? REQUEST_ID_MAX_LEN)
  && forallb (fun ch => (32 <=? ch)%N && negb (ch =? 127)%N) value.

Fixpoint dig (cur : json) (path : list str) : json :=
  match path with
  | [] => cur
  | k :: path' => match cur with JObj d => dig (jget k d) path' | _ => JNull end
  end.

(** [bucket[key] = rid] in the dict at [top], made when it is none. *)
Definition put_in_bucket (rid : str) (data : jdict) (top : str) : jdict :=
  dset top (JObj (dset REQUEST_ID_KEY (JStr rid) (default [] (dict_at top data)))) data.

Definition scatter (data : jdict) (rid : str) : jdict :=
  let d1 := dset REQUEST_ID_KEY (JStr rid) data in
  let d2 := foldl (put_in_bucket rid) d1 [u8 "metadata"; u8 "litellm_metadata"] in
  at_dict (u8 "litellm_params") (fun lparams => put_in_bucket rid lparams (u8 "metadata")) d2.

Definition valid_id (v : json) : option str :=
  match v with JStr s => if valid_request_id s then Some s else None | _ => None end.

(** The first lookup path with a valid id. *)
Fixpoint find_id (data : jdict) (paths : list (list str)) : option str :=
  match paths with
  | [] => None
  | path :: rest => match valid_id (dig (JObj data) path) with Some rid => Some rid | None => find_id data rest end
  end.

(** [uuid]: the fresh [str(uuid.uuid4())]. *)
Definition ensure_request_id (uuid : str) (data : jdict) : str * jdict :=
  let rid := match valid_id (jget (u8 "litellm_call_id") data) with
             | Some call_id => call_id
             | None => default uuid (find_id data REQUEST_ID_LOOKUP_PATHS)
             end in
  (rid, scatter data rid).

Definition nonempty (v : json) : option str := match v with JStr (c :: s) => Some (c :: s) | _ => None end.

(** [call_id] after both lookups of [_resolve_request_data]. *)
Definition event_call_id (kwargs : jdict) : option str :=
  match nonempty (jget (u8 "litellm_call_id") kwargs) with
  | Some call_id => Some call_id
  | None => dict_at (u8 "litellm_params") kwargs ≫= fun lparams => nonempty (jget (u8 "litellm_call_id") lparams)
  end.

Definition copy_dict (kwargs : jdict) (out : jdict) (top : str) : jdict :=
  match dict_at top kwargs with
  | Some b => if dmem top out then out else dset top (JObj b) out
  | None => out
  end.

Definition resolve_request_data (kwargs : jdict) : jdict :=
  let base := match py_or (py_or (jget (u8 "data") kwargs) (jget (u8 "optional_params") kwargs)) (JObj []) with
              | JObj d => d
              | _ => []
              end in
  let out := match event_call_id kwargs with
             | Some call_id => dset (u8 "litellm_call_id") (JStr call_id) base
             | None => base
             end in
  foldl (copy_dict kwargs) out [u8 "metadata"; u8 "litellm_metadata"; u8 "litellm_params"].

(** ** Messages or input *)

Definition NON_CHAT_INPUT_CALL_TYPES : list str :=
  [u8 "embedding"; u8 "aembedding"; u8 "moderation"; u8 "amoderation"; u8 "speech"; u8 "aspeech";
   u8 "pass_through_endpoint"].

Inductive shape := ShMessages | ShUnmanaged | ShInputString | ShInputList.

#[global] Instance shape_eq_dec : EqDecision shape.
Proof. solve_decision. Defined.

Definition in_call_types (call_type : option str) (names : list str) : bool :=
  match call_type with Some c => memb c names | None => false end.

Definition request_items (data : jdict) (call_type : option str) : json * shape :=
  match dget (u8 "messages") data with
  | Some JNull => (JList [], ShMessages)
  | Some messages => (messages, ShMessages)
  | None =>
    if in_call_types call_type NON_CHAT_INPUT_CALL_TYPES then (JList [], ShUnmanaged) else
    match dget (u8 "input") data with
    | None => (JList [], ShMessages)
    | Some JNull => (JList [], ShUnmanaged)
    | Some (JStr s) => (JList [JObj [(u8 "role", JStr (u8 "user")); (u8 "content", JStr s)]], ShInputString)
    | Some v => (v, ShInputList)
    end
  end.

Definition store_request_items (data : jdict) (items : list json) (sh : shape) : jdict :=
  match sh with
  | ShUnmanaged => data
  | ShMessages => dset (u8 "messages") (JList items) data
  | ShInputString =>
    dset (u8 "input") (match items with
                       | [] => JStr []
                       | JObj first :: _ => default (JStr []) (dget (u8 "content") first)
                       | _ => JStr []
                       end) data
  | ShInputList => dset (u8 "input") (JList items) data
  end.

(** A bare string as a user message. *)
Definition as_message (v : json) : json :=
  match v with JStr _ => JObj [(u8 "role", JStr (u8 "user")); (u8 "content", v)] | _ => v end.

(** [o] has the method [update_messages]. *)
Definition refresh_logging_snapshot (data : jdict) (sh : shape) (o : logging_obj) : logging_obj :=
  let items := match sh with ShMessages => jget (u8 "messages") data | _ => jget (u8 "input") data end in
  let set messages logged :=
    LoggingObj (dset (u8 "input") logged <$> lo_model_call_details o) (lo_litellm_params o) (Some messages)
      (lo_stream_options o) in
  match sh with
  | ShUnmanaged => o
  | _ => match items with
         | JStr _ => set [as_message items] items
         | JList l => set (map as_message l) items
         | _ => o
         end
  end.

Definition REWRITTEN_BODY_KEYS : list str := [u8 "messages"; u8 "input"; u8 "system"; u8 "instructions"].

Definition refresh_key (data body : jdict) (key : str) : jdict :=
  match dget key data with
  | Some v => if dmem key body then dset key v body else body
  | None => body
  end.

Definition refresh_request_body_snapshot (data : jdict) : jdict :=
  at_dict (u8 "proxy_server_request")
    (at_dict (u8 "body") (fun body => foldl (refresh_key data) body REWRITTEN_BODY_KEYS)) data.

(** ** Usage of a chat stream *)

Definition CHAT_CALL_TYPES : list str := [u8 "acompletion"; u8 "completion"].
Definition LITELLM_STRIP_STREAM_USAGE : str := u8 "_litellm_strip_stream_usage".

Definition is_true (v : json) : bool := match v with JBool b => b | _ => false end.

Definition asks_for_stream_usage (data : jdict) (call_type : option str) : bool :=
  if negb (in_call_types call_type CHAT_CALL_TYPES) || negb (is_true (jget (u8 "stream") data)) then false else
  if is_true (jget LITELLM_STRIP_STREAM_USAGE data) then true else
  match jget (u8 "stream_options") data with
  | JNull => true
  | JObj options => negb (is_true (jget (u8 "include_usage") options))
  | _ => false
  end.

(** The dict part; [None] is the [TypeError] of unpacking a value that is no mapping. *)
Definition ask_for_stream_usage (data : jdict) : option jdict :=
  let d1 := if dmem LITELLM_STRIP_STREAM_USAGE data then dset LITELLM_STRIP_STREAM_USAGE (JBool false) data else data in
  match dict_or_empty (jget (u8 "stream_options") d1) with
  | None => None
  | Some options => Some (dset (u8 "stream_options") (JObj (dset (u8 "include_usage") (JBool true) options)) d1)
  end.

(** ** The state of a request *)

(** [_merge_into_state]. *)
Definition merge_into_state (s : request_state) (r : sanitize_result) : request_state :=
  let placeholders := foldl (fun l p => if memb p.2 l then l else l ++ [p.2]) (rs_placeholders s) (sr_pairs r) in
  RequestState (rs_request_id s) (rs_user_id s) (rs_team_id s) (rs_provider s) (rs_model s)
    (len placeholders) placeholders (rs_cache_a_hit s || sr_cache_a_hit r) (rs_mapping s ++ sr_pairs r)
    (rs_response_alias_exclusions s) (rs_ticket s) (rs_error_code s)
    (match sr_block_reason r with Some reason => Some reason | None => rs_block_reason s end)
    (rs_profile_ids s) (rs_started_at s).

(** [_audit_facts], with [client_asked_usage] as [_pre_call_impl] sets it. *)
Definition audit_facts `{Unicode} (s : request_state) (started : Q) (asked : bool) : facts :=
  Facts (rs_request_id s) (rs_user_id s) (rs_team_id s) (rs_provider s) (rs_model s) (rs_redaction_count s)
    (label_counts (rs_placeholders s)) (rs_cache_a_hit s) (rs_block_reason s) (rs_error_code s) (rs_profile_ids s)
    (rs_placeholders s) OutOk started asked.

(** [_response_mapping]. *)
Definition response_mapping `{Unicode} (s : request_state) (include_bare_aliases : bool) : list pair :=
  if include_bare_aliases then add_unwrapped_response_aliases (rs_mapping s) (rs_response_alias_exclusions s)
  else rs_mapping s.

(** ** Providers and failures *)

Definition looks_anthropic `{Unicode} (model : str) : bool :=
  starts_with model (u8 "claude") || contains (u_lower model) (u8 "anthropic").

Definition detect_provider `{Unicode} (model : str) : str :=
  if looks_anthropic model then u8 "anthropic" else u8 "openai".

Definition hook_detect_provider `{Unicode} `{PyValues} (data : jdict) : str :=
  detect_provider (str_of (py_or (jget (u8 "model") data) (JStr []))).

Definition classify_auth_error (e : auth_error) : str :=
  match e with
  | ExpiredToken => u8 "E_TOKEN_EXPIRED"
  | RevokedToken => u8 "E_TOKEN_REVOKED"
  | InvalidToken => u8 "E_TOKEN_INVALID"
  | _ => u8 "E_AUTH"
  end.

Definition AUTH_ERROR_MESSAGES : list (str * str) :=
  [(u8 "E_TOKEN_EXPIRED", u8 "token expired"); (u8 "E_TOKEN_REVOKED", u8 "token revoked");
   (u8 "E_TOKEN_INVALID", u8 "invalid token"); (u8 "E_AUTH", u8 "authentication failed")].

Definition FAILURE_COMPONENT : list (str * str) :=
  [(u8 "E_CORP_LLM_DOWN", u8 "corp_llm"); (u8 "E_NER_UNAVAILABLE", u8 "ner");
   (u8 "E_CORP_NER_UNAVAILABLE", u8 "corp_ner"); (u8 "E_DETECTOR_CONTRACT", u8 "sanitize");
   (u8 "E_PROFILE_UNAVAILABLE", u8 "profile"); (u8 "E_MISSING_TOKEN", u8 "auth");
   (u8 "E_TOKEN_EXPIRED", u8 "auth"); (u8 "E_TOKEN_REVOKED", u8 "auth"); (u8 "E_TOKEN_INVALID", u8 "auth");
   (u8 "E_AUTH", u8 "auth"); (u8 "E_STORE_UNAVAILABLE", u8 "token_store"); (u8 "E_PROVIDER_AUTH", u8 "auth");
   (u8 "E_PROVIDER_BLOCKED", u8 "provider"); (u8 "E_POLICY_BLOCKED", u8 "policy");
   (u8 "E_OVERSIZE_BLOCKED", u8 "oversize"); (u8 "E_DLP_BLOCKED", u8 "dlp"); (u8 "E_BAD_REQUEST", u8 "request");
   (u8 "E_SPAN_INVALID", u8 "sanitize"); (u8 "E_INTERNAL", u8 "internal")].

Definition failure_component (error_code : str) : str := default (u8 "other") (dget error_code FAILURE_COMPONENT).

(** ** The reverse substitution of a whole response *)

Section Response.
Context {F : FloatText} {R : PyValues} (reverse : str -> str).

(** [_reverse_choice]; [None] is the [TypeError] of a block type that is no key. *)
Definition reverse_choice (choice : json) : option json :=
  match choice with
  | JObj out =>
    match jget (u8 "message") out with
    | JObj msg =>
      let m1 := match jget (u8 "content") msg with
                | JStr s => Some (dset (u8 "content") (JStr (reverse s)) msg)
                | JList l => set_field (u8 "content") msg (desanitize_content reverse (JList l))
                | _ => Some msg
                end in
      match m1 ≫= desanitize_tool_calls reverse with
      | Some m2 => Some (JObj (dset (u8 "message") (JObj m2) out))
      | None => None
      end
    | _ => Some choice
    end
  | _ => Some choice
  end.

(** [_apply_reverse_to_response] of a text or a dict. *)
Definition apply_reverse_to_response (response : json) : option json :=
  match response with
  | JStr s => Some (JStr (reverse s))
  | JObj out =>
    let typed := starts_with (str_of (py_or (jget (u8 "type") out) (JStr []))) (u8 "response.") in
    let out1 := if dmem (u8 "output") out || typed
                then match desanitize_responses_payload reverse (JObj out) None 0 with JObj d => d | _ => out end
                else out in
    match jget (u8 "choices") out1 with
    | JList choices =>
      match mapM reverse_choice choices with
      | Some cs => Some (JObj (dset (u8 "choices") (JList cs) out1))
      | None => None
      end
    | _ =>
      match dget (u8 "content") out1 with
      | Some (JStr _ as c) | Some (JList _ as c) =>
        match desanitize_content reverse c with
        | Some c' => Some (JObj (dset (u8 "content") c' out1))
        | None => None
        end
      | _ => Some (JObj out1)
      end
    end
  | _ => Some response
  end.
End Response.

(** ** Lemmas on nested dicts *)

Lemma dict_at_eq k f d : dict_at k (at_dict k f d) = f <$> dict_at k d.
Proof.
  unfold dict_at, at_dict. destruct (dget k d) as [[| | | | | |b]|] eqn:E; rewrite ?E; try done.
  by rewrite dget_dset_eq.
Qed.

Lemma dget_at_dict_ne k k' f d : k <> k' -> dget k (at_dict k' f d) = dget k d.
Proof. intros H. unfold at_dict. destruct (dget k' d) as [[]|]; try done. by rewrite dget_dset_ne. Qed.

Lemma dict_at_ne k k' f d : k <> k' -> dict_at k (at_dict k' f d) = dict_at k d.
Proof. intros H. unfold dict_at. by rewrite dget_at_dict_ne. Qed.

Lemma dict_at_dset_ne k k' v d : k <> k' -> dict_at k (dset k' v d) = dict_at k d.
Proof. intros H. unfold dict_at. by rewrite dget_dset_ne. Qed.

Lemma filter_dset {V} (q : str -> bool) k (v : V) d :
  List.filter (fun e => q e.1) (dset k v d)
  = if q k then dset k v (List.filter (fun e => q e.1) d) else List.filter (fun e => q e.1) d.
Proof.
  induction d as [|[k' v'] d IH]; cbn [dset List.filter fst]; [by destruct (q k)|].
  case_decide as E; [subst k'|].
  - cbn [List.filter fst]. destruct (q k) eqn:Q; [|done]. cbn [dset]. by rewrite decide_True.
  - cbn [List.filter fst]. rewrite IH. destruct (q k') eqn:Q', (q k) eqn:Q; try done.
    cbn [dset]. by rewrite decide_False.
Qed.

(** Rewrites through nested dicts with distinct literal keys. *)
Ltac dict_keys :=
  repeat first [rewrite dict_at_eq | rewrite dict_at_ne by discriminate | rewrite dict_at_dset_ne by discriminate].

(** ** Stripping the token *)

Section Strip.
Context {U : Unicode} {R : PyValues}.

(** [f] strips the header dict at [k] of its argument. *)
Definition strips (k : str) (f : jdict -> jdict) : Prop := forall d, dict_at k (f d) = drop_corp_token <$> dict_at k d.

Lemma opt_headers_strip k f b : strips k f -> opt_headers k (f <$> b) = map drop_corp_token (opt_headers k b).
Proof. intros H. unfold opt_headers. destruct b as [d|]; [|done]. cbn. rewrite H. by destruct (dict_at k d). Qed.

Lemma bucket_strips : strips (u8 "headers") drop_from_bucket.
Proof. intros d. unfold drop_from_bucket. by dict_keys. Qed.

Lemma proxy_strips : strips (u8 "headers") drop_from_proxy_request.
Proof. intros d. unfold drop_from_proxy_request. by dict_keys. Qed.

Lemma request_bucket k d :
  k = u8 "metadata" \/ k = u8 "litellm_metadata" ->
  dict_at k (drop_corp_token_from_request d) = drop_from_bucket <$> dict_at k d.
Proof.
  unfold drop_corp_token_from_request, drop_corp_token_from_metadata.
  intros [-> | ->]; by dict_keys.
Qed.

Lemma request_proxy d :
  dict_at (u8 "proxy_server_request") (drop_corp_token_from_request d)
  = drop_from_proxy_request <$> dict_at (u8 "proxy_server_request") d.
Proof. unfold drop_corp_token_from_request, drop_corp_token_from_metadata. by dict_keys. Qed.

Lemma request_other k d :
  k <> u8 "metadata" -> k <> u8 "litellm_metadata" -> k <> u8 "proxy_server_request" ->
  dict_at k (drop_corp_token_from_request d) = dict_at k d.
Proof.
  intros. unfold drop_corp_token_from_request, drop_corp_token_from_metadata. by rewrite !dict_at_ne by done.
Qed.

Lemma params_bind k f (p : option jdict) :
  (forall d, dict_at k (drop_corp_token_from_request d) = f <$> dict_at k d) ->
  (drop_corp_token_from_request <$> p) ≫= dict_at k = f <$> (p ≫= dict_at k).
Proof. intros H. destruct p as [d|]; [|done]. cbn. by rewrite H. Qed.

(** The header dicts after the strip are the stripped header dicts. *)
Lemma auth_buckets_strip data : auth_buckets (strip_corp_token_everywhere data) = map drop_corp_token (auth_buckets data).
Proof.
  assert (Hr : strips (u8 "raw_headers") (at_dict (u8 "raw_headers") drop_corp_token)) by (intros d; by dict_keys).
  unfold auth_buckets, strip_corp_token_everywhere. rewrite !map_app.
  repeat (f_equal; [|]); dict_keys.
  - unfold opt_headers, drop_corp_token_from_request, drop_corp_token_from_metadata. cbn [mbind option_bind]. dict_keys.
    by destruct (dict_at (u8 "headers") data).
  - rewrite request_bucket by auto. dict_keys. apply opt_headers_strip, bucket_strips.
  - rewrite request_bucket by auto. dict_keys. apply opt_headers_strip, bucket_strips.
  - rewrite request_proxy. dict_keys. apply opt_headers_strip, proxy_strips.
  - rewrite (params_bind _ drop_from_bucket) by (intros; apply request_bucket; auto).
    rewrite request_other by discriminate. dict_keys.
    apply opt_headers_strip, bucket_strips.
  - rewrite (params_bind _ drop_from_proxy_request) by apply request_proxy.
    rewrite request_other by discriminate. dict_keys.
    apply opt_headers_strip, proxy_strips.
 - rewrite request_other by discriminate. dict_keys. apply opt_headers_strip, Hr.
Qed.

Lemma concat_filter {A} (p : A -> bool) (l : list (list A)) : concat (map (List.filter p) l) = List.filter p (concat l).
Proof. induction l as [|x l IH]; cbn; [done|]. by rewrite List.filter_app, IH. Qed.

Definition low_key (e : str * (str * str)) : Prop := e.1 = u_lower e.2.1.

Lemma merged_low l acc : Forall low_key acc -> Forall low_key (foldl merge_header acc l).
Proof.
  revert acc. induction l as [|e l IH]; intros acc H; cbn; [done|]. apply IH. by apply dset_Forall.
Qed.

Lemma merged_strip l acc :
  foldl merge_header (List.filter (fun e => negb (str_eqb e.1 HEADER_LOWER)) acc) (drop_corp_token l)
  = List.filter (fun e => negb (str_eqb e.1 HEADER_LOWER)) (foldl merge_header acc l).
Proof.
  revert acc. induction l as [|[k v] l IH]; intros acc; cbn; [done|].
  rewrite <-IH. unfold not_corp. cbn [fst snd]. change (merge_header acc (k, v)) with (dset (u_lower k) (k, str_of v) acc).
  pose proof (filter_dset (fun k => negb (str_eqb k HEADER_LOWER)) (u_lower k) (k, str_of v) acc) as E. cbn beta in E.
  rewrite E. by destruct (str_eqb (u_lower k) HEADER_LOWER).
Qed.

Lemma dict_of_filter (m : list (str * (str * str))) :
  Forall low_key m ->
  dict_of (map snd (List.filter (fun e => negb (str_eqb e.1 HEADER_LOWER)) m)) = strip_corp_token (dict_of (map snd m)).
Proof.
  unfold dict_of, strip_corp_token. intros H.
  change (@nil (str * str)) with (List.filter (fun h : str * str => negb (str_eqb (u_lower h.1) HEADER_LOWER)) []) at 1.
  generalize (@nil (str * str)). induction H as [|[k [n v]] m Hk Hm IH]; intros acc; cbn; [done|].
  rewrite <-IH. unfold low_key in Hk. cbn in Hk. subst k.
  pose proof (filter_dset (fun k => negb (str_eqb (u_lower k) HEADER_LOWER)) n v acc) as E. cbn beta in E. rewrite E.
  by destruct (str_eqb (u_lower n) HEADER_LOWER).
Qed.

Lemma extract_auth_strip data :
  extract_auth_headers (strip_corp_token_everywhere data) = strip_corp_token (extract_auth_headers data).
Proof.
  unfold extract_auth_headers. rewrite <-dict_of_filter by (apply merged_low; constructor).
  unfold merged_headers. rewrite auth_buckets_strip, <-(merged_strip _ []). cbn.
  unfold drop_corp_token at 1. by rewrite concat_filter.
Qed.

Lemma extract_stripped h : extract_corp_token (strip_corp_token h) = None.
Proof.
  induction h as [|[k v] h IH]; cbn; [done|]. destruct (str_eqb (u_lower k) HEADER_LOWER) eqn:E; cbn; [done|]. by rewrite E.
Qed.
End Strip.

(** ** The request id *)

Lemma dget_scatter k data rid :
  k <> u8 "metadata" -> k <> u8 "litellm_metadata" -> k <> u8 "litellm_params" -> k <> REQUEST_ID_KEY ->
  dget k (scatter data rid) = dget k data.
Proof.
  intros. unfold scatter, put_in_bucket. cbn [foldl]. rewrite dget_at_dict_ne by done. by rewrite !dget_dset_ne by done.
Qed.

Lemma scatter_key data rid : dget REQUEST_ID_KEY (scatter data rid) = Some (JStr rid).
Proof.
  unfold scatter, put_in_bucket. cbn [foldl]. rewrite dget_at_dict_ne by discriminate.
  rewrite !dget_dset_ne by discriminate. apply dget_dset_eq.
Qed.

Lemma valid_id_valid v rid : valid_id v = Some rid -> v = JStr rid /\ valid_request_id rid = true.
Proof. destruct v; cbn; try done. destruct (valid_request_id s) eqn:E; naive_solver. Qed.

Lemma find_id_valid data paths rid : find_id data paths = Some rid -> valid_request_id rid = true.
Proof.
  induction paths as [|p paths IH]; cbn [find_id]; [done|].
  destruct (valid_id _) eqn:E; [|done]. intros [= ->]. by apply valid_id_valid in E as [].
Qed.

Lemma ensure_valid uuid data : valid_request_id uuid = true -> valid_request_id (ensure_request_id uuid data).1 = true.
Proof.
  intros H. unfold ensure_request_id. cbn [fst].
  destruct (valid_id _) eqn:E; [by apply valid_id_valid in E as []|].
  destruct (find_id _ _) eqn:E'; [by eapply find_id_valid|done].
Qed.

(** Two dictionaries that agree on the call id, one holding the valid id [rid] of the
    other's request at its top level, give the same id. *)
Lemma ensure_again uuid uuid' data data' rid :
  valid_request_id uuid = true -> (ensure_request_id uuid data).1 = rid ->
  jget (u8 "litellm_call_id") data' = jget (u8 "litellm_call_id") data -> dget REQUEST_ID_KEY data' = Some (JStr rid) ->
  (ensure_request_id uuid' data').1 = rid.
Proof.
  intros Hv Hr Hc Hk. pose proof (ensure_valid _ data Hv) as Hrv. rewrite Hr in Hrv.
  unfold ensure_request_id in *. cbn [fst] in *. rewrite Hc. destruct (valid_id _) as [c|]; [done|].
  unfold REQUEST_ID_LOOKUP_PATHS at 1. cbn [find_id dig]. unfold jget at 1. rewrite Hk. cbn. by rewrite Hrv.
Qed.

Lemma copy_dict_other k kwargs out top : k <> top -> dget k (copy_dict kwargs out top) = dget k out.
Proof.
  intros H. unfold copy_dict. destruct (dict_at top kwargs); [|done]. destruct (dmem top out); [done|]. by rewrite dget_dset_ne.
Qed.

Lemma resolve_call_id kwargs c :
  event_call_id kwargs = Some c -> dget (u8 "litellm_call_id") (resolve_request_data kwargs) = Some (JStr c).
Proof.
  intros H. unfold resolve_request_data. rewrite H. cbn [foldl]. rewrite !copy_dict_other by discriminate. apply dget_dset_eq.
Qed.

Lemma event_call_id_top kwargs c :
  jget (u8 "litellm_call_id") kwargs = JStr c -> valid_request_id c = true -> event_call_id kwargs = Some c.
Proof. intros H V. unfold event_call_id. rewrite H. by destruct c. Qed.

(** ** Bridges *)

Section Bridge.
Context {U : Unicode} {R : PyValues}.

Definition lowers (h : headers) : list str := map (fun e => u_lower e.1) h.

Lemma lowers_names h : NoDup (lowers h) -> NoDup (dkeys h).
Proof. unfold lowers, dkeys. intros H. apply (NoDup_fmap_1 u_lower). by rewrite <-list_fmap_compose. Qed.

Lemma merged_NoDup l acc : NoDup (dkeys acc) -> NoDup (dkeys (foldl merge_header acc l)).
Proof. revert acc. induction l as [|e l IH]; intros acc H; cbn; [done|]. by apply IH, dset_NoDup. Qed.

(** Header names for authentication are distinct up to case. *)
Lemma extract_auth_lowers data : NoDup (lowers (extract_auth_headers data)).
Proof.
  assert (Hn : NoDup (dkeys (merged_headers data))) by (apply merged_NoDup; constructor).
  assert (Hl : Forall low_key (merged_headers data)) by (apply merged_low; constructor).
  assert (E : lowers (map snd (merged_headers data)) = dkeys (merged_headers data)).
  { unfold lowers, dkeys. rewrite map_map. apply map_ext_in. intros e He%list_elem_of_In.
    rewrite Forall_forall in Hl. symmetry. by apply (Hl e). }
  rewrite <-E in Hn. unfold extract_auth_headers. rewrite dict_of_NoDup; [done|]. by apply lowers_names.
Qed.

Lemma first_authorization_app a b :
  first_authorization (a ++ b) = match first_authorization a with Some v => Some v | None => first_authorization b end.
Proof. induction a as [|[n v] a IH]; cbn; [done|]. by destruct (is_authorization n). Qed.

Section Select.
Context (allowed : str -> bool) (Ha : allowed (u8 "authorization") = true).

Lemma select_headers_spec inbound :
  NoDup (lowers inbound) ->
  let '(selected, authorization) := select_headers allowed inbound in
  selected = List.filter (fun e => not_corp e.1 && allowed (u_lower e.1)) inbound /\
  authorization = first_authorization selected /\
  (authorization <> None -> u8 "authorization" ∈ lowers inbound).
Proof.
  induction inbound as [|[n v] l IH] using rev_ind; intros H; [done|].
  pose proof (lowers_names _ H) as Hn. unfold lowers, dkeys in H, Hn. rewrite map_app in H, Hn.
  apply NoDup_app in H as (H1 & H2 & _). apply NoDup_app in Hn as (_ & Hn2 & _).
  specialize (IH H1). unfold select_headers in *. rewrite foldl_app. destruct (foldl _ _ l) as [sel auth].
  destruct IH as (IH1 & IH2 & IH3). cbn [foldl select_header fst snd]. rewrite List.filter_app, <-IH1. cbn [List.filter fst].
  unfold lowers, not_corp. rewrite map_app. destruct (str_eqb (u_lower n) HEADER_LOWER) eqn:E; cbn [negb andb].
  { rewrite app_nil_r. split_and!; try done. intros ?. apply elem_of_app. left. by apply IH3. }
  assert (Hsel : dget n sel = None).
  { apply dget_None. rewrite IH1. intros (x & -> & [Hx _]%elem_of_lfilter)%list_elem_of_fmap.
    apply (Hn2 x.1); [apply list_elem_of_fmap; eauto|]. cbn. by apply list_elem_of_singleton. }
  split_and!.
  - destruct (allowed (u_lower n)); [by apply dset_fresh|by rewrite app_nil_r].
  - destruct (str_eqb (u_lower n) (u8 "authorization")) eqn:A.
    + apply str_eqb_eq in A as A'. rewrite A', Ha, dset_fresh, first_authorization_app by done.
      destruct (first_authorization sel) eqn:F; [exfalso|cbn; unfold is_authorization; by rewrite A].
      apply (H2 (u_lower n)); [rewrite A'; apply IH3; congruence|]. cbn. by apply list_elem_of_singleton.
    + rewrite IH2. destruct (allowed (u_lower n)); [|done]. rewrite dset_fresh, first_authorization_app by done. cbn.
      unfold is_authorization. rewrite A. by destruct (first_authorization sel).
  - intros Hs. apply elem_of_app. destruct (str_eqb (u_lower n) (u8 "authorization")) eqn:A.
    + right. apply str_eqb_eq in A. cbn. rewrite A. by apply list_elem_of_singleton.
    + left. by apply IH3.
Qed.
End Select.
End Bridge.

(** ** Items *)

(** What [_request_items] reads back after the write: the items, unless they are the
    single text of an [input] string. *)
Lemma store_request_items_read data call_type v sh items :
  request_items data call_type = (v, sh) -> sh <> ShUnmanaged ->
  (sh = ShInputString -> exists d s, items = [JObj d] /\ dget (u8 "content") d = Some (JStr s)) ->
  request_items (store_request_items data items sh) call_type
  = match sh, items with
    | ShInputString, JObj d :: _ =>
      (JList [JObj [(u8 "role", JStr (u8 "user")); (u8 "content", jget (u8 "content") d)]], sh)
    | _, _ => (JList items, sh)
    end.
Proof.
  unfold request_items at 1. intros H Hu Hs.
  assert (Hm : sh = ShMessages \/ (dget (u8 "messages") data = None /\
                 in_call_types call_type NON_CHAT_INPUT_CALL_TYPES = false)).
  { destruct (dget (u8 "messages") data) as [[]|]; try (left; congruence).
    destruct (in_call_types _ _); [congruence|]. by right. }
  destruct sh; cbn [store_request_items].
  - unfold request_items. rewrite dget_dset_eq. by destruct items.
  - done.
  - destruct (Hs eq_refl) as (d & s & -> & Hd). destruct Hm as [?|[E C]]; [done|].
    unfold request_items. rewrite dget_dset_ne by discriminate. rewrite E, C, dget_dset_eq.
    unfold jget. rewrite Hd. done.
  - destruct Hm as [?|[E C]]; [done|]. unfold request_items.
    rewrite dget_dset_ne by discriminate. by rewrite E, C, dget_dset_eq.
Qed.

(** ** The theorems *)

Section Claims.
Context {U : Unicode} {R : PyValues}.

(** The headers of a request after the prologue of [_pre_call_impl]. *)
Definition strip_request (data : jdict) : jdict :=
  strip_corp_token_everywhere (dset (u8 "headers") (json_headers (strip_corp_token (extract_headers data))) data).

(** The strip removes the corporate token, under any spelling of its name, from
    every place the authentication reads headers from, and nothing else: read again,
    the headers are those of before without the token.  So after the prologue of a
    pre-call no authentication finds the token, nor in the two dicts of LiteLLM's
    logging object. *)
Theorem corp_token_stripped (data : jdict) (o : logging_obj) :
  extract_auth_headers (strip_corp_token_everywhere data) = strip_corp_token (extract_auth_headers data) /\
  extract_corp_token (extract_auth_headers (strip_request data)) = None /\
  (forall details, lo_model_call_details (strip_corp_token_from_logging_obj o) = Some details ->
     extract_corp_token (extract_auth_headers details) = None) /\
  (forall params, lo_litellm_params (strip_corp_token_from_logging_obj o) = Some params ->
     extract_corp_token (extract_auth_headers [(u8 "litellm_params", JObj params)]) = None).
Proof.
  split_and!.
  - apply extract_auth_strip.
  - unfold strip_request. rewrite extract_auth_strip. apply extract_stripped.
  - intros details. cbn. destruct (lo_model_call_details o); [|done]. cbn. intros [= <-].
    rewrite extract_auth_strip. apply extract_stripped.
  - intros params. cbn. destruct (lo_litellm_params o) as [p|]; [|done]. cbn. intros [= <-].
    rewrite <-(extract_stripped (extract_auth_headers [(u8 "litellm_params", JObj p)])), <-extract_auth_strip. done.
Qed.

(** The id of a request is valid (short, without control characters) whatever the
    caller sent, and stays the same: any later reading of the dictionary that kept the
    call id and the top-level copy gives it, with another fresh uuid at hand, and so
    does every log event that carries the call id of the request. *)
Theorem request_id_stable uuid uuid' data data' kwargs :
  valid_request_id uuid = true ->
  let '(rid, d) := ensure_request_id uuid data in
  valid_request_id rid = true /\
  (dget (u8 "litellm_call_id") data' = dget (u8 "litellm_call_id") d ->
   dget REQUEST_ID_KEY data' = dget REQUEST_ID_KEY d -> (ensure_request_id uuid' data').1 = rid) /\
  (valid_id (jget (u8 "litellm_call_id") data) = Some rid ->
   jget (u8 "litellm_call_id") kwargs = jget (u8 "litellm_call_id") data ->
   (ensure_request_id uuid' (resolve_request_data kwargs)).1 = rid).
Proof.
  intros Hv. destruct (ensure_request_id uuid data) as [rid d] eqn:E.
  assert (Hd : d = scatter data rid) by (unfold ensure_request_id in E; congruence).
  assert (Hr : (ensure_request_id uuid data).1 = rid) by (by rewrite E).
  pose proof (ensure_valid uuid data Hv) as Hrv. rewrite Hr in Hrv. split_and!; [done| |].
  - intros Hc Hk. subst d. rewrite scatter_key in Hk. rewrite dget_scatter in Hc by discriminate.
    apply (ensure_again uuid uuid' data); try done. unfold jget. by rewrite Hc.
  - intros Hc Hk. apply valid_id_valid in Hc as [Hc _]. rewrite Hc in Hk.
    pose proof (resolve_call_id _ _ (event_call_id_top _ _ Hk Hrv)) as G.
    unfold ensure_request_id, jget. cbn [fst]. rewrite G. cbn. by rewrite Hrv.
Qed.

(** The Anthropic bridge publishes OAuth tokens only: when it accepts the headers
    of a request, the published key exists and starts with the OAuth prefix, and every
    other header it forwards was sent by the client, is on the allowlist and is not
    the corporate token. *)
Theorem anthropic_bridge_oauth_only prefix data selected d :
  anthropic_upstream_headers prefix (extract_auth_headers data) = Some selected ->
  exists key d', publish_bridge selected d = Some d' /\ jget (u8 "api_key") d' = JStr key /\
    starts_with key prefix = true /\ key <> [] /\
    (forall e, e ∈ selected -> e ∈ extract_auth_headers data /\ u_lower e.1 ∈ ANTHROPIC_HEADER_ALLOWLIST /\
       u_lower e.1 <> HEADER_LOWER).
Proof.
  unfold anthropic_upstream_headers. intros H.
  pose proof (select_headers_spec (fun l => memb l ANTHROPIC_HEADER_ALLOWLIST) eq_refl _ (extract_auth_lowers data)) as S.
  destruct (select_headers _ _) as [sel auth]. destruct S as (Hs & Ha & _).
  destruct auth as [a|]; [|done]. cbn [bearer_ok] in H.
  destruct (negb (starts_with (u_lower a) _)); [done|]. destruct (str_eqb (bearer_of a) [] || has_newline a) eqn:E; [done|].
  destruct (starts_with (bearer_of a) prefix) eqn:P; [|done]. injection H as <-.
  apply orb_false_iff in E as [E _]. apply str_eqb_neq in E.
  unfold publish_bridge. rewrite <-Ha. eexists _, _. split; [reflexivity|].
  split. { unfold jget. rewrite dget_dset_ne by discriminate. by rewrite dget_dset_eq. }
  split_and!; [done|done|]. intros e. rewrite Hs. intros [Hi Hf]%elem_of_lfilter.
  apply andb_true_iff in Hf as [Hn Hm]. apply memb_true in Hm. unfold not_corp in Hn.
  split_and!; [done|done|]. apply negb_true_iff in Hn. by apply str_eqb_neq.
Qed.
End Claims.

(** ** Witnesses *)

Lemma request_id_stable_witness :
  let data := [(u8 "litellm_call_id", JStr (u8 "call-1")); (u8 "metadata", JObj [])] in
  (ensure_request_id (u8 "uuid") data).1 = u8 "call-1" /\
  (ensure_request_id (u8 "other") (resolve_request_data data)).1 = u8 "call-1".
Proof.
  cbn zeta. split; [vm_compute; reflexivity|].
  exact (proj2 (proj2 (request_id_stable (u8 "uuid") (u8 "other")
    [(u8 "litellm_call_id", JStr (u8 "call-1")); (u8 "metadata", JObj [])] []
    [(u8 "litellm_call_id", JStr (u8 "call-1")); (u8 "metadata", JObj [])] eq_refl)) eq_refl eq_refl).
Defined.

Definition demo_request : jdict :=
  [(u8 "headers", JObj [(u8 "X-Corp-Auth", JStr (u8 "secret")); (u8 "Authorization", JStr (u8 "Bearer sk-ant-oat01"))]);
   (u8 "metadata", JObj [(u8 "headers", JObj [(u8 "anthropic-version", JStr (u8 "1")); (u8 "cookie", JStr (u8 "c"))])])].

Lemma anthropic_bridge_oauth_only_witness :
  let U := ru_unicode in let R := no_floats in
  exists key d', publish_bridge [(u8 "Authorization", u8 "Bearer sk-ant-oat01"); (u8 "anthropic-version", u8 "1")] [] = Some d' /\
    jget (u8 "api_key") d' = JStr key /\ starts_with key (u8 "sk-ant-oat") = true.
Proof.
  cbn zeta.
  destruct (@anthropic_bridge_oauth_only ru_unicode no_floats (u8 "sk-ant-oat") demo_request
    [(u8 "Authorization", u8 "Bearer sk-ant-oat01"); (u8 "anthropic-version", u8 "1")] []
    ltac:(vm_compute; reflexivity)) as (key & d' & H1 & H2 & H3 & _).
  exists key, d'. auto.
Defined.
