(* ===== verification/Hook.v ===== *)
(** * The pre-call pipeline of the LiteLLM callback

    [pre_call] of [litellm_hook.py] is where the parts of the gateway meet: it strips
    the corporate token, authenticates, selects the headers of the subscription
    bridges, refuses ambiguous shapes and banned providers, classifies the payload
    (stage 0), sends every text of the messages and prompt fields through the
    sanitizer of the team's profile with one allocator per request, scans what leaves
    (stage 5) and hands the request to its ticket.

    A computation [H A] runs on the mutable state of the request and keeps it when it
    raises: the request dictionary, LiteLLM's logging object, the registered
    [_RequestState], whether a failure was counted, and the list of effects (metrics,
    audit calls, the hand-over) in their order.  The list [messages] is the object in
    the dictionary, so a message is replaced there while the loop runs.

    Parameters: the answer of the token lookup, the resolution of a profile, whether a
    call of [audit] raises, and the writer of LiteLLM's guardrail annotation. *)

From S2P Require Import Prelude Text Json Regex Placeholder Storage Rules CachePolicy LocalPass Allocator Planner Orchestrator ContentBlocks Tokens Profiles Sse Egress TerminalAudit HookAudit HookData.
Local Open Scope py_scope.
Local Open Scope Z_scope.

(** ** State, effects and errors *)

Inductive hook_exn :=
| GuardrailHttpException (status_code : Z) (error_code message : str)
| UnexpectedError.                      (* any other exception, by type only *)

Inductive hook_effect :=
| FxFailure (component : str)           (* gateway_failure{component} *)
| FxBlock (reason : str)                (* blocked_requests_total{block_reason} *)
| FxBind (request_id : str)             (* the ticket learns the call id *)
| FxAudit (state : option request_state) (error_code : option str)   (* audit(status="failed") *)
| FxDeposit (f : facts)
| FxHandOver (mapping : list pair).

Record hook := Hook {
  hk_data : jdict;
  hk_log : option logging_obj;
  hk_req : option request_state;
  hk_failed : bool;                     (* the id is in [_failure_recorded_ids] *)
  hk_fx : list hook_effect;
}.

Definition H (A : Type) : Type := hook -> hook * result hook_exn A.

Definition hret {A} (a : A) : H A := fun h => (h, Ok a).
Definition hraise {A} (e : hook_exn) : H A := fun h => (h, Raise e).
Definition hbind {A B} (c : H A) (k : A -> H B) : H B :=
  fun h => match c h with (h1, Ok a) => k a h1 | (h1, Raise e) => (h1, Raise e) end.

Notation "'do!' x ':=' c 'in' k" := (hbind c (fun x => k))
  (at level 200, x name, c at level 100, k at level 200, right associativity) : py_scope.

Definition hmodify (f : hook -> hook) : H unit := fun h => (f h, Ok tt).
Definition hget {A} (f : hook -> A) : H A := fun h => (h, Ok (f h)).

(** A partial operation; [None] is an exception. *)
Definition hopt {A} (o : option A) : H A := match o with Some a => hret a | None => hraise UnexpectedError end.

Definition hwhen (b : bool) (c : H unit) : H unit := if b then c else hret tt.

Definition with_data (f : jdict -> jdict) (h : hook) : hook :=
  Hook (f (hk_data h)) (hk_log h) (hk_req h) (hk_failed h) (hk_fx h).
Definition with_log (f : logging_obj -> logging_obj) (h : hook) : hook :=
  Hook (hk_data h) (f <$> hk_log h) (hk_req h) (hk_failed h) (hk_fx h).
Definition with_req (f : request_state -> request_state) (h : hook) : hook :=
  Hook (hk_data h) (hk_log h) (f <$> hk_req h) (hk_failed h) (hk_fx h).
Definition put_req (s : option request_state) (h : hook) : hook :=
  Hook (hk_data h) (hk_log h) s (hk_failed h) (hk_fx h).
Definition add_fx (e : hook_effect) (h : hook) : hook :=
  Hook (hk_data h) (hk_log h) (hk_req h) (hk_failed h) (hk_fx h ++ [e]).

Definition set_error_code (code : str) (s : request_state) : request_state :=
  RequestState (rs_request_id s) (rs_user_id s) (rs_team_id s) (rs_provider s) (rs_model s) (rs_redaction_count s)
    (rs_placeholders s) (rs_cache_a_hit s) (rs_mapping s) (rs_response_alias_exclusions s) (rs_ticket s) (Some code)
    (rs_block_reason s) (rs_profile_ids s) (rs_started_at s).
Definition set_block_reason (reason : str) (s : request_state) : request_state :=
  RequestState (rs_request_id s) (rs_user_id s) (rs_team_id s) (rs_provider s) (rs_model s) (rs_redaction_count s)
    (rs_placeholders s) (rs_cache_a_hit s) (rs_mapping s) (rs_response_alias_exclusions s) (rs_ticket s)
    (rs_error_code s) (Some reason) (rs_profile_ids s) (rs_started_at s).
Definition set_profile_ids (ids : list str) (s : request_state) : request_state :=
  RequestState (rs_request_id s) (rs_user_id s) (rs_team_id s) (rs_provider s) (rs_model s) (rs_redaction_count s)
    (rs_placeholders s) (rs_cache_a_hit s) (rs_mapping s) (rs_response_alias_exclusions s) (rs_ticket s)
    (rs_error_code s) (rs_block_reason s) ids (rs_started_at s).
Definition set_exclusions (l : list str) (s : request_state) : request_state :=
  RequestState (rs_request_id s) (rs_user_id s) (rs_team_id s) (rs_provider s) (rs_model s) (rs_redaction_count s)
    (rs_placeholders s) (rs_cache_a_hit s) (rs_mapping s) l (rs_ticket s)
    (rs_error_code s) (rs_block_reason s) (rs_profile_ids s) (rs_started_at s).

(** [_RequestState(...)] of a request with nothing redacted yet. *)
Definition fresh_state (request_id : str) (ctx : auth_context) (provider model : str) (ticket : option nat) (started : Q)
  : request_state :=
  RequestState request_id (ac_user_id ctx) (ac_team_id ctx) provider model 0 [] false [] [] ticket None None [] started.

(** ** What the hook is built from *)

Record hook_config := HookConfig {
  hc_max_output_tokens_cap : option Z;
  hc_strip_inbound_headers : bool;
  hc_forward_chatgpt_auth : bool;
  hc_forward_anthropic_auth : bool;
  hc_dlp_guard : dlp_guard;
  hc_block_payloads : bool;             (* CORP_LLM_BLOCK_PAYLOADS is not "0" *)
  hc_dlp_enabled : bool;                (* CORP_LLM_DLP_GUARD is not "0" *)
  hc_compile : str -> option re;        (* [re.compile] *)
  hc_oauth_prefix : str;
}.

(** The answer of the token store to a lookup. *)
Inductive lookup_outcome := LookupRow (row : option token_info) | LookupUnavailable | LookupFailed.

Inductive auth_outcome := AuthOk (ctx : auth_context) | AuthRefused (e : auth_error) | AuthUnavailable | AuthFailed.

Inductive profile_outcome :=
| ProfileResolved (r : @resolved_profile orchestrator)
| ProfileRefused (store_down : bool)    (* one of [PROFILE_ERRORS] *)
| ProfileFailed.

(** The ticket of the route gate: cancelled at the entry, accepting the facts at the end. *)
Record ticket_view := TicketView { tk_id : nat; tk_gone : bool; tk_accepts : bool }.

(** ** Refusals *)

Record refusal := Refusal {
  rf_status : Z;
  rf_code : str;
  rf_message : str;
  rf_block : option str;                (* the block reason, when it is a block *)
  rf_component : option str;
  rf_audit_code : bool;                 (* the code is passed to [audit] *)
}.

Definition refused (r : refusal) : hook_exn := GuardrailHttpException (rf_status r) (rf_code r) (rf_message r).
Definition audit_code (r : refusal) : option str := if rf_audit_code r then Some (rf_code r) else None.

Definition auth_refusal (e : auth_error) : refusal :=
  match e with
  | MissingToken => Refusal 401 (u8 "E_MISSING_TOKEN") (u8 "missing X-Corp-Auth") None None true
  | _ => let code := classify_auth_error e in
         Refusal 401 code (default (u8 "authentication failed") (dget code AUTH_ERROR_MESSAGES)) None None true
  end.

Definition STORE_UNAVAILABLE : refusal :=
  Refusal 503 (u8 "E_STORE_UNAVAILABLE") (u8 "token store unavailable") None None true.
Definition CHATGPT_AUTH : refusal :=
  Refusal 401 (u8 "E_PROVIDER_AUTH") (u8 "missing or invalid OpenAI bearer authentication") None None true.
Definition ANTHROPIC_AUTH : refusal :=
  Refusal 401 (u8 "E_PROVIDER_AUTH") (u8 "missing or invalid Anthropic OAuth bearer authentication") None None true.
Definition BAD_SHAPE : refusal :=
  Refusal 400 (u8 "E_BAD_REQUEST") (u8 "messages/input must be a list or input must be a string") None None true.
Definition AMBIGUOUS : refusal :=
  Refusal 422 (u8 "E_POLICY_BLOCKED") (u8 "request blocked: payload carries both messages and input")
    (Some (u8 "request:ambiguous_shape")) None false.
Definition profile_refusal (store_down : bool) : refusal :=
  Refusal 503 (u8 "E_PROFILE_UNAVAILABLE") (u8 "profile configuration unavailable") None
    (if store_down then Some (u8 "team_config") else None) false.
Definition PROVIDER_BLOCKED : refusal :=
  Refusal 403 (u8 "E_PROVIDER_BLOCKED") (u8 "request blocked: provider not allowed by policy")
    (Some (u8 "provider:not_allowed")) None false.
Definition stage0_refusal (reason : str) : refusal :=
  Refusal 422 (u8 "E_POLICY_BLOCKED") (u8 "request blocked by content policy") (Some reason) None false.
Definition stage5_refusal (reason : str) : refusal :=
  Refusal 422 (u8 "E_DLP_BLOCKED") (u8 "request blocked by DLP egress policy") (Some reason) None false.
Definition OVERSIZE : refusal :=
  Refusal 422 (u8 "E_OVERSIZE_BLOCKED") (u8 "request blocked: oversize content") (Some (u8 "oversize:blocked")) None false.
Definition TOO_DEEP : refusal :=
  Refusal 400 (u8 "E_BAD_REQUEST") (u8 "request content nesting too deep") None None false.
Definition BAD_ARGUMENTS : refusal :=
  Refusal 400 (u8 "E_BAD_REQUEST") (u8 "unsupported tool-call arguments shape") None None false.
Definition BAD_BLOCK : refusal :=
  Refusal 400 (u8 "E_BAD_REQUEST") (u8 "unsupported content block type") None None false.
Definition CORP_LLM_DOWN : refusal :=
  Refusal 503 (u8 "E_CORP_LLM_DOWN") (u8 "corp sanitization LLM unavailable") None None false.
Definition STALE_SPAN : refusal :=
  Refusal 500 (u8 "E_SPAN_INVALID") (u8 "internal sanitization error") None None false.

Definition DETECTION_FAILURE_MESSAGES : list (str * str) :=
  [(u8 "E_NER_UNAVAILABLE", u8 "NER detector unavailable");
   (u8 "E_CORP_NER_UNAVAILABLE", u8 "corp NER service unavailable");
   (u8 "E_DETECTOR_CONTRACT", u8 "detector contract violation")].

(** [_detection_failure_code]; [None]: not a [NerUnavailableError]. *)
Definition detection_failure_code (e : detect_error) : option str :=
  match e with
  | BatchCountMismatch _ _ | BatchOffsetOutOfRange | BatchTextMismatch _ _ _ => Some (u8 "E_DETECTOR_CONTRACT")
  | CorpNerUnavailableError => Some (u8 "E_CORP_NER_UNAVAILABLE")
  | NerUnavailableError => Some (u8 "E_NER_UNAVAILABLE")
  | DetectorValueError => None
  end.

(** The [except] clauses around a sanitizer call; [None]: none of them.
    [arguments]: the clause for tool-call arguments is there (messages only). *)
Definition sanitize_refusal (arguments : bool) (e : walk_error orch_error) : option refusal :=
  match e with
  | ContentTooDeepError => Some TOO_DEEP
  | UnsanitizableToolArgumentsError _ => if arguments then Some BAD_ARGUMENTS else None
  | UnsanitizableContentBlockError _ => Some BAD_BLOCK
  | UnhashableType => None
  | FromSanitizeOne (OversizeContentError _ _) => Some OVERSIZE
  | FromSanitizeOne OracleError => Some CORP_LLM_DOWN
  | FromSanitizeOne (DetectionError d) =>
    match detection_failure_code d with
    | Some code => Some (Refusal 503 code (default [] (dget code DETECTION_FAILURE_MESSAGES)) None None false)
    | None => None
    end
  | FromSanitizeOne (StaleSpan _) => Some STALE_SPAN
  | FromSanitizeOne _ => None
  end.

(** ** The pipeline *)

Section Pipeline.
Context {U : Unicode} {F : FloatText} {R : PyValues} {S : Type} {MS : MappingStore S}.
Context (cfg : hook_config).
Context (lookup : str -> lookup_outcome) (resolve_profile : str -> profile_outcome).
Context (audit_raises : nat -> bool) (write_information : request_state -> jdict -> jdict * bool).
Context (clock : nat -> Q) (now : Z) (started t_seed : Q).
Context (ticket : option ticket_view) (bound : bool) (call_type : option str) (uuid : str).

Definition count_audits (fx : list hook_effect) : nat :=
  length (List.filter (fun e => match e with FxAudit _ _ => true | _ => false end) fx).

(** [audit(data, None, now, now, status="failed", error_code=...)]. *)
Definition audit_failed (code : option str) : H unit := fun h =>
  let n := count_audits (hk_fx h) in
  (add_fx (FxAudit (hk_req h) code) h, if audit_raises n then Raise UnexpectedError else Ok tt).

(** [_record_failure]. *)
Definition record_failure (code : str) (component : option str) (h : hook) : hook :=
  let h1 := with_req (set_error_code code) h in
  add_fx (FxFailure (default (failure_component code) component))
    (Hook (hk_data h1) (hk_log h1) (hk_req h1) true (hk_fx h1)).

(** [_note_guardrail_information]: a failed write is counted and nothing more. *)
Definition note_guardrail_information (h : hook) : hook :=
  match hk_req h with
  | None => h
  | Some s =>
    let '(d, ok) := write_information s (hk_data h) in
    let h1 := with_data (fun _ => d) h in
    if (ok : bool) then h1 else add_fx (FxFailure AUDIT_COMPONENT) h1
  end.

(** A refusal as the code words each of them: the block reason, the failure, the block
    with its annotation, the audit record, the exception. *)
Definition refuse {A} (r : refusal) : H A :=
  do! _ := hmodify (fun h => match rf_block r with Some b => with_req (set_block_reason b) h | None => h end) in
  do! _ := hmodify (record_failure (rf_code r) (rf_component r)) in
  do! _ := hmodify (fun h => match rf_block r with
                             | Some b => note_guardrail_information (add_fx (FxBlock b) h)
                             | None => h
                             end) in
  do! _ := audit_failed (audit_code r) in
  hraise (refused r).

(** Registers a request state; the ticket is read when it is built. *)
Definition seed_request_state (s : request_state) : H unit := hmodify (put_req (Some s)).

(** *** Up to the state of the request *)

Definition LATE_PRE_CALL : hook_exn :=
  GuardrailHttpException 408 E_CLIENT_DISCONNECTED (u8 "client disconnected").

(** The prologue: the id, the inbound headers, the strip, the ticket. *)
Definition prologue : H (str * headers) :=
  do! data := hget hk_data in
  let '(rid, d1) := ensure_request_id uuid data in
  do! _ := hmodify (with_data (fun _ => d1)) in
  let inbound := extract_auth_headers d1 in
  do! _ := hmodify (with_data strip_request) in
  do! _ := hmodify (with_log strip_corp_token_from_logging_obj) in
  do! _ := (match ticket with
            | Some t => if tk_gone t then
                          do! _ := hmodify (add_fx (FxFailure ROUTE_GATE_COMPONENT)) in hraise LATE_PRE_CALL
                        else hmodify (add_fx (FxBind rid))
            | None => hret tt
            end) in
  hret (rid, inbound).

(** [isinstance(v, int)], where a [bool] is an [int]. *)
Definition int_value (v : json) : option Z :=
  match v with JInt z => Some z | JBool b => Some (if b then 1 else 0) | _ => None end.

Definition clamp_max_tokens (data : jdict) : jdict :=
  match hc_max_output_tokens_cap cfg with
  | None => data
  | Some cap =>
    match int_value (jget (u8 "max_tokens") data) with
    | Some mt => if cap <? mt then dset (u8 "max_tokens") (JInt cap) data else data
    | None => data
    end
  end.

(** [authenticate_headers]. *)
Definition authenticate_headers (inbound : headers) : auth_outcome :=
  let tok := default [] (extract_corp_token inbound) in
  if str_eqb tok [] then AuthRefused MissingToken else
  match lookup tok with
  | LookupRow row => match authenticate_with tok row now with Ok ctx => AuthOk ctx | Raise e => AuthRefused e end
  | LookupUnavailable => AuthUnavailable
  | LookupFailed => AuthFailed
  end.

Definition authenticate (inbound : headers) : H auth_context :=
  match authenticate_headers inbound with
  | AuthOk ctx => hret ctx
  | AuthRefused e => refuse (auth_refusal e)
  | AuthUnavailable => refuse STORE_UNAVAILABLE
  | AuthFailed => hraise UnexpectedError
  end.

Definition ticket_id : option nat := tk_id <$> ticket.

(** A bridge: [selected] is what the header selection returned. *)
Definition bridge (fields : list str) (r : refusal) (s : request_state) (selected : option headers) : H unit :=
  match selected with
  | None => do! _ := seed_request_state s in refuse r
  | Some sel =>
    do! data := hget hk_data in
    do! d1 := hopt (publish_bridge sel data) in
    do! _ := hmodify (with_data (fun _ => foldl (fun d k => ddel k d) d1 fields)) in
    hmodify (with_log scrub_retained_request_metadata)
  end.

Definition bridges (inbound : headers) (provider : str) (s : request_state) : H unit :=
  do! _ := hwhen (hc_forward_chatgpt_auth cfg)
             (bridge [u8 "metadata"] CHATGPT_AUTH s (chatgpt_upstream_headers inbound)) in
  hwhen (hc_forward_anthropic_auth cfg && str_eqb provider (u8 "anthropic"))
    (bridge [u8 "metadata"; u8 "user"] ANTHROPIC_AUTH s (anthropic_upstream_headers (hc_oauth_prefix cfg) inbound)).

(** *** Texts *)

(** [isinstance(msg, (dict, str))] as an item. *)
Definition as_item (v : json) : option request_item :=
  match v with JStr t => Some (ItemText t) | JObj d => Some (ItemDict d) | _ => None end.

Definition is_messages (sh : shape) : bool := bool_decide (sh = ShMessages).

(** The texts of the items, in their order. *)
Definition item_texts (sh : shape) (items : list json) : option (list str) :=
  collect (fun v => match as_item v with Some i => item_text (is_messages sh) i | None => Some [] end) items.

Definition PROMPT_FIELDS : list str := [u8 "system"; u8 "instructions"].

Definition prompt_texts (data : jdict) : option (list str) :=
  collect (fun field => collect_text (jget field data)) PROMPT_FIELDS.

(** [len(t.encode("utf-8"))] summed. *)
Definition total_bytes (texts : list str) : option Z :=
  foldl (fun acc t => match acc, utf8_encode t with Some n, Some b => Some (n + len b) | _, _ => None end) (Some 0) texts.

(** [_guard_unmanaged_input_size]. *)
Definition guard_unmanaged_input_size (threshold : Z) (texts : list str) : H unit :=
  do! n := hopt (total_bytes texts) in
  match should_skip_sanitization n threshold with
  | Raise _ => hraise UnexpectedError
  | Ok over => hwhen over (refuse OVERSIZE)
  end.

(** What stage 0 and stage 5 join: items, an unmanaged [input], prompt fields. *)
Definition scan_texts (item_shape data_shape : shape) (items : list json) (threshold : Z) : H (list str) :=
  do! data := hget hk_data in
  do! texts := hopt (item_texts item_shape items) in
  do! raw := (if bool_decide (data_shape = ShUnmanaged) && dmem (u8 "input") data then
                let leaves := collect_raw_text_leaves (jget (u8 "input") data) in
                do! _ := guard_unmanaged_input_size threshold leaves in hret leaves
              else hret []) in
  do! prompts := hopt (prompt_texts data) in
  hret (texts ++ raw ++ prompts).

Definition NEWLINE : str := [10%N].

Definition stage0 (resolved : @resolved_profile orchestrator) (sh : shape) (items : list json) : H unit :=
  hwhen (hc_block_payloads cfg || pk_block_payloads (rp_policy resolved))
    (do! texts := scan_texts sh sh items (pk_size_threshold (rp_policy resolved)) in
     match classify_block (join NEWLINE texts) with
     | Some reason => refuse (stage0_refusal reason)
     | None => hret tt
     end).

(** The literals of the input, and the bracketless ones when they are used. *)
Definition input_literals (sh : shape) (items : list json) : H alloc :=
  do! data := hget hk_data in
  do! texts := hopt (item_texts sh items) in
  do! prompts := hopt (prompt_texts data) in
  let all := texts ++ prompts in
  do! _ := hmodify (with_req (set_exclusions
             (if hc_forward_chatgpt_auth cfg then concat (map find_unwrapped_placeholder_literals all) else []))) in
  hret (forbid (concat (map find_placeholder_literals all)) alloc_init).

(** *** Sanitizing *)

(** What the sanitizer calls of a request share: the allocator, the mapping store and
    the number of clock readings. *)
Record leaf_state := LeafState { ls_alloc : alloc; ls_store : S; ls_tick : nat }.

Definition lift_stale (r : result stale_span_error str) : result orch_error str :=
  match r with Ok t => Ok t | Raise e => Raise (StaleSpan e) end.

(** The sanitized text under the request's canonical placeholders. *)
Definition rederive (text : str) (r : sanitize_result) (canonical : list pair) : result orch_error str :=
  match sr_applied_spans r with
  | [] => Ok (apply_pairs text canonical)
  | spans => lift_stale (apply_spans text spans canonical)
  end.

(** [sanitize_one]. *)
Definition sanitize_one (resolved : @resolved_profile orchestrator) (team_id request_id : str) (text : str) (ls : leaf_state)
  : result orch_error (sanitize_result * leaf_state) :=
  let n := ls_tick ls in
  let! w := sanitize (rp_orchestrator resolved) text team_id request_id (rp_fingerprint resolved)
              (clock n) (clock (n + 1)) (clock (n + 2)) (ls_store ls) in
  let '(r, st) := w in
  match sr_pairs r with
  | [] => Ok (r, LeafState (ls_alloc ls) st (n + 3))
  | pairs =>
    let '(canonical, al) := remap pairs (elements (sr_rule_originals r)) (ls_alloc ls) in
    let ls' := LeafState al st (n + 3) in
    if bool_decide (canonical = pairs) then Ok (r, ls') else
    let! sanitized_text := rederive text r canonical in
    Ok (SanitizeResult sanitized_text canonical (sr_cache_a_hit r) (sr_skipped r) (sr_block_reason r)
          (sr_applied_spans r) (sr_rule_originals r), ls')
  end.

Section Leaves.
Context (one : str -> leaf_state -> result orch_error (sanitize_result * leaf_state)).

Definition content_of (msg : request_item) : json :=
  match msg with ItemDict d => jget (u8 "content") d | ItemText t => JStr t end.

Definition content_empty (content : json) : bool :=
  match content with JNull | JStr [] => true | _ => false end.

Definition has_sanitizable_data (sh : shape) (msg : request_item) : option bool :=
  match msg with
  | ItemText _ => Some false
  | ItemDict d =>
    if is_messages sh then message_has_tool_calls d
    else match item_text false msg with
         | Some texts => Some (existsb (fun t => negb (str_eqb t [])) texts)
         | None => None
         end
  end.

(** [content.encode("utf-8")] of the size log does not raise. *)
Definition encodable (content : json) : bool :=
  match content with JStr s => match utf8_encode s with Some _ => true | None => false end | _ => true end.

Definition walk_request_item (sh : shape) (msg : request_item) (ls : leaf_state)
  : result (walk_error orch_error) ((json * list sanitize_result) * leaf_state) :=
  match msg with
  | ItemText t =>
    match one t ls with Ok (r, ls') => Ok ((JStr (sr_text r), [r]), ls') | Raise e => Raise (FromSanitizeOne e) end
  | ItemDict d =>
    let! w := (if is_messages sh then sanitize_message one sr_text d ls else sanitize_responses_item one sr_text d ls) in
    let '((d', rs), ls') := w in Ok ((JObj d', rs), ls')
  end.

Definition merge_results (rs : list sanitize_result) : H unit :=
  hmodify (with_req (fun s => foldl merge_into_state s rs)).

(** The [except] clauses. *)
Definition sanitize_failed {A} (arguments : bool) (e : walk_error orch_error) : H A :=
  match sanitize_refusal arguments e with Some r => refuse r | None => hraise UnexpectedError end.

(** One round of the loop over the messages. *)
Definition process_item (sh : shape) (v : json) (ls : leaf_state) : H (json * leaf_state) :=
  match as_item v with
  | None => hret (v, ls)
  | Some msg =>
    do! has := hopt (has_sanitizable_data sh msg) in
    if content_empty (content_of msg) && negb has then hret (v, ls) else
    if negb (encodable (content_of msg)) then hraise UnexpectedError else
    match walk_request_item sh msg ls with
    | Ok ((v', rs), ls') => do! _ := merge_results rs in hret (v', ls')
    | Raise e => sanitize_failed true e
    end
  end.

(** [messages[i] = new_msg] seen in the dictionary that holds the list. *)
Definition write_back (sh : shape) (items : list json) (data : jdict) : jdict :=
  match sh with
  | ShMessages => dset (u8 "messages") (JList items) data
  | ShInputList => dset (u8 "input") (JList items) data
  | _ => data
  end.

Fixpoint messages_loop (sh : shape) (processed todo : list json) (ls : leaf_state) : H (list json * leaf_state) :=
  match todo with
  | [] => hret (processed, ls)
  | v :: rest =>
    do! w := process_item sh v ls in
    do! _ := hmodify (with_data (write_back sh (processed ++ w.1 :: rest))) in
    messages_loop sh (processed ++ [w.1]) rest w.2
  end.

(** The walk of a prompt field, with the identity block held out. *)
Definition sanitize_prompt (system : json) (exempt_index : option nat) (ls : leaf_state)
  : result (walk_error orch_error) ((json * list sanitize_result) * leaf_state) :=
  match exempt_index, system with
  | Some i, JList blocks =>
    let! w := sanitize_content one sr_text (JList (take i blocks ++ drop (i + 1) blocks)) ls in
    let '((rest, rs), ls') := w in
    let new_rest := match rest with JList l => l | _ => [] end in
    Ok ((JList (take i new_rest ++ take 1 (drop i blocks) ++ drop i new_rest), rs), ls')
  | _, _ => sanitize_content one sr_text system ls
  end.

(** [_sanitize_prompt_field]. *)
Definition sanitize_prompt_field (identity_exempt : bool) (field : str) (ls : leaf_state) : H leaf_state :=
  do! data := hget hk_data in
  let system := jget field data in
  if negb (truthy system) then hret ls else
  if negb (encodable system) then hraise UnexpectedError else
  let exempt := identity_exempt && str_eqb field (u8 "system") in
  if exempt && match system with JStr s => is_identity_preamble s | _ => false end then hret ls else
  match sanitize_prompt system (if exempt then leading_identity_block_index system else None) ls with
  | Ok ((v, rs), ls') =>
    do! _ := hmodify (with_data (dset field v)) in
    do! _ := merge_results rs in
    hret ls'
  | Raise e => sanitize_failed false e
  end.

(** From the loop over the messages to the refreshed snapshots. *)
Definition sanitize_request (identity_exempt : bool) (sh : shape) (items : list json) (ls : leaf_state) : H leaf_state :=
  do! w := messages_loop sh [] items ls in
  do! _ := hmodify (with_data (fun d => store_request_items d w.1 sh)) in
  do! ls1 := sanitize_prompt_field identity_exempt (u8 "system") w.2 in
  do! ls2 := sanitize_prompt_field identity_exempt (u8 "instructions") ls1 in
  do! _ := hmodify (fun h => with_log (refresh_logging_snapshot (hk_data h) sh) h) in
  do! _ := hmodify (with_data refresh_request_body_snapshot) in
  hret ls2.
End Leaves.

(** *** Stage 5 and the end *)

(** [for x in v] of a value that is a list, a dict or a string. *)
Definition iter_of (v : json) : option (list json) :=
  match v with
  | JList l => Some l
  | JObj d => Some (map (fun e => JStr e.1) d)
  | JStr s => Some (map (fun c => JStr [c]) s)
  | _ => None
  end.

Definition stage5_scan (canaries : list str) (joined : str) : H (option str) :=
  match Egress.scan (hc_dlp_guard cfg) joined with
  | Some reason => hret (Some reason)
  | None =>
    match canaries with
    | [] => hret None
    | _ => do! g := hopt (dlp_init (hc_compile cfg) canaries false) in hret (Egress.scan g joined)
    end
  end.

Definition stage5_on (p : policy_knobs) : bool :=
  hc_dlp_enabled cfg || pk_dlp_guard p || negb (bool_decide (pk_canary_patterns p = [])).

Definition stage5 (resolved : @resolved_profile orchestrator) (sh : shape) : H unit :=
  let p := rp_policy resolved in
  hwhen (stage5_on p)
    (do! data := hget hk_data in
     let '(v, sh5) := request_items data call_type in
     do! items := hopt (iter_of (py_or v (JList []))) in
     do! texts := scan_texts sh sh5 items (pk_size_threshold p) in
     do! reason := stage5_scan (pk_canary_patterns p) (join NEWLINE texts) in
     match reason with
     | Some b => refuse (stage5_refusal b)
     | None => hret tt
     end).

Definition set_stream_options (options : json) (o : logging_obj) : logging_obj :=
  LoggingObj (lo_model_call_details o) (lo_litellm_params o) (lo_messages o)
    (match lo_stream_options o with Some _ => Some options | None => None end).

(** [_ask_for_stream_usage] with the logging object. *)
Definition ask_usage : H unit :=
  do! data := hget hk_data in
  do! d := hopt (ask_for_stream_usage data) in
  do! _ := hmodify (with_data (fun _ => d)) in
  hmodify (with_log (set_stream_options (jget (u8 "stream_options") d))).

(** [_hand_over]: the mapping goes to the store of the response desanitizer when it is
    bound and there is one, and the state leaves the guardrail. *)
Definition hand_over_state (s : request_state) (h : hook) : hook :=
  let mapping := match rs_mapping s with
                 | [] => []
                 | _ => if bound then response_mapping s (hc_forward_chatgpt_auth cfg) else []
                 end in
  put_req None (add_fx (FxHandOver mapping) h).

Definition finish (s : request_state) : H unit :=
  match ticket with
  | Some t =>
    do! data := hget hk_data in
    let asked := negb (asks_for_stream_usage data call_type) in
    if tk_accepts t then
      do! _ := hmodify (add_fx (FxDeposit (audit_facts s started asked))) in
      do! _ := hwhen (negb asked) ask_usage in
      hmodify (hand_over_state s)
    else hret tt
  | None => hret tt
  end.

(** *** [_pre_call_impl] and [pre_call] *)

Definition provider_allowed (provider : str) (p : policy_knobs) : bool :=
  match pk_allowed_providers p with None => true | Some allowed => bool_decide (provider ∈ allowed) end.

(** From the resolved profile to the end. *)
Definition with_profile (resolved : @resolved_profile orchestrator) (team_id request_id provider : str) (sh : shape)
  (items : list json) (st : S) : H unit :=
  do! _ := hmodify (with_req (set_profile_ids (rp_profile_ids resolved))) in
  if negb (provider_allowed provider (rp_policy resolved)) then refuse PROVIDER_BLOCKED else
  do! al := input_literals sh items in
  do! _ := stage0 resolved sh items in
  let exempt := hc_forward_anthropic_auth cfg && str_eqb provider (u8 "anthropic") in
  do! _ := sanitize_request (sanitize_one resolved team_id request_id) exempt sh items (LeafState al st 0) in
  do! _ := stage5 resolved sh in
  do! _ := hmodify note_guardrail_information in
  do! s := hget hk_req in
  match s with Some s => finish s | None => hret tt end.

(** From the request state to the profile. *)
Definition with_items (ctx : auth_context) (request_id provider model : str) (wall : Q) (sh : shape) (items : list json)
  (st : S) : H unit :=
  do! _ := seed_request_state (fresh_state request_id ctx provider model ticket_id wall) in
  do! data := hget hk_data in
  if dmem (u8 "messages") data && dmem (u8 "input") data then refuse AMBIGUOUS else
  match resolve_profile (ac_team_id ctx) with
  | ProfileRefused store_down => refuse (profile_refusal store_down)
  | ProfileFailed => hraise UnexpectedError
  | ProfileResolved resolved => with_profile resolved (ac_team_id ctx) request_id provider sh items st
  end.

Definition pre_call_impl (wall : Q) (st : S) : H jdict :=
  do! w := prologue in
  let '(request_id, inbound) := w in
  do! data := hget hk_data in
  let model := str_of (py_or (jget (u8 "model") data) (JStr (u8 "unknown"))) in
  let '(raw, sh) := request_items data call_type in
  do! _ := hmodify (with_data clamp_max_tokens) in
  do! ctx := authenticate inbound in
  do! _ := hwhen (hc_strip_inbound_headers cfg) (hmodify (with_data strip_wire_headers)) in
  do! data2 := hget hk_data in
  let provider := hook_detect_provider data2 in
  do! _ := bridges inbound provider (fresh_state request_id ctx provider model ticket_id t_seed) in
  do! _ := (match raw with
            | JList items => with_items ctx request_id provider model wall sh items st
            | _ => refuse BAD_SHAPE
            end) in
  hget hk_data.

Definition INTERNAL : hook_exn := GuardrailHttpException 500 (u8 "E_INTERNAL") (u8 "internal error").

(** [_report_internal_failure]; both parts are guarded. *)
Definition report_internal_failure (h : hook) : hook :=
  let h1 := with_data (fun d => (ensure_request_id uuid d).2) h in
  let h2 := if hk_failed h1 then h1 else record_failure (u8 "E_INTERNAL") None h1 in
  (audit_failed (Some (u8 "E_INTERNAL")) h2).1.

Definition pre_call (wall : Q) (st : S) : H jdict := fun h =>
  match pre_call_impl wall st h with
  | (h1, Raise UnexpectedError) => (report_internal_failure h1, Raise INTERNAL)
  | r => r
  end.
End Pipeline.

(** ** Reasoning about computations *)

(** From a state with [P], [c] ends with [Q] or raises with [E]. *)
Definition triple {A} (P : hook -> Prop) (c : H A) (Q : A -> hook -> Prop) (E : hook_exn -> hook -> Prop) : Prop :=
  forall h, P h -> match c h with (h1, Ok a) => Q a h1 | (h1, Raise e) => E e h1 end.

Lemma triple_bind {A B} P (c : H A) (k : A -> H B) Q1 Q E :
  triple P c Q1 E -> (forall a, triple (Q1 a) (k a) Q E) -> triple P (hbind c k) Q E.
Proof.
  intros Hc Hk h Hp. unfold hbind. specialize (Hc h Hp). destruct (c h) as [h1 [a|e]]; [|done]. exact (Hk a h1 Hc).
Qed.

Lemma triple_ret {A} (P : hook -> Prop) (a : A) (Q : A -> hook -> Prop) E : (forall h, P h -> Q a h) -> triple P (hret a) Q E.
Proof. intros HQ h Hp. exact (HQ h Hp). Qed.

Lemma triple_raise {A} P e (Q : A -> hook -> Prop) (E : hook_exn -> hook -> Prop) : (forall h, P h -> E e h) -> triple P (hraise e) Q E.
Proof. intros HE h Hp. exact (HE h Hp). Qed.

Lemma triple_modify P f (Q : unit -> hook -> Prop) E : (forall h, P h -> Q tt (f h)) -> triple P (hmodify f) Q E.
Proof. intros HQ h Hp. exact (HQ h Hp). Qed.

Lemma triple_get {A} P (f : hook -> A) (Q : A -> hook -> Prop) E : (forall h, P h -> Q (f h) h) -> triple P (hget f) Q E.
Proof. intros HQ h Hp. exact (HQ h Hp). Qed.

(** [c] keeps [I] on every exit, and raises only as [X] allows. *)
Definition keeps {A} (I : hook -> Prop) (X : hook_exn -> hook -> Prop) (c : H A) : Prop :=
  triple I c (fun _ => I) (fun e h => I h /\ X e h).

Lemma keeps_bind {A B} I X (c : H A) (k : A -> H B) : keeps I X c -> (forall a, keeps I X (k a)) -> keeps I X (hbind c k).
Proof. intros Hc Hk. exact (triple_bind _ _ _ _ _ _ Hc Hk). Qed.

Lemma keeps_ret {A} I X (a : A) : keeps I X (hret a).
Proof. by apply triple_ret. Qed.

Lemma keeps_raise {A} I (X : hook_exn -> hook -> Prop) e : (forall h, X e h) -> keeps I X (@hraise A e).
Proof. intros Hx. by apply triple_raise. Qed.

Lemma keeps_modify (I : hook -> Prop) X f : (forall h, I h -> I (f h)) -> keeps I X (hmodify f).
Proof. intros Hf. by apply triple_modify. Qed.

Lemma keeps_get {A} I X (f : hook -> A) : keeps I X (hget f).
Proof. by apply triple_get. Qed.

Lemma keeps_opt {A} I (X : hook_exn -> hook -> Prop) (o : option A) : (forall h, X UnexpectedError h) -> keeps I X (hopt o).
Proof. intros Hx. destruct o; [apply keeps_ret|by apply keeps_raise]. Qed.

Lemma keeps_when I X b c : keeps I X c -> keeps I X (hwhen b c).
Proof. intros Hc. destruct b; [done|apply keeps_ret]. Qed.

Create HintDb hook.
#[export] Hint Resolve keeps_ret keeps_raise keeps_get keeps_opt keeps_when : hook.

(** Splits a computation into its steps; case analysis on what it matches on. *)
Ltac hook_steps :=
  repeat first
    [ assumption
    | solve [auto with hook]
    | match goal with |- keeps _ _ (hbind _ _) => apply keeps_bind; [|intros ?] end
    | apply keeps_when
    | match goal with |- keeps _ _ (match ?x with _ => _ end) => destruct x end
    | match goal with |- keeps _ _ (let '(_, _) := ?x in _) => destruct x end ].

(** ** The token on every exit *)

Definition HEADER_KEYS : list str :=
  [u8 "headers"; u8 "metadata"; u8 "litellm_metadata"; u8 "proxy_server_request"; u8 "litellm_params"; u8 "secret_fields"].

Lemma auth_buckets_ext (d d' : jdict) :
  (forall k, k ∈ HEADER_KEYS -> dict_at k d' = dict_at k d) -> auth_buckets d' = auth_buckets d.
Proof.
  intros E. unfold auth_buckets, opt_headers. cbn [mbind option_bind].
  rewrite !E by (apply memb_true; vm_compute; reflexivity). done.
Qed.

Lemma at_dict_NoDup k f d : NoDup (dkeys d) -> NoDup (dkeys (at_dict k f d)).
Proof. intros Hd. unfold at_dict. destruct (dget k d) as [[]|]; try done. by apply dset_NoDup. Qed.

Section Clean.
Context {U : Unicode}.

(** No place the authentication reads headers from holds the token. *)
Definition clean (d : jdict) : Prop :=
  NoDup (dkeys d) /\ forall b e, b ∈ auth_buckets d -> e ∈ b -> not_corp e.1 = true.

Definition clean_hook (h : hook) : Prop := clean (hk_data h).

Lemma clean_mono d d' :
  clean d -> NoDup (dkeys d') ->
  (forall b, b ∈ auth_buckets d' -> exists b', b' ∈ auth_buckets d /\ forall e, e ∈ b -> e ∈ b') -> clean d'.
Proof. intros [_ Hc] Hn Hb. split; [done|]. intros b e (b' & Hb' & Hs)%Hb He. eauto. Qed.

Lemma clean_same d d' : clean d -> NoDup (dkeys d') -> auth_buckets d' = auth_buckets d -> clean d'.
Proof. intros Hc Hn E. apply (clean_mono d); [done|done|]. rewrite E. eauto. Qed.

Lemma clean_dset k v d : k ∉ HEADER_KEYS -> clean d -> clean (dset k v d).
Proof.
  intros Hk Hc. apply (clean_same d); [done|apply dset_NoDup, Hc|]. apply auth_buckets_ext. intros k' Hk'.
  apply dict_at_dset_ne. intros ->. by apply Hk.
Qed.

Lemma opt_headers_sub k o o' : (o' = None \/ o' = o) -> forall b, b ∈ opt_headers k o' -> b ∈ opt_headers k o.
Proof. intros [->| ->] b; [intros []%not_elem_of_nil|done]. Qed.

(** Deleting the metadata removes a bucket. *)
Lemma clean_ddel k d : k <> u8 "headers" -> clean d -> clean (ddel k d).
Proof.
  intros Hk Hc. apply (clean_mono d); [done|by apply ddel_NoDup, Hc|].
  assert (E : forall k', dict_at k' (ddel k d) = None \/ dict_at k' (ddel k d) = dict_at k' d).
  { intros k'. unfold dict_at. destruct (decide (k' = k)) as [->|]; [left; by rewrite dget_ddel_eq by apply Hc|].
    right. by rewrite dget_ddel_ne. }
  intros b Hb. exists b. split; [|done]. unfold auth_buckets in *. rewrite !elem_of_app in *.
  destruct Hb as [Hb|[Hb|[Hb|[Hb|[Hb|[Hb|Hb]]]]]].
  - left. unfold opt_headers in *. cbn [mbind option_bind] in *.
    destruct (E (u8 "headers")) as [E'|E']; rewrite E' in Hb; [by apply not_elem_of_nil in Hb|done].
  - right. left. revert b Hb. by apply opt_headers_sub.
  - do 2 right. left. revert b Hb. by apply opt_headers_sub.
  - do 3 right. left. revert b Hb. by apply opt_headers_sub.
  - do 4 right. left. revert b Hb. apply opt_headers_sub.
    destruct (E (u8 "litellm_params")) as [-> | ->]; auto.
  - do 5 right. left. revert b Hb. apply opt_headers_sub.
    destruct (E (u8 "litellm_params")) as [-> | ->]; auto.
  - do 6 right. revert b Hb. by apply opt_headers_sub.
Qed.

Lemma put_headers rid top x :
  opt_headers (u8 "headers") (dict_at top (put_in_bucket rid x top)) = opt_headers (u8 "headers") (dict_at top x).
Proof.
  unfold put_in_bucket, dict_at at 1. rewrite dget_dset_eq. unfold opt_headers. cbn.
  rewrite dict_at_dset_ne by discriminate. by destruct (dict_at top x).
Qed.

Lemma dict_at_put rid k top x : k <> top -> dict_at k (put_in_bucket rid x top) = dict_at k x.
Proof. intros Hk. by apply dict_at_dset_ne. Qed.

Lemma auth_buckets_scatter d rid : auth_buckets (scatter d rid) = auth_buckets d.
Proof.
  unfold auth_buckets, scatter. cbn [foldl]. repeat (f_equal; [|]); dict_keys.
  - unfold opt_headers. cbn [mbind option_bind]. dict_keys. rewrite !dict_at_put by discriminate. by dict_keys.
  - rewrite dict_at_put by discriminate. rewrite put_headers. by dict_keys.
  - rewrite put_headers, dict_at_put by discriminate. by dict_keys.
  - rewrite !dict_at_put by discriminate. by dict_keys.
  - rewrite !dict_at_put by discriminate. dict_keys. destruct (dict_at (u8 "litellm_params") d) as [p|]; [|done].
    cbn [fmap option_fmap option_map mbind option_bind]. apply put_headers.
  - rewrite !dict_at_put by discriminate. dict_keys. destruct (dict_at (u8 "litellm_params") d) as [p|]; [|done].
    cbn [fmap option_fmap option_map mbind option_bind]. by rewrite dict_at_put by discriminate.
  - rewrite !dict_at_put by discriminate. by dict_keys.
Qed.

Lemma scatter_NoDup d rid : NoDup (dkeys d) -> NoDup (dkeys (scatter d rid)).
Proof. intros Hd. unfold scatter, put_in_bucket. cbn [foldl]. apply at_dict_NoDup. by repeat apply dset_NoDup. Qed.

Lemma clean_scatter d rid : clean d -> clean (scatter d rid).
Proof. intros Hc. apply (clean_same d); [done|apply scatter_NoDup, Hc|apply auth_buckets_scatter]. Qed.

Lemma strip_NoDup d : NoDup (dkeys d) -> NoDup (dkeys (strip_corp_token_everywhere d)).
Proof.
  intros Hd. unfold strip_corp_token_everywhere, drop_corp_token_from_request, drop_corp_token_from_metadata.
  by repeat apply at_dict_NoDup.
Qed.

Lemma clean_strip `{PyValues} d : NoDup (dkeys d) -> clean (strip_request d).
Proof.
  intros Hd. unfold strip_request. split; [by apply strip_NoDup, dset_NoDup|].
  intros b e. rewrite auth_buckets_strip. intros (b' & -> & _)%list_elem_of_fmap [_ He]%elem_of_lfilter. done.
Qed.

(** Filtering header dicts keeps them clean. *)
Lemma opt_headers_wire k top d b :
  b ∈ opt_headers k (dict_at top (at_dict top (at_dict k drop_wire_headers) d)) ->
  exists b', b' ∈ opt_headers k (dict_at top d) /\ forall e, e ∈ b -> e ∈ b'.
Proof.
  rewrite dict_at_eq. unfold opt_headers. destruct (dict_at top d) as [x|]; cbn; [|intros []%not_elem_of_nil].
  rewrite dict_at_eq. destruct (dict_at k x) as [y|]; cbn; [|intros []%not_elem_of_nil].
  intros ->%list_elem_of_singleton. exists y. split; [by apply list_elem_of_singleton|]. by intros e []%elem_of_lfilter.
Qed.

Lemma clean_wire_at k d :
  k = u8 "litellm_metadata" \/ k = u8 "proxy_server_request" -> clean d ->
  clean (at_dict k (at_dict (u8 "headers") drop_wire_headers) d).
Proof.
  intros Hk Hx. apply (clean_mono d); [done|apply at_dict_NoDup, Hx|]. intros b.
  unfold auth_buckets. rewrite !elem_of_app. unfold opt_headers at 1. cbn [mbind option_bind].
  destruct Hk as [-> | ->]; rewrite !(dict_at_ne (u8 "headers")) by discriminate.
  - rewrite !(dict_at_ne (u8 "metadata")), !(dict_at_ne (u8 "proxy_server_request")), !(dict_at_ne (u8 "litellm_params")),
      !(dict_at_ne (u8 "secret_fields")) by discriminate.
    intros [?|[?|[Hb|Hb]]]; [exists b; rewrite !elem_of_app; tauto|exists b; rewrite !elem_of_app; tauto| |exists b; rewrite !elem_of_app; tauto].
    apply opt_headers_wire in Hb as (b' & ? & ?). exists b'. rewrite !elem_of_app. tauto.
  - rewrite !(dict_at_ne (u8 "metadata")), !(dict_at_ne (u8 "litellm_metadata")), !(dict_at_ne (u8 "litellm_params")),
      !(dict_at_ne (u8 "secret_fields")) by discriminate.
    intros [?|[?|[?|[Hb|Hb]]]]; try (exists b; rewrite !elem_of_app; tauto).
    apply opt_headers_wire in Hb as (b' & ? & ?). exists b'. rewrite !elem_of_app. tauto.
Qed.

Lemma clean_wire d : clean d -> clean (strip_wire_headers d).
Proof.
  intros Hc. unfold strip_wire_headers. apply clean_wire_at; [by left|]. apply clean_wire_at; [by right|].
  apply (clean_mono d); [done|apply at_dict_NoDup, Hc|]. intros b. unfold auth_buckets. rewrite !elem_of_app.
  dict_keys. intros [Hb|Hb]; [|exists b; rewrite !elem_of_app; tauto].
  unfold opt_headers in Hb. cbn [mbind option_bind] in Hb. rewrite dict_at_eq in Hb.
  destruct (dict_at (u8 "headers") d) as [y|] eqn:Ey; cbn in Hb; [|by apply not_elem_of_nil in Hb].
  apply list_elem_of_singleton in Hb as ->. exists y. rewrite !elem_of_app. split.
  - left. unfold opt_headers. cbn. rewrite Ey. by apply list_elem_of_singleton.
  - by intros e []%elem_of_lfilter.
Qed.

Lemma clean_snapshot d : clean d -> clean (refresh_request_body_snapshot d).
Proof.
  intros Hc. apply (clean_same d); [done|apply at_dict_NoDup, Hc|].
  unfold auth_buckets, refresh_request_body_snapshot. repeat (f_equal; [|]); dict_keys; try done.
  - unfold opt_headers. cbn. by dict_keys.
  - unfold opt_headers. destruct (dict_at (u8 "proxy_server_request") d) as [p|]; [|done]. cbn. by dict_keys.
Qed.

Lemma clean_no_token `{PyValues} d : clean d -> extract_corp_token (extract_auth_headers d) = None.
Proof.
  intros [_ Hc]. rewrite <-(extract_stripped (extract_auth_headers d)). f_equal. symmetry. apply filter_all_true.
  intros [n v] Hn. unfold extract_auth_headers in Hn.
  assert (G : forall l acc, (forall e, e ∈ acc -> not_corp e.2.1 = true) -> (forall e : str * json, e ∈ l -> not_corp e.1 = true) ->
                forall e, e ∈ foldl merge_header acc l -> not_corp e.2.1 = true).
  { induction l as [|x l IH]; intros acc Ha Hl; cbn; [done|]. apply IH; [|intros; apply Hl; by right].
    apply Forall_forall, dset_Forall; [apply Hl; by left|by apply Forall_forall]. }
  assert (D : forall (l acc : list (str * str)) e, e ∈ foldl (fun d p => dset p.1 p.2 d) acc l -> e ∈ acc \/ e ∈ l).
  { induction l as [|x l IH]; intros acc e; cbn; [by left|]. intros [He|He]%IH; [|right; by right].
    assert (Forall (fun y => y ∈ acc \/ y = x) (dset x.1 x.2 acc)) as Fa.
    { apply dset_Forall; [right; by destruct x|]. apply Forall_forall. auto. }
    rewrite Forall_forall in Fa. apply Fa in He as [?| ->]; [by left|right; by left]. }
  apply D in Hn as [[]%not_elem_of_nil|Hn]. apply list_elem_of_fmap in Hn as ([k [n' v']] & E & Hm). cbn in E. injection E as <- <-.
  apply G in Hm; [done|by intros ? ?%not_elem_of_nil|].
  intros e (b & Hb & He)%list_elem_of_In%in_concat. apply (Hc b); by apply list_elem_of_In.
Qed.
End Clean.

(** What LiteLLM's writer does to the request: nothing, or one list under its own key
    in a metadata bucket. *)
Definition GUARDRAIL_INFORMATION_KEY : str := u8 "standard_logging_guardrail_information".

Definition writer_ok (write : request_state -> jdict -> jdict * bool) : Prop :=
  forall s d, (write s d).1 = d \/
    exists top info, (top = u8 "metadata" \/ top = u8 "litellm_metadata") /\
      (write s d).1 = dset top (JObj (dset GUARDRAIL_INFORMATION_KEY info (default [] (dict_at top d)))) d.

(** The refusals the pipeline knows: status, code and message are constants. *)
Definition STATIC_ERRORS : list (Z * str * str) :=
  map (fun r => (rf_status r, rf_code r, rf_message r))
    ([auth_refusal MissingToken; auth_refusal InvalidToken; auth_refusal RevokedToken; auth_refusal ExpiredToken;
      STORE_UNAVAILABLE; CHATGPT_AUTH; ANTHROPIC_AUTH; BAD_SHAPE; AMBIGUOUS; profile_refusal true; PROVIDER_BLOCKED;
      stage0_refusal []; stage5_refusal []; OVERSIZE; TOO_DEEP; BAD_ARGUMENTS; BAD_BLOCK; CORP_LLM_DOWN; STALE_SPAN]
     ++ map (fun e => Refusal 503 e.1 e.2 None None false) DETECTION_FAILURE_MESSAGES).

Definition known (r : refusal) : Prop := (rf_status r, rf_code r, rf_message r) ∈ STATIC_ERRORS.

(** The failure of [r] was counted, then its block, then audited: the record gets the error
    code, passed with it or from the state of the request, and the block reason. *)
Definition counted (r : refusal) (h : hook) : Prop :=
  exists fx1 fx2 req,
    hk_fx h = fx1 ++ [FxFailure (default (failure_component (rf_code r)) (rf_component r))] ++ fx2 ++ [FxAudit req (audit_code r)] /\
    (forall b, rf_block r = Some b -> FxBlock b ∈ fx2) /\
    (audit_code r = Some (rf_code r) \/ exists s, req = Some s /\ rs_error_code s = Some (rf_code r)) /\
    (forall b, rf_block r = Some b -> exists s, req = Some s /\ rs_block_reason s = Some b).

(** A refusal before the state of the request is registered. *)
Definition early (r : refusal) : Prop := rf_audit_code r = true /\ rf_block r = None.

Ltac is_known := apply memb_true; vm_compute; reflexivity.

Lemma auth_refusal_known e : known (auth_refusal e).
Proof. unfold known. destruct e; is_known. Qed.

Lemma profile_refusal_known b : known (profile_refusal b).
Proof. unfold known. destruct b; is_known. Qed.

Lemma sanitize_refusal_known arguments e r : sanitize_refusal arguments e = Some r -> known r.
Proof.
  unfold known. destruct e as [|?|?| |[? ?|d| | | | | |?| |?]]; try destruct d; try destruct arguments; intros E;
    vm_compute in E; try discriminate E; injection E as <-; is_known.
Qed.

#[export] Hint Resolve auth_refusal_known profile_refusal_known : hook.
#[export] Hint Extern 1 (known _) => solve [unfold known; is_known] : hook.

Lemma auth_refusal_early e : early (auth_refusal e).
Proof. by destruct e. Qed.
#[export] Hint Resolve auth_refusal_early : hook.
#[export] Hint Extern 1 (early _) => solve [split; reflexivity] : hook.

Section PipelineFacts.
Context {U : Unicode} {F : FloatText} {R : PyValues} {S : Type} {MS : MappingStore S}.
Context (cfg : hook_config).
Context (lookup : str -> lookup_outcome) (resolve_profile : str -> profile_outcome).
Context (audit_raises : nat -> bool) (write_information : request_state -> jdict -> jdict * bool).
Context (clock : nat -> Q) (now : Z) (started t_seed : Q).
Context (ticket : option ticket_view) (bound : bool) (call_type : option str) (uuid : str).

Abbreviation refuse' := (refuse audit_raises write_information).
Abbreviation note' := (note_guardrail_information write_information).
Abbreviation sanitize_request' := (sanitize_request audit_raises write_information).
Abbreviation stage0' := (stage0 cfg audit_raises write_information).
Abbreviation stage5' := (stage5 cfg audit_raises write_information call_type).
Abbreviation with_profile' := (with_profile cfg audit_raises write_information clock started ticket bound call_type).
Abbreviation with_items' :=
  (with_items cfg resolve_profile audit_raises write_information clock started ticket bound call_type).
Abbreviation pre_call_impl' :=
  (pre_call_impl cfg lookup resolve_profile audit_raises write_information clock now started t_seed ticket bound call_type uuid).
Abbreviation pre_call' :=
  (pre_call cfg lookup resolve_profile audit_raises write_information clock now started t_seed ticket bound call_type uuid).

(** *** What a refusal leaves behind *)

Lemma note_fx h : hk_req (note' h) = hk_req h /\ exists fx, hk_fx (note' h) = hk_fx h ++ fx.
Proof.
  unfold note_guardrail_information. destruct (hk_req h) as [s|] eqn:E; [|split; [done|]; exists []; by rewrite app_nil_r].
  destruct (write_information s (hk_data h)) as [d []]; cbn; (split; [done|]); [exists []; by rewrite app_nil_r|eauto].
Qed.

(** Effects are only added, and the mark of a recorded failure stands for a counted one. *)
Definition grown (h h' : hook) : Prop :=
  exists fx, hk_fx h' = hk_fx h ++ fx /\ (hk_failed h' = true -> hk_failed h = true \/ exists c, FxFailure c ∈ fx).

Lemma grown_refl h : grown h h.
Proof. exists []. rewrite app_nil_r. auto. Qed.

Lemma grown_more h h1 h2 fx2 : hk_fx h2 = hk_fx h1 ++ fx2 -> (hk_failed h2 = true -> hk_failed h1 = true \/ exists c, FxFailure c ∈ fx2) ->
  grown h h1 -> grown h h2.
Proof.
  intros E Hf (fx & E1 & Hg). exists (fx ++ fx2). rewrite E, E1, <-app_assoc. split; [done|]. intros H2.
  destruct (Hf H2) as [H1|[c Hc]]; [destruct (Hg H1) as [|[c Hc]]; [by left|]|]; right; exists c; apply elem_of_app; auto.
Qed.

Lemma grown_same h h1 h2 : hk_fx h2 = hk_fx h1 -> hk_failed h2 = hk_failed h1 -> grown h h1 -> grown h h2.
Proof. intros E Ef. apply (grown_more _ _ _ []); [by rewrite app_nil_r|rewrite Ef; auto]. Qed.

Lemma grown_add h h1 e : grown h h1 -> grown h (add_fx e h1).
Proof. apply (grown_more _ _ _ [e]); auto. Qed.

Lemma grown_failure h h1 code component : grown h h1 -> grown h (record_failure code component h1).
Proof. apply (grown_more _ _ _ [FxFailure (default (failure_component code) component)]); [done|]. intros _. right. eexists. by left. Qed.

Lemma grown_note h h1 : grown h h1 -> grown h (note' h1).
Proof.
  unfold note_guardrail_information. destruct (hk_req h1) as [s|]; [|done]. destruct (write_information s (hk_data h1)) as [d []];
    intros Hg; [by apply (grown_same _ h1)|]. apply grown_add. by apply (grown_same _ h1).
Qed.

Lemma grown_refuse {A} h r h1 : grown h h1 -> grown h ((refuse' r : H A) h1).1.
Proof.
  intros Hg. unfold refuse, hbind, hmodify, audit_failed, hraise.
  destruct (audit_raises _); cbn [fst]; apply grown_add; destruct (rf_block r);
    [apply grown_note, grown_add, grown_failure|apply grown_failure|apply grown_note, grown_add, grown_failure|apply grown_failure];
    by apply (grown_same _ h1).
Qed.

Lemma refuse_run {A} r h : is_Some (hk_req h) \/ early r ->
  exists h1, counted r h1 /\ (is_Some (hk_req h) -> is_Some (hk_req h1)) /\
    ((refuse' r : H A) h = (h1, Raise (refused r)) \/ (refuse' r : H A) h = (h1, Raise UnexpectedError)).
Proof.
  intros Hreq. unfold refuse, hbind, hmodify, audit_failed, hraise.
  set (h1 := record_failure _ _ _).
  set (h2 := match rf_block r with Some b => note' (add_fx (FxBlock b) h1) | None => h1 end).
  exists (add_fx (FxAudit (hk_req h2) (audit_code r)) h2).
  assert (Hr : hk_req h2 = hk_req h1) by (unfold h2; destruct (rf_block r); [by rewrite (proj1 (note_fx _))|done]).
  assert (Hs : forall s0, hk_req h = Some s0 -> exists s, hk_req h1 = Some s /\ rs_error_code s = Some (rf_code r) /\ (forall b, rf_block r = Some b -> rs_block_reason s = Some b)).
  { intros s0 Es. unfold h1, record_failure. cbn. destruct (rf_block r) as [b|]; cbn; rewrite Es; cbn; eexists; (split; [done|]); cbn; naive_solver. }
  split; [|split; [|by destruct (audit_raises _); auto]].
  2:{ intros [s0 Es]. destruct (Hs s0 Es) as (s & Es' & _). cbn. rewrite Hr, Es'. by eexists. }
  assert (Hf : exists fx, hk_fx h2 = hk_fx h1 ++ fx /\ forall b, rf_block r = Some b -> FxBlock b ∈ fx).
  { unfold h2. destruct (rf_block r) as [b|]; [|exists []; rewrite app_nil_r; naive_solver].
    destruct (proj2 (note_fx (add_fx (FxBlock b) h1))) as [fx Efx]. exists (FxBlock b :: fx). rewrite Efx. cbn.
    rewrite <-app_assoc. split; [done|]. intros ? [= <-]. by left. }
  destruct Hf as (fx & Ef & Hb). exists (hk_fx h), fx, (hk_req h2). cbn. rewrite Ef. cbn. rewrite Hr.
  split; [|split; [done|]].
  - rewrite <-!app_assoc. cbn. by destruct (rf_block r).
  - destruct Hreq as [[s0 Es]|[He1 He2]].
    + destruct (Hs s0 Es) as (s & -> & Hc & Hbl). split; [right; by exists s|]. intros b Hb'. exists s. auto.
    + split; [left; unfold audit_code; by rewrite He1|]. intros b Hb'. congruence.
Qed.

(** A refusal raises. *)
Lemma refuse_raises {A} r h : exists h1, (refuse' r : H A) h = (h1, Raise (refused r)) \/ (refuse' r : H A) h = (h1, Raise UnexpectedError).
Proof. unfold refuse, hbind, hmodify, audit_failed, hraise. destruct (audit_raises _); eauto. Qed.

(** An invariant of the dictionary alone that every step keeps. *)
Section Invariant.
Context (C : jdict -> Prop).
Context (Hset : forall k v d, k ∉ HEADER_KEYS -> C d -> C (dset k v d)).
Context (Hdel : forall k d, k <> u8 "headers" -> C d -> C (ddel k d)).
Context (Hwire : forall d, C d -> C (strip_wire_headers d)).
Context (Hsnap : forall d, C d -> C (refresh_request_body_snapshot d)).
Context (Hnote : forall s d, C d -> C (write_information s d).1).

Context (X : hook_exn -> hook -> Prop).
Context (Xunexpected : forall h, X UnexpectedError h).
Context (Xrefused : forall r h, known r -> counted r h -> X (refused r) h).

Context (h0 : hook).

(** [C] of the dictionary, with [b] the state of the request is registered, and effects were only added. *)
Abbreviation I b := (fun h => C (hk_data h) /\ (b = true -> is_Some (hk_req h)) /\ grown h0 h).

Lemma keeps_data b f : (forall d, C d -> C (f d)) -> keeps (I b) X (hmodify (with_data f)).
Proof. intros Hf. apply keeps_modify. intros h (Hc & Hr & Hg). split; [by apply Hf|]. split; [exact Hr|by apply (grown_same _ h)]. Qed.

Lemma keeps_frame b (f : hook -> hook) : (forall h, hk_data (f h) = hk_data h) -> (forall h, is_Some (hk_req h) -> is_Some (hk_req (f h))) ->
  (forall h, grown h0 h -> grown h0 (f h)) -> keeps (I b) X (hmodify f).
Proof. intros Hf Hq Hw. apply keeps_modify. intros h (Hc & Hr & Hg). rewrite Hf. split; [done|]. split; [|by apply Hw]. intros Hb. by apply Hq, Hr. Qed.

Ltac keeps_frame :=
  apply keeps_frame; [done|done|intros ? ?; first [by apply grown_add | by eapply grown_same]].

Lemma keeps_req b g : keeps (I b) X (hmodify (with_req g)).
Proof. apply keeps_frame; [done| |intros h; by apply grown_same]. intros h [s Es]. cbn. rewrite Es. by eexists. Qed.

Lemma note_keeps h : C (hk_data h) -> C (hk_data (note' h)).
Proof.
  intros Hc. unfold note_guardrail_information. destruct (hk_req h) as [s|]; [|done].
  pose proof (Hnote s (hk_data h) Hc) as Hn. destruct (write_information s (hk_data h)) as [d ok]. by destruct ok.
Qed.

Lemma refuse_data {A} r h : C (hk_data h) -> C (hk_data ((refuse' r : H A) h).1).
Proof.
  intros Hc. unfold refuse, hbind, hmodify, audit_failed, hraise.
  destruct (audit_raises _); cbn; (destruct (rf_block r); [by apply note_keeps|done]).
Qed.

Lemma refuse_keeps {A} b r : known r -> b = true \/ early r -> keeps (I b) X (refuse' r : H A).
Proof.
  intros Hk Hb h (Hc & Hr & Hg). pose proof (refuse_data (A := A) r h Hc) as Hd.
  pose proof (grown_refuse (A := A) h0 r h Hg) as Hg1. assert (is_Some (hk_req h) \/ early r) as Hq by tauto.
  destruct (refuse_run (A := A) r h Hq) as (h1 & Hcount & Hs & [E|E]); rewrite E in *; cbn in Hd, Hg1; (split; [split; [done|]; tauto|eauto]).
Qed.

Lemma refuse_late {A} r : known r -> keeps (I true) X (refuse' r : H A).
Proof. intros Hk. apply refuse_keeps; auto. Qed.
Lemma refuse_early {A} r : known r -> early r -> keeps (I false) X (refuse' r : H A).
Proof. intros Hk He. apply refuse_keeps; auto. Qed.
#[local] Hint Resolve refuse_late refuse_early keeps_req : hook.

Lemma log_keeps b f : keeps (I b) X (hmodify (with_log f)).
Proof. keeps_frame. Qed.
#[local] Hint Resolve log_keeps : hook.

Lemma dels_keep fields d : u8 "headers" ∉ fields -> C d -> C (foldl (fun d k => ddel k d) d fields).
Proof.
  revert d. induction fields as [|k l IH]; intros d Hf Hc; cbn; [done|]. apply not_elem_of_cons in Hf as [Hk Hf].
  apply IH; [done|]. by apply Hdel.
Qed.

Lemma bridge_keeps fields r s sel :
  known r -> early r -> u8 "headers" ∉ fields -> keeps (I false) X (bridge audit_raises write_information fields r s sel).
Proof.
  intros Hk He Hf. unfold bridge. destruct sel as [sel|].
  - intros h Hc. unfold hbind at 1, hget, hopt, publish_bridge.
    destruct (first_authorization sel) as [a|]; [|done]. cbn. destruct Hc as (Hc & _ & Hg).
    split; [|split; [done|by apply (grown_same _ h)]]. apply dels_keep; [done|].
    by repeat (apply Hset; [apply memb_false; vm_compute; reflexivity|]).
  - apply keeps_bind; [keeps_frame|intros _]. auto with hook.
Qed.

Lemma bridges_keep inbound provider s : keeps (I false) X (bridges cfg audit_raises write_information inbound provider s).
Proof.
  unfold bridges. apply keeps_bind; [|intros _]; apply keeps_when, bridge_keeps; auto with hook;
    apply memb_false; vm_compute; reflexivity.
Qed.

Lemma guard_keeps threshold texts : keeps (I true) X (guard_unmanaged_input_size audit_raises write_information threshold texts).
Proof. unfold guard_unmanaged_input_size. hook_steps. Qed.
#[local] Hint Resolve guard_keeps : hook.

Lemma scan_texts_keeps sh1 sh2 items threshold : keeps (I true) X (scan_texts audit_raises write_information sh1 sh2 items threshold).
Proof. unfold scan_texts. hook_steps. Qed.
#[local] Hint Resolve scan_texts_keeps : hook.

Lemma stage0_keeps resolved sh items : keeps (I true) X (stage0' resolved sh items).
Proof. unfold stage0. hook_steps. Qed.

Lemma stage5_keeps resolved sh : keeps (I true) X (stage5' resolved sh).
Proof. unfold stage5, stage5_scan. hook_steps. Qed.

Lemma literals_keep sh items : keeps (I true) X (input_literals cfg sh items).
Proof. unfold input_literals. hook_steps. Qed.

Lemma merge_keeps rs : keeps (I true) X (merge_results rs).
Proof. apply keeps_req. Qed.
#[local] Hint Resolve merge_keeps stage0_keeps stage5_keeps literals_keep : hook.

Section Leaves.
Context (one : str -> @leaf_state S -> result orch_error (sanitize_result * @leaf_state S)).

Lemma failed_keeps {A} arguments e : keeps (I true) X (sanitize_failed audit_raises write_information arguments e : H A).
Proof.
  unfold sanitize_failed. destruct (sanitize_refusal arguments e) as [r|] eqn:E; [|auto with hook].
  apply refuse_late. by eapply sanitize_refusal_known.
Qed.
#[local] Hint Resolve failed_keeps : hook.

Lemma process_keeps sh v ls : keeps (I true) X (process_item audit_raises write_information one sh v ls).
Proof. unfold process_item. hook_steps. Qed.

Lemma write_back_keeps sh items : keeps (I true) X (hmodify (with_data (write_back sh items))).
Proof.
  apply keeps_data. intros d Hc.
  destruct sh; cbn; try done; (apply Hset; [apply memb_false; vm_compute; reflexivity|done]).
Qed.
#[local] Hint Resolve process_keeps write_back_keeps : hook.

Lemma loop_keeps sh processed todo ls : keeps (I true) X (messages_loop audit_raises write_information one sh processed todo ls).
Proof. revert processed ls. induction todo as [|v todo IH]; intros processed ls; cbn [messages_loop]; hook_steps. Qed.

Lemma prompt_keeps exempt field ls :
  field ∉ HEADER_KEYS -> keeps (I true) X (sanitize_prompt_field audit_raises write_information one exempt field ls).
Proof.
  intros Hf. unfold sanitize_prompt_field.
  assert (forall v, keeps (I true) X (hmodify (with_data (dset field v)))) by (intros v; apply keeps_data; intros; by apply Hset).
  hook_steps.
Qed.

Lemma sanitize_request_keeps exempt sh items ls : keeps (I true) X (sanitize_request' one exempt sh items ls).
Proof.
  unfold sanitize_request. apply keeps_bind; [apply loop_keeps|intros w].
  apply keeps_bind.
  { apply keeps_data. intros d Hc.
    destruct sh; cbn; try done; (apply Hset; [apply memb_false; vm_compute; reflexivity|done]). }
  intros _. apply keeps_bind; [apply prompt_keeps; apply memb_false; vm_compute; reflexivity|intros ls1].
  apply keeps_bind; [apply prompt_keeps; apply memb_false; vm_compute; reflexivity|intros ls2].
  apply keeps_bind; [keeps_frame|intros _]. apply keeps_bind; [by apply keeps_data|intros _]. apply keeps_ret.
Qed.
End Leaves.
#[local] Hint Resolve sanitize_request_keeps : hook.

Lemma ask_usage_keeps b : keeps (I b) X ask_usage.
Proof.
  intros h (Hc & Hr & Hg). unfold ask_usage, hbind at 1, hget. unfold hopt, ask_for_stream_usage.
  destruct (dict_or_empty _) as [options|]; [|done]. cbn. split; [|split; [done|by apply (grown_same _ h)]].
  apply Hset; [apply memb_false; vm_compute; reflexivity|].
  destruct (dmem _ _); [|done]. apply Hset; [apply memb_false; vm_compute; reflexivity|done].
Qed.

(** At the end the state leaves the guardrail. *)
Lemma finish_ends s : triple (I true) (finish cfg started ticket bound call_type s) (fun _ => I false) (fun e h => I false h /\ X e h).
Proof.
  assert (forall h, I true h -> I false h) as Hi by (by intros h (? & ? & ?)).
  unfold finish. destruct ticket as [t|]; [|by apply triple_ret]. apply (triple_bind _ _ _ (fun _ => I false)); [by apply triple_get|intros data].
  destruct (tk_accepts t); [|by apply triple_ret]. apply keeps_bind; [keeps_frame|intros _].
  apply keeps_bind; [apply keeps_when, ask_usage_keeps|intros _]. apply keeps_modify. intros h (? & ? & ?).
  split; [done|]. split; [done|]. first [by apply (grown_same _ h) | apply grown_add; by apply (grown_same _ h)].
Qed.

(** What keeps the state registered may be followed by what does not. *)
Lemma keeps_then {A B} (c : H A) (k : A -> H B) : keeps (I true) X c ->
  (forall a, triple (I true) (k a) (fun _ => I false) (fun e h => I false h /\ X e h)) ->
  triple (I true) (hbind c k) (fun _ => I false) (fun e h => I false h /\ X e h).
Proof.
  intros Hc Hk h Hh. unfold hbind. specialize (Hc h Hh). destruct (c h) as [h1 [a|e]]; [exact (Hk a h1 Hc)|]. by destruct Hc as [(? & _ & ?) ?].
Qed.

Lemma keeps_ends {A} (c : H A) : keeps (I true) X c -> triple (I true) c (fun _ => I false) (fun e h => I false h /\ X e h).
Proof. intros Hc h Hh. specialize (Hc h Hh). destruct (c h) as [h1 [a|e]]; [by destruct Hc as (? & _ & ?)|]. by destruct Hc as [(? & _ & ?) ?]. Qed.

Lemma note_step_keeps : keeps (I true) X (hmodify note').
Proof. apply keeps_modify. intros h (Hc & Hr & Hg). split; [by apply note_keeps|]. split; [by rewrite (proj1 (note_fx h))|by apply grown_note]. Qed.

Lemma with_profile_ends resolved team rid provider sh items st :
  triple (I true) (with_profile' resolved team rid provider sh items st) (fun _ => I false) (fun e h => I false h /\ X e h).
Proof.
  unfold with_profile. apply keeps_then; [apply keeps_req|intros _].
  destruct (negb _); [apply keeps_ends; auto with hook|]. apply keeps_then; [auto with hook|intros al].
  apply keeps_then; [auto with hook|intros _]. apply keeps_then; [auto with hook|intros _].
  apply keeps_then; [auto with hook|intros _]. apply keeps_then; [apply note_step_keeps|intros _].
  apply keeps_then; [apply keeps_get|intros [s|]]; [apply finish_ends|apply keeps_ends, keeps_ret].
Qed.

Lemma with_items_keeps ctx rid provider model wall sh items st : keeps (I false) X (with_items' ctx rid provider model wall sh items st).
Proof.
  unfold with_items. apply (triple_bind _ _ _ (fun _ => I true)).
  { apply triple_modify. intros h (Hc & _ & Hg). split; [done|]. split; [intros _; by eexists|by apply (grown_same _ h)]. }
  intros _. apply keeps_then; [apply keeps_get|intros data].
  destruct (dmem _ data && dmem _ data); [apply keeps_ends; auto with hook|].
  destruct (resolve_profile _); [apply with_profile_ends|apply keeps_ends; auto with hook|by apply keeps_ends, keeps_raise].
Qed.

Lemma authenticate_keeps inbound : keeps (I false) X (authenticate lookup audit_raises write_information now inbound).
Proof. unfold authenticate. hook_steps. Qed.

Lemma clamp_keeps : keeps (I false) X (hmodify (with_data (clamp_max_tokens cfg))).
Proof.
  apply keeps_data. intros d Hc. unfold clamp_max_tokens. destruct (hc_max_output_tokens_cap cfg); [|done].
  destruct (int_value _); [|done]. destruct (_ <? _); [|done]. apply Hset; [apply memb_false; vm_compute; reflexivity|done].
Qed.

(** The whole pipeline, from a prologue that ends in [C]. *)
Lemma impl_keeps P wall st :
  triple P (prologue ticket uuid) (fun _ => I false) (fun e h => I false h /\ X e h) ->
  triple P (pre_call_impl' wall st) (fun _ => I false) (fun e h => I false h /\ X e h).
Proof.
  intros Hp. apply (triple_bind _ _ _ _ _ _ Hp). intros [rid inbound].
  apply keeps_bind; [apply keeps_get|intros data]. destruct (request_items data call_type) as [raw sh].
  apply keeps_bind; [apply clamp_keeps|intros _]. apply keeps_bind; [apply authenticate_keeps|intros ctx].
  apply keeps_bind; [by apply keeps_when, keeps_data|intros _]. apply keeps_bind; [apply keeps_get|intros data2].
  apply keeps_bind; [apply bridges_keep|intros _].
  apply keeps_bind; [destruct raw; auto with hook; apply with_items_keeps|intros _]. apply keeps_get.
Qed.
End Invariant.

(** *** The prologue *)


(** The pre-call came after the ticket of the request was closed: the component of the
    route gate is counted, and nothing else is done. *)
Definition late (h h1 : hook) : Prop :=
  (exists t, ticket = Some t /\ tk_gone t = true) /\ hk_fx h1 = hk_fx h ++ [FxFailure ROUTE_GATE_COMPONENT].

Lemma prologue_run h :
  let d := strip_request (scatter (hk_data h) (ensure_request_id uuid (hk_data h)).1) in
  let h1 := (prologue ticket uuid h).1 in
  hk_data h1 = d /\ hk_req h1 = hk_req h /\ grown h h1 /\
  ((prologue ticket uuid h).2 = Raise LATE_PRE_CALL /\ late h h1 \/
   (prologue ticket uuid h).2 = Ok ((ensure_request_id uuid (hk_data h)).1,
                                   extract_auth_headers (scatter (hk_data h) (ensure_request_id uuid (hk_data h)).1))).
Proof.
  unfold late, prologue, hbind, hget, hmodify, ensure_request_id. cbn.
  pose proof (grown_refl h) as Hg.
  destruct ticket as [t|]; [destruct (tk_gone t) eqn:Eg|]; cbn; (split; [done|]); (split; [done|]).
  - split; [eapply (grown_more _ h); [reflexivity|by left|done]|]. left. split; [done|]. split; [by exists t|done].
  - split; [eapply (grown_more _ h); [reflexivity|by left|done]|]. by right.
  - split; [by apply (grown_same _ h)|]. by right.
Qed.

Lemma clean_note : writer_ok write_information -> forall s d, clean d -> clean (write_information s d).1.
Proof.
  intros Hw s d Hc. destruct (Hw s d) as [-> | (top & info & Ht & ->)]; [done|].
  apply (clean_same d); [done|apply dset_NoDup, Hc|].
  assert (T : opt_headers (u8 "headers") (dict_at top (dset top (JObj (dset GUARDRAIL_INFORMATION_KEY info (default [] (dict_at top d)))) d))
              = opt_headers (u8 "headers") (dict_at top d)).
  { unfold dict_at at 1. rewrite dget_dset_eq. unfold opt_headers. cbn. rewrite dict_at_dset_ne by discriminate.
    by destruct (dict_at top d). }
  unfold auth_buckets. destruct Ht as [-> | ->]; repeat (f_equal; [|]);
    first [exact T | unfold opt_headers; cbn [mbind option_bind]; by dict_keys].
Qed.

(** C5: On every exit of a pre-call, accepted, refused or failed, the dictionary that
    LiteLLM goes on with (or hands to its failure hooks) holds no corporate token at any
    place headers are read from. *)
Theorem token_gone_on_every_exit wall st h :
  writer_ok write_information -> NoDup (dkeys (hk_data h)) ->
  extract_corp_token (extract_auth_headers (hk_data (pre_call' wall st h).1)) = None.
Proof.
  intros Hw Hn. apply clean_no_token.
  assert (T : clean (hk_data (pre_call_impl' wall st h).1)).
  { assert (Hp : triple (fun x => x = h) (prologue ticket uuid) (fun _ h1 => clean (hk_data h1) /\ (false = true -> is_Some (hk_req h1)) /\ grown h h1)
      (fun e h1 => (clean (hk_data h1) /\ (false = true -> is_Some (hk_req h1)) /\ grown h h1) /\ True)).
    { intros h0 ->. destruct (prologue_run h) as (Hd & _ & Hg & _).
      assert (clean (hk_data (prologue ticket uuid h).1)) by (rewrite Hd; by apply clean_strip, scatter_NoDup).
      by destruct (prologue ticket uuid h) as [h1 []]. }
    pose proof (impl_keeps clean clean_dset clean_ddel clean_wire clean_snapshot (clean_note Hw) (fun _ _ => True)
      ltac:(done) ltac:(done) h (fun x => x = h) wall st Hp h eq_refl) as T.
    destruct (pre_call_impl' wall st h) as [h1 [d|e]]; [apply T|apply T]. }
  unfold pre_call. destruct (pre_call_impl' wall st h) as [h1 [d|[| ]]]; [done|done|].
  unfold report_internal_failure, audit_failed, ensure_request_id. cbn [fst].
  by destruct (hk_failed _); cbn; apply clean_scatter.
Qed.




(** *** The accepted request *)

Lemma hbind_ok {A B} (c : H A) (k : A -> H B) h h2 b :
  hbind c k h = (h2, Ok b) -> exists h1 a, c h = (h1, Ok a) /\ k a h1 = (h2, Ok b).
Proof. unfold hbind. destruct (c h) as [h1 [a|e]]; [eauto|done]. Qed.

Lemma hmodify_ok f h h1 a : hmodify f h = (h1, Ok a) -> h1 = f h.
Proof. by intros [= <- _]. Qed.

Lemma hget_ok {A} (f : hook -> A) h h1 a : hget f h = (h1, Ok a) -> h1 = h /\ a = f h.
Proof. by intros [= <- <-]. Qed.

Lemma hret_ok {A} (a b : A) h h1 : hret a h = (h1, Ok b) -> h1 = h /\ b = a.
Proof. by intros [= <- <-]. Qed.

Lemma hopt_ok {A} (o : option A) h h1 a : hopt o h = (h1, Ok a) -> h1 = h /\ o = Some a.
Proof. destruct o; [by intros [= <- <-]|done]. Qed.

Lemma refuse_not_ok {A} r h h1 (a : A) : (refuse' r : H A) h = (h1, Ok a) -> False.
Proof. destruct (refuse_raises (A := A) r h) as (h2 & [-> | ->]); done. Qed.

Lemma failed_not_ok {A} arguments e h h1 (a : A) :
  (sanitize_failed audit_raises write_information arguments e : H A) h = (h1, Ok a) -> False.
Proof. unfold sanitize_failed. destruct (sanitize_refusal _ _); [apply refuse_not_ok|done]. Qed.

Lemma hwhen_ok b c h h1 a : hwhen b c h = (h1, Ok a) -> (b = true /\ c h = (h1, Ok tt)) \/ (b = false /\ h1 = h).
Proof. destruct a, b; cbn; [by left|]. intros [= <-]. by right. Qed.

(** Opens the first step of an accepted run. *)
Tactic Notation "run_step" ident(E) "as" ident(h) ident(a) ident(E1) := apply hbind_ok in E as (h & a & E1 & E).

(** The two dictionaries agree outside [ks]. *)
Definition agree_but (ks : list str) (d d' : jdict) : Prop := forall k, k ∉ ks -> dget k d' = dget k d.

Lemma agree_dset k v d : agree_but [k] d (dset k v d).
Proof. intros k' Hk. rewrite dget_dset_ne; [done|]. intros ->. apply Hk. by left. Qed.

(** The keys the pipeline writes beside the texts. *)
Definition SIDE_KEYS : list str :=
  HEADER_KEYS ++ [REQUEST_ID_KEY; u8 "max_tokens"; u8 "api_key"; u8 "extra_headers"; u8 "user"; u8 "stream_options";
                  LITELLM_STRIP_STREAM_USAGE].

Definition same_texts : jdict -> jdict -> Prop := agree_but SIDE_KEYS.

Lemma same_refl d : same_texts d d.
Proof. done. Qed.

Lemma same_trans d d' d'' : same_texts d d' -> same_texts d' d'' -> same_texts d d''.
Proof. intros H1 H2 k Hk. by rewrite H2, H1. Qed.

Lemma same_dset k v d d' : k ∈ SIDE_KEYS -> same_texts d d' -> same_texts d (dset k v d').
Proof. intros Hk Hs. apply (same_trans _ d'); [done|]. intros k' Hk'. apply dget_dset_ne. by intros ->. Qed.

Lemma same_at k f d d' : k ∈ SIDE_KEYS -> same_texts d d' -> same_texts d (at_dict k f d').
Proof. intros Hk Hs. apply (same_trans _ d'); [done|]. intros k' Hk'. apply dget_at_dict_ne. by intros ->. Qed.

Lemma same_ddel k d d' : k ∈ SIDE_KEYS -> same_texts d d' -> same_texts d (ddel k d').
Proof. intros Hk Hs. apply (same_trans _ d'); [done|]. intros k' Hk'. apply dget_ddel_ne. by intros ->. Qed.

Ltac side_key := apply memb_true; vm_compute; reflexivity.
Ltac same_side :=
  repeat first [apply same_refl | apply same_dset; [side_key|] | apply same_at; [side_key|] | apply same_ddel; [side_key|]].

Lemma scatter_same d rid : same_texts d (scatter d rid).
Proof. unfold scatter, put_in_bucket. cbn [foldl]. same_side. Qed.

Lemma strip_same d : same_texts d (strip_request d).
Proof.
  unfold strip_request, strip_corp_token_everywhere, drop_corp_token_from_request, drop_corp_token_from_metadata. same_side.
Qed.

Lemma clamp_same d : same_texts d (clamp_max_tokens cfg d).
Proof.
  unfold clamp_max_tokens. destruct (hc_max_output_tokens_cap cfg); [|done]. destruct (int_value _); [|done].
  destruct (_ <? _); [same_side|done].
Qed.

Lemma wire_same d : same_texts d (strip_wire_headers d).
Proof. unfold strip_wire_headers. same_side. Qed.

Lemma bridge_ok_same fields r s sel h h1 a :
  Forall (fun k => k ∈ SIDE_KEYS) fields ->
  bridge audit_raises write_information fields r s sel h = (h1, Ok a) -> same_texts (hk_data h) (hk_data h1).
Proof.
  intros Hf E. unfold bridge in E. destruct sel as [sel|]; [|run_step E as h2 u E1; by apply refuse_not_ok in E].
  run_step E as h2 d E1. apply hget_ok in E1 as [-> ->]. run_step E as h3 d1 E1. apply hopt_ok in E1 as [-> Ep].
  run_step E as h4 u E1. apply hmodify_ok in E1 as ->. apply hmodify_ok in E as ->. cbn.
  unfold publish_bridge in Ep. destruct (first_authorization sel); [|done]. injection Ep as <-.
  assert (G : forall fields d, Forall (fun k => k ∈ SIDE_KEYS) fields -> same_texts (hk_data h) d ->
                same_texts (hk_data h) (foldl (fun d k => ddel k d) d fields)).
  { clear. induction fields as [|k l IH]; intros d Hl Hd; cbn; [done|]. inversion Hl; subst. apply IH; [done|]. by apply same_ddel. }
  apply G; [done|]. same_side.
Qed.

Lemma bridges_ok_same inbound provider s h h1 a :
  bridges cfg audit_raises write_information inbound provider s h = (h1, Ok a) -> same_texts (hk_data h) (hk_data h1).
Proof.
  unfold bridges. intros E. run_step E as h2 u E1.
  assert (same_texts (hk_data h) (hk_data h2)).
  { apply hwhen_ok in E1 as [[_ E1]|[_ ->]]; [|done]. apply bridge_ok_same in E1; [done|]. repeat constructor; side_key. }
  apply (same_trans _ (hk_data h2)); [done|].
  apply hwhen_ok in E as [[_ E]|[_ ->]]; [|done]. apply bridge_ok_same in E; [done|]. repeat constructor; side_key.
Qed.

Lemma note_same h : writer_ok write_information -> same_texts (hk_data h) (hk_data (note' h)).
Proof.
  intros Hw. unfold note_guardrail_information. destruct (hk_req h) as [s|]; [|done].
  destruct (Hw s (hk_data h)) as [E|(top & info & Ht & E)]; destruct (write_information s (hk_data h)) as [d ok]; cbn in E; subst d.
  - by destruct ok.
  - assert (same_texts (hk_data h) (dset top (JObj (dset GUARDRAIL_INFORMATION_KEY info (default [] (dict_at top (hk_data h))))) (hk_data h))).
    { apply same_dset; [|done]. destruct Ht as [-> | ->]; side_key. }
    by destruct ok.
Qed.

Lemma finish_ok_same s h h1 a : finish cfg started ticket bound call_type s h = (h1, Ok a) -> same_texts (hk_data h) (hk_data h1).
Proof.
  unfold finish. destruct ticket as [t|]; [|by intros [= <- _]]. intros E. run_step E as h2 d E1. apply hget_ok in E1 as [-> ->].
  destruct (tk_accepts t); [|by injection E as <- _]. run_step E as h2 u E1. apply hmodify_ok in E1 as ->.
  run_step E as h3 v E1. apply hmodify_ok in E as ->. cbn. change (hk_data (put_req None (add_fx _ h3))) with (hk_data h3).
  apply hwhen_ok in E1 as [[_ E1]|[_ ->]]; [|done]. unfold ask_usage in E1. run_step E1 as h4 d E2. apply hget_ok in E2 as [-> ->].
  run_step E1 as h5 d E2. apply hopt_ok in E2 as [-> E2]. run_step E1 as h6 w E3. apply hmodify_ok in E3 as ->. apply hmodify_ok in E1 as ->.
  cbn. cbn in E2. unfold ask_for_stream_usage in E2. destruct (dict_or_empty _); [|done]. injection E2 as <-.
  apply same_dset; [side_key|]. destruct (dmem _ _); same_side.
Qed.

(** *** Scans *)

(** The texts a scan joins, read off a dictionary. *)
Definition scanned (item_shape data_shape : shape) (items : list json) (data : jdict) : option (list str) :=
  match item_texts item_shape items, prompt_texts data with
  | Some texts, Some prompts =>
    Some (texts ++ (if bool_decide (data_shape = ShUnmanaged) && dmem (u8 "input") data
                    then collect_raw_text_leaves (jget (u8 "input") data) else []) ++ prompts)
  | _, _ => None
  end.

Lemma guard_ok threshold texts h h1 a :
  guard_unmanaged_input_size audit_raises write_information threshold texts h = (h1, Ok a) -> h1 = h.
Proof.
  unfold guard_unmanaged_input_size. intros E. run_step E as h2 n E1. apply hopt_ok in E1 as [-> _].
  destruct (should_skip_sanitization n threshold); [|done]. apply hwhen_ok in E as [[_ E]|[_ ->]]; [|done].
  by apply refuse_not_ok in E.
Qed.

Lemma scan_texts_ok sh1 sh2 items threshold h h1 texts :
  scan_texts audit_raises write_information sh1 sh2 items threshold h = (h1, Ok texts) ->
  h1 = h /\ scanned sh1 sh2 items (hk_data h) = Some texts.
Proof.
  unfold scan_texts, scanned. intros E. run_step E as h2 data E1. apply hget_ok in E1 as [-> ->].
  run_step E as h3 ts E1. apply hopt_ok in E1 as [-> ->]. run_step E as h4 raw E1. run_step E as h5 ps E2.
  apply hopt_ok in E2 as [-> E2]. apply hret_ok in E as [-> ->]. rewrite E2.
  destruct (_ && _); [|by apply hret_ok in E1 as [-> ->]].
  run_step E1 as h6 u E3. apply guard_ok in E3 as ->. by apply hret_ok in E1 as [-> ->].
Qed.

Lemma stage0_ok resolved sh items h h1 a :
  stage0' resolved sh items h = (h1, Ok a) ->
  h1 = h /\ (hc_block_payloads cfg || pk_block_payloads (rp_policy resolved) = true ->
             exists texts, scanned sh sh items (hk_data h) = Some texts /\ classify_block (join NEWLINE texts) = None).
Proof.
  unfold stage0. intros E. apply hwhen_ok in E as [[-> E]|[-> ->]]; [|done].
  run_step E as h2 texts E1. apply scan_texts_ok in E1 as [-> Hs].
  destruct (classify_block _) eqn:Ec; [by apply refuse_not_ok in E|]. apply hret_ok in E as [-> _]. eauto.
Qed.

(** What leaves, read off the final dictionary as stage 5 reads it. *)
Definition outgoing (sh : shape) (data : jdict) : option (list str) :=
  let '(v, sh5) := request_items data call_type in
  match iter_of (py_or v (JList [])) with Some items => scanned sh sh5 items data | None => None end.

(** No canary of the guard or of the policy and no raw secret in the joined text. *)
Definition dlp_clean (p : policy_knobs) (joined : str) : Prop :=
  Egress.scan (hc_dlp_guard cfg) joined = None /\
  (pk_canary_patterns p <> [] -> exists g, dlp_init (hc_compile cfg) (pk_canary_patterns p) false = Some g /\ Egress.scan g joined = None).

Lemma stage5_ok resolved sh h h1 a :
  stage5' resolved sh h = (h1, Ok a) ->
  h1 = h /\ (stage5_on cfg (rp_policy resolved) = true ->
             exists texts, outgoing sh (hk_data h) = Some texts /\ dlp_clean (rp_policy resolved) (join NEWLINE texts)).
Proof.
  unfold stage5. cbn zeta. intros E. apply hwhen_ok in E as [[-> E]|[-> ->]]; [|done].
  run_step E as h2 data E1. apply hget_ok in E1 as [-> ->].
  destruct (request_items (hk_data h) call_type) as [v sh5] eqn:Er.
  run_step E as h3 items E1. apply hopt_ok in E1 as [-> Ei]. run_step E as h4 texts E1. apply scan_texts_ok in E1 as [-> Hs].
  run_step E as h5 reason E1. destruct reason as [b|]; [by apply refuse_not_ok in E|]. apply hret_ok in E as [-> _].
  unfold stage5_scan in E1. destruct (Egress.scan (hc_dlp_guard cfg) (join NEWLINE texts)) eqn:Eg; [by apply hret_ok in E1 as [_ ?]|].
  assert (G : outgoing sh (hk_data h) = Some texts) by (unfold outgoing; by rewrite Er, Ei).
  destruct (pk_canary_patterns (rp_policy resolved)) as [|c cs] eqn:Ec.
  - apply hret_ok in E1 as [-> _]. split; [done|]. intros _. exists texts. split; [done|]. split; [done|]. congruence.
  - run_step E1 as h6 g E2. apply hopt_ok in E2 as [-> Eg2]. apply hret_ok in E1 as [-> Eg3]. split; [done|]. intros _.
    exists texts. split; [done|]. split; [done|]. rewrite Ec. eauto.
Qed.

(** *** The sanitizer's part *)

Section Sanitized.
Context (one : str -> @leaf_state S -> result orch_error (sanitize_result * @leaf_state S)).

(** [v'] replaced [v] in the list: the sanitizer's walk of the whole item, or an item
    without text. *)
Inductive item_sanitized (sh : shape) : json -> json -> Prop :=
| item_no_text v : as_item v = None -> item_sanitized sh v v
| item_empty v msg : as_item v = Some msg -> content_empty (content_of msg) = true ->
    has_sanitizable_data sh msg = Some false -> item_sanitized sh v v
| item_walked v v' msg ls rs ls' : as_item v = Some msg -> walk_request_item one sh msg ls = Ok ((v', rs), ls') ->
    item_sanitized sh v v'.

Inductive prompt_sanitized (exempt : bool) : json -> json -> Prop :=
| prompt_empty v : truthy v = false -> prompt_sanitized exempt v v
| prompt_identity s : exempt = true -> is_identity_preamble s = true -> prompt_sanitized exempt (JStr s) (JStr s)
| prompt_walked v v' ls rs ls' :
    sanitize_prompt one v (if exempt then leading_identity_block_index v else None) ls = Ok ((v', rs), ls') ->
    prompt_sanitized exempt v v'.

Lemma process_ok sh v ls h h1 w :
  process_item audit_raises write_information one sh v ls h = (h1, Ok w) ->
  item_sanitized sh v w.1 /\ hk_data h1 = hk_data h.
Proof.
  unfold process_item. destruct (as_item v) as [msg|] eqn:Em.
  2: { intros [-> ->]%hret_ok. split; [by apply item_no_text|done]. }
  intros E. run_step E as h2 has E1. apply hopt_ok in E1 as [-> Eh].
  destruct (content_empty (content_of msg) && negb has) eqn:Ee.
  { apply andb_true_iff in Ee as [Ee Eh2]. apply hret_ok in E as [-> ->]. split; [|done]. eapply item_empty; [done..|].
    rewrite Eh. by destruct has. }
  destruct (negb (encodable _)); [done|]. destruct (walk_request_item one sh msg ls) as [[[v' rs] ls']|e] eqn:Ew.
  - run_step E as h3 u E1. apply hmodify_ok in E1 as ->. apply hret_ok in E as [-> ->]. split; [by eapply item_walked|done].
  - by apply failed_not_ok in E.
Qed.

(** The key of the dictionary the loop writes to. *)
Definition target (sh : shape) : list str :=
  match sh with ShMessages => [u8 "messages"] | ShInputList => [u8 "input"] | _ => [] end.

Lemma write_back_agree sh items d : agree_but (target sh) d (write_back sh items d).
Proof. destruct sh; cbn; try done; apply agree_dset. Qed.

Lemma loop_ok sh todo : forall processed ls h h1 w,
  messages_loop audit_raises write_information one sh processed todo ls h = (h1, Ok w) ->
  exists items, w.1 = processed ++ items /\ Forall2 (item_sanitized sh) todo items /\
                agree_but (target sh) (hk_data h) (hk_data h1).
Proof.
  induction todo as [|v todo IH]; intros processed ls h h1 w; cbn [messages_loop].
  { intros [-> ->]%hret_ok. exists []. by rewrite app_nil_r. }
  intros E. run_step E as h2 x E1. apply process_ok in E1 as [Hx Hd]. run_step E as h3 u E2. apply hmodify_ok in E2 as ->.
  apply IH in E as (items & -> & Hf & Ha). exists (x.1 :: items). rewrite <-app_assoc. split_and!; [done|by constructor|].
  intros k Hk. rewrite Ha by done. cbn. rewrite write_back_agree by done. by rewrite Hd.
Qed.

Lemma prompt_ok identity field ls h h1 ls' :
  sanitize_prompt_field audit_raises write_information one identity field ls h = (h1, Ok ls') ->
  prompt_sanitized (identity && str_eqb field (u8 "system")) (jget field (hk_data h)) (jget field (hk_data h1)) /\
  agree_but [field] (hk_data h) (hk_data h1).
Proof.
  unfold sanitize_prompt_field. intros E. run_step E as h2 data E1. apply hget_ok in E1 as [-> ->].
  set (exempt := identity && _) in *.
  destruct (negb (truthy (jget field (hk_data h)))) eqn:Et.
  { apply hret_ok in E as [-> _]. split; [|done]. apply prompt_empty. by apply negb_true_iff. }
  destruct (negb (encodable _)); [done|].
  destruct (exempt && _) eqn:Ei.
  { apply hret_ok in E as [-> _]. split; [|done]. apply andb_true_iff in Ei as [Hx Hi].
    destruct (jget field (hk_data h)); try done. by apply prompt_identity. }
  destruct (sanitize_prompt one _ _ ls) as [[[v rs] ls2]|e] eqn:Ep; [|by apply failed_not_ok in E].
  run_step E as h3 u E1. apply hmodify_ok in E1 as ->. run_step E as h4 u2 E1. apply hmodify_ok in E1 as ->.
  apply hret_ok in E as [-> _]. split; [|apply agree_dset].
  assert (Ev : jget field (hk_data (with_req (fun s => foldl merge_into_state s rs) (with_data (dset field v) h))) = v)
    by (unfold jget; cbn; by rewrite dget_dset_eq).
  rewrite Ev. by eapply prompt_walked.
Qed.

Lemma sanitize_request_ok exempt sh items ls h h1 ls' :
  sanitize_request' one exempt sh items ls h = (h1, Ok ls') ->
  exists items', Forall2 (item_sanitized sh) items items' /\
    (forall k, k = u8 "messages" \/ k = u8 "input" -> dget k (hk_data h1) = dget k (store_request_items (hk_data h) items' sh)) /\
    prompt_sanitized exempt (jget (u8 "system") (hk_data h)) (jget (u8 "system") (hk_data h1)) /\
    prompt_sanitized false (jget (u8 "instructions") (hk_data h)) (jget (u8 "instructions") (hk_data h1)).
Proof.
  unfold sanitize_request. intros E. run_step E as h2 w E1. apply loop_ok in E1 as (items' & Hw & Hf & Ha). cbn in Hw.
  run_step E as h3 u E1. apply hmodify_ok in E1 as ->. run_step E as h4 l1 E1. apply prompt_ok in E1 as [P1 A1].
  run_step E as h5 l2 E1. apply prompt_ok in E1 as [P2 A2]. run_step E as h6 u2 E1. apply hmodify_ok in E1 as ->.
  run_step E as h7 u3 E1. apply hmodify_ok in E1 as ->. apply hret_ok in E as [-> _]. cbn in *. rewrite Hw in *.
  assert (Sn : forall k, k <> u8 "proxy_server_request" -> dget k (refresh_request_body_snapshot (hk_data h5)) = dget k (hk_data h5)).
  { intros k Hk. by apply dget_at_dict_ne. }
  assert (Ts : forall k, k = u8 "system" \/ k = u8 "instructions" -> dget k (store_request_items (hk_data h2) items' sh) = dget k (hk_data h)).
  { intros k Hk. rewrite <-(Ha k). 2: { destruct sh, Hk as [-> | ->]; cbn; apply memb_false; vm_compute; reflexivity. }
    destruct sh, Hk as [-> | ->]; cbn; try done; by rewrite dget_dset_ne by discriminate. }
  exists items'. split; [done|]. split.
  - intros k Hk. rewrite Sn by (destruct Hk; subst k; discriminate). rewrite A2, A1 by (destruct Hk; subst k; apply memb_false; vm_compute; reflexivity).
    destruct sh; cbn in *; rewrite ?dget_dset; try case_decide; try done; apply Ha; try apply not_elem_of_nil;
      apply not_elem_of_cons; (split; [done|apply not_elem_of_nil]).
  - rewrite andb_true_r in P1. rewrite andb_false_r in P2. split.
    + revert P1. unfold jget. rewrite (Ts _ (or_introl eq_refl)), Sn, A2 by (try discriminate; apply memb_false; vm_compute; reflexivity). done.
    + revert P2. unfold jget. rewrite Sn by discriminate.
      rewrite A1 by (apply memb_false; vm_compute; reflexivity). by rewrite (Ts _ (or_intror eq_refl)).
Qed.
End Sanitized.

(** *** Reading through the side keys *)

Lemma same_get d d' k : same_texts d d' -> memb k SIDE_KEYS = false -> dget k d' = dget k d.
Proof. intros Hs Hk. apply Hs. by apply memb_false. Qed.

Lemma same_jget d d' k : same_texts d d' -> memb k SIDE_KEYS = false -> jget k d' = jget k d.
Proof. intros Hs Hk. unfold jget. by rewrite (same_get d d'). Qed.

Lemma same_dmem d d' k : same_texts d d' -> memb k SIDE_KEYS = false -> dmem k d' = dmem k d.
Proof. intros Hs Hk. unfold dmem. by rewrite (same_get d d'). Qed.

Lemma same_items d d' : same_texts d d' -> request_items d' call_type = request_items d call_type.
Proof. intros Hs. unfold request_items. by rewrite !(same_get d d') by done. Qed.

Lemma same_scanned sh1 sh2 items d d' : same_texts d d' -> scanned sh1 sh2 items d' = scanned sh1 sh2 items d.
Proof.
  intros Hs. unfold scanned, prompt_texts, PROMPT_FIELDS. cbn [collect].
  by rewrite !(same_jget d d'), !(same_dmem d d') by done.
Qed.

Lemma same_outgoing sh d d' : same_texts d d' -> outgoing sh d' = outgoing sh d.
Proof.
  intros Hs. unfold outgoing. rewrite (same_items d d') by done. destruct (request_items d call_type) as [v sh5].
  destruct (iter_of _); [|done]. by apply same_scanned.
Qed.

Lemma same_provider d d' : same_texts d d' -> hook_detect_provider d' = hook_detect_provider d.
Proof. intros Hs. unfold hook_detect_provider. by rewrite (same_jget d d'). Qed.

Lemma extract_auth_scatter d rid : extract_auth_headers (scatter d rid) = extract_auth_headers d.
Proof. unfold extract_auth_headers, merged_headers. by rewrite auth_buckets_scatter. Qed.

Lemma literals_ok sh items h h1 al : input_literals cfg sh items h = (h1, Ok al) -> hk_data h1 = hk_data h.
Proof.
  unfold input_literals. intros E. run_step E as h2 d E1. apply hget_ok in E1 as [-> ->].
  run_step E as h3 ts E1. apply hopt_ok in E1 as [-> _]. run_step E as h4 ps E1. apply hopt_ok in E1 as [-> _].
  run_step E as h5 u E1. apply hmodify_ok in E1 as ->. by apply hret_ok in E as [-> _].
Qed.

(** What an accepted pre-call guarantees of the dictionary it returns, [d0] being the
    one it was given. *)
Definition egress_ok (d0 d : jdict) (ctx : auth_context) (resolved : @resolved_profile orchestrator) : Prop :=
  let provider := hook_detect_provider d0 in
  let p := rp_policy resolved in
  let one := sanitize_one (MS := MS) clock resolved (ac_team_id ctx) (ensure_request_id uuid d0).1 in
  provider_allowed provider p = true /\
  dmem (u8 "messages") d0 && dmem (u8 "input") d0 = false /\
  exists items sh items',
    request_items d0 call_type = (JList items, sh) /\
    Forall2 (item_sanitized one sh) items items' /\
    (forall k, k = u8 "messages" \/ k = u8 "input" -> dget k d = dget k (store_request_items d0 items' sh)) /\
    prompt_sanitized one (hc_forward_anthropic_auth cfg && str_eqb provider (u8 "anthropic"))
      (jget (u8 "system") d0) (jget (u8 "system") d) /\
    prompt_sanitized one false (jget (u8 "instructions") d0) (jget (u8 "instructions") d) /\
    (hc_block_payloads cfg || pk_block_payloads p = true ->
     exists texts, scanned sh sh items d0 = Some texts /\ classify_block (join NEWLINE texts) = None) /\
    (stage5_on cfg p = true -> exists texts, outgoing sh d = Some texts /\ dlp_clean p (join NEWLINE texts)).

Lemma with_profile_ok resolved ctx rid d0 provider sh items st h h1 a :
  writer_ok write_information -> same_texts d0 (hk_data h) -> rid = (ensure_request_id uuid d0).1 ->
  provider = hook_detect_provider d0 -> request_items d0 call_type = (JList items, sh) ->
  dmem (u8 "messages") d0 && dmem (u8 "input") d0 = false ->
  with_profile' resolved (ac_team_id ctx) rid provider sh items st h = (h1, Ok a) ->
  egress_ok d0 (hk_data h1) ctx resolved.
Proof.
  intros Hw Hs -> -> Hi Hm E. unfold with_profile in E. run_step E as h2 u E1. apply hmodify_ok in E1 as ->.
  destruct (provider_allowed _ _) eqn:Ep; [|by apply refuse_not_ok in E]. cbn [negb] in E.
  run_step E as h3 al E1. apply literals_ok in E1. cbn in E1. run_step E as h4 u2 E2. apply stage0_ok in E2 as [-> H0].
  run_step E as h5 ls E2. apply sanitize_request_ok in E2 as (items' & Hf & Hst & P1 & P2).
  run_step E as h6 u3 E2. apply stage5_ok in E2 as [-> H5]. run_step E as h7 u4 E2. apply hmodify_ok in E2 as ->.
  run_step E as h8 s E2. apply hget_ok in E2 as [-> ->].
  assert (Hend : same_texts (hk_data h5) (hk_data h1)).
  { apply (same_trans _ (hk_data (note' h5))); [by apply note_same|].
    destruct (hk_req (note' h5)); [by eapply finish_ok_same|]. by apply hret_ok in E as [-> _]. }
  rewrite E1 in *. split; [done|]. split; [done|]. exists items, sh, items'. split_and!; [done|done| | | | |].
  - intros k Hk. rewrite (same_get _ _ _ Hend) by (destruct Hk; subst k; done). rewrite Hst by done.
    destruct sh; cbn; rewrite ?dget_dset; try case_decide; try done; apply same_get; try done; destruct Hk; by subst k.
  - by rewrite (same_jget _ _ _ Hend), <-(same_jget _ _ _ Hs) by done.
  - by rewrite (same_jget _ _ _ Hend), <-(same_jget _ _ _ Hs) by done.
  - intros Hb. destruct (H0 Hb) as (texts & Ht & Hc). exists texts. by rewrite <-(same_scanned _ _ _ _ _ Hs).
  - intros Hb. destruct (H5 Hb) as (texts & Ht & Hc). exists texts. by rewrite (same_outgoing _ _ _ Hend).
Qed.

(** C1: A pre-call that accepts a request did all of its work: the token authenticated,
    the profile resolved, its policy allows the provider, the request is not ambiguous,
    each element of the messages (or of a Responses input) is what the walk of the
    sanitizer made of the whole element, or has no text, and so is each prompt field
    but for the identity preamble of the bridge; stage 0 found no dump in what came
    in, and stage 5 no secret or canary in what leaves, read off the very dictionary
    that is returned. *)
Theorem egress_only_sanitized wall st h h1 d :
  writer_ok write_information -> pre_call' wall st h = (h1, Ok d) ->
  d = hk_data h1 /\
  exists ctx resolved,
    authenticate_headers lookup now (extract_auth_headers (hk_data h)) = AuthOk ctx /\
    resolve_profile (ac_team_id ctx) = ProfileResolved resolved /\
    egress_ok (hk_data h) d ctx resolved.
Proof.
  intros Hw. unfold pre_call. destruct (pre_call_impl' wall st h) as [h2 [d'|[| ]]] eqn:E; [|done|done]. intros [= -> ->].
  unfold pre_call_impl in E. run_step E as h3 w E1. destruct (prologue_run h) as (Hd & _ & _ & Hp). rewrite E1 in Hd, Hp. cbn [fst snd] in Hd, Hp.
  destruct Hp as [[? _]|[= ->]]; [done|]. rewrite extract_auth_scatter in E.
  assert (Hs : same_texts (hk_data h) (hk_data h3)).
  { rewrite Hd. eapply same_trans; [apply scatter_same|apply strip_same]. }
  run_step E as h4 data E2. apply hget_ok in E2 as [-> ->]. destruct (request_items (hk_data h3) call_type) as [raw sh] eqn:Er.
  rewrite (same_items _ _ Hs) in Er.
  run_step E as h5 u E2. apply hmodify_ok in E2 as ->. run_step E as h6 ctx E2. unfold authenticate in E2.
  destruct (authenticate_headers _ _ _) as [c|e| |] eqn:Ea; [|by apply refuse_not_ok in E2|by apply refuse_not_ok in E2|done].
  apply hret_ok in E2 as [-> ->]. run_step E as h7 u2 E2.
  assert (Hs7 : same_texts (hk_data h) (hk_data h7)).
  { apply (same_trans _ (hk_data h3)); [done|]. apply (same_trans _ (clamp_max_tokens cfg (hk_data h3))); [apply clamp_same|].
    apply hwhen_ok in E2 as [[_ ->%hmodify_ok]|[_ ->]]; [apply wire_same|done]. }
  run_step E as h8 data2 E3. apply hget_ok in E3 as [-> ->]. run_step E as h9 u3 E3. apply bridges_ok_same in E3.
  run_step E as h10 u4 E4. apply hget_ok in E as [-> ->]. split; [done|].
  destruct raw as [| | | | |items|]; try by apply refuse_not_ok in E4.
  assert (Hs9 : same_texts (hk_data h) (hk_data h9)) by (by eapply same_trans).
  unfold with_items in E4. run_step E4 as h11 u5 E5. apply hmodify_ok in E5 as ->.
  run_step E4 as h12 data3 E5. apply hget_ok in E5 as [-> ->]. cbn in E4.
  rewrite !(same_dmem _ _ _ Hs9) in E4 by done.
  destruct (dmem _ (hk_data h) && dmem _ (hk_data h)) eqn:Em; [by apply refuse_not_ok in E4|].
  destruct (resolve_profile (ac_team_id c)) as [resolved|b|] eqn:Ep; [|by apply refuse_not_ok in E4|done].
  exists c, resolved. split; [done|]. split; [done|].
  eapply with_profile_ok; [done| |done| |done|done|exact E4]; [done|]. by rewrite (same_provider _ _ Hs7).
Qed.
End PipelineFacts.

(** ** Witnesses *)

#[local] Existing Instance ru_unicode.
#[local] Existing Instance no_floats.
#[local] Instance hook_floats : FloatText := {| float_repr t := t |}.

Definition hook_cfg : hook_config :=
  HookConfig (Some 100) true false false (DlpGuard true []) true true (fun _ => None) (u8 "sk-ant-oat").
Definition hook_lookup (tok : str) : lookup_outcome :=
  LookupRow (if str_eqb tok (u8 "corp") then Some (TokenInfo tok (u8 "u") (u8 "team") [] 0 1000 None) else None).
Definition hook_profile (team : str) : profile_outcome :=
  ProfileResolved (ResolvedProfile default_knobs None (demo_orch 1000 OVERSIZE_FAIL_CLOSED []) []).
Definition hook_writer (s : request_state) (d : jdict) : jdict * bool := (d, true).

Definition hook_data (token text : str) : jdict :=
  [(u8 "model", JStr (u8 "gpt-4")); (u8 "litellm_call_id", JStr (u8 "call-1"));
   (u8 "headers", JObj [(u8 "X-Corp-Auth", JStr token); (u8 "Authorization", JStr (u8 "Bearer k"))]);
   (u8 "metadata", JObj [(u8 "headers", JObj [(u8 "x-corp-auth", JStr token)])]);
   (u8 "messages", JList [JObj [(u8 "role", JStr (u8 "user")); (u8 "content", JStr text)]])].

Abbreviation hook_run token text :=
  (pre_call hook_cfg hook_lookup hook_profile (fun _ => false) hook_writer (fun _ => 10%Q) 5 0 0
    (Some (TicketView 1 false true)) true (Some (u8 "acompletion")) (u8 "uuid") 0 mem_empty
    (Hook (hook_data token text) None None false [])).

Lemma hook_writer_ok : writer_ok hook_writer.
Proof. intros s d. by left. Qed.

Example hook_run_mail :
  match hook_run (u8 "corp") (u8 "mail ivan@acme.ru") with
  | (h, Ok d) => jget (u8 "messages") d = JList [JObj [(u8 "role", JStr (u8 "user")); (u8 "content", JStr (u8 "mail [EMAIL_001]"))]]
  | _ => False
  end.
Proof. vm_compute. reflexivity. Qed.

Lemma token_gone_on_every_exit_witness :
  extract_corp_token (extract_auth_headers (hook_data (u8 "bad") (u8 "hi"))) = Some (u8 "bad") /\
  extract_corp_token (extract_auth_headers (hk_data (hook_run (u8 "bad") (u8 "hi")).1)) = None.
Proof.
  split; [vm_compute; reflexivity|]. apply token_gone_on_every_exit; [apply hook_writer_ok|].
  apply (bool_decide_unpack _). vm_compute. exact Logic.I.
Defined.


Lemma egress_only_sanitized_witness :
  match hook_run (u8 "corp") (u8 "mail ivan@acme.ru") with
  | (h, Ok d) => exists texts, outgoing (Some (u8 "acompletion")) ShMessages d = Some texts /\
                               Egress.scan (DlpGuard true []) (join NEWLINE texts) = None
  | _ => False
  end.
Proof.
  assert (B : match hook_run (u8 "corp") (u8 "mail ivan@acme.ru") with (_, Ok _) => true | _ => false end = true)
    by (vm_compute; reflexivity).
  destruct (hook_run (u8 "corp") (u8 "mail ivan@acme.ru")) as [h [d|e]] eqn:E; [|discriminate B].
  destruct (egress_only_sanitized hook_cfg hook_lookup hook_profile (fun _ => false) hook_writer (fun _ => 10%Q) 5 0 0
    (Some (TicketView 1 false true)) true (Some (u8 "acompletion")) (u8 "uuid") 0 mem_empty
    (Hook (hook_data (u8 "corp") (u8 "mail ivan@acme.ru")) None None false []) h d hook_writer_ok E)
    as (_ & ctx & resolved & _ & Hr & _ & _ & items & sh & items' & Hi & _ & _ & _ & _ & _ & H5).
  injection Hr as <-. destruct (H5 eq_refl) as (texts & Ht & Hc & _). exists texts. split; [|exact Hc].
  assert (Hsh : (request_items (hook_data (u8 "corp") (u8 "mail ivan@acme.ru")) (Some (u8 "acompletion"))).2 = ShMessages)
    by reflexivity.
  cbn [hk_data] in Hi. rewrite Hi in Hsh. cbn in Hsh. subst sh. exact Ht.
Defined.
