(* ===== verification/JsonBytes.v ===== *)
(** * JSON that arrives as bytes

    [json.loads] of bytes: [json.detect_encoding], the decoding it picks, and the text
    parsed as in Json.v.  Both ends of the gateway use it: the gate reads the body of a
    request to look for a key, the response middleware the body of a response.  The
    lemmas relate the keys of a parsed object to the text and to the bytes: a key of
    plain characters is spelled in the text, or the text holds a unicode escape. *)

From S2P Require Import Prelude Text Json Sse.
Local Open Scope py_scope.
Local Open Scope Z_scope.

(** ** Decoding *)

(** [b.decode("utf-8")], with [pass] [b.decode("utf-8", "surrogatepass")]; [None] is the
    [UnicodeDecodeError].  A character takes a byte at least, so the length is enough fuel. *)
Fixpoint utf8_strict_go (pass : bool) (fuel : nat) (l : list N) : option str :=
  match fuel, l with
  | _, [] => Some []
  | O, _ => None
  | S n, _ =>
    match utf8_next l with
    | UChar c r => cons c <$> utf8_strict_go pass n r
    | UIncomplete => None
    | UBad _ =>
      match l with
      | 237%N :: b :: c :: r =>
        if pass && in_range 160 191 b && in_range 128 191 c
        then cons (13 * 4096 + (b - 128) * 64 + (c - 128))%N <$> utf8_strict_go pass n r else None
      | _ => None
      end
    end
  end.

Definition utf8_strict (pass : bool) (l : list N) : option str := utf8_strict_go pass (length l) l.

(** The 16-bit and 32-bit units of the bytes; a rest that is no unit is an error. *)
Fixpoint units16 (big : bool) (l : list N) : option (list N) :=
  match l with
  | [] => Some []
  | a :: b :: r => cons (if big then a * 256 + b else b * 256 + a)%N <$> units16 big r
  | _ => None
  end.

Fixpoint units32 (big : bool) (l : list N) : option (list N) :=
  match l with
  | [] => Some []
  | a :: b :: c :: d :: r =>
    let u := (if big then ((a * 256 + b) * 256 + c) * 256 + d else ((d * 256 + c) * 256 + b) * 256 + a)%N in
    if (u <? 1114112)%N then cons u <$> units32 big r else None
  | _ => None
  end.

(** A high surrogate with the low one after it is one character; alone it passes. *)
Fixpoint pair_surrogates (units : list N) : str :=
  match units with
  | h :: ((l :: r) as rest) =>
    if high_surrogate h && low_surrogate l then join_surrogates h l :: pair_surrogates r else h :: pair_surrogates rest
  | _ => units
  end.

(** [json.detect_encoding]; [bom]: the encoding whose byte order mark is skipped. *)
Inductive encoding := Utf8 | Utf8Sig | Utf16 (big bom : bool) | Utf32 (big bom : bool).

#[export] Instance encoding_eq_dec : EqDecision encoding.
Proof. solve_decision. Defined.

Definition detect_encoding (b : list N) : encoding :=
  if starts_with b [0; 0; 254; 255]%N then Utf32 true true
  else if starts_with b [255; 254; 0; 0]%N then Utf32 false true
  else if starts_with b [254; 255]%N then Utf16 true true
  else if starts_with b [255; 254]%N then Utf16 false true
  else if starts_with b [239; 187; 191]%N then Utf8Sig
  else match b with
       | 0%N :: b1 :: _ :: _ :: _ => if (b1 =? 0)%N then Utf32 true false else Utf16 true false
       | _ :: 0%N :: b2 :: b3 :: _ => if (b2 =? 0)%N && (b3 =? 0)%N then Utf32 false false else Utf16 false false
       | [0%N; _] => Utf16 true false
       | [_; 0%N] => Utf16 false false
       | _ => Utf8
       end.

(** [b.decode(json.detect_encoding(b), "surrogatepass")] *)
Definition json_text (b : list N) : option str :=
  match detect_encoding b with
  | Utf8 => utf8_strict true b
  | Utf8Sig => utf8_strict true (drop 3 b)
  | Utf16 big bom => pair_surrogates <$> units16 big (if bom then drop 2 b else b)
  | Utf32 big bom => units32 big (if bom then drop 4 b else b)
  end.

(** [json.loads(b)] of bytes; [None] is a [ValueError]. *)
Definition loads_bytes {F : FloatText} (b : list N) : option json := json_text b ≫= loads.

(** ** What a text holds *)

Lemma contains_mono s s' w : s' `suffix_of` s -> contains s' w = true -> contains s w = true.
Proof. rewrite !contains_iff. intros [k ->] (p & q & ->). exists (k ++ p), q. by rewrite <-app_assoc. Qed.

Lemma contains_front s w r : s = w ++ r -> contains s w = true.
Proof. intros ->. apply contains_iff. by exists [], r. Qed.

(** ** The scanner reads its text from left to right *)

Lemma suffix_skip_ws s : skip_ws s `suffix_of` s.
Proof. unfold skip_ws. induction s as [|c s IH]; cbn [lstrip_by]; [done|]. case_match; [by apply suffix_cons_r|done]. Qed.

Lemma suffix_skip_ws_cons s c r : skip_ws s = c :: r -> r `suffix_of` s.
Proof. intros E. etrans; [|apply suffix_skip_ws]. rewrite E. by apply suffix_cons_r. Qed.

Lemma suffix_scanstring s t r : scanstring s = Some (t, r) -> r `suffix_of` s.
Proof.
  remember (length s) as n eqn:Hn. revert s t Hn. induction n as [n IH] using lt_wf_ind. intros s t ->.
  assert (G : forall p s' c t', s = p ++ s' -> p <> [] -> put c (scanstring s') = Some (t', r) -> r `suffix_of` s).
  { intros p s' c t' -> Hp (t2 & E)%put_some. apply suffix_app_r. eapply (IH (length s')); [|done|exact E].
    rewrite length_app. destruct p; [done|]. cbn [length]. lia. }
  destruct s as [|c s1]; cbn [scanstring]; [done|]. intros H.
  destruct (c =? 34)%N; [injection H as _ <-; by apply suffix_cons_r|].
  destruct (c =? 92)%N; [|destruct (c <? 32)%N; [done|]; by eapply (G [c])].
  destruct s1 as [|e s2]; [done|]. destruct (e =? chr "u")%N.
  - destruct s2 as [|h1 [|h2 [|h3 [|h4 s3]]]]; try done. destruct (hex4 h1 h2 h3 h4) as [u|]; [|done].
    destruct (high_surrogate u); [|by eapply (G [c; e; h1; h2; h3; h4])].
    destruct s3 as [|b [|v [|g1 [|g2 [|g3 [|g4 s4]]]]]]; try by eapply (G [c; e; h1; h2; h3; h4]).
    destruct (_ && _); [|by eapply (G [c; e; h1; h2; h3; h4])]. destruct (hex4 g1 g2 g3 g4) as [w|]; [|done].
    destruct (low_surrogate w); [by eapply (G [c; e; h1; h2; h3; h4; b; v; g1; g2; g3; g4])|by eapply (G [c; e; h1; h2; h3; h4])].
  - destruct (unescape e); [|done]. by eapply (G [c; e]).
Qed.

Lemma suffix_span s d r : span_digits s = (d, r) -> r `suffix_of` s.
Proof. intros (-> & _)%span_digits_cut. by apply suffix_app_r. Qed.

Lemma suffix_frac s d r : scan_frac s = (d, r) -> r `suffix_of` s.
Proof.
  destruct s as [|c s]; cbn [scan_frac]; [by intros [= _ <-]|]. destruct (_ =? _)%N; [|by intros [= _ <-]].
  destruct (span_digits s) as [[|k d'] r'] eqn:E; intros [= _ <-]; [done|]. apply suffix_span in E. by apply suffix_cons_r.
Qed.

Lemma suffix_exp s d r : scan_exp s = (d, r) -> r `suffix_of` s.
Proof.
  destruct s as [|c s]; cbn [scan_exp]; [by intros [= _ <-]|]. destruct (_ || _); [|by intros [= _ <-]].
  destruct s as [|g s]; [by intros [= _ <-]|]. destruct (_ || _).
  - destruct (span_digits s) as [[|k d'] r'] eqn:E; intros [= _ <-]; [done|]. apply suffix_span in E. by do 2 apply suffix_cons_r.
  - destruct (span_digits (g :: s)) as [[|k d'] r'] eqn:E; intros [= _ <-]; [done|]. apply suffix_span in E. by apply suffix_cons_r.
Qed.

Lemma suffix_int s b d r : scan_int s = Some (b, d, r) -> r `suffix_of` s.
Proof.
  unfold scan_int. destruct s as [|c s]; [done|]. destruct (_ =? chr "-")%N.
  - destruct s as [|c' s]; [done|]. destruct (_ =? 48)%N; [intros [= _ _ <-]; by do 2 apply suffix_cons_r|].
    destruct (ascii_digit_p c'); [|done]. destruct (span_digits (c' :: s)) as [d' r'] eqn:E. intros [= _ _ <-].
    apply suffix_span in E. by apply suffix_cons_r.
  - destruct (_ =? 48)%N; [intros [= _ _ <-]; by apply suffix_cons_r|].
    destruct (ascii_digit_p c); [|done]. destruct (span_digits (c :: s)) as [d' r'] eqn:E. intros [= _ _ <-]. by apply suffix_span in E.
Qed.

Section Suffix.
Context {F : FloatText}.

Lemma suffix_number s v r : match_number s = Some (v, r) -> r `suffix_of` s.
Proof.
  unfold match_number. destruct (scan_int s) as [[[neg d] s1]|] eqn:E1; [|done].
  destruct (scan_frac s1) as [f s2] eqn:E2. destruct (scan_exp s2) as [e s3] eqn:E3. intros H.
  assert (r = s3) as -> by (repeat case_match; simplify_eq; done).
  etrans; [by eapply suffix_exp|]. etrans; [by eapply suffix_frac|by eapply suffix_int].
Qed.

Lemma suffix_constant cs s v r : match_constant cs s = Some (v, r) -> r `suffix_of` s.
Proof.
  induction cs as [|[w v'] cs IH]; cbn [match_constant]; [done|]. destruct (starts_with s w) eqn:E; [|done].
  intros [= _ <-]. apply starts_with_iff in E as [s' ->]. rewrite drop_app_length. by apply suffix_app_r.
Qed.

Lemma suffix_scan n :
  (forall s v r, scan_once n s = Some (v, r) -> r `suffix_of` s) /\
  (forall s l r, scan_elems n s = Some (l, r) -> r `suffix_of` s) /\
  (forall s d r, scan_members n s = Some (d, r) -> r `suffix_of` s).
Proof.
  induction n as [|n (IHv & IHl & IHd)]; [done|]. split_and!; intros s x r.
  - cbn [scan_once]. destruct s as [|c s]; [done|]. destruct (c =? 34)%N.
    { destruct (scanstring s) as [[t r']|] eqn:E; [|done]. intros [= _ <-]. apply suffix_cons_r. by eapply suffix_scanstring. }
    destruct (c =? chr "{")%N.
    { destruct (skip_ws s) as [|c2 s2] eqn:Es; [done|]. pose proof (suffix_skip_ws_cons _ _ _ Es).
      destruct (c2 =? _)%N; [intros [= _ <-]; by apply suffix_cons_r|].
      destruct (scan_members n _) as [[d r']|] eqn:E; [|done]. intros [= _ <-]. apply suffix_cons_r. etrans; [by eapply IHd|].
      rewrite <-Es. apply suffix_skip_ws. }
    destruct (c =? chr "[")%N.
    { destruct (skip_ws s) as [|c2 s2] eqn:Es; [done|]. pose proof (suffix_skip_ws_cons _ _ _ Es).
      destruct (c2 =? _)%N; [intros [= _ <-]; by apply suffix_cons_r|].
      destruct (scan_elems n _) as [[l r']|] eqn:E; [|done]. intros [= _ <-]. apply suffix_cons_r. etrans; [by eapply IHl|].
      rewrite <-Es. apply suffix_skip_ws. }
    destruct (match_constant constants (c :: s)) as [[v r']|] eqn:E; [intros [= _ <-]; by eapply suffix_constant|]. apply suffix_number.
  - cbn [scan_elems]. destruct (scan_once n s) as [[v r']|] eqn:Ev; [|done]. apply IHv in Ev.
    destruct (skip_ws r') as [|c r1] eqn:Es; [done|]. apply suffix_skip_ws_cons in Es.
    destruct (c =? _)%N; [intros [= _ <-]; by etrans|]. destruct (c =? _)%N; [|done].
    destruct (scan_elems n _) as [[l r2]|] eqn:El; [|done]. apply IHl in El. intros [= _ <-].
    etrans; [exact El|]. etrans; [apply suffix_skip_ws|]. by etrans.
  - cbn [scan_members]. destruct s as [|q s]; [done|]. destruct (negb _); [done|].
    destruct (scanstring s) as [[k r0]|] eqn:Ek; [|done]. apply suffix_scanstring in Ek.
    destruct (skip_ws r0) as [|c r1] eqn:E1; [done|]. apply suffix_skip_ws_cons in E1. destruct (negb _); [done|].
    destruct (scan_once n _) as [[v r2]|] eqn:Ev; [|done]. apply IHv in Ev.
    assert (H2 : r2 `suffix_of` q :: s).
    { apply suffix_cons_r. etrans; [exact Ev|]. etrans; [apply suffix_skip_ws|]. by etrans. }
    destruct (skip_ws r2) as [|c2 r3] eqn:E3; [done|]. apply suffix_skip_ws_cons in E3.
    destruct (c2 =? _)%N; [intros [= _ <-]; by etrans|]. destruct (c2 =? _)%N; [|done].
    destruct (scan_members n _) as [[d r4]|] eqn:Ed; [|done]. apply IHd in Ed. intros [= _ <-].
    etrans; [exact Ed|]. etrans; [apply suffix_skip_ws|]. by etrans.
Qed.
End Suffix.

(** ** A key is spelled in the text *)

(** Characters no one-letter escape stands for. *)
Definition plain_key (k : str) : bool := forallb (fun c => negb (memb c [34; 92; 47; 8; 12; 10; 13; 9]%N)) k.

Definition U_ESCAPE : str := [92%N; chr "u"].

Lemma unescape_not_plain e c : unescape e = Some c -> memb c [34; 92; 47; 8; 12; 10; 13; 9]%N = true.
Proof.
  unfold unescape. destruct ((e =? 34) || (e =? 92) || (e =? chr "/"))%N eqn:E.
  - intros [= <-]. rewrite !orb_true_iff, !N.eqb_eq in E. by destruct E as [[->| ->]| ->].
  - repeat (case_match; [by intros [= <-]|]). done.
Qed.

Lemma scanstring_plain s k r :
  scanstring s = Some (k, r) -> plain_key k = true -> contains s U_ESCAPE = false -> s = k ++ 34%N :: r.
Proof.
  revert k. induction s as [|c s IH]; intros k H Hk Hu; [done|]. cbn [scanstring] in H.
  destruct (N.eqb_spec c 34) as [->|_]; [by injection H as <- <-|].
  destruct (N.eqb_spec c 92) as [->|_].
  - destruct s as [|e s2]; [done|]. destruct (N.eqb_spec e (chr "u")) as [->|_].
    { rewrite (contains_front _ U_ESCAPE s2) in Hu by done. discriminate. }
    destruct (unescape e) as [c'|] eqn:Ee; [|done]. destruct (scanstring s2) as [[k' r']|]; [|done]. cbn in H. injection H as <- <-.
    cbn [plain_key forallb] in Hk. by rewrite (unescape_not_plain _ _ Ee) in Hk.
  - destruct (c <? 32)%N; [done|]. destruct (scanstring s) as [[k' r']|] eqn:E; [|done]. cbn in H. injection H as <- <-.
    cbn [plain_key forallb] in Hk. apply andb_true_iff in Hk as [_ Hk]. cbn [app]. f_equal. apply IH; [done|done|].
    apply not_true_iff_false. intros Hc. apply not_true_iff_false in Hu. apply Hu. eapply contains_mono; [|exact Hc]. by apply suffix_cons_r.
Qed.

Lemma dict_of_elem {W} (l : list (str * W)) k v : dget k (dict_of l) = Some v -> (k, v) ∈ l.
Proof.
  unfold dict_of. enough (G : forall acc, dget k (foldl (fun d p => dset p.1 p.2 d) acc l) = Some v -> dget k acc = Some v \/ (k, v) ∈ l).
  { intros H. by destruct (G [] H). }
  induction l as [|[k' v'] l IH]; intros acc H; [by left|]. cbn [foldl fst snd] in H. apply IH in H as [H|H]; [|right; set_solver].
  destruct (decide (k = k')) as [->|Hne]; [rewrite dget_dset_eq in H; simplify_eq; right; set_solver|].
  rewrite dget_dset_ne in H by done. by left.
Qed.

Section Keys.
Context {F : FloatText}.

Lemma members_scanned n s d r k v : scan_members n s = Some (d, r) -> (k, v) ∈ d ->
  exists s' r', s' `suffix_of` s /\ scanstring s' = Some (k, r').
Proof.
  revert s d r. induction n as [|n IH]; intros s d r; [done|]. cbn [scan_members].
  destruct s as [|q s]; [done|]. destruct (negb _); [done|]. destruct (scanstring s) as [[k0 r0]|] eqn:Ek; [|done].
  destruct (skip_ws r0) as [|c r1] eqn:E1; [done|]. destruct (negb _); [done|].
  destruct (scan_once n _) as [[v0 r2]|] eqn:Ev; [|done]. destruct (skip_ws r2) as [|c2 r3] eqn:E3; [done|].
  assert (H0 : (k, v) = (k0, v0) -> exists s' r', s' `suffix_of` q :: s /\ scanstring s' = Some (k, r')).
  { intros [= -> _]. exists s, r0. split; [by apply suffix_cons_r|done]. }
  destruct (c2 =? _)%N; [intros [= <- _]; set_solver|]. destruct (c2 =? _)%N; [|done].
  destruct (scan_members n _) as [[d' r4]|] eqn:Ed; [|done]. intros [= <- _] [Hk|Hk]%elem_of_cons; [by apply H0|].
  destruct (IH _ _ _ Ed Hk) as (s' & r' & Hs & Hr). exists s', r'. split; [|done].
  etrans; [exact Hs|]. etrans; [apply suffix_skip_ws|]. etrans; [by eapply suffix_skip_ws_cons|].
  apply suffix_cons_r. etrans; [by eapply (proj1 (suffix_scan n))|]. etrans; [apply suffix_skip_ws|].
  etrans; [by eapply suffix_skip_ws_cons|]. by eapply suffix_scanstring.
Qed.

(** A top-level key of a JSON text is written in it, unless the text has a unicode escape. *)
Lemma object_key_spelled s d k v : loads s = Some (JObj d) -> dget k d = Some v -> plain_key k = true ->
  contains s k = true \/ contains s U_ESCAPE = true.
Proof.
  unfold loads. destruct (starts_with s _); [done|]. destruct (scan_once _ _) as [[w r]|] eqn:E; [|done].
  destruct (skip_ws r); [|done]. intros [= ->] Hk Hp. destruct (contains s U_ESCAPE) eqn:Hu; [by right|left].
  replace (2 * length s + 2)%nat with (S (2 * length s + 1)) in E by lia. cbn [scan_once] in E.
  destruct (skip_ws s) as [|c s1] eqn:Es; [done|]. assert (Hs1 : s1 `suffix_of` s) by by eapply suffix_skip_ws_cons.
  destruct (c =? 34)%N; [by destruct (scanstring s1) as [[]|]|]. destruct (c =? chr "{")%N.
  2: { destruct (c =? chr "[")%N.
       - destruct (skip_ws s1); [done|]. destruct (_ =? _)%N; [done|]. by destruct (scan_elems _ _) as [[]|].
       - destruct (match_constant constants (c :: s1)) as [[v' r']|] eqn:Ec.
         + injection E as -> _. unfold constants in Ec. cbn [match_constant] in Ec. by repeat case_match.
         + unfold match_number in E. by repeat case_match. }
  destruct (skip_ws s1) as [|c2 s2] eqn:Es1; [done|]. destruct (c2 =? _)%N; [injection E as <- _; done|].
  destruct (scan_members _ (c2 :: s2)) as [[d' r']|] eqn:Ed; [|done]. injection E as <- _.
  assert (Hin : (k, v) ∈ d') by by eapply dict_of_elem.
  destruct (members_scanned _ _ _ _ _ _ Ed Hin) as (s' & r0 & Hs & Hr).
  assert (Hs' : s' `suffix_of` s) by (etrans; [exact Hs|]; rewrite <-Es1; etrans; [apply suffix_skip_ws|done]).
  eapply contains_mono; [exact Hs'|]. eapply contains_front, scanstring_plain; [exact Hr|done|].
  apply not_true_iff_false. intros Hc. apply not_true_iff_false in Hu. apply Hu. by eapply contains_mono.
Qed.
End Keys.

(** ** A text of ASCII characters is spelled in the bytes *)

Lemma utf8_next_ascii l c r : utf8_next l = UChar c r -> (c < 128)%N -> l = c :: r.
Proof.
  destruct l as [|a l1]; cbn [utf8_next]; [done|]. destruct (N.ltb_spec a 128); [by intros [= -> ->]|].
  intros H1 Hc. exfalso. revert H1. unfold utf8_lead, in_range.
  repeat case_match; simplify_eq; try done; intros [= <- _];
  rewrite ?negb_false_iff, ?andb_true_iff, ?andb_false_iff, ?N.leb_le, ?N.eqb_eq in *; lia.
Qed.

Lemma utf8_next_suffix l c r : utf8_next l = UChar c r -> r `suffix_of` l.
Proof.
  destruct l as [|a l1]; cbn [utf8_next]; [done|]. destruct (a <? 128)%N; [intros [= _ <-]; by apply suffix_cons_r|].
  destruct (utf8_lead a) as [[[n lo] hi]|]; [|done]. destruct l1 as [|b l2]; [done|]. destruct (negb _); [done|].
  destruct (n =? 0)%N; [intros [= _ <-]; by do 2 apply suffix_cons_r|]. destruct l2 as [|c' l3]; [done|]. destruct (negb _); [done|].
  destruct (n =? 1)%N; [intros [= _ <-]; by do 3 apply suffix_cons_r|]. destruct l3 as [|d l4]; [done|]. destruct (negb _); [done|].
  intros [= _ <-]. by do 4 apply suffix_cons_r.
Qed.

(** The bytes of the first character. *)
Lemma utf8_first pass n l c t : utf8_strict_go pass n l = Some (c :: t) ->
  exists p n' r, l = p ++ r /\ utf8_strict_go pass n' r = Some t /\ ((c < 128)%N -> p = [c]).
Proof.
  destruct n as [|n], l as [|a l]; try done. cbn [utf8_strict_go]. destruct (utf8_next (a :: l)) as [c' r| |] eqn:E; [| |done].
  - destruct (utf8_strict_go pass n r) as [t'|] eqn:Et; [|done]. intros [= -> ->]. destruct (utf8_next_suffix _ _ _ E) as [p Ep].
    exists p, n, r. split_and!; [done|done|]. intros Hc. pose proof (utf8_next_ascii _ _ _ E Hc) as E'. rewrite E' in Ep.
    apply (app_inj_2 [c] p r r) in Ep as [-> _]; done.
  - destruct (N.eq_dec a 237) as [->|Ha]; [|by repeat case_match].
    destruct l as [|b [|c' r]]; try done. destruct (pass && _ && _) eqn:Eb; [|done].
    destruct (utf8_strict_go pass n r) as [t'|] eqn:Et; [|done]. intros [= <- ->]. exists [237; b; c']%N, n, r. split_and!; [done|done|]. intros Hc. exfalso.
    unfold in_range in Eb. rewrite !andb_true_iff, !N.leb_le in Eb. lia.
Qed.

Lemma utf8_spelled pass l t w : utf8_strict pass l = Some t -> forallb is_ascii w = true -> contains t w = true -> contains l w = true.
Proof.
  unfold utf8_strict. generalize (length l) as n. intros n Ht Hw (p & q & ->)%contains_iff. revert n l Ht. induction p as [|c p IH]; intros n l Ht.
  - cbn [app] in Ht. enough (exists r, l = w ++ r) as [r E] by by eapply contains_front. revert n l Ht.
    induction w as [|c w IHw]; intros n l Ht; [by exists l|]. cbn [forallb] in Hw. apply andb_true_iff in Hw as [Hc Hw].
    cbn [app] in Ht. destruct (utf8_first _ _ _ _ _ Ht) as (p & n' & r & -> & Hr & Hp).
    rewrite Hp by (by apply N.ltb_lt). destruct (IHw Hw _ _ Hr) as [r' ->]. by exists r'.
  - cbn [app] in Ht. destruct (utf8_first _ _ _ _ _ Ht) as (p' & n' & r & -> & Hr & _).
    eapply contains_mono; [by apply suffix_app_r|]. by eapply IH.
Qed.
