(* ===== verification/Gate.v ===== *)
(** * The gate in front of the app ([route_gate/middleware.py])

    What the gate does with a connection: the verdict of RouteGate.v on its method, path
    and headers, the refusals with their counters, audit record and answer, the check of a
    rewritten body, and the hand-over to the in-flight limiter of Inflight.v or to the app.

    [gate_plan] is [RouteGateMiddleware.__call__] up to its awaits; [refuse_effects] is
    [_refuse] with the audit logger of AuditLog.v; [body_problem] is the [check] the
    limiter calls on a complete body.  [too_deep] is the interpreter's recursion limit:
    whether [json.loads] of a text ends in a [RecursionError].  [classify] does not raise
    in the model, so the branch for its exceptions is not taken. *)

From S2P Require Import Prelude Text Json JsonBytes Regex ContentBlocks RouteTable RouteGate Inflight AuditLog.
Local Open Scope py_scope.
Local Open Scope Z_scope.

Abbreviation bytes := (list N).

(** ** Reasons and their tables *)

Definition reason_str (r : block_reason) : str :=
  match r with
  | ROUTE_GATE_UNLISTED => u8 "route_gate_unlisted"
  | ROUTE_GATE_LISTED => u8 "route_gate_listed"
  | ROUTE_GATE_WEBSOCKET => u8 "route_gate_websocket"
  | ROUTE_GATE_MALFORMED => u8 "route_gate_malformed"
  | ROUTE_GATE_UNARMED => u8 "route_gate_unarmed"
  | ROUTE_GATE_ERROR => u8 "route_gate_error"
  | ROUTE_GATE_BODY_POLICIES => u8 "route_gate_body_policies"
  | ROUTE_GATE_BODY_NOT_JSON => u8 "route_gate_body_not_json"
  end.

Definition GATE_COMPONENT : str := u8 "route_gate".
Definition BLOCKED : str := u8 "E_ROUTE_BLOCKED".
Definition CALL_ID_HEADER : bytes := u8 "x-litellm-call-id".

Definition STATUS : list (str * Z) :=
  [(reason_str ROUTE_GATE_BODY_POLICIES, 403); (reason_str ROUTE_GATE_BODY_NOT_JSON, 415); (reason_str ROUTE_GATE_UNLISTED, 404);
   (reason_str ROUTE_GATE_LISTED, 403); (reason_str ROUTE_GATE_WEBSOCKET, 403); (reason_str ROUTE_GATE_MALFORMED, 403);
   (reason_str ROUTE_GATE_UNARMED, 503); (reason_str ROUTE_GATE_ERROR, 500); (ROUTE_GATE_CAPACITY, 429);
   (ROUTE_GATE_BODY_TIMEOUT, 408); (OVERSIZE_BLOCKED, 422)].

Definition ERROR_CODE : list (str * str) :=
  [(reason_str ROUTE_GATE_BODY_POLICIES, BLOCKED); (reason_str ROUTE_GATE_BODY_NOT_JSON, BLOCKED); (reason_str ROUTE_GATE_UNLISTED, BLOCKED);
   (reason_str ROUTE_GATE_LISTED, BLOCKED); (reason_str ROUTE_GATE_WEBSOCKET, BLOCKED); (reason_str ROUTE_GATE_MALFORMED, BLOCKED);
   (reason_str ROUTE_GATE_UNARMED, u8 "E_ROUTE_GATE_UNARMED"); (reason_str ROUTE_GATE_ERROR, u8 "E_ROUTE_GATE_ERROR");
   (ROUTE_GATE_CAPACITY, u8 "E_CAPACITY"); (ROUTE_GATE_BODY_TIMEOUT, u8 "E_BODY_TIMEOUT"); (OVERSIZE_BLOCKED, u8 "E_OVERSIZE_BLOCKED")].

Definition ERROR_TYPE : list (str * str) :=
  [(reason_str ROUTE_GATE_BODY_POLICIES, u8 "route_blocked"); (reason_str ROUTE_GATE_BODY_NOT_JSON, u8 "route_blocked");
   (reason_str ROUTE_GATE_UNLISTED, u8 "route_blocked"); (reason_str ROUTE_GATE_LISTED, u8 "route_blocked");
   (reason_str ROUTE_GATE_WEBSOCKET, u8 "route_blocked"); (reason_str ROUTE_GATE_MALFORMED, u8 "route_blocked");
   (reason_str ROUTE_GATE_UNARMED, u8 "route_gate_unarmed"); (reason_str ROUTE_GATE_ERROR, u8 "route_gate_error");
   (ROUTE_GATE_CAPACITY, u8 "capacity"); (ROUTE_GATE_BODY_TIMEOUT, u8 "body_timeout"); (OVERSIZE_BLOCKED, u8 "oversize")].

Definition GATE_FAILURE_COMPONENT : list (str * str) :=
  [(reason_str ROUTE_GATE_UNARMED, GATE_COMPONENT); (reason_str ROUTE_GATE_ERROR, GATE_COMPONENT); (OVERSIZE_BLOCKED, u8 "oversize")].

Definition WHY : list (str * str) :=
  [(reason_str ROUTE_GATE_BODY_POLICIES, u8 "the request body names litellm policies; the gateway applies its own");
   (reason_str ROUTE_GATE_BODY_NOT_JSON, u8 "a rewritten route takes a JSON request body only");
   (ROUTE_GATE_CAPACITY, u8 "the gateway's in-flight cap is reached; retry later");
   (ROUTE_GATE_BODY_TIMEOUT, u8 "the request body did not arrive within the gateway's body-read deadline");
   (OVERSIZE_BLOCKED, u8 "the request body is over the gateway's body cap")].

Definition EXTRA_HEADERS : list (str * list (bytes * bytes)) := [(ROUTE_GATE_CAPACITY, [(u8 "retry-after", u8 "1")])].

(** ** The body of a rewritten request *)

Inductive content_type := CtMissing | CtAmbiguous | CtValue (value : bytes).

Definition content_type_of (hs : list (bytes * bytes)) : content_type :=
  match map snd (List.filter (fun h : bytes * bytes => str_eqb (bytes_lower h.1) (u8 "content-type")) hs) with
  | [] => CtMissing
  | [v] => CtValue v
  | _ => CtAmbiguous
  end.

Definition is_json (ct : content_type) : bool :=
  match ct with
  | CtValue v => str_eqb (bytes_lower (bytes_strip (default [] (head (split_char (chr ";") v))))) (u8 "application/json")
  | _ => false
  end.

(** [param.partition(b"=")] *)
Fixpoint partition_eq (p : bytes) : bytes * bool * bytes :=
  match p with
  | [] => ([], false, [])
  | c :: r => if (c =? chr "=")%N then ([], true, r) else let '(k, eq, v) := partition_eq r in (c :: k, eq, v)
  end.

(** The quotes around a value, if it has both. *)
Definition unquote (v : bytes) : bytes :=
  match v with
  | 34%N :: r => match rev r with 34%N :: m => rev m | _ => v end
  | _ => v
  end.

(** The charsets the parameters name; [None] when one of them is refused. *)
Fixpoint charsets (params : list bytes) : option (list bytes) :=
  match params with
  | [] => Some []
  | param :: rest =>
    let '(key, eq, value) := partition_eq param in
    let key := bytes_lower (bytes_strip key) in
    if negb (starts_with key (u8 "charset")) then charsets rest
    else if negb (str_eqb key (u8 "charset")) then None
    else let value := unquote (bytes_strip value) in
         if negb eq || contains value [34%N] then None else cons (bytes_lower value) <$> charsets rest
  end.

Definition utf8_charset (v : bytes) : bool :=
  match charsets (tail (split_char (chr ";") v)) with
  | Some [] => true
  | Some [c] => memb c [u8 "utf-8"; u8 "utf8"]
  | _ => false
  end.

(** [_utf8]: the text, when the body is UTF-8. *)
Definition utf8_text (body : bytes) : option str :=
  if bool_decide (detect_encoding body = Utf8) then utf8_strict false body else None.

Section Body.
Context {F : FloatText} (too_deep : str -> bool).

(** [_body_problem] *)
Definition body_problem (chunks : list bytes) (ct : content_type) : option block_reason :=
  let body := concat chunks in
  let nonempty := match body with [] => false | _ => true end in
  if negb (is_json ct) && (nonempty || match ct with CtMissing => false | _ => true end) then Some ROUTE_GATE_BODY_NOT_JSON else
  if match ct with CtValue v => negb (utf8_charset v) | _ => false end then Some ROUTE_GATE_BODY_NOT_JSON else
  if nonempty && match utf8_text body with None => true | Some _ => false end then Some ROUTE_GATE_BODY_NOT_JSON else
  if negb (contains body (u8 "policies")) && negb (contains body U_ESCAPE) then None else
  match utf8_text body with
  | None => None                                  (* not reached: refused above, or empty *)
  | Some text =>
    if too_deep text then None else
    match loads text with
    | Some (JObj d) => if dmem (u8 "policies") d then Some ROUTE_GATE_BODY_POLICIES else None
    | _ => None
    end
  end.

(** The [check] that [_admit] gives the limiter. *)
Definition body_check (ct : content_type) (chunks : list bytes) : result unit (option str) :=
  Ok (reason_str <$> body_problem chunks ct).
End Body.

(** ** Connections *)

Record scope := Scope {
  sc_type : str;
  sc_method : option str;
  sc_path : option str;
  sc_raw_path : option bytes;
  sc_headers : list (bytes * bytes);
  sc_denial : bool;                     (* the server offers [websocket.http.response] *)
}.

Record gate := Gate { gt_armed : bool; gt_extras : list route_row; gt_limited : bool }.

Definition arm (g : gate) : gate := Gate true (gt_extras g) (gt_limited g).

(** [_without_call_id] *)
Definition without_call_id (s : scope) : scope :=
  Scope (sc_type s) (sc_method s) (sc_path s) (sc_raw_path s)
    (List.filter (fun h : bytes * bytes => negb (str_eqb (bytes_lower h.1) CALL_ID_HEADER)) (sc_headers s)) (sc_denial s).

(** [_upgrade_header], as the latin-1 text *)
Definition upgrade_header (s : scope) : option str :=
  snd <$> List.find (fun h : bytes * bytes => str_eqb (bytes_lower h.1) (u8 "upgrade")) (sc_headers s).

Definition or_text (o : option str) (d : str) : str := match o with None | Some [] => d | Some s => s end.

Section Gate.
Context {U : Unicode}.

Definition method_of (s : scope) : str := u_upper (or_text (sc_method s) (u8 "GET")).
Definition path_of (s : scope) : str := or_text (sc_path s) [].

(** What is done with the connection. *)
Inductive plan :=
| Forward (s : scope)                   (* [self.app] is called *)
| Admit (s : scope)                     (* the limiter runs, with [body_check] *)
| Refused (reason : str) (why : str).

Definition decide_scope (g : gate) (s : scope) : Decision :=
  classify (method_of s) (path_of s) (sc_raw_path s) (sc_type s) (upgrade_header s) (Some (gt_extras g)).

Definition UNARMED_WHY : str :=
  u8 "the guardrail callback is not registered, so a rewritten route cannot be proven sanitized".

(** [__call__] *)
Definition gate_plan (g : gate) (s : scope) : plan :=
  if str_eqb (sc_type s) (u8 "lifespan") then Forward s else
  let d := decide_scope g s in
  match d_verdict d with
  | REFUSE => Refused (reason_str (default ROUTE_GATE_ERROR (d_block_reason d))) (d_why d)
  | REWRITTEN => if negb (gt_armed g) then Refused (reason_str ROUTE_GATE_UNARMED) UNARMED_WHY
                 else if gt_limited g then Admit (without_call_id s) else Forward (without_call_id s)
  | PASSTHROUGH => Forward (without_call_id s)
  end.

(** ** Refusals *)

Inductive gate_effect :=
| CountBlock (reason : str)
| CountFailure (component : str)
| Start (status : Z) (hs : list (bytes * bytes))
| Body (body : bytes)
| HandshakeStart (status : Z) (hs : list (bytes * bytes))
| HandshakeBody (body : bytes)
| HandshakeClose (code : Z).

(** [_payload] *)
Definition payload (method path reason : str) : option pyval :=
  match dget reason ERROR_TYPE, dget reason ERROR_CODE with
  | Some ty, Some code =>
    Some (PMap [(KStr (u8 "error"), PMap [(KStr (u8 "type"), PStr ty); (KStr (u8 "code"), PStr code);
                                          (KStr (u8 "route"), PStr (method ++ [32%N] ++ path)); (KStr (u8 "reason"), PStr reason)])])
  | _, _ => None
  end.

(** [_encode]; its keys are strings. *)
Definition encode_payload (p : pyval) : option bytes := dumps_compact (fun _ => None) p.

Definition json_headers_of (body : bytes) : list (bytes * bytes) :=
  [(u8 "content-type", u8 "application/json"); (u8 "content-length", dump_int (len body))].

(** [_emit_audit]'s event; [now] and [id] are the clock and a fresh [uuid4]. *)
Definition gate_event (now : datetime) (id reason code : str) : AuditEvent := {|
  ev_timestamp := now; ev_request_id := id; ev_user_id := u8 "unknown"; ev_team_id := u8 "unknown"; ev_provider := u8 "unknown";
  ev_model := u8 "unknown"; ev_latency_ms := 0; ev_prompt_token_count := 0; ev_completion_token_count := 0; ev_redaction_count := 0;
  ev_finding_label_counts := []; ev_cache_a_hit := false; ev_status := StatusFailed; ev_placeholder_list := None;
  ev_error_code := Some code; ev_block_reason := Some reason; ev_corp_llm_latency_ms := None; ev_pre_pass_latency_ms := None;
  ev_audit_buffer_full := None; ev_profile_ids := []; ev_jurisdiction := None |}.

Context {S : Type} {K : Sink S} (version : str) (now : datetime) (id : str).

(** [_emit_audit]: the sink afterwards, and the failure counted when the write fails. *)
Definition emit_audit (reason code : str) (sink : S) : list gate_effect * S :=
  match emit version (gate_event now id reason code) sink with
  | Ok sink' => ([], sink')
  | Raise _ => ([CountFailure GATE_COMPONENT], sink)
  end.

(** [_refuse] with [_refuse_handshake]; [connects]: the next message of a handshake is
    [websocket.connect].  [None] is the [KeyError] of a reason the tables do not have. *)
Definition refuse_effects (s : scope) (connects : bool) (reason : str) (sink : S) : option (list gate_effect * S) :=
  match dget reason STATUS, dget reason ERROR_CODE, payload (method_of s) (path_of s) reason ≫= encode_payload with
  | Some status, Some code, Some body =>
    let failure := match dget reason GATE_FAILURE_COMPONENT with Some c => [CountFailure c] | None => [] end in
    let '(audited, sink') := emit_audit reason code sink in
    let answer :=
      if str_eqb (sc_type s) (u8 "websocket") then
        if negb connects then []
        else if sc_denial s then [HandshakeStart status (json_headers_of body); HandshakeBody body]
        else [HandshakeClose 1008]
      else if str_eqb (sc_type s) (u8 "http") then
        [Start status (json_headers_of body ++ default [] (dget reason EXTRA_HEADERS)); Body body]
      else [] in
    Some ([CountBlock reason] ++ failure ++ audited ++ answer, sink')
  | _, _, _ => None
  end.
End Gate.

(** ** The reasons and their tables *)

(** Every reason of the gate and of the limiter. *)
Definition REASONS : list str :=
  map reason_str [ROUTE_GATE_UNLISTED; ROUTE_GATE_LISTED; ROUTE_GATE_WEBSOCKET; ROUTE_GATE_MALFORMED; ROUTE_GATE_UNARMED; ROUTE_GATE_ERROR;
                  ROUTE_GATE_BODY_POLICIES; ROUTE_GATE_BODY_NOT_JSON] ++ [ROUTE_GATE_CAPACITY; ROUTE_GATE_BODY_TIMEOUT; OVERSIZE_BLOCKED].

Lemma reason_in r : reason_str r ∈ REASONS.
Proof. apply memb_true. by destruct r. Qed.

(** The tables name every reason: a status of an error, a code and a type. *)
Lemma tables_total reason : reason ∈ REASONS ->
  exists status code ty, dget reason STATUS = Some status /\ (400 <= status < 600) /\ dget reason ERROR_CODE = Some code
                         /\ dget reason ERROR_TYPE = Some ty.
Proof.
  intros H. assert (G : forallb (fun r => match dget r STATUS, dget r ERROR_CODE, dget r ERROR_TYPE with
    | Some st, Some _, Some _ => (400 <=? st) && (st <? 600) | _, _, _ => false end) REASONS = true) by (vm_compute; reflexivity).
  rewrite forallb_forall in G. apply list_elem_of_In in H. specialize (G _ H).
  destruct (dget reason STATUS) as [st|], (dget reason ERROR_CODE) as [code|], (dget reason ERROR_TYPE) as [ty|]; try done.
  exists st, code, ty. split_and!; try done; lia.
Qed.

Section GateProofs.
Context {U : Unicode} {UL : UnicodeLaws U} {F : FloatText} (too_deep : str -> bool).

Lemma payload_encodes method path reason : reason ∈ REASONS ->
  exists body, payload method path reason ≫= encode_payload = Some body.
Proof.
  intros H. destruct (tables_total _ H) as (st & code & ty & _ & _ & Hc & Ht). unfold payload. rewrite Ht, Hc. by eexists.
Qed.

(** ** What reaches the app *)

Lemma no_call_id s h : h ∈ sc_headers (without_call_id s) -> bytes_lower h.1 <> CALL_ID_HEADER.
Proof.
  intros H%list_elem_of_In. apply filter_In in H as [_ H]. apply negb_true_iff in H. by apply str_eqb_neq.
Qed.

Lemma refused_reason g s reason why : gate_plan g s = Refused reason why -> reason ∈ REASONS.
Proof.
  unfold gate_plan. destruct (str_eqb _ _); [done|]. cbv zeta. destruct (d_verdict _).
  - done.
  - destruct (gt_armed g); cbn [negb]; [by destruct (gt_limited g)|]. intros [= <- _]. apply (reason_in ROUTE_GATE_UNARMED).
  - intros [= <- _]. apply (reason_in (default ROUTE_GATE_ERROR (d_block_reason _))).
Qed.

(** What the check lets through. *)
Lemma body_problem_none chunks ct : body_problem too_deep chunks ct = None ->
  let body := concat chunks in
  (body = [] \/ is_json ct = true /\ exists text, utf8_text body = Some text) /\
  (forall text d, utf8_text body = Some text -> too_deep text = false -> loads text = Some (JObj d) -> dget (u8 "policies") d = None).
Proof.
  unfold body_problem. cbv zeta. set (body := concat chunks). intros H. split.
  - destruct body as [|c b]; [by left|right]. destruct (is_json ct); [|done]. cbn [negb andb orb] in H. split; [done|].
    destruct (match ct with CtValue v => _ | _ => _ end); [done|]. destruct (utf8_text (c :: b)); [by eexists|done].
  - intros text d Et Hdeep Hl. destruct (dget (u8 "policies") d) as [v|] eqn:Ed; [|done]. exfalso.
    destruct (negb (is_json ct) && _); [done|]. destruct (match ct with CtValue v => _ | _ => _ end); [done|].
    rewrite Et, andb_false_r in H. assert (Hs : utf8_strict false body = Some text) by (unfold utf8_text in Et; by case_bool_decide).
    assert (Hc : negb (contains body (u8 "policies")) && negb (contains body U_ESCAPE) = false).
    { destruct (object_key_spelled text d (u8 "policies") v Hl Ed eq_refl) as [G|G]; apply (utf8_spelled _ _ _ _ Hs) in G; try done; rewrite G; [done|].
      by rewrite andb_false_r. }
    rewrite Hc, Hdeep, Hl in H. unfold dmem in H. by rewrite Ed in H.
Qed.

(** what reaches litellm.  A connection is handed to the app as it is only for
    the lifespan protocol; otherwise the classifier gave it a verdict that opens its
    route, a rewritten one only on an armed gate, and it carries no call id of its own. *)
Theorem gate_forwards_only_open g s s' :
  gate_plan g s = Forward s' \/ gate_plan g s = Admit s' ->
  (sc_type s = u8 "lifespan" /\ s' = s) \/
  (d_verdict (decide_scope g s) <> REFUSE /\
   (d_verdict (decide_scope g s) = REWRITTEN -> gt_armed g = true /\ (gt_limited g = true -> gate_plan g s = Admit s')) /\
   (forall h, h ∈ sc_headers s' -> bytes_lower h.1 <> CALL_ID_HEADER)).
Proof.
  unfold gate_plan. destruct (str_eqb (sc_type s) (u8 "lifespan")) eqn:E.
  { apply str_eqb_eq in E. intros [[= <-]|[=]]. by left. }
  cbv zeta. intros H. right. destruct (d_verdict (decide_scope g s)); [| |by destruct H].
  - destruct H as [[= <-]|[=]]. split_and!; try done. apply no_call_id.
  - destruct (gt_armed g), (gt_limited g); cbn [negb] in *; destruct H as [[= <-]|[= <-]]; split_and!; try done; apply no_call_id.
Qed.

(** C35: the body of a rewritten request.  A request that the gate admits to the limiter
    takes a slot only with an empty body or with a body of content type JSON that is UTF-8,
    and not with a JSON object that has a top-level [policies] key, however the key is
    spelled in the bytes, as long as the parser reaches the end of the body: what the quick
    search of the bytes does not find, the parser would not find either.  A body nested
    past the interpreter's recursion limit ([too_deep]) is left to litellm, as one that is
    not JSON is. *)
Theorem rewritten_body_checked L g s s' c chunks held h c' :
  gate_plan g s = Admit s' ->
  after_drain L (body_check too_deep (content_type_of (sc_headers s'))) c (Chunks chunks) held = (Some (PServing h), c') ->
  gt_armed g = true /\
  (concat chunks = [] \/ is_json (content_type_of (sc_headers s')) = true /\ exists text, utf8_text (concat chunks) = Some text) /\
  (forall text d, utf8_text (concat chunks) = Some text -> too_deep text = false -> loads text = Some (JObj d) ->
     dget (u8 "policies") d = None).
Proof.
  intros Hp Hd. split.
  - unfold gate_plan in Hp. destruct (str_eqb _ _); [done|]. cbv zeta in Hp. destruct (d_verdict _); try done.
    by destruct (gt_armed g).
  - apply body_problem_none. cbn [after_drain body_check] in Hd. by destruct (body_problem too_deep chunks _).
Qed.

(** A refusal: of the gate, or of the limiter it admits to. *)
Definition refuses (L : limits) (g : gate) (s : scope) (reason : str) : Prop :=
  (exists why, gate_plan g s = Refused reason why) \/
  exists s', gate_plan g s = Admit s' /\
    ((exists c declared c', arrive L c declared = (PRefusing reason, c')) \/
     exists c d held c', after_drain L (body_check too_deep (content_type_of (sc_headers s'))) c d held = (Some (PRefusing reason), c')).

Lemma refuses_known L g s reason : refuses L g s reason -> reason ∈ REASONS.
Proof.
  intros [[why H]|(s' & _ & [(c & declared & c' & H)|(c & d & held & c' & H)])].
  - by eapply refused_reason.
  - unfold arrive in H. assert (reason = ROUTE_GATE_CAPACITY) as -> by (repeat case_match; by simplify_eq). by apply memb_true.
  - unfold after_drain, body_check in H. destruct d as [chunks| | | |]; try (simplify_eq; by apply memb_true).
    destruct (body_problem too_deep chunks _) as [r|]; cbn in H; [injection H as <- _; apply reason_in|].
    destruct (try_acquire L _) as [[|] c2]; [done|]. injection H as <- _. by apply memb_true.
Qed.

Definition is_failure (e : gate_effect) : bool := match e with CountFailure _ => true | _ => false end.

(** every refusal is answered and recorded.  Whatever the gate or the limiter refuses,
    the tables know the reason; it is counted once, its record goes to the audit sink, or
    the loss is counted; an HTTP request gets one start with the status of an error and
    the length of the one body that follows, and a handshake is denied or closed. *)
Theorem gate_refusal_answered {S} {K : Sink S} L version now id g s reason (connects : bool) (sink : S) :
  refuses L g s reason ->
  exists status code body failures sink',
    let answer := if str_eqb (sc_type s) (u8 "websocket")
                  then (if connects then if sc_denial s then [HandshakeStart status (json_headers_of body); HandshakeBody body]
                                         else [HandshakeClose 1008] else [])
                  else if str_eqb (sc_type s) (u8 "http")
                  then [Start status (json_headers_of body ++ default [] (dget reason EXTRA_HEADERS)); Body body] else [] in
    refuse_effects version now id s connects reason sink = Some (CountBlock reason :: failures ++ answer, sink') /\
    forallb is_failure failures = true /\ 400 <= status < 600 /\
    match write (serialize version (gate_event now id reason code)) sink with
    | Ok written => sink' = written
    | Raise _ => sink' = sink /\ CountFailure GATE_COMPONENT ∈ failures
    end.
Proof.
  intros Hr%refuses_known. destruct (tables_total _ Hr) as (status & code & ty & Hs & Hst & Hc & Ht).
  destruct (payload_encodes (method_of s) (path_of s) _ Hr) as [body Hb].
  set (failure := match dget reason GATE_FAILURE_COMPONENT with Some c => [CountFailure c] | None => [] end).
  assert (Hf : forallb is_failure failure = true) by (subst failure; destruct (dget reason GATE_FAILURE_COMPONENT); reflexivity).
  destruct (emit_audit version now id reason code sink) as [audited sink'] eqn:Ea.
  exists status, code, body, (failure ++ audited), sink'. cbv zeta. unfold refuse_effects. rewrite Hs, Hc, Hb, Ea. fold failure.
  unfold emit_audit, emit in Ea. cbv zeta in Ea. rewrite serialize_ok in Ea. cbn [lift_gate rbind] in Ea.
  destruct (write (serialize version (gate_event now id reason code)) sink) as [w|e]; cbn [lift_sink] in Ea; injection Ea as <- <-.
  - rewrite app_nil_r. split_and!; try done; try lia. by destruct connects.
  - split_and!; try done; try lia; [by destruct connects; rewrite <-!app_assoc|by rewrite forallb_app, Hf|set_solver].
Qed.
End GateProofs.

(** ** Witnesses *)

Definition chat_scope (hs : list (bytes * bytes)) : scope :=
  Scope (u8 "http") (Some (u8 "post")) (Some (u8 "/v1/messages")) (Some (u8 "/v1/messages")) hs false.
Definition chat_headers : list (bytes * bytes) :=
  [(u8 "Content-Type", js8 "application/json; charset='UTF-8'"); (u8 "X-LiteLLM-Call-Id", u8 "mine")].
Definition demo_gate : gate := Gate true [] true.

Definition demo_content_type : content_type := content_type_of chat_headers.

Example body_checks :
  let check b := body_problem (F := id_floats) (fun _ => false) [b] demo_content_type in
  check (js8 "{'model': 'm', 'x': {'policies': 1}}") = None /\
  check (js8 "{'poli\u0063ies': []}") = Some ROUTE_GATE_BODY_POLICIES /\
  check (js8 "{'a': 1, 'policies': []}") = Some ROUTE_GATE_BODY_POLICIES /\
  check ([239; 187; 191]%N ++ js8 "{}") = Some ROUTE_GATE_BODY_NOT_JSON /\
  check (js8 "{'poli" ++ [255%N] ++ js8 "cies': 1}") = Some ROUTE_GATE_BODY_NOT_JSON /\
  check [] = None.
Proof. vm_compute. auto 10. Qed.

(** Observed: the docstring of [_body_problem] refuses every object with the key; past the
    recursion limit the key is not looked for. *)
Lemma deep_body_unchecked : body_problem (F := id_floats) (fun _ => true) [js8 "{'policies': [], 'x': [[[[]]]]}"] demo_content_type = None.
Proof. vm_compute. reflexivity. Qed.

Example charset_checks :
  map utf8_charset [js8 "application/json"; js8 "application/json; charset=utf-8"; js8 "a/b; charset=latin-1"; js8 "a/b; charset*=utf-8";
                    js8 "a/b; charset=utf-8; charset=utf-8"; js8 "a/b; charset"; js8 "a/b; charset='utf8'"]
  = [true; true; false; false; false; false; true].
Proof. vm_compute. reflexivity. Qed.

Lemma gate_forwards_only_open_witness :
  forall h, h ∈ sc_headers (without_call_id (chat_scope chat_headers)) -> bytes_lower h.1 <> CALL_ID_HEADER.
Proof.
  destruct (gate_forwards_only_open (U := ru_unicode) demo_gate (chat_scope chat_headers) (without_call_id (chat_scope chat_headers)))
    as [[H _]|(_ & _ & H)]; [|discriminate H|exact H].
  right. vm_compute. reflexivity.
Defined.

Lemma rewritten_body_checked_witness : gt_armed demo_gate = true.
Proof.
  apply (rewritten_body_checked (U := ru_unicode) (F := id_floats) (fun _ => false) demo_limits demo_gate (chat_scope chat_headers)
    (without_call_id (chat_scope chat_headers)) (Counters 0 1 2) [u8 "{"; u8 "}"] 2 2 (Counters 1 0 2)).
  - vm_compute. reflexivity.
  - vm_compute. reflexivity.
Defined.

Lemma gate_refusal_answered_witness :
  exists status code body failures sink',
    refuse_effects (U := ru_unicode) (u8 "1.0") (DateTime 2025 1 2 3 4 5 0) (u8 "id1") (chat_scope []) true (u8 "route_gate_unarmed") ([] : list record)
    = Some (CountBlock (u8 "route_gate_unarmed") :: failures ++ [Start status (json_headers_of body); Body body], sink') /\
    sink' = [serialize (u8 "1.0") (gate_event (DateTime 2025 1 2 3 4 5 0) (u8 "id1") (u8 "route_gate_unarmed") code)].
Proof.
  destruct (gate_refusal_answered (U := ru_unicode) (UL := ru_unicode_laws) (F := id_floats) (fun _ => false) demo_limits (u8 "1.0")
    (DateTime 2025 1 2 3 4 5 0) (u8 "id1") (Gate false [] true) (chat_scope []) (u8 "route_gate_unarmed") true ([] : list record))
    as (status & code & body & failures & sink' & E & _ & _ & Hw).
  - left. eexists. vm_compute. reflexivity.
  - exists status, code, body, failures, sink'. split; [exact E|exact Hw].
Defined.
