(* ===== verification/Desanitize.v ===== *)
(** * Restoring the response at the ASGI layer

    [route_gate/desanitize_middleware.py]: the mapping of a request is kept by its
    ticket until the response is over; the middleware wraps [send] and restores a 2xx
    JSON body when it is complete and a 2xx event stream event by event, and lets every
    other response pass, reading only its token counts.

    [response] is [_Response] with the mapping that the store holds for the ticket;
    a message of the app is one step, which appends to the list of effects: what is
    sent to the client, the decision and the publication of the terminal record, the
    report of a failure.  [restorer] is [_SseRestorer] over the stream desanitizers of
    Sse.v and ResponsesStream.v; [tap] is [_UsageTap].  The client's [send] returns. *)

From S2P Require Import Prelude Text Json JsonBytes Placeholder ContentBlocks Streaming Sse ResponsesStream Inflight TerminalAudit HookData.
Local Open Scope py_scope.
Local Open Scope Z_scope.

Abbreviation bytes := (list N).

Definition INTERNAL_ERROR_BODY : str :=
  u8 "{" ++ dump_string (u8 "error") ++ u8 ":{" ++ dump_string (u8 "type") ++ u8 ":" ++ dump_string (u8 "internal_error")
  ++ u8 "," ++ dump_string (u8 "code") ++ u8 ":" ++ dump_string E_INTERNAL
  ++ u8 "," ++ dump_string (u8 "message") ++ u8 ":" ++ dump_string (u8 "internal error") ++ u8 "}}".

Definition USAGE_BODY_CAP : Z := 1024 * 1024.
Definition USAGE_EVENT_CAP : Z := 8 * 1024 * 1024.

(** ** Texts and events *)

(** [b.decode("utf-8", "replace")] *)
Definition utf8_replace (b : bytes) : str :=
  let '(t, held) := utf8_inc b in t ++ match held with [] => [] | _ => [65533%N] end.

(** [json.dumps(v, ensure_ascii=False, separators=(",", ":"))] *)
Fixpoint dumps_tight (v : json) : str :=
  match v with
  | JNull => u8 "null"
  | JBool true => u8 "true"
  | JBool false => u8 "false"
  | JInt z => dump_int z
  | JFloat t => t
  | JStr s => dump_string s
  | JList l => u8 "[" ++ join (u8 ",") (map dumps_tight l) ++ u8 "]"
  | JObj d => u8 "{" ++ join (u8 ",") (map (fun e => dump_string e.1 ++ u8 ":" ++ dumps_tight e.2) d) ++ u8 "}"
  end.

Definition data_field (event : str) : option str :=
  match List.filter (fun line => starts_with line (u8 "data:")) (splitlines event) with
  | [] => None
  | lines => Some (join [10%N] (map (fun line => lstrip (drop 5 line)) lines))
  end.

Definition json_or_none {F : FloatText} (data : option str) : json :=
  match data with Some s => default JNull (loads s) | None => JNull end.

(** ** Token counts *)

Record usage := Usage { us_prompt : option Z; us_completion : option Z }.

Definition usage_init : usage := Usage None None.

(** [_count]: the first of the names with a count. *)
Fixpoint count_of (u : jdict) (names : list str) : option Z :=
  match names with
  | [] => None
  | name :: rest => match jget name u with
                    | JInt z => if 0 <=? z then Some z else count_of u rest
                    | _ => count_of u rest
                    end
  end.

Definition usage_take (u : usage) (d : jdict) : usage :=
  Usage (match count_of d [u8 "prompt_tokens"; u8 "input_tokens"] with Some n => Some n | None => us_prompt u end)
        (match count_of d [u8 "completion_tokens"; u8 "output_tokens"] with Some n => Some n | None => us_completion u end).

Definition observe_holder (u : usage) (holder : json) : usage :=
  match holder with
  | JObj d => match jget (u8 "usage") d with JObj d' => usage_take u d' | _ => u end
  | _ => u
  end.

Definition observe (u : usage) (payload : json) : usage :=
  match payload with
  | JObj d => foldl observe_holder u [payload; jget (u8 "message") d; jget (u8 "response") d]
  | _ => u
  end.

(** [counts]; [held]: the counts the facts have. *)
Definition usage_counts (u : usage) (held : Z * Z) : option (Z * Z) :=
  match us_prompt u, us_completion u with
  | None, None => None
  | p, c => Some (default held.1 p, default held.2 c)
  end.

Definition empty_choice (choice : json) : bool :=
  match choice with
  | JObj d =>
    match jget (u8 "finish_reason") d, jget (u8 "logprobs") d with
    | JNull, JNull =>
      match jget (u8 "delta") d with
      | JNull => true
      | JObj delta => forallb (fun e => match e.2 with JNull => true | _ => false end) delta
      | _ => false
      end
    | _, _ => false
    end
  | _ => false
  end.

Definition injected_usage_artifact (payload : json) : bool :=
  match payload with
  | JObj d =>
    match jget (u8 "provider_specific_fields") d, jget (u8 "choices") d with
    | JNull, JList choices => forallb empty_choice choices
    | _, _ => false
    end
  | _ => false
  end.

(** ** Reading a response that is not restored *)

Record tap := Tap { tp_sse : bool; tp_drops : bool; tp_buffer : bytes; tp_over : bool }.

Definition tap_init (sse drop_usage_chunk : bool) : tap := Tap sse (sse && drop_usage_chunk) [] false.

Definition tap_for_content_type (content_type : str) (drop_usage_chunk : bool) : option tap :=
  if starts_with content_type (u8 "text/event-stream") then Some (tap_init true drop_usage_chunk)
  else if contains content_type (u8 "json") then Some (tap_init false false)
  else None.

Section Tap.
Context {F : FloatText}.

(** [_read]: the counts, and whether the event is dropped. *)
Definition tap_read (drops : bool) (event : bytes) (u : usage) : usage * bool :=
  if negb drops && negb (contains event (dump_string (u8 "usage"))) then (u, false) else
  let payload := json_or_none (data_field (utf8_replace event)) in
  (observe u payload, drops && injected_usage_artifact payload).

(** The complete events of the buffer: what goes out, the rest, the counts.  An event
    takes a byte at least, so the length is enough fuel. *)
Fixpoint tap_events (fuel : nat) (drops : bool) (buffer : bytes) (u : usage) : bytes * bytes * usage :=
  match fuel with
  | O => ([], buffer, u)
  | Datatypes.S n =>
    match next_event buffer with
    | None => ([], buffer, u)
    | Some (event, _, rest) =>
      let '(u1, dropped) := tap_read drops event u in
      let '(out, held, u2) := tap_events n drops rest u1 in
      ((if dropped then [] else event) ++ out, held, u2)
    end
  end.

Definition tap_feed_sse (t : tap) (chunk : bytes) (final : bool) (u : usage) : bytes * tap * usage :=
  if tp_over t then (chunk, t, u) else
  let buffer := tp_buffer t ++ chunk in
  let '(out, held, u1) := tap_events (length buffer) (tp_drops t) buffer u in
  let '(out1, held1, u2) :=
    match final, held with
    | true, _ :: _ => let '(u2, dropped) := tap_read (tp_drops t) held u1 in (out ++ (if dropped then [] else held), [], u2)
    | _, _ => (out, held, u1)
    end in
  let '(out2, held2, over) := if USAGE_EVENT_CAP <? len held1 then (out1 ++ held1, [], true) else (out1, held1, false) in
  (if tp_drops t then out2 else chunk, Tap (tp_sse t) (tp_drops t) held2 over, u2).

Definition tap_feed_json (t : tap) (chunk : bytes) (final : bool) (u : usage) : tap * usage :=
  if tp_over t then (t, u) else
  if USAGE_BODY_CAP <? len (tp_buffer t) + len chunk then (Tap (tp_sse t) (tp_drops t) [] true, u) else
  let buffer := tp_buffer t ++ chunk in
  if final then (Tap (tp_sse t) (tp_drops t) [] false, observe u (json_or_none (Some (utf8_replace buffer))))
  else (Tap (tp_sse t) (tp_drops t) buffer false, u).

Definition tap_feed (t : tap) (chunk : bytes) (final : bool) (u : usage) : bytes * tap * usage :=
  if tp_sse t then tap_feed_sse t chunk final u
  else let '(t1, u1) := tap_feed_json t chunk final u in (chunk, t1, u1).
End Tap.

(** ** Restoring an event stream *)

Record restorer := Restorer {
  rt_drop_usage_chunk : bool;
  rt_utf8 : bytes;                      (* the bytes of an unfinished character *)
  rt_buffer : str;
  rt_ready : list str;
  rt_events : sse;
  rt_responses : responses;
  rt_event_lines : bool;
  rt_saw_error : bool;
  rt_usage : usage;
}.

Definition restorer_init (mapping : list pair) (drop_usage_chunk : bool) : restorer :=
  Restorer drop_usage_chunk [] [] [] (sse_init mapping) (responses_init mapping) false false usage_init.

Section Restorer.
Context {U : Unicode} {F : FloatText} {V : PyValues} {EO : EventObjects}.

(** [_text] *)
Definition item_str (e : emitted) : str := match e with EText t => t | EBytes b => utf8_replace b end.

(** [_frame]; [None]: [payload.get] of something that is no dict. *)
Definition frame (payload : json) (with_event_line : bool) : option str :=
  let data := u8 "data: " ++ dumps_tight payload ++ [10; 10]%N in
  if with_event_line then
    match payload with
    | JObj d => Some (u8 "event: " ++ str_of (jget (u8 "type") d) ++ [10%N] ++ data)
    | _ => None
    end
  else Some data.

(** [item if isinstance(item, dict) else json.loads(item)] of what the Responses
    desanitizer gives for a dict; [None] is an exception. *)
Definition chunk_payload (c : chunk) : option json :=
  match c with CDict d => Some (JObj d) | CText t => loads t | CObj _ => None end.

Definition frames (chunks : list chunk) (with_event_line : bool) : option (list str) :=
  mapM (fun c => chunk_payload c ≫= fun p => frame p with_event_line) chunks.

(** [_responses_tails]. *)
Definition responses_tails (r : restorer) : option (list str) * restorer :=
  let '(chunks, rs) := responses_flush (rt_responses r) in
  (frames chunks (rt_event_lines r),
   Restorer (rt_drop_usage_chunk r) (rt_utf8 r) (rt_buffer r) (rt_ready r) (rt_events r) rs (rt_event_lines r)
     (rt_saw_error r) (rt_usage r)).

(** The attributes [_event] sets before it restores. *)
Definition noted (r : restorer) (saw_error event_lines : bool) (u : usage) : restorer :=
  Restorer (rt_drop_usage_chunk r) (rt_utf8 r) (rt_buffer r) (rt_ready r) (rt_events r) (rt_responses r)
    event_lines saw_error u.

Definition with_responses (rs : responses) (r : restorer) : restorer :=
  Restorer (rt_drop_usage_chunk r) (rt_utf8 r) (rt_buffer r) (rt_ready r) (rt_events r) rs (rt_event_lines r)
    (rt_saw_error r) (rt_usage r).
Definition with_events (e : sse) (r : restorer) : restorer :=
  Restorer (rt_drop_usage_chunk r) (rt_utf8 r) (rt_buffer r) (rt_ready r) e (rt_responses r) (rt_event_lines r)
    (rt_saw_error r) (rt_usage r).
Definition with_buffer (utf8 : bytes) (buffer : str) (r : restorer) : restorer :=
  Restorer (rt_drop_usage_chunk r) utf8 buffer (rt_ready r) (rt_events r) (rt_responses r) (rt_event_lines r)
    (rt_saw_error r) (rt_usage r).
Definition with_ready (ready : list str) (r : restorer) : restorer :=
  Restorer (rt_drop_usage_chunk r) (rt_utf8 r) (rt_buffer r) ready (rt_events r) (rt_responses r) (rt_event_lines r)
    (rt_saw_error r) (rt_usage r).

Definition has_event_line (event : str) : bool := existsb (fun line => starts_with line (u8 "event:")) (splitlines event).

(** The head of [_event]: held Responses text before [[DONE]] and before an error. *)
Definition event_head (done_or_error : bool) (r : restorer) : option (list str) * restorer :=
  if done_or_error then responses_tails r else (Some [], r).

(** [_event]; [None] when it raises. *)
Definition restorer_event (r : restorer) (event : str) : option (list str) * restorer :=
  let data := data_field event in
  let payload := json_or_none data in
  let r0 := noted r (rt_saw_error r) (rt_event_lines r) (observe (rt_usage r) payload) in
  if rt_drop_usage_chunk r && injected_usage_artifact payload then (Some [], r0) else
  let is_done := bool_decide (data = Some (u8 "[DONE]")) in
  let ends := is_done || is_stream_error_event payload in
  let r1 := noted r0 (rt_saw_error r0 || (ends && negb is_done)) (rt_event_lines r0) (rt_usage r0) in
  let '(head, r2) := event_head ends r1 in
  match head with
  | None => (None, r2)
  | Some head =>
    match payload with
    | JObj d =>
      let event_type := str_of (py_or (jget (u8 "type") d) (JStr [])) in
      if starts_with event_type (u8 "response.") then
        let line := has_event_line event in
        let r3 := noted r2 (rt_saw_error r2 || str_eqb event_type (u8 "response.failed")) (rt_event_lines r2 || line)
                    (rt_usage r2) in
        match responses_feed (rt_responses r3) (CDict d) with
        | Raise _ => (None, r3)
        | Ok (chunks, rs) => (match frames chunks line with Some fs => Some (head ++ fs) | None => None end, with_responses rs r3)
        end
      else match sse_feed (rt_events r2) (EText event) with
           | Raise _ => (None, r2)
           | Ok (items, e) => (Some (head ++ map item_str items), with_events e r2)
           end
    | _ => match sse_feed (rt_events r2) (EText event) with
           | Raise _ => (None, r2)
           | Ok (items, e) => (Some (head ++ map item_str items), with_events e r2)
           end
    end
  end.

(** The loop of [feed] over the complete events of the buffer; [true]: one raised.
    An event takes a character at least, so the length is enough fuel. *)
Fixpoint restore_events (fuel : nat) (r : restorer) : restorer * bool :=
  match fuel with
  | O => (r, false)
  | Datatypes.S n =>
    match next_event (rt_buffer r) with
    | None => (r, false)
    | Some (event, _, rest) =>
      match restorer_event (with_buffer (rt_utf8 r) rest r) event with
      | (None, r1) => (r1, true)
      | (Some out, r1) => restore_events n (with_ready (rt_ready r1 ++ out) r1)
      end
    end
  end.

Definition restorer_feed (r : restorer) (c : bytes) : restorer * bool :=
  let '(decoded, held) := utf8_inc (rt_utf8 r ++ c) in
  let r1 := with_buffer held (rt_buffer r ++ decoded) r in
  restore_events (length (rt_buffer r1)) r1.

(** What is left of an unfinished event, then the tails of both desanitizers. *)
Definition flush_last (r : restorer) : restorer * bool :=
  match rt_buffer r with
  | [] => (r, false)
  | event => match restorer_event (with_buffer (rt_utf8 r) [] r) event with
             | (None, r1) => (r1, true)
             | (Some out, r1) => (with_ready (rt_ready r1 ++ out) r1, false)
             end
  end.

Definition restorer_flush (r : restorer) : restorer * bool :=
  let tail := match rt_utf8 r with [] => [] | _ => [65533%N] end in
  match flush_last (with_buffer [] (rt_buffer r ++ tail) r) with
  | (r1, true) => (r1, true)
  | (r1, false) =>
    match responses_tails r1 with
    | (None, r2) => (r2, true)
    | (Some tails, r2) =>
      let r3 := with_ready (rt_ready r2 ++ tails) r2 in
      match sse_flush (rt_events r3) with
      | Raise _ => (r3, true)
      | Ok (items, e) => (with_events e (with_ready (rt_ready r3 ++ map item_str items) r3), false)
      end
    end
  end.

(** [take]; [None] is the [UnicodeEncodeError] of [encode]. *)
Definition restorer_take (r : restorer) : option bytes * restorer :=
  (utf8_encode (concat (rt_ready r)), with_ready [] r).
End Restorer.

(** ** The mappings of the tickets *)

(** [ResponseMappings.register] for one ticket, [hook] being [release]: whether it is
    held, the ticket with the hook, the held mapping. *)
Definition register (hook : nat) (t : ticket) (mapping : list pair) (held : option (list pair))
  : bool * ticket * option (list pair) :=
  if tk_cancelled t || tk_closed t then (false, t, held) else
  let '(hooked, t1) := on_close hook t in
  if hooked then (true, t1, Some mapping) else (false, t1, held).

(** ** The response *)

Abbreviation headers := (list (bytes * bytes)).

Inductive message :=
| MStart (status : Z) (hs : headers)
| MBody (body : bytes) (more : bool)
| MOther (kind : str).

(** [_header], as the latin-1 text. *)
Definition header (hs : headers) (name : bytes) : str :=
  match List.find (fun h : bytes * bytes => str_eqb (bytes_lower h.1) name) hs with Some h => h.2 | None => [] end.

(** [_without] *)
Definition without (hs : headers) (name : bytes) : headers :=
  List.filter (fun h : bytes * bytes => negb (str_eqb (bytes_lower h.1) name)) hs.

Definition CONTENT_LENGTH : bytes := u8 "content-length".

(** [_drops_usage_chunk] of the facts on the ticket. *)
Definition drops_usage_chunk (audited : option facts) : bool :=
  match audited with Some f => negb (af_client_asked_usage f) | None => false end.

Inductive mode := Unstarted | Pass | Unary | SseMode | Closed.

#[export] Instance mode_eq_dec : EqDecision mode.
Proof. solve_decision. Defined.

Inductive phase := BeforeStart | AfterStart.

(** What a step does, in order. *)
Inductive effect :=
| Sent (m : message)
| Decided (o : outcome) (code : option str)
| Counted (u : usage)
| Published (o : outcome) (code : option str)
| Reported (p : phase).

Record response := Response {
  res_mode : mode;
  res_status : Z;
  res_start : option (Z * headers);
  res_mapping : option (list pair);
  res_body : bytes;
  res_sse : option restorer;
  res_usage : usage;                     (* in [SseMode], the restorer's *)
  res_tap : option tap;
  res_held : option (list pair);         (* what [ResponseMappings] holds for the ticket *)
  res_failed : bool;                     (* [mark_failed] *)
}.

Definition response_init (held : option (list pair)) : response :=
  Response Unstarted 0 None None [] None usage_init None held false.

(** [_Response.close], the ticket's hook too. *)
Definition close (r : response) : response :=
  Response Closed (res_status r) None None [] None (res_usage r) None None (res_failed r).

Definition set_usage (u : usage) (r : response) : response :=
  Response (res_mode r) (res_status r) (res_start r) (res_mapping r) (res_body r) (res_sse r) u (res_tap r) (res_held r) (res_failed r).
Definition set_tap (t : tap) (r : response) : response :=
  Response (res_mode r) (res_status r) (res_start r) (res_mapping r) (res_body r) (res_sse r) (res_usage r) (Some t) (res_held r) (res_failed r).
Definition set_body (b : bytes) (r : response) : response :=
  Response (res_mode r) (res_status r) (res_start r) (res_mapping r) b (res_sse r) (res_usage r) (res_tap r) (res_held r) (res_failed r).
Definition set_sse (s : restorer) (r : response) : response :=
  Response (res_mode r) (res_status r) (res_start r) (res_mapping r) (res_body r) (Some s) (rt_usage s) (res_tap r) (res_held r) (res_failed r).

Definition is_2xx (status : Z) : bool := (200 <=? status) && (status <? 300).

Section Response.
Context {U : Unicode} {F : FloatText} {V : PyValues} {EO : EventObjects}.
(** Whether a terminal audit is wired, and the facts on the ticket. *)
Context (terminal : bool) (audited : option facts).

(** [_publish] *)
Definition publish_effects (o : outcome) (code : option str) (u : usage) : list effect :=
  if terminal then [Counted u; Published o code] else [].

(** [_failed]: the mapping is released, the outcome decided, the failure reported. *)
Definition mark_response_failed (r : response) : response :=
  Response (res_mode r) (res_status r) (res_start r) (res_mapping r) (res_body r) (res_sse r) (res_usage r) (res_tap r) None true.
Definition failed_effects (p : phase) : list effect :=
  (if terminal then [Decided OutFailed (Some E_INTERNAL)] else []) ++ [Reported p].

(** [_internal_error] *)
Definition internal_error_effects (u : usage) : list effect :=
  [Sent (MStart 500 [(u8 "content-type", u8 "application/json"); (CONTENT_LENGTH, dump_int (len INTERNAL_ERROR_BODY))]);
   Sent (MBody INTERNAL_ERROR_BODY false)]
  ++ publish_effects OutFailed (Some E_INTERNAL) u.

(** [_on_start].  Building a restorer does not fail. *)
Definition on_start (r : response) (status : Z) (hs : headers) : response * list effect :=
  let content_type := u_lower (header hs (u8 "content-type")) in
  let encoding := u_lower (strip (header hs (u8 "content-encoding"))) in
  let identity := memb encoding [[]; u8 "identity"] in
  let drop_usage := drops_usage_chunk audited in
  let pass tap hs' := (Response Pass status (res_start r) (res_mapping r) (res_body r) (res_sse r) (res_usage r) tap None (res_failed r),
                       [Sent (MStart status hs')]) in
  match res_held r with
  | Some ((_ :: _) as mapping) =>
    if is_2xx status && identity then
      if starts_with content_type (u8 "text/event-stream") then
        let s := restorer_init mapping drop_usage in
        (Response SseMode status (res_start r) (Some mapping) (res_body r) (Some s) (rt_usage s) (res_tap r) (res_held r) (res_failed r),
         [Sent (MStart status (without hs CONTENT_LENGTH))])
      else if contains content_type (u8 "json") then
        (Response Unary status (Some (status, hs)) (Some mapping) (res_body r) (res_sse r) (res_usage r) (res_tap r) (res_held r) (res_failed r), [])
      else (Response Pass status (res_start r) (Some mapping) (res_body r) (res_sse r) (res_usage r) (res_tap r) None (res_failed r),
            [Sent (MStart status hs)])
    else pass (res_tap r) (if match res_tap r with Some t => tp_drops t | None => false end then without hs CONTENT_LENGTH else hs)
  | _ =>
    let tap := if is_2xx status && identity then tap_for_content_type content_type drop_usage else res_tap r in
    pass tap (if match tap with Some t => tp_drops t | None => false end then without hs CONTENT_LENGTH else hs)
  end.

(** The [try] of [_finish_unary]: the new body, and the counts read on the way. *)
Definition restore_body (mapping : list pair) (body : bytes) (u : usage) : option bytes * usage :=
  match loads_bytes body with
  | None => (None, u)
  | Some payload =>
    (apply_reverse_to_response (reverse_text mapping true 0) payload ≫= fun restored => utf8_encode (dumps_tight restored),
     observe u payload)
  end.

(** [_finish_unary]; its [assert] holds in [Unary], see [response_inv]. *)
Definition finish_unary (r : response) : response * list effect :=
  match res_start r, res_mapping r with
  | Some (status, hs), Some mapping =>
    let '(body, u) := restore_body mapping (res_body r) (res_usage r) in
    let r1 := close (set_usage u r) in
    match body with
    | None => (close (mark_response_failed r1), failed_effects BeforeStart ++ internal_error_effects u)
    | Some body =>
      (r1, [Sent (MStart status (without hs CONTENT_LENGTH ++ [(CONTENT_LENGTH, dump_int (len body))])); Sent (MBody body false)]
           ++ publish_effects OutOk None u)
    end
  | _, _ => (r, [])
  end.

(** [_on_sse]; [true]: [take] raised into the app. *)
Definition on_sse (r : response) (c : bytes) (more : bool) : response * list effect * bool :=
  match res_sse r with
  | None => (r, [], false)
  | Some s =>
    let '(s1, failure1) := restorer_feed s c in
    let '(s2, failure) := if failure1 then (s1, true) else if more then (s1, false) else restorer_flush s1 in
    let '(out, s3) := restorer_take s2 in
    let r1 := set_sse s3 r in
    match out with
    | None => (r1, [], true)
    | Some out =>
      if failure then
        (mark_response_failed (close r1),
         failed_effects AfterStart ++ (match out with [] => [] | _ => [Sent (MBody out true)] end) ++ [Sent (MBody [] false)]
         ++ publish_effects OutFailed (Some E_INTERNAL) (rt_usage s3), false)
      else if more then (r1, [Sent (MBody out true)], false)
      else (close r1,
            Sent (MBody out false) :: publish_effects (if rt_saw_error s3 then OutFailed else OutOk) None (rt_usage s3), false)
    end
  end.

(** The body of a response that passes. *)
Definition on_pass (r : response) (body : bytes) (more : bool) : response * list effect :=
  let '(body1, r1) :=
    match res_tap r with
    | None => (body, r)
    | Some t => let '(out, t1, u) := tap_feed t body (negb more) (res_usage r) in
                (if tp_drops t1 then out else body, set_usage u (set_tap t1 r))
    end in
  if more then (r1, [Sent (MBody body1 true)])
  else (close r1, Sent (MBody body1 false) :: publish_effects (if is_2xx (res_status r1) then OutOk else OutFailed) None (res_usage r1)).

(** [_Response.send]. *)
Definition send (r : response) (m : message) : response * list effect * bool :=
  match res_mode r with
  | Closed => (r, [], false)
  | md =>
    match m with
    | MStart status hs => (on_start r status hs, false)
    | MOther _ => (r, [Sent m], false)
    | MBody body more =>
      match md with
      | Unstarted => (r, [Sent m], false)
      | Pass => (on_pass r body more, false)
      | Unary => let r1 := set_body (res_body r ++ body) r in
                 (if more then (r1, []) else finish_unary r1, false)
      | _ => on_sse r body more
      end
    end
  end.

(** [app_failed]. *)
Definition app_failed (r : response) : response * list effect * bool :=
  let r1 := close r in
  match res_mode r, res_sse r with
  | SseMode, Some s =>
    let '(s1, failure) := restorer_flush s in
    let '(out, s2) := restorer_take s1 in
    let r2 := set_usage (rt_usage s2) r1 in
    match out with
    | None => (r2, [], true)
    | Some out =>
      ((if failure then mark_response_failed r2 else r2),
       (if failure then failed_effects AfterStart else [])
       ++ (match out with [] => [] | _ => [Sent (MBody out true)] end)
       ++ publish_effects OutFailed None (rt_usage s2), false)
    end
  | _, _ => (r1, publish_effects OutFailed None (res_usage r1), false)
  end.

(** What happens to a response: the app sends, the app raised, the ticket closes or the
    request unwinds ([finally] of [__call__]). *)
Inductive happening := AppSends (m : message) | AppRaised | TicketCloses.

Definition step (r : response) (h : happening) : response * list effect :=
  match h with
  | AppSends m => (send r m).1
  | AppRaised => (app_failed r).1
  | TicketCloses => (close r, [])
  end.

Definition run (r : response) (hs : list happening) : response * list effect :=
  foldl (fun a h => let '(r1, es) := step a.1 h in (r1, a.2 ++ es)) (r, []) hs.
End Response.

(** ** What the client sees *)

(** An app that keeps to ASGI: one start, no body before it. *)
Fixpoint app_order (started : bool) (hs : list happening) : bool :=
  match hs with
  | [] => true
  | AppSends (MStart _ _) :: hs => negb started && app_order true hs
  | AppSends (MBody _ _) :: hs => started && app_order started hs
  | _ :: hs => app_order started hs
  end.

Inductive client := Waiting | Receiving | Finished.

(** The client's side of ASGI; [None]: a message that must not come there. *)
Definition client_step (c : option client) (e : effect) : option client :=
  match e with
  | Sent m => match m, c with
              | MStart _ _, Some Waiting => Some Receiving
              | MBody _ more, Some Receiving => Some (if more then Receiving else Finished)
              | MOther _, Some Waiting | MOther _, Some Receiving => c
              | _, _ => None
              end
  | _ => c
  end.

Definition client_of (es : list effect) : option client := foldl client_step (Some Waiting) es.

(** A response that holds nothing. *)
Definition holds_nothing (r : response) : Prop :=
  res_start r = None /\ res_mapping r = None /\ res_body r = [] /\ res_sse r = None /\ res_tap r = None /\ res_held r = None.

Definition started_by (h : happening) (started : bool) : bool :=
  match h with AppSends (MStart _ _) => true | _ => started end.
Definition app_may (started : bool) (h : happening) : bool :=
  match h with AppSends (MStart _ _) => negb started | AppSends (MBody _ _) => started | _ => true end.

(** The client's state and the parts each mode holds. *)
Definition response_inv (r : response) (c : client) (started : bool) : Prop :=
  match res_mode r with
  | Unstarted => c = Waiting /\ started = false
  | Pass => c = Receiving /\ started = true /\ res_held r = None
  | Unary => c = Waiting /\ started = true /\ is_Some (res_start r) /\ is_Some (res_mapping r)
  | SseMode => c = Receiving /\ started = true /\ exists s, res_sse r = Some s /\ res_usage r = rt_usage s
  | Closed => holds_nothing r
  end.

Section ResponseProofs.
Context {U : Unicode} {F : FloatText} {V : PyValues} {EO : EventObjects} (terminal : bool) (audited : option facts).

(** The effects that send nothing. *)
Definition silent (e : effect) : bool := match e with Sent _ => false | _ => true end.

Lemma client_silent c es : forallb silent es = true -> foldl client_step c es = c.
Proof. revert c. induction es as [|[] es IH]; cbn; intros c H; try done; by apply IH. Qed.

Lemma publish_silent o code u : forallb silent (publish_effects terminal o code u) = true.
Proof. by destruct terminal. Qed.
Lemma failed_silent p : forallb silent (failed_effects terminal p) = true.
Proof. by destruct terminal. Qed.

Lemma close_holds_nothing r : holds_nothing (close r).
Proof. done. Qed.

(** What a part of a step must do to the client and the response. *)
Definition step_inv (c : client) (started : bool) (p : response * list effect) : Prop :=
  exists c', foldl client_step (Some c) p.2 = Some c' /\ response_inv p.1 c' started.

Lemma on_start_inv r status hs : step_inv Waiting true (on_start audited r status hs).
Proof.
  unfold step_inv, on_start, response_inv. repeat case_match; simplify_eq; cbn in *; simplify_eq.
  all: by eexists; split; [reflexivity|cbn; eauto 6].
Qed.

(** A step that ends in a closed response: only its messages matter. *)
Lemma closed_step c started r es c' :
  foldl client_step (Some c) es = Some c' -> res_mode r = Closed -> holds_nothing r -> step_inv c started (r, es).
Proof. intros H Hm Hn. exists c'. unfold response_inv. cbn. by rewrite Hm. Qed.

Lemma on_pass_inv r body more : response_inv r Receiving true -> res_mode r = Pass ->
  step_inv Receiving true (on_pass terminal r body more).
Proof.
  intros Hi Hm. unfold response_inv in Hi. rewrite Hm in Hi. destruct Hi as (_ & _ & Hh). unfold on_pass.
  assert (G : forall b r1, res_mode r1 = Pass -> res_held r1 = None ->
    step_inv Receiving true (if more then (r1, [Sent (MBody b true)])
      else (close r1, Sent (MBody b false) :: publish_effects terminal (if is_2xx (res_status r1) then OutOk else OutFailed) None (res_usage r1)))).
  { intros b r1 H1 H2. destruct more.
    - eexists; split; [reflexivity|]. unfold response_inv. cbn. by rewrite H1.
    - eapply closed_step; [|done|done]. cbn. apply client_silent, publish_silent. }
  destruct (res_tap r) as [t|]; [|by apply G]. destruct (tap_feed t body (negb more) (res_usage r)) as [[out t1] u]. by apply G.
Qed.

Lemma finish_unary_inv r : response_inv r Waiting true -> res_mode r = Unary -> step_inv Waiting true (finish_unary terminal r).
Proof.
  intros Hi Hm. unfold response_inv in Hi. rewrite Hm in Hi. destruct Hi as (_ & _ & [[status hs] Es] & [mapping Em]).
  unfold finish_unary. rewrite Es, Em. destruct (restore_body mapping (res_body r) (res_usage r)) as [[body|] u].
  - eapply closed_step; [|done|done]. cbn. apply client_silent, publish_silent.
  - eapply closed_step; [|done|done]. rewrite foldl_app, (client_silent _ (failed_effects terminal _)) by apply failed_silent. cbn. apply client_silent, publish_silent.
Qed.

Lemma sent_tail out es : foldl client_step (Some Receiving) (match out with [] => [] | _ => [Sent (MBody out true)] end ++ es)
  = foldl client_step (Some Receiving) es.
Proof. by destruct out. Qed.

Lemma on_sse_inv r c more : response_inv r Receiving true -> res_mode r = SseMode -> step_inv Receiving true (on_sse terminal r c more).1.
Proof.
  intros Hi Hm. unfold response_inv in Hi. rewrite Hm in Hi. destruct Hi as (_ & _ & s & Es & _). unfold on_sse. rewrite Es.
  destruct (restorer_feed s c) as [s1 f1].
  destruct (if f1 then _ else _) as [s2 f]. unfold restorer_take.
  assert (G : response_inv (set_sse (with_ready [] s2) r) Receiving true) by (unfold response_inv; cbn; rewrite Hm; eauto).
  destruct (utf8_encode (concat (rt_ready s2))) as [out|]; [|by exists Receiving].
  destruct f, more; cbn [fst].
  1, 2: eapply closed_step; [|done|done]; rewrite foldl_app, (client_silent _ (failed_effects terminal _)) by apply failed_silent; rewrite sent_tail; cbn;
    apply client_silent, publish_silent.
  - by exists Receiving.
  - eapply closed_step; [|done|done]. cbn. apply client_silent, publish_silent.
Qed.

Lemma app_failed_inv r c started : response_inv r c started -> step_inv c started (app_failed terminal r).1.
Proof.
  intros Hi. unfold app_failed.
  assert (G : step_inv c started (close r, publish_effects terminal OutFailed None (res_usage (close r))))
    by (eapply closed_step; [apply client_silent, publish_silent|done|done]).
  unfold response_inv in Hi. destruct (res_mode r); try exact G. destruct Hi as (-> & -> & s & -> & _).
  destruct (restorer_flush s) as [s1 f]. unfold restorer_take.
  destruct (utf8_encode (concat (rt_ready s1))) as [out|]; [|by eapply (closed_step _ _ _ []); cbn].
  cbn [fst]. eapply closed_step; [|by destruct f|by destruct f].
  rewrite foldl_app, (client_silent _ (if f then _ else _)) by (destruct f; [apply failed_silent|done]). rewrite sent_tail. apply client_silent, publish_silent.
Qed.

Lemma response_step r c started h : response_inv r c started -> app_may started h = true ->
  step_inv c (started_by h started) (step terminal audited r h).
Proof.
  intros Hi Hm. destruct h as [m| |]; cbn [step started_by].
  2: by apply app_failed_inv.
  2: by eapply (closed_step _ _ _ []).
  unfold send. destruct (res_mode r) eqn:Em.
  5: by exists c; unfold response_inv in *; cbn; rewrite Em in *.
  all: pose proof Hi as Hj; unfold response_inv in Hi; rewrite Em in Hi.
  - destruct Hi as [-> ->]. destruct m; try done; [apply on_start_inv|]. by exists Waiting.
  - destruct Hi as (-> & -> & Hh). destruct m; try done; [by apply on_pass_inv|]. by exists Receiving.
  - destruct Hi as (-> & -> & Hs & Hp). destruct m as [| |]; try done; [|by exists Waiting].
    assert (G : response_inv (set_body (res_body r ++ body) r) Waiting true) by (unfold response_inv; cbn; by rewrite Em).
    destruct more; [by exists Waiting|]. by apply finish_unary_inv.
  - destruct Hi as (-> & -> & Hs). destruct m; try done; [by apply on_sse_inv|]. by exists Receiving.
Qed.
Lemma run_cons r h hs :
  run terminal audited r (h :: hs) =
  ((run terminal audited (step terminal audited r h).1 hs).1,
   (step terminal audited r h).2 ++ (run terminal audited (step terminal audited r h).1 hs).2).
Proof.
  unfold run. cbn [foldl fst snd app]. destruct (step terminal audited r h) as [r1 es]. cbn [fst snd].
  enough (G : forall a b, foldl (fun a h => let '(r1, es) := step terminal audited a.1 h in (r1, a.2 ++ es)) (r1, a ++ b) hs
    = let x := foldl (fun a h => let '(r1, es) := step terminal audited a.1 h in (r1, a.2 ++ es)) (r1, b) hs in (x.1, a ++ x.2)).
  { specialize (G es []). rewrite app_nil_r in G. exact G. }
  clear. revert r1. induction hs as [|h hs IH]; intros r1 a b; cbn [foldl fst snd]; [done|].
  destruct (step terminal audited r1 h) as [r2 es]. rewrite <-app_assoc. apply IH.
Qed.

Lemma app_order_cons started h hs :
  app_order started (h :: hs) = true -> app_may started h = true /\ app_order (started_by h started) hs = true.
Proof. destruct h as [[]| |]; cbn; rewrite ?andb_true_iff; naive_solver. Qed.

Lemma run_inv r c started hs : response_inv r c started -> app_order started hs = true ->
  exists c' started', foldl client_step (Some c) (run terminal audited r hs).2 = Some c'
                      /\ response_inv (run terminal audited r hs).1 c' started'.
Proof.
  revert r c started. induction hs as [|h hs IH]; intros r c started Hi Ho; [by exists c, started|].
  apply app_order_cons in Ho as [Hm Ho]. rewrite run_cons. cbn [fst snd]. rewrite foldl_app.
  destruct (response_step r c started h Hi Hm) as (c1 & -> & Hi1). by eapply IH.
Qed.

(** ** Closing *)

Lemma closed_step_silent r h : res_mode r = Closed ->
  res_mode (step terminal audited r h).1 = Closed /\ forallb silent (step terminal audited r h).2 = true
  /\ forall p, Reported p ∉ (step terminal audited r h).2.
Proof.
  intros Hm. destruct h as [m| |]; cbn [step].
  - unfold send. rewrite Hm. split_and!; [done|done|set_solver].
  - unfold app_failed. rewrite Hm. split_and!; [done|apply publish_silent|]. intros p. unfold publish_effects. destruct terminal; set_solver.
  - split_and!; [done|done|set_solver].
Qed.

Lemma closed_run r hs : res_mode r = Closed ->
  res_mode (run terminal audited r hs).1 = Closed /\ forallb silent (run terminal audited r hs).2 = true
  /\ forall p, Reported p ∉ (run terminal audited r hs).2.
Proof.
  revert r. induction hs as [|h hs IH]; intros r Hm; [split_and!; [done|done|set_solver]|].
  rewrite run_cons. cbn [fst snd]. destruct (closed_step_silent r h Hm) as (H1 & H2 & H3).
  destruct (IH _ H1) as (G1 & G2 & G3). split_and!; [done|by rewrite forallb_app, H2, G2|]. intros p. rewrite elem_of_app. naive_solver.
Qed.

(** A step that leaves the response open only sends. *)
Definition only_sends (e : effect) : bool := match e with Sent _ => true | _ => false end.

Lemma on_start_sends r status hs : forallb only_sends (on_start audited r status hs).2 = true.
Proof. unfold on_start. repeat case_match; done. Qed.

(** The three ends of a step: still open, closed after a failure, closed. *)
Inductive step_end (p : response * list effect) : Prop :=
| end_open : res_mode p.1 <> Closed -> forallb only_sends p.2 = true -> step_end p
| end_failed ph rest : res_mode p.1 = Closed -> p.2 = failed_effects terminal ph ++ rest -> step_end p
| end_closed : res_mode p.1 = Closed -> (forall ph, Reported ph ∉ p.2) -> step_end p.

Lemma publish_not_reported ph o code u : Reported ph ∉ publish_effects terminal o code u.
Proof. unfold publish_effects. destruct terminal; set_solver. Qed.

Lemma on_start_open r status hs : res_mode (on_start audited r status hs).1 <> Closed.
Proof. unfold on_start. repeat case_match; done. Qed.

Lemma step_ends r h : step_end (step terminal audited r h).
Proof.
  pose proof publish_not_reported as Hp.
  destruct (decide (res_mode r = Closed)) as [Hc|Hc].
  { destruct (closed_step_silent r h Hc) as (H1 & _ & H3). by apply end_closed. }
  destruct h as [m| |]; cbn [step].
  - unfold send. destruct (res_mode r) eqn:Em; try done; destruct m as [st hs|body more|kind]; cbn [fst].
    all: try (apply end_open; [apply on_start_open|apply on_start_sends]).
    all: try (apply end_open; [cbn; congruence|done]).
    + unfold on_pass. destruct (res_tap r) as [t|]; [destruct (tap_feed t body (negb more) (res_usage r)) as [[out t1] u]|];
        (destruct more; [apply end_open; [cbn; congruence|done]|apply end_closed; [done|set_solver]]).
    + destruct more; [apply end_open; [cbn; congruence|done]|]. unfold finish_unary.
      cbn [res_start res_mapping set_body]. destruct (res_start r) as [[st hs]|], (res_mapping r) as [mp|]; try (apply end_open; [cbn; congruence|done]).
      destruct (restore_body mp _ _) as [[b|] u]; [apply end_closed; [done|set_solver]|].
      eapply end_failed; [done|reflexivity].
    + unfold on_sse. destruct (res_sse r) as [s|]; [|apply end_open; [cbn; congruence|done]].
      destruct (restorer_feed s body) as [s1 f1]. destruct (if f1 then _ else _) as [s2 f]. unfold restorer_take.
      destruct (utf8_encode _) as [out|]; [|apply end_open; [cbn; congruence|done]].
      destruct f; [eapply end_failed; [done|reflexivity]|].
      destruct more; [apply end_open; [cbn; congruence|done]|apply end_closed; [done|set_solver]].
  - unfold app_failed. destruct (res_mode r), (res_sse r) as [s|]; try (apply end_closed; [done|cbn; set_solver]).
    destruct (restorer_flush s) as [s1 f]. unfold restorer_take.
    destruct (utf8_encode _) as [out|]; [|apply end_closed; [done|set_solver]].
    destruct f; [eapply end_failed; [done|reflexivity]|]. apply end_closed; [done|]. cbn. destruct out; set_solver.
  - apply end_closed; [done|set_solver].
Qed.

Lemma run_closes r hs :
  AppRaised ∈ hs \/ TicketCloses ∈ hs \/ (exists p, Reported p ∈ (run terminal audited r hs).2) ->
  res_mode (run terminal audited r hs).1 = Closed.
Proof.
  revert r. induction hs as [|h hs IH]; intros r Hc; [set_solver|].
  rewrite run_cons in *. cbn [fst snd] in *.
  destruct (decide (res_mode (step terminal audited r h).1 = Closed)) as [Hm|Hm]; [by apply closed_run|].
  apply IH. destruct Hc as [Hc|[Hc|[p Hc]]].
  - apply elem_of_cons in Hc as [<-|Hc]; [|by left]. exfalso. apply Hm. cbn [step]. unfold app_failed. by repeat case_match.
  - apply elem_of_cons in Hc as [<-|Hc]; [|by right; left]. by exfalso.
  - apply elem_of_app in Hc as [Hc|Hc]; [|by right; right; exists p].
    destruct (step_ends r h) as [H1 H2|?? H1|H1]; try done. rewrite forallb_forall in H2. apply list_elem_of_In in Hc. by apply H2 in Hc.
Qed.

Lemma response_init_inv held : response_inv (response_init held) Waiting false.
Proof. done. Qed.

(** ** The claims on the response *)

(** the client gets an ASGI response.  Whatever app that sends one start and no body
    before it, and whenever it raises or the ticket closes: at most one start is sent,
    before any body, and no message after the body that ends the response, a restoration
    that fails and the tails of a stream whose app raised included. *)
Theorem response_protocol held hs : app_order false hs = true ->
  client_of (run terminal audited (response_init held) hs).2 <> None.
Proof. intros Ho. destruct (run_inv _ _ _ hs (response_init_inv held) Ho) as (c & st & E & _). unfold client_of. by rewrite E. Qed.

(** the mapping does not outlive its response.  After the body that ends the response,
    a reported failure, an exception of the app or the close of the ticket, neither the
    store nor the response holds a mapping, a body, a start or a restorer, and whatever
    comes after is not sent. *)
Theorem response_releases held hs : app_order false hs = true ->
  let '(r, es) := run terminal audited (response_init held) hs in
  client_of es = Some Finished \/ AppRaised ∈ hs \/ TicketCloses ∈ hs \/ (exists p, Reported p ∈ es) ->
  holds_nothing r /\ forall later, forallb silent (run terminal audited r later).2 = true.
Proof.
  intros Ho. destruct (run_inv _ _ _ hs (response_init_inv held) Ho) as (c & st & E & Hi).
  pose proof (run_closes (response_init held) hs) as Hc. unfold client_of.
  destruct (run terminal audited (response_init held) hs) as [r es]. cbn [fst snd] in *. intros Hend.
  assert (Hm : res_mode r = Closed).
  { destruct Hend as [Hf|Hend]; [|by apply Hc]. unfold response_inv in Hi. rewrite E in Hf. simplify_eq.
    by destruct (res_mode r); naive_solver. }
  split; [|intros later; by apply closed_run]. unfold response_inv in Hi. by rewrite Hm in Hi.
Qed.
End ResponseProofs.

(** ** The terminal record *)

(** The effects on the terminal record of TerminalAudit.v. *)
Definition record_effect (s : tstate) (e : effect) : tstate :=
  match e with
  | Decided o code => tstep s (EvDecide o code)
  | Counted u => match usage_counts u (pr_prompt (ts_progress s), pr_completion (ts_progress s)) with
                 | Some (p, c) => tstep s (EvUsage p c)
                 | None => s
                 end
  | Published o code => tstep s (EvPublish o code)
  | Sent _ | Reported _ => s
  end.

Definition record_effects (s : tstate) (es : list effect) : tstate := foldl record_effect s es.

Section RecordProofs.
Context {U : Unicode} {F : FloatText} {V : PyValues} {EO : EventObjects} (audited : option facts).

Lemma record_decided_stays s es d :
  pr_decided (ts_progress s) = Some d -> pr_decided (ts_progress (record_effects s es)) = Some d.
Proof.
  revert s. induction es as [|e es IH]; intros s Hd; [done|]. cbn [record_effects foldl]. apply IH.
  destruct e; cbn [record_effect]; try done; try by apply decided_step.
  case_match; [|done]. case_match. by apply decided_step.
Qed.

Lemma record_app s es es' : record_effects s (es ++ es') = record_effects (record_effects s es) es'.
Proof. apply foldl_app. Qed.

Lemma record_sends s es : forallb only_sends es = true -> record_effects s es = s.
Proof. revert s. induction es as [|[] es IH]; cbn; intros s H; try done. by apply IH. Qed.

Lemma reported_decides r hs s p :
  pr_decided (ts_progress s) = None -> tk_closed (ts_ticket s) = false ->
  Reported p ∈ (run true audited r hs).2 ->
  pr_decided (ts_progress (record_effects s (run true audited r hs).2)) = Some (OutFailed, Some E_INTERNAL).
Proof.
  intros Hd Ht. revert r. induction hs as [|h hs IH]; intros r Hp; [set_solver|].
  rewrite run_cons in *. cbn [fst snd] in *. rewrite record_app. apply elem_of_app in Hp.
  destruct (step_ends true audited r h) as [H1 H2|ph rest H1 H2|H1 H2].
  - rewrite (record_sends s _ H2). apply IH. destruct Hp as [Hp|]; [|done].
    rewrite forallb_forall in H2. apply list_elem_of_In in Hp. by apply H2 in Hp.
  - rewrite H2, record_app. apply record_decided_stays, record_decided_stays. cbn. unfold decide_outcome. by rewrite Hd, Ht.
  - destruct Hp as [Hp|Hp]; [by apply H2 in Hp|]. by apply closed_run in Hp.
Qed.

(** a restoration that fails is recorded as failed.  If any happening of a response
    reports a failure of the restoration, the terminal record of its open ticket is
    decided as failed with [E_INTERNAL] and stays so: neither the status of the response,
    nor what is published afterwards, nor an exception of the app replaces it. *)
Theorem restoration_failure_recorded t f held hs p :
  tk_closed t = false ->
  Reported p ∈ (run true audited (response_init held) hs).2 ->
  forall later, pr_decided (ts_progress (foldl tstep (record_effects (deposited t f) (run true audited (response_init held) hs).2) later))
  = Some (OutFailed, Some E_INTERNAL).
Proof. intros Ht Hp later. by eapply decided_run, reported_decides. Qed.
End RecordProofs.

(** ** The cut of a stream *)

Section StreamCut.
Context {U : Unicode} {F : FloatText} {V : PyValues} {EO : EventObjects}.

(** What is read in: bytes of an unfinished character and the unfinished event. *)
Definition unread (y : str) (r : restorer) : restorer := with_buffer (rt_utf8 r) (rt_buffer r ++ y) r.

(** A change of the restorer that an event does not see: [f] changes what is buffered
    and ready, whatever the event changes. *)
Definition apart (f : restorer -> restorer) : Prop :=
  forall u b l, exists u' b' l', forall d e rs el se us, f (Restorer d u b l e rs el se us) = Restorer d u' b' l' e rs el se us.

Lemma apart_buffer u b : apart (with_buffer u b).
Proof. intros ? ? l'. by exists u, b, l'. Qed.
Lemma apart_ready l : apart (with_ready l).
Proof. intros u' b' ?. by exists u', b', l. Qed.

Ltac apart_solve Hf r :=
  let G := fresh in destruct r as [? u b l ?????]; destruct (Hf u b l) as (? & ? & ? & G);
  unfold noted, with_events, with_responses;
  cbn [rt_drop_usage_chunk rt_utf8 rt_buffer rt_ready rt_events rt_responses rt_event_lines rt_saw_error rt_usage];
  rewrite ?G; done.

Lemma head_apart f ends r : apart f -> event_head ends (f r) = ((event_head ends r).1, f (event_head ends r).2).
Proof.
  intros Hf. destruct r as [d u b l e rs el se us]. destruct (Hf u b l) as (u' & b' & l' & G). rewrite G.
  unfold event_head, responses_tails. cbn [rt_responses rt_event_lines]. destruct ends; cbn [fst snd]; [|by rewrite G].
  destruct (responses_flush rs) as [chunks rs']. cbn. by rewrite G.
Qed.

Lemma noted_apart f se el us r : apart f -> noted (f r) se el us = f (noted r se el us).
Proof. intros Hf. apart_solve Hf r. Qed.
Lemma events_apart f e r : apart f -> with_events e (f r) = f (with_events e r).
Proof. intros Hf. apart_solve Hf r. Qed.
Lemma responses_apart f rs r : apart f -> with_responses rs (f r) = f (with_responses rs r).
Proof. intros Hf. apart_solve Hf r. Qed.
Lemma fields_apart f r : apart f ->
  rt_drop_usage_chunk (f r) = rt_drop_usage_chunk r /\ rt_saw_error (f r) = rt_saw_error r /\ rt_event_lines (f r) = rt_event_lines r
  /\ rt_usage (f r) = rt_usage r /\ rt_events (f r) = rt_events r /\ rt_responses (f r) = rt_responses r.
Proof. intros Hf. apart_solve Hf r. Qed.

(** An event neither reads nor changes what is buffered and ready. *)
Lemma event_apart f r e : apart f -> restorer_event (f r) e = ((restorer_event r e).1, f (restorer_event r e).2).
Proof.
  intros Hf. unfold restorer_event. cbv zeta. destruct (fields_apart f r Hf) as (-> & -> & -> & -> & _).
  rewrite (noted_apart f) by done. destruct (_ && injected_usage_artifact _); [done|].
  set (r0 := noted r _ _ _). destruct (fields_apart f r0 Hf) as (_ & -> & -> & -> & _). rewrite noted_apart, head_apart by done.
  destruct (event_head _ _) as [[head|] r2]; cbn [fst snd]; [|done]. destruct (fields_apart f r2 Hf) as (_ & -> & -> & -> & -> & _).
  destruct (json_or_none (data_field e)) as [| | | | | |d]; [..|destruct (starts_with _ _)].
  1-6, 8: destruct (sse_feed _ _) as [[items ev]|]; cbn [fst snd]; [by rewrite events_apart|done].
  rewrite noted_apart by done. set (r3 := noted r2 _ _ _). destruct (fields_apart f r3 Hf) as (_ & _ & _ & _ & _ & ->).
  destruct (responses_feed _ _) as [[chunks rs]|]; cbn [fst snd]; [by rewrite responses_apart|done].
Qed.

Lemma event_buffer u b r e :
  restorer_event (with_buffer u b r) e = ((restorer_event r e).1, with_buffer u b (restorer_event r e).2).
Proof. apply (event_apart (with_buffer u b)), apart_buffer. Qed.
Lemma event_ready l r e :
  restorer_event (with_ready l r) e = ((restorer_event r e).1, with_ready l (restorer_event r e).2).
Proof. apply (event_apart (with_ready l)), apart_ready. Qed.

Lemma event_keeps r e :
  rt_buffer (restorer_event r e).2 = rt_buffer r /\ rt_utf8 (restorer_event r e).2 = rt_utf8 r /\ rt_ready (restorer_event r e).2 = rt_ready r.
Proof.
  pose proof (event_buffer (rt_utf8 r) (rt_buffer r) r e) as H. pose proof (event_ready (rt_ready r) r e) as G.
  assert (E1 : with_buffer (rt_utf8 r) (rt_buffer r) r = r) by by destruct r.
  assert (E2 : with_ready (rt_ready r) r = r) by by destruct r.
  rewrite E1 in H. rewrite E2 in G. apply (f_equal snd) in H, G. cbn [snd] in H, G.
  split_and!; [by rewrite H|by rewrite H|by rewrite G].
Qed.

Definition drain (r : restorer) : restorer * bool := restore_events (length (rt_buffer r)) r.

Lemma restore_events_fuel n m r : (length (rt_buffer r) <= n)%nat -> (length (rt_buffer r) <= m)%nat ->
  restore_events n r = restore_events m r.
Proof.
  revert m r. induction n as [|n IH]; intros [|m] r Hn Hm; [done| | |].
  1, 2: cbn; destruct (rt_buffer r); [done|cbn in *; lia].
  cbn [restore_events]. destruct (next_event (rt_buffer r)) as [[[e b] rest]|] eqn:E; [|done].
  apply next_event_cut in E as [E He]. rewrite E, length_app in *.
  rewrite event_buffer. destruct (restorer_event r e) as [[out|] r1]; cbn [fst snd]; [|done]. apply IH; cbn; lia.
Qed.

(** One event of the loop. *)
Lemma drain_eq r :
  drain r =
  match next_event (rt_buffer r) with
  | None => (r, false)
  | Some (event, _, rest) =>
    let r1 := with_buffer (rt_utf8 r) rest (restorer_event r event).2 in
    match (restorer_event r event).1 with
    | None => (r1, true)
    | Some out => drain (with_ready (rt_ready r1 ++ out) r1)
    end
  end.
Proof.
  unfold drain. destruct (rt_buffer r) as [|c buf] eqn:Eb; cbn [length restore_events].
  { done. }
  rewrite Eb. destruct (next_event (c :: buf)) as [[[e b] rest]|] eqn:E; [|done].
  apply next_event_cut in E as [E He]. apply (f_equal length) in E. rewrite length_app in E. cbn [length] in E.
  rewrite event_buffer. destruct (restorer_event r e) as [[out|] r1]; cbn [fst snd]; [|done].
  apply restore_events_fuel; cbn; lia.
Qed.

Lemma drain_app r y :
  drain (unread y r) = let '(r1, bad) := drain r in if bad then (unread y r1, true) else drain (unread y r1).
Proof.
  remember (length (rt_buffer r)) as n eqn:En. revert r En.
  induction n as [n IH] using lt_wf_ind. intros r ->.
  rewrite (drain_eq r). destruct (next_event (rt_buffer r)) as [[[e b] rest]|] eqn:E; [|done].
  rewrite drain_eq. cbn [unread with_buffer rt_buffer]. rewrite (next_event_app _ _ _ _ _ E).
  apply next_event_cut in E as [E He]. change (with_buffer (rt_utf8 r) (rt_buffer r ++ y) r) with (unread y r).
  unfold unread. rewrite event_buffer. destruct (restorer_event r e) as [[out|] r1]; cbn [fst snd]; [|done].
  rewrite <-(IH (length rest)); [done|rewrite E, length_app; lia|done].
Qed.

(** The chunks one by one, to the first that raises. *)
Definition restorer_feed_all (r : restorer) (chunks : list bytes) : restorer * bool :=
  foldl (fun (a : restorer * bool) c => if a.2 then a else restorer_feed a.1 c) (r, false) chunks.

(** The restorer less what it has read but not used. *)
Definition used (r : restorer) : restorer := with_buffer [] [] r.

Lemma drain_utf8 u r : drain (with_buffer u (rt_buffer r) r) = (with_buffer u (rt_buffer (drain r).1) (drain r).1, (drain r).2).
Proof.
  remember (length (rt_buffer r)) as n eqn:En. revert r En.
  induction n as [n IH] using lt_wf_ind. intros r ->. rewrite (drain_eq r), drain_eq.
  change (rt_buffer (with_buffer u (rt_buffer r) r)) with (rt_buffer r).
  destruct (next_event (rt_buffer r)) as [[[e b] rest]|] eqn:E; [|done]. apply next_event_cut in E as [E He].
  rewrite event_buffer.
  destruct (restorer_event r e) as [[out|] r1]; cbn [fst snd]; [|done].
  set (r2 := with_ready (rt_ready r1 ++ out) (with_buffer (rt_utf8 r) rest r1)).
  apply (IH (length rest)) with (r := r2); [rewrite E, length_app; lia|done].
Qed.

Lemma restorer_feed_eq r c :
  restorer_feed r c = drain (with_buffer (utf8_inc (rt_utf8 r ++ c)).2 (rt_buffer r ++ (utf8_inc (rt_utf8 r ++ c)).1) r).
Proof. unfold restorer_feed. by destruct (utf8_inc _). Qed.

Lemma drain_keeps_utf8 r : rt_utf8 (drain r).1 = rt_utf8 r.
Proof.
  pose proof (drain_utf8 (rt_utf8 r) r) as H. replace (with_buffer (rt_utf8 r) (rt_buffer r) r) with r in H by by destruct r.
  rewrite H. done.
Qed.

(** Two chunks in one. *)
Lemma restorer_feed_app r a b :
  restorer_feed r (a ++ b) =
  let '(r1, bad) := restorer_feed r a in
  let '(t, held) := utf8_inc (rt_utf8 r1 ++ b) in
  if bad then (with_buffer held (rt_buffer r1 ++ t) r1, true) else restorer_feed r1 b.
Proof.
  rewrite !restorer_feed_eq, app_assoc, utf8_inc_app. destruct (utf8_inc (rt_utf8 r ++ a)) as [t1 p1]. cbn [fst snd].
  destruct (utf8_inc (p1 ++ b)) as [t2 p2] eqn:E2. cbn [fst snd]. rewrite app_assoc. set (x := with_buffer p1 (rt_buffer r ++ t1) r).
  assert (Hu : rt_utf8 (drain x).1 = p1) by apply drain_keeps_utf8.
  etransitivity; [exact (drain_utf8 p2 (unread t2 x))|]. rewrite drain_app.
  destruct (drain x) as [r1 bad]. cbn [fst] in Hu. rewrite Hu, E2.
  destruct bad; [done|]. rewrite restorer_feed_eq, Hu, E2. symmetry. exact (drain_utf8 p2 (unread t2 r1)).
Qed.

Lemma restorer_feed_all_eq r first chunks :
  let '(r1, bad1) := restorer_feed_all r (first :: chunks) in
  let '(r2, bad2) := restorer_feed r (concat (first :: chunks)) in
  bad1 = bad2 /\ used r1 = used r2 /\ (bad1 = false -> r1 = r2).
Proof.
  unfold restorer_feed_all. induction chunks as [|c chunks IH] using rev_ind.
  - cbn [foldl concat snd fst]. rewrite app_nil_r. by destruct (restorer_feed r first).
  - rewrite app_comm_cons, concat_app, foldl_app. replace (concat [c]) with c by (symmetry; apply app_nil_r).
    generalize dependent (concat (first :: chunks)). intros input.
    generalize (foldl (fun (a : restorer * bool) c => if a.2 then a else restorer_feed a.1 c) (r, false) (first :: chunks)).
    intros [r1 bad1]. rewrite restorer_feed_app. destruct (restorer_feed r input) as [r2 bad2]. intros (-> & Hu & He).
    cbn [foldl snd fst]. destruct bad2.
    + destruct (utf8_inc (rt_utf8 r2 ++ c)) as [t held]. split; [done|split; [exact Hu|done]].
    + rewrite (He eq_refl). destruct (restorer_feed r2 c) as [r3 bad3]. by destruct (utf8_inc _).
Qed.

(** What is ready only grows at its end. *)
Definition after (l : list str) (p : restorer * bool) : restorer * bool := (with_ready (l ++ rt_ready p.1) p.1, p.2).

Lemma drain_ready l r : drain (with_ready l (with_ready [] r)) = after l (drain (with_ready [] r)).
Proof.
  enough (G : forall l' r, drain (with_ready (l ++ l') r) = after l (drain (with_ready l' r))).
  { specialize (G [] r). rewrite app_nil_r in G. exact G. }
  clear r. intros l' r. remember (length (rt_buffer r)) as n eqn:En. revert l' r En.
  induction n as [n IH] using lt_wf_ind. intros l' r ->. rewrite (drain_eq (with_ready l' r)), drain_eq.
  change (rt_buffer (with_ready (l ++ l') r)) with (rt_buffer r). change (rt_buffer (with_ready l' r)) with (rt_buffer r).
  destruct (next_event (rt_buffer r)) as [[[e b] rest]|] eqn:E; [|done]. apply next_event_cut in E as [E He].
  rewrite !event_ready. destruct (restorer_event r e) as [[out|] r1]; cbn [fst snd]; [|done].
  set (r2 := with_buffer (rt_utf8 r) rest r1).
  pose proof (IH (length rest) ltac:(rewrite E, length_app; lia) (l' ++ out) r2 eq_refl) as G. rewrite app_assoc in G. exact G.
Qed.

Lemma feed_ready l r c : rt_ready r = [] -> restorer_feed (with_ready l r) c = after l (restorer_feed r c).
Proof.
  intros Hr. rewrite !restorer_feed_eq. set (x := with_buffer _ _ r). pose proof (drain_ready l x) as G.
  replace (with_ready [] x) with x in G by (subst x; destruct r; cbn in *; by rewrite Hr). exact G.
Qed.

Lemma tails_ready l r : responses_tails (with_ready l r) = ((responses_tails r).1, with_ready l (responses_tails r).2).
Proof. exact (head_apart (with_ready l) true r (apart_ready l)). Qed.

Lemma flush_last_ready l r : flush_last (with_ready (l ++ rt_ready r) r) = after l (flush_last r).
Proof.
  unfold flush_last. change (rt_buffer (with_ready (l ++ rt_ready r) r)) with (rt_buffer r). destruct (rt_buffer r) as [|c b] eqn:Eb; [done|].
  change (with_buffer (rt_utf8 (with_ready (l ++ rt_ready r) r)) [] (with_ready (l ++ rt_ready r) r))
    with (with_ready (l ++ rt_ready r) (with_buffer (rt_utf8 r) [] r)).
  rewrite event_ready. destruct (event_keeps (with_buffer (rt_utf8 r) [] r) (c :: b)) as (_ & _ & Hk).
  destruct (restorer_event (with_buffer (rt_utf8 r) [] r) (c :: b)) as [[out|] r1]; cbn [fst snd] in *; unfold after; cbn [fst snd].
  - cbn. rewrite Hk. cbn. by rewrite app_assoc.
  - cbn. rewrite Hk. done.
Qed.

Lemma flush_ready l r : restorer_flush (with_ready (l ++ rt_ready r) r) = after l (restorer_flush r).
Proof.
  unfold restorer_flush. set (tail := match rt_utf8 r with [] => [] | _ => _ end).
  set (x := with_buffer [] (rt_buffer r ++ tail) r). pose proof (flush_last_ready l x) as G.
  change (with_buffer [] _ (with_ready (l ++ rt_ready r) r)) with (with_ready (l ++ rt_ready x) x). rewrite G.
  destruct (flush_last x) as [r1 [|]]; unfold after; cbn [fst snd]; [done|]. rewrite tails_ready.
  assert (Hk : rt_ready (responses_tails r1).2 = rt_ready r1) by (unfold responses_tails; by destruct (responses_flush _)).
  destruct (responses_tails r1) as [[tails|] r2]; cbn [fst snd] in *; [|by rewrite Hk]. cbn [with_ready rt_ready rt_events].
  destruct (sse_flush (rt_events r2)) as [[items e]|]; cbn; rewrite Hk; by rewrite !app_assoc.
Qed.

(** ** The cut of a streamed response *)

Context (terminal : bool) (audited : option facts).

(** A stream as one chunk: all of it is fed, then the rest flushed. *)
Definition finish_stream (s : restorer) (input : bytes) : restorer * bool :=
  let '(s1, bad) := restorer_feed s input in if bad then (s1, true) else restorer_flush s1.

(** What the end of a stream tells the terminal audit and the operator. *)
Definition closing_effects (p : restorer * bool) : list effect :=
  if p.2 then failed_effects terminal AfterStart ++ publish_effects terminal OutFailed (Some E_INTERNAL) (rt_usage p.1)
  else publish_effects terminal (if rt_saw_error p.1 then OutFailed else OutOk) None (rt_usage p.1).

(** The bytes of the bodies that are sent. *)
Definition body_bytes (es : list effect) : bytes :=
  concat (map (fun e => match e with Sent (MBody b _) => b | _ => [] end) es).

Lemma body_bytes_app es es' : body_bytes (es ++ es') = body_bytes es ++ body_bytes es'.
Proof. unfold body_bytes. by rewrite map_app, concat_app. Qed.

Lemma silent_bytes es : forallb silent es = true -> body_bytes es = [] /\ List.filter silent es = es.
Proof. induction es as [|[] es IH]; cbn; intros H; try done; destruct (IH H) as [E1 E2]; unfold body_bytes in E1; by rewrite E1, E2. Qed.

Definition stream_cut (chunks : list bytes) (last : bytes) : list happening :=
  map (fun c => AppSends (MBody c true)) chunks ++ [AppSends (MBody last false)].

(** The effects of a chunk that fails. *)
Lemma fail_effects out s2 :
  let es := failed_effects terminal AfterStart ++ (match out with [] => [] | _ => [Sent (MBody out true)] end) ++ [Sent (MBody [] false)]
            ++ publish_effects terminal OutFailed (Some E_INTERNAL) (rt_usage s2) in
  body_bytes es = out /\ List.filter silent es = closing_effects (s2, true).
Proof.
  intros es. subst es. unfold closing_effects. cbn [fst snd].
  destruct (silent_bytes _ (failed_silent terminal AfterStart)) as [F1 F2].
  destruct (silent_bytes _ (publish_silent terminal OutFailed (Some E_INTERNAL) (rt_usage s2))) as [G1 G2].
  rewrite !body_bytes_app, !List.filter_app, F1, F2, G1, G2. destruct out; cbn; by rewrite ?app_nil_r.
Qed.

(** The effects of the last chunk. *)
Lemma end_effects out s2 :
  let es := Sent (MBody out false) :: publish_effects terminal (if rt_saw_error s2 then OutFailed else OutOk) None (rt_usage s2) in
  body_bytes es = out /\ List.filter silent es = closing_effects (s2, false).
Proof.
  intros es. subst es. unfold closing_effects. cbn [fst snd].
  destruct (silent_bytes _ (publish_silent terminal (if rt_saw_error s2 then OutFailed else OutOk) None (rt_usage s2))) as [G1 G2].
  cbn [List.filter silent]. rewrite G2. unfold body_bytes in *. cbn. by rewrite G1, app_nil_r.
Qed.

Lemma closed_sends r ms : res_mode r = Closed -> run terminal audited r (map AppSends ms) = (r, []).
Proof.
  intros Hm. induction ms as [|m ms IH]; [done|]. cbn [map]. rewrite run_cons.
  assert (E : step terminal audited r (AppSends m) = (r, [])) by (cbn [step]; unfold send; by rewrite Hm).
  rewrite E. cbn [fst snd app]. by rewrite IH.
Qed.

Lemma stream_cut_msgs chunks last : stream_cut chunks last = map AppSends (map (fun c => MBody c true) chunks ++ [MBody last false]).
Proof. unfold stream_cut. by rewrite map_app, map_map. Qed.

Lemma stream_ready l s input : rt_ready s = [] -> finish_stream (with_ready l s) input = after l (finish_stream s input).
Proof.
  intros Hs. unfold finish_stream. rewrite feed_ready by done. destruct (restorer_feed s input) as [s1 [|]]; [done|].
  unfold after. cbn [fst snd]. apply flush_ready.
Qed.

Lemma stream_app s c rest :
  finish_stream s (c ++ rest) =
  let '(s1, bad) := restorer_feed s c in
  if bad then (with_buffer (utf8_inc (rt_utf8 s1 ++ rest)).2 (rt_buffer s1 ++ (utf8_inc (rt_utf8 s1 ++ rest)).1) s1, true) else finish_stream s1 rest.
Proof.
  unfold finish_stream at 1. rewrite restorer_feed_app. destruct (restorer_feed s c) as [s1 [|]]; destruct (utf8_inc _); [done|].
  unfold finish_stream. by destruct (restorer_feed s1 rest) as [? []].
Qed.

Lemma encode_app_some a b out : utf8_encode (a ++ b) = Some out ->
  exists x y, utf8_encode a = Some x /\ utf8_encode b = Some y /\ out = x ++ y.
Proof. rewrite utf8_encode_app. destruct (utf8_encode a), (utf8_encode b); cbn; intros; simplify_eq; eauto. Qed.

Lemma restored_stream_run r s chunks last s2 bad out :
  res_mode r = SseMode -> res_sse r = Some s -> rt_ready s = [] ->
  finish_stream s (concat chunks ++ last) = (s2, bad) -> utf8_encode (concat (rt_ready s2)) = Some out ->
  body_bytes (run terminal audited r (stream_cut chunks last)).2 = out
  /\ List.filter silent (run terminal audited r (stream_cut chunks last)).2 = closing_effects (s2, bad).
Proof.
  revert r s out s2. induction chunks as [|c chunks IH]; intros r s out s2 Hm Hs Hr Hf Ho.
  - cbn [stream_cut map app concat] in *. rewrite run_cons. cbn [run foldl snd fst step]. unfold send, on_sse. rewrite Hm, Hs.
    unfold finish_stream in Hf. destruct (restorer_feed s last) as [s1 f1].
    replace (if f1 then (s1, true) else restorer_flush s1) with (s2, bad) by by destruct f1. unfold restorer_take. rewrite Ho.
    rewrite app_nil_r. destruct bad; cbn [fst snd]; [apply (fail_effects out (with_ready [] s2))|apply (end_effects out (with_ready [] s2))].
  - rewrite stream_cut_msgs. cbn [map app]. rewrite run_cons. cbn [concat] in Hf. rewrite <-app_assoc, stream_app in Hf.
    cbn [step]. unfold send, on_sse. rewrite Hm, Hs. destruct (restorer_feed s c) as [s1 [|]]; unfold restorer_take; cbn [fst snd].
    + simplify_eq. cbn in Ho. rewrite Ho. cbn [fst snd]. rewrite closed_sends by done. cbn [snd]. rewrite app_nil_r.
      apply (fail_effects out (with_ready [] s1)).
    + assert (E : s1 = with_ready (rt_ready s1) (with_ready [] s1)) by by destruct s1. rewrite E, stream_ready in Hf by done.
      destruct (finish_stream (with_ready [] s1) (concat chunks ++ last)) as [s3 bad3] eqn:E3. unfold after in Hf. cbn [fst snd] in Hf. simplify_eq.
      cbn [with_ready rt_ready] in Ho. rewrite concat_app in Ho. apply encode_app_some in Ho as (x & y & Hx & Hy & ->). rewrite Hx. cbn [fst snd].
      destruct (IH (set_sse (with_ready [] s1) r) (with_ready [] s1) y s3 Hm eq_refl eq_refl E3 Hy) as [G1 G2].
      rewrite stream_cut_msgs in G1, G2. rewrite body_bytes_app, G1, List.filter_app, G2. cbn. by rewrite app_nil_r.
Qed.

(** C36: the cut of a streamed response does not matter.  Take a 2xx event stream whose
    restored text has no lone surrogate, so that sending it in one body does not raise into
    the app.  However the app cuts its bytes into bodies, characters and events cut apart
    included, the client gets the bytes that it gets for the stream in one body, and the
    terminal audit and the failure report see the same, a restoration that fails in the
    middle included. *)
Theorem restored_stream_cut_invariant r s chunks last :
  res_mode r = SseMode -> res_sse r = Some s -> rt_ready s = [] ->
  (send terminal audited r (MBody (concat chunks ++ last) false)).2 = false ->
  let cut := (run terminal audited r (stream_cut chunks last)).2 in
  let whole := (run terminal audited r [AppSends (MBody (concat chunks ++ last) false)]).2 in
  body_bytes cut = body_bytes whole /\ List.filter silent cut = List.filter silent whole.
Proof.
  intros Hm Hs Hr Hok. destruct (finish_stream s (concat chunks ++ last)) as [s2 bad] eqn:Ef.
  assert (Ho : exists out, utf8_encode (concat (rt_ready s2)) = Some out).
  { revert Hok. unfold send, on_sse. rewrite Hm, Hs. unfold finish_stream in Ef. destruct (restorer_feed s (concat chunks ++ last)) as [s1 f1].
    replace (if f1 then (s1, true) else restorer_flush s1) with (s2, bad) by by destruct f1. unfold restorer_take.
    destruct (utf8_encode (concat (rt_ready s2))); eauto. done. }
  destruct Ho as [out Ho]. destruct (restored_stream_run r s chunks last s2 bad out Hm Hs Hr Ef Ho) as [E1 E2].
  destruct (restored_stream_run r s [] (concat chunks ++ last) s2 bad out Hm Hs Hr Ef Ho) as [G1 G2].
  cbv zeta. rewrite E1, E2. split; [symmetry; exact G1|symmetry; exact G2].
Qed.

(** ** Whole bodies *)

Definition sent (es : list effect) : list message := concat (map (fun e => match e with Sent m => [m] | _ => [] end) es).

Lemma sent_silent es : forallb silent es = true -> sent es = [].
Proof. induction es as [|[] es IH]; cbn; intros H; try done; by apply IH. Qed.
Lemma sent_app es es' : sent (es ++ es') = sent es ++ sent es'.
Proof. unfold sent. by rewrite map_app, concat_app. Qed.

Lemma unary_run r chunks last status hs mapping :
  res_mode r = Unary -> res_start r = Some (status, hs) -> res_mapping r = Some mapping ->
  sent (run terminal audited r (stream_cut chunks last)).2 =
  match (restore_body mapping (res_body r ++ concat chunks ++ last) (res_usage r)).1 with
  | Some body => [MStart status (without hs CONTENT_LENGTH ++ [(CONTENT_LENGTH, dump_int (len body))]); MBody body false]
  | None => sent (internal_error_effects terminal usage_init)
  end.
Proof.
  revert r. induction chunks as [|c chunks IH]; intros r Hm Hs Hp.
  - cbn [stream_cut map app concat]. rewrite run_cons. cbn [run foldl snd fst step]. unfold send. rewrite Hm.
    unfold finish_unary. cbn [res_start res_mapping set_body res_body res_usage fst snd]. rewrite Hs, Hp.
    destruct (restore_body mapping (res_body r ++ last) (res_usage r)) as [[body|] u]; cbn [fst snd]; rewrite app_nil_r.
    + by rewrite sent_app, (sent_silent (publish_effects _ _ _ _)) by apply publish_silent.
    + unfold internal_error_effects. by rewrite !sent_app, !(sent_silent (publish_effects _ _ _ _)), (sent_silent (failed_effects _ _))
        by (apply publish_silent || apply failed_silent).
  - unfold stream_cut. cbn [map app]. fold (stream_cut chunks last). rewrite run_cons. cbn [step]. unfold send. rewrite Hm.
    cbn [fst snd app]. rewrite IH by done. cbn [res_body set_body res_usage concat]. by rewrite <-!app_assoc.
Qed.

(** a JSON response is restored whole or not at all.  However a 2xx JSON body is cut,
    the client gets the start of the app with the restored body and its exact
    [content-length], or, when the body cannot be read, restored or encoded, the constant
    500 answer and nothing of the body. *)
Theorem unary_whole_or_error mapping status hs chunks last :
  res_mode (on_start audited (response_init (Some mapping)) status hs).1 = Unary ->
  sent (run terminal audited (response_init (Some mapping)) (AppSends (MStart status hs) :: stream_cut chunks last)).2 =
  match (restore_body mapping (concat chunks ++ last) usage_init).1 with
  | Some body => [MStart status (without hs CONTENT_LENGTH ++ [(CONTENT_LENGTH, dump_int (len body))]); MBody body false]
  | None => [MStart 500 [(u8 "content-type", u8 "application/json"); (CONTENT_LENGTH, dump_int (len INTERNAL_ERROR_BODY))];
             MBody INTERNAL_ERROR_BODY false]
  end.
Proof.
  intros Hm. rewrite run_cons. cbn [step send response_init res_mode fst snd]. rewrite sent_app.
  unfold on_start in Hm |- *. cbn [res_held response_init] in *.
  destruct mapping as [|pr mapping]; [done|]. destruct (_ && memb _ _); [|done].
  destruct (starts_with _ _); [done|]. destruct (contains _ _); [|done]. cbn [fst snd sent map concat app].
  erewrite unary_run by done. cbn [res_body res_usage app].
  destruct (restore_body _ _ _) as [[body|] u]; cbn [fst]; [done|]. by destruct terminal.
Qed.
End StreamCut.

(** ** Reading a stream that passes *)

(** A stream as its events, an unfinished last one included. *)
Fixpoint cut_events (fuel : nat) (b : bytes) : list bytes :=
  match fuel, b with
  | _, [] => []
  | O, _ => []
  | Datatypes.S n, _ => match next_event b with
                        | Some (event, _, rest) => event :: cut_events n rest
                        | None => [b]
                        end
  end.

Definition events_of (b : bytes) : list bytes := cut_events (length b) b.

Section TapProofs.
Context {F : FloatText}.

(** The events a client that did not ask for its counts does not get. *)
Definition artifact (event : bytes) : bool := injected_usage_artifact (json_or_none (data_field (utf8_replace event))).

Definition tap_feed_all (t : tap) (chunks : list bytes) (last : bytes) (u : usage) : bytes * tap * usage :=
  let '(out, t1, u1) := foldl (fun a c => let '(o, t', u') := tap_feed a.1.2 c false a.2 in (a.1.1 ++ o, t', u')) ([], t, u) chunks in
  let '(o, t2, u2) := tap_feed t1 last true u1 in
  (out ++ o, t2, u2).

Lemma tap_events_fuel n m d b u : (length b <= n)%nat -> (length b <= m)%nat -> tap_events n d b u = tap_events m d b u.
Proof.
  revert m b u. induction n as [|n IH]; intros [|m] b u Hn Hm; [done| | |].
  1, 2: destruct b; [done|cbn in *; lia].
  cbn [tap_events]. destruct (next_event b) as [[[e bd] r]|] eqn:E; [|done]. apply next_event_cut in E as [-> He]. rewrite length_app in *.
  destruct (tap_read d e u) as [u1 dropped]. by rewrite (IH m) by lia.
Qed.

Definition tap_drain (d : bool) (b : bytes) (u : usage) : bytes * bytes * usage := tap_events (length b) d b u.

Lemma tap_drain_eq d b u :
  tap_drain d b u =
  match next_event b with
  | None => ([], b, u)
  | Some (e, _, rest) =>
    let x := tap_drain d rest (tap_read d e u).1 in
    ((if (tap_read d e u).2 then [] else e) ++ x.1.1, x.1.2, x.2)
  end.
Proof.
  unfold tap_drain. destruct b as [|c b]; [done|]. cbn [length tap_events].
  destruct (next_event (c :: b)) as [[[e bd] r]|] eqn:E; [|done]. apply next_event_cut in E as [E He].
  apply (f_equal length) in E. rewrite length_app in E. cbn [length] in E. destruct (tap_read d e u) as [u1 dropped]. cbn [fst snd].
  rewrite (tap_events_fuel (length b) (length r)) by lia. by destruct (tap_events (length r) d r u1) as [[? ?] ?].
Qed.

Lemma tap_drain_app d x y u :
  tap_drain d (x ++ y) u =
  let '(o, h, u1) := tap_drain d x u in let '(o2, h2, u2) := tap_drain d (h ++ y) u1 in (o ++ o2, h2, u2).
Proof.
  revert u. induction x as [x IH] using (induction_ltof1 _ (@length N)). unfold ltof in IH. intros u.
  rewrite (tap_drain_eq d x). destruct (next_event x) as [[[e bd] r]|] eqn:E.
  - rewrite tap_drain_eq, (next_event_app _ _ _ _ _ E). apply next_event_cut in E as [-> He]. cbv zeta.
    rewrite IH by (rewrite length_app; lia). destruct (tap_drain d r _) as [[o h] u1]. cbn [fst snd].
    destruct (tap_drain d (h ++ y) u1) as [[o2 h2] u2]. cbn [fst snd]. by rewrite app_assoc.
  - cbn [app]. by destruct (tap_drain d (x ++ y) u) as [[? ?] ?].
Qed.

Lemma events_of_eq b :
  events_of b = match b with [] => [] | _ => match next_event b with Some (e, _, rest) => e :: events_of rest | None => [b] end end.
Proof.
  assert (G : forall n m b, (length b <= n)%nat -> (length b <= m)%nat -> cut_events n b = cut_events m b).
  { clear b. intros n. induction n as [|n IH]; intros [|m] [|c b] Hn Hm; try done; try (cbn in *; lia).
    cbn [cut_events]. destruct (next_event (c :: b)) as [[[e bd] r]|] eqn:E; [|done]. apply next_event_cut in E as [E He].
    apply (f_equal length) in E. rewrite length_app in E. cbn [length] in *. by rewrite (IH m) by lia. }
  unfold events_of. destruct b as [|c b]; [done|]. cbn [length cut_events].
  destruct (next_event (c :: b)) as [[[e bd] r]|] eqn:E; [|done]. apply next_event_cut in E as [E He].
  apply (f_equal length) in E. rewrite length_app in E. cbn [length] in E. by rewrite (G (length b) (length r)) by lia.
Qed.

(** An event is complete on its own. *)
Lemma next_event_self b e bd r : next_event b = Some (e, bd, r) -> next_event e = Some (e, bd, []).
Proof.
  revert e bd r. induction b as [|c b IH]; intros e bd r E; [done|]. cbn [next_event] in E. destruct (boundary_at (c :: b)) as [b0|] eqn:Eb.
  - simplify_eq. unfold boundary_at in Eb. apply find_some in Eb as [Hin _]. cbn in Hin. by destruct Hin as [<-|[<-|[<-|[]]]].
  - destruct (next_event b) as [[[e' b'] r']|] eqn:E'; [|done]. simplify_eq. pose proof (IH _ _ _ eq_refl) as G.
    apply next_event_cut in E' as [-> He]. destruct (boundary_at (c :: e')) as [b0|] eqn:Eb0.
    { change (c :: e' ++ r) with ((c :: e') ++ r) in Eb. by destruct (boundary_at_more _ r _ Eb0) as [E0 _]; rewrite E0 in Eb. }
    cbn [next_event]. rewrite Eb0. by rewrite G.
Qed.

(** What is held of the beginning of a stream is the beginning of one of its events. *)
Lemma held_prefix d x y u :
  (tap_drain d x u).1.2 = [] \/ exists e, e ∈ events_of (x ++ y) /\ (length (tap_drain d x u).1.2 <= length e)%nat.
Proof.
  revert u. induction x as [x IH] using (induction_ltof1 _ (@length N)). unfold ltof in IH. intros u.
  rewrite tap_drain_eq. destruct (next_event x) as [[[e bd] r]|] eqn:E.
  - cbv zeta. cbn [fst snd]. pose proof (next_event_cut _ _ _ _ E) as [E' He]. specialize (IH r ltac:(rewrite E', length_app; lia) (tap_read d e u).1).
    destruct IH as [IH|(e' & H1 & H2)]; [by left|right]. exists e'. split; [|done]. rewrite events_of_eq.
    destruct (x ++ y) as [|c z] eqn:Ex; [destruct x; [done|discriminate]|]. rewrite <-Ex, (next_event_app _ _ _ _ _ E). by apply elem_of_cons; right.
  - cbn [fst snd]. destruct x as [|c x]; [by left|]. right. rewrite events_of_eq. cbn [app].
    change (c :: x ++ y) with ((c :: x) ++ y). destruct (next_event ((c :: x) ++ y)) as [[[e bd] r]|] eqn:Ey.
    + exists e. split; [apply elem_of_cons; by left|]. destruct (decide (length (c :: x) <= length e)%nat) as [|Hlt]; [done|]. exfalso.
      pose proof (next_event_self _ _ _ _ Ey) as Es. apply next_event_cut in Ey as [Ey _].
      assert (Hx : c :: x = e ++ drop (length e) (c :: x)).
      { rewrite <-(take_drop (length e) (c :: x)) at 1. f_equal. apply (f_equal (take (length e))) in Ey.
        rewrite take_app_le in Ey by lia. by rewrite take_app_length in Ey. }
      rewrite Hx, (next_event_app _ _ _ _ _ Es) in E. done.
    + exists ((c :: x) ++ y). split; [apply elem_of_cons; by left|]. rewrite length_app. lia.
Qed.

Lemma tap_read_dropped d e u : (tap_read d e u).2 = d && artifact e.
Proof. unfold tap_read. destruct d; cbn [negb andb]; [done|]. by destruct (negb _). Qed.

Definition kept (d : bool) (event : bytes) : bool := negb (d && artifact event).
Definition counted (d : bool) (u : usage) (event : bytes) : usage := (tap_read d event u).1.

(** The drain and what is left of it, event by event. *)
Lemma restorer_drain_events d b u :
  let '(o, h, u1) := tap_drain d b u in
  let tail := match h with [] => [] | _ => [h] end in
  concat (List.filter (kept d) (events_of b)) = o ++ concat (List.filter (kept d) tail)
  /\ foldl (counted d) u (events_of b) = foldl (counted d) u1 tail.
Proof.
  revert u. induction b as [b IH] using (induction_ltof1 _ (@length N)). unfold ltof in IH. intros u.
  rewrite tap_drain_eq, events_of_eq. destruct b as [|c b]; [done|]. destruct (next_event (c :: b)) as [[[e bd] r]|] eqn:E; [|done].
  apply next_event_cut in E as [E He]. specialize (IH r ltac:(rewrite E, length_app; lia) (tap_read d e u).1).
  cbv zeta. destruct (tap_drain d r (tap_read d e u).1) as [[o h] u1]. cbn [fst snd]. destruct IH as [H1 H2].
  cbn [List.filter foldl]. change (counted d u e) with (tap_read d e u).1. split; [|exact H2].
  rewrite tap_read_dropped. unfold kept at 1. destruct (d && artifact e); cbn [negb concat app]; [done|]. by rewrite H1, app_assoc.
Qed.

Lemma events_concat b : concat (events_of b) = b.
Proof.
  induction b as [b IH] using (induction_ltof1 _ (@length N)). unfold ltof in IH. rewrite events_of_eq. destruct b as [|c b]; [done|].
  destruct (next_event (c :: b)) as [[[e bd] r]|] eqn:E; [|apply app_nil_r]. apply next_event_cut in E as [E He].
  cbn [concat]. rewrite IH by (rewrite E, length_app; lia). done.
Qed.

Definition small_events (b : bytes) : Prop := Forall (fun e => len e <= USAGE_EVENT_CAP) (events_of b).

Lemma small_events_dec b : forallb (fun e => len e <=? USAGE_EVENT_CAP) (events_of b) = true -> small_events b.
Proof.
  rewrite forallb_forall. intros H. apply Forall_forall. intros e He. apply Z.leb_le, H, list_elem_of_In, He.
Qed.

Lemma held_small d x y u : small_events (x ++ y) -> (USAGE_EVENT_CAP <? len (tap_drain d x u).1.2) = false.
Proof.
  intros Hs. apply Z.ltb_ge. destruct (held_prefix d x y u) as [->|(e & He & Hl)]; [done|].
  unfold small_events in Hs. rewrite Forall_forall in Hs. specialize (Hs e He). unfold len in *. lia.
Qed.

(** The tap after the chunks of a stream with more to come. *)
Lemma tap_prefix d chunks y u : small_events (concat chunks ++ y) ->
  foldl (fun a c => let '(o, t', u') := tap_feed a.1.2 c false a.2 in (a.1.1 ++ o, t', u')) ([], tap_init true d, u) chunks
  = let '(o, h, u1) := tap_drain d (concat chunks) u in (if d then o else concat chunks, Tap true d h false, u1).
Proof.
  revert y. induction chunks as [|c chunks IH] using rev_ind; intros y Hs; [by destruct d|].
  rewrite concat_app in *. replace (concat [c]) with c in * by (symmetry; apply app_nil_r).
  rewrite foldl_app, (IH (c ++ y)) by by rewrite app_assoc. pose proof (held_small d _ _ u Hs) as Hh.
  rewrite tap_drain_app in *. destruct (tap_drain d (concat chunks) u) as [[o h] u1]. cbn [foldl fst snd].
  unfold tap_feed. cbn [tp_sse]. unfold tap_feed_sse. cbn [tp_over tp_buffer tp_drops tp_sse].
  change (tap_events (length (h ++ c)) d (h ++ c) u1) with (tap_drain d (h ++ c) u1).
  destruct (tap_drain d (h ++ c) u1) as [[o2 h2] u2]. cbn [fst snd] in Hh. rewrite Hh. by destruct d.
Qed.

(** what the tap takes out of a stream.  A 2xx event stream that passes, none of whose
    events is over the cap, comes out with its events in order and whole; when the client
    did not ask for the counts, less exactly the usage chunk and the other all-empty chat
    chunks, and otherwise byte for byte; the counts are those of the events one by one.
    The cut of the stream does not matter, and nothing is held at its end. *)
Theorem tap_takes_artifacts d chunks last u : small_events (concat chunks ++ last) ->
  let '(out, t, u') := tap_feed_all (tap_init true d) chunks last u in
  out = concat (List.filter (kept d) (events_of (concat chunks ++ last)))
  /\ u' = foldl (counted d) u (events_of (concat chunks ++ last)) /\ tp_buffer t = []
  /\ (d = false -> out = concat chunks ++ last).
Proof.
  intros Hs. unfold tap_feed_all. rewrite (tap_prefix d chunks last u Hs).
  pose proof (restorer_drain_events d (concat chunks ++ last) u) as G. rewrite tap_drain_app in G.
  destruct (tap_drain d (concat chunks) u) as [[o h] u1]. unfold tap_feed. cbn [tp_sse]. unfold tap_feed_sse.
  cbn [tp_over tp_buffer tp_drops tp_sse]. change (tap_events (length (h ++ last)) d (h ++ last) u1) with (tap_drain d (h ++ last) u1).
  destruct (tap_drain d (h ++ last) u1) as [[o2 h2] u2]. destruct G as [G1 G2]. rewrite G2.
  assert (E : forall x, d = false -> concat (List.filter (kept d) (events_of x)) = x).
  { intros x ->. rewrite <-(events_concat x) at 2. f_equal. by induction (events_of x) as [|e l IHl]; cbn; [|f_equal]. }
  destruct h2 as [|c h2].
  - cbn. destruct d; [|by rewrite E]. rewrite G1. cbn. by rewrite !app_nil_r.
  - cbn [foldl]. unfold counted. pose proof (tap_read_dropped d (c :: h2) u2) as Hd. destruct (tap_read d (c :: h2) u2) as [u3 dropped].
    cbn [fst snd] in *. subst. destruct d; [|by cbn; rewrite E]. rewrite G1. cbn. unfold kept. cbn.
    destruct (artifact (c :: h2)); cbn; rewrite ?app_nil_r, <-?app_assoc; split_and!; try done.
Qed.
End TapProofs.

(** ** Witnesses *)

Abbreviation demo_do := (@run ru_unicode id_floats no_floats dict_objects true None).
Abbreviation demo_send := (@send ru_unicode id_floats no_floats dict_objects true None).

Definition json_headers : headers := [(u8 "Content-Type", u8 "application/json"); (u8 "Content-Length", u8 "999")].
Definition json_start : message := MStart 200 json_headers.
Definition sse_start : message := MStart 200 [(u8 "content-type", u8 "text/event-stream; charset=utf-8")].

(** A chat completion whose text names the organisation by its placeholder. *)
Definition chat_body : bytes :=
  default [] (utf8_encode (js8 "{'choices': [{'index': 0, 'message': {'role': 'assistant', 'content': 'é for [ORG_001]'}}], 'usage': {'prompt_tokens': 7}}")).
Definition chat_restored : bytes :=
  default [] (utf8_encode (js8 "{'choices':[{'index':0,'message':{'role':'assistant','content':'é for Acme'}}],'usage':{'prompt_tokens':7}}")).

Example chat_body_restored : (@restore_body ru_unicode id_floats no_floats demo_mapping chat_body usage_init) = (Some chat_restored, Usage (Some 7) None).
Proof. vm_compute. reflexivity. Qed.

Lemma unary_whole_or_error_witness :
  sent (demo_do (response_init (Some demo_mapping)) (AppSends json_start :: stream_cut [take 30 chat_body; []] (drop 30 chat_body))).2
  = [MStart 200 [(u8 "Content-Type", u8 "application/json"); (u8 "content-length", u8 "108")]; MBody chat_restored false].
Proof.
  unfold json_start. rewrite (unary_whole_or_error (U := ru_unicode) (F := id_floats) (V := no_floats) (EO := dict_objects) true None
    demo_mapping 200 json_headers [take 30 chat_body; []] (drop 30 chat_body) ltac:(vm_compute; reflexivity)).
  replace (concat [take 30 chat_body; []] ++ drop 30 chat_body) with chat_body by (vm_compute; reflexivity).
  rewrite chat_body_restored. vm_compute. reflexivity.
Defined.

(** A text delta in the middle of a character, then an event that is no restorable delta. *)
Definition demo_stream_response : response := (demo_send (response_init (Some demo_mapping)) sse_start).1.1.

Lemma restored_stream_cut_invariant_witness :
  body_bytes (demo_do demo_stream_response (stream_cut [take 200 demo_bytes; take 3 (drop 200 demo_bytes)] (drop 203 demo_bytes))).2
  = default [] (utf8_encode demo_out).
Proof.
  assert (E : concat [take 200 demo_bytes; take 3 (drop 200 demo_bytes)] ++ drop 203 demo_bytes = demo_bytes) by (vm_compute; reflexivity).
  destruct (restored_stream_cut_invariant (U := ru_unicode) (F := id_floats) (V := no_floats) (EO := dict_objects) true None
    demo_stream_response (restorer_init demo_mapping false) [take 200 demo_bytes; take 3 (drop 200 demo_bytes)] (drop 203 demo_bytes)) as [H _].
  - vm_compute. reflexivity.
  - vm_compute. reflexivity.
  - reflexivity.
  - rewrite E. vm_compute. reflexivity.
  - rewrite H, E. vm_compute. reflexivity.
Defined.

(** A response that ends, then an app that goes on and raises. *)
Abbreviation demo_life := (AppSends json_start :: stream_cut [] chat_body ++ [AppSends (MBody (u8 "more") false); AppRaised; TicketCloses]).

Lemma response_protocol_witness : client_of (demo_do (response_init (Some demo_mapping)) demo_life).2 <> None.
Proof. apply (response_protocol (U := ru_unicode) (F := id_floats) (V := no_floats) (EO := dict_objects) true None (Some demo_mapping) demo_life). reflexivity. Defined.

Lemma response_releases_witness : holds_nothing (demo_do (response_init (Some demo_mapping)) demo_life).1.
Proof.
  pose proof (response_releases (U := ru_unicode) (F := id_floats) (V := no_floats) (EO := dict_objects) true None (Some demo_mapping) demo_life eq_refl) as H.
  destruct (demo_do (response_init (Some demo_mapping)) demo_life) as [r es]. apply H. right. left. unfold stream_cut. cbn [map app]. set_solver.
Defined.

(** A JSON body that does not parse. *)
Abbreviation broken_life := [AppSends json_start; AppSends (MBody (u8 "{") false)].

Lemma restoration_failure_recorded_witness :
  pr_decided (ts_progress (foldl tstep (record_effects (deposited (ticket_init (u8 "r1")) demo_facts)
    (demo_do (response_init (Some demo_mapping)) broken_life).2) [EvMark CancelClient; EvClose])) = Some (OutFailed, Some E_INTERNAL).
Proof.
  apply (restoration_failure_recorded (U := ru_unicode) (F := id_floats) (V := no_floats) (EO := dict_objects) None
    (ticket_init (u8 "r1")) demo_facts (Some demo_mapping) broken_life BeforeStart).
  - reflexivity.
  - apply (list_elem_of_lookup_2 _ 1%nat). vm_compute. reflexivity.
Defined.

Definition usage_stream : bytes :=
  js8 "data: {'choices': [{'index': 0, 'delta': {'content': 'hi'}}]}" ++ [10; 10]%N
  ++ js8 "data: {'choices': [], 'usage': {'prompt_tokens': 3, 'completion_tokens': 4}}" ++ [10; 10]%N ++ js8 "data: [DONE]" ++ [10; 10]%N.

Lemma tap_takes_artifacts_witness :
  let '(out, t, u) := tap_feed_all (F := id_floats) (tap_init true true) [take 70 usage_stream] (drop 70 usage_stream) usage_init in
  out = js8 "data: {'choices': [{'index': 0, 'delta': {'content': 'hi'}}]}" ++ [10; 10]%N ++ js8 "data: [DONE]" ++ [10; 10]%N
  /\ u = Usage (Some 3) (Some 4) /\ tp_buffer t = [].
Proof.
  assert (E : concat [take 70 usage_stream] ++ drop 70 usage_stream = usage_stream) by (vm_compute; reflexivity).
  assert (Hs : small_events usage_stream) by (apply small_events_dec; vm_compute; reflexivity).
  pose proof (tap_takes_artifacts (F := id_floats) true [take 70 usage_stream] (drop 70 usage_stream) usage_init) as H. rewrite E in H. specialize (H Hs).
  destruct (tap_feed_all _ _ _ _) as [[out t] u]. destruct H as (-> & -> & Hb & _). split_and!; [vm_compute; reflexivity|vm_compute; reflexivity|done].
Defined.

(** ** A failure that is not reported

    [take] encodes outside the handlers of [_on_sse] and [app_failed]: the text of a lone
    surrogate, which JSON can spell and UTF-8 cannot, raises into the app.  Nothing is
    sent, reported or decided, and the response stays open. *)
Definition surrogate_stream : bytes :=
  js8 "data: {'type': 'content_block_start', 'index': 0, 'content_block': {'type': 'text', 'text': ''}}" ++ [10; 10]%N
  ++ js8 "data: {'type': 'content_block_delta', 'index': 0, 'delta': {'type': 'text_delta', 'text': '\ud83d and a longer text'}}" ++ [10; 10]%N.

Lemma take_raises_into_app :
  let '(r, es, raised) := demo_send demo_stream_response (MBody surrogate_stream false) in
  raised = true /\ es = [] /\ res_mode r = SseMode /\ res_failed r = false.
Proof. vm_compute. auto. Qed.
