(* ===== verification/Settings.v ===== *)
(** * Configuration ([settings.py], [config.py], [litellm_config.py])

    Every setting the gateway reads is resolved through one chain, the environment, the
    first configuration file that exists, the default of the key, and validated before the
    gateway serves: [validate_config] collects the problems of every check and refuses on any.

    The machine is a parameter, [world]: the environment, the configuration files (a TOML
    file that is there and parsed), litellm's YAML file and whether pydantic can be
    imported.  A problem is a constructor with the data of its message.  A check returns
    [Raise] where the code lets a [ValueError] through instead of collecting a problem.
    [float] of a text and the checks of [urlsplit] on a host are parameters. *)

From S2P Require Import Prelude Text Regex Json ContentBlocks RouteTable CachePolicy Inflight Sse.
Local Open Scope py_scope.
Local Open Scope Z_scope.

(** ** The keys *)

Definition AUTH_PROVIDERS : list str := [u8 "noop"; u8 "bearer"; u8 "mtls"; u8 "oidc"; u8 "apikey"].
Definition AUDIT_SINKS : list str := [u8 "stdout"; u8 "langfuse"; u8 "list"].
Definition METRICS_EXPORTERS : list str := [u8 "noop"; u8 "prometheus"].
Definition TRACING_EXPORTERS : list str := [u8 "noop"].
Definition FLAG_FALSE : list str := [u8 "0"; u8 "false"; u8 "no"; u8 "off"; []].
Definition DEFAULT_LATEST_URL : str := u8 "https://gateway.corp.lan/version".

(** [Key], less its help text. *)
Record key := Key {
  k_name : str;
  k_default : option str;
  k_required : bool;
  k_secret : bool;
  k_flag : bool;
  k_choices : option (list str);
  k_required_when : option (str * str);
}.

Definition KEYS_core : list key :=
  [Key (u8 "CORP_GATEWAY_URL") (Some (u8 "https://gateway.corp.lan")) false false false None None;
   Key (u8 "CORP_GATEWAY_TOKEN_FILE") (Some (u8 "~/.corp-llm-gateway/token")) false false false None None;
   Key (u8 "CORP_GATEWAY_LATEST_URL") (Some DEFAULT_LATEST_URL) false false false None None;
   Key (u8 "CORP_ENV") (Some []) false false false None None;
   Key (u8 "CORP_LLM_ENDPOINT") None false false false None None;
   Key (u8 "CORP_LLM_MODEL") (Some (u8 "GLM-5.1-AWQ")) false false false None None;
   Key (u8 "CORP_LLM_AUTH_TOKEN") (Some []) false true false None None;
   Key (u8 "CORP_LLM_RULES_DIR") (Some (u8 "/etc/corp-llm-gateway/rules")) false false false None None;
   Key (u8 "CORP_LLM_LOCAL_FIRST") (Some (u8 "1")) false false true None None;
   Key (u8 "CORP_LLM_GAZETTEER") (Some (u8 "1")) false false true None None;
   Key (u8 "CORP_LLM_BLOCK_PAYLOADS") (Some (u8 "1")) false false true None None;
   Key (u8 "CORP_LLM_DLP_GUARD") (Some (u8 "1")) false false true None None;
   Key (u8 "CORP_LLM_DLP_CANARIES") (Some []) false false false None None;
   Key (u8 "CORP_LLM_FORWARD_CHATGPT_AUTH") (Some (u8 "0")) false false true None None;
   Key (u8 "CORP_LLM_STRIP_INBOUND_HEADERS") (Some (u8 "1")) false false true None None;
   Key (u8 "CORP_LLM_FORWARD_ANTHROPIC_AUTH") (Some (u8 "0")) false false true None None;
   Key (u8 "LITELLM_MASTER_KEY") None false true false None None;
   Key (u8 "CORP_LLM_OVERSIZE_POLICY") (Some (u8 "fail-closed")) false false false None None;
   Key (u8 "CORP_LLM_OVERSIZE_DELIVER_TEAMS") (Some []) false false false None None;
   Key (u8 "CORP_LLM_REQUIRE_NER") (Some (u8 "0")) false false true None None;
   Key (u8 "CORP_LLM_ORACLE_TRIGGER") (Some (u8 "gazetteer_hit")) false false false None None;
   Key (u8 "CORP_LLM_ORACLE_ENABLED") (Some (u8 "1")) false false true None None;
   Key (u8 "CORP_LLM_LOG_LEVEL") (Some (u8 "INFO")) false false false None None;
   Key (u8 "CORP_NER_ENABLED") (Some (u8 "0")) false false true None None;
   Key (u8 "CORP_NER_ENDPOINT") None false false false None None;
   Key (u8 "CORP_NER_TIMEOUT_S") (Some (u8 "30")) false false false None None;
   Key (u8 "CORP_NER_MAX_TEXTS") (Some (u8 "256")) false false false None None;
   Key (u8 "CORP_NER_MAX_INPUT_CHARS") (Some (u8 "200000")) false false false None None;
   Key (u8 "CORP_NER_CA_BUNDLE") None false false false None None;
   Key (u8 "CORP_LLM_PG_DSN") None false true false None None;
   Key (u8 "REDIS_URL") None false true false None None;
   Key (u8 "CORP_LLM_CA_BUNDLE") None false false false None None;
   Key (u8 "SSL_VERIFY") (Some (u8 "true")) false false false None None].

Definition KEYS_auth : list key :=
  [Key (u8 "CORP_LLM_AUTH_PROVIDER") (Some (u8 "noop")) false false false (Some AUTH_PROVIDERS) None;
   Key (u8 "CORP_LLM_BEARER_TOKEN") None false true false None (Some (u8 "CORP_LLM_AUTH_PROVIDER", u8 "bearer"));
   Key (u8 "CORP_LLM_MTLS_CERT") None false false false None (Some (u8 "CORP_LLM_AUTH_PROVIDER", u8 "mtls"));
   Key (u8 "CORP_LLM_MTLS_KEY") None false false false None (Some (u8 "CORP_LLM_AUTH_PROVIDER", u8 "mtls"));
   Key (u8 "CORP_LLM_OIDC_ISSUER") None false false false None (Some (u8 "CORP_LLM_AUTH_PROVIDER", u8 "oidc"));
   Key (u8 "CORP_LLM_OIDC_CLIENT_ID") None false false false None (Some (u8 "CORP_LLM_AUTH_PROVIDER", u8 "oidc"));
   Key (u8 "CORP_LLM_OIDC_CLIENT_SECRET") None false true false None (Some (u8 "CORP_LLM_AUTH_PROVIDER", u8 "oidc"));
   Key (u8 "CORP_LLM_API_KEY_HEADER") (Some (u8 "X-Api-Key")) false false false None None;
   Key (u8 "CORP_LLM_API_KEY") None false true false None (Some (u8 "CORP_LLM_AUTH_PROVIDER", u8 "apikey"));
   Key (u8 "CORP_AUDIT_SINK") (Some (u8 "stdout")) false false false (Some AUDIT_SINKS) None;
   Key (u8 "CORP_LANGFUSE_URL") None false false false None (Some (u8 "CORP_AUDIT_SINK", u8 "langfuse"));
   Key (u8 "CORP_LANGFUSE_PUBLIC_KEY") None false true false None (Some (u8 "CORP_AUDIT_SINK", u8 "langfuse"));
   Key (u8 "CORP_LANGFUSE_SECRET_KEY") None false true false None (Some (u8 "CORP_AUDIT_SINK", u8 "langfuse"));
   Key (u8 "CORP_GATEWAY_RBAC") (Some (u8 "1")) false false true None None;
   Key (u8 "CORP_GATEWAY_OIDC_KEY") (Some []) false true false None None;
   Key (u8 "CORP_GATEWAY_OIDC_AUDIENCE") (Some []) false false false None None;
   Key (u8 "CORP_GATEWAY_OIDC_ISSUER") (Some []) false false false None None;
   Key (u8 "CORP_GATEWAY_ADMIN_TOKEN") (Some []) false true false None None;
   Key (u8 "CORP_GATEWAY_ISSUE_OIDC_ISSUER") (Some []) false false false None None;
   Key (u8 "CORP_GATEWAY_ISSUE_OIDC_AUDIENCE") (Some []) false false false None None;
   Key (u8 "CORP_GATEWAY_ISSUE_OIDC_CLIENT_ID") (Some []) false false false None None;
   Key (u8 "CORP_GATEWAY_ISSUE_OIDC_JWKS_URL") (Some []) false false false None None;
   Key (u8 "CORP_GATEWAY_ISSUE_OIDC_TEAM_CLAIM") (Some (u8 "groups")) false false false None None;
   Key (u8 "CORP_GATEWAY_ISSUE_OIDC_TEAM_MAP") None false false false None None;
   Key (u8 "CORP_GATEWAY_ISSUE_OIDC_USER_CLAIM") (Some (u8 "preferred_username")) false false false None None;
   Key (u8 "CORP_GATEWAY_ISSUE_TOKEN_TTL_DAYS") (Some (u8 "30")) false false false None None;
   Key (u8 "CORP_GATEWAY_ISSUE_MAX_ACTIVE") (Some (u8 "2")) false false false None None;
   Key (u8 "CORP_GATEWAY_ISSUE_MIN_INTERVAL_SECONDS") (Some (u8 "600")) false false false None None;
   Key (u8 "CORP_GATEWAY_ISSUE_MAX_INFLIGHT") (Some (u8 "4")) false false false None None;
   Key (u8 "CORP_GATEWAY_ISSUE_RATE_PER_MINUTE") (Some (u8 "30")) false false false None None;
   Key (u8 "CORP_GATEWAY_ISSUE_STORE_TIMEOUT_SECONDS") (Some (u8 "10")) false false false None None].

Definition KEYS_serve : list key :=
  [Key (u8 "CORP_ALLOW_V2_PROVIDERS") (Some (u8 "0")) false false true None None;
   Key (u8 "CORP_PROFILE_ROOT") (Some []) false false false None None;
   Key (u8 "CORP_PROFILE_REQUIRE_SIGNATURE") (Some (u8 "0")) false false true None None;
   Key (u8 "CORP_METRICS_EXPORTER") (Some (u8 "noop")) false false false (Some METRICS_EXPORTERS) None;
   Key (u8 "CORP_TRACING_EXPORTER") (Some (u8 "noop")) false false false (Some TRACING_EXPORTERS) None;
   Key (u8 "CORP_LLM_LITELLM_CONFIG") (Some (u8 "/etc/litellm/config.yaml")) false false false None None;
   Key (u8 "CORP_LLM_SERVE_HOST") (Some (u8 "0.0.0.0")) false false false None None;
   Key (u8 "CORP_LLM_SERVE_PORT") (Some (u8 "4000")) false false false None None;
   Key (u8 "CORP_LLM_ALLOW_LITELLM_DEBUG") (Some (u8 "0")) false false true None None;
   Key (u8 "CORP_LLM_ROUTE_GATE_EXTRA_PASSTHROUGH") (Some []) false false false None None;
   Key (u8 "CORP_LLM_MAX_INFLIGHT") (Some (u8 "64")) false false false None None;
   Key (u8 "CORP_LLM_CANCEL_GRACE_SECONDS") (Some (u8 "5")) false false false None None;
   Key (u8 "CORP_LLM_BODY_READ_SECONDS") (Some (u8 "30")) false false false None None;
   Key (u8 "CORP_LLM_MAX_DRAINING") (Some []) false false false None None;
   Key (u8 "CORP_LLM_MAX_DRAINING_BYTES") (Some (u8 "536870912")) false false false None None;
   Key (u8 "CORP_LLM_TESTDATA_ALLOWLIST") (Some []) false false false None None;
   Key (u8 "CORP_LLM_TESTDATA_ALLOWLIST_FILE") (Some []) false false false None None;
   Key (u8 "CORP_LLM_DEV_TEAM_TOKEN") (Some []) false true false None None;
   Key (u8 "DEMO_TEAM_TOKEN") (Some (u8 "demo-team-token")) false false false None None].

Definition KEYS : list key := KEYS_core ++ KEYS_auth ++ KEYS_serve.

Definition key_named (name : str) : option key := List.find (fun k => str_eqb (k_name k) name) KEYS.

Definition key_is_secret (name : str) : bool := match key_named name with Some k => k_secret k | None => false end.

Definition default_of (name : str) : str := default [] (key_named name ≫= k_default).

(** ** The machine *)

(** A value of a TOML file, with what [str] makes of it. *)
Inductive toml := TStr (s : str) | TScalar (text : str) | TTable (entries : list (str * toml)) (text : str).

Definition toml_str (v : toml) : str := match v with TStr s => s | TScalar t => t | TTable _ t => t end.

(** What reading litellm's YAML gives. *)
Inductive yaml_read := YamlUnreadable | YamlNotText | YamlNoLibrary | YamlInvalid | YamlDocument (v : json).

Record litellm_file := LitellmFile { lf_exists : bool; lf_is_file : bool; lf_suffix : str; lf_read : yaml_read }.

Record world := World {
  w_env : str -> option str;
  w_file : str -> option (list (str * toml));   (* a configuration file, by its path *)
  w_litellm : str -> litellm_file;
  w_pydantic : bool;
}.

(** What the checks use of the standard library. *)
Class Parsers := {
  float_of : str -> option (option Q);          (* [float(s)]; inner [None]: infinite or nan *)
  host_ok : str -> bool;                        (* [urlsplit] accepts the host, else [ValueError] *)
}.

(** ** [config.py] *)

Definition DEFAULT_PATHS : list str := [u8 "~/.corp-llm-gateway/config.toml"; u8 "/etc/corp-llm-gateway/config.toml"].

Fixpoint first_file (w : world) (paths : list str) : list (str * toml) :=
  match paths with
  | [] => []
  | path :: rest => match w_file w path with Some t => t | None => first_file w rest end
  end.

Definition load_file (w : world) : list (str * toml) :=
  match w_env w (u8 "CORP_LLM_GATEWAY_CONFIG_FILE") with
  | None | Some [] => first_file w DEFAULT_PATHS
  | Some explicit => first_file w (explicit :: DEFAULT_PATHS)
  end.

Definition config_get (w : world) (name : str) (d : option str) : option str :=
  match w_env w name with
  | Some v => Some v
  | None => match dget name (load_file w) with Some v => Some (toml_str v) | None => d end
  end.

(** [get_table] of a name without a dot. *)
Definition get_table (w : world) (name : str) : list (str * toml) :=
  match dget name (load_file w) with Some (TTable entries _) => entries | _ => [] end.

(** ** Values *)

Abbreviation values := (list (str * option str)).

Definition resolve_values (w : world) : values := map (fun k => (k_name k, config_get w (k_name k) (k_default k))) KEYS.

Definition vget (vs : values) (name : str) : option str := default None (dget name vs).

(** [not values.get(name)] *)
Definition unset (vs : values) (name : str) : bool := match vget vs name with None | Some [] => true | _ => false end.

Inductive problem :=
| PRequired (name : str)
| PChoice (name value : str)
| PConditional (name selector : str)
| POversize | PExtras | PTrigger
| PLitellmFile (path : str) (what : str)
| PServePort (raw : str)
| PNoOpSanitizer | PForwardAuthExclusive | PMasterKey
| PIssuanceRequired (name : str) | PIssuanceAudience | PNotUrl (name : str) | PNotHttps (name : str)
| PTeamMapMissing | PTeamMapEntry | PNotInteger (name raw : str) | PBounds (name : str) | PNeedsPostgres
| PInflightOff | PNotNumber (name raw : str) | PNotCount (name raw : str) | PDrainingLow | PNotBytes (raw : str)
| PDebugInProd | PDebugEnv (name : str) | PSetVerbose (path : str).

#[export] Instance problem_eq_dec : EqDecision problem.
Proof. solve_decision. Defined.

(** ** litellm's own file ([litellm_config.py]) *)

Definition DEFAULT_CONFIG_PATH : str := u8 "/etc/litellm/config.yaml".
Definition YAML_SUFFIXES : list str := [u8 ".yaml"; u8 ".yml"].
Definition PASS_THROUGH_KEY : str := u8 "pass_through_endpoints".
Definition DATABASE_URL_KEY : str := u8 "database_url".
Definition CLICK_TRUE : list str := [u8 "1"; u8 "true"; u8 "t"; u8 "yes"; u8 "y"; u8 "on"].

Section Settings.
Context {U : Unicode} {PR : Parsers}.

Definition path_problems (path : str) (f : litellm_file) : list problem :=
  if negb (lf_exists f) then [PLitellmFile path (u8 "no such file")]
  else if negb (lf_is_file f) then [PLitellmFile path (u8 "not a file")]
  else if negb (memb (u_lower (lf_suffix f)) YAML_SUFFIXES) then [PLitellmFile path (u8 "not named as YAML")] else [].

(** [Raise]: the text of the file is not UTF-8. *)
Definition content_problems (path : str) (f : litellm_file) : result unit (list problem) :=
  let p what := Ok [PLitellmFile path what] in
  match lf_read f with
  | YamlNotText => Raise tt
  | YamlUnreadable => p (u8 "unreadable")
  | YamlNoLibrary => p (u8 "cannot be checked")
  | YamlInvalid => p (u8 "not valid YAML")
  | YamlDocument JNull => p (u8 "empty")
  | YamlDocument (JObj document) =>
    match jget (u8 "general_settings") document with
    | (JNull | JObj _) as general =>
      let general := match general with JObj d => d | _ => [] end in
      if dmem PASS_THROUGH_KEY general || dmem PASS_THROUGH_KEY document then p (u8 "pass_through_endpoints is refused")
      else if dmem DATABASE_URL_KEY general then p (u8 "database_url is refused") else Ok []
    | _ => p (u8 "general_settings must be a mapping")
    end
  | YamlDocument _ => p (u8 "top level must be a mapping")
  end.

Definition litellm_problems (path : str) (f : litellm_file) (require_file : bool) : result unit (list problem) :=
  match path_problems path f with
  | [] => content_problems path f
  | found => Ok (if require_file then found else [])
  end.

(** [_document]: any failure reads as nothing set. *)
Definition litellm_document (f : litellm_file) : jdict := match lf_read f with YamlDocument (JObj d) => d | _ => [] end.

Definition debug_problems (w : world) (path : str) : list problem :=
  (if str_eqb (u_upper (default [] (w_env w (u8 "LITELLM_LOG")))) (u8 "DEBUG") then [PDebugEnv (u8 "LITELLM_LOG")] else []) ++
  (if memb (u_lower (strip (default [] (w_env w (u8 "DETAILED_DEBUG"))))) CLICK_TRUE then [PDebugEnv (u8 "DETAILED_DEBUG")] else []) ++
  (match jget (u8 "litellm_settings") (litellm_document (w_litellm w path)) with
   | JObj d => if truthy (jget (u8 "set_verbose") d) then [PSetVerbose path] else []
   | _ => []
   end).

(** ** The checks of [settings.py] *)

Definition as_flag (v : option str) : bool :=
  match v with None => false | Some s => negb (memb (u_lower (strip s)) FLAG_FALSE) end.

Definition flag (vs : values) (name : str) : bool := as_flag (vget vs name).

Definition lowered (vs : values) (name : str) : str := u_lower (strip (default [] (vget vs name))).

Definition check_required (vs : values) : list problem :=
  concat (map (fun k => if k_required k && unset vs (k_name k) then [PRequired (k_name k)] else []) KEYS).

Definition check_choices (vs : values) : list problem :=
  concat (map (fun k => match k_choices k, vget vs (k_name k) with
                        | Some choices, Some ((_ :: _) as v) => if memb (u_lower (strip v)) choices then [] else [PChoice (k_name k) v]
                        | _, _ => []
                        end) KEYS).

Definition check_conditional (vs : values) : list problem :=
  concat (map (fun k => match k_required_when k with
                        | Some (sel, want) => if unset vs (k_name k) && str_eqb (lowered vs sel) want then [PConditional (k_name k) sel] else []
                        | None => []
                        end) KEYS).

Definition is_raise {E A} (r : result E A) : bool := match r with Raise _ => true | Ok _ => false end.

Definition check_oversize (vs : values) : list problem :=
  if is_raise (normalize_oversize_policy (vget vs (u8 "CORP_LLM_OVERSIZE_POLICY"))) then [POversize] else [].

Definition extras_raw_of (v : option str) : extras_raw := match v with Some s => RawText s | None => RawNone end.

Definition check_route_gate_extras (vs : values) : list problem :=
  if is_raise (parse_extras (extras_raw_of (vget vs (u8 "CORP_LLM_ROUTE_GATE_EXTRA_PASSTHROUGH")))) then [PExtras] else [].

Definition litellm_path (vs : values) : str := strip (or_default (vget vs (u8 "CORP_LLM_LITELLM_CONFIG")) DEFAULT_CONFIG_PATH).

Definition check_litellm_config (w : world) (vs : values) : result unit (list problem) :=
  litellm_problems (litellm_path vs) (w_litellm w (litellm_path vs)) false.

(** [raw.isdigit()] *)
Definition is_digits (raw : str) : bool := match raw with [] => false | _ => forallb u_digit raw end.

(** [int(raw)], whose [ValueError] is not caught. *)
Definition int_exc (raw : str) : result unit Z := match py_int raw with Some z => Ok z | None => Raise tt end.

Definition stripped (vs : values) (name : str) : str := strip (default [] (vget vs name)).

Definition check_serve_port (vs : values) : result unit (list problem) :=
  match stripped vs (u8 "CORP_LLM_SERVE_PORT") with
  | [] => Ok []
  | raw => if negb (is_digits raw) then Ok [PServePort raw] else
           let! port := int_exc raw in
           Ok (if (1 <=? port) && (port <=? 65535) then [] else [PServePort raw])
  end.

Definition check_oracle_trigger (vs : values) : list problem :=
  if is_raise (normalize_oracle_trigger (vget vs (u8 "CORP_LLM_ORACLE_TRIGGER"))) then [PTrigger] else [].

Definition check_oracle_endpoint (vs : values) : list problem :=
  if flag vs (u8 "CORP_LLM_ORACLE_ENABLED") && unset vs (u8 "CORP_LLM_ENDPOINT") then [PRequired (u8 "CORP_LLM_ENDPOINT")] else [].

Definition check_corp_ner_endpoint (vs : values) : list problem :=
  if flag vs (u8 "CORP_NER_ENABLED") && unset vs (u8 "CORP_NER_ENDPOINT") then [PRequired (u8 "CORP_NER_ENDPOINT")] else [].

Definition forward_auth_conflict (chatgpt anthropic : bool) : option problem :=
  if chatgpt && anthropic then Some PForwardAuthExclusive else None.

Definition master_key_conflict (master_key : option str) (chatgpt anthropic : bool) : option problem :=
  if negb (chatgpt || anthropic) then None else match master_key with Some _ => Some PMasterKey | None => None end.

Definition opt_problem (o : option problem) : list problem := match o with Some p => [p] | None => [] end.

Definition chatgpt_on (vs : values) : bool := flag vs (u8 "CORP_LLM_FORWARD_CHATGPT_AUTH").
Definition anthropic_on (vs : values) : bool := flag vs (u8 "CORP_LLM_FORWARD_ANTHROPIC_AUTH").

Definition check_forward_auth_exclusive (vs : values) : list problem :=
  opt_problem (forward_auth_conflict (chatgpt_on vs) (anthropic_on vs)).

Definition check_master_key_conflict (vs : values) : list problem :=
  opt_problem (master_key_conflict (vget vs (u8 "LITELLM_MASTER_KEY")) (chatgpt_on vs) (anthropic_on vs)).

Definition check_no_op_sanitizer (vs : values) : list problem :=
  if flag vs (u8 "CORP_LLM_ORACLE_ENABLED") || flag vs (u8 "CORP_LLM_LOCAL_FIRST") then [] else [PNoOpSanitizer].

Definition prod (vs : values) : bool := memb (lowered vs (u8 "CORP_ENV")) [u8 "prod"; u8 "production"].

(** *** Developer token issuance *)

Definition scheme_char (c : N) : bool := ascii_alnum_p c || one_of (u8 "+-.") c.

Fixpoint until (stop : N -> bool) (s : str) : str :=
  match s with [] => [] | c :: r => if stop c then [] else c :: until stop r end.

(** [urlsplit(url)]: scheme and netloc; [Raise] is its [ValueError]. *)
Definition urlsplit (url : str) : result unit (str * str) :=
  let url := List.filter (fun c => negb (memb c [9; 10; 13]%N)) (lstrip_by (in_range 0 32) url) in
  let head := until (N.eqb (chr ":")) url in
  let '(scheme, rest) :=
    match url with
    | c :: _ => if (length head <? length url)%nat && (ascii_upper_p c || ascii_lower_p c) && forallb scheme_char head
                then (map ascii_lower1 head, drop (S (length head)) url) else ([], url)
    | [] => ([], url)
    end in
  if starts_with rest (u8 "//") then
    let netloc := until (one_of (u8 "/?#")) (drop 2 rest) in
    if host_ok netloc then Ok (scheme, netloc) else Raise tt
  else Ok (scheme, []).

Definition url_problem (name url : str) (prod : bool) : result unit (list problem) :=
  let! parts := urlsplit url in
  Ok (if negb (memb parts.1 [u8 "http"; u8 "https"]) || str_eqb parts.2 [] then [PNotUrl name]
      else if prod && negb (str_eqb parts.1 (u8 "https")) then [PNotHttps name] else []).

Fixpoint team_pairs (table : list (str * toml)) : option (list (str * str)) :=
  match table with
  | [] => Some []
  | (group, TStr team) :: rest =>
    if str_eqb (strip group) [] || str_eqb (strip team) [] then None else cons (group, strip team) <$> team_pairs rest
  | _ => None
  end.

Definition issuance_team_map (table : list (str * toml)) : list problem * list (str * str) :=
  match table with
  | [] => ([PTeamMapMissing], [])
  | _ => match team_pairs table with Some pairs => ([], pairs) | None => ([PTeamMapEntry], []) end
  end.

Definition ISSUANCE_BOUNDS : list (str * Z * Z) :=
  [(u8 "CORP_GATEWAY_ISSUE_TOKEN_TTL_DAYS", 1, 3650); (u8 "CORP_GATEWAY_ISSUE_MAX_ACTIVE", 1, 100);
   (u8 "CORP_GATEWAY_ISSUE_MIN_INTERVAL_SECONDS", 1, 30 * 86400); (u8 "CORP_GATEWAY_ISSUE_MAX_INFLIGHT", 1, 1000);
   (u8 "CORP_GATEWAY_ISSUE_RATE_PER_MINUTE", 1, 100000); (u8 "CORP_GATEWAY_ISSUE_STORE_TIMEOUT_SECONDS", 5, 300)].

(** [_stripped(values, name) or default] *)
Definition raw_or_default (vs : values) (name : str) : str :=
  match stripped vs name with [] => default_of name | raw => raw end.

(** One turn of the loop over the bounds. *)
Definition read_bound (vs : values) (b : str * Z * Z) : list problem * option Z :=
  let '(name, lowest, highest) := b in
  let raw := raw_or_default vs name in
  match py_int raw with
  | None => ([PNotInteger name raw], None)
  | Some n => ((if (lowest <=? n) && (n <=? highest) then [] else [PBounds name]), Some n)
  end.

Record IssuanceSettings := Issuance {
  is_issuer : str;
  is_audience : str;
  is_client_id : str;
  is_jwks_url : str;
  is_team_claim : str;
  is_team_map : list (str * str);
  is_user_claim : str;
  is_operator_audience : str;
  is_ca_bundle : option str;
  is_bounds : list Z;                   (* in the order of [ISSUANCE_BOUNDS] *)
  is_allow_insecure_http : bool;
}.

Definition ISSUER_KEY : str := u8 "CORP_GATEWAY_ISSUE_OIDC_ISSUER".

Definition or_str (s d : str) : str := match s with [] => d | _ => s end.

(** [_build_issuance] *)
Definition build_issuance (vs : values) (table : list (str * toml)) : result unit (list problem * option IssuanceSettings) :=
  let issuer := rstrip_by (N.eqb (chr "/")) (stripped vs ISSUER_KEY) in
  match issuer with
  | [] => Ok ([], None)
  | _ =>
    let required name := if str_eqb (stripped vs name) [] then [PIssuanceRequired name] else [] in
    let audience := stripped vs (u8 "CORP_GATEWAY_ISSUE_OIDC_AUDIENCE") in
    let client_id := stripped vs (u8 "CORP_GATEWAY_ISSUE_OIDC_CLIENT_ID") in
    let operator := stripped vs (u8 "CORP_GATEWAY_OIDC_AUDIENCE") in
    let jwks := or_str (stripped vs (u8 "CORP_GATEWAY_ISSUE_OIDC_JWKS_URL")) (issuer ++ u8 "/protocol/openid-connect/certs") in
    let! p1 := url_problem ISSUER_KEY issuer (prod vs) in
    let! p2 := url_problem (u8 "CORP_GATEWAY_ISSUE_OIDC_JWKS_URL") jwks (prod vs) in
    let '(p3, team_map) := issuance_team_map table in
    let bounds := map (read_bound vs) ISSUANCE_BOUNDS in
    let problems := required (u8 "CORP_GATEWAY_ISSUE_OIDC_AUDIENCE") ++ required (u8 "CORP_GATEWAY_ISSUE_OIDC_CLIENT_ID") ++
                    (if negb (str_eqb audience []) && str_eqb audience operator then [PIssuanceAudience] else []) ++
                    p1 ++ p2 ++ p3 ++ concat (map fst bounds) in
    match problems with
    | _ :: _ => Ok (problems, None)
    | [] => Ok ([], Some (Issuance issuer audience client_id jwks
                           (or_str (stripped vs (u8 "CORP_GATEWAY_ISSUE_OIDC_TEAM_CLAIM")) (u8 "groups")) team_map
                           (or_str (stripped vs (u8 "CORP_GATEWAY_ISSUE_OIDC_USER_CLAIM")) (u8 "preferred_username")) operator
                           (match stripped vs (u8 "CORP_LLM_CA_BUNDLE") with [] => None | b => Some b end)
                           (omap snd bounds) (negb (prod vs))))
    end
  end.

(** [_serving_issuance] *)
Definition serving_issuance (vs : values) (table : list (str * toml)) : result unit (list problem * option IssuanceSettings) :=
  let! r := build_issuance vs table in
  Ok (if negb (str_eqb (stripped vs ISSUER_KEY) []) && str_eqb (stripped vs (u8 "CORP_LLM_PG_DSN")) []
      then (r.1 ++ [PNeedsPostgres], None) else r).

(** *** The in-flight cap *)

Definition MAX_INFLIGHT_CEILING : Z := 10000.
Definition CANCEL_GRACE_CEILING_S : Q := 60.
Definition BODY_READ_CEILING_S : Q := 300.
Definition MAX_DRAINING_CEILING : Z := DRAINING_PER_SLOT * MAX_INFLIGHT_CEILING.
Definition MAX_DRAINING_BYTES_FLOOR : Z := 25 * 1024 * 1024.
Definition MAX_DRAINING_BYTES_CEILING : Z := 16 * 1024 * 1024 * 1024.

Record CapacitySettings := Capacity {
  cp_max_inflight : Z;
  cp_cancel_grace : py_float;
  cp_body_read : py_float;
  cp_max_draining : Z;
  cp_max_draining_bytes : Z;
}.

Definition seconds (vs : values) (name : str) (ceiling : Q) : list problem * py_float :=
  let raw := raw_or_default vs name in
  match float_of raw with
  | None => ([PNotNumber name raw], Some 0%Q)
  | Some f => ((if positive_finite f && match f with Some q => Qle_bool q ceiling | None => false end then [] else [PBounds name]), f)
  end.

(** The first part: [CORP_LLM_MAX_INFLIGHT]. *)
Definition build_max_inflight (vs : values) : result unit (list problem * Z) :=
  let name := u8 "CORP_LLM_MAX_INFLIGHT" in
  let raw := raw_or_default vs name in
  if negb (is_digits raw) && negb (match raw with 45%N :: r => is_digits r | _ => false end) then Ok ([PNotInteger name raw], 0) else
  let! n := int_exc raw in
  Ok ((if negb ((0 <=? n) && (n <=? MAX_INFLIGHT_CEILING)) then [PBounds name]
       else if (n =? 0) && prod vs then [PInflightOff] else []), n).

Definition build_max_draining (vs : values) (max_inflight : Z) : result unit (list problem * Z) :=
  let name := u8 "CORP_LLM_MAX_DRAINING" in
  match stripped vs name with
  | [] => Ok ([], DRAINING_PER_SLOT * max_inflight)
  | raw =>
    if negb (is_digits raw) then Ok ([PNotCount name raw], DRAINING_PER_SLOT * max_inflight) else
    let! n := int_exc raw in
    Ok ((if MAX_DRAINING_CEILING <? n then [PBounds name]
         else if (n <? max_inflight) || (negb (max_inflight =? 0) && (n =? 0)) then [PDrainingLow] else []), n)
  end.

Definition build_draining_bytes (vs : values) : result unit (list problem * Z) :=
  let name := u8 "CORP_LLM_MAX_DRAINING_BYTES" in
  let raw := raw_or_default vs name in
  if negb (forallb is_ascii raw && is_digits raw) then Ok ([PNotBytes raw], 0) else
  let! n := int_exc raw in
  Ok ((if (MAX_DRAINING_BYTES_FLOOR <=? n) && (n <=? MAX_DRAINING_BYTES_CEILING) then [] else [PBounds name]), n).

(** [_build_capacity] *)
Definition build_capacity (vs : values) : result unit (list problem * option CapacitySettings) :=
  let! a := build_max_inflight vs in
  let g := seconds vs (u8 "CORP_LLM_CANCEL_GRACE_SECONDS") CANCEL_GRACE_CEILING_S in
  let b := seconds vs (u8 "CORP_LLM_BODY_READ_SECONDS") BODY_READ_CEILING_S in
  let! d := build_max_draining vs a.2 in
  let! m := build_draining_bytes vs in
  let problems := a.1 ++ g.1 ++ b.1 ++ d.1 ++ m.1 in
  Ok (problems, match problems with [] => Some (Capacity a.2 g.2 b.2 d.2 m.2) | _ => None end).

(** *** litellm's debug switches *)

Definition build_litellm_debug (vs : values) : list problem * bool :=
  let allowed := flag vs (u8 "CORP_LLM_ALLOW_LITELLM_DEBUG") in
  if allowed && prod vs then ([PDebugInProd], false) else ([], allowed).

Definition check_litellm_debug (w : world) (vs : values) : list problem :=
  let '(problems, allowed) := build_litellm_debug vs in
  if allowed then problems else problems ++ debug_problems w (litellm_path vs).

(** *** [validate_config] *)

(** The literals of the pydantic model; its other fields are texts. *)
Definition SELECTORS : list (str * list str) :=
  [(u8 "CORP_LLM_AUTH_PROVIDER", AUTH_PROVIDERS); (u8 "CORP_AUDIT_SINK", AUDIT_SINKS);
   (u8 "CORP_METRICS_EXPORTER", METRICS_EXPORTERS); (u8 "CORP_TRACING_EXPORTER", TRACING_EXPORTERS)].

Definition pydantic_problems (vs : values) : list problem :=
  concat (map (fun sel : str * list str => match vget vs sel.1 with
                           | Some v => if memb (u_lower (strip v)) sel.2 then [] else [PChoice sel.1 v]
                           | None => []
                           end) SELECTORS).

Definition collect_problems (w : world) (vs : values) : result unit (list problem) :=
  let table := get_table w (u8 "CORP_GATEWAY_ISSUE_OIDC_TEAM_MAP") in
  let! litellm := check_litellm_config w vs in
  let! port := check_serve_port vs in
  let! issuance := serving_issuance vs table in
  let! capacity := build_capacity vs in
  Ok ((if w_pydantic w then pydantic_problems vs else check_required vs ++ check_choices vs) ++ check_conditional vs ++ check_oversize vs ++
      check_route_gate_extras vs ++ litellm ++ port ++ check_oracle_trigger vs ++ check_oracle_endpoint vs ++ check_corp_ner_endpoint vs ++
      check_no_op_sanitizer vs ++ check_forward_auth_exclusive vs ++ check_master_key_conflict vs ++ issuance.1 ++ capacity.1 ++
      check_litellm_debug w vs).

(** How validation ends. *)
Inductive verdict := Valid (vs : values) | Invalid (problems : list problem) | Crashed.

Definition validate_config (w : world) : verdict :=
  let vs := resolve_values w in
  match collect_problems w vs with
  | Raise _ => Crashed
  | Ok [] => Valid vs
  | Ok problems => Invalid (foldl (fun l p => if memb p l then l else l ++ [p]) [] problems)
  end.

(** ** Accessors of [config.py] *)

Definition TRUTHY : list str := [u8 "1"; u8 "true"; u8 "yes"; u8 "on"].

Definition require_ner (w : world) : bool :=
  match config_get w (u8 "CORP_LLM_REQUIRE_NER") (Some (u8 "0")) with
  | Some v => memb (u_lower (strip v)) TRUTHY
  | None => false
  end.

Definition is_prod (w : world) : bool :=
  memb (u_lower (strip (default [] (config_get w (u8 "CORP_ENV") (Some []))))) [u8 "prod"; u8 "production"].

(** [corp_llm_verify]: the bundle, or whether certificates are verified; [Raise] is the
    [RuntimeError] of production. *)
Definition corp_llm_verify (w : world) : result unit (str + bool) :=
  match config_get w (u8 "CORP_LLM_CA_BUNDLE") (Some []) with
  | Some ((_ :: _) as bundle) => Ok (inl bundle)
  | _ => let verify := negb (str_eqb (u_lower (or_default (config_get w (u8 "SSL_VERIFY") (Some (u8 "true"))) (u8 "true"))) (u8 "false")) in
         if negb verify && is_prod w then Raise tt else Ok (inr verify)
  end.
End Settings.

(** ** What validation guarantees *)

Section SettingsProofs.
Context {U : Unicode} {PR : Parsers}.

Lemma concat_nil {A} (ls : list (list A)) l : concat ls = [] -> l ∈ ls -> l = [].
Proof. induction ls as [|x ls IH]; cbn; [set_solver|]. intros [-> H]%app_eq_nil [->|Hl]%elem_of_cons; [done|by apply IH]. Qed.

Lemma concat_map_nil {A B} (f : A -> list B) l a : concat (map f l) = [] -> a ∈ l -> f a = [].
Proof. intros H Ha. eapply concat_nil; [exact H|]. by apply list_elem_of_In, in_map, list_elem_of_In. Qed.

(** No check found anything. *)
Record clean (w : world) (vs : values) : Prop := Clean {
  cl_choices : (if w_pydantic w then pydantic_problems vs else check_required vs ++ check_choices vs) = [];
  cl_conditional : check_conditional vs = [];
  cl_oversize : check_oversize vs = [];
  cl_extras : check_route_gate_extras vs = [];
  cl_litellm : check_litellm_config w vs = Ok [];
  cl_port : check_serve_port vs = Ok [];
  cl_trigger : check_oracle_trigger vs = [];
  cl_endpoint : check_oracle_endpoint vs = [];
  cl_ner : check_corp_ner_endpoint vs = [];
  cl_no_op : check_no_op_sanitizer vs = [];
  cl_exclusive : check_forward_auth_exclusive vs = [];
  cl_master : check_master_key_conflict vs = [];
  cl_issuance : exists s, serving_issuance vs (get_table w (u8 "CORP_GATEWAY_ISSUE_OIDC_TEAM_MAP")) = Ok ([], s);
  cl_capacity : exists c, build_capacity vs = Ok ([], c);
  cl_debug : check_litellm_debug w vs = [];
}.

Lemma valid_clean w vs : validate_config w = Valid vs -> vs = resolve_values w /\ clean w vs.
Proof.
  unfold validate_config. destruct (collect_problems w (resolve_values w)) as [[|p ps]|] eqn:E; try done. intros [= <-]. split; [done|].
  unfold collect_problems in E. cbv zeta in E. destruct (check_litellm_config w _) as [lit|] eqn:E1; [|done]. cbn [rbind] in E.
  destruct (check_serve_port _) as [port|] eqn:E2; [|done]. cbn [rbind] in E.
  destruct (serving_issuance _ _) as [[ip st]|] eqn:E3; [|done]. cbn [rbind fst] in E.
  destruct (build_capacity _) as [[cp cs]|] eqn:E4; [|done]. cbn [rbind fst] in E. apply ok_inj in E.
  apply app_eq_nil in E as [A1 E].  apply app_eq_nil in E as [A2 E].  apply app_eq_nil in E as [A3 E].
  apply app_eq_nil in E as [A4 E].  apply app_eq_nil in E as [A5 E].  apply app_eq_nil in E as [A6 E].
  apply app_eq_nil in E as [A7 E].  apply app_eq_nil in E as [A8 E].  apply app_eq_nil in E as [A9 E].
  apply app_eq_nil in E as [A10 E].  apply app_eq_nil in E as [A11 E].  apply app_eq_nil in E as [A12 E].
  apply app_eq_nil in E as [A13 E].  apply app_eq_nil in E as [A14 E].
  subst lit port ip cp. refine (Clean _ _ A1 A2 A3 A4 E1 E2 A7 A8 A9 A10 A11 A12 _ _ E); [by exists st|by exists cs].
Qed.

(** *** The cap *)

Lemma max_inflight_ok vs n : build_max_inflight vs = Ok ([], n) ->
  0 <= n <= MAX_INFLIGHT_CEILING /\ (prod vs = true -> 1 <= n).
Proof.
  unfold build_max_inflight. cbv zeta. destruct (negb _ && negb _); [done|]. destruct (int_exc _) as [m|]; [|done]. cbn [rbind].
  destruct ((0 <=? m) && (m <=? MAX_INFLIGHT_CEILING)) eqn:E; cbn [negb]; [|done]. apply andb_true_iff in E as [E1%Z.leb_le E2%Z.leb_le].
  destruct (Z.eqb_spec m 0), (prod vs); cbn [andb]; intros; simplify_eq; split; lia || done.
Qed.

Lemma max_draining_ok vs max n : 0 <= max -> build_max_draining vs max = Ok ([], n) ->
  max <= n /\ (max <> 0 -> n <> 0) /\ (max <= MAX_INFLIGHT_CEILING -> n <= MAX_DRAINING_CEILING).
Proof.
  intros Hm. unfold build_max_draining, MAX_DRAINING_CEILING. cbv zeta. destruct (stripped _ _) as [|c raw].
  { intros [= <-]. unfold DRAINING_PER_SLOT. lia. }
  destruct (negb _); [done|]. destruct (int_exc _) as [m|]; [|done]. cbn [rbind]. destruct (Z.ltb_spec (DRAINING_PER_SLOT * MAX_INFLIGHT_CEILING) m); [done|].
  destruct (Z.ltb_spec m max); [done|]. cbn [orb]. destruct (Z.eqb_spec max 0), (Z.eqb_spec m 0); cbn [negb andb]; intros; simplify_eq; lia.
Qed.

Lemma draining_bytes_ok vs n : build_draining_bytes vs = Ok ([], n) -> MAX_DRAINING_BYTES_FLOOR <= n <= MAX_DRAINING_BYTES_CEILING.
Proof.
  unfold build_draining_bytes. cbv zeta. destruct (negb _); [done|]. destruct (int_exc _) as [m|]; [|done]. cbn [rbind].
  destruct ((_ <=? m) && _) eqn:E; [|done]. intros [= <-]. apply andb_true_iff in E as [E1%Z.leb_le E2%Z.leb_le]. done.
Qed.

(** A number of seconds in the range of its setting. *)
Definition seconds_within (f : py_float) (ceiling : Q) : Prop := exists q, f = Some q /\ (0 < q)%Q /\ (q <= ceiling)%Q.

Lemma seconds_ok vs name ceiling f : seconds vs name ceiling = ([], f) -> seconds_within f ceiling.
Proof.
  unfold seconds. cbv zeta. destruct (float_of _) as [g|]; [|done]. destruct g as [q|]; [|done]. cbn [positive_finite].
  destruct (Qle_bool q 0) eqn:E; cbn [negb andb]; [done|]. destruct (Qle_bool q ceiling) eqn:Ec; [|done]. intros [= <-].
  exists q. split; [done|]. split; [|by apply Qle_bool_iff]. apply Qnot_le_lt. rewrite <-Qle_bool_iff. by rewrite E.
Qed.

Lemma within_positive f ceiling : seconds_within f ceiling -> positive_finite f = true.
Proof. intros (q & -> & Hq & _). cbn. destruct (Qle_bool q 0) eqn:E; [|done]. apply Qle_bool_iff in E. by apply Qlt_not_le in Hq. Qed.

Definition limiter_of (c : CapacitySettings) : result limiter_error (limits * counters) :=
  limiter_init (JInt (cp_max_inflight c)) (cp_cancel_grace c) (cp_body_read c) (Some (JInt (cp_max_draining c)))
    (JInt (cp_max_draining_bytes c)) MAX_BODY_BYTES.

(** The parts of an accepted cap. *)
Lemma capacity_parts vs ps c : build_capacity vs = Ok (ps, Some c) ->
  build_max_inflight vs = Ok ([], cp_max_inflight c) /\
  seconds vs (u8 "CORP_LLM_CANCEL_GRACE_SECONDS") CANCEL_GRACE_CEILING_S = ([], cp_cancel_grace c) /\
  seconds vs (u8 "CORP_LLM_BODY_READ_SECONDS") BODY_READ_CEILING_S = ([], cp_body_read c) /\
  build_max_draining vs (cp_max_inflight c) = Ok ([], cp_max_draining c) /\ build_draining_bytes vs = Ok ([], cp_max_draining_bytes c).
Proof.
  unfold build_capacity. destruct (build_max_inflight vs) as [[p1 n]|]; [|done]. cbn [rbind fst snd]. cbv zeta.
  destruct (seconds vs _ CANCEL_GRACE_CEILING_S) as [p2 g], (seconds vs _ BODY_READ_CEILING_S) as [p3 b].
  destruct (build_max_draining vs n) as [[p4 d]|] eqn:E4; [|done]. cbn [rbind fst snd].
  destruct (build_draining_bytes vs) as [[p5 m]|]; [|done]. cbn [rbind fst snd]. intros [= <- H].
  destruct (p1 ++ p2 ++ p3 ++ p4 ++ p5) as [|] eqn:E; [|done]. injection H as <-. cbn.
  repeat (apply app_eq_nil in E as [-> E]). subst. done.
Qed.

(** A cap within every ceiling of its settings. *)
Record within_ceilings (c : CapacitySettings) : Prop := WithinCeilings {
  wc_inflight : 0 <= cp_max_inflight c <= MAX_INFLIGHT_CEILING;
  wc_draining : cp_max_inflight c <= cp_max_draining c <= MAX_DRAINING_CEILING;
  wc_bytes : MAX_DRAINING_BYTES_FLOOR <= cp_max_draining_bytes c <= MAX_DRAINING_BYTES_CEILING;
  wc_grace : seconds_within (cp_cancel_grace c) CANCEL_GRACE_CEILING_S;
  wc_body : seconds_within (cp_body_read c) BODY_READ_CEILING_S;
}.

Lemma capacity_within vs ps c : build_capacity vs = Ok (ps, Some c) ->
  within_ceilings c /\ (cp_max_inflight c <> 0 -> cp_max_draining c <> 0) /\ (prod vs = true -> 1 <= cp_max_inflight c).
Proof.
  intros (H1 & H2 & H3 & H4 & H5)%capacity_parts. apply max_inflight_ok in H1 as [Hn Hp].
  apply max_draining_ok in H4 as (Hd & Hz & Hc); [|lia]. split; [|done].
  split; [done|lia|by eapply draining_bytes_ok|by eapply seconds_ok|by eapply seconds_ok].
Qed.

(** The limiter a cap becomes. *)
Definition limits_of (c : CapacitySettings) : limits :=
  Limits (cp_max_inflight c) (cp_max_draining c) MAX_BODY_BYTES (cp_max_draining_bytes c).

Lemma capacity_limiter vs ps c : build_capacity vs = Ok (ps, Some c) -> limiter_of c = Ok (limits_of c, Counters 0 0 0).
Proof.
  intros ([Hn Hd Hb Hg%within_positive Hr%within_positive] & Hz & _)%capacity_within.
  unfold limiter_of, limiter_init. cbn [count_value]. destruct (Z.leb_spec 0 (cp_max_inflight c)); [|lia]. rewrite Hg, Hr. cbn [negb].
  destruct (Z.leb_spec 0 (cp_max_draining c)); [|lia]. destruct (Z.ltb_spec (cp_max_draining c) (cp_max_inflight c)); [lia|].
  assert (He : MAX_BODY_BYTES = MAX_DRAINING_BYTES_FLOOR) by reflexivity. assert (0 < MAX_BODY_BYTES) by (unfold MAX_BODY_BYTES; lia).
  destruct (Z.leb_spec 0 (cp_max_draining_bytes c)); [|lia].
  destruct (Z.ltb_spec (cp_max_draining_bytes c) (Z.max MAX_BODY_BYTES 1)); [lia|].
  destruct (Z.eqb_spec (cp_max_inflight c) 0); cbn [negb andb]; [done|]. by destruct (Z.eqb_spec (cp_max_draining c) 0); [naive_solver|].
Qed.

Lemma capacity_some vs c : build_capacity vs = Ok ([], c) -> is_Some c.
Proof.
  unfold build_capacity. destruct (build_max_inflight vs) as [[p1 n]|]; [|done]. cbn [rbind fst snd]. cbv zeta.
  destruct (build_max_draining vs n) as [[p4 d]|]; [|done]. cbn [rbind fst snd].
  destruct (build_draining_bytes vs) as [[p5 m]|]; [|done]. cbn [rbind fst snd]. intros [= -> <-]. by eexists.
Qed.

(** C38: the limiter takes every cap that the settings accept.  Whatever the configuration
    says, a cap that passes [build_capacity] is within every ceiling (requests in flight,
    requests and bytes draining, the latter above the size of a body, the grace of a
    cancellation and the time to read a body, both positive and finite), in production it
    is on, and the constructor of the in-flight limiter does not refuse it: the limiter
    starts idle with exactly these limits. *)
Theorem capacity_accepted vs ps c : build_capacity vs = Ok (ps, Some c) ->
  within_ceilings c /\ (prod vs = true -> 1 <= cp_max_inflight c) /\ limiter_of c = Ok (limits_of c, Counters 0 0 0).
Proof.
  intros H. destruct (capacity_within _ _ _ H) as (H1 & _ & H2). split; [done|]. split; [done|]. by apply (capacity_limiter vs ps).
Qed.

(** *** Issuance *)

Lemma bounds_nil vs bs : concat (map fst (map (read_bound vs) bs)) = [] ->
  Forall2 (fun b n => b.1.2 <= n <= b.2) bs (omap snd (map (read_bound vs) bs)).
Proof.
  induction bs as [|[[name lo] hi] bs IH]; cbn [map concat omap list_omap]; [constructor|].
  intros [H1 H2]%app_eq_nil. unfold read_bound in H1 |- * at 1. destruct (py_int _) as [n|]; cbn [fst snd] in *; [|done].
  destruct ((lo <=? n) && (n <=? hi)) eqn:E; [|done]. constructor; [cbn; lia|]. by apply IH.
Qed.

Lemma team_pairs_nonblank table pairs : team_pairs table = Some pairs -> Forall (fun p : str * str => p.2 <> [] /\ strip p.1 <> []) pairs.
Proof.
  revert pairs. induction table as [|[group [team|?|? ?]] table IH]; intros pairs; cbn [team_pairs]; try done.
  { intros [= <-]. constructor. }
  destruct (str_eqb (strip group) []) eqn:E1, (str_eqb (strip team) []) eqn:E2; cbn [orb]; try done.
  destruct (team_pairs table) as [ps|]; [|done]. intros [= <-]. apply str_eqb_neq in E1, E2. constructor; [done|by apply IH].
Qed.

Lemma url_problem_nil name url pr : url_problem name url pr = Ok [] ->
  exists scheme netloc, urlsplit url = Ok (scheme, netloc) /\ scheme ∈ [u8 "http"; u8 "https"] /\ netloc <> [] /\ (pr = true -> scheme = u8 "https").
Proof.
  unfold url_problem. destruct (urlsplit url) as [[scheme netloc]|]; [|done]. cbn [rbind fst snd].
  destruct (memb scheme _) eqn:Em; cbn [negb orb]; [|done]. destruct (str_eqb netloc []) eqn:En; [done|]. apply memb_true in Em. apply str_eqb_neq in En.
  destruct pr; cbn [andb]; [|by exists scheme, netloc]. destruct (str_eqb scheme (u8 "https")) eqn:Eh; cbn [negb]; [|done]. apply str_eqb_eq in Eh. by exists scheme, netloc.
Qed.

(** What an accepted issuance has. *)
Definition issuance_safe (vs : values) (s : IssuanceSettings) : Prop :=
  is_audience s <> [] /\ is_client_id s <> [] /\ is_audience s <> is_operator_audience s /\
  (exists scheme host, urlsplit (is_issuer s) = Ok (scheme, host) /\ host <> [] /\ (prod vs = true -> scheme = u8 "https")) /\
  (exists scheme host, urlsplit (is_jwks_url s) = Ok (scheme, host) /\ host <> [] /\ (prod vs = true -> scheme = u8 "https")) /\
  is_team_map s <> [] /\ Forall (fun p : str * str => p.2 <> [] /\ strip p.1 <> []) (is_team_map s) /\
  Forall2 (fun (b : str * Z * Z) n => b.1.2 <= n <= b.2) ISSUANCE_BOUNDS (is_bounds s) /\
  (prod vs = true -> is_allow_insecure_http s = false).

Lemma build_issuance_safe vs table ps s : build_issuance vs table = Ok (ps, Some s) -> issuance_safe vs s.
Proof.
  unfold build_issuance. destruct (rstrip_by _ _) as [|c issuer]; [done|]. cbv zeta.
  set (iss := c :: issuer). set (jwks := or_str _ _).
  destruct (url_problem ISSUER_KEY iss (prod vs)) as [p1|] eqn:E1; [|done]. cbn [rbind].
  destruct (url_problem _ jwks (prod vs)) as [p2|] eqn:E2; [|done]. cbn [rbind].
  destruct (issuance_team_map table) as [p3 team] eqn:E3. case_match eqn:Ep; [|done]. intros [= _ <-].
  apply app_eq_nil in Ep as [Ha Ep]. apply app_eq_nil in Ep as [Hc Ep]. apply app_eq_nil in Ep as [Ho Ep].
  apply app_eq_nil in Ep as [-> Ep]. apply app_eq_nil in Ep as [-> Ep]. apply app_eq_nil in Ep as [-> Hb].
  apply url_problem_nil in E1 as (s1 & h1 & U1 & _ & Hh1 & P1). apply url_problem_nil in E2 as (s2 & h2 & U2 & _ & Hh2 & P2).
  unfold issuance_safe. cbn [is_audience is_client_id is_operator_audience is_issuer is_jwks_url is_team_map is_bounds is_allow_insecure_http].
  destruct (str_eqb (stripped vs (u8 "CORP_GATEWAY_ISSUE_OIDC_AUDIENCE")) []) eqn:Ea; [done|]. apply str_eqb_neq in Ea.
  destruct (str_eqb (stripped vs (u8 "CORP_GATEWAY_ISSUE_OIDC_CLIENT_ID")) []) eqn:Ec; [done|]. apply str_eqb_neq in Ec.
  split_and!; [done|done| |by exists s1, h1|by exists s2, h2| | | |].
  - cbn [negb andb] in Ho. destruct (str_eqb _ (stripped vs (u8 "CORP_GATEWAY_OIDC_AUDIENCE"))) eqn:Eo; [done|]. by apply str_eqb_neq in Eo.
  - unfold issuance_team_map in E3. destruct table as [|t table]; [done|]. destruct (team_pairs (t :: table)) as [ps'|] eqn:Et; [|done]. injection E3 as <-.
    destruct t as [g [t|?|? ?]]; cbn [team_pairs] in Et; try done. destruct (_ || _); [done|]. destruct (team_pairs table) as [rest|]; [|done]. cbn in Et. by injection Et as <-.
  - unfold issuance_team_map in E3. destruct table; [done|]. destruct (team_pairs _) as [ps'|] eqn:Et; [|done]. injection E3 as <-. by eapply team_pairs_nonblank.
  - exact (bounds_nil vs ISSUANCE_BOUNDS Hb).
  - by intros ->.
Qed.

(** *** The whole configuration *)

Lemma flag_off_nil (b : bool) (l : list problem) : (if b then [] else l) = [] -> l <> [] -> b = true.
Proof. by destruct b. Qed.

Lemma conditional_ok vs k sel want : check_conditional vs = [] -> k ∈ KEYS -> k_required_when k = Some (sel, want) ->
  lowered vs sel = want -> unset vs (k_name k) = false.
Proof.
  intros H Hk Hw Hs. pose proof (concat_map_nil _ _ _ H Hk) as G. cbv beta in G. rewrite Hw in G.
  apply str_eqb_eq in Hs. rewrite Hs, andb_true_r in G. by destruct (unset vs (k_name k)).
Qed.

(** litellm writes no debug output, which would have the bodies of requests. *)
Definition debug_off (w : world) (vs : values) : Prop :=
  u_upper (default [] (w_env w (u8 "LITELLM_LOG"))) <> u8 "DEBUG" /\
  u_lower (strip (default [] (w_env w (u8 "DETAILED_DEBUG")))) ∉ CLICK_TRUE /\
  forall d, jget (u8 "litellm_settings") (litellm_document (w_litellm w (litellm_path vs))) = JObj d -> truthy (jget (u8 "set_verbose") d) = false.

Lemma debug_problems_nil w vs : debug_problems w (litellm_path vs) = [] -> debug_off w vs.
Proof.
  unfold debug_problems, debug_off. intros [H1 [H2 H3]%app_eq_nil]%app_eq_nil. split_and!.
  - apply str_eqb_neq. by destruct (str_eqb _ _).
  - apply memb_false. by destruct (memb _ _).
  - intros d Hd. rewrite Hd in H3. by destruct (truthy _).
Qed.

Lemma debug_clean w vs : check_litellm_debug w vs = [] ->
  (prod vs = true -> flag vs (u8 "CORP_LLM_ALLOW_LITELLM_DEBUG") = false) /\
  (flag vs (u8 "CORP_LLM_ALLOW_LITELLM_DEBUG") = false -> debug_off w vs).
Proof.
  unfold check_litellm_debug, build_litellm_debug. destruct (flag vs _), (prod vs); cbn [andb]; intros H; (split; [try done|]); try done.
  all: intros _; by apply debug_problems_nil.
Qed.

(** C37: a configuration that validates is safe to serve.  There is an oracle endpoint or
    the local cascade is on, so the gateway is never a no-op; at most one bridge forwards a
    developer's credential, and none beside a litellm master key; the credentials of the
    selected auth provider and audit sink are set; issuance has Postgres, an audience
    that is not the operators', HTTPS in production and bounds in range; the cap is one
    the limiter accepts, and in production it is on; litellm's debug output (the variables
    LITELLM_LOG and DETAILED_DEBUG and the set_verbose of its configuration) is off unless
    it is allowed, and in production in any case. *)
Theorem validated_config_safe w vs : validate_config w = Valid vs ->
  (if flag vs (u8 "CORP_LLM_ORACLE_ENABLED") then unset vs (u8 "CORP_LLM_ENDPOINT") = false else flag vs (u8 "CORP_LLM_LOCAL_FIRST") = true) /\
  chatgpt_on vs && anthropic_on vs = false /\
  (chatgpt_on vs || anthropic_on vs = true -> vget vs (u8 "LITELLM_MASTER_KEY") = None) /\
  (forall k sel want, k ∈ KEYS -> k_required_when k = Some (sel, want) -> lowered vs sel = want -> unset vs (k_name k) = false) /\
  (forall ps s, build_issuance vs (get_table w (u8 "CORP_GATEWAY_ISSUE_OIDC_TEAM_MAP")) = Ok (ps, Some s) ->
     issuance_safe vs s /\ stripped vs (u8 "CORP_LLM_PG_DSN") <> []) /\
  (exists c, build_capacity vs = Ok ([], Some c) /\ limiter_of c = Ok (limits_of c, Counters 0 0 0) /\ (prod vs = true -> 1 <= lm_max (limits_of c))) /\
  (prod vs = true -> flag vs (u8 "CORP_LLM_ALLOW_LITELLM_DEBUG") = false) /\
  (flag vs (u8 "CORP_LLM_ALLOW_LITELLM_DEBUG") = false \/ prod vs = true -> debug_off w vs).
Proof.
  intros [_ []]%valid_clean. split_and!.
  - unfold check_oracle_endpoint, check_no_op_sanitizer in *. destruct (flag vs (u8 "CORP_LLM_ORACLE_ENABLED")); cbn [andb orb] in *.
    + by destruct (unset vs (u8 "CORP_LLM_ENDPOINT")).
    + by destruct (flag vs (u8 "CORP_LLM_LOCAL_FIRST")).
  - unfold check_forward_auth_exclusive, forward_auth_conflict in *. by destruct (chatgpt_on vs && anthropic_on vs).
  - intros Hb. unfold check_master_key_conflict, master_key_conflict in *. rewrite Hb in *. cbn [negb] in *. by destruct (vget vs (u8 "LITELLM_MASTER_KEY")).
  - intros. by eapply conditional_ok.
  - intros ps s Hs. split; [by eapply build_issuance_safe|]. destruct cl_issuance0 as [s' Hi]. unfold serving_issuance in Hi. rewrite Hs in Hi. cbn [rbind] in Hi.
    unfold build_issuance in Hs. destruct (stripped vs ISSUER_KEY) as [|c iss]; [done|]. cbn [str_eqb negb andb] in Hi.
    destruct (stripped vs (u8 "CORP_LLM_PG_DSN")); [|done]. injection Hi as Hi _. by destruct ps.
  - destruct cl_capacity0 as [c Hc]. destruct (capacity_some _ _ Hc) as [c' ->]. exists c'. split; [done|].
    split; [by eapply capacity_limiter|]. by destruct (capacity_within _ _ _ Hc) as (_ & _ & Hp).
  - by destruct (debug_clean _ _ cl_debug0) as [H _].
  - destruct (debug_clean _ _ cl_debug0) as [H1 H2]. naive_solver.
Qed.

(** *** The two validators of a choice *)

Lemma no_required_keys : forallb (fun k => negb (k_required k)) KEYS = true.
Proof. vm_compute. reflexivity. Qed.

Lemma check_required_nil vs : check_required vs = [].
Proof.
  unfold check_required. pose proof no_required_keys as H. induction KEYS as [|k ks IH]; [done|]. cbn [forallb] in H.
  apply andb_true_iff in H as [Hk H]. apply negb_true_iff in Hk. cbn [map concat]. by rewrite Hk, IH.
Qed.

Definition choice_keys : list (str * list str) := omap (fun k => choices ← k_choices k; Some (k_name k, choices)) KEYS.

Lemma choice_keys_selectors : choice_keys = SELECTORS.
Proof. vm_compute. reflexivity. Qed.

Lemma check_choices_eq vs :
  check_choices vs = concat (map (fun sel : str * list str =>
    match vget vs sel.1 with Some ((_ :: _) as v) => if memb (u_lower (strip v)) sel.2 then [] else [PChoice sel.1 v] | _ => [] end) SELECTORS).
Proof.
  rewrite <-choice_keys_selectors. unfold check_choices, choice_keys. induction KEYS as [|k ks IH]; [done|]. cbn [map concat omap list_omap].
  rewrite IH. unfold mbind. destruct (k_choices k) as [choices|]; cbn [option_bind map concat fst snd]; [done|]. by destruct (vget vs (k_name k)) as [[]|].
Qed.

(** the two validators of the selectors agree.  With pydantic and without it, the
    same problems are found in the same order, unless a selector is set to the empty
    text, which pydantic refuses and the fallback lets pass. *)
Theorem choice_validators_agree vs :
  (forall sel, sel ∈ map fst SELECTORS -> vget vs sel <> Some []) ->
  pydantic_problems vs = check_required vs ++ check_choices vs.
Proof.
  intros H. rewrite check_required_nil, check_choices_eq. cbn [app]. unfold pydantic_problems. f_equal. apply map_ext_in.
  intros [sel choices] Hin. cbn [fst snd]. destruct (vget vs sel) as [[|c v]|] eqn:E; [|done|done].
  exfalso. apply (H sel); [|done]. apply list_elem_of_In, in_map_iff. by exists (sel, choices).
Qed.
End SettingsProofs.

(** ** Concrete configurations *)

(** The parsers on what the examples use. *)
Definition demo_parsers : Parsers := {| float_of s := match py_int (U := ru_unicode) s with Some z => Some (Some (inject_Z z)) | None => None end; host_ok _ := true |}.

Definition env_of (l : list (str * str)) : str -> option str := fun name => dget name l.
Definition demo_yaml : litellm_file := LitellmFile true true (u8 ".yaml") (YamlDocument (JObj [(u8 "model_list", JList [])])).
Definition demo_world (env : list (str * str)) : world := World (env_of env) (fun _ => None) (fun _ => demo_yaml) true.

Abbreviation demo_validate := (@validate_config ru_unicode demo_parsers).

Definition solo_env : list (str * str) := [(u8 "CORP_LLM_ORACLE_ENABLED", u8 "off"); (u8 "CORP_ENV", u8 "Prod")].
Definition solo_values : values := resolve_values (demo_world solo_env).

Lemma validated_config_safe_witness : flag (U := ru_unicode) solo_values (u8 "CORP_LLM_LOCAL_FIRST") = true /\ debug_off (U := ru_unicode) (demo_world solo_env) solo_values.
Proof.
  assert (E : demo_validate (demo_world solo_env) = Valid solo_values) by (vm_compute; reflexivity).
  destruct (validated_config_safe (U := ru_unicode) (PR := demo_parsers) (demo_world solo_env) solo_values E) as (H & _ & _ & _ & _ & _ & _ & Hd).
  assert (Eo : flag (U := ru_unicode) solo_values (u8 "CORP_LLM_ORACLE_ENABLED") = false) by (vm_compute; reflexivity).
  rewrite Eo in H. split; [exact H|]. apply Hd. right. vm_compute. reflexivity.
Defined.

Lemma capacity_accepted_witness :
  let c := Capacity 64 (Some 5%Q) (Some 30%Q) 256 536870912 in
  within_ceilings c /\ limiter_of c = Ok (limits_of c, Counters 0 0 0).
Proof.
  cbv zeta. destruct (capacity_accepted (U := ru_unicode) (PR := demo_parsers) solo_values [] (Capacity 64 (Some 5%Q) (Some 30%Q) 256 536870912)) as (H1 & _ & H2).
  - vm_compute. reflexivity.
  - split; [exact H1|exact H2].
Defined.

Lemma choice_validators_agree_witness :
  pydantic_problems (U := ru_unicode) [(u8 "CORP_AUDIT_SINK", Some (u8 "kafka"))] = [PChoice (u8 "CORP_AUDIT_SINK") (u8 "kafka")].
Proof.
  rewrite (choice_validators_agree (U := ru_unicode) [(u8 "CORP_AUDIT_SINK", Some (u8 "kafka"))]).
  - vm_compute. reflexivity.
  - intros sel Hs. assert (G : forallb (fun sel => negb (bool_decide (vget [(u8 "CORP_AUDIT_SINK", Some (u8 "kafka"))] sel = Some []))) (map fst SELECTORS) = true)
      by (vm_compute; reflexivity).
    rewrite forallb_forall in G. apply list_elem_of_In, G in Hs. by apply negb_true_iff, bool_decide_eq_false in Hs.
Defined.

(** The module says both paths give the same outcome for a choice; an empty selector
    fails with pydantic and passes without it. *)
Lemma empty_selector_forks :
  let vs := [(u8 "CORP_AUDIT_SINK", Some [])] in
  pydantic_problems (U := ru_unicode) vs = [PChoice (u8 "CORP_AUDIT_SINK") []] /\ check_choices (U := ru_unicode) vs = [].
Proof. vm_compute. auto. Qed.

(** [parse_flag] is documented as the one parser of flags; [require_ner] has its own, and
    a value that is on for one is off for the other: the engine then fails open. *)
Lemma require_ner_forks :
  let w := demo_world [(u8 "CORP_LLM_REQUIRE_NER", u8 "enabled")] in
  flag (U := ru_unicode) (resolve_values w) (u8 "CORP_LLM_REQUIRE_NER") = true /\ require_ner (U := ru_unicode) w = false.
Proof. vm_compute. auto. Qed.

(** A character that [isdigit] takes and [int] does not, here the superscript two. *)
Definition superscripts : Unicode := {|
  u_word := @u_word ru_unicode; u_alnum := @u_alnum ru_unicode; u_digit c := ascii_digit_p c || (c =? 178)%N;
  u_decimal := @u_decimal ru_unicode; u_lower := @u_lower ru_unicode; u_upper := @u_upper ru_unicode; u_variants := @u_variants ru_unicode |}.

(** It is a [ValueError] of the validation in place of a problem. *)
Lemma superscript_port_crashes :
  check_serve_port (U := superscripts) [(u8 "CORP_LLM_SERVE_PORT", Some [178%N])] = Raise tt /\
  build_max_inflight (U := superscripts) [(u8 "CORP_LLM_MAX_INFLIGHT", Some [178%N])] = Raise tt.
Proof. vm_compute. auto. Qed.

Example refused_configurations :
  demo_validate (demo_world []) = Invalid [PRequired (u8 "CORP_LLM_ENDPOINT")] /\
  demo_validate (demo_world [(u8 "CORP_LLM_ORACLE_ENABLED", u8 "0"); (u8 "CORP_LLM_LOCAL_FIRST", u8 "no")]) = Invalid [PNoOpSanitizer] /\
  demo_validate (demo_world [(u8 "CORP_LLM_ORACLE_ENABLED", u8 "0"); (u8 "CORP_LLM_FORWARD_ANTHROPIC_AUTH", u8 "1"); (u8 "LITELLM_MASTER_KEY", [])])
  = Invalid [PMasterKey] /\
  demo_validate (demo_world [(u8 "CORP_LLM_ORACLE_ENABLED", u8 "0"); (u8 "CORP_ENV", u8 "prod"); (u8 "CORP_LLM_MAX_INFLIGHT", u8 "0")])
  = Invalid [PInflightOff].
Proof. vm_compute. auto. Qed.
