(* ===== verification/CorpNer.v ===== *)
(** * The corporate NER service ([corp_ner/client.py], [detectors/corp_ner.py])

    The client cuts the texts into batches within the limits of the service, posts each
    batch and reads a strict schema; the detector maps the offsets of the answer, which
    count in the NFC form of the text, back onto the text.  The HTTP transport is the
    parameter [post], a function of the bodies sent before and the body sent now;
    [too_deep] says whether [resp.json()] ends in a [RecursionError].  The normal form and
    the combining classes of [unicodedata] are the class [Normalization].  An error keeps
    its kind in place of its message.  A score is a rational: NaN and the infinities are
    outside the model. *)

From S2P Require Import Prelude Text Json JsonBytes Regex Spans Checksums Detectors Segmenter LocalPass ContentBlocks.
Local Open Scope py_scope.
Local Open Scope Z_scope.

Abbreviation bytes := (list N).

(** [unicodedata.normalize("NFC", s)] and whether [unicodedata.combining(c)] is not zero. *)
Class Normalization := {
  nfc : str -> str;
  combining : N -> bool;
}.

(** ** The client *)

Definition MAX_TEXTS : Z := 256.
Definition MAX_INPUT_CHARS : Z := 200000.
Definition NER_MAX_BODY_BYTES : Z := 64 * 1024 * 1024.

Definition KNOWN_LABELS : list str :=
  [u8 "PERSON"; u8 "LOCATION"; u8 "ORGANIZATION"; u8 "LOGIN"; u8 "PASSWORD"; u8 "AUTH_TOKEN";
   u8 "SECRET_KEY"; u8 "CONTRACT_NUMBER"; u8 "SECRET"].

Definition KNOWN_SOURCES : list str := [u8 "ner"; u8 "regex"; u8 "both"].

Record Span := MkSpan {
  sp_start : Z; sp_end : Z; sp_label : str; sp_score : option Q; sp_source : str;
}.

Record AnalyzeResult := MkAnalyzeResult { ar_spans : list Span; ar_truncated : bool }.

(** What [CorpNerUnavailableError] is raised for. *)
Inductive unavailable :=
| TextTooLong (chars : Z)
| TextTooLarge (size : Z)
| TransportError
| ErrorStatus (status : Z)
| MalformedResponse
| CountMismatch (expected got : Z)
| MalformedResult
| MalformedSpan
| NotMappable
| Truncated (chars : Z)
| SpanPastEnd (stop nfc_len : Z).

(** What leaves the client and the detector; only the first is handled by name. *)
Inductive ner_error :=
| Unavailable (why : unavailable)
| UnicodeEncodeError               (* a lone surrogate in [.encode("utf-8")] *)
| UnhashableType                   (* [TypeError]: a list or dict [in] a frozenset *)
| FloatOverflow                    (* [OverflowError] of [float(score)] *)
| RecursionLimit                   (* [RecursionError] of [resp.json()] *)
| OtherTransportError              (* not an [httpx.HTTPError] *)
| RunIndexError                    (* [IndexError] of [_OffsetMap] *)
| StrictZip.                       (* [ValueError] of [zip(..., strict=True)] *)

Inductive ner_outcome :=
| HttpResponse (status : Z) (content : bytes)
| HttpError                        (* [httpx.HTTPError] *)
| HttpOther.

(** [json.dumps({"texts": batch}, ensure_ascii=False, separators=(",", ":"))] *)
Definition dump_texts (batch : list str) : str :=
  u8 "{" ++ dump_string (u8 "texts") ++ u8 ":" ++ u8 "[" ++ join (u8 ",") (map dump_string batch) ++ u8 "]" ++ u8 "}".

(** [len(b'{"texts":[]}')] *)
Definition ENVELOPE_BYTES : Z := len (dump_texts []).

(** [_json_bytes] of a text *)
Definition json_bytes (text : str) : result ner_error Z :=
  match utf8_encode (dump_string text) with Some b => Ok (len b) | None => Raise UnicodeEncodeError end.

Record ner_limits := Limits { max_texts : Z; max_input_chars : Z; max_body_bytes : Z }.

Definition default_limits : ner_limits := Limits MAX_TEXTS MAX_INPUT_CHARS NER_MAX_BODY_BYTES.

(** [_batches], a generator: what it yields, and the exception that ends it. *)
Fixpoint batches_go (l : ner_limits) (batch : list str) (chars body : Z) (texts : list str)
  : list (list str) * option ner_error :=
  match texts with
  | [] => (match batch with [] => [] | _ => [batch] end, None)
  | text :: texts' =>
    match json_bytes text with
    | Raise e => ([], Some e)
    | Ok size =>
      if max_input_chars l <? len text then ([], Some (Unavailable (TextTooLong (len text)))) else
      if max_body_bytes l <? ENVELOPE_BYTES + size then ([], Some (Unavailable (TextTooLarge size))) else
      if match batch with [] => false | _ => true end &&
         ((max_texts l <? len batch + 1) || (max_input_chars l <? chars + len text) || (max_body_bytes l <? body + 1 + size))
      then let r := batches_go l [text] (len text) (ENVELOPE_BYTES + size) texts' in (batch :: r.1, r.2)
      else batches_go l (batch ++ [text]) (chars + len text)
             (body + size + match batch with [] => 0 | _ => 1 end) texts'
    end
  end.

Definition batches (l : ner_limits) (texts : list str) : list (list str) * option ner_error :=
  batches_go l [] 0 ENVELOPE_BYTES texts.

(** *** The answer *)

(** [v in S] for a frozenset of strings *)
Definition in_frozenset (v : json) (s : list str) : result ner_error bool :=
  match type_in v s with Some b => Ok b | None => Raise UnhashableType end.

(** [float(z)] of an int: to the nearest of 53 bits, ties to even. *)
Definition float_of_int (z : Z) : option Q :=
  let a := Z.abs z in
  if 2 ^ 1024 - 2 ^ 970 <=? a then None else
  if a <? 2 ^ 53 then Some (inject_Z z) else
  let k := Z.log2 a - 52 in
  let q := Z.shiftr a k in
  let r := a - Z.shiftl q k in
  let half := 2 ^ (k - 1) in
  let q' := if (half <? r) || ((half =? r) && Z.odd q) then q + 1 else q in
  Some (inject_Z (Z.sgn z * Z.shiftl q' k)).

Section Client.
Context {F : FloatText} (float_value : str -> Q).

(** The score of a span: null, an int or a float, not a bool. *)
Definition parse_score (v : json) : result ner_error (option Q) :=
  match v with
  | JNull => Ok None
  | JInt z => match float_of_int z with Some q => Ok (Some q) | None => Raise FloatOverflow end
  | JFloat t => Ok (Some (float_value t))
  | _ => Raise (Unavailable MalformedSpan)
  end.

Definition parse_span (raw : json) : result ner_error Span :=
  match raw with
  | JObj d =>
    match jget (u8 "start") d, jget (u8 "end") d with
    | JInt start, JInt stop =>
      if (start <? 0) || (stop <? start) then Raise (Unavailable MalformedSpan) else
      let! known := in_frozenset (jget (u8 "label") d) KNOWN_LABELS in
      if negb known then Raise (Unavailable MalformedSpan) else
      let! known_source := in_frozenset (jget (u8 "source") d) KNOWN_SOURCES in
      if negb known_source then Raise (Unavailable MalformedSpan) else
      let! score := parse_score (jget (u8 "score") d) in
      match jget (u8 "label") d, jget (u8 "source") d with
      | JStr label, JStr source => Ok (MkSpan start stop label score source)
      | _, _ => Raise (Unavailable MalformedSpan)            (* not reached *)
      end
    | _, _ => Raise (Unavailable MalformedSpan)
    end
  | _ => Raise (Unavailable MalformedSpan)
  end.

Fixpoint map_result {E A B} (f : A -> result E B) (l : list A) : result E (list B) :=
  match l with
  | [] => Ok []
  | x :: l' => let! y := f x in let! ys := map_result f l' in Ok (y :: ys)
  end.

Definition parse_result (item : json) : result ner_error AnalyzeResult :=
  match item with
  | JObj d =>
    match jget (u8 "spans") d with
    | JList raw_spans =>
      match jget (u8 "truncated") d with
      | JBool truncated => let! spans := map_result parse_span raw_spans in Ok (MkAnalyzeResult spans truncated)
      | _ => Raise (Unavailable MalformedResult)
      end
    | _ => Raise (Unavailable MalformedResult)
    end
  | _ => Raise (Unavailable MalformedResult)
  end.

Definition parse_results (raw : json) (expected : Z) : result ner_error (list AnalyzeResult) :=
  match raw with
  | JObj d =>
    match jget (u8 "results") d with
    | JList items =>
      if negb (len items =? expected) then Raise (Unavailable (CountMismatch expected (len items)))
      else map_result parse_result items
    | _ => Raise (Unavailable MalformedResponse)
    end
  | _ => Raise (Unavailable MalformedResponse)
  end.

Context (too_deep : bytes -> bool) (post : list bytes -> bytes -> ner_outcome).

(** The body and the answer of one batch; [sent] are the bodies posted so far. *)
Definition analyze_batch (sent : list bytes) (batch : list str)
  : list bytes * result ner_error (list AnalyzeResult) :=
  match utf8_encode (dump_texts batch) with
  | None => (sent, Raise UnicodeEncodeError)
  | Some content =>
    (sent ++ [content],
     match post sent content with
     | HttpError => Raise (Unavailable TransportError)
     | HttpOther => Raise OtherTransportError
     | HttpResponse status answer =>
       if 400 <=? status then Raise (Unavailable (ErrorStatus status)) else
       if too_deep answer then Raise RecursionLimit else
       match loads_bytes answer with
       | None => Raise (Unavailable MalformedResponse)
       | Some raw => parse_results raw (len batch)
       end
     end)
  end.

(** The loop of [analyze] over the generator. *)
Fixpoint analyze_go (sent : list bytes) (results : list AnalyzeResult) (bs : list (list str)) (last : option ner_error)
  : list bytes * result ner_error (list AnalyzeResult) :=
  match bs with
  | [] => (sent, match last with None => Ok results | Some e => Raise e end)
  | batch :: bs' =>
    let r := analyze_batch sent batch in
    match r.2 with
    | Ok more => analyze_go r.1 (results ++ more) bs' last
    | Raise e => (r.1, Raise e)
    end
  end.

Definition analyze (l : ner_limits) (texts : list str) : list bytes * result ner_error (list AnalyzeResult) :=
  match texts with
  | [] => ([], Ok [])
  | _ => let b := batches l texts in analyze_go [] [] b.1 b.2
  end.
End Client.

(** ** Offsets of the normal form *)

Definition LABEL_MAP : list (str * str) :=
  [(u8 "PERSON", u8 "PERSON"); (u8 "LOCATION", u8 "LOCATION"); (u8 "ORGANIZATION", u8 "ORG"); (u8 "LOGIN", u8 "LOGIN");
   (u8 "PASSWORD", u8 "PASSWORD"); (u8 "AUTH_TOKEN", u8 "AUTH_TOKEN"); (u8 "SECRET_KEY", u8 "SECRET_KEY");
   (u8 "CONTRACT_NUMBER", u8 "CONTRACT_NUMBER"); (u8 "SECRET", u8 "SECRET")].

Definition REGEX_SCORE : Q := 1.
Definition MIN_COMPOSABLE_SECOND : N := 0x300.

(** [text[i]], for an index in range *)
Definition at_ (text : str) (i : Z) : N := nth (Z.to_nat i) text 0%N.

Section Offsets.
Context {NF : Normalization}.

(** The loop of [_cluster_end]; the fuel is what is left of the text. *)
Fixpoint cluster_go (fuel : nat) (text : str) (j : Z) : Z :=
  match fuel with
  | O => j
  | S fuel => if (j <? len text) && combining (at_ text j) then cluster_go fuel text (j + 1) else j
  end.

Definition cluster_end (text : str) (start : Z) : Z :=
  cluster_go (Z.to_nat (len text - (start + 1))) text (start + 1).

(** The inner loop of [_chunks]: absorb clusters until the split loses nothing. *)
Fixpoint absorb_go (fuel : nat) (text : str) (i j : Z) : Z :=
  match fuel with
  | O => j
  | S fuel =>
    if j <? len text then
      let k := cluster_end text j in
      let head := slice text i j in
      let tail := slice text j k in
      if str_eqb (nfc (head ++ tail)) (nfc head ++ nfc tail) then j else absorb_go fuel text i k
    else j
  end.

Definition chunk_end (text : str) (i : Z) : Z :=
  let j := cluster_end text i in
  if (j <? len text) && (MIN_COMPOSABLE_SECOND <=? at_ text j)%N
  then absorb_go (Z.to_nat (len text - j)) text i j
  else j.

Fixpoint chunk_ranges_go (fuel : nat) (text : str) (i : Z) : list (Z * Z) :=
  match fuel with
  | O => []
  | S fuel => if i <? len text then (i, chunk_end text i) :: chunk_ranges_go fuel text (chunk_end text i) else []
  end.

Definition chunks (text : str) : list (Z * Z) := chunk_ranges_go (length text) text 0.

(** [(o_start, o_end, n_start, n_end, identity)] *)
Record run := Run { o_start : Z; o_end : Z; n_start : Z; n_end : Z; identity : bool }.

Record OffsetMap := MkOffsetMap { runs : list run; nfc_len : Z; orig_len : Z }.

(** [bisect_right] and [bisect_left] of a sorted list *)
Fixpoint bisect_right (l : list Z) (x : Z) : nat :=
  match l with [] => O | y :: l' => if y <=? x then S (bisect_right l' x) else O end.
Fixpoint bisect_left (l : list Z) (x : Z) : nat :=
  match l with [] => O | y :: l' => if y <? x then S (bisect_left l' x) else O end.

(** [runs[i]] for [i] from -1 on *)
Definition run_at (m : OffsetMap) (i : Z) : result ner_error run :=
  let i' := if i <? 0 then i + len (runs m) else i in
  match (if i' <? 0 then None else runs m !! Z.to_nat i') with Some r => Ok r | None => Raise RunIndexError end.

Definition map_start (m : OffsetMap) (pos : Z) : result ner_error Z :=
  if nfc_len m <=? pos then Ok (orig_len m) else
  let! r := run_at m (Z.of_nat (bisect_right (map n_start (runs m)) pos) - 1) in
  Ok (if identity r then o_start r + (pos - n_start r) else o_start r).

Definition map_end (m : OffsetMap) (pos : Z) : result ner_error Z :=
  if pos <=? 0 then Ok 0 else
  if nfc_len m <=? pos then Ok (orig_len m) else
  let! r := run_at m (Z.of_nat (bisect_left (map n_end (runs m)) pos)) in
  Ok (if identity r then o_start r + (pos - n_start r) else o_end r).

(** One round of [_build_map]; the runs are kept last first. *)
Definition add_chunk (text : str) (st : list run * list str * Z) (c : Z * Z) : list run * list str * Z :=
  let '(rs, pieces, n_pos) := st in
  let chunk := slice text c.1 c.2 in
  let piece := nfc chunk in
  let n_stop := n_pos + len piece in
  let same := str_eqb piece chunk in
  let fresh := Run c.1 c.2 n_pos n_stop same :: rs in
  let rs' := match rs with
             | prev :: rest => if same && identity prev then Run (o_start prev) c.2 (n_start prev) n_stop true :: rest else fresh
             | [] => fresh
             end in
  (rs', pieces ++ [piece], n_stop).

Definition build_map (text : str) (normal : str) : result ner_error OffsetMap :=
  let '(rs, pieces, _) := foldl (add_chunk text) ([], [], 0) (chunks text) in
  if negb (str_eqb (concat pieces) normal) then Raise (Unavailable NotMappable)
  else Ok (MkOffsetMap (rev rs) (len normal) (len text)).

(** ** The detector *)

(** One span of the loop of [_findings]; [None] is [continue]. *)
Definition span_finding (text normal : str) (offsets : option OffsetMap) (span : Span)
  : result ner_error (option finding) :=
  match dget (sp_label span) LABEL_MAP with
  | None => Ok None
  | Some label =>
    if len normal <? sp_end span then Raise (Unavailable (SpanPastEnd (sp_end span) (len normal))) else
    let! start := match offsets with None => Ok (sp_start span) | Some m => map_start m (sp_start span) end in
    let! stop := match offsets with None => Ok (sp_end span) | Some m => map_end m (sp_end span) end in
    if stop <=? start then Ok None else
    Ok (Some (Finding (slice text start stop) label start stop
                (match sp_score span with None => REGEX_SCORE | Some q => q end)))
  end.

Definition findings (text : str) (r : AnalyzeResult) : result ner_error (list finding) :=
  if ar_truncated r then Raise (Unavailable (Truncated (len text))) else
  match ar_spans r with
  | [] => Ok []
  | spans =>
    let normal := nfc text in
    let! offsets := (if str_eqb normal text then Ok None else let! m := build_map text normal in Ok (Some m)) in
    let! raw := map_result (span_finding text normal offsets) spans in
    Ok (deduplicate (omap id raw))
  end.
End Offsets.

Section Detector.
Context {U : Unicode} {NF : Normalization} {F : FloatText} (float_value : str -> Q) (too_deep : bytes -> bool)
  (post : list bytes -> bytes -> ner_outcome) (l : ner_limits).

Definition not_blank (text : str) : bool := match strip text with [] => false | _ => true end.

(** [_analyze] *)
Definition analyze_checked (texts : list str) : result ner_error (list AnalyzeResult) :=
  let! results := (analyze float_value too_deep post l texts).2 in
  if negb (len results =? len texts) then Raise (Unavailable (CountMismatch (len texts) (len results))) else Ok results.

(** [out[i] = ...] for the texts that are not blank, in order; the results are zipped. *)
Fixpoint fill (texts : list str) (results : list AnalyzeResult) : result ner_error (list (list finding)) :=
  match texts with
  | [] => match results with [] => Ok [] | _ => Raise StrictZip end
  | t :: texts' =>
    if not_blank t then
      match results with
      | r :: results' => let! fs := findings t r in let! rest := fill texts' results' in Ok (fs :: rest)
      | [] => Raise StrictZip
      end
    else let! rest := fill texts' results in Ok ([] :: rest)
  end.

Definition detect_batch (texts : list str) : result ner_error (list (list finding)) :=
  match List.filter not_blank texts with
  | [] => Ok (map (fun _ => []) texts)
  | asked => let! results := analyze_checked asked in fill texts results
  end.

Definition detect_one (text : str) : result ner_error (list finding) :=
  let! per_text := detect_batch [text] in
  match per_text with fs :: _ => Ok fs | [] => Raise RunIndexError end.
End Detector.

(** ** Theorems *)

(** *** Batches *)

Lemma join_snoc sep ps x : ps <> [] -> join sep (ps ++ [x]) = join sep ps ++ sep ++ x.
Proof.
  induction ps as [|p ps IH]; [done|]. intros _. destruct ps as [|q ps]; [done|].
  change (join sep ((p :: q :: ps) ++ [x])) with (p ++ sep ++ join sep ((q :: ps) ++ [x])).
  rewrite IH by done. change (join sep (p :: q :: ps)) with (p ++ sep ++ join sep (q :: ps)). by rewrite !app_assoc.
Qed.

Lemma encode_app_iff a b out :
  utf8_encode (a ++ b) = Some out <->
  exists x y, utf8_encode a = Some x /\ utf8_encode b = Some y /\ out = x ++ y.
Proof.
  rewrite utf8_encode_app. destruct (utf8_encode a) as [x|], (utf8_encode b) as [y|]; cbn; naive_solver.
Qed.

Lemma dump_texts_encode batch j :
  utf8_encode (join (u8 ",") (map dump_string batch)) = Some j ->
  exists b, utf8_encode (dump_texts batch) = Some b /\ len b = ENVELOPE_BYTES + len j.
Proof.
  intros Hj. unfold dump_texts. rewrite !app_assoc. rewrite <- (app_assoc _ (u8 "]")).
  eexists. split.
  - apply encode_app_iff. do 2 eexists. split; [apply encode_app_iff; do 2 eexists; split; [|split; [exact Hj|reflexivity]]|split; [|reflexivity]];
      by apply utf8_encode_ascii.
  - rewrite !len_app. unfold ENVELOPE_BYTES, dump_texts. cbn [map join]. rewrite !len_app, len_nil. lia.
Qed.

(** What the service accepts: a batch within its three limits. *)
Record within (l : ner_limits) (batch : list str) : Prop := Within {
  wi_some : batch <> [];
  wi_texts : len batch <= max_texts l;
  wi_chars : len (concat batch) <= max_input_chars l;
  wi_bytes : exists b, utf8_encode (dump_texts batch) = Some b /\ len b <= max_body_bytes l;
}.

(** The batch under construction, with its two counters. *)
Record open_batch (l : ner_limits) (batch : list str) (chars body : Z) : Prop := OpenBatch {
  ob_chars : chars = len (concat batch);
  ob_body : exists j, utf8_encode (join (u8 ",") (map dump_string batch)) = Some j /\ body = ENVELOPE_BYTES + len j;
  ob_fits : batch <> [] -> len batch <= max_texts l /\ chars <= max_input_chars l /\ body <= max_body_bytes l;
}.

Lemma open_within l batch chars body : open_batch l batch chars body -> batch <> [] -> within l batch.
Proof.
  intros [-> (j & Hj & ->) Hf] Hne. destruct (Hf Hne) as (H1 & H2 & H3). split; [done..|].
  destruct (dump_texts_encode _ _ Hj) as (b & Hb & El). exists b. split; [done|lia].
Qed.

Lemma open_nil l : open_batch l [] 0 ENVELOPE_BYTES.
Proof. split; [done| |done]. exists []. cbn. rewrite len_nil. split; [done|lia]. Qed.

Lemma json_bytes_ok text size :
  json_bytes text = Ok size -> exists b, utf8_encode (dump_string text) = Some b /\ size = len b.
Proof. unfold json_bytes. destruct (utf8_encode _) as [b|]; [|done]. intros [= <-]. eauto. Qed.

Lemma open_push l batch chars body text size :
  open_batch l batch chars body -> json_bytes text = Ok size -> 1 <= max_texts l ->
  len text <= max_input_chars l -> ENVELOPE_BYTES + size <= max_body_bytes l ->
  (batch <> [] -> len batch + 1 <= max_texts l /\ chars + len text <= max_input_chars l /\ body + 1 + size <= max_body_bytes l) ->
  open_batch l (batch ++ [text]) (chars + len text) (body + size + match batch with [] => 0 | _ => 1 end).
Proof.
  intros [-> (j & Hj & ->) _] (b & Hb & ->)%json_bytes_ok Hm Hc Hs Hfit. split.
  - rewrite concat_app, len_app. cbn [concat]. by rewrite app_nil_r.
  - rewrite map_app. cbn [map]. destruct batch as [|t batch].
    + exists b. cbn. split; [done|]. cbn in Hj. injection Hj as <-. rewrite len_nil. lia.
    + rewrite join_snoc by done. exists (j ++ u8 "," ++ b). split.
      * apply encode_app_iff. exists j, (u8 "," ++ b). split_and!; [done| |done].
        apply encode_app_iff. exists (u8 ","), b. split_and!; [by apply utf8_encode_ascii|done|done].
      * rewrite !len_app. change (len (u8 ",")) with 1. lia.
  - intros _. destruct batch as [|t batch].
    + cbn in Hj. injection Hj as <-. unfold len in *. cbn [concat app length] in *. lia.
    + destruct (Hfit ltac:(done)) as (H1 & H2 & H3). rewrite len_app. change (len [text]) with 1. lia.
Qed.

Lemma batches_go_spec l texts : 1 <= max_texts l -> forall batch chars body bs e,
  open_batch l batch chars body -> batches_go l batch chars body texts = (bs, e) ->
  Forall (within l) bs /\ concat bs `prefix_of` batch ++ texts /\ (e = None -> concat bs = batch ++ texts).
Proof.
  intros Hm. induction texts as [|text texts IH]; intros batch chars body bs e Ho; cbn [batches_go].
  - intros [= <- <-]. rewrite app_nil_r. destruct batch as [|t batch].
    + split_and!; [constructor|done|done].
    + cbn [concat]. rewrite app_nil_r. split_and!; [|done|done]. constructor; [|constructor]. by eapply open_within.
  - destruct (json_bytes text) as [size|e0] eqn:Es; [|intros [= <- <-]; split_and!; [constructor|apply prefix_nil|done]].
    destruct (max_input_chars l <? len text) eqn:Ec; [intros [= <- <-]; split_and!; [constructor|apply prefix_nil|done]|].
    destruct (max_body_bytes l <? _) eqn:Eb; [intros [= <- <-]; split_and!; [constructor|apply prefix_nil|done]|].
    apply Z.ltb_ge in Ec, Eb. destruct (_ && _) eqn:Ef.
    + apply andb_true_iff in Ef as [Hne _]. assert (batch <> []) as Hb by (by destruct batch).
      destruct (batches_go l [text] _ _ texts) as [bs' e'] eqn:Er. intros [= <- <-]. cbn [fst snd].
      pose proof (open_push l [] 0 ENVELOPE_BYTES text size (open_nil l) Es Hm Ec Eb ltac:(done)) as Hp.
      cbn [app] in Hp. rewrite Z.add_0_l, Z.add_0_r in Hp. destruct (IH _ _ _ _ _ Hp Er) as (H1 & H2 & H3).
      split_and!; [constructor; [by eapply open_within|done]| |].
      * cbn [concat]. by apply prefix_app.
      * intros He. cbn [concat]. by rewrite (H3 He).
    + intros Er. apply IH in Er; [by rewrite <- app_assoc in Er|]. apply open_push; [done..|].
      intros Hb. destruct batch as [|t batch]; [done|]. cbn [andb] in Ef. lia.
Qed.

(** A text that fits a batch of its own. *)
Definition fits (l : ner_limits) (text : str) : Prop :=
  exists b, utf8_encode (dump_string text) = Some b /\ len text <= max_input_chars l /\ ENVELOPE_BYTES + len b <= max_body_bytes l.

Lemma batches_end l texts : forall batch chars body,
  (batches_go l batch chars body texts).2 = None <-> Forall (fits l) texts.
Proof.
  induction texts as [|text texts IH]; intros batch chars body; cbn [batches_go]; [split; [constructor|done]|].
  rewrite Forall_cons. unfold fits at 1, json_bytes. destruct (utf8_encode (dump_string text)) as [b|] eqn:Eb; [|cbn; naive_solver].
  destruct (max_input_chars l <? len text) eqn:Ec; [cbn; split; [done|intros [(b' & _ & H & _) _]; lia]|].
  destruct (max_body_bytes l <? _) eqn:Es; [cbn; split; [done|intros [(b' & [= <-] & _ & H) _]; lia]|].
  destruct (_ && _); cbn [snd]; rewrite IH; (split; [intros H; split; [exists b; split_and!; [done|lia|lia]|done]|tauto]).
Qed.

(** *** The requests of one call *)

Lemma map_result_ok {E A B} (f : A -> result E B) l ys :
  map_result f l = Ok ys <-> Forall2 (fun x y => f x = Ok y) l ys.
Proof.
  revert ys. induction l as [|x l IH]; intros ys; cbn.
  - split; [intros [= <-]; constructor|by intros ->%Forall2_nil_inv_l].
  - split.
    + intros (y & Hy & (rest & Hr & [= <-])%rbind_ok)%rbind_ok. constructor; [done|by apply IH].
    + intros (y & ys' & Hy & Hl%IH & ->)%Forall2_cons_inv_l. rewrite Hy. cbn. by rewrite Hl.
Qed.

Lemma parse_results_length {F : FloatText} fv raw n rs : parse_results fv raw n = Ok rs -> len rs = n.
Proof.
  unfold parse_results. destruct raw as [| | | | | |d]; try done. destruct (jget _ d) as [| | | | |items|]; try done.
  destruct (negb _) eqn:E; [done|]. intros H%map_result_ok%Forall2_length. unfold len in *. lia.
Qed.

Section ClientFacts.
Context {F : FloatText} (float_value : str -> Q) (too_deep : bytes -> bool) (post : list bytes -> bytes -> ner_outcome).

Definition encodes (batch : list str) (body : bytes) : Prop := utf8_encode (dump_texts batch) = Some body.

Lemma analyze_go_sent bs : forall sent results last,
  exists sub bodies, (analyze_go float_value too_deep post sent results bs last).1 = sent ++ bodies /\
    sub `prefix_of` bs /\ Forall2 encodes sub bodies /\
    (forall rs, (analyze_go float_value too_deep post sent results bs last).2 = Ok rs ->
       sub = bs /\ last = None /\ len rs = len results + len (concat bs)).
Proof.
  induction bs as [|b bs IH]; intros sent results last.
  - exists [], []. cbn. rewrite app_nil_r. split_and!; [done|done|constructor|]. destruct last; [done|].
    intros rs [= <-]. rewrite (len_nil (A := str)). split_and!; [done|done|lia].
  - cbn [analyze_go]. unfold analyze_batch. destruct (utf8_encode (dump_texts b)) as [body|] eqn:Eb.
    2:{ exists [], []. cbn. rewrite app_nil_r. split_and!; [done|apply prefix_nil|constructor|done]. }
    cbn [fst snd]. match goal with |- context [match ?x with Ok _ => _ | Raise _ => _ end] => destruct x as [more|e] eqn:Er end.
    + destruct (IH (sent ++ [body]) (results ++ more) last) as (sub & bodies & -> & H2 & H3 & H4).
      exists (b :: sub), (body :: bodies). rewrite <- app_assoc. split_and!; [done|by apply prefix_cons|by constructor|].
      intros rs Hrs. destruct (H4 rs Hrs) as (-> & -> & ->). split_and!; [done|done|].
      assert (len more = len b) as Hm.
      { destruct (post sent body) as [st a| |]; try done. destruct (400 <=? st); [done|]. destruct (too_deep a); [done|].
        destruct (loads_bytes a) as [raw|]; [|done]. by eapply parse_results_length. }
      cbn [concat]. rewrite !len_app. lia.
    + exists [b], [body]. cbn. split_and!; [done|by apply prefix_cons, prefix_nil|by constructor|done].
Qed.

(** C26: every request of a call to the service is within its limits, whatever the
    service answers and also when the call fails in the end: the bodies posted are the
    encodings of consecutive groups of the texts, each with at most [max_texts] texts,
    [max_input_chars] characters and [max_body_bytes] bytes on the wire; a call that
    returns has sent every text and has one result per text. *)
Theorem ner_requests_bounded l texts : 1 <= max_texts l ->
  exists groups, Forall (within l) groups /\ Forall2 encodes groups (analyze float_value too_deep post l texts).1 /\
    concat groups `prefix_of` texts /\
    (forall rs, (analyze float_value too_deep post l texts).2 = Ok rs -> concat groups = texts /\ len rs = len texts).
Proof.
  intros Hm. unfold analyze. destruct texts as [|t texts].
  { exists []. cbn. split_and!; [constructor|constructor|done|]. intros rs [= <-]. split; done. }
  destruct (batches l (t :: texts)) as [bs e] eqn:Eb. cbn [fst snd]. unfold batches in Eb.
  destruct (batches_go_spec l (t :: texts) Hm _ _ _ _ _ (open_nil l) Eb) as (H1 & H2 & H3).
  destruct (analyze_go_sent bs [] [] e) as (sub & bodies & -> & [rest ->] & H5 & H6).
  exists sub. apply Forall_app in H1 as [H1 _]. rewrite concat_app in H2, H3. split_and!; [done|done| |].
  - etrans; [|exact H2]. by apply prefix_app_r.
  - intros rs Hrs. destruct (H6 rs Hrs) as (Hs & He & Hlen). specialize (H3 He).
    assert (rest = []) as -> by (apply (app_inv_head sub); by rewrite app_nil_r).
    cbn in H3. rewrite app_nil_r in H3. rewrite H3. split; [done|].
    rewrite app_nil_r, H3, (len_nil (A := AnalyzeResult)) in Hlen. lia.
Qed.

(** A service that analyses each text by itself: to a body of consecutive texts it answers
    a document with one result per text, in order. *)
Definition answers (f : str -> AnalyzeResult) (texts : list str) : Prop :=
  forall sent batch body before after, texts = before ++ batch ++ after -> batch <> [] -> encodes batch body ->
  exists status content d items,
    post sent body = HttpResponse status content /\ status < 400 /\ too_deep content = false /\
    loads_bytes content = Some (JObj d) /\ jget (u8 "results") d = JList items /\
    Forall2 (fun text item => parse_result float_value item = Ok (f text)) batch items.

Lemma analyze_batch_answers f texts sent batch body before after :
  answers f texts -> texts = before ++ batch ++ after -> batch <> [] -> encodes batch body ->
  (analyze_batch float_value too_deep post sent batch).2 = Ok (map f batch).
Proof.
  intros Ha Ht Hne He. destruct (Ha sent batch body before after Ht Hne He) as (st & content & d & items & Hp & Hs & Hd & Hl & Hr & Hi).
  unfold analyze_batch. rewrite He, Hp, Hd, Hl. cbn [snd]. destruct (400 <=? st) eqn:E; [lia|]. unfold parse_results. rewrite Hr.
  pose proof (Forall2_length _ _ _ Hi) as Hlen. replace (len items =? len batch) with true by (unfold len; lia). cbn [negb].
  apply map_result_ok. clear -Hi. induction Hi; constructor; auto.
Qed.

Lemma analyze_go_answers f texts l bs : answers f texts -> Forall (within l) bs -> forall before sent results,
  texts = before ++ concat bs ->
  (analyze_go float_value too_deep post sent results bs None).2 = Ok (results ++ map f (concat bs)).
Proof.
  intros Ha. induction 1 as [|b bs [Hne _ _ (body & Hb & _)] _ IH]; intros before sent results Ht; cbn [analyze_go].
  - cbn. by rewrite app_nil_r.
  - cbn [concat] in Ht |- *. rewrite (analyze_batch_answers f texts sent b body before (concat bs) Ha Ht Hne Hb), (IH (before ++ b)).
    + by rewrite map_app, app_assoc.
    + by rewrite <- app_assoc.
Qed.

(** batching is not observable: against a service that analyses each text by itself a
    call returns exactly when every text fits a request of its own, and what it returns
    is the analysis of each text in the order given, whatever the limits are. *)
Theorem ner_batching_transparent f l texts : 1 <= max_texts l -> answers f texts ->
  ((analyze float_value too_deep post l texts).2 = Ok (map f texts) <-> Forall (fits l) texts) /\
  (forall rs, (analyze float_value too_deep post l texts).2 = Ok rs -> rs = map f texts).
Proof.
  intros Hm Ha. unfold analyze. destruct texts as [|t texts].
  { split; [split; [constructor|done]|]. by intros rs [= <-]. }
  pose proof (batches_end l (t :: texts) [] 0 ENVELOPE_BYTES) as He. unfold batches in *.
  destruct (batches_go l [] 0 ENVELOPE_BYTES (t :: texts)) as [bs e] eqn:Eb. cbn [fst snd] in *.
  destruct (batches_go_spec l (t :: texts) Hm _ _ _ _ _ (open_nil l) Eb) as (H1 & _ & H3).
  assert (forall rs, (analyze_go float_value too_deep post [] [] bs e).2 = Ok rs -> e = None) as Hn.
  { intros rs Hrs. destruct (analyze_go_sent bs [] [] e) as (? & ? & _ & _ & _ & H). by destruct (H rs Hrs) as (_ & ? & _). }
  assert (e = None -> (analyze_go float_value too_deep post [] [] bs e).2 = Ok (map f (t :: texts))) as Ho.
  { intros ->. specialize (H3 eq_refl). cbn [app] in H3. by rewrite (analyze_go_answers f (t :: texts) l bs Ha H1 []), H3. }
  split; [rewrite <- He; split; [apply Hn|exact Ho]|].
  intros rs Hrs. specialize (Ho (Hn rs Hrs)). congruence.
Qed.
End ClientFacts.

(** *** Offsets *)

Section OffsetFacts.
Context {NF : Normalization} (text : str).

Lemma cluster_go_le n : forall j, j <= len text -> j <= cluster_go n text j <= len text.
Proof.
  induction n as [|n IH]; intros j Hj; cbn [cluster_go]; [lia|].
  destruct (_ && _) eqn:E; [|lia]. specialize (IH (j + 1)). lia.
Qed.

Lemma cluster_end_range i : 0 <= i < len text -> i < cluster_end text i <= len text.
Proof. intros Hi. unfold cluster_end. pose proof (cluster_go_le (Z.to_nat (len text - (i + 1))) (i + 1)). lia. Qed.

Lemma cluster_go_stops n : forall j, Z.of_nat n = len text - j ->
  cluster_go n text j < len text -> combining (at_ text (cluster_go n text j)) = false.
Proof.
  induction n as [|n IH]; intros j Hn; cbn [cluster_go]; [lia|].
  destruct (_ && _) eqn:E; [apply IH; lia|]. intros Hk. apply andb_false_iff in E as [E|E]; [lia|done].
Qed.

Lemma absorb_go_range n i : forall j, 0 <= j <= len text -> j <= absorb_go n text i j <= len text.
Proof.
  induction n as [|n IH]; intros j Hj; cbn [absorb_go]; [lia|]. destruct (j <? len text) eqn:E; [|lia].
  destruct (str_eqb _ _); [lia|]. pose proof (cluster_end_range j). specialize (IH (cluster_end text j)). lia.
Qed.

(** The fuel is enough: the loop ends at the end of the text or at a lossless split. *)
Lemma absorb_go_stops n i : forall j k, 0 <= j -> len text - j <= Z.of_nat n ->
  k = absorb_go n text i j -> k < len text ->
  nfc (slice text i k ++ slice text k (cluster_end text k)) = nfc (slice text i k) ++ nfc (slice text k (cluster_end text k)).
Proof.
  induction n as [|n IH]; intros j k H0 Hn; cbn [absorb_go]; [lia|]. destruct (j <? len text) eqn:E; [|lia].
  destruct (str_eqb _ _) eqn:Es; [intros -> _; by apply str_eqb_eq|].
  pose proof (cluster_end_range j). apply IH; lia.
Qed.

Lemma chunk_end_range i : 0 <= i < len text -> i < chunk_end text i <= len text.
Proof.
  intros Hi. unfold chunk_end. pose proof (cluster_end_range i Hi). destruct (_ && _); [|lia].
  pose proof (absorb_go_range (Z.to_nat (len text - cluster_end text i)) i (cluster_end text i)). lia.
Qed.

(** Ranges that follow each other from [i] to [n]. *)
Fixpoint tiled (i n : Z) (l : list (Z * Z)) : Prop :=
  match l with [] => i = n | c :: l' => c.1 = i /\ i < c.2 /\ c.2 <= n /\ tiled c.2 n l' end.

Lemma chunk_ranges_tiled n : forall i, 0 <= i <= len text -> len text - i <= Z.of_nat n -> tiled i (len text) (chunk_ranges_go n text i).
Proof.
  induction n as [|n IH]; intros i Hi Hn; cbn [chunk_ranges_go]; [cbn; lia|]. destruct (i <? len text) eqn:E; [|cbn; lia].
  pose proof (chunk_end_range i). cbn [tiled fst snd]. split_and!; [done|lia|lia|]. apply IH; lia.
Qed.

Lemma chunks_tiled : tiled 0 (len text) (chunks text).
Proof. apply chunk_ranges_tiled; unfold len; lia. Qed.

(** The reference: where a position of the normal form comes from, read off the chunks
    one after the other. *)
Definition piece (c : Z * Z) : str := nfc (slice text c.1 c.2).

Fixpoint image (cs : list (Z * Z)) (p : Z) : Z * Z :=
  match cs with
  | [] => (len text, len text)
  | c :: cs' =>
    if p <? len (piece c) then (if str_eqb (piece c) (slice text c.1 c.2) then (c.1 + p, c.1 + p + 1) else c)
    else image cs' (p - len (piece c))
  end.

Definition nsum (cs : list (Z * Z)) : Z := len (concat (map piece cs)).

Lemma nsum_snoc cs c : nsum (cs ++ [c]) = nsum cs + len (piece c).
Proof. unfold nsum. rewrite map_app, concat_app, len_app. cbn. by rewrite app_nil_r. Qed.
Lemma nsum_cons c cs : nsum (c :: cs) = len (piece c) + nsum cs.
Proof. unfold nsum. cbn [map concat]. by rewrite len_app. Qed.
Lemma nsum_nonneg cs : 0 <= nsum cs.
Proof. apply len_nonneg. Qed.

Lemma image_app_l cs cs' p : 0 <= p < nsum cs -> image (cs ++ cs') p = image cs p.
Proof.
  revert p. induction cs as [|c cs IH]; intros p Hp; [change (nsum []) with 0 in Hp; lia|].
  rewrite nsum_cons in Hp. cbn [app image]. destruct (p <? len (piece c)) eqn:E; [done|]. apply IH. lia.
Qed.

Lemma image_app_r cs cs' p : nsum cs <= p -> image (cs ++ cs') p = image cs' (p - nsum cs).
Proof.
  revert p. induction cs as [|c cs IH]; intros p Hp; [change (nsum []) with 0; by rewrite Z.sub_0_r|].
  rewrite nsum_cons in *. pose proof (nsum_nonneg cs). cbn [app image].
  destruct (p <? len (piece c)) eqn:E; [lia|]. rewrite IH by lia. f_equal. lia.
Qed.

(** The range a run gives to a position of the normal form. *)
Definition run_range (r : run) (p : Z) : Z * Z :=
  if identity r then (o_start r + (p - n_start r), o_start r + (p - n_start r) + 1) else (o_start r, o_end r).

Fixpoint run_image (rs : list run) (p : Z) : Z * Z :=
  match rs with
  | [] => (len text, len text)
  | r :: rs' => if p <? n_end r then run_range r p else run_image rs' p
  end.

(** Runs that follow each other, in the normal form from [n] to [n'] and in the text from
    [o] to [o']. *)
Fixpoint laid (n o n' o' : Z) (rs : list run) : Prop :=
  match rs with
  | [] => n = n' /\ o = o'
  | r :: rs' => n_start r = n /\ o_start r = o /\ n <= n_end r /\ (identity r = true -> n_end r - n = o_end r - o) /\
                laid (n_end r) (o_end r) n' o' rs'
  end.

Lemma laid_snoc n o n' o' rs r :
  laid n o n' o' (rs ++ [r]) <->
  exists m k, laid n o m k rs /\ n_start r = m /\ o_start r = k /\ m <= n_end r /\
    (identity r = true -> n_end r - m = o_end r - k) /\ n_end r = n' /\ o_end r = o'.
Proof.
  revert n o. induction rs as [|q rs IH]; intros n o; cbn [app laid].
  - split; [intros (? & ? & ? & ? & ? & ?)|intros (m & k & (-> & ->) & ? & ? & ? & ? & ? & ?)]; [exists n, o|]; tauto.
  - rewrite IH. split; [intros (? & ? & ? & ? & m & k & ? & ?)|intros (m & k & (? & ? & ? & ? & ?) & ?)].
    + exists m, k. tauto.
    + split_and!; [done..|]. exists m, k. tauto.
Qed.

Lemma laid_le n o n' o' rs : laid n o n' o' rs -> n <= n'.
Proof. revert n o. induction rs as [|r rs IH]; intros n o; cbn [laid]; [lia|]. intros (? & ? & ? & _ & H%IH). lia. Qed.

Lemma run_image_snoc n o n' o' rs r p : laid n o n' o' rs -> n <= p ->
  run_image (rs ++ [r]) p = if p <? n' then run_image rs p else run_image [r] p.
Proof.
  revert n o. induction rs as [|q rs IH]; intros n o; cbn [app laid run_image].
  - intros [-> _] Hp. destruct (p <? n') eqn:E; [lia|done].
  - intros (_ & _ & Hq & _ & Hl) Hp. pose proof (laid_le _ _ _ _ _ Hl). destruct (p <? n_end q) eqn:E.
    + destruct (p <? n') eqn:E'; [done|lia].
    + apply (IH (n_end q) (o_end q)); [done|lia].
Qed.
(** What the loop of [_build_map] keeps, after the chunks [cs] that end at [o]. *)
Record map_inv (cs : list (Z * Z)) (o : Z) (st : list run * list str * Z) : Prop := MapInv {
  mi_pos : st.2 = nsum cs;
  mi_pieces : st.1.2 = map piece cs;
  mi_laid : laid 0 0 (nsum cs) o (rev st.1.1);
  mi_image : forall p, 0 <= p < nsum cs -> run_image (rev st.1.1) p = image cs p;
}.

Lemma snoc_inv rs cs o r c pieces n :
  laid 0 0 (n_start r) (o_start r) rs -> n_start r <= nsum cs -> n_end r = nsum (cs ++ [c]) -> o_end r = o ->
  (identity r = true -> n_end r - n_start r = o_end r - o_start r) -> n = n_end r -> pieces = map piece (cs ++ [c]) ->
  (forall p, 0 <= p < n_start r -> run_image rs p = image cs p) ->
  (forall p, n_start r <= p < nsum cs -> run_range r p = image cs p) ->
  (forall p, nsum cs <= p < nsum (cs ++ [c]) -> run_range r p = image [c] (p - nsum cs)) ->
  map_inv (cs ++ [c]) o (r :: rev rs, pieces, n).
Proof.
  intros Hl Hle He Ho Hid -> -> H1 H2 H3. split; cbn [fst snd rev]; rewrite ?rev_involutive; [done|done| |].
  - apply laid_snoc. exists (n_start r), (o_start r). rewrite nsum_snoc in He. pose proof (len_nonneg (piece c)).
    split_and!; [done|done|done|lia|done|rewrite nsum_snoc; lia|done].
  - intros p Hp. rewrite (run_image_snoc _ _ _ _ _ _ _ Hl) by lia. destruct (p <? n_start r) eqn:E.
    + rewrite H1, image_app_l by lia. done.
    + cbn [run_image]. replace (p <? n_end r) with true by lia. destruct (Z_lt_le_dec p (nsum cs)).
      * rewrite H2, image_app_l by lia. done.
      * rewrite H3, image_app_r by lia. done.
Qed.

Lemma image_one c p : 0 <= p < len (piece c) ->
  image [c] p = if str_eqb (piece c) (slice text c.1 c.2) then (c.1 + p, c.1 + p + 1) else c.
Proof. intros Hp. cbn [image]. by replace (p <? len (piece c)) with true by lia. Qed.

Lemma identity_len c : 0 <= c.1 -> c.1 <= c.2 -> c.2 <= len text ->
  str_eqb (piece c) (slice text c.1 c.2) = true -> len (piece c) = c.2 - c.1.
Proof. intros H1 H2 H3 ->%str_eqb_eq. apply len_slice; lia. Qed.

Lemma add_chunk_fresh rs cs o c :
  laid 0 0 (nsum cs) o rs -> (forall p, 0 <= p < nsum cs -> run_image rs p = image cs p) ->
  0 <= c.1 -> c.1 = o -> c.1 <= c.2 -> c.2 <= len text ->
  map_inv (cs ++ [c]) c.2
    (Run c.1 c.2 (nsum cs) (nsum cs + len (piece c)) (str_eqb (piece c) (slice text c.1 c.2)) :: rev rs,
     map piece cs ++ [piece c], nsum cs + len (piece c)).
Proof.
  intros Hl Hi H0 <- H1 H2. rewrite <- nsum_snoc. change [piece c] with (map piece [c]). rewrite <- map_app.
  apply snoc_inv; cbn [n_start n_end o_start o_end identity]; try done.
  - intros E. rewrite nsum_snoc, (identity_len c H0 H1 H2 E). lia.
  - lia.
  - intros p Hp. rewrite nsum_snoc in Hp. rewrite image_one by lia. unfold run_range. cbn [identity n_start o_start o_end].
    destruct (str_eqb _ _); [done|by destruct c].
Qed.

Lemma add_chunk_inv cs o st c : map_inv cs o st -> 0 <= o -> c.1 = o -> o < c.2 -> c.2 <= len text ->
  map_inv (cs ++ [c]) c.2 (add_chunk text st c).
Proof.
  destruct st as [[rs pieces] n]. intros [Hn Hp Hl Hi] H0 H1 H2 H3. cbn [fst snd] in *. subst n pieces.
  unfold add_chunk. fold (piece c).
  assert (map_inv (cs ++ [c]) c.2 (Run c.1 c.2 (nsum cs) (nsum cs + len (piece c)) (str_eqb (piece c) (slice text c.1 c.2)) :: rs,
     map piece cs ++ [piece c], nsum cs + len (piece c))) as Hfresh.
  { rewrite <- (rev_involutive rs). apply (add_chunk_fresh (rev rs) cs o c); (done || lia). }
  destruct rs as [|prev rest]; [done|]. destruct (_ && _) eqn:E; [|done]. apply andb_true_iff in E as [Es Eid].
  clear Hfresh. cbn [rev] in Hl, Hi. apply laid_snoc in Hl as (m & k & Hl & Em & Ek & Hmn & Hid & Hne & Hoe).
  specialize (Hid Eid). pose proof (laid_le _ _ _ _ _ Hl) as Hm0. pose proof (identity_len c ltac:(lia) ltac:(lia) H3 Es) as Hlen.
  assert (forall p, 0 <= p -> run_image (rev rest ++ [prev]) p = if p <? m then run_image (rev rest) p else run_image [prev] p) as Hri
    by (intros p Hp0; by apply (run_image_snoc 0 0 m k)).
  rewrite <- (rev_involutive rest). change [piece c] with (map piece [c]). rewrite <- map_app, <- nsum_snoc.
  apply snoc_inv; cbn [n_start n_end o_start o_end identity]; try done.
  - by rewrite Em, Ek.
  - lia.
  - intros _. rewrite nsum_snoc. lia.
  - intros p Hp. rewrite <- Hi, Hri by lia. by replace (p <? m) with true by lia.
  - intros p Hp. rewrite <- Hi, Hri by lia. replace (p <? m) with false by lia. cbn [run_image].
    replace (p <? n_end prev) with true by lia. unfold run_range. by rewrite Eid.
  - intros p Hp. rewrite nsum_snoc in Hp. rewrite image_one, Es by lia. unfold run_range. cbn [identity n_start o_start o_end].
    f_equal; lia.
Qed.

Lemma add_chunks_inv todo : forall cs o st, map_inv cs o st -> 0 <= o -> tiled o (len text) todo ->
  map_inv (cs ++ todo) (len text) (foldl (add_chunk text) st todo).
Proof.
  induction todo as [|c todo IH]; intros cs o st Hinv H0; cbn [tiled foldl].
  - intros <-. by rewrite app_nil_r.
  - intros (H1 & H2 & H3 & Ht). rewrite cons_middle, app_assoc. apply (IH _ c.2); [|lia|done]. by apply (add_chunk_inv cs o).
Qed.

(** The two searches find the run of a position. *)
Lemma bisect_right_run rs : forall n o n' o' p, laid n o n' o' rs -> n <= p < n' ->
  exists k r, bisect_right (map n_start rs) p = S k /\ rs !! k = Some r /\ run_image rs p = run_range r p.
Proof.
  induction rs as [|q rs IH]; intros n o n' o' p; cbn [laid map bisect_right run_image]; [lia|].
  intros (-> & _ & Hq & _ & Hl) Hp. replace (n <=? p) with true by lia. destruct (p <? n_end q) eqn:E.
  - exists 0%nat, q. split_and!; [|done|done]. f_equal. destruct rs as [|r rs]; [done|]. cbn [laid map bisect_right] in *.
    destruct Hl as [-> _]. by replace (n_end q <=? p) with false by lia.
  - destruct (IH _ _ _ _ p Hl ltac:(lia)) as (k & r & -> & Hk & Hr). exists (S k), r. done.
Qed.

Lemma bisect_left_run rs : forall n o n' o' p, laid n o n' o' rs -> n <= p < n' ->
  exists r, rs !! bisect_left (map n_end rs) (p + 1) = Some r /\ run_image rs p = run_range r p.
Proof.
  induction rs as [|q rs IH]; intros n o n' o' p; cbn [laid map bisect_left run_image]; [lia|].
  intros (_ & _ & Hq & _ & Hl) Hp. destruct (p <? n_end q) eqn:E.
  - replace (n_end q <? p + 1) with false by lia. by exists q.
  - replace (n_end q <? p + 1) with true by lia. apply (IH _ _ _ _ p Hl). lia.
Qed.

Lemma run_at_found m k r : runs m !! k = Some r -> run_at m (Z.of_nat k) = Ok r.
Proof. intros H. unfold run_at. replace (Z.of_nat k <? 0) with false by lia. cbn zeta. replace (Z.of_nat k <? 0) with false by lia. by rewrite Nat2Z.id, H. Qed.

Lemma build_map_ok normal m : build_map text normal = Ok m ->
  normal = concat (map piece (chunks text)) /\ nfc_len m = len normal /\ orig_len m = len text /\
  laid 0 0 (len normal) (len text) (runs m) /\ forall p, 0 <= p < len normal -> run_image (runs m) p = image (chunks text) p.
Proof.
  unfold build_map. assert (map_inv [] 0 ([], [], 0)) as H0.
  { split; [done|done|done|]. intros p. change (nsum []) with 0. lia. }
  pose proof (add_chunks_inv (chunks text) [] 0 _ H0 ltac:(lia) chunks_tiled) as [_ Hp Hl Hi].
  destruct (foldl _ _ _) as [[rs pieces] n]. cbn [fst snd app] in *. destruct (negb _) eqn:E; [done|]. intros [= <-].
  apply negb_false_iff, str_eqb_eq in E. subst pieces. unfold nsum in Hl, Hi. rewrite E in Hl, Hi. by rewrite E.
Qed.

(** The searches of [_OffsetMap] over merged runs agree with the walk over the chunks. *)
Lemma map_start_image normal m p : build_map text normal = Ok m -> 0 <= p < len normal ->
  map_start m p = Ok (image (chunks text) p).1.
Proof.
  intros (_ & Hn & _ & Hl & Hi)%build_map_ok Hp. unfold map_start. rewrite Hn. replace (len normal <=? p) with false by lia.
  destruct (bisect_right_run _ _ _ _ _ p Hl Hp) as (k & r & -> & Hk & Hr).
  replace (Z.of_nat (S k) - 1) with (Z.of_nat k) by lia. rewrite (run_at_found _ _ _ Hk). cbn [rbind].
  rewrite <- (Hi p Hp), Hr. unfold run_range. by destruct (identity r).
Qed.

Lemma map_end_image normal m p : build_map text normal = Ok m -> 0 < p < len normal ->
  map_end m p = Ok (image (chunks text) (p - 1)).2.
Proof.
  intros (_ & Hn & _ & Hl & Hi)%build_map_ok Hp. unfold map_end. rewrite Hn.
  replace (p <=? 0) with false by lia. replace (len normal <=? p) with false by lia.
  destruct (bisect_left_run _ _ _ _ _ (p - 1) Hl ltac:(lia)) as (r & Hk & Hr). replace (p - 1 + 1) with p in Hk by lia.
  rewrite (run_at_found _ _ _ Hk). cbn [rbind].
  rewrite <- (Hi (p - 1) ltac:(lia)), Hr. unfold run_range. destruct (identity r); cbn [snd]; [|done]. f_equal. lia.
Qed.

(** *** The reference is monotone and stays in the text *)

Lemma image_range cs : forall i p, 0 <= i -> tiled i (len text) cs -> 0 <= p < nsum cs ->
  i <= (image cs p).1 /\ (image cs p).1 < (image cs p).2 /\ (image cs p).2 <= len text.
Proof.
  induction cs as [|c cs IH]; intros i p H0; cbn [tiled image]; [change (nsum []) with 0; lia|].
  intros (H1 & H2 & H3 & Ht). rewrite nsum_cons. intros Hp. destruct (p <? len (piece c)) eqn:E.
  - destruct (str_eqb _ _) eqn:Es; cbn [fst snd]; [|lia].
    pose proof (identity_len c ltac:(lia) ltac:(lia) H3 Es). lia.
  - specialize (IH c.2 (p - len (piece c)) ltac:(lia) Ht ltac:(lia)). lia.
Qed.

Lemma image_mono cs : forall i p q, 0 <= i -> tiled i (len text) cs -> 0 <= p <= q -> q < nsum cs ->
  (image cs p).1 <= (image cs q).1 /\ (image cs p).2 <= (image cs q).2.
Proof.
  induction cs as [|c cs IH]; intros i p q H0; cbn [tiled image]; [change (nsum []) with 0; lia|].
  intros (H1 & H2 & H3 & Ht). rewrite nsum_cons. intros Hp Hq.
  destruct (q <? len (piece c)) eqn:Eq; destruct (p <? len (piece c)) eqn:Ep; try lia.
  - destruct (str_eqb _ _) eqn:Es; cbn [fst snd]; lia.
  - pose proof (image_range cs c.2 (q - len (piece c)) ltac:(lia) Ht ltac:(lia)).
    destruct (str_eqb _ _) eqn:Es; cbn [fst snd]; [|lia].
    pose proof (identity_len c ltac:(lia) ltac:(lia) H3 Es). lia.
  - apply (IH c.2); [lia|done|lia|lia].
Qed.
End OffsetFacts.

(** *** Findings *)

Section FindingFacts.
Context {NF : Normalization} {F : FloatText} (float_value : str -> Q).

(** Where the code point [p] of the normal form of a text comes from. *)
Definition reported (text : str) (p : Z) : Z * Z :=
  if str_eqb (nfc text) text then (p, p + 1) else image text (chunks text) p.

(** The offset map [_findings] works with. *)
Definition offsets_of (text : str) : result ner_error (option OffsetMap) :=
  if str_eqb (nfc text) text then Ok None else let! m := build_map text (nfc text) in Ok (Some m).

Definition start_of (offsets : option OffsetMap) (pos : Z) : result ner_error Z :=
  match offsets with None => Ok pos | Some m => map_start m pos end.
Definition end_of (offsets : option OffsetMap) (pos : Z) : result ner_error Z :=
  match offsets with None => Ok pos | Some m => map_end m pos end.

Lemma offsets_some text m : offsets_of text = Ok (Some m) ->
  build_map text (nfc text) = Ok m /\ str_eqb (nfc text) text = false /\ nsum text (chunks text) = len (nfc text).
Proof.
  unfold offsets_of. destruct (str_eqb _ _); [done|]. intros (m' & Hm & [= <-])%rbind_ok. split_and!; [done|done|].
  apply build_map_ok in Hm as (E & _). unfold nsum. by rewrite <- E.
Qed.

Lemma offsets_none text : offsets_of text = Ok None -> nfc text = text.
Proof. unfold offsets_of. destruct (str_eqb _ _) eqn:E; [by apply str_eqb_eq in E|]. by intros (m & _ & ?)%rbind_ok. Qed.

Lemma start_of_reported text o p : offsets_of text = Ok o -> 0 <= p < len (nfc text) ->
  start_of o p = Ok (reported text p).1.
Proof.
  intros Ho Hp. destruct o as [m|]; cbn [start_of].
  - destruct (offsets_some _ _ Ho) as (Hm & E & _). unfold reported. rewrite E. by apply (map_start_image text (nfc text)).
  - unfold reported. rewrite (offsets_none _ Ho), (proj2 (str_eqb_eq _ _) eq_refl). done.
Qed.

Lemma reported_range text o p : offsets_of text = Ok o -> 0 <= p < len (nfc text) ->
  0 <= (reported text p).1 < (reported text p).2 /\ (reported text p).2 <= len text.
Proof.
  intros Ho Hp. unfold reported. destruct o as [m|].
  - destruct (offsets_some _ _ Ho) as (_ & -> & En).
    destruct (image_range text (chunks text) 0 p) as (? & ? & ?); [lia|apply chunks_tiled|lia|lia].
  - rewrite (offsets_none _ Ho), (proj2 (str_eqb_eq _ _) eq_refl) in *. cbn. lia.
Qed.

Lemma reported_mono text o p q : offsets_of text = Ok o -> 0 <= p <= q -> q < len (nfc text) ->
  (reported text p).1 <= (reported text q).1 /\ (reported text p).2 <= (reported text q).2.
Proof.
  intros Ho Hp Hq. unfold reported. destruct o as [m|].
  - destruct (offsets_some _ _ Ho) as (_ & -> & En).
    apply (image_mono text (chunks text) 0 p q); [lia|apply chunks_tiled|lia|lia].
  - rewrite (offsets_none _ Ho), (proj2 (str_eqb_eq _ _) eq_refl). cbn. lia.
Qed.

(** The end of a range that is not empty: the end of its last code point, or of the text. *)
Lemma end_of_reported text o p : offsets_of text = Ok o -> 0 < p <= len (nfc text) ->
  exists e, end_of o p = Ok e /\ (reported text (p - 1)).2 <= e <= len text /\ (p < len (nfc text) -> e = (reported text (p - 1)).2).
Proof.
  intros Ho Hp. pose proof (reported_range text o (p - 1) Ho ltac:(lia)) as Hr. destruct o as [m|]; cbn [end_of].
  - destruct (offsets_some _ _ Ho) as (Hm & E & _). destruct (Z_lt_le_dec p (len (nfc text))) as [Hlt|Hge].
    + exists (reported text (p - 1)).2. split; [|lia]. unfold reported. rewrite E. apply (map_end_image text (nfc text)); [done|lia].
    + exists (len text). apply build_map_ok in Hm as (_ & Hn & Hl & _). unfold map_end. rewrite Hn, Hl.
      replace (p <=? 0) with false by lia. replace (len (nfc text) <=? p) with true by lia. split; [done|lia].
  - exists p. assert ((reported text (p - 1)).2 = p) as ->.
    { unfold reported. rewrite (offsets_none _ Ho), (proj2 (str_eqb_eq _ _) eq_refl). cbn. lia. }
    rewrite (offsets_none _ Ho) in Hp. split; [done|lia].
Qed.

(** A span as [_parse_span] lets it through. *)
Record span_ok (sp : Span) : Prop := SpanOk {
  so_start : 0 <= sp_start sp;
  so_order : sp_start sp <= sp_end sp;
  so_label : sp_label sp ∈ KNOWN_LABELS;
}.

Lemma in_frozenset_true v s : in_frozenset v s = Ok true -> exists x, v = JStr x /\ x ∈ s.
Proof. destruct v; cbn; try done. intros [= H%memb_true]. eauto. Qed.

Lemma parse_span_ok raw sp : parse_span float_value raw = Ok sp -> span_ok sp.
Proof.
  destruct raw as [| | | | | |d]; try done. cbn [parse_span]. destruct (jget (u8 "start") d) as [| |a| | | |]; try done.
  destruct (jget (u8 "end") d) as [| |b| | | |]; try done. destruct (_ || _) eqn:E; [done|].
  intros (known & Hk & H)%rbind_ok. destruct known; [|done]. apply in_frozenset_true in Hk as (label & El & Hin).
  apply rbind_ok in H as (ks & Hs & H). destruct ks; [|done]. apply in_frozenset_true in Hs as (source & Es & _).
  apply rbind_ok in H as (score & _ & H). rewrite El, Es in H. injection H as <-. split; cbn; [lia|lia|done].
Qed.

Lemma parse_result_ok item r : parse_result float_value item = Ok r -> Forall span_ok (ar_spans r).
Proof.
  destruct item as [| | | | | |d]; try done. cbn [parse_result]. destruct (jget _ d) as [| | | | |raw|]; try done.
  destruct (jget _ d); try done. intros (spans & Hs & [= <-])%rbind_ok. cbn. apply map_result_ok in Hs.
  induction Hs as [|x y l l' Hx _ IH]; constructor; [by eapply parse_span_ok|done].
Qed.

Lemma label_known label : label ∈ KNOWN_LABELS -> exists out, dget label LABEL_MAP = Some out.
Proof.
  intros H. assert (Forall (fun x => is_Some (dget x LABEL_MAP)) KNOWN_LABELS) as Hall by (repeat constructor; vm_compute; eauto).
  rewrite Forall_forall in Hall. by apply Hall.
Qed.

(** The range the code computes for a span, empty or not, stays in the text. *)
Lemma span_offsets text o s e : offsets_of text = Ok o -> 0 <= s <= e -> e <= len (nfc text) ->
  exists start stop, start_of o s = Ok start /\ end_of o e = Ok stop /\ 0 <= start /\ stop <= len text /\
    (s < e -> start < stop /\ start = (reported text s).1 /\ (e < len (nfc text) -> stop = (reported text (e - 1)).2) /\
     forall p, s <= p < e -> start <= (reported text p).1 /\ (reported text p).2 <= stop).
Proof.
  intros Ho Hs He. assert (exists start, start_of o s = Ok start /\ 0 <= start /\ (s < e -> start = (reported text s).1)) as (start & Es & Hs0 & Hs1).
  { destruct (Z_lt_le_dec s (len (nfc text))).
    - exists (reported text s).1. rewrite (start_of_reported text o) by (done || lia). pose proof (reported_range text o s Ho). split_and!; [done|lia|done].
    - destruct o as [m|]; cbn [start_of]; [|exists s; split_and!; [done|lia|lia]].
      destruct (offsets_some _ _ Ho) as [(_ & Hn & Hl & _)%build_map_ok _]. exists (len text). unfold map_start. rewrite Hn, Hl.
      replace (len (nfc text) <=? s) with true by lia. pose proof (len_nonneg text). split_and!; [done|lia|lia]. }
  exists start. destruct (Z_lt_le_dec 0 e) as [H0|H0].
  - destruct (end_of_reported text o e Ho ltac:(lia)) as (stop & Ee & Hb & Hx). exists stop. split_and!; [done..|lia|].
    intros Hlt. specialize (Hs1 Hlt). subst start.
    pose proof (reported_range text o (e - 1) Ho ltac:(lia)). pose proof (reported_mono text o s (e - 1) Ho ltac:(lia) ltac:(lia)).
    split_and!; [lia|done|done|]. intros p Hp.
    pose proof (reported_mono text o s p Ho ltac:(lia) ltac:(lia)). pose proof (reported_mono text o p (e - 1) Ho ltac:(lia) ltac:(lia)). lia.
  - exists 0. split_and!; [done| |done|apply len_nonneg|lia]. destruct o as [m|]; cbn [end_of]; [|f_equal; lia].
    unfold map_end. by replace (e <=? 0) with true by lia.
Qed.

(** What a span of the answer becomes. *)
Record candidate (text : str) (sp : Span) (f : finding) : Prop := Candidate {
  ca_wf : finding_wf text f;
  ca_label : dget (sp_label sp) LABEL_MAP = Some (f_label f);
  ca_score : f_score f = match sp_score sp with None => REGEX_SCORE | Some q => q end;
  ca_start : sp_start sp < sp_end sp -> f_start f = (reported text (sp_start sp)).1;
  ca_covers : forall p, sp_start sp <= p < sp_end sp -> f_start f <= (reported text p).1 /\ (reported text p).2 <= f_end f;
}.

Lemma span_finding_spec text o sp : offsets_of text = Ok o -> span_ok sp ->
  if len (nfc text) <? sp_end sp then exists a b, span_finding text (nfc text) o sp = Raise (Unavailable (SpanPastEnd a b))
  else exists r, span_finding text (nfc text) o sp = Ok r /\
       (forall f, r = Some f -> candidate text sp f) /\ (sp_start sp < sp_end sp -> r <> None).
Proof.
  intros Ho [H0 H1 [label El]%label_known]. unfold span_finding. rewrite El. destruct (_ <? _) eqn:E; [eauto|].
  destruct (span_offsets text o (sp_start sp) (sp_end sp) Ho ltac:(lia) ltac:(lia)) as (a & b & Ea & Eb & Ha & Hb & Hc).
  fold (start_of o (sp_start sp)) (end_of o (sp_end sp)). rewrite Ea, Eb. cbn [rbind]. destruct (b <=? a) eqn:Eo.
  - exists None. split_and!; [done|done|]. intros Hlt. destruct (Hc Hlt) as [? _]. lia.
  - eexists. split; [done|]. split; [|done]. intros f [= <-]. split; cbn [f_start f_end f_label f_score].
    + split; cbn; [lia|lia|lia|done].
    + done.
    + done.
    + intros Hlt. by destruct (Hc Hlt) as (_ & -> & _).
    + intros p Hp. destruct (Hc ltac:(lia)) as (_ & _ & _ & Hall). by apply Hall.
Qed.

Lemma findings_raw text r fs : findings text r = Ok fs -> Forall span_ok (ar_spans r) ->
  ar_truncated r = false /\ exists raw, fs = deduplicate raw /\ Forall (finding_wf text) raw /\
    Forall (fun sp => sp_start sp < sp_end sp -> sp_end sp <= len (nfc text) /\ exists f, f ∈ raw /\ candidate text sp f) (ar_spans r).
Proof.
  unfold findings. destruct (ar_truncated r); [done|]. intros H Hok. split; [done|].
  destruct (ar_spans r) as [|sp0 spans] eqn:Esp; [injection H as <-; exists []; split_and!; [done|constructor|constructor]|].
  rewrite <- Esp in *. clear sp0 spans Esp. fold (offsets_of text) in H. apply rbind_ok in H as (o & Ho & H).
  apply rbind_ok in H as (raw & Hraw & [= <-]). exists (omap id raw). split; [done|]. apply map_result_ok in Hraw.
  induction Hraw as [|sp x spans raw Hx _ IH]; [split; constructor|]. apply Forall_cons in Hok as [Hsp Hok].
  destruct (IH Hok) as [IH1 IH2]. pose proof (span_finding_spec text o sp Ho Hsp) as Hs.
  destruct (len (nfc text) <? sp_end sp) eqn:E; [destruct Hs as (a & b & Hs); congruence|].
  destruct Hs as (x' & Hx' & Hc & Hn). rewrite Hx in Hx'. injection Hx' as <-. split.
  - destruct x as [f|]; cbn; [constructor; [by apply (Hc f)|done]|done].
  - constructor.
    + intros Hlt. split; [lia|]. destruct x as [f|]; [|by destruct (Hn Hlt)]. exists f. cbn. split; [by left|by apply Hc].
    + eapply Forall_impl; [exact IH2|]. intros sp' Hsp' Hlt. destruct (Hsp' Hlt) as (Hle & f & Hf & Hcf). split; [done|].
      exists f. split; [|done]. destruct x; cbn; [by right|done].
Qed.

(** C25: an answer of the service either becomes findings that cover it or is refused: when
    [_findings] returns, the text was not truncated, every finding is a non-empty slice of
    the text and the findings are disjoint and ordered; each non-empty span lies in the
    normal form of the text and stands for a range that holds, for every code point of the
    span, all the code points of the text it was composed from; and a finding that
    overlaps this range with at least its score is reported. *)
Theorem ner_findings_cover text item r fs :
  parse_result float_value item = Ok r -> findings text r = Ok fs ->
  ar_truncated r = false /\ Forall (finding_wf text) fs /\ StronglySorted (fun x y => f_end x <= f_start y) fs /\
  Forall (fun sp => sp_start sp < sp_end sp ->
    sp_end sp <= len (nfc text) /\
    exists f k, candidate text sp f /\ k ∈ fs /\ overlaps f k = true /\ (f_score f <= f_score k)%Q) (ar_spans r).
Proof.
  intros Hp%parse_result_ok Hf. destruct (findings_raw text r fs Hf Hp) as (Ht & raw & -> & Hwf & Hall).
  split; [done|]. split; [|split].
  - rewrite Forall_forall in Hwf |- *. intros f Hin%deduplicate_subset. auto.
  - apply deduplicate_sorted. eapply Forall_impl; [exact Hwf|]. by intros f [].
  - eapply Forall_impl; [exact Hall|]. intros sp Hsp Hlt. destruct (Hsp Hlt) as (Hle & f & Hin & Hc). split; [done|].
    destruct (deduplicate_maximal raw f Hin) as (k & Hk & Hov & Hq); [by destruct Hc as [[]]|]. by exists f, k.
Qed.

(** With answers that were parsed the detector raises [CorpNerUnavailableError] only. *)
Lemma findings_error text r e : Forall span_ok (ar_spans r) -> findings text r = Raise e -> exists why, e = Unavailable why.
Proof.
  intros Hok. unfold findings. destruct (ar_truncated r); [intros [= <-]; eauto|]. destruct (ar_spans r) as [|sp0 spans] eqn:Esp; [done|].
  rewrite <- Esp in *. clear sp0 spans Esp. fold (offsets_of text). destruct (offsets_of text) as [o|e'] eqn:Ho; cbn [rbind].
  - destruct (map_result _ _) as [raw|e'] eqn:Em; [done|]. intros [= <-]. revert Em. clear -Ho Hok. induction Hok as [|sp spans Hsp _ IH]; [done|].
    cbn [map_result]. pose proof (span_finding_spec text o sp Ho Hsp) as Hs. destruct (_ <? _).
    + destruct Hs as (a & b & ->). intros [= <-]. eauto.
    + destruct Hs as (x & -> & _). cbn [rbind]. destruct (map_result _ spans); [done|]. intros [= <-]. by apply IH.
  - intros [= <-]. revert Ho. unfold offsets_of. destruct (str_eqb _ _); [done|]. unfold build_map.
    destruct (foldl _ _ _) as [[rs pieces] n]. destruct (negb _); [|done]. intros [= <-]. eauto.
Qed.
End FindingFacts.

(** *** The detector in the local pass *)

Section DetectorFacts.
Context {U : Unicode} {NF : Normalization} {F : FloatText} (float_value : str -> Q) (too_deep : bytes -> bool)
  (post : list bytes -> bytes -> ner_outcome) (l : ner_limits).

Lemma parse_results_spans raw n rs : parse_results float_value raw n = Ok rs -> Forall (fun r => Forall span_ok (ar_spans r)) rs.
Proof.
  unfold parse_results. destruct raw as [| | | | | |d]; try done. destruct (jget _ d) as [| | | | |items|]; try done.
  destruct (negb _); [done|]. intros H%map_result_ok. induction H as [|x y xs ys Hx _ IH]; constructor; [by eapply parse_result_ok|done].
Qed.

Lemma analyze_batch_spans sent b rs :
  (analyze_batch float_value too_deep post sent b).2 = Ok rs -> Forall (fun r => Forall span_ok (ar_spans r)) rs.
Proof.
  unfold analyze_batch. destruct (utf8_encode _) as [content|]; [|done]. cbn [snd]. destruct (post sent content) as [st a| |]; try done.
  destruct (400 <=? st); [done|]. destruct (too_deep a); [done|]. destruct (loads_bytes a) as [raw|]; [|done]. apply parse_results_spans.
Qed.

Lemma analyze_go_spans bs last : forall sent results rs, Forall (fun r => Forall span_ok (ar_spans r)) results ->
  (analyze_go float_value too_deep post sent results bs last).2 = Ok rs -> Forall (fun r => Forall span_ok (ar_spans r)) rs.
Proof.
  induction bs as [|b bs IH]; intros sent results rs Hr; cbn [analyze_go].
  - cbn. destruct last; [done|]. by intros [= <-].
  - destruct (analyze_batch _ _ _ sent b).2 as [more|e] eqn:E; [|done]. apply IH. apply Forall_app. split; [done|].
    by eapply analyze_batch_spans.
Qed.

Lemma analyze_spans texts rs : (analyze float_value too_deep post l texts).2 = Ok rs -> Forall (fun r => Forall span_ok (ar_spans r)) rs.
Proof. unfold analyze. destruct texts as [|t texts]; [intros [= <-]; constructor|]. apply analyze_go_spans. constructor. Qed.

Lemma findings_wf text r fs : Forall span_ok (ar_spans r) -> findings text r = Ok fs -> Forall (finding_wf text) fs.
Proof.
  intros Hok Hf. destruct (findings_raw text r fs Hf Hok) as (_ & raw & -> & Hwf & _).
  rewrite Forall_forall in Hwf |- *. intros f Hin%deduplicate_subset. auto.
Qed.

Lemma fill_wf texts : forall results out, Forall (fun r => Forall span_ok (ar_spans r)) results -> fill texts results = Ok out ->
  Forall2 (fun t fs => Forall (finding_wf t) fs) texts out.
Proof.
  induction texts as [|t texts IH]; intros results out Hr; cbn [fill].
  - destruct results; [|done]. intros [= <-]. constructor.
  - destruct (not_blank t).
    + destruct results as [|r results]; [done|]. apply Forall_cons in Hr as [Hr1 Hr2].
      intros (fs & Hf & (rest & Hrest & [= <-])%rbind_ok)%rbind_ok. constructor; [by eapply findings_wf|by eapply IH].
    + intros (rest & Hrest & [= <-])%rbind_ok. constructor; [constructor|by eapply IH].
Qed.

Lemma detect_batch_wf texts out : detect_batch float_value too_deep post l texts = Ok out ->
  Forall2 (fun t fs => Forall (finding_wf t) fs) texts out.
Proof.
  unfold detect_batch. destruct (List.filter not_blank texts) as [|a asked].
  - intros [= <-]. induction texts; constructor; [constructor|done].
  - intros (rs & (rs' & Hr & Hc)%rbind_ok & Hf)%rbind_ok. destruct (negb _); [done|]. injection Hc as ->.
    eapply fill_wf; [|exact Hf]. by eapply analyze_spans.
Qed.

(** What the hook sees of an exception: the service's own kind, or one it does not expect. *)
Definition raised (e : ner_error) : detect_error :=
  match e with Unavailable _ => CorpNerUnavailableError | _ => DetectorValueError end.

Definition lifted {A} (r : result ner_error A) : result detect_error A :=
  match r with Ok a => Ok a | Raise e => Raise (raised e) end.

Definition corp_ner_detector (id : nat) : detector :=
  Detector id (fun text => lifted (detect_one float_value too_deep post l text))
    (Some (fun texts => lifted (detect_batch float_value too_deep post l texts))).

Lemma finding_wf_in text f : finding_wf text f -> finding_in text f.
Proof. intros [? ? ? ?]. split; (done || lia). Qed.

#[export] Instance corp_ner_ok id : DetectorOk (corp_ner_detector id).
Proof.
  intros s fs H. cbn [d_detect corp_ner_detector] in H. unfold detect_one in H.
  destruct (detect_batch _ _ _ _ [s]) as [out|e] eqn:E; [|done]. cbn [rbind] in H.
  apply detect_batch_wf in E. destruct out as [|fs' out]; [done|]. injection H as <-.
  apply Forall2_cons in E as [E _]. eapply Forall_impl; [exact E|]. apply finding_wf_in.
Qed.

Lemma gather_all {A B} (f : A -> result detect_error B) (g : A -> B) xs :
  (forall x, x ∈ xs -> f x = Ok (g x)) -> gather f xs = Ok (map g xs).
Proof.
  induction xs as [|x xs IH]; intros H; [done|]. cbn [gather map]. rewrite H by (by left). cbn [rbind].
  rewrite IH; [done|]. intros y Hy. apply H. by right.
Qed.

Lemma check_finding_wf seg f : finding_wf (seg_text seg) f -> check_finding seg f = Ok (rebase seg f).
Proof.
  intros [H1 H2 H3 H4]. unfold check_finding. replace (_ && _) with true by lia. cbn [negb].
  by rewrite H4, (proj2 (str_eqb_eq _ _) eq_refl).
Qed.

(** C27: the detector keeps the contract of a batch detector: for any segments of a text, an
    answer it gives has one list per segment with ranges of that segment, so the checks of
    the local pass never refuse it and return its findings at their place in the text. *)
Theorem corp_ner_contract id segs per_text call :
  d_batch (corp_ner_detector id) = Some call -> call (map seg_text segs) = Ok per_text ->
  len per_text = len segs /\
  check_batch segs per_text = Ok (concat (map (fun sf => map (rebase sf.1) sf.2) (zip segs per_text))).
Proof.
  intros [= <-] H. destruct (detect_batch _ _ _ _ _) as [out|e] eqn:E; [|done]. injection H as <-.
  apply detect_batch_wf in E. change (map seg_text segs) with (seg_text <$> segs) in E.
  apply (Forall2_fmap_l seg_text (fun t fs => Forall (finding_wf t) fs)) in E. pose proof (Forall2_length _ _ _ E) as Hl.
  assert (len out = len segs) as Hlen by (unfold len; lia). split; [done|].
  unfold check_batch. rewrite Hlen, Z.eqb_refl. cbn [negb].
  rewrite (gather_all _ (fun sf => map (rebase sf.1) sf.2)); [done|]. intros [seg fs] Hin. cbn [fst snd].
  apply gather_all. intros f Hf. apply check_finding_wf.
  apply elem_of_lookup_zip_with in Hin as (i & seg' & fs' & [= <- <-] & Hs & Ho).
  pose proof (Forall2_lookup_lr _ _ _ _ _ _ E Hs Ho) as Hw. cbn in Hw. rewrite Forall_forall in Hw. by apply Hw.
Qed.
End DetectorFacts.

(** ** Concrete inputs *)

(** One composition: U+0438 and the breve U+0306 are U+0439. *)
Fixpoint demo_compose (s : str) : str :=
  match s with
  | 1080%N :: 774%N :: s' => 1081%N :: demo_compose s'
  | c :: s' => c :: demo_compose s'
  | [] => []
  end.
#[local] Instance demo_normalization : Normalization := {| nfc := demo_compose; combining c := (c =? 774)%N |}.
#[local] Existing Instance id_floats.
#[local] Existing Instance ru_unicode.

Definition demo_t1 : str := [1080; 774; 97]%N.
Definition demo_t2 : str := u8 "b ".

Definition demo_span (stop : Z) : json :=
  JObj [(u8 "start", JInt 0); (u8 "end", JInt stop); (u8 "label", JStr (u8 "ORGANIZATION")); (u8 "source", JStr (u8 "ner")); (u8 "score", JInt 1)].
Definition demo_item : json := JObj [(u8 "spans", JList [demo_span 1]); (u8 "truncated", JBool false)].
Definition demo_result : AnalyzeResult := MkAnalyzeResult [MkSpan 0 1 (u8 "ORGANIZATION") (Some 1%Q) (u8 "ner")] false.
Definition demo_doc (n : nat) : bytes := dumps (JObj [(u8 "results", JList (repeat demo_item n))]).
Definition demo_body (batch : list str) : bytes := match utf8_encode (dump_texts batch) with Some b => b | None => [] end.
Definition demo_post (_ : list bytes) (body : bytes) : ner_outcome :=
  HttpResponse 200 (demo_doc (if str_eqb body (demo_body [demo_t1; demo_t2]) then 2 else 1)).
Definition demo_limits : ner_limits := Limits 1 10 100.

Lemma demo_answers : answers (fun _ => 0%Q) (fun _ => false) demo_post (fun _ => demo_result) [demo_t1; demo_t2].
Proof.
  intros sent batch body before after Ht Hne He.
  assert (batch = [demo_t1] \/ batch = [demo_t2] \/ batch = [demo_t1; demo_t2]) as Hb.
  { destruct before as [|x [|y before]]; cbn in Ht; [|injection Ht as -> Ht|by destruct before, batch].
    - destruct batch as [|x [|y [|z batch]]]; [done| | |done]; cbn in Ht; [injection Ht as -> _|injection Ht as -> -> _]; tauto.
    - destruct batch as [|y [|z batch]]; [done| |done]. cbn in Ht. injection Ht as -> _. tauto. }
  clear Ht Hne before after.
  destruct Hb as [-> | [-> | ->]]; injection He as <-; do 4 eexists; (split; [reflexivity|]);
    (split; [lia|]); (split; [reflexivity|]); (split; [vm_compute; reflexivity|]); (split; [reflexivity|]); repeat constructor.
Qed.

Lemma ner_batching_transparent_witness :
  (analyze (fun _ => 0%Q) (fun _ => false) demo_post demo_limits [demo_t1; demo_t2]).2 = Ok [demo_result; demo_result].
Proof.
  apply (ner_batching_transparent (fun _ => 0%Q) (fun _ => false) demo_post (fun _ => demo_result) demo_limits [demo_t1; demo_t2]);
    [cbn; lia|exact demo_answers|].
  repeat constructor; (eexists; split; [vm_compute; reflexivity|]); vm_compute; split; discriminate.
Defined.

Lemma ner_requests_bounded_witness :
  exists groups, Forall (within demo_limits) groups /\
    Forall2 encodes groups (analyze (fun _ => 0%Q) (fun _ => false) demo_post demo_limits [demo_t1; demo_t2]).1 /\
    concat groups `prefix_of` [demo_t1; demo_t2] /\
    (forall rs, (analyze (fun _ => 0%Q) (fun _ => false) demo_post demo_limits [demo_t1; demo_t2]).2 = Ok rs ->
       concat groups = [demo_t1; demo_t2] /\ len rs = 2).
Proof. apply (ner_requests_bounded (fun _ => 0%Q) (fun _ => false) demo_post demo_limits [demo_t1; demo_t2]). cbn. lia. Defined.

Definition demo_findings : list finding := [Finding [1080; 774]%N (u8 "ORG") 0 2 1%Q].

Lemma ner_findings_cover_witness :
  findings demo_t1 demo_result = Ok demo_findings /\ Forall (finding_wf demo_t1) demo_findings.
Proof.
  split; [vm_compute; reflexivity|].
  apply (ner_findings_cover (fun _ => 0%Q) demo_t1 demo_item demo_result demo_findings); vm_compute; reflexivity.
Defined.

Lemma corp_ner_contract_witness :
  check_batch [Segment demo_t1 PROSE 0 3] [demo_findings] = Ok demo_findings.
Proof.
  destruct (corp_ner_contract (fun _ => 0%Q) (fun _ => false) demo_post demo_limits 0 [Segment demo_t1 PROSE 0 3] [demo_findings] _ eq_refl) as [_ H];
    [vm_compute; reflexivity|]. exact H.
Defined.

(** The service's own failures have a kind the hook handles; three inputs escape it: a
    lone surrogate, a label that is a list, a score too large for a float. *)
Lemma corp_ner_failure_escapes :
  (analyze (fun _ => 0%Q) (fun _ => false) demo_post demo_limits [[0xD800%N]]).2 = Raise UnicodeEncodeError /\
  parse_span (fun _ => 0%Q) (JObj [(u8 "start", JInt 0); (u8 "end", JInt 1); (u8 "label", JList [])]) = Raise UnhashableType /\
  parse_span (fun _ => 0%Q) (JObj [(u8 "start", JInt 0); (u8 "end", JInt 1); (u8 "label", JStr (u8 "LOGIN")); (u8 "source", JStr (u8 "ner"));
     (u8 "score", JInt (10 ^ 400))]) = Raise FloatOverflow.
Proof. split_and!; vm_compute; reflexivity. Qed.
