(* ===== verification/DualNer.v ===== *)
(** * The local NER engines ([detectors/ner_ru.py], [ner_en.py], [dual_ner.py], [shadow.py])

    Each engine module keeps one lazily loaded model and remembers that it tried; the dual
    detector runs both engines and disables one whose call ends in a [RuntimeError].  What
    the interpreter finds when it imports a backend is a parameter of every call
    ([attempt]), so the installation may change under a running process; a model is what
    it answers on a text, which may be an exception.  The package versions in a signature
    are those of the model that was loaded; the code reads them at each call.  The names in the warnings are left
    out. *)

From S2P Require Import Prelude Text Regex Spans Checksums Detectors TerminalAudit.
Local Open Scope py_scope.
Local Open Scope Z_scope.

Inductive engine_error :=
| RuntimeErr                        (* the backend or its model is not installed *)
| OtherErr.                         (* any other exception *)

(** [ent] of spaCy, [span] of Natasha *)
Record entity := Entity { en_text : str; en_label : str; en_start : Z; en_stop : Z }.

(** A loaded model, with the versions its signature names. *)
Record model := Model { mo_infer : str -> result engine_error (list entity); mo_versions : str * str }.

(** What importing and loading a backend gives at this moment. *)
Inductive attempt :=
| Loads (m : model)
| Absent                            (* [ImportError], or [OSError] of [spacy.load] *)
| Breaks.                           (* another exception *)

(** The two module-level globals, [_tried] and the model. *)
Record cache := Cache { ca_tried : bool; ca_model : option model }.

Definition fresh_cache : cache := Cache false None.

(** [_load_natasha] and [_load_spacy] *)
Definition load_model (w : attempt) (c : cache) : cache * result engine_error model :=
  if ca_tried c then (c, match ca_model c with Some m => Ok m | None => Raise RuntimeErr end)
  else match w with
       | Loads m => (Cache true (Some m), Ok m)
       | Absent => (Cache true None, Raise RuntimeErr)
       | Breaks => (Cache true None, Raise OtherErr)
       end.

Definition RU_LABEL_MAP : list (str * str) := [(u8 "PER", u8 "PERSON"); (u8 "LOC", u8 "LOCATION"); (u8 "ORG", u8 "ORG")].
Definition EN_LABEL_MAP : list (str * str) :=
  [(u8 "PERSON", u8 "PERSON"); (u8 "ORG", u8 "ORG"); (u8 "GPE", u8 "LOCATION"); (u8 "LOC", u8 "LOCATION")].
Definition EN_MODEL : str := u8 "en_core_web_md".
Definition NER_SCORE : Q := 4 # 5.

(** [_infer_ru] and [_infer_en] *)
Definition infer (labels : list (str * str)) (m : model) (text : str) : result engine_error (list finding) :=
  let! ents := mo_infer m text in
  Ok (omap (fun e => label ← dget (en_label e) labels; Some (Finding (en_text e) label (en_start e) (en_stop e) NER_SCORE)) ents).

(** The two classes. *)
Inductive engine_kind := RuNerDetector | EnNerDetector.

Definition ident (k : engine_kind) : str :=
  match k with
  | RuNerDetector => u8 "corp_llm_gateway.detectors.ner_ru.RuNerDetector"
  | EnNerDetector => u8 "corp_llm_gateway.detectors.ner_en.EnNerDetector"
  end.

Definition engine_labels (k : engine_kind) : list (str * str) :=
  match k with RuNerDetector => RU_LABEL_MAP | EnNerDetector => EN_LABEL_MAP end.

Definition ru_signature (r : result engine_error model) : result engine_error str :=
  match r with
  | Ok m => Ok (u8 "ru_ner:natasha:" ++ (mo_versions m).1 ++ u8 ":slovnet:" ++ (mo_versions m).2)
  | Raise RuntimeErr => Ok (u8 "ru_ner:none")
  | Raise OtherErr => Raise OtherErr
  end.

Definition en_signature (r : result engine_error model) : result engine_error str :=
  match r with
  | Ok m => Ok (u8 "en_ner:spacy:" ++ (mo_versions m).1 ++ u8 ":" ++ EN_MODEL ++ u8 ":" ++ (mo_versions m).2)
  | Raise RuntimeErr => Ok (u8 "en_ner:none")
  | Raise OtherErr => Raise OtherErr
  end.

(** [policy_signature] of an engine; the model is loaded, not probed. *)
Definition engine_signature (k : engine_kind) (w : attempt) (c : cache) : cache * result engine_error str :=
  let r := load_model w c in
  (r.1, match k with RuNerDetector => ru_signature r.2 | EnNerDetector => en_signature r.2 end).

Section Dual.
Context {U : Unicode}.

(** [detect] of an engine *)
Definition engine_detect (k : engine_kind) (w : attempt) (c : cache) (text : str) : cache * result engine_error (list finding) :=
  match strip text with
  | [] => (c, Ok [])
  | _ => let r := load_model w c in (r.1, let! m := r.2 in infer (engine_labels k) m text)
  end.

(** [DualNerDetector]: the engines with their modules' globals, [_disabled], [_require_ner]. *)
Record dual := Dual { du_engines : list (engine_kind * cache); du_disabled : list nat; du_require : bool }.

Inductive dual_error :=
| DualNerUnavailable (missing : list nat)       (* [NerUnavailableError], the engines named in order *)
| EngineRaised.                                 (* an engine's exception that is not a [RuntimeError] *)

Definition dual_init (require_ner : bool) : dual :=
  Dual [(RuNerDetector, fresh_cache); (EnNerDetector, fresh_cache)] [] require_ner.

(** The loop of [detect] from engine [idx] on; the exception, if any, ends it. *)
Fixpoint dual_go (ws : nat -> attempt) (text : str) (idx : nat) (es : list (engine_kind * cache)) (disabled : list nat) (raw : list finding)
  : list (engine_kind * cache) * list nat * option (list finding) :=
  match es with
  | [] => ([], disabled, Some raw)
  | (k, c) :: es' =>
    if memb idx disabled then
      let r := dual_go ws text (S idx) es' disabled raw in ((k, c) :: r.1.1, r.1.2, r.2)
    else
      let d := engine_detect k (ws idx) c text in
      match d.2 with
      | Ok fs => let r := dual_go ws text (S idx) es' disabled (raw ++ fs) in ((k, d.1) :: r.1.1, r.1.2, r.2)
      | Raise RuntimeErr => let r := dual_go ws text (S idx) es' (disabled ++ [idx]) raw in ((k, d.1) :: r.1.1, r.1.2, r.2)
      | Raise OtherErr => ((k, d.1) :: es', disabled, None)
      end
  end.

Definition dual_detect (ws : nat -> attempt) (st : dual) (text : str) : dual * result dual_error (list finding) :=
  let r := dual_go ws text 0 (du_engines st) (du_disabled st) [] in
  let st' := Dual r.1.1 r.1.2 (du_require st) in
  match r.2 with
  | None => (st', Raise EngineRaised)
  | Some raw =>
    if du_require st && match du_disabled st' with [] => false | _ => true end
    then (st', Raise (DualNerUnavailable (sort_on (fun i => [zk (Z.of_nat i)]) (du_disabled st'))))
    else (st', Ok (deduplicate raw))
  end.

(** The engines' signatures, one after the other. *)
Fixpoint signature_go (ws : nat -> attempt) (idx : nat) (es : list (engine_kind * cache))
  : list (engine_kind * cache) * result engine_error (list str) :=
  match es with
  | [] => ([], Ok [])
  | (k, c) :: es' =>
    let s := engine_signature k (ws idx) c in
    match s.2 with
    | Raise e => ((k, s.1) :: es', Raise e)
    | Ok part =>
      let r := signature_go ws (S idx) es' in
      ((k, s.1) :: r.1, let! parts := r.2 in Ok ((ident k ++ [0x1f%N] ++ part) :: parts))
    end
  end.

(** [policy_signature] of the dual detector *)
Definition dual_signature (ws : nat -> attempt) (st : dual) : dual * result engine_error (list str) :=
  let r := signature_go ws 0 (du_engines st) in
  (Dual r.1 (du_disabled st) (du_require st), let! parts := r.2 in Ok (sorted_strs parts)).

(** ** The shadow detector *)

(** [ShadowDetector.detect]: [None] in [shadow] is an exception of the shadow; the second
    component is whether a disagreement is logged. *)
Definition label_spans (fs : list finding) : list (str * Z * Z) := map (fun f => (f_label f, f_start f, f_end f)) fs.
Definition equivalent (a b : list finding) : bool :=
  bool_decide (Forall (fun x => x ∈ label_spans b) (label_spans a) /\ Forall (fun x => x ∈ label_spans a) (label_spans b)).
Definition shadow_detect {E} (canonical : result E (list finding)) (shadow : option (list finding)) : result E (list finding) * bool :=
  match canonical with
  | Raise e => (Raise e, false)
  | Ok fs => (Ok fs, match shadow with None => false | Some s => negb (equivalent fs s) end)
  end.
End Dual.

(** ** Theorems *)

Section DualFacts.
Context {U : Unicode}.

(** What each engine answers on a text. *)
Fixpoint answers_of (ws : nat -> attempt) (text : str) (idx : nat) (es : list (engine_kind * cache)) : list (result engine_error (list finding)) :=
  match es with
  | [] => []
  | (k, c) :: es' => (engine_detect k (ws idx) c text).2 :: answers_of ws text (S idx) es'
  end.

Lemma dual_go_disabled ws text es : forall idx disabled raw,
  disabled `prefix_of` (dual_go ws text idx es disabled raw).1.2.
Proof.
  induction es as [|[k c] es IH]; intros idx disabled raw; cbn [dual_go]; [done|]. destruct (memb idx disabled); [apply IH|].
  destruct (engine_detect k (ws idx) c text).2 as [fs|[]]; cbn [fst snd]; [apply IH| |done].
  etrans; [|apply IH]. by apply prefix_app_r.
Qed.

Lemma dual_go_all ws text es : forall idx raw out,
  (dual_go ws text idx es [] raw).1.2 = [] -> (dual_go ws text idx es [] raw).2 = Some out ->
  exists fss, answers_of ws text idx es = map Ok fss /\ out = raw ++ concat fss.
Proof.
  induction es as [|[k c] es IH]; intros idx raw out; cbn [dual_go answers_of].
  - intros _ [= <-]. exists []. by rewrite app_nil_r.
  - change (memb idx []) with false. cbv iota.
    destruct (engine_detect k (ws idx) c text).2 as [fs|[]] eqn:E; cbn [fst snd app]; [| |done].
    + intros H1 H2. destruct (IH _ _ _ H1 H2) as (fss & -> & ->). exists (fs :: fss). cbn. by rewrite app_assoc.
    + intros H1. pose proof (dual_go_disabled ws text es (S idx) [idx] raw) as Hp. rewrite H1 in Hp. by apply prefix_nil_inv in Hp.
Qed.

Lemma dual_detect_shape ws st text :
  du_require (dual_detect ws st text).1 = du_require st /\ du_disabled st `prefix_of` du_disabled (dual_detect ws st text).1.
Proof.
  unfold dual_detect. pose proof (dual_go_disabled ws text (du_engines st) 0 (du_disabled st) []) as H.
  destruct (dual_go _ _ _ _ _ _).2; [|done]. by destruct (_ && _).
Qed.

(** Later calls of the same detector. *)
Definition dual_run (calls : list ((nat -> attempt) * str)) (st : dual) : dual :=
  foldl (fun st c => (dual_detect c.1 st c.2).1) st calls.

Lemma dual_run_shape calls : forall st,
  du_require (dual_run calls st) = du_require st /\ du_disabled st `prefix_of` du_disabled (dual_run calls st).
Proof.
  induction calls as [|c calls IH]; intros st; cbn [dual_run foldl]; [done|]. fold (dual_run calls (dual_detect c.1 st c.2).1).
  destruct (dual_detect_shape c.1 st c.2) as [H1 H2]. destruct (IH (dual_detect c.1 st c.2).1) as [-> H4].
  split; [done|]. by etrans.
Qed.

Lemma required_raises ws st text : du_require st = true -> du_disabled st <> [] ->
  exists e, (dual_detect ws st text).2 = Raise e.
Proof.
  intros Hr Hd. unfold dual_detect. pose proof (dual_go_disabled ws text (du_engines st) 0 (du_disabled st) []) as [more E].
  destruct (dual_go _ _ _ _ _ _) as [[es d] [raw|]]; cbn [fst snd du_disabled] in *; [|by exists EngineRaised]. subst d.
  rewrite Hr. destruct (du_disabled st); [done|]. cbn [app andb snd]. eauto.
Qed.

(** C28: with [require_ner] the dual detector fails closed: a call that returns was answered by
    every engine, and each range an engine found is met by a reported range with at least
    its score; once an engine is disabled no later call returns at all, whatever the
    installation and the texts of the calls are. *)
Theorem dual_ner_fail_closed ws st text st' r :
  du_require st = true -> dual_detect ws st text = (st', r) ->
  (forall fs, r = Ok fs ->
     exists fss, answers_of ws text 0 (du_engines st) = map Ok fss /\
       forall f, f ∈ concat fss -> f_start f < f_end f -> exists k, k ∈ fs /\ overlaps f k = true /\ (f_score f <= f_score k)%Q) /\
  (du_disabled st' <> [] -> forall calls ws2 text2, exists e, (dual_detect ws2 (dual_run calls st') text2).2 = Raise e).
Proof.
  intros Hr Hd. pose proof (dual_detect_shape ws st text) as [Hr' _]. rewrite Hd in Hr'. cbn in Hr'. split.
  - intros fs ->. unfold dual_detect in Hd. destruct (dual_go ws text 0 (du_engines st) (du_disabled st) []) as [[es d] o] eqn:Eg.
    cbn [fst snd du_disabled] in Hd. destruct o as [raw|]; [|done]. rewrite Hr in Hd. cbn [andb] in Hd. destruct d as [|i d]; [|done].
    injection Hd as <- <-. pose proof (dual_go_disabled ws text (du_engines st) 0 (du_disabled st) []) as Hp. rewrite Eg in Hp.
    apply prefix_nil_inv in Hp. rewrite Hp in Eg.
    destruct (dual_go_all ws text (du_engines st) 0 [] raw) as (fss & Ha & ->); [by rewrite Eg..|]. exists fss. split; [done|].
    intros f Hf Hne. by apply (deduplicate_maximal (concat fss) f).
  - intros Hne calls ws2 text2. destruct (dual_run_shape calls st') as [H1 [more H2]]. apply required_raises; [congruence|].
    rewrite H2. by destruct (du_disabled st').
Qed.

(** *** The signature and the engines that run *)

Lemma load_latched w c : ca_tried c = true -> (load_model w c).1 = c.
Proof. unfold load_model. by intros ->. Qed.

Lemma engine_detect_latched k w c text : ca_tried c = true -> (engine_detect k w c text).1 = c.
Proof. intros H. unfold engine_detect. destruct (strip text); [done|]. by apply load_latched. Qed.

Lemma dual_go_latched ws text es : forall idx disabled raw, Forall (fun kc => ca_tried kc.2 = true) es ->
  (dual_go ws text idx es disabled raw).1.1 = es.
Proof.
  induction es as [|[k c] es IH]; intros idx disabled raw Ht; cbn [dual_go]; [done|]. apply Forall_cons in Ht as [Hc Ht].
  destruct (memb idx disabled); [cbn [fst]; by rewrite IH|]. pose proof (engine_detect_latched k (ws idx) c text Hc) as E.
  destruct (engine_detect k (ws idx) c text) as [c' [fs|[]]]; cbn [fst snd] in *; subst c'; [by rewrite IH|by rewrite IH|done].
Qed.

Lemma dual_run_latched calls : forall st, Forall (fun kc => ca_tried kc.2 = true) (du_engines st) ->
  du_engines (dual_run calls st) = du_engines st.
Proof.
  induction calls as [|c calls IH]; intros st Ht; [done|]. cbn [dual_run foldl]. fold (dual_run calls (dual_detect c.1 st c.2).1).
  assert (du_engines (dual_detect c.1 st c.2).1 = du_engines st) as E.
  { unfold dual_detect. pose proof (dual_go_latched c.1 c.2 (du_engines st) 0 (du_disabled st) [] Ht) as E.
    destruct (dual_go _ _ _ _ _ _).2; [|done]. by destruct (_ && _). }
  rewrite IH by (by rewrite E). exact E.
Qed.

(** Whether an engine finds its model, at any moment. *)
Definition runs_now (w : attempt) (c : cache) : bool := match (load_model w c).2 with Ok _ => true | Raise _ => false end.

Lemma engine_signature_latched k w c c' s : engine_signature k w c = (c', Ok s) ->
  ca_tried c' = true /\ forall w', runs_now w' c' = negb (str_eqb s (match k with RuNerDetector => u8 "ru_ner:none" | EnNerDetector => u8 "en_ner:none" end)).
Proof.
  unfold engine_signature. destruct (load_model w c) as [c0 r] eqn:E. cbn [fst snd]. intros [= <- Hs].
  assert (ca_tried c0 = true /\ r <> Raise OtherErr -> ca_tried c0 = true /\ forall w', (load_model w' c0).2 = r) as Hl.
  { intros [Ht Hr]. split; [done|]. intros w'. unfold load_model in E |- *. rewrite Ht. destruct (ca_tried c); [by injection E as <- <-|].
    destruct w; injection E as <- <-; done. }
  assert (ca_tried c0 = true) as Ht.
  { unfold load_model in E. destruct (ca_tried c) eqn:Et; [by injection E as <- _|]. destruct w; by injection E as <- _. }
  destruct Hl as [_ Hl]; [split; [done|]; intros ->; by destruct k|]. split; [done|]. intros w'. unfold runs_now. rewrite Hl.
  destruct k, r as [m|[]]; cbn [ru_signature en_signature] in Hs; try done; injection Hs as <-; done.
Qed.

Lemma ident_apart p q : ident RuNerDetector ++ [0x1f%N] ++ p <> ident EnNerDetector ++ [0x1f%N] ++ q.
Proof. intros H. discriminate H. Qed.

Lemma init_signature ws req st sig : dual_signature ws (dual_init req) = (st, Ok sig) ->
  exists c1 c2 p q, du_engines st = [(RuNerDetector, c1); (EnNerDetector, c2)] /\
    engine_signature RuNerDetector (ws 0%nat) fresh_cache = (c1, Ok p) /\ engine_signature EnNerDetector (ws 1%nat) fresh_cache = (c2, Ok q) /\
    sig ≡ₚ [ident RuNerDetector ++ [0x1f%N] ++ p; ident EnNerDetector ++ [0x1f%N] ++ q].
Proof.
  unfold dual_signature, dual_init. cbn [du_engines du_disabled du_require signature_go].
  destruct (engine_signature RuNerDetector _ _) as [c1 [p|e]]; cbn [fst snd]; [|done].
  destruct (engine_signature EnNerDetector _ _) as [c2 [q|e]]; cbn [fst snd rbind]; [|done].
  intros [<- Hs]%pair_equal_spec. apply ok_inj in Hs as <-. exists c1, c2, p, q. split_and!; [done|done|done|]. apply sort_on_perm.
Qed.

(** C29: the policy signature tells which engines run: two processes whose dual detectors
    give the same signature agree, engine by engine, on whether its model is found, and
    go on to agree after any calls on either side and whatever is installed or removed
    later; so an entry of Cache A is shared between processes that find the same. *)
Theorem dual_signature_faithful ws1 ws2 req1 req2 st1 st2 sig :
  dual_signature ws1 (dual_init req1) = (st1, Ok sig) -> dual_signature ws2 (dual_init req2) = (st2, Ok sig) ->
  forall calls1 calls2 w1 w2,
  map (fun kc => (kc.1, runs_now w1 kc.2)) (du_engines (dual_run calls1 st1)) =
  map (fun kc => (kc.1, runs_now w2 kc.2)) (du_engines (dual_run calls2 st2)).
Proof.
  intros (c1 & c2 & p & q & E1 & Hc1 & Hc2 & Hs)%init_signature (c1' & c2' & p' & q' & E2 & Hc1' & Hc2' & Hs')%init_signature calls1 calls2 w1 w2.
  apply engine_signature_latched in Hc1 as [T1 R1], Hc2 as [T2 R2], Hc1' as [T1' R1'], Hc2' as [T2' R2'].
  rewrite !dual_run_latched by (rewrite ?E1, ?E2; repeat constructor; done). rewrite E1, E2. cbn [map fst snd].
  rewrite Hs in Hs'. assert (p = p' /\ q = q') as [-> ->].
  { split.
    - assert (ident RuNerDetector ++ [0x1f%N] ++ p ∈ [ident RuNerDetector ++ [0x1f%N] ++ p'; ident EnNerDetector ++ [0x1f%N] ++ q']) as Hin
        by (rewrite <- Hs'; left).
      apply elem_of_cons in Hin as [H|Hin]; [by apply app_inv_head, app_inv_head in H|].
      apply list_elem_of_singleton in Hin. by apply ident_apart in Hin.
    - assert (ident EnNerDetector ++ [0x1f%N] ++ q ∈ [ident RuNerDetector ++ [0x1f%N] ++ p'; ident EnNerDetector ++ [0x1f%N] ++ q']) as Hin
        by (rewrite <- Hs'; right; left).
      apply elem_of_cons in Hin as [H|Hin]; [symmetry in H; by apply ident_apart in H|].
      apply list_elem_of_singleton in Hin. by apply app_inv_head, app_inv_head in Hin. }
  by rewrite R1, R2, R1', R2'.
Qed.
End DualFacts.

(** ** Concrete inputs *)

#[local] Existing Instance ru_unicode.

Definition demo_person (text : str) : result engine_error (list entity) := Ok [Entity text (u8 "PER") 0 (len text)].
Definition demo_ru (i : nat) : attempt := match i with 0%nat => Loads (Model demo_person (u8 "1", u8 "2")) | _ => Absent end.

Lemma dual_ner_fail_closed_witness :
  (dual_detect demo_ru (dual_init true) (u8 "Ivan")).2 = Raise (DualNerUnavailable [1%nat]) /\
  exists e, (dual_detect (fun _ => Loads (Model demo_person (u8 "1", u8 "2")))
               (dual_run [] (dual_detect demo_ru (dual_init true) (u8 "Ivan")).1) (u8 "Ivan")).2 = Raise e.
Proof.
  split; [vm_compute; reflexivity|].
  apply (dual_ner_fail_closed demo_ru (dual_init true) (u8 "Ivan") (dual_detect demo_ru (dual_init true) (u8 "Ivan")).1
           (dual_detect demo_ru (dual_init true) (u8 "Ivan")).2); [reflexivity|by destruct (dual_detect _ _ _)|vm_compute; discriminate].
Defined.

Lemma dual_signature_faithful_witness :
  let st := (dual_signature demo_ru (dual_init false)).1 in
  map (fun kc => (kc.1, runs_now Absent kc.2)) (du_engines (dual_run [(demo_ru, u8 "Ivan")] st)) =
  map (fun kc => (kc.1, runs_now Breaks kc.2)) (du_engines (dual_run [] st)).
Proof.
  cbv zeta. assert (exists sig, (dual_signature demo_ru (dual_init false)).2 = Ok sig) as [sig E] by (eexists; vm_compute; reflexivity).
  apply (dual_signature_faithful demo_ru demo_ru false false _ _ sig); (rewrite <- E; by destruct (dual_signature _ _)).
Defined.

(** Without [require_ner] the same installation finds less and does not say so. *)
Lemma dual_fail_open : exists fs, (dual_detect demo_ru (dual_init false) (u8 "Ivan")).2 = Ok fs /\ fs <> [].
Proof. eexists. split; [vm_compute; reflexivity|discriminate]. Qed.
