(* ===== verification/Oidc.v ===== *)
(** * Verification of developer tokens ([tokens/oidc_verifier.py])

    The signing keys of the issuer are cached by [JwksClient]; requests share one fetch.
    The client is a step function on its state: a request asks for a key and is answered
    or waits, the fetch ends, the done-callback clears the slot, a waiter wakes up.  A
    fetch is not cancelled (no request owns its task).  [start] times are recorded in
    [jk_starts] for the theorems and not read.  PyJWT is a parameter: [pyjwk] of an entry,
    [get_unverified_header] and [jwt_decode], with what its documentation promises of an
    accepted token in [JwtLaws].  [too_deep] says whether [json.loads] of a body ends in a
    [RecursionError].  Log lines are left out. *)

From Stdlib Require Import Lqa.
From S2P Require Import Prelude Text Json JsonBytes Regex ContentBlocks Inflight Tokens Settings.
Local Open Scope py_scope.
Local Open Scope Z_scope.

Abbreviation bytes := (list N).

Definition UNKNOWN_KID_COOLDOWN_S : Q := 60.
Definition FAILURE_BACKOFF_S : Q := 5.
Definition LEEWAY_S : Z := 60.
Definition MAX_JWKS_BYTES : Z := 64 * 1024.
Definition MAX_TOKEN_LENGTH : Z := 8 * 1024.
Definition ALGORITHM : str := u8 "RS256".
Definition REQUIRED_CLAIMS : list str := [u8 "exp"; u8 "iat"; u8 "iss"; u8 "aud"; u8 "sub"; u8 "jti"; u8 "azp"].
Definition ALLOWED_TYP : list str := [u8 "jwt"; u8 "at+jwt"].

(** The three classes of [tokens/issuance.py], with their code; [OidcCrash] is any other
    exception ([KeyError], [TypeError]). *)
Inductive oidc_error :=
| OidcVerification (code : str)
| OidcTeamMapping (code : str)
| JwksUnavailable (code : str)
| OidcCrash.

(** [_require_https]; [Raise] is a [ValueError]. *)
Definition require_https {PR : Parsers} (url : str) (allow_insecure_http : bool) : result unit unit :=
  let! parts := urlsplit url in
  if negb (memb parts.1 (if allow_insecure_http then [u8 "https"; u8 "http"] else [u8 "https"])) || str_eqb parts.2 []
  then Raise tt else Ok tt.

(** ** The key set *)

Inductive fetch_error := HttpStatus (status : Z) | BodyOver.

Fixpoint read_chunks (body : bytes) (chunks : list bytes) : result fetch_error bytes :=
  match chunks with
  | [] => Ok body
  | c :: cs => let body := body ++ c in if MAX_JWKS_BYTES <? len body then Raise BodyOver else read_chunks body cs
  end.

Definition download (status : Z) (chunks : list bytes) : result fetch_error bytes :=
  if negb (status =? 200) then Raise (HttpStatus status) else read_chunks [] chunks.

Section Jwks.
Context {F : FloatText} {Key : Type} (pyjwk : list (str * json) -> option Key) (too_deep : bytes -> bool).

(** [d.get(k, default) == s] *)
Definition get_is (k s : str) (default : json) (d : list (str * json)) : bool :=
  json_is (match dget k d with Some v => v | None => default end) s.

(** One entry of the document, if it is a signing key we use. *)
Definition jwks_entry (entry : json) : option (str * Key) :=
  match entry with
  | JObj d =>
    if negb (get_is (u8 "kty") (u8 "RSA") JNull d) then None else
    match jget (u8 "kid") d with
    | JStr kid =>
      if str_eqb kid [] then None else
      if negb (get_is (u8 "use") (u8 "sig") (JStr (u8 "sig")) d) || negb (get_is (u8 "alg") ALGORITHM (JStr ALGORITHM) d) then None else
      key ← pyjwk d; Some (kid, key)
    | _ => None
    end
  | _ => None
  end.

Definition add_key (keys : list (str * Key)) (e : json) : list (str * Key) :=
  match jwks_entry e with Some (kid, key) => dset kid key keys | None => keys end.

Definition parse_jwks (body : bytes) : list (str * Key) :=
  match loads_bytes body with
  | Some (JObj d) => match jget (u8 "keys") d with JList entries => foldl add_key [] entries | _ => [] end
  | _ => []
  end.

(** How the transport ends; a timeout is a failure. *)
Inductive fetched := Got (status : Z) (chunks : list bytes) | FetchFailed.

(** [_fetch] up to its assignments: the new keys, or an exception. *)
Definition fetch_keys (o : fetched) : option (list (str * Key)) :=
  match o with
  | FetchFailed => None
  | Got status chunks =>
    match download status chunks with
    | Raise _ => None
    | Ok body => if too_deep body then None else match parse_jwks body with [] => None | keys => Some keys end
    end
  end.

(** *** The client *)

(** [jk_tasks]: the fetch tasks in order, [None] while running, then whether one returned. *)
Record jwks := Jwks {
  jk_keys : list (str * Key);
  jk_refreshed_at : option Q;
  jk_failed_at : option Q;
  jk_inflight : option nat;
  jk_tasks : list (option bool);
  jk_waiters : list (nat * str * nat);
  jk_starts : list Q;
}.

Definition jwks_init : jwks := Jwks [] None None None [] [] [].

Context (cooldown_s failure_backoff_s : Q).

Definition recent (at_time : option Q) (now span : Q) : bool :=
  match at_time with Some t => negb (Qle_bool span (now - t)) | None => false end.
Definition in_cooldown (s : jwks) (now : Q) : bool := recent (jk_refreshed_at s) now cooldown_s.
Definition in_failure_backoff (s : jwks) (now : Q) : bool := recent (jk_failed_at s) now failure_backoff_s.

Inductive jwks_event :=
| Ask (req : nat) (kid : str) (now : Q)           (* [key_for] up to its await *)
| Fetched (o : fetched) (now : Q)                 (* the fetch task ends *)
| Cleared (task : nat)                            (* the done-callback of a task *)
| Woken (req : nat).                              (* a waiter goes on *)

Definition key_answer := (nat * result oidc_error Key)%type.

Definition unknown_kid : oidc_error := OidcVerification (u8 "E_OIDC_UNKNOWN_KID").
Definition unavailable_keys : oidc_error := JwksUnavailable (u8 "E_JWKS_UNAVAILABLE").

Definition add_waiter (w : nat * str * nat) (s : jwks) : jwks :=
  Jwks (jk_keys s) (jk_refreshed_at s) (jk_failed_at s) (jk_inflight s) (jk_tasks s) (jk_waiters s ++ [w]) (jk_starts s).

(** The start of [_refresh] when no fetch is there. *)
Definition start_fetch (now : Q) (s : jwks) : jwks :=
  Jwks (jk_keys s) (jk_refreshed_at s) (jk_failed_at s) (Some (length (jk_tasks s))) (jk_tasks s ++ [None]) (jk_waiters s) (jk_starts s ++ [now]).

Definition ask (req : nat) (kid : str) (now : Q) (s : jwks) : jwks * option key_answer :=
  match dget kid (jk_keys s) with
  | Some key => (s, Some (req, Ok key))
  | None =>
    match jk_inflight s with
    | Some task => (add_waiter (req, kid, task) s, None)
    | None =>
      if in_failure_backoff s now then (s, Some (req, Raise unavailable_keys)) else
      if in_cooldown s now then (s, Some (req, Raise unknown_kid)) else
      (add_waiter (req, kid, length (jk_tasks s)) (start_fetch now s), None)
    end
  end.

Definition running (s : jwks) (task : nat) : bool := bool_decide (jk_tasks s !! task = Some None).

Definition fetch_end (o : fetched) (now : Q) (s : jwks) : jwks :=
  match jk_inflight s with
  | Some task =>
    if negb (running s task) then s else
    match fetch_keys o with
    | Some keys => Jwks keys (Some now) None (jk_inflight s) (<[task := Some true]> (jk_tasks s)) (jk_waiters s) (jk_starts s)
    | None => Jwks (jk_keys s) (jk_refreshed_at s) (Some now) (jk_inflight s) (<[task := Some false]> (jk_tasks s)) (jk_waiters s) (jk_starts s)
    end
  | None => s
  end.

(** [_clear_inflight] *)
Definition clear_inflight (task : nat) (s : jwks) : jwks :=
  if bool_decide (jk_inflight s = Some task) && negb (running s task)
  then Jwks (jk_keys s) (jk_refreshed_at s) (jk_failed_at s) None (jk_tasks s) (jk_waiters s) (jk_starts s) else s.

Definition woken (req : nat) (s : jwks) : jwks * option key_answer :=
  match list_find (fun w : nat * str * nat => w.1.1 = req) (jk_waiters s) with
  | Some (i, (_, kid, task)) =>
    let s' := Jwks (jk_keys s) (jk_refreshed_at s) (jk_failed_at s) (jk_inflight s) (jk_tasks s) (delete i (jk_waiters s)) (jk_starts s) in
    match jk_tasks s !! task with
    | Some (Some true) =>
      (s', Some (req, match dget kid (jk_keys s) with Some key => Ok key | None => Raise unknown_kid end))
    | Some (Some false) => (s', Some (req, Raise unavailable_keys))
    | _ => (s, None)
    end
  | None => (s, None)
  end.

Definition jwks_step (e : jwks_event) (s : jwks) : jwks * option key_answer :=
  match e with
  | Ask req kid now => ask req kid now s
  | Fetched o now => (fetch_end o now s, None)
  | Cleared task => (clear_inflight task s, None)
  | Woken req => woken req s
  end.

End Jwks.

(** ** The verifier *)

(** What a call of PyJWT raises, in the order of the handlers; [NotPyJWT] is an exception
    none of them catches (a [RecursionError], say). *)
Inductive jwt_exc := ExpiredSignature | ImmatureSignature | MissingRequiredClaim | InvalidAudience | InvalidIssuer | InvalidSignature | PyJWTError | NotPyJWT.

(** The handlers of [_decode] *)
Definition decode_error (e : jwt_exc) : oidc_error :=
  match e with
  | ExpiredSignature => OidcVerification (u8 "E_OIDC_EXPIRED")
  | ImmatureSignature => OidcVerification (u8 "E_OIDC_NOT_YET_VALID")
  | MissingRequiredClaim => OidcVerification (u8 "E_OIDC_MISSING_CLAIM")
  | InvalidAudience => OidcVerification (u8 "E_OIDC_AUDIENCE")
  | InvalidIssuer => OidcVerification (u8 "E_OIDC_ISSUER")
  | InvalidSignature => OidcVerification (u8 "E_OIDC_SIGNATURE")
  | PyJWTError => OidcVerification (u8 "E_OIDC_INVALID")
  | NotPyJWT => OidcCrash
  end.

(** [KeycloakOidcVerifier.__init__] *)
Record verifier := Verifier {
  ve_issuer : str;
  ve_audience : str;
  ve_client_id : str;
  ve_team_map : list (str * str);
  ve_team_claim : str;
  ve_user_claim : str;
  ve_operator_audience : str;
  ve_leeway_s : Z;
}.

Definition verifier_init (issuer audience client_id : str) (team_map : list (str * str)) (team_claim user_claim operator_audience : str) : verifier :=
  Verifier (rstrip_by (N.eqb (chr "/")) issuer) audience client_id team_map team_claim user_claim operator_audience LEEWAY_S.

(** [from_settings]: the check of the key set's address, then the verifier. *)
Definition from_settings {PR : Parsers} (s : IssuanceSettings) : result unit verifier :=
  let! _ := require_https (is_jwks_url s) (is_allow_insecure_http s) in
  Ok (verifier_init (is_issuer s) (is_audience s) (is_client_id s) (is_team_map s) (is_team_claim s) (is_user_claim s) (is_operator_audience s)).

(** [set(groups)] of a list of strings *)
Fixpoint group_names (l : list json) : option (list str) :=
  match l with
  | [] => Some []
  | JStr g :: l' => cons g <$> group_names l'
  | _ => None
  end.

Fixpoint first_team (team_map : list (str * str)) (member_of : list str) : option str :=
  match team_map with
  | [] => None
  | (group, team_id) :: rest => if memb group member_of then Some team_id else first_team rest member_of
  end.

Definition team_for (v : verifier) (groups : json) : result oidc_error str :=
  match groups with
  | JNull => Raise (OidcTeamMapping (u8 "E_ISSUE_NO_TEAM"))
  | JList l =>
    match group_names l with
    | None => Raise (OidcVerification (u8 "E_OIDC_CLAIM_TYPE"))
    | Some member_of =>
      match first_team (ve_team_map v) member_of with
      | Some team => Ok team
      | None => Raise (OidcTeamMapping (u8 "E_ISSUE_NO_TEAM"))
      end
    end
  | _ => Raise (OidcVerification (u8 "E_OIDC_CLAIM_TYPE"))
  end.

(** [claims[k]] *)
Definition required_claim (k : str) (claims : list (str * json)) : result oidc_error json :=
  match dget k claims with Some v => Ok v | None => Raise OidcCrash end.

(** [[aud] if isinstance(aud, str) else aud], for [in] *)
Definition audiences (aud : json) : result oidc_error (list json) :=
  match aud with JStr _ => Ok [aud] | JList l => Ok l | _ => Raise OidcCrash end.

Definition nonempty_text (v : json) : option str :=
  match v with JStr (c :: s) => Some (c :: s) | _ => None end.

Section Verify.
Context {U : Unicode} {Key : Type}
  (get_unverified_header : str -> result jwt_exc (list (str * json)))
  (jwt_decode : str -> Key -> str -> list str -> Z -> result jwt_exc (list (str * json)))
  (key_for : str -> result oidc_error Key).

(** The checks on the header, up to the key id. *)
Definition verify_header (token : str) : result oidc_error str :=
  if MAX_TOKEN_LENGTH <? len token then Raise (OidcVerification (u8 "E_OIDC_MALFORMED")) else
  match get_unverified_header token with
  | Raise NotPyJWT => Raise OidcCrash
  | Raise _ => Raise (OidcVerification (u8 "E_OIDC_MALFORMED"))
  | Ok header =>
    if negb (get_is (u8 "alg") ALGORITHM JNull header) then Raise (OidcVerification (u8 "E_OIDC_ALG")) else
    match jget (u8 "typ") header with
    | JStr typ =>
      if negb (memb (u_lower typ) ALLOWED_TYP) then Raise (OidcVerification (u8 "E_OIDC_TYP")) else
      match nonempty_text (jget (u8 "kid") header) with
      | Some kid => Ok kid
      | None => Raise (OidcVerification (u8 "E_OIDC_KID"))
      end
    | _ => Raise (OidcVerification (u8 "E_OIDC_TYP"))
    end
  end.

(** The checks on the claims of a decoded token. *)
Definition verify_claims (v : verifier) (claims : list (str * json)) : result oidc_error oidc_claims :=
  if negb (get_is (u8 "azp") (ve_client_id v) JNull claims) then Raise (OidcVerification (u8 "E_OIDC_AZP")) else
  let! aud := required_claim (u8 "aud") claims in
  let! refused := (match ve_operator_audience v with [] => Ok false | op => let! auds := audiences aud in Ok (memb (JStr op) auds) end) in
  if refused : bool then Raise (OidcVerification (u8 "E_OIDC_OPERATOR_AUDIENCE")) else
  let! sub := required_claim (u8 "sub") claims in
  let! jti_ := required_claim (u8 "jti") claims in
  match nonempty_text sub, nonempty_text jti_ with
  | Some subject, Some jti =>
    let! team := team_for v (jget (ve_team_claim v) claims) in
    Ok (OidcClaims (match nonempty_text (jget (ve_user_claim v) claims) with Some user => user | None => subject end)
          team [] (ve_issuer v) subject jti)
  | _, _ => Raise (OidcVerification (u8 "E_OIDC_CLAIM_TYPE"))
  end.

Definition verify (v : verifier) (token : str) : result oidc_error oidc_claims :=
  let! kid := verify_header token in
  let! key := key_for kid in
  match jwt_decode token key (ve_audience v) [ve_issuer v; ve_issuer v ++ u8 "/"] (ve_leeway_s v) with
  | Raise e => Raise (decode_error e)
  | Ok claims => verify_claims v claims
  end.
End Verify.

(** ** Theorems *)

Section JwksFacts.
Context {F : FloatText} {Key : Type} (pyjwk : list (str * json) -> option Key) (too_deep : bytes -> bool)
  (cooldown_s failure_backoff_s gap : Q)
  (gap_cooldown : (gap <= cooldown_s)%Q) (gap_backoff : (gap <= failure_backoff_s)%Q).

Local Notation step := (jwks_step pyjwk too_deep cooldown_s failure_backoff_s).
Local Notation keys_of := (fetch_keys pyjwk too_deep).

Definition spaced (l : list Q) : Prop := forall i t t', l !! i = Some t -> l !! S i = Some t' -> (t + gap <= t')%Q.

Lemma spaced_snoc l x : spaced l -> (forall t, last l = Some t -> (t + gap <= x)%Q) -> spaced (l ++ [x]).
Proof.
  intros Hs Hl i t t' Hi Hi'. destruct (decide (S i < length l)%nat) as [H|H].
  - rewrite lookup_app_l in Hi, Hi' by lia. eauto.
  - pose proof (lookup_lt_Some _ _ _ Hi') as Hlt. rewrite length_app in Hlt. cbn in Hlt.
    assert (i = pred (length l)) as -> by lia. rewrite lookup_app_l in Hi by lia.
    rewrite lookup_app_r in Hi' by lia. replace (S (pred (length l)) - length l)%nat with 0%nat in Hi' by lia. injection Hi' as <-.
    apply Hl. by rewrite last_lookup.
Qed.

Lemma spaced_far l : spaced l -> forall n i t t', l !! i = Some t -> l !! (n + i)%nat = Some t' -> (t + inject_Z (Z.of_nat n) * gap <= t')%Q.
Proof.
  intros Hs n. induction n as [|n IH]; intros i t t' Hi Hj.
  - cbn in Hj. rewrite Hi in Hj. injection Hj as <-. change (inject_Z (Z.of_nat 0)) with 0%Q. lra.
  - cbn [Nat.add] in Hj. pose proof (lookup_lt_Some _ _ _ Hj).
    destruct (lookup_lt_is_Some_2 l (n + i)%nat ltac:(lia)) as [u Hu]. specialize (IH i t u Hi Hu). specialize (Hs _ _ _ Hu Hj).
    rewrite Nat2Z.inj_succ. unfold Z.succ. rewrite inject_Z_plus. change (inject_Z 1) with 1%Q. lra.
Qed.

(** No fetch runs. *)
Definition idle (s : jwks) : Prop := forall task, running (Key := Key) s task = false.

(** When the last fetch ended. *)
Definition ended (s : jwks (Key := Key)) (now t : Q) : Prop :=
  exists e, (t <= e)%Q /\ (e <= now)%Q /\ ((jk_refreshed_at s = Some e /\ jk_failed_at s = None) \/ jk_failed_at s = Some e).

Record jwks_inv (now : Q) (s : jwks (Key := Key)) : Prop := JwksInv {
  ji_spaced : spaced (jk_starts s);
  ji_running : forall task, running s task = true -> jk_inflight s = Some task;
  ji_inflight : forall task, jk_inflight s = Some task -> (task < length (jk_tasks s))%nat;
  ji_waiters : Forall (fun w : nat * str * nat => (w.2 < length (jk_tasks s))%nat) (jk_waiters s);
  ji_last : forall t, last (jk_starts s) = Some t -> (t <= now)%Q /\ (idle s -> ended s now t);
}.

Lemma jwks_inv_later now now' s : jwks_inv now s -> (now <= now')%Q -> jwks_inv now' s.
Proof.
  intros [? ? ? ? Hl] Hn. split; try done. intros t Ht. destruct (Hl t Ht) as [H1 H2]. split; [lra|].
  intros Hi. destruct (H2 Hi) as (e & H3 & H4 & H5). exists e. split_and!; [done|lra|done].
Qed.

Lemma recent_far at_time now span : recent at_time now span = false -> forall t, at_time = Some t -> (t + span <= now)%Q.
Proof. intros H t ->. cbn in H. apply negb_false_iff, Qle_bool_iff in H. lra. Qed.

Lemma idle_inflight s now : jwks_inv now s -> jk_inflight s = None -> idle s.
Proof. intros [] H task. destruct (running s task) eqn:E; [|done]. specialize (ji_running0 _ E). congruence. Qed.

Lemma running_snoc (s : jwks (Key := Key)) now task :
  running (start_fetch now s) task = running s task || bool_decide (task = length (jk_tasks s)).
Proof.
  unfold running, start_fetch. cbn [jk_tasks]. destruct (decide (task < length (jk_tasks s))%nat).
  - rewrite lookup_app_l by lia. rewrite (bool_decide_eq_false_2 (task = _)) by lia. by rewrite orb_false_r.
  - rewrite lookup_app_r by lia. rewrite (lookup_ge_None_2 (jk_tasks s)) by lia. rewrite (bool_decide_eq_false_2 (None = _)) by done. cbn [orb].
    destruct (decide (task = length (jk_tasks s))) as [->|Hne].
    + rewrite Nat.sub_diag. by rewrite !bool_decide_eq_true_2.
    + rewrite (bool_decide_eq_false_2 (task = _)) by done. apply bool_decide_eq_false_2. intros H%lookup_lt_Some. cbn in H. lia.
Qed.

Lemma add_waiter_inv now w s : jwks_inv now s -> (w.2 < length (jk_tasks s))%nat -> jwks_inv now (add_waiter w s).
Proof.
  intros [] Hw. split; cbn [add_waiter jk_keys jk_starts jk_inflight jk_tasks jk_waiters jk_refreshed_at jk_failed_at]; try done.
  apply Forall_app. split; [done|]. by constructor.
Qed.

Lemma start_fetch_inv now s : jwks_inv now s -> jk_inflight s = None ->
  in_failure_backoff failure_backoff_s s now = false -> in_cooldown cooldown_s s now = false -> jwks_inv now (start_fetch now s).
Proof.
  intros Hinv Hn Hb Hc. pose proof (idle_inflight _ _ Hinv Hn) as Hi. destruct Hinv as [Hs Hr Hf Hw Hl].
  split; cbn [start_fetch jk_keys jk_starts jk_inflight jk_tasks jk_waiters]; try done.
  - apply spaced_snoc; [done|]. intros t Ht. destruct (Hl t Ht) as [_ H]. destruct (H Hi) as (e & H1 & H2 & [[H3 _]|H3]).
    + pose proof (recent_far _ _ _ Hc e H3). lra.
    + pose proof (recent_far _ _ _ Hb e H3). lra.
  - intros task. rewrite running_snoc, Hi. cbn [orb]. by intros ->%bool_decide_eq_true.
  - intros task [= <-]. rewrite length_app. cbn. lia.
  - eapply Forall_impl; [exact Hw|]. intros w H. cbv beta in *. rewrite length_app. lia.
  - intros t. rewrite last_snoc. intros [= <-]. split; [apply Qle_refl|]. intros Hid. specialize (Hid (length (jk_tasks s))).
    rewrite running_snoc, bool_decide_eq_true_2, orb_true_r in Hid by done. done.
Qed.

Lemma fetch_end_inv now o s : jwks_inv now s -> jwks_inv now (fetch_end pyjwk too_deep o now s).
Proof.
  intros Hinv. unfold fetch_end. destruct (jk_inflight s) as [task|] eqn:Ef; [|done]. destruct (running s task) eqn:Er; cbn [negb]; [|done].
  pose proof Hinv as [Hs Hr Hi Hw Hl]. pose proof (Hi task Ef) as Hlt.
  assert (forall b t, bool_decide (<[task := Some b]> (jk_tasks s) !! t = Some None) = false) as Hid.
  { intros b t. apply bool_decide_eq_false_2. destruct (decide (t = task)) as [->|Hne].
    - rewrite list_lookup_insert_eq by done. congruence.
    - rewrite list_lookup_insert_ne by done. intros H. assert (running s t = true) as H' by (by apply bool_decide_eq_true_2).
      apply Hr in H'. congruence. }
  destruct (keys_of o) as [keys|] eqn:Ek;
    (split; cbn [jk_keys jk_starts jk_inflight jk_tasks jk_waiters]; [done|unfold running; cbn [jk_tasks]; intros t H; by rewrite Hid in H| | |]).
  - intros t [= <-]. by rewrite length_insert.
  - by rewrite length_insert.
  - intros t Ht. destruct (Hl t Ht) as [H1 _]. split; [done|]. intros _. exists now. split_and!; [done|apply Qle_refl|by left].
  - intros t [= <-]. by rewrite length_insert.
  - by rewrite length_insert.
  - intros t Ht. destruct (Hl t Ht) as [H1 _]. split; [done|]. intros _. exists now. split_and!; [done|apply Qle_refl|by right].
Qed.

Lemma clear_inflight_inv now task s : jwks_inv now s -> jwks_inv now (clear_inflight task s).
Proof.
  intros Hinv. unfold clear_inflight. destruct (_ && _) eqn:E; [|done]. apply andb_true_iff in E as [Ef%bool_decide_eq_true Er%negb_true_iff].
  destruct Hinv as [Hs Hr Hi Hw Hl]. split; cbn [jk_keys jk_starts jk_inflight jk_tasks jk_waiters]; try done.
  intros t H. pose proof (Hr t H). change (running s t = true) in H. congruence.
Qed.

Lemma woken_inv now req s : jwks_inv now s -> jwks_inv now (woken req s).1.
Proof.
  intros Hinv. unfold woken. destruct (list_find _ _) as [[i [[? kid] task]]|]; [|done].
  assert (jwks_inv now (Jwks (jk_keys s) (jk_refreshed_at s) (jk_failed_at s) (jk_inflight s) (jk_tasks s) (delete i (jk_waiters s)) (jk_starts s))) as H.
  { destruct Hinv as [Hs Hr Hi Hw Hl]. split; cbn [jk_keys jk_starts jk_inflight jk_tasks jk_waiters]; try done.
    apply Forall_forall. intros w Hin. rewrite Forall_forall in Hw. apply Hw.
    apply list_elem_of_lookup in Hin as [j Hj]. rewrite list_lookup_delete in Hj. destruct (decide _); by eapply list_elem_of_lookup_2. }
  by destruct (jk_tasks s !! task) as [[[]|]|].
Qed.

Lemma ask_inv now req kid s : jwks_inv now s -> jwks_inv now (ask cooldown_s failure_backoff_s req kid now s).1.
Proof.
  intros Hinv. unfold ask. destruct (dget kid _); [done|]. destruct (jk_inflight s) as [task|] eqn:Ef; cbn [fst].
  - apply add_waiter_inv; [done|]. by apply (ji_inflight _ _ Hinv).
  - destruct (in_failure_backoff _ _ _) eqn:Eb; [done|]. destruct (in_cooldown _ _ _) eqn:Ec; [done|]. cbn [fst].
    apply add_waiter_inv; [by apply start_fetch_inv|]. cbn. rewrite length_app. cbn. lia.
Qed.

(** The clock of an event; the others happen at the time of the last. *)
Definition event_time (e : jwks_event) (now : Q) : Q :=
  match e with Ask _ _ t | Fetched _ t => t | _ => now end.

(** A monotonic clock. *)
Fixpoint in_order (now : Q) (es : list jwks_event) : Prop :=
  match es with [] => True | e :: es' => (now <= event_time e now)%Q /\ in_order (event_time e now) es' end.

Definition jwks_run (es : list jwks_event) (s : jwks) : jwks := foldl (fun s e => (step e s).1) s es.

Lemma step_inv now e s : jwks_inv now s -> (now <= event_time e now)%Q -> jwks_inv (event_time e now) (step e s).1.
Proof.
  intros Hinv Hn. apply (jwks_inv_later _ _ _ Hinv) in Hn. destruct e; cbn [jwks_step fst event_time] in *.
  - by apply ask_inv.
  - by apply fetch_end_inv.
  - by apply clear_inflight_inv.
  - by apply woken_inv.
Qed.

Lemma jwks_run_inv es : forall now s, jwks_inv now s -> in_order now es -> exists now', jwks_inv now' (jwks_run es s).
Proof.
  induction es as [|e es IH]; intros now s Hinv; cbn [in_order jwks_run foldl]; [by exists now|].
  intros [Hn Ho]. eapply IH; [|exact Ho]. by apply step_inv.
Qed.

Lemma init_inv now : jwks_inv now jwks_init.
Proof. by split. Qed.

(** The key id a step answers for. *)
Definition asked (e : jwks_event) (s : jwks (Key := Key)) : option str :=
  match e with
  | Ask _ kid _ => Some kid
  | Woken req => match list_find (fun w : nat * str * nat => w.1.1 = req) (jk_waiters s) with Some (_, (_, kid, _)) => Some kid | None => None end
  | _ => None
  end.

Lemma step_answer e s s' req key : step e s = (s', Some (req, Ok key)) ->
  exists kid, asked e s = Some kid /\ dget kid (jk_keys s) = Some key.
Proof.
  destruct e as [r kid now|o now|task|r]; cbn [jwks_step asked]; try done.
  - unfold ask. destruct (dget kid (jk_keys s)) as [k|] eqn:E; [intros [= <- <- <-]; eauto|].
    destruct (jk_inflight s); [done|]. destruct (in_failure_backoff _ _ _); [done|]. by destruct (in_cooldown _ _ _).
  - unfold woken. destruct (list_find _ _) as [[i [[? kid] task]]|]; [|done]. destruct (jk_tasks s !! task) as [[[]|]|]; try done.
    destruct (dget kid (jk_keys s)) as [k|] eqn:E; [|done]. intros [= <- <- <-]. eauto.
Qed.

(** The client's keys are those of the last fetch that succeeded. *)
Lemma run_keys es : jk_keys (jwks_run es jwks_init) = [] \/ exists before o t after,
  es = before ++ Fetched o t :: after /\ (exists task, running (jwks_run before jwks_init) task = true) /\
  keys_of o = Some (jk_keys (jwks_run es jwks_init)).
Proof.
  induction es as [|e es IH] using rev_ind; [by left|]. unfold jwks_run in *. rewrite foldl_app. cbn [foldl].
  set (s := foldl _ jwks_init es) in *.
  assert (Hsame : jk_keys (step e s).1 = jk_keys s \/ exists o t, e = Fetched o t /\ (exists task, running s task = true) /\ keys_of o = Some (jk_keys (step e s).1)).
  { destruct e as [r kid now|o now|task|r]; cbn [jwks_step].
    - left. unfold ask. destruct (dget kid _); [done|]. destruct (jk_inflight s); [done|]. destruct (in_failure_backoff _ _ _); [done|]. by destruct (in_cooldown _ _ _).
    - cbn [fst]. unfold fetch_end. destruct (jk_inflight s) as [task|]; [|by left]. destruct (running s task) eqn:Er; cbn [negb]; [|by left].
      destruct (keys_of o) as [keys|] eqn:Ek; [|by left]. right. exists o, now. split; [done|]. split; [by exists task|exact Ek].
    - left. cbn [fst]. unfold clear_inflight. by destruct (_ && _).
    - left. unfold woken. destruct (list_find _ _) as [[i [[? kid] task]]|]; [|done]. by destruct (jk_tasks s !! task) as [[[]|]|]. }
  destruct Hsame as [Hk|(o & t & -> & Hr & Hk)]; [|right; by exists es, o, t, []].
  rewrite Hk. destruct IH as [IH|(before & o & t & after & -> & Hr & Ho)]; [by left|].
  right. exists before, o, t, (after ++ [e]). split_and!; [by rewrite <-app_assoc|exact Hr|exact Ho].
Qed.

(** The end of a fetch ends the task that runs. *)
Lemma fetch_end_ends now s o t task : jwks_inv now s -> running s task = true -> running (fetch_end pyjwk too_deep o t s) task = false.
Proof.
  intros Hinv Hr. pose proof (ji_running _ _ Hinv _ Hr) as Ef. pose proof (ji_inflight _ _ Hinv _ Ef) as Hlt.
  unfold fetch_end. rewrite Ef, Hr. cbn [negb].
  destruct (keys_of o); unfold running; cbn [jk_tasks]; rewrite list_lookup_insert_eq by done; by apply bool_decide_eq_false_2.
Qed.

(** C30: unknown key ids cannot drive refetches.  Whatever requests come, and however they
    interleave with the fetches, the [n]-th fetch after another starts at least [n] times
    the smaller of cooldown and failure backoff later; at most one fetch runs at a time; a
    key that is handed out for a key id is under that id in the key set that one fetch of
    this very run downloaded, parsed as a whole; every waiting request waits for a fetch
    that runs, which the end of that fetch ends, or is answered when it wakes. *)
Theorem jwks_refetch_bounded es now : in_order now es ->
  let s := jwks_run es jwks_init in
  (forall n i t t', jk_starts s !! i = Some t -> jk_starts s !! (n + i)%nat = Some t' -> (t + inject_Z (Z.of_nat n) * gap <= t')%Q) /\
  (forall a b, running s a = true -> running s b = true -> a = b) /\
  (forall e s' req key, step e s = (s', Some (req, Ok key)) ->
     exists kid before o t after keys, asked e s = Some kid /\ es = before ++ Fetched o t :: after /\
       (exists task, running (jwks_run before jwks_init) task = true) /\ keys_of o = Some keys /\ dget kid keys = Some key) /\
  (forall req i w, list_find (fun w : nat * str * nat => w.1.1 = req) (jk_waiters s) = Some (i, w) ->
     (running s w.2 = true /\ forall o t, running (step (Fetched o t) s).1 w.2 = false) \/
     exists answer, (step (Woken req) s).2 = Some (req, answer)).
Proof.
  intros Ho s. destruct (jwks_run_inv es now jwks_init (init_inv now) Ho) as [now' Hinv]. fold s in Hinv. pose proof Hinv as [Hs Hr Hi Hw Hl].
  split_and!.
  - by apply spaced_far.
  - intros a b Ha%Hr Hb%Hr. congruence.
  - intros e s' req key (kid & Hkid & Hd)%step_answer. destruct (run_keys es) as [Hk|(before & o & t & after & E & Hb & Hk)]; fold s in Hk;
      [by rewrite Hk in Hd|]. by exists kid, before, o, t, after, (jk_keys s).
  - intros req i w Hf. destruct (running s w.2) eqn:Er; [left; split; [done|]; intros o t; by eapply fetch_end_ends|right].
    cbn [jwks_step]. unfold woken. rewrite Hf. destruct w as [[r kid] task]. cbn [snd] in Er.
    apply list_find_Some in Hf as (Hl' & _ & _). pose proof (Forall_lookup_1 _ _ _ _ Hw Hl') as Ht. cbn in Ht.
    destruct (lookup_lt_is_Some_2 _ _ Ht) as [x Hx]. unfold running in Er. rewrite Hx in Er |- *.
    apply bool_decide_eq_false in Er. destruct x as [[]|]; [by eexists..|done].
Qed.
End JwksFacts.

Section VerifyFacts.
Context {U : Unicode} {Key : Type}
  (get_unverified_header : str -> result jwt_exc (list (str * json)))
  (jwt_decode : str -> Key -> str -> list str -> Z -> result jwt_exc (list (str * json)))
  (key_for : str -> result oidc_error Key).

(** What the documentation of [jwt.decode] promises of the claims it returns, with the
    options the verifier gives: the required claims are there, the audience is one of the
    token's, which are a string or a list of strings, and the issuer is one of those given. *)
Class JwtLaws : Prop := jwt_decode_ok : forall token key aud issuers leeway claims,
  jwt_decode token key aud issuers leeway = Ok claims ->
  Forall (fun c => is_Some (dget c claims)) REQUIRED_CLAIMS /\
  (dget (u8 "aud") claims = Some (JStr aud) \/ exists l, dget (u8 "aud") claims = Some (JList l) /\ JStr aud ∈ l) /\
  exists i, dget (u8 "iss") claims = Some (JStr i) /\ i ∈ issuers.
Context {J : JwtLaws}.

(** The codes of the module. *)
Definition CODES : list oidc_error :=
  map OidcVerification [u8 "E_OIDC_MALFORMED"; u8 "E_OIDC_ALG"; u8 "E_OIDC_TYP"; u8 "E_OIDC_KID"; u8 "E_OIDC_EXPIRED";
    u8 "E_OIDC_NOT_YET_VALID"; u8 "E_OIDC_MISSING_CLAIM"; u8 "E_OIDC_AUDIENCE"; u8 "E_OIDC_ISSUER"; u8 "E_OIDC_SIGNATURE";
    u8 "E_OIDC_INVALID"; u8 "E_OIDC_AZP"; u8 "E_OIDC_OPERATOR_AUDIENCE"; u8 "E_OIDC_CLAIM_TYPE"] ++
  [OidcTeamMapping (u8 "E_ISSUE_NO_TEAM")].

Ltac known_code := unfold CODES; cbn [map app]; set_solver.

Lemma decode_error_known e : decode_error e ∈ CODES \/ e = NotPyJWT.
Proof. destruct e; cbn [decode_error]; [left; known_code..|by right]. Qed.

(** The header of a token that may be verified. *)
Definition header_ok (token kid : str) : Prop :=
  len token <= MAX_TOKEN_LENGTH /\ kid <> [] /\ exists header typ, get_unverified_header token = Ok header /\
    jget (u8 "alg") header = JStr ALGORITHM /\ jget (u8 "typ") header = JStr typ /\ u_lower typ ∈ ALLOWED_TYP /\ jget (u8 "kid") header = JStr kid.

Lemma get_is_true k s d : get_is k s JNull d = true -> jget k d = JStr s.
Proof.
  unfold get_is, jget, json_is. destruct (dget k d) as [[]|]; cbn; try done. by intros ->%str_eqb_eq.
Qed.

Lemma nonempty_text_some v s : nonempty_text v = Some s -> v = JStr s /\ s <> [].
Proof. destruct v as [| | | |[|c t]| |]; cbn; try done. by intros [= <-]. Qed.

Lemma verify_header_spec token :
  match verify_header get_unverified_header token with
  | Ok kid => header_ok token kid
  | Raise e => e ∈ CODES \/ (e = OidcCrash /\ len token <= MAX_TOKEN_LENGTH /\ get_unverified_header token = Raise NotPyJWT)
  end.
Proof.
  unfold verify_header. destruct (_ <? _) eqn:El; [left; known_code|]. apply Z.ltb_ge in El.
  destruct (get_unverified_header token) as [header|e] eqn:Eh; [|by destruct e; auto; left; known_code].
  destruct (get_is _ _ _ header) eqn:Ea; cbn [negb]; [|left; known_code].
  destruct (jget (u8 "typ") header) as [| | | |typ| |] eqn:Et; try (left; known_code).
  destruct (memb _ _) eqn:Em; cbn [negb]; [|left; known_code].
  destruct (nonempty_text _) as [kid|] eqn:Ek; [|left; known_code].
  apply nonempty_text_some in Ek as [Ek Hne]. apply get_is_true in Ea. apply memb_true in Em.
  split; [lia|]. split; [done|]. by exists header, typ.
Qed.

Lemma group_names_spec l ns : group_names l = Some ns -> forall g, g ∈ ns <-> JStr g ∈ l.
Proof.
  revert ns. induction l as [|x l IH]; intros ns; cbn [group_names]; [intros [= <-]; set_solver|].
  destruct x as [| | | |s| |]; try done. destruct (group_names l) as [ns'|]; [|done]. intros [= <-] g. specialize (IH ns' eq_refl g). set_solver.
Qed.

(** The entry of the team map that decides: the first whose group the token names. *)
Definition team_of (v : verifier) (groups : list json) (team : str) : Prop :=
  exists before group after, ve_team_map v = before ++ (group, team) :: after /\ JStr group ∈ groups /\
    Forall (fun p : str * str => JStr p.1 ∉ groups) before.

Lemma first_team_spec m ns team : first_team m ns = Some team ->
  exists before group after, m = before ++ (group, team) :: after /\ group ∈ ns /\ Forall (fun p : str * str => p.1 ∉ ns) before.
Proof.
  induction m as [|[g t] m IH]; cbn [first_team]; [done|]. destruct (memb g ns) eqn:E.
  - intros [= <-]. exists [], g, m. apply memb_true in E. split_and!; [done|done|constructor].
  - intros (before & group & after & -> & H1 & H2)%IH. apply memb_false in E. exists ((g, t) :: before), group, after. split_and!; [done|done|by constructor].
Qed.

Lemma team_for_spec v groups :
  match team_for v groups with
  | Ok team => exists l, groups = JList l /\ team_of v l team
  | Raise e => e ∈ CODES
  end.
Proof.
  unfold team_for. destruct groups as [| | | | |l|]; try (known_code).
  destruct (group_names l) as [ns|] eqn:En; [|known_code].
  destruct (first_team _ ns) as [team|] eqn:Et; [|known_code].
  exists l. split; [done|]. apply first_team_spec in Et as (before & group & after & Em & H1 & H2).
  pose proof (group_names_spec l ns En) as Hg. exists before, group, after. split_and!; [done|by apply Hg|].
  eapply Forall_impl; [exact H2|]. intros p Hp H. apply Hp. by apply Hg.
Qed.

(** A decoded token that may be exchanged, and what becomes of its claims. *)
Record claims_ok (v : verifier) (claims : list (str * json)) (c : oidc_claims) : Prop := ClaimsOk {
  co_azp : jget (u8 "azp") claims = JStr (ve_client_id v);
  co_operator : ve_operator_audience v <> [] ->
    jget (u8 "aud") claims <> JStr (ve_operator_audience v) /\
    forall l, jget (u8 "aud") claims = JList l -> JStr (ve_operator_audience v) ∉ l;
  co_subject : jget (u8 "sub") claims = JStr (oc_subject c) /\ oc_subject c <> [];
  co_jti : jget (u8 "jti") claims = JStr (oc_jti c) /\ oc_jti c <> [];
  co_issuer : oc_issuer c = ve_issuer v;
  co_user : oc_user_id c <> [] /\ (jget (ve_user_claim v) claims = JStr (oc_user_id c) \/ oc_user_id c = oc_subject c);
  co_team : exists l, jget (ve_team_claim v) claims = JList l /\ team_of v l (oc_team_id c);
  co_scopes : oc_scopes c = [];
}.

Lemma claim_present k claims : is_Some (dget k claims) -> required_claim k claims = Ok (jget k claims).
Proof. unfold required_claim, jget. by intros [x ->]. Qed.

Lemma operator_check v claims aud :
  dget (u8 "aud") claims = Some (JStr aud) \/ (exists l, dget (u8 "aud") claims = Some (JList l) /\ JStr aud ∈ l) ->
  exists refused, (match ve_operator_audience v with [] => Ok false | op => let! auds := audiences (jget (u8 "aud") claims) in Ok (memb (JStr op) auds) end) = Ok refused /\
    (refused = false -> ve_operator_audience v <> [] ->
     jget (u8 "aud") claims <> JStr (ve_operator_audience v) /\ forall l, jget (u8 "aud") claims = JList l -> JStr (ve_operator_audience v) ∉ l).
Proof.
  intros Ha. destruct (ve_operator_audience v) as [|c op]; [by exists false|]. unfold jget.
  destruct Ha as [->|(l & -> & _)]; cbn [default audiences rbind]; eexists; (split; [reflexivity|]); intros H%memb_false _.
  - split; [|done]. intros E. apply H. rewrite E. by left.
  - split; [done|]. by intros l' [= <-].
Qed.

Lemma verify_claims_spec v claims aud :
  Forall (fun c => is_Some (dget c claims)) REQUIRED_CLAIMS ->
  dget (u8 "aud") claims = Some (JStr aud) \/ (exists l, dget (u8 "aud") claims = Some (JList l) /\ JStr aud ∈ l) ->
  match verify_claims v claims with
  | Ok c => claims_ok v claims c
  | Raise e => e ∈ CODES
  end.
Proof.
  intros Hr Ha. rewrite Forall_forall in Hr. unfold verify_claims.
  destruct (get_is _ _ _ claims) eqn:Ez; cbn [negb]; [|known_code]. apply get_is_true in Ez.
  rewrite (claim_present (u8 "aud")) by (apply Hr; unfold REQUIRED_CLAIMS; set_solver). cbn [rbind].
  destruct (operator_check v claims aud Ha) as (refused & -> & Hop). cbn [rbind]. destruct refused; [known_code|]. specialize (Hop eq_refl).
  rewrite (claim_present (u8 "sub")) by (apply Hr; unfold REQUIRED_CLAIMS; set_solver). cbn [rbind].
  rewrite (claim_present (u8 "jti")) by (apply Hr; unfold REQUIRED_CLAIMS; set_solver). cbn [rbind].
  destruct (nonempty_text (jget (u8 "sub") claims)) as [subject|] eqn:Es; [|known_code].
  destruct (nonempty_text (jget (u8 "jti") claims)) as [jti|] eqn:Ej; [|known_code].
  pose proof (team_for_spec v (jget (ve_team_claim v) claims)) as Ht.
  destruct (team_for v _) as [team|e]; cbn [rbind]; [|exact Ht].
  apply nonempty_text_some in Es, Ej. split; cbn; try done.
  destruct (nonempty_text (jget (ve_user_claim v) claims)) as [user|] eqn:Eu.
  - apply nonempty_text_some in Eu as [Eu Hu]. split; [done|by left].
  - split; [by destruct Es|by right].
Qed.

Lemma verified_claims v token c : verify get_unverified_header jwt_decode key_for v token = Ok c ->
  exists key claims, jwt_decode token key (ve_audience v) [ve_issuer v; ve_issuer v ++ u8 "/"] (ve_leeway_s v) = Ok claims /\ claims_ok v claims c.
Proof using J.
  intros (kid & _ & (key & _ & H)%rbind_ok)%rbind_ok. destruct (jwt_decode token key _ _ _) as [claims|e] eqn:Ed; [|done].
  destruct (jwt_decode_ok _ _ _ _ _ _ Ed) as (Hr & Ha & _). pose proof (verify_claims_spec v claims _ Hr Ha) as Hc. rewrite H in Hc. eauto.
Qed.

(** C31: a developer token that is accepted was vetted: it is short, its header names RS256, an
    access-token type and a key id, PyJWT accepted its signature under the key of that id
    with the configured audience and issuer, it was issued for our client, the operators'
    audience is not among its audiences, subject and token id are there, and the team is
    that of the first entry of the team map whose group the token names.  A token that is
    not accepted ends in one of the module's codes, in what the lookup of the key raised,
    or in an exception outside [PyJWTError] that a call of PyJWT itself raised: the code of
    the verifier adds no exception of its own, whatever the claims hold. *)
Theorem oidc_claims_vetted v token :
  match verify get_unverified_header jwt_decode key_for v token with
  | Ok c => exists kid key claims, header_ok token kid /\ key_for kid = Ok key /\
      jwt_decode token key (ve_audience v) [ve_issuer v; ve_issuer v ++ u8 "/"] (ve_leeway_s v) = Ok claims /\ claims_ok v claims c
  | Raise e => e ∈ CODES \/ (exists kid, header_ok token kid /\ key_for kid = Raise e) \/
      (e = OidcCrash /\
       (len token <= MAX_TOKEN_LENGTH /\ get_unverified_header token = Raise NotPyJWT \/
        exists kid key, header_ok token kid /\ key_for kid = Ok key /\
          jwt_decode token key (ve_audience v) [ve_issuer v; ve_issuer v ++ u8 "/"] (ve_leeway_s v) = Raise NotPyJWT))
  end.
Proof using J.
  unfold verify. pose proof (verify_header_spec token) as Hh. destruct (verify_header _ token) as [kid|e]; cbn [rbind]; [|naive_solver].
  destruct (key_for kid) as [key|e] eqn:Ek; cbn [rbind]; [|right; left; by exists kid].
  destruct (jwt_decode token key _ _ _) as [claims|e] eqn:Ed.
  - destruct (jwt_decode_ok _ _ _ _ _ _ Ed) as (Hr & Ha & _). pose proof (verify_claims_spec v claims _ Hr Ha) as Hc.
    destruct (verify_claims v claims) as [c|e]; [|by left]. by exists kid, key, claims.
  - destruct (decode_error_known e) as [H| ->]; [by left|]. right. right. split; [done|]. right. by exists kid, key.
Qed.
End VerifyFacts.

(** *** From the settings to a token *)

Lemma lstrip_by_idem p s : lstrip_by p (lstrip_by p s) = lstrip_by p s.
Proof. induction s as [|c s IH]; cbn; [done|]. destruct (p c) eqn:E; [done|]. cbn. by rewrite E. Qed.

Lemma rstrip_by_idem p s : rstrip_by p (rstrip_by p s) = rstrip_by p s.
Proof. unfold rstrip_by. by rewrite rev_involutive, lstrip_by_idem. Qed.

Section Configured.
Context {U : Unicode} {PR : Parsers} {Key : Type}
  (get_unverified_header : str -> result jwt_exc (list (str * json)))
  (jwt_decode : str -> Key -> str -> list str -> Z -> result jwt_exc (list (str * json)))
  (key_for : str -> result oidc_error Key) {J : JwtLaws jwt_decode}.

Lemma build_issuance_verifier vs table ps s : build_issuance vs table = Ok (ps, Some s) ->
  is_issuer s <> [] /\ rstrip_by (N.eqb (chr "/")) (is_issuer s) = is_issuer s /\
  require_https (is_jwks_url s) (is_allow_insecure_http s) = Ok tt.
Proof.
  unfold build_issuance. pose proof (rstrip_by_idem (N.eqb (chr "/")) (stripped vs ISSUER_KEY)) as Hi.
  destruct (rstrip_by _ (stripped vs ISSUER_KEY)) as [|c issuer] eqn:Ei; [done|]. cbv zeta.
  set (iss := c :: issuer) in *. set (jwks := or_str _ _).
  destruct (url_problem ISSUER_KEY iss (prod vs)) as [p1|]; [|done]. cbn [rbind].
  destruct (url_problem _ jwks (prod vs)) as [p2|] eqn:E2; [|done]. cbn [rbind].
  destruct (issuance_team_map table) as [p3 team]. case_match eqn:Ep; [|done]. intros [= _ <-]. cbn [is_issuer is_jwks_url is_allow_insecure_http].
  split; [done|]. split; [exact Hi|].
  do 3 apply app_eq_nil in Ep as [_ Ep]. apply app_eq_nil in Ep as [_ Ep]. apply app_eq_nil in Ep as [-> _].
  apply url_problem_nil in E2 as (scheme & host & Hu & Hin & Hne & Hp). unfold require_https. rewrite Hu. cbn [rbind fst snd].
  apply str_eqb_neq in Hne. rewrite Hne, orb_false_r. destruct (prod vs); cbn [negb].
  - rewrite (Hp eq_refl). done.
  - assert (memb scheme [u8 "https"; u8 "http"] = true) as -> by (apply memb_true; set_solver). done.
Qed.

Lemma team_of_in v groups team : team_of v groups team -> exists group, (group, team) ∈ ve_team_map v.
Proof. intros (before & group & after & -> & _). exists group. set_solver. Qed.

Lemma team_pairs_in table pairs group team : team_pairs table = Some pairs -> (group, team) ∈ pairs ->
  exists raw, (group, TStr raw) ∈ table /\ team = strip raw /\ team <> [].
Proof.
  revert pairs. induction table as [|[g [t|?|? ?]] table IH]; intros pairs; cbn [team_pairs]; try done.
  { intros [= <-] H. by apply not_elem_of_nil in H. }
  destruct (str_eqb (strip g) []) eqn:Eg; [done|]. destruct (str_eqb (strip t) []) eqn:Et; [done|]. cbn [orb].
  destruct (team_pairs table) as [rest|]; [|done]. intros [= <-] [E|H]%elem_of_cons.
  - injection E as -> ->. exists t. apply str_eqb_neq in Et. split_and!; [by left|done|done].
  - destruct (IH rest eq_refl H) as (raw & H1 & H2). exists raw. split; [by right|done].
Qed.

Lemma build_issuance_teams vs table ps s group team : build_issuance vs table = Ok (ps, Some s) -> (group, team) ∈ is_team_map s ->
  exists raw, (group, TStr raw) ∈ table /\ team = strip raw /\ team <> [].
Proof.
  unfold build_issuance. destruct (rstrip_by _ _) as [|c issuer]; [done|]. cbv zeta.
  destruct (url_problem ISSUER_KEY _ (prod vs)); [|done]. cbn [rbind]. destruct (url_problem _ _ (prod vs)); [|done]. cbn [rbind].
  destruct (issuance_team_map table) as [p3 pairs] eqn:E3. case_match; [|done]. intros [= _ <-]. cbn [is_team_map].
  unfold issuance_team_map in E3. destruct table as [|x table]; [injection E3 as <- <-; intros H1; by apply not_elem_of_nil in H1|].
  destruct (team_pairs (x :: table)) as [pairs'|] eqn:Et; injection E3 as <- <-; [by apply team_pairs_in|].
  intros H1. by apply not_elem_of_nil in H1.
Qed.

(** What an exchange stores for the claims [c]: the row of the new token, who holds it and
    the id of the developer token; the row authenticates that user and team until it
    expires. *)
Record token_stored (p : issuance_policy) (c : oidc_claims) (issuer corp_token : str) (now : Z) (st st' : token_store) : Prop := TokenStored {
  ts_fresh : lookup_token corp_token st = None /\ oc_jti c ∉ st_jtis st;
  ts_subject : dget corp_token (st_subjects st') = Some (issuer, oc_subject c);
  ts_jti : oc_jti c ∈ st_jtis st';
  ts_row : exists i, lookup_token corp_token st' = Some i /\ ti_corp_token i = corp_token /\
    ti_user_id i = oc_user_id c /\ ti_team_id i = oc_team_id c /\ ti_scopes i = [] /\
    ti_issued_at i = now /\ ti_expires_at i = now + ip_ttl p /\ ti_revoked_at i = None /\
    forall t, t < now + ip_ttl p -> validate i t = Ok (AuthContext (oc_user_id c) (oc_team_id c) []);
}.

Lemma policy_issue_stores p c corp_token now st :
  oc_issuer c <> [] -> oc_subject c <> [] -> oc_jti c <> [] -> oc_scopes c = [] ->
  match policy_issue p c corp_token now st with
  | Ok (answer, st') => answer = (corp_token, now + ip_ttl p) /\ token_stored p c (oc_issuer c) corp_token now st st'
  | Raise e => exists refused, e = FromStore refused
  end.
Proof.
  intros Hi%str_eqb_neq Hs%str_eqb_neq Hj%str_eqb_neq Hc. unfold policy_issue. rewrite Hi, Hs, Hj. cbn [orb].
  unfold issue_for_subject. destruct (memb _ _) eqn:Em; [by eexists|]. destruct (match latest_issue _ with Some _ => _ | None => _ end); [by eexists|].
  cbn [claims_info ti_corp_token]. destruct (lookup_token corp_token st) eqn:El; [by eexists|].
  cbn. split; [done|]. apply memb_false in Em. split; cbn [st_subjects st_jtis]; [done|by rewrite dget_dset_eq|by left|].
  exists (set_revoked None (claims_info c corp_token now (ip_ttl p))). unfold lookup_token. cbn [st_tokens].
  split; [by rewrite dget_dset_eq|]. cbn. split_and!; try done. intros t Ht. unfold validate. cbn.
  rewrite (proj2 (Z.leb_gt _ _)) by lia. by rewrite Hc.
Qed.

(** C32: settings that were accepted give a verifier (the address of the key set passes its own
    check).  A developer token this verifier accepts is complete for the issuance policy:
    PyJWT decoded its claims, its team is the trimmed, non-empty name the configured map
    has for one of its groups, and the exchange is never refused for missing claims, only
    by the store (replay, rate, collision).  When it succeeds the answer is the new token
    with its expiry, and the store has the token under the configured issuer and the
    subject of the developer token, spends its id, and keeps user, team and lifetime in the
    row, which authenticates as that user and team until it expires. *)
Theorem oidc_settings_issue vs table ps s : build_issuance vs table = Ok (ps, Some s) ->
  exists v, from_settings s = Ok v /\
  forall token c, verify get_unverified_header jwt_decode key_for v token = Ok c ->
    (exists key claims, jwt_decode token key (is_audience s) [is_issuer s; is_issuer s ++ u8 "/"] LEEWAY_S = Ok claims /\
       jget (u8 "sub") claims = JStr (oc_subject c) /\ jget (u8 "jti") claims = JStr (oc_jti c)) /\
    (exists group raw, (group, TStr raw) ∈ table /\ oc_team_id c = strip raw) /\ oc_team_id c <> [] /\ oc_user_id c <> [] /\
    forall policy corp_token now st,
      match policy_issue policy c corp_token now st with
      | Ok (answer, st') => answer = (corp_token, now + ip_ttl policy) /\ token_stored policy c (is_issuer s) corp_token now st st'
      | Raise e => exists refused, e = FromStore refused
      end.
Proof using J.
  intros Hb.
  pose proof Hb as (Hne & Hi & Hq)%build_issuance_verifier. eexists. split; [unfold from_settings; rewrite Hq; reflexivity|].
  unfold verifier_init. rewrite Hi. intros token c Hv.
  destruct (verified_claims get_unverified_header jwt_decode key_for _ token c Hv) as (key & claims & Hd & [_ _ [Es Hs] [Ej Hj] Ho [Hu _] (l & _ & Ht) Hsc]).
  cbn [ve_issuer ve_audience ve_leeway_s] in Ho, Hd. apply team_of_in in Ht as [group Hg]. cbn [ve_team_map] in Hg.
  destruct (build_issuance_teams _ _ _ _ _ _ Hb Hg) as (raw & H1 & H2 & H3). split_and!; [by exists key, claims|by exists group, raw|done|done|].
  intros policy corp_token now st. rewrite <-Ho. apply policy_issue_stores; [by rewrite Ho|done..].
Qed.
End Configured.

(** ** Concrete inputs *)

#[local] Existing Instance id_floats.
#[local] Existing Instance ru_unicode.
#[local] Existing Instance demo_parsers.

Definition demo_header (_ : str) : result jwt_exc (list (str * json)) :=
  Ok [(u8 "alg", JStr (u8 "RS256")); (u8 "typ", JStr (u8 "JWT")); (u8 "kid", JStr (u8 "k1"))].

Definition demo_decode (token : str) (key : nat) (aud : str) (issuers : list str) (leeway : Z) : result jwt_exc (list (str * json)) :=
  match issuers with
  | [] => Raise InvalidIssuer
  | i :: _ => Ok [(u8 "exp", JInt 9); (u8 "iat", JInt 1); (u8 "iss", JStr i); (u8 "aud", JList [JStr (u8 "account"); JStr aud]); (u8 "sub", JStr (u8 "s-1"));
                  (u8 "jti", JStr (u8 "j-1")); (u8 "azp", JStr (u8 "cli")); (u8 "groups", JList [JStr (u8 "/all"); JStr (u8 "/ml"); JStr (u8 "/web")])]
  end.

#[local] Instance demo_decode_laws : JwtLaws demo_decode.
Proof.
  intros token key aud issuers leeway claims. destruct issuers as [|i issuers]; [done|]. cbn [demo_decode]. intros <-%ok_inj. split_and!.
  - repeat constructor; eexists; reflexivity.
  - right. eexists. split; [reflexivity|]. set_solver.
  - exists i. split; [reflexivity|by left].
Qed.

Definition demo_issuance : values :=
  [(ISSUER_KEY, Some (u8 "https://sso.corp/realms/dev/")); (u8 "CORP_GATEWAY_ISSUE_OIDC_AUDIENCE", Some (u8 "gateway"));
   (u8 "CORP_GATEWAY_ISSUE_OIDC_CLIENT_ID", Some (u8 "cli")); (u8 "CORP_GATEWAY_OIDC_AUDIENCE", Some (u8 "ops"))].
Definition demo_teams : list (str * toml) := [(u8 "/web", TStr (u8 "web")); (u8 "/ml", TStr (u8 "ml"))].
Definition demo_settings : IssuanceSettings :=
  Issuance (u8 "https://sso.corp/realms/dev") (u8 "gateway") (u8 "cli") (u8 "https://sso.corp/realms/dev/protocol/openid-connect/certs") (u8 "groups")
    [(u8 "/web", u8 "web"); (u8 "/ml", u8 "ml")] (u8 "preferred_username") (u8 "ops") None [30; 2; 600; 4; 30; 10] true.
Definition demo_verifier : verifier :=
  Verifier (u8 "https://sso.corp/realms/dev") (u8 "gateway") (u8 "cli") [(u8 "/web", u8 "web"); (u8 "/ml", u8 "ml")] (u8 "groups") (u8 "preferred_username") (u8 "ops") 60.
Definition demo_claims : oidc_claims := OidcClaims (u8 "s-1") (u8 "web") [] (u8 "https://sso.corp/realms/dev") (u8 "s-1") (u8 "j-1").

Lemma oidc_claims_vetted_witness :
  exists kid key claims, header_ok demo_header (u8 "t") kid /\ (fun _ => Ok 7%nat) kid = Ok (E := oidc_error) key /\
    demo_decode (u8 "t") key (u8 "gateway") [u8 "https://sso.corp/realms/dev"; u8 "https://sso.corp/realms/dev/"] 60 = Ok claims /\
    claims_ok demo_verifier claims demo_claims.
Proof.
  pose proof (oidc_claims_vetted demo_header demo_decode (fun _ => Ok 7%nat) demo_verifier (u8 "t")) as H.
  assert (E : verify demo_header demo_decode (fun _ => Ok 7%nat) demo_verifier (u8 "t") = Ok demo_claims) by (vm_compute; reflexivity).
  rewrite E in H. exact H.
Defined.

Definition demo_policy : issuance_policy := policy_init 30 2 600.

Lemma oidc_settings_issue_witness :
  exists v c, from_settings demo_settings = Ok v /\ verify demo_header demo_decode (fun _ => Ok 7%nat) v (u8 "t") = Ok c /\ oc_team_id c <> [] /\
  match policy_issue demo_policy c (u8 "ct_1") 5 empty_store with
  | Ok (answer, st') => token_stored demo_policy c (u8 "https://sso.corp/realms/dev") (u8 "ct_1") 5 empty_store st'
  | Raise _ => False
  end.
Proof.
  destruct (oidc_settings_issue demo_header demo_decode (fun _ => Ok 7%nat) demo_issuance demo_teams [] demo_settings) as (v & Hv & H).
  { vm_compute. reflexivity. }
  exists v, demo_claims. split; [exact Hv|].
  assert (Ev : v = demo_verifier) by (apply (ok_inj (E := unit)); rewrite <-Hv; vm_compute; reflexivity).
  assert (E : verify demo_header demo_decode (fun _ => Ok 7%nat) v (u8 "t") = Ok demo_claims) by (rewrite Ev; vm_compute; reflexivity).
  split; [exact E|]. destruct (H _ _ E) as (_ & _ & H1 & _ & H2). split; [exact H1|].
  specialize (H2 demo_policy (u8 "ct_1") 5 empty_store).
  assert (Ok' : match policy_issue demo_policy demo_claims (u8 "ct_1") 5 empty_store with Ok _ => true | Raise _ => false end = true) by (vm_compute; reflexivity).
  destruct (policy_issue demo_policy demo_claims (u8 "ct_1") 5 empty_store) as [[answer st']|e]; [apply H2|discriminate Ok'].
Defined.

Definition demo_events : list jwks_event :=
  [Ask 0 (u8 "k1") 0; Fetched FetchFailed 1; Woken 0; Cleared 0; Ask 1 (u8 "k1") 2; Ask 2 (u8 "k2") 7].

Lemma jwks_refetch_bounded_witness :
  let s := jwks_run (Key := nat) (fun _ => Some 1%nat) (fun _ => false) 60 5 demo_events jwks_init in
  jk_starts s = [0%Q; 7%Q] /\ (0 + inject_Z 1 * 5 <= 7)%Q.
Proof.
  cbv zeta. assert (E : jk_starts (jwks_run (Key := nat) (fun _ => Some 1%nat) (fun _ => false) 60 5 demo_events jwks_init) = [0%Q; 7%Q])
    by (vm_compute; reflexivity).
  split; [exact E|].
  destruct (jwks_refetch_bounded (Key := nat) (fun _ => Some 1%nat) (fun _ => false) 60 5 5 ltac:(vm_compute; discriminate) ltac:(vm_compute; discriminate)
              demo_events 0%Q) as (H & _).
  { cbn. repeat split; vm_compute; discriminate. }
  apply (H 1%nat 0%nat 0%Q 7%Q); rewrite E; reflexivity.
Defined.
