(* ===== verification/PgTokens.v ===== *)
(** * Tokens in PostgreSQL ([tokens/postgres_store.py], [pg_session.py])

    Issuance by several replicas at once.  A transaction is a record with the phase it has
    reached; each statement is a step that reads the committed rows (READ COMMITTED), and
    its writes become visible when it commits.  The advisory lock is held from the lock
    statement to the end of the transaction; [hashtext] is a parameter.  A statement that
    would wait for another transaction is not enabled.  A transaction may end at any time
    without a commit: an error, a timeout of a lock or a statement, a cancelled request
    whose connection is dropped.  [ORDER BY corp_token] is by code point.  [revoke_user]
    is one statement and one step; the upsert of the command line is a step of a history
    only with a token that is not in the table ([pg_upsert] has both branches of its
    ON CONFLICT).  The pool, the
    bounds in seconds and the release of a connection are not modelled. *)

From S2P Require Import Prelude Text Json ContentBlocks Tokens.
Local Open Scope py_scope.
Local Open Scope Z_scope.

(** ** Rows and transactions *)

(** A row of [corp_tokens]; the OIDC columns are null for tokens of the command line. *)
Record row := Row { r_info : token_info; r_subject : option subject; r_jti : option str }.

Definition r_token (r : row) : str := ti_corp_token (r_info r).

Inductive pg_refusal := Replay | Rate | UniqueViolation | Busy.

Inductive tx_stage :=
| Begun
| Locked                            (* the advisory lock of the subject is held *)
| JtiUnseen
| Paced
| Counted (doomed : list str)
| Revoked (doomed : list str)
| Inserted (doomed : list str)
| Committed
| Ended (why : pg_refusal).

Record tx := Tx { tx_info : token_info; tx_subject : subject; tx_jti : str; tx_phase : tx_stage }.

Definition at_phase (p : tx_stage) (t : tx) : tx := Tx (tx_info t) (tx_subject t) (tx_jti t) p.

Record db := Db { db_rows : list row; db_txs : list tx }.

Definition holds_lock (t : tx) : bool :=
  match tx_phase t with Begun | Committed | Ended _ => false | _ => true end.
Definition has_inserted (t : tx) : bool := match tx_phase t with Inserted _ => true | _ => false end.
Definition finished (t : tx) : bool := match tx_phase t with Committed | Ended _ => true | _ => false end.

(** The rows of a subject. *)
Definition of_subject (key : subject) (r : row) : bool := bool_decide (r_subject r = Some key).
Definition held (key : subject) (rows : list row) : list token_info := map r_info (List.filter (of_subject key) rows).

Definition SUBJECT_KEY_SEPARATOR : N := 0x1f%N.
Definition lock_text (key : subject) : str := key.1 ++ [SUBJECT_KEY_SEPARATOR] ++ key.2.

(** [lookup] *)
Definition pg_lookup (corp_token : str) (rows : list row) : option token_info :=
  r_info <$> List.find (fun r => str_eqb (r_token r) corp_token) rows.

(** [upsert]: [ON CONFLICT (corp_token) DO UPDATE], the OIDC columns kept. *)
Definition pg_upsert (info : token_info) (rows : list row) : list row :=
  if existsb (fun r => str_eqb (r_token r) (ti_corp_token info)) rows
  then map (fun r => if str_eqb (r_token r) (ti_corp_token info) then Row info (r_subject r) (r_jti r) else r) rows
  else rows ++ [Row info None None].

Definition on_info (f : token_info -> token_info) (r : row) : row := Row (f (r_info r)) (r_subject r) (r_jti r).

(** [revoke_user]: the rows after it, and the count of the status line. *)
Definition pg_revoke_user (user_id : str) (now : Z) (rows : list row) : Z * list row :=
  (len (List.filter (fun r => str_eqb (ti_user_id (r_info r)) user_id && bool_decide (ti_revoked_at (r_info r) = None)) rows),
   map (on_info (revoke_row user_id now)) rows).

Section Issue.
Context (hashtext : str -> Z) (max_active min_interval : Z).

(** The tokens over the cap, oldest first. *)
Definition over_cap (key : subject) (now : Z) (rows : list row) : list str :=
  let active := sort_on age_key (List.filter (is_active now) (held key rows)) in
  let excess := len active - max_active + 1 in
  if 0 <? excess then map ti_corp_token (take (Z.to_nat excess) active) else [].

(** The next statement of [issue]; [None] when it has to wait for an insert. *)
Definition statement (rows : list row) (others : list tx) (t : tx) : option tx_stage :=
  let now := ti_issued_at (tx_info t) in
  match tx_phase t with
  | Locked => Some (if existsb (fun r => bool_decide (r_jti r = Some (tx_jti t))) rows then Ended Replay else JtiUnseen)
  | JtiUnseen =>
    Some (match latest_issue (held (tx_subject t) rows) with
          | Some latest => if now - latest <? min_interval then Ended Rate else Paced
          | None => Paced
          end)
  | Paced => Some (Counted (over_cap (tx_subject t) now rows))
  | Counted doomed => Some (Revoked doomed)
  | Revoked doomed =>
    if existsb (fun u => has_inserted u && (str_eqb (ti_corp_token (tx_info u)) (ti_corp_token (tx_info t)) || str_eqb (tx_jti u) (tx_jti t))) others
    then None else
    Some (if existsb (fun r => str_eqb (r_token r) (ti_corp_token (tx_info t))) rows then Ended UniqueViolation else
          if existsb (fun r => bool_decide (r_jti r = Some (tx_jti t))) rows then Ended Replay else Inserted doomed)
  | _ => None
  end.

(** What the commit makes visible. *)
Definition revoke_doomed (doomed : list str) (now : Z) (i : token_info) : token_info :=
  if memb (ti_corp_token i) doomed then set_revoked (Some now) i else i.
Definition commit_rows (t : tx) (doomed : list str) (rows : list row) : list row :=
  map (on_info (revoke_doomed doomed (ti_issued_at (tx_info t)))) rows ++
  [Row (set_revoked None (tx_info t)) (Some (tx_subject t)) (Some (tx_jti t))].

(** The other transactions. *)
Definition others (i : nat) (txs : list tx) : list tx := take i txs ++ drop (S i) txs.

(** ** Steps *)

Inductive pg_event :=
| EBegin (info : token_info) (key : subject) (jti : str)
| ELock (i : nat)
| EStatement (i : nat)
| ECommit (i : nat)
| EEnd (i : nat) (why : pg_refusal)              (* rolled back, or dropped *)
| ERevokeUser (user_id : str) (now : Z)
| EUpsert (info : token_info).                (* a fresh token of the command line *)

Definition set_tx (i : nat) (t : tx) (d : db) : db := Db (db_rows d) (<[i := t]> (db_txs d)).

(** The step of an event; [None] when it is not enabled. *)
Definition pg_step (e : pg_event) (d : db) : option db :=
  match e with
  | EBegin info key jti => Some (Db (db_rows d) (db_txs d ++ [Tx info key jti Begun]))
  | ELock i =>
    t ← db_txs d !! i;
    match tx_phase t with
    | Begun =>
      if existsb (fun u => holds_lock u && (hashtext (lock_text (tx_subject u)) =? hashtext (lock_text (tx_subject t)))) (others i (db_txs d))
      then None else Some (set_tx i (at_phase Locked t) d)
    | _ => None
    end
  | EStatement i =>
    t ← db_txs d !! i;
    p ← statement (db_rows d) (others i (db_txs d)) t;
    Some (set_tx i (at_phase p t) d)
  | ECommit i =>
    t ← db_txs d !! i;
    match tx_phase t with
    | Inserted doomed => Some (Db (commit_rows t doomed (db_rows d)) (<[i := at_phase Committed t]> (db_txs d)))
    | _ => None
    end
  | EEnd i why =>
    t ← db_txs d !! i;
    if finished t then None else Some (set_tx i (at_phase (Ended why) t) d)
  | ERevokeUser user_id now =>
    (* the statement waits for a transaction that updated one of its rows *)
    if existsb (fun u => match tx_phase u with
                         | Revoked doomed | Inserted doomed =>
                           existsb (fun r => str_eqb (ti_user_id (r_info r)) user_id && memb (r_token r) doomed) (db_rows d)
                         | _ => false
                         end) (db_txs d)
    then None else Some (Db (pg_revoke_user user_id now (db_rows d)).2 (db_txs d))
  | EUpsert info =>
    if existsb (fun r => str_eqb (r_token r) (ti_corp_token info)) (db_rows d) ||
       existsb (fun u => has_inserted u && str_eqb (ti_corp_token (tx_info u)) (ti_corp_token info)) (db_txs d)
    then None else Some (Db (pg_upsert info (db_rows d)) (db_txs d))
  end.

(** The databases that any interleaving leads to from an empty table. *)
Inductive pg_reach : db -> Prop :=
| pg_empty : pg_reach (Db [] [])
| pg_next e d d' : pg_reach d -> pg_step e d = Some d' -> pg_reach d'.
End Issue.

(** ** Theorems *)

Definition tokens_of (rows : list row) : list str := map r_token rows.
Definition jtis_of (rows : list row) : list str := omap r_jti rows.

(** A change of rows that keeps identity and time of issue and activates nothing. *)
Record tame (f : token_info -> token_info) : Prop := Tame {
  tm_token : forall i, ti_corp_token (f i) = ti_corp_token i;
  tm_issued : forall i, ti_issued_at (f i) = ti_issued_at i;
  tm_active : forall t i, is_active t (f i) = true -> is_active t i = true;
}.

Lemma revoke_doomed_tame doomed now : tame (revoke_doomed doomed now).
Proof. split; intros *; unfold revoke_doomed; destruct (memb _ _); done. Qed.

Lemma revoke_row_tame user now : tame (revoke_row user now).
Proof. split; intros *; unfold revoke_row; destruct (str_eqb _ _ && _); done. Qed.

Lemma held_app key a b : held key (a ++ b) = held key a ++ held key b.
Proof. unfold held. by rewrite List.filter_app, map_app. Qed.

Lemma held_map key f rows : held key (map (on_info f) rows) = map f (held key rows).
Proof.
  unfold held. induction rows as [|r rows IH]; [done|]. cbn [map List.filter].
  change (of_subject key (on_info f r)) with (of_subject key r). destruct (of_subject key r); cbn [map]; by rewrite IH.
Qed.

Lemma tokens_map f rows : tame f -> tokens_of (map (on_info f) rows) = tokens_of rows.
Proof. intros Hf. unfold tokens_of. rewrite map_map. apply map_ext. intros r. apply (tm_token f Hf). Qed.

Lemma jtis_map f rows : jtis_of (map (on_info f) rows) = jtis_of rows.
Proof. unfold jtis_of. induction rows as [|r rows IH]; [done|]. cbn. by rewrite IH. Qed.

Lemma jtis_app a b : jtis_of (a ++ b) = jtis_of a ++ jtis_of b.
Proof. unfold jtis_of. apply omap_app. Qed.

Lemma jtis_one r j : r_jti r = Some j -> jtis_of [r] = [j].
Proof. unfold jtis_of. cbn. by intros ->. Qed.

Lemma elem_jtis j rows : j ∈ jtis_of rows <-> existsb (fun r => bool_decide (r_jti r = Some j)) rows = true.
Proof.
  unfold jtis_of. rewrite list_elem_of_omap, existsb_exists. setoid_rewrite list_elem_of_In. setoid_rewrite bool_decide_eq_true. naive_solver.
Qed.

Lemma elem_tokens k rows : k ∈ tokens_of rows <-> existsb (fun r => str_eqb (r_token r) k) rows = true.
Proof.
  unfold tokens_of. rewrite list_elem_of_In, in_map_iff, existsb_exists. setoid_rewrite str_eqb_eq. naive_solver.
Qed.

Lemma filter_le {A} (p q : A -> bool) l : (forall x, p x = true -> q x = true) -> (length (List.filter p l) <= length (List.filter q l))%nat.
Proof.
  intros H. induction l as [|x l IH]; [done|]. cbn. destruct (p x) eqn:E; [rewrite (H x E); cbn; lia|]. destruct (q x); cbn; lia.
Qed.

Lemma filter_map_le {A} (p q : A -> bool) f l : (forall x, p (f x) = true -> q x = true) -> (length (List.filter p (map f l)) <= length (List.filter q l))%nat.
Proof.
  intros H. induction l as [|x l IH]; [done|]. cbn. destruct (p (f x)) eqn:E; [rewrite (H x E); cbn; lia|]. destruct (q x); cbn; lia.
Qed.

Section Policy.
Context (hashtext : str -> Z) (max_active min_interval : Z) (Hmax : 1 <= max_active).

(** What the table promises. *)
Record rows_ok (rows : list row) : Prop := RowsOk {
  ro_tokens : NoDup (tokens_of rows);
  ro_jtis : NoDup (jtis_of rows);
  ro_spaced : forall key, StronglySorted (fun a b => ti_issued_at a + min_interval <= ti_issued_at b) (held key rows);
  ro_cap : forall key t, Forall (fun i => ti_issued_at i <= t) (held key rows) -> len (List.filter (is_active t) (held key rows)) <= max_active;
}.

Definition is_paced (t : tx) : bool :=
  match tx_phase t with Paced | Counted _ | Revoked _ | Inserted _ => true | _ => false end.
Definition doomed_of (t : tx) : option (list str) :=
  match tx_phase t with Counted d | Revoked d | Inserted d => Some d | _ => None end.

(** The rows that stay active beside the token to come. *)
Definition kept (now : Z) (doomed : list str) (i : token_info) : bool := is_active now i && negb (memb (ti_corp_token i) doomed).

(** What a transaction has established, at its phase. *)
Record tx_ok (rows : list row) (t : tx) : Prop := TxOk {
  to_paced : is_paced t = true -> Forall (fun i => ti_issued_at i + min_interval <= ti_issued_at (tx_info t)) (held (tx_subject t) rows);
  to_counted : forall doomed, doomed_of t = Some doomed ->
    len (List.filter (kept (ti_issued_at (tx_info t)) doomed) (held (tx_subject t) rows)) + 1 <= max_active;
  to_inserted : has_inserted t = true -> ti_corp_token (tx_info t) ∉ tokens_of rows /\ tx_jti t ∉ jtis_of rows;
}.

(** Two transactions do not hold the lock of one subject, nor a row of one key. *)
Definition apart (t u : tx) : Prop :=
  ~ (holds_lock t = true /\ holds_lock u = true /\ tx_subject t = tx_subject u) /\
  ~ (has_inserted t = true /\ has_inserted u = true /\ (ti_corp_token (tx_info t) = ti_corp_token (tx_info u) \/ tx_jti t = tx_jti u)).

Lemma apart_sym t u : apart t u -> apart u t.
Proof. unfold apart. intuition congruence. Qed.

Record db_ok (d : db) : Prop := DbOk {
  do_rows : rows_ok (db_rows d);
  do_txs : forall i t, db_txs d !! i = Some t -> tx_ok (db_rows d) t;
  do_apart : forall i j t u, i <> j -> db_txs d !! i = Some t -> db_txs d !! j = Some u -> apart t u;
}.

Lemma set_tx_ok i t t' d : db_ok d -> db_txs d !! i = Some t -> tx_ok (db_rows d) t' ->
  (forall j u, j <> i -> db_txs d !! j = Some u -> apart t' u) -> db_ok (set_tx i t' d).
Proof.
  intros [Hr Ht Ha] Hi Hok Hap. pose proof (lookup_lt_Some _ _ _ Hi) as Hlt. split; cbn [set_tx db_rows db_txs]; [done| |].
  - intros j u. destruct (decide (j = i)) as [->|Hne].
    + rewrite list_lookup_insert_eq by done. by intros [= <-].
    + rewrite list_lookup_insert_ne by done. apply Ht.
  - intros j k u v Hjk. destruct (decide (j = i)) as [->|Hj]; [|rewrite list_lookup_insert_ne by done].
    + rewrite list_lookup_insert_eq, list_lookup_insert_ne by done. intros [= <-] Hv. by apply (Hap k).
    + destruct (decide (k = i)) as [->|Hk].
      * rewrite list_lookup_insert_eq by done. intros Hu [= <-]. apply apart_sym. by apply (Hap j).
      * rewrite list_lookup_insert_ne by done. by apply Ha.
Qed.

(** A phase at which nothing is promised. *)
Lemma quiet_ok rows t : is_paced t = false -> tx_ok rows t.
Proof. intros H. unfold is_paced in H. split; unfold is_paced, doomed_of, has_inserted; destruct (tx_phase t); done. Qed.

Lemma unlocked_apart t u : holds_lock t = false -> apart t u.
Proof. intros H. split; intros (H1 & _); [congruence|]. unfold holds_lock, has_inserted in *. by destruct (tx_phase t). Qed.

(** A step of a transaction that keeps its lock and does not insert. *)
Lemma locked_apart t u p : apart t u -> holds_lock t = true -> (match p with Inserted _ => false | _ => true end) = true -> apart (at_phase p t) u.
Proof.
  intros [H1 _] Hl Hp. split; [|intros (H & _); unfold has_inserted in H; cbn in H; by destruct p].
  intros (_ & H2 & H3). apply H1. by split_and!.
Qed.

Lemma others_elem i (txs : list tx) j u : j <> i -> txs !! j = Some u -> In u (others i txs).
Proof.
  intros Hne Hj. unfold others. apply in_or_app. pose proof (lookup_lt_Some _ _ _ Hj).
  destruct (decide (j < i)%nat).
  - left. apply list_elem_of_In, list_elem_of_lookup_2 with j. by rewrite lookup_take_lt.
  - right. apply list_elem_of_In, list_elem_of_lookup_2 with (j - S i)%nat. rewrite lookup_drop. by replace (S i + (j - S i))%nat with j by lia.
Qed.

(** *** The cap *)

Lemma held_tokens_NoDup key rows : NoDup (tokens_of rows) -> NoDup (map ti_corp_token (held key rows)).
Proof.
  unfold held, tokens_of. rewrite map_map. fold r_token. induction rows as [|r rows IH]; [done|]. cbn [map List.filter].
  intros [Hn Hd]%NoDup_cons. specialize (IH Hd). destruct (of_subject key r); [|done]. cbn [map]. apply NoDup_cons. split; [|done].
  intros H. apply Hn. apply list_elem_of_In, in_map_iff in H as (x & E & Hx%filter_In). apply list_elem_of_In, in_map_iff. exists x. tauto.
Qed.

Lemma fresh_rest (l : list token_info) n : NoDup (map ti_corp_token l) ->
  List.filter (fun i => negb (memb (ti_corp_token i) (map ti_corp_token (take n l)))) l = drop n l.
Proof.
  intros Hnd. rewrite <- (take_drop n l) in Hnd at 1. rewrite map_app in Hnd. apply NoDup_app in Hnd as (_ & Hd & _).
  set (front := map ti_corp_token (take n l)) in *. rewrite <- (take_drop n l) at 1. rewrite List.filter_app, (filter_all_false _ (take n l)), (filter_all_true _ (drop n l)); [done| |].
  - intros x Hx. rewrite negb_true_iff. apply memb_false. intros Hi. apply (Hd _ Hi). apply list_elem_of_In, in_map, list_elem_of_In, Hx.
  - intros x Hx. rewrite negb_false_iff. apply memb_true, list_elem_of_In, in_map, list_elem_of_In, Hx.
Qed.

Lemma active_tokens_NoDup key now rows : NoDup (tokens_of rows) ->
  NoDup (map ti_corp_token (sort_on age_key (List.filter (is_active now) (held key rows)))).
Proof.
  intros Hnd%(held_tokens_NoDup key). rewrite sort_on_perm. clear -Hnd. induction (held key rows) as [|i l IH]; [done|].
  cbn [map] in Hnd. apply NoDup_cons in Hnd as [Hn Hd]. specialize (IH Hd). cbn [List.filter]. destruct (is_active now i); [|done].
  cbn [map]. apply NoDup_cons. split; [|done]. intros H. apply Hn. apply list_elem_of_In, in_map_iff in H as (x & Ex & Hx%filter_In).
  apply list_elem_of_In, in_map_iff. exists x. tauto.
Qed.

Lemma over_cap_kept key now rows : NoDup (tokens_of rows) ->
  len (List.filter (kept now (over_cap max_active key now rows)) (held key rows)) + 1 <= max_active.
Proof using Hmax.
  intros Hnd. unfold over_cap. cbv zeta. set (act := List.filter (is_active now) (held key rows)).
  set (sorted := sort_on age_key act). 
  set (doomed := if 0 <? len sorted - max_active + 1 then map ti_corp_token (take (Z.to_nat (len sorted - max_active + 1)) sorted) else []).
  assert (List.filter (kept now doomed) (held key rows) ≡ₚ List.filter (fun i => negb (memb (ti_corp_token i) doomed)) sorted) as Hp.
  { unfold sorted. rewrite sort_on_filter, sort_on_perm. unfold act. by rewrite filter_filter_and. }
  unfold len in *. rewrite (Permutation_length Hp). subst doomed. destruct (0 <? _) eqn:E.
  - rewrite fresh_rest.
    + rewrite length_drop. lia.
    + by apply active_tokens_NoDup.
  - rewrite filter_all_true by done. lia.
Qed.

(** *** Changes of the table *)

Lemma sorted_map_tame f l : tame f -> StronglySorted (fun a b => ti_issued_at a + min_interval <= ti_issued_at b) l ->
  StronglySorted (fun a b => ti_issued_at a + min_interval <= ti_issued_at b) (map f l).
Proof.
  intros Hf. induction 1 as [|i l Hs IH Hl]; cbn [map]; constructor; [done|]. apply Forall_forall. intros x Hx.
  apply list_elem_of_In, in_map_iff in Hx as (y & <- & Hy). rewrite !(tm_issued f Hf). rewrite Forall_forall in Hl. by apply Hl, list_elem_of_In.
Qed.

Lemma Forall_map_tame f (P : Z -> Prop) l : tame f ->
  Forall (fun i => P (ti_issued_at i)) (map f l) <-> Forall (fun i => P (ti_issued_at i)) l.
Proof.
  intros Hf. induction l as [|i l IH]; cbn [map]; [split; constructor|]. by rewrite !Forall_cons, IH, (tm_issued f Hf).
Qed.

Lemma rows_map_ok f rows : tame f -> rows_ok rows -> rows_ok (map (on_info f) rows).
Proof.
  intros Hf [H1 H2 H3 H4]. split; [by rewrite tokens_map|by rewrite jtis_map| |].
  - intros key. rewrite held_map. by apply sorted_map_tame.
  - intros key t. rewrite held_map. rewrite (Forall_map_tame f (fun z => z <= t) _ Hf). intros Ha%H4. etrans; [|exact Ha].
    unfold len. apply inj_le, filter_map_le. apply (tm_active f Hf).
Qed.

Lemma tx_map_ok f rows t : tame f -> tx_ok rows t -> tx_ok (map (on_info f) rows) t.
Proof.
  intros Hf [H1 H2 H3]. split.
  - intros Hp. rewrite held_map. by apply (Forall_map_tame f (fun z => z + min_interval <= ti_issued_at (tx_info t)) _ Hf), H1.
  - intros doomed Hd. rewrite held_map. specialize (H2 doomed Hd). etrans; [|exact H2]. apply Z.add_le_mono_r. unfold len.
    apply inj_le, filter_map_le. intros i [Ha Hn]%andb_true_iff. rewrite (tm_token f Hf) in Hn. unfold kept. by rewrite (tm_active f Hf _ _ Ha), Hn.
  - rewrite tokens_map, jtis_map by done. done.
Qed.

(** A row of no subject. *)
Lemma held_foreign key rows r : r_subject r <> Some key -> held key (rows ++ [r]) = held key rows.
Proof. intros H. rewrite held_app. unfold held at 2. cbn. unfold of_subject. by rewrite bool_decide_eq_false_2, app_nil_r. Qed.

Lemma held_own key rows i j : held key (rows ++ [Row i (Some key) j]) = held key rows ++ [i].
Proof. rewrite held_app. unfold held at 2. cbn. unfold of_subject. cbn. by rewrite bool_decide_eq_true_2. Qed.

Lemma tokens_app a b : tokens_of (a ++ b) = tokens_of a ++ tokens_of b.
Proof. apply map_app. Qed.

Lemma pg_upsert_ok info d : db_ok d -> ti_corp_token info ∉ tokens_of (db_rows d) ->
  (forall i t, db_txs d !! i = Some t -> has_inserted t = true -> ti_corp_token (tx_info t) <> ti_corp_token info) ->
  db_ok (Db (db_rows d ++ [Row info None None]) (db_txs d)).
Proof.
  intros [[H1 H2 H3 H4] Ht Ha] Hn Hi. assert (forall key, held key (db_rows d ++ [Row info None None]) = held key (db_rows d)) as Hh
    by (intros key; by apply held_foreign).
  assert (jtis_of (db_rows d ++ [Row info None None]) = jtis_of (db_rows d)) as Hj by (rewrite jtis_app; cbn; by rewrite app_nil_r).
  split; cbn [db_rows db_txs]; [split| |done].
  - rewrite tokens_app. apply NoDup_app. split_and!; [done| |apply NoDup_singleton]. intros x Hx ->%list_elem_of_singleton. done.
  - by rewrite Hj.
  - intros key. by rewrite Hh.
  - intros key t. rewrite Hh. apply H4.
  - intros i t Et. destruct (Ht i t Et) as [T1 T2 T3]. split; rewrite ?Hh, ?Hj; [done|done|].
    intros Hins. destruct (T3 Hins) as [T4 T5]. split; [|done]. rewrite tokens_app, elem_of_app.
    intros [?|E%list_elem_of_singleton]; [done|]. by apply (Hi i t Et Hins).
Qed.

(** *** The commit *)

Lemma paced_latest l now : match latest_issue l with Some m => now - m <? min_interval | None => false end = false ->
  Forall (fun i => ti_issued_at i + min_interval <= now) l.
Proof.
  intros H. apply Forall_forall. intros i Hi. destruct (latest_issue_ge l i Hi) as (m & Hm & Hle). rewrite Hm in H. lia.
Qed.

Lemma commit_rows_ok t doomed rows : rows_ok rows -> tx_ok rows t -> tx_phase t = Inserted doomed -> rows_ok (commit_rows t doomed rows).
Proof.
  intros Hr [T1 T2 T3] Hp. unfold is_paced, doomed_of, has_inserted in T1, T2, T3. rewrite Hp in T1, T2, T3.
  specialize (T1 eq_refl). specialize (T2 doomed eq_refl). destruct (T3 eq_refl) as [T4 T5].
  pose proof (revoke_doomed_tame doomed (ti_issued_at (tx_info t))) as Hf.
  pose proof (rows_map_ok _ rows Hf Hr) as [H1 H2 H3 H4]. set (f := revoke_doomed doomed (ti_issued_at (tx_info t))) in *.
  unfold commit_rows. fold f. split.
  - rewrite tokens_app, tokens_map by done. apply NoDup_app. split_and!; [apply (ro_tokens _ Hr)| |apply NoDup_singleton].
    intros x Hx Hi. apply list_elem_of_singleton in Hi. subst x. done.
  - rewrite jtis_app, (jtis_one _ (tx_jti t)) by done. rewrite jtis_map. apply NoDup_app.
    split_and!; [apply (ro_jtis _ Hr)| |apply NoDup_singleton]. intros x Hx Hi. apply list_elem_of_singleton in Hi. subst x. done.
  - intros key. destruct (decide (tx_subject t = key)) as [<-|Hne]; [|rewrite held_foreign by (cbn; congruence); apply H3].
    rewrite held_own. apply StronglySorted_app_2; [|apply H3|repeat constructor].
    intros a b Ha Hb. apply list_elem_of_singleton in Hb. subst b. cbn [ti_issued_at set_revoked]. rewrite held_map in Ha.
    apply (Forall_map_tame f (fun z => z + min_interval <= ti_issued_at (tx_info t)) _ Hf) in T1. rewrite Forall_forall in T1. by apply T1.
  - intros key t0. destruct (decide (tx_subject t = key)) as [<-|Hne]; [|rewrite held_foreign by (cbn; congruence); apply H4].
    rewrite held_own, Forall_app, Forall_singleton. intros [_ Hnow]. cbn in Hnow. rewrite List.filter_app, len_app, held_map.
    assert (len (List.filter (is_active t0) (map f (held (tx_subject t) rows))) <= len (List.filter (kept (ti_issued_at (tx_info t)) doomed) (held (tx_subject t) rows))) as Hle.
    { unfold len. apply inj_le, filter_map_le. intros i. unfold f, revoke_doomed, kept. destruct (memb _ _); [done|].
      intros Ha. by rewrite (is_active_mono _ _ _ Hnow Ha). }
    assert (len (List.filter (is_active t0) [set_revoked None (tx_info t)]) <= 1) as Hone
      by (cbn [List.filter]; destruct (is_active _ _); unfold len; cbn [length]; lia).
    lia.
Qed.

Lemma commit_tx_ok t doomed rows u : tx_ok rows u -> apart t u -> tx_phase t = Inserted doomed -> tx_ok (commit_rows t doomed rows) u.
Proof.
  intros Hu [A1 A2] Hp. pose proof (tx_map_ok _ _ _ (revoke_doomed_tame doomed (ti_issued_at (tx_info t))) Hu) as [U1 U2 U3].
  assert (holds_lock t = true) as Hl by (unfold holds_lock; by rewrite Hp). assert (has_inserted t = true) as Hti by (unfold has_inserted; by rewrite Hp).
  unfold commit_rows. set (rows' := map _ rows) in *.
  assert (holds_lock u = true -> held (tx_subject u) (rows' ++ [Row (set_revoked None (tx_info t)) (Some (tx_subject t)) (Some (tx_jti t))]) = held (tx_subject u) rows') as Hh.
  { intros Hu'. apply held_foreign. cbn. intros [= E]. by apply A1. }
  split.
  - intros H. rewrite Hh; [by apply U1|]. unfold is_paced, holds_lock in *. by destruct (tx_phase u).
  - intros d Hd. rewrite Hh; [by apply U2|]. unfold doomed_of, holds_lock in *. by destruct (tx_phase u).
  - intros H. destruct (U3 H) as [U4 U5]. rewrite tokens_app, jtis_app, (jtis_one _ (tx_jti t)), !elem_of_app by done. cbn. rewrite !list_elem_of_singleton.
    split; (intros [?|E]; [done|]); apply A2; split_and!; try done; [left|right]; by rewrite E.
Qed.

(** *** Steps *)

Lemma statement_ok i t p d : db_ok d -> db_txs d !! i = Some t ->
  statement max_active min_interval (db_rows d) (others i (db_txs d)) t = Some p -> db_ok (set_tx i (at_phase p t) d).
Proof using Hmax.
  intros Hd Hi Hs. pose proof (do_txs _ Hd i t Hi) as [T1 T2 T3]. pose proof (do_rows _ Hd) as Hr. unfold statement in Hs.
  assert (holds_lock t = true) as Hl by (unfold holds_lock; by destruct (tx_phase t)).
  assert (forall q, (match q with Inserted _ => false | _ => true end) = true -> tx_ok (db_rows d) (at_phase q t) -> db_ok (set_tx i (at_phase q t) d)) as Hset.
  { intros q Hq Hok. eapply set_tx_ok; [done|done|done|]. intros j u Hne Hu. apply locked_apart; [|done|done]. by apply (do_apart _ Hd i j). }
  unfold is_paced, doomed_of, has_inserted in T1, T2, T3.
  destruct (tx_phase t) as [| | | |doomed|doomed|doomed| |why] eqn:Ep; try done.
  - destruct (existsb _ _); injection Hs as <-; by apply Hset, quiet_ok.
  - destruct (match latest_issue (held (tx_subject t) (db_rows d)) with Some m => ti_issued_at (tx_info t) - m <? min_interval | None => false end) eqn:El.
    + destruct (latest_issue _) as [m|]; [|done]. rewrite El in Hs. injection Hs as <-. by apply Hset, quiet_ok.
    + assert (p = Paced) as -> by (destruct (latest_issue _) as [m|]; [rewrite El in Hs|]; by injection Hs as <-).
      apply Hset; [done|]. split; [|done|done]. intros _. by apply paced_latest.
  - injection Hs as <-. apply Hset; [done|]. split; [intros _; by apply T1| |done]. intros doomed [= <-]. apply over_cap_kept, Hr.
  - injection Hs as <-. apply Hset; [done|]. split; [intros _; by apply T1|exact T2|done].
  - destruct (existsb _ (others i (db_txs d))) eqn:Eo; [done|]. injection Hs as Hs.
    destruct (existsb (fun r => str_eqb (r_token r) (ti_corp_token (tx_info t))) (db_rows d)) eqn:Et; [subst p; by apply Hset, quiet_ok|].
    destruct (existsb (fun r => bool_decide (r_jti r = Some (tx_jti t))) (db_rows d)) eqn:Ej; [subst p; by apply Hset, quiet_ok|]. subst p.
    eapply set_tx_ok; [done|done| |].
    + split; [intros _; by apply T1|exact T2|]. intros _. rewrite elem_tokens, elem_jtis. cbn. rewrite Et, Ej. done.
    + intros j u Hne Hu. pose proof (do_apart _ Hd i j t u ltac:(done) Hi Hu) as [A1 _]. split.
      * intros (_ & H2 & H3). apply A1. by split_and!.
      * intros (_ & H2 & H3). apply not_true_iff_false in Eo. apply Eo. apply existsb_exists. exists u.
        split; [by apply (others_elem _ _ j)|]. rewrite H2. cbn [andb at_phase tx_info tx_jti] in *. apply orb_true_iff. rewrite !str_eqb_eq. naive_solver.
Qed.

Lemma pg_step_ok e d d' : db_ok d -> pg_step hashtext max_active min_interval e d = Some d' -> db_ok d'.
Proof using Hmax.
  intros Hd. destruct e as [info key jti|i|i|i|i why|user now|info]; cbn [pg_step].
  - intros [= <-]. destruct Hd as [Hr Ht Ha]. split; cbn [db_rows db_txs]; [done| |].
    + intros i t [Hi|[_ Hi]]%lookup_app_Some; [by apply (Ht i)|]. apply list_lookup_singleton_Some in Hi as [_ <-]. by apply quiet_ok.
    + intros i j t u Hij Hi Hj. apply lookup_app_Some in Hi as [Hi|[Hi Hi']], Hj as [Hj|[Hj Hj']].
      * by apply (Ha i j).
      * apply list_lookup_singleton_Some in Hj' as [_ <-]. apply apart_sym. by apply unlocked_apart.
      * apply list_lookup_singleton_Some in Hi' as [_ <-]. by apply unlocked_apart.
      * apply list_lookup_singleton_Some in Hi' as [? _], Hj' as [? _]. lia.
  - intros (t & Hi & H)%bind_Some. destruct (tx_phase t) eqn:Ep; try done. destruct (existsb _ _) eqn:Eo; [done|]. injection H as <-.
    eapply set_tx_ok; [done|done|by apply quiet_ok|]. intros j u Hne Hu. split; [|intros (H & _); done].
    intros (_ & H2 & H3). apply not_true_iff_false in Eo. apply Eo, existsb_exists. exists u. split; [by apply (others_elem _ _ j)|].
    cbn [at_phase tx_subject] in H3. rewrite H2, H3, Z.eqb_refl. done.
  - intros (t & Hi & (p & Hp & [= <-])%bind_Some)%bind_Some. by eapply statement_ok.
  - intros (t & Hi & H)%bind_Some. destruct (tx_phase t) as [| | | | | |doomed| |] eqn:Ep; try done. injection H as <-.
    pose proof Hd as [Hr Ht Ha]. pose proof (lookup_lt_Some _ _ _ Hi) as Hlt.
    assert (db_ok (Db (commit_rows t doomed (db_rows d)) (<[i := at_phase Committed t]> (db_txs d)))) as Hok; [|exact Hok]. split; cbn [db_rows db_txs].
    + apply commit_rows_ok; [done|by apply (Ht i)|done].
    + intros j u. destruct (decide (j = i)) as [->|Hne].
      * rewrite list_lookup_insert_eq by done. intros [= <-]. by apply quiet_ok.
      * rewrite list_lookup_insert_ne by done. intros Hu. apply commit_tx_ok; [by apply (Ht j)|by apply (Ha i j)|done].
    + apply (do_apart (set_tx i (at_phase Committed t) d)). eapply set_tx_ok; [done|done|by apply quiet_ok|]. intros j u _ _. by apply unlocked_apart.
  - intros (t & Hi & H)%bind_Some. destruct (finished t); [done|]. injection H as <-.
    eapply set_tx_ok; [done|done|by apply quiet_ok|]. intros j u _ _. by apply unlocked_apart.
  - destruct (existsb _ _); [done|]. intros [= <-]. destruct Hd as [Hr Ht Ha]. pose proof (revoke_row_tame user now) as Hf.
    split; cbn [db_rows db_txs]; [by apply rows_map_ok| |done]. intros i t Hi. apply tx_map_ok; [done|by apply (Ht i)].
  - destruct (_ || _) eqn:E; [done|]. apply orb_false_iff in E as [E1 E2]. unfold pg_upsert. rewrite E1. intros [= <-]. apply pg_upsert_ok; [done| |].
    + rewrite elem_tokens, E1. done.
    + intros i t Hi Hins Heq. apply not_true_iff_false in E2. apply E2, existsb_exists. exists t.
      split; [by apply list_elem_of_In, list_elem_of_lookup_2 with i|]. by rewrite Hins, Heq, (proj2 (str_eqb_eq _ _) eq_refl).
Qed.

Lemma pg_reach_ok d : pg_reach hashtext max_active min_interval d -> db_ok d.
Proof using Hmax.
  induction 1 as [|e d d' _ IH Hs]; [|by eapply pg_step_ok].
  split; cbn; [split; cbn|intros i t Hi; by rewrite lookup_nil in Hi|intros i j t u _ Hi; by rewrite lookup_nil in Hi].
  - constructor.
  - constructor.
  - constructor.
  - intros key t _. unfold len. cbn. lia.
Qed.

(** *** Progress *)

(** A step of a transaction towards its end. *)
Definition advances (e : pg_event) : Prop := match e with ELock _ | EStatement _ | ECommit _ => True | _ => False end.

Lemma in_others i (txs : list tx) u : In u (others i txs) -> exists j, txs !! j = Some u.
Proof.
  unfold others. rewrite in_app_iff, <- !list_elem_of_In, !list_elem_of_lookup. intros [[j Hj]|[j Hj]].
  - exists j. by apply lookup_take_Some in Hj as [? _].
  - rewrite lookup_drop in Hj. eauto.
Qed.

Lemma pg_progress d i t : db_txs d !! i = Some t -> finished t = false ->
  exists e d', advances e /\ pg_step hashtext max_active min_interval e d = Some d'.
Proof.
  intros Hi Hf. destruct (decide (Exists (fun u => has_inserted u = true) (db_txs d))) as [He|Hn].
  { apply Exists_exists in He as (u & [j Hj]%list_elem_of_lookup & Hu). unfold has_inserted in Hu. destruct (tx_phase u) as [| | | | | |doomed| |] eqn:Eu; try done.
    exists (ECommit j). eexists. split; [done|]. cbn [pg_step]. rewrite Hj. cbn. rewrite Eu. reflexivity. }
  assert (forall j u, db_txs d !! j = Some u -> has_inserted u = false) as Hno.
  { intros j u Hj. destruct (has_inserted u) eqn:E; [|done]. destruct Hn. apply Exists_exists. exists u. split; [by eapply list_elem_of_lookup_2|done]. }
  destruct (decide (Exists (fun u => holds_lock u = true) (db_txs d))) as [He|Hl].
  - apply Exists_exists in He as (u & [j Hj]%list_elem_of_lookup & Hu). exists (EStatement j).
    assert (exists p, statement max_active min_interval (db_rows d) (others j (db_txs d)) u = Some p) as [p Hp].
    { specialize (Hno j u Hj) as Hni. unfold holds_lock, has_inserted in Hu, Hni. unfold statement. destruct (tx_phase u); try done; eauto.
      destruct (existsb _ (others j (db_txs d))) eqn:Eo; [|eauto]. apply existsb_exists in Eo as (v & [k Hk]%in_others & Hv).
      by rewrite (Hno k v Hk) in Hv. }
    eexists. split; [done|]. cbn [pg_step]. rewrite Hj. cbn. rewrite Hp. reflexivity.
  - exists (ELock i). eexists. split; [done|]. cbn [pg_step]. rewrite Hi. cbn.
    assert (tx_phase t = Begun) as ->.
    { destruct (tx_phase t) eqn:E; try done; try (unfold finished in Hf; by rewrite E in Hf);
        (destruct Hl; apply Exists_exists; exists t; split; [by eapply list_elem_of_lookup_2|unfold holds_lock; by rewrite E]). }
    destruct (existsb _ _) eqn:Eo; [|reflexivity]. apply existsb_exists in Eo as (v & [k Hk]%in_others & [Hv _]%andb_true_iff).
    destruct Hl. apply Exists_exists. exists v. split; [by eapply list_elem_of_lookup_2|done].
Qed.

(** C16: the issuance policy holds in PostgreSQL for any number of replicas.  Whatever the
    interleaving of the transactions' statements, of commits, rollbacks, dropped
    connections, revocations and tokens of the command line, a [jti] minted at most one
    committed token, the tokens of a subject were issued at least [min_interval] apart,
    and from its last issue on a subject has at most [max_active] tokens that are neither
    revoked nor expired; and the transactions never wait for each other in a circle: as
    long as one is open, one can go on. *)
Theorem pg_issuance_policy d key : pg_reach hashtext max_active min_interval d ->
  NoDup (jtis_of (db_rows d)) /\ NoDup (tokens_of (db_rows d)) /\
  StronglySorted (fun a b => ti_issued_at a + min_interval <= ti_issued_at b) (held key (db_rows d)) /\
  (forall t, Forall (fun i => ti_issued_at i <= t) (held key (db_rows d)) -> len (List.filter (is_active t) (held key (db_rows d))) <= max_active) /\
  (forall i t, db_txs d !! i = Some t -> finished t = false -> exists e d', advances e /\ pg_step hashtext max_active min_interval e d = Some d').
Proof using Hmax.
  intros [[H1 H2 H3 H4] _ _]%pg_reach_ok. split_and!; [done|done|apply H3|apply H4|]. intros i t. apply pg_progress.
Qed.
End Policy.

(** ** The two stores agree *)

(** A transaction that runs alone, from the lock to its end. *)
Fixpoint run_statements (max_active min_interval : Z) (fuel : nat) (rows : list row) (t : tx) : result pg_refusal (list row) :=
  match tx_phase t, fuel with
  | Inserted doomed, _ => Ok (commit_rows t doomed rows)
  | Ended why, _ => Raise why
  | _, O => Raise Busy
  | _, S fuel => match statement max_active min_interval rows [] t with
                 | Some p => run_statements max_active min_interval fuel rows (at_phase p t)
                 | None => Raise Busy
                 end
  end.

(** [issue_for_subject] with no other transaction; it has five statements after the lock. *)
Definition pg_issue (max_active min_interval : Z) (rows : list row) (info : token_info) (key : subject) (jti : str) : result pg_refusal (list row) :=
  run_statements max_active min_interval 5 rows (Tx info key jti Locked).

(** The table as the store of Tokens.v. *)
Definition entries (rows : list row) : list (str * token_info) := map (fun r => (r_token r, r_info r)) rows.
Definition owners (rows : list row) : list (str * subject) := omap (fun r => key ← r_subject r; Some (r_token r, key)) rows.
Definition as_store (rows : list row) : token_store := TokenStore (entries rows) (owners rows) (rev (jtis_of rows)).

Definition memory_error (why : pg_refusal) : option issue_error :=
  match why with Replay => Some IssueReplay | Rate => Some IssueRate | UniqueViolation => Some TokenCollision | Busy => None end.

Lemma dget_entries k rows : dget k (entries rows) = pg_lookup k rows.
Proof.
  unfold pg_lookup. induction rows as [|r rows IH]; [done|]. cbn [entries map dget List.find]. fold (entries rows).
  destruct (decide (k = r_token r)) as [->|Hne]; [by rewrite (proj2 (str_eqb_eq _ _) eq_refl)|].
  assert (str_eqb (r_token r) k = false) as -> by (by apply str_eqb_neq). exact IH.
Qed.

Lemma dget_entries_in rows r : NoDup (tokens_of rows) -> r ∈ rows -> dget (r_token r) (entries rows) = Some (r_info r).
Proof.
  intros Hnd Hr. apply elem_dget.
  - unfold dkeys, entries. by rewrite map_map.
  - apply list_elem_of_In, (in_map (fun r => (r_token r, r_info r))), list_elem_of_In, Hr.
Qed.

Lemma dget_entries_none k rows : dget k (entries rows) = None <-> k ∉ tokens_of rows.
Proof. rewrite dget_None. unfold dkeys, entries. by rewrite map_map. Qed.

Lemma held_by_held key rows : NoDup (tokens_of rows) -> held_by key (as_store rows) = held key rows.
Proof.
  intros Hnd. unfold held_by, as_store, held, lookup_token. cbn [st_subjects st_tokens].
  assert (forall sub, (forall r, r ∈ sub -> r ∈ rows) ->
    omap (fun e : str * subject => if decide (e.2 = key) then dget e.1 (entries rows) else None) (owners sub) = map r_info (List.filter (of_subject key) sub)) as H; [|by apply H].
  induction sub as [|r sub IH]; intros Hs; [done|]. unfold owners in *. cbn [omap list_omap List.filter]. unfold of_subject at 1.
  assert (forall x, x ∈ sub -> x ∈ rows) as Hs' by (intros x Hx; apply Hs; by right). specialize (IH Hs').
  destruct (r_subject r) as [k|]; cbn; [|exact IH]. destruct (decide (k = key)) as [->|Hne].
  - rewrite bool_decide_eq_true_2 by done. cbn. rewrite (dget_entries_in rows r Hnd) by (apply Hs; by left). f_equal. exact IH.
  - rewrite bool_decide_eq_false_2 by congruence. exact IH.
Qed.

Lemma revoke_other k now r : r_token r <> k -> on_info (revoke_doomed [k] now) r = r.
Proof.
  intros Hne. destruct r as [i sub j]. unfold on_info. cbn. f_equal. unfold revoke_doomed.
  assert (memb (ti_corp_token i) [k] = false) as ->; [|done]. apply memb_false. by intros E%list_elem_of_singleton.
Qed.

Lemma token_in r rows : r ∈ rows -> r_token r ∈ tokens_of rows.
Proof. intros H. by apply list_elem_of_In, in_map, list_elem_of_In. Qed.

Lemma revoke_one now rows r : NoDup (tokens_of rows) -> r ∈ rows ->
  revoke_token now (entries rows) (r_info r) = entries (map (on_info (revoke_doomed [r_token r] now)) rows).
Proof.
  unfold revoke_token. fold (r_token r). induction rows as [|x rows IH]; intros Hnd Hr; [by apply not_elem_of_nil in Hr|].
  cbn [entries map dset tokens_of] in *. apply NoDup_cons in Hnd as [Hn Hd]. fold (entries rows).
  change (r_token (on_info (revoke_doomed [r_token r] now) x)) with (ti_corp_token (revoke_doomed [r_token r] now (r_info x))).
  rewrite (tm_token _ (revoke_doomed_tame _ _)). fold (r_token x). cbn [on_info r_info].
  destruct (decide (r_token r = r_token x)) as [E|Hne].
  - assert (x = r) as ->.
    { apply elem_of_cons in Hr as [->|Hr]; [done|]. destruct Hn. rewrite <- E. by apply token_in. }
    f_equal.
    + unfold revoke_doomed. fold (r_token r). by rewrite (proj2 (memb_true _ _)) by (by left).
    + f_equal. rewrite <- (map_id rows) at 1. apply map_ext_in. intros y Hy%list_elem_of_In. symmetry. apply revoke_other.
      intros Ey. apply Hn. rewrite <- Ey. by apply token_in.
  - apply elem_of_cons in Hr as [->|Hr]; [done|]. f_equal; [|by apply IH].
    unfold revoke_doomed. fold (r_token x). assert (memb (r_token x) [r_token r] = false) as -> by (apply memb_false; intros Ey%list_elem_of_singleton; congruence). done.
Qed.

Lemma revoke_all now l : forall rows, NoDup (tokens_of rows) -> NoDup (map ti_corp_token l) ->
  Forall (fun i => exists r, r ∈ rows /\ r_info r = i) l ->
  foldl (revoke_token now) (entries rows) l = entries (map (on_info (revoke_doomed (map ti_corp_token l) now)) rows).
Proof.
  induction l as [|i l IH]; intros rows Hnd Hl Hin; cbn [foldl map].
  - f_equal. symmetry. rewrite <- (map_id rows) at 2. apply map_ext. by intros [].
  - apply NoDup_cons in Hl as [Hi Hl]. apply Forall_cons in Hin as [(r & Hr & <-) Hin]. rewrite (revoke_one now rows r Hnd Hr), IH.
    + f_equal. rewrite map_map. apply map_ext. intros x. unfold on_info. cbn [r_info r_subject r_jti]. f_equal. unfold revoke_doomed. fold (r_token r).
      destruct (memb (ti_corp_token (r_info x)) [r_token r]) eqn:E1.
      * apply memb_true, list_elem_of_singleton in E1. cbn [set_revoked ti_corp_token]. rewrite (proj2 (memb_true (ti_corp_token (r_info x)) (r_token r :: map ti_corp_token l))) by (rewrite E1; by left).
        by destruct (memb _ _).
      * apply memb_false in E1. unfold memb. by rewrite (bool_decide_ext (_ ∈ r_token r :: _) (ti_corp_token (r_info x) ∈ map ti_corp_token l)) by set_solver.
    + rewrite tokens_map; [done|]. apply revoke_doomed_tame.
    + done.
    + rewrite Forall_forall in Hin |- *. intros j Hj. destruct (Hin j Hj) as (x & Hx & <-). exists x. split; [|done].
      assert (on_info (revoke_doomed [r_token r] now) x = x) as E.
      { apply revoke_other. intros Ex. destruct Hi. fold (r_token r). rewrite <- Ex. by apply list_elem_of_In, (in_map ti_corp_token l (r_info x)), list_elem_of_In. }
      rewrite <- E. by apply list_elem_of_In, in_map, list_elem_of_In.
Qed.

Lemma memb_rev {A} `{EqDecision A} (x : A) l : memb x (rev l) = memb x l.
Proof. unfold memb. apply bool_decide_ext. rewrite !list_elem_of_In. symmetry. apply in_rev. Qed.

Lemma jti_seen j rows : existsb (fun r => bool_decide (r_jti r = Some j)) rows = memb j (rev (jtis_of rows)).
Proof. rewrite memb_rev. apply eq_true_iff_eq. by rewrite <- elem_jtis, memb_true. Qed.

Lemma token_seen k rows : existsb (fun r => str_eqb (r_token r) k) rows = match dget k (entries rows) with Some _ => true | None => false end.
Proof.
  apply eq_true_iff_eq. rewrite <- elem_tokens. pose proof (dget_entries_none k rows) as H. destruct (dget k (entries rows)) as [v|].
  - split; [done|]. intros _. destruct (decide (k ∈ tokens_of rows)) as [|Hn]; [done|]. by apply H in Hn.
  - split; [|done]. intros Hk. by destruct (proj1 H eq_refl).
Qed.

(** The rows the cap dooms are those the in-memory store revokes. *)
Lemma over_cap_take max_active key now rows :
  over_cap max_active key now rows =
  map ti_corp_token (take (Z.to_nat (Z.max 0 (len (sort_on age_key (List.filter (is_active now) (held key rows))) - max_active + 1)))
                          (sort_on age_key (List.filter (is_active now) (held key rows)))).
Proof.
  unfold over_cap. cbv zeta. destruct (0 <? _) eqn:E; [by rewrite Z.max_r by lia|].
  rewrite Z.max_l by lia. by rewrite take_0.
Qed.

Lemma owners_cons r rows : owners (r :: rows) = match r_subject r with Some key => (r_token r, key) :: owners rows | None => owners rows end.
Proof. unfold owners. cbn. by destruct (r_subject r). Qed.

Lemma owners_map f rows : tame f -> owners (map (on_info f) rows) = owners rows.
Proof.
  intros Hf. induction rows as [|r rows IH]; [done|]. cbn [map]. rewrite !owners_cons, IH.
  change (r_token (on_info f r)) with (ti_corp_token (f (r_info r))). by rewrite (tm_token f Hf).
Qed.

Lemma commit_as_store max_active rows info key jti : NoDup (tokens_of rows) -> ti_corp_token info ∉ tokens_of rows ->
  let now := ti_issued_at info in
  let active := sort_on age_key (List.filter (is_active now) (held key rows)) in
  let doomed := take (Z.to_nat (Z.max 0 (len active - max_active + 1))) active in
  as_store (commit_rows (Tx info key jti Locked) (over_cap max_active key now rows) rows) =
  TokenStore (dset (ti_corp_token info) (set_revoked None info) (foldl (revoke_token now) (entries rows) doomed))
             (dset (ti_corp_token info) key (owners rows)) (jti :: rev (jtis_of rows)).
Proof.
  intros Hnd Hn now active doomed. unfold commit_rows, as_store. cbn [tx_info tx_subject tx_jti]. fold now.
  rewrite (over_cap_take max_active key now rows). fold active. fold doomed.
  pose proof (revoke_doomed_tame (map ti_corp_token doomed) now) as Hf. set (f := revoke_doomed _ now) in *.
  assert (foldl (revoke_token now) (entries rows) doomed = entries (map (on_info f) rows)) as ->.
  { apply revoke_all; [done| |].
    - pose proof (active_tokens_NoDup key now rows Hnd) as Hs. unfold doomed, active. set (l := sort_on _ _) in *. rewrite <- (take_drop (Z.to_nat (Z.max 0 (len l - max_active + 1))) l), map_app in Hs. by apply NoDup_app in Hs as [Hs _].
    - apply Forall_forall. intros i Hi. apply elem_of_take in Hi as (n & Hi%list_elem_of_lookup_2 & _). unfold active in Hi. rewrite elem_of_sort_on in Hi. unfold held in Hi.
      apply list_elem_of_In, filter_In in Hi as [Hi _]. apply in_map_iff in Hi as (r & <- & Hr%filter_In). exists r. split; [apply list_elem_of_In; tauto|done]. }
  f_equal.
  - rewrite dset_fresh; [unfold entries; by rewrite map_app|]. apply dget_entries_none. by rewrite tokens_map.
  - rewrite dset_fresh.
    + unfold owners. rewrite omap_app. f_equal. by apply owners_map.
    + apply dget_None. intros H. apply Hn. unfold dkeys in H. apply list_elem_of_In, in_map_iff in H as ((k & s) & <- & Hin%list_elem_of_In).
      apply list_elem_of_omap in Hin as (r & Hr & Hs). destruct (r_subject r); [|done]. injection Hs as <- <-. by apply token_in.
  - rewrite jtis_app, jtis_map, (jtis_one _ jti), rev_app_distr by done. done.
Qed.

Lemma run_next ma mi fuel rows t p : statement ma mi rows [] t = Some p ->
  run_statements ma mi (S fuel) rows t = run_statements ma mi fuel rows (at_phase p t).
Proof. intros H. cbn [run_statements]. rewrite H. unfold statement in H. by destruct (tx_phase t). Qed.

Lemma run_ended ma mi fuel rows t why : run_statements ma mi fuel rows (at_phase (Ended why) t) = Raise why.
Proof. by destruct fuel. Qed.

(** C17: the two stores agree: a transaction of PostgreSQL that runs alone on a table whose
    tokens are distinct, as its primary key makes them, has the outcome of the in-memory
    store on the same rows, with the same refusal or the same rows afterwards; and so do
    lookups and the revocation of a user. *)
Theorem pg_matches_memory max_active min_interval rows info key jti : NoDup (tokens_of rows) ->
  match pg_issue max_active min_interval rows info key jti with
  | Ok rows' => issue_for_subject info key jti max_active min_interval (as_store rows) = Ok (set_revoked None info, as_store rows')
  | Raise why => exists e, memory_error why = Some e /\ issue_for_subject info key jti max_active min_interval (as_store rows) = Raise e
  end /\
  (forall tok, lookup_token tok (as_store rows) = pg_lookup tok rows) /\
  (forall user now, revoke_user user now (as_store rows) = ((pg_revoke_user user now rows).1, as_store (pg_revoke_user user now rows).2)).
Proof.
  intros Hnd. split_and!; [|intros tok; apply dget_entries|].
  - unfold issue_for_subject, pg_issue. rewrite held_by_held by done. unfold lookup_token. cbn [as_store st_jtis st_tokens st_subjects].
    erewrite run_next by reflexivity. cbn [tx_jti]. rewrite jti_seen. destruct (memb jti _) eqn:Ej; [rewrite run_ended; by eexists|].
    erewrite run_next by reflexivity. cbn [at_phase tx_info tx_subject tx_jti].
    destruct (match latest_issue (held key rows) with Some m => ti_issued_at info - m <? min_interval | None => false end) eqn:El.
    { destruct (latest_issue _) as [m|]; [|done]. rewrite El. fold (at_phase (Ended Rate) (Tx info key jti JtiUnseen)). rewrite run_ended. by eexists. }
    replace (match latest_issue (held key rows) with Some latest => if ti_issued_at info - latest <? min_interval then Ended Rate else Paced | None => Paced end)
      with Paced by (destruct (latest_issue _) as [m|]; [by rewrite El|done]).
    do 2 (erewrite run_next by reflexivity; cbn [at_phase tx_info tx_subject tx_jti]).
    erewrite run_next by reflexivity. cbn [at_phase tx_info tx_subject tx_jti]. rewrite token_seen, jti_seen, Ej.
    destruct (dget (ti_corp_token info) (entries rows)) as [v|] eqn:Ed; cbn [run_statements at_phase tx_phase]; [by eexists|].
    apply dget_entries_none in Ed. pose proof (commit_as_store max_active rows info key jti Hnd Ed) as Hc. cbv zeta in Hc.
    cbn [ti_corp_token set_revoked]. f_equal. f_equal. symmetry. exact Hc.
  - intros user now. unfold revoke_user, pg_revoke_user, as_store. cbn [st_tokens st_subjects st_jtis fst snd].
    pose proof (revoke_row_tame user now) as Hf. rewrite owners_map, jtis_map by done. f_equal; [|f_equal].
    + unfold len, entries. f_equal. induction rows as [|r rows IH]; [done|]. cbn [map List.filter snd]. apply NoDup_cons in Hnd as [_ Hnd].
      destruct (_ && _); cbn [length]; by rewrite IH.
    + unfold entries. rewrite !map_map. apply map_ext. intros r. cbn [fst snd on_info r_info]. f_equal. unfold r_token. cbn. by rewrite (tm_token _ Hf).
Qed.

(** ** Concrete inputs *)

Fixpoint pg_run (ma mi : Z) (es : list pg_event) (d : db) : option db :=
  match es with [] => Some d | e :: es' => pg_step (fun _ => 0) ma mi e d ≫= pg_run ma mi es' end.

Lemma pg_run_reach ma mi es : forall d d', pg_reach (fun _ => 0) ma mi d -> pg_run ma mi es d = Some d' -> pg_reach (fun _ => 0) ma mi d'.
Proof.
  induction es as [|e es IH]; intros d d' Hd; cbn [pg_run]; [by intros [= <-]|].
  intros (d1 & H1 & H2)%bind_Some. eapply IH; [|exact H2]. by eapply pg_next.
Qed.

Definition demo_token (name : str) (now : Z) : token_info := TokenInfo name (u8 "u") (u8 "t") [] now (now + 100) None.
Definition demo_subject : subject := (u8 "iss", u8 "sub").

(** Two replicas; the second begins before the first commits and waits for its lock. *)
Definition demo_events : list pg_event :=
  [EBegin (demo_token (u8 "a") 10) demo_subject (u8 "j1"); ELock 0; EBegin (demo_token (u8 "b") 20) demo_subject (u8 "j2");
   EStatement 0; EStatement 0; EStatement 0; EStatement 0; EStatement 0; ECommit 0;
   ELock 1; EStatement 1; EStatement 1; EStatement 1; EStatement 1; EStatement 1].

Definition demo_db : db :=
  match pg_run 1 10 demo_events (Db [] []) with Some d => d | None => Db [] [] end.

Lemma pg_issuance_policy_witness :
  NoDup (jtis_of (db_rows demo_db)) /\ exists e d', advances e /\ pg_step (fun _ => 0) 1 10 e demo_db = Some d'.
Proof.
  assert (Hr : pg_reach (fun _ => 0) 1 10 demo_db).
  { apply (pg_run_reach 1 10 demo_events (Db [] [])); [constructor|vm_compute; reflexivity]. }
  destruct (pg_issuance_policy (fun _ => 0) 1 10 ltac:(lia) demo_db demo_subject Hr) as (H1 & _ & _ & _ & H5).
  split; [exact H1|]. apply (H5 1%nat (Tx (demo_token (u8 "b") 20) demo_subject (u8 "j2") (Inserted [u8 "a"]))); vm_compute; reflexivity.
Defined.

Lemma pg_matches_memory_witness :
  issue_for_subject (demo_token (u8 "b") 20) demo_subject (u8 "j2") 1 10
    (as_store [Row (demo_token (u8 "a") 10) (Some demo_subject) (Some (u8 "j1"))]) =
  Ok (demo_token (u8 "b") 20,
      as_store [Row (set_revoked (Some 20) (demo_token (u8 "a") 10)) (Some demo_subject) (Some (u8 "j1"));
                Row (demo_token (u8 "b") 20) (Some demo_subject) (Some (u8 "j2"))]).
Proof.
  destruct (pg_matches_memory 1 10 [Row (demo_token (u8 "a") 10) (Some demo_subject) (Some (u8 "j1"))] (demo_token (u8 "b") 20) demo_subject (u8 "j2"))
    as [H _]; [apply NoDup_singleton|].
  vm_compute in H. vm_compute. exact H.
Defined.
