(* ===== verification/Health.v ===== *)
(** * Health probes and the issuance route ([healthz/checks.py], [healthz/server.py])

    The readiness check over its probes, the gate on the token schema, the token bucket and
    the in-flight cap of the issuance route, and the answers of the router.  A probe is what
    it returned or the class it raised; the issuer is a function from the bearer to an
    outcome; the clock is an argument.  The route is split at its awaits: a request is
    admitted or refused, its body is drained, the issuer runs, the slot is given back.
    The floats of the bucket and of the clocks are exact rationals: the code rounds.  Log
    lines and the bytes of an answer are left out. *)

From Stdlib Require Import Lqa.
From S2P Require Import Prelude Text Json Regex ContentBlocks Inflight Tokens Settings Oidc.
Local Open Scope py_scope.
Local Open Scope Z_scope.

(** ** Checks *)

Record HealthStatus := MkHealth { hs_healthy : bool; hs_detail : str }.

(** What awaiting a probe gives; an exception is its class. *)
Definition probe (A : Type) := result str A.

Definition LiveCheck : HealthStatus := MkHealth true (u8 "live").

(** One probe of [ReadyCheck]: [None] lets the check go on. *)
Definition ready_probe (name : str) (p : probe bool) : option HealthStatus :=
  match p with
  | Raise cls => Some (MkHealth false (name ++ u8 "_error:" ++ cls))
  | Ok true => None
  | Ok false => Some (MkHealth false (name ++ u8 "_unhealthy"))
  end.

Record ReadyCheck := MkReady {
  rc_redis : probe bool;
  rc_postgres : probe bool;
  rc_ner : option (probe bool);
  rc_corp_ner : option (probe bool);
  rc_schema : option (probe (option str));
}.

Definition schema_probe (p : option (probe (option str))) : option HealthStatus :=
  match p with
  | None => None
  | Some (Raise cls) => Some (MkHealth false (u8 "issuance_schema_error:" ++ cls))
  | Some (Ok (Some problem)) => Some (MkHealth false problem)
  | Some (Ok None) => None
  end.

Definition optional_probe (name : str) (p : option (probe bool)) : option HealthStatus := p ≫= ready_probe name.

(** The first of several answers. *)
Fixpoint first_of (l : list (option HealthStatus)) (default : HealthStatus) : HealthStatus :=
  match l with [] => default | Some h :: _ => h | None :: l' => first_of l' default end.

Definition ready_check (c : ReadyCheck) : HealthStatus :=
  first_of [ready_probe (u8 "redis") (rc_redis c); ready_probe (u8 "postgres") (rc_postgres c); schema_probe (rc_schema c);
            optional_probe (u8 "ner") (rc_ner c); optional_probe (u8 "corp_ner") (rc_corp_ner c)]
           (MkHealth true (u8 "ready")).

Definition sanitization_check (p : probe bool) : HealthStatus :=
  match p with
  | Raise cls => MkHealth false (u8 "sanitization_error:" ++ cls)
  | Ok ok => MkHealth ok (if ok then u8 "sanitization_ok" else u8 "sanitization_failed")
  end.

Definition extensions_check (p : probe (list (str * HealthStatus))) : HealthStatus :=
  match p with
  | Raise cls => MkHealth false (u8 "extensions_error:" ++ cls)
  | Ok [] => MkHealth true (u8 "no_extensions")
  | Ok report =>
    match sort_on (fun s : str => map (fun c => zk (Z.of_N c)) s) (map fst (List.filter (fun e : str * HealthStatus => negb (hs_healthy e.2)) report)) with
    | [] => MkHealth true (u8 "extensions_ok:" ++ dump_int (len report))
    | down => MkHealth false ((if len down =? len report then u8 "unhealthy" else u8 "degraded") ++ u8 ": " ++ join (u8 ", ") down)
    end
  end.

(** *** [IssuanceSchemaGate] *)

Definition ISSUANCE_SCHEMA_RECHECK_S : Q := 15.

Record schema_gate := SchemaGate {
  sg_verified : bool;
  sg_checked_at : option Q;
  sg_last : str;
  sg_checks : list Q;                (* when checks were started; not read *)
}.

Definition gate_init (verified : bool) : schema_gate := SchemaGate verified None (u8 "issuance_schema_unverified") [].

(** [problem] up to its await: an answer, or the check is run. *)
Definition gate_begin (recheck_s : Q) (now : Q) (g : schema_gate) : schema_gate * option (option str) :=
  if sg_verified g then (g, Some None) else
  if match sg_checked_at g with Some t => negb (Qle_bool recheck_s (now - t)) | None => false end then (g, Some (Some (sg_last g)))
  else (SchemaGate (sg_verified g) (Some now) (sg_last g) (sg_checks g ++ [now]), None).

(** The rest of [problem], with what the check gave. *)
Definition gate_end (r : probe (option str)) (g : schema_gate) : schema_gate * option str :=
  match r with
  | Raise cls => let last := u8 "issuance_schema_error:" ++ cls in (SchemaGate (sg_verified g) (sg_checked_at g) last (sg_checks g), Some last)
  | Ok None => (SchemaGate true (sg_checked_at g) (sg_last g) (sg_checks g), None)
  | Ok (Some problem) => let last := u8 "issuance_schema: " ++ problem in (SchemaGate (sg_verified g) (sg_checked_at g) last (sg_checks g), Some last)
  end.

(** The whole of [problem], its check, if it is run, having given [res]; the answer of
    [gate_end] depends on that alone, whatever ran during the await. *)
Definition gate_answer (recheck_s at_ : Q) (res : probe (option str)) (g : schema_gate) : option str :=
  match gate_begin recheck_s at_ g with
  | (_, Some answer) => answer
  | (g', None) => (gate_end res g').2
  end.

(** ** The issuance route *)

Definition ISSUE_TOKEN_PATH : str := u8 "/internal/issue-token".
Definition ISSUE_MAX_BODY_BYTES : Z := 1024.

Record bucket := Bucket { bu_capacity : Q; bu_per_second : Q; bu_tokens : Q; bu_at : Q }.

Definition bucket_init (per_minute : Z) (now : Q) : bucket :=
  Bucket (inject_Z per_minute) (inject_Z per_minute / 60) (inject_Z per_minute) now.

Definition qmin (a b : Q) : Q := if Qle_bool a b then a else b.

Definition bucket_take (now : Q) (b : bucket) : bucket * bool :=
  let tokens := qmin (bu_capacity b) (bu_tokens b + (now - bu_at b) * bu_per_second b)%Q in
  if negb (Qle_bool 1 tokens) then (Bucket (bu_capacity b) (bu_per_second b) tokens now, false)
  else (Bucket (bu_capacity b) (bu_per_second b) (tokens - 1)%Q now, true).

(** The part of the router the route changes; [ro_granted] are the times of admission. *)
Record route := Route { ro_max_inflight : Z; ro_inflight : Z; ro_bucket : bucket; ro_granted : list Q }.

(** [__init__]: [None] is the [ValueError] of a bound that is not positive. *)
Definition route_init (max_inflight per_minute : Z) (body_timeout_s timeout_s now : Q) : option route :=
  if (0 <? max_inflight) && (0 <? per_minute) && negb (Qle_bool body_timeout_s 0) && negb (Qle_bool timeout_s 0)
  then Some (Route max_inflight 0 (bucket_init per_minute now) []) else None.

(** The start of [_handle_issue_token]: refused with a code, or admitted. *)
Definition issue_arrive (now : Q) (r : route) : route * option str :=
  if ro_max_inflight r <=? ro_inflight r then (r, Some (u8 "E_ISSUE_INFLIGHT")) else
  let (b, ok) := bucket_take now (ro_bucket r) in
  if negb ok then (Route (ro_max_inflight r) (ro_inflight r) b (ro_granted r), Some (u8 "E_ISSUE_THROTTLED"))
  else (Route (ro_max_inflight r) (ro_inflight r + 1) b (ro_granted r ++ [now]), None).

(** Its [finally]. *)
Definition issue_leave (r : route) : route := Route (ro_max_inflight r) (ro_inflight r - 1) (ro_bucket r) (ro_granted r).

(** [_refuse_body] over the messages of [receive]; a list that ends is the timeout. *)
Inductive body_message := BodyPart (body : list N) (more : bool) | BodyDisconnect | BodyOther.
Inductive body_outcome := BodyEmpty | BodyDisconnected | BodyRefused (code : str).

Fixpoint refuse_body (size : Z) (ms : list body_message) : body_outcome :=
  match ms with
  | [] => BodyRefused (u8 "E_ISSUE_BODY_TIMEOUT")
  | BodyDisconnect :: _ => BodyDisconnected
  | BodyOther :: ms' => refuse_body size ms'
  | BodyPart body more :: ms' =>
    let size := size + len body in
    if ISSUE_MAX_BODY_BYTES <? size then BodyRefused (u8 "E_ISSUE_BODY") else
    if more then refuse_body size ms' else if size =? 0 then BodyEmpty else BodyRefused (u8 "E_ISSUE_BODY")
  end.

(** [_CODE.fullmatch]: [E_[A-Z0-9_]{1,64}] *)
Definition code_char (c : N) : bool := ascii_upper_p c || ascii_digit_p c || (c =? chr "_")%N.
Definition is_code (s : str) : bool :=
  match s with
  | e :: u :: rest => (e =? chr "E")%N && (u =? chr "_")%N && (1 <=? len rest) && (len rest <=? 64) && forallb code_char rest
  | _ => false
  end.

(** [_code_of]; [None]: the exception has no first argument that is a string. *)
Definition code_of (arg : option str) (default : str) : str :=
  match arg with Some a => if is_code a then a else default | None => default end.

(** What [issuer.issue] raises. *)
Inductive issue_exc :=
| ExVerification (arg : option str)
| ExTeamMapping (arg : option str)
| ExPolicy (arg : option str)
| ExJwks
| ExOther (expired store_down : bool).        (* [bound.expired()], [store_unavailable(exc)] *)

Definition issue_status (e : issue_exc) : Z * str :=
  match e with
  | ExVerification a => (401, code_of a (u8 "E_OIDC_INVALID"))
  | ExTeamMapping a => (403, code_of a (u8 "E_ISSUE_NO_TEAM"))
  | ExPolicy a => let code := code_of a (u8 "E_ISSUE_REFUSED") in (if str_eqb code (u8 "E_ISSUE_BUSY") then 503 else 403, code)
  | ExJwks => (503, u8 "E_JWKS_UNAVAILABLE")
  | ExOther true _ => (503, u8 "E_ISSUE_STORE_TIMEOUT")
  | ExOther false true => (503, u8 "E_ISSUE_STORE_UNAVAILABLE")
  | ExOther false false => (500, u8 "E_ISSUE_INTERNAL")
  end.

Section Route.
Context {U : Unicode} (issue : str -> result issue_exc (str * str)).

(** [_bearer_token]; a header value is latin-1, so its code points are its bytes. *)
Definition bearer_token (headers : list (list N * list N)) : str :=
  match map snd (List.filter (fun h : list N * list N => str_eqb (map ascii_lower1 h.1) (u8 "authorization")) headers) with
  | [v] =>
    let scheme := until (N.eqb (chr " ")) v in
    if negb (str_eqb (u_lower scheme) (u8 "bearer")) then [] else strip (drop (S (length scheme)) v)
  | _ => []
  end.

(** An answer: status, payload, whether the body is sent. *)
Inductive reply :=
| Fallthrough
| NoReply                                                          (* the client is gone *)
| Reply (status : Z) (payload : list (str * json)) (body no_store : bool).

Definition issue_respond (status : Z) (code : str) (body : bool) : reply := Reply status [(u8 "error", JStr code)] body true.

(** [_issue] and the answer, for a request that was admitted. *)
Definition issue_reply (headers : list (list N * list N)) (ms : list body_message) : reply :=
  match refuse_body 0 ms with
  | BodyDisconnected => NoReply
  | BodyRefused code => issue_respond (if str_eqb code (u8 "E_ISSUE_BODY_TIMEOUT") then 408 else 400) code true
  | BodyEmpty =>
    match bearer_token headers with
    | [] => issue_respond 401 (u8 "E_OIDC_MISSING") true
    | bearer =>
      match issue bearer with
      | Raise e => issue_respond (issue_status e).1 (issue_status e).2 true
      | Ok (corp_token, expires_at) => Reply 200 [(u8 "corp_token", JStr corp_token); (u8 "expires_at", JStr expires_at)] true true
      end
    end
  end.

Definition HEALTH_PATHS : list str := [u8 "/healthz/live"; u8 "/healthz/ready"; u8 "/healthz/sanitization"; u8 "/healthz/extensions"].

Definition health_reply (h : HealthStatus) (body : bool) : reply :=
  Reply (if hs_healthy h then 200 else 503)
    [(u8 "status", JStr (if hs_healthy h then u8 "healthy" else u8 "unhealthy")); (u8 "detail", JStr (hs_detail h))] body false.

(** The request as the router reads it; [schema] is what the gate answers, if there is one. *)
Record route_request := Request { rq_http : bool; rq_method : str; rq_path : str; rq_headers : list (list N * list N); rq_body : list body_message }.

(** [__call__] of a request that is not [lifespan], its issuance admitted or refused by [arrive]. *)
Definition router (has_issuer has_fallthrough : bool) (checks : str -> HealthStatus) (schema : option (option str)) (arrive : option str) (q : route_request) : reply :=
  let not_head := negb (str_eqb (rq_method q) (u8 "HEAD")) in
  if negb (rq_http q) then (if has_fallthrough then Fallthrough else NoReply) else
  if memb (rq_path q) HEALTH_PATHS then
    if negb (memb (rq_method q) [u8 "GET"; u8 "HEAD"]) then Reply 405 [(u8 "error", JStr (u8 "method not allowed"))] true false
    else health_reply (checks (rq_path q)) (str_eqb (rq_method q) (u8 "GET"))
  else if str_eqb (rq_path q) ISSUE_TOKEN_PATH then
    if negb has_issuer then issue_respond 404 (u8 "E_ISSUE_DISABLED") not_head else
    if negb (str_eqb (rq_method q) (u8 "POST")) then issue_respond 405 (u8 "E_METHOD_NOT_ALLOWED") not_head else
    match schema with
    | Some (Some _) => issue_respond 503 (u8 "E_ISSUE_SCHEMA") true
    | _ => match arrive with
           | Some code => issue_respond 429 code true
           | None => issue_reply (rq_headers q) (rq_body q)
           end
    end
  else if has_fallthrough then Fallthrough else Reply 404 [(u8 "error", JStr (u8 "not found"))] true false.
End Route.

(** ** Theorems *)

(** *** Readiness *)

Lemma ready_iff c : hs_healthy (ready_check c) = true <->
  rc_redis c = Ok true /\ rc_postgres c = Ok true /\ (rc_schema c = None \/ rc_schema c = Some (Ok None)) /\
  (rc_ner c = None \/ rc_ner c = Some (Ok true)) /\ (rc_corp_ner c = None \/ rc_corp_ner c = Some (Ok true)).
Proof.
  unfold ready_check. destruct c as [[[]|] [[]|] n cn s]; cbn; try naive_solver.
  destruct s as [[[]|]|]; cbn; try naive_solver; destruct n as [[[]|]|]; cbn; try naive_solver; destruct cn as [[[]|]|]; cbn; naive_solver.
Qed.

(** *** The schema gate *)

Inductive schema_event := GBegin (now : Q) | GEnd (r : probe (option str)).

Definition gate_step (recheck_s : Q) (g : schema_gate) (e : schema_event) : schema_gate :=
  match e with GBegin now => (gate_begin recheck_s now g).1 | GEnd r => (gate_end r g).1 end.

Lemma gate_verified_stays recheck_s es : forall g, sg_verified g = true ->
  sg_verified (foldl (gate_step recheck_s) g es) = true /\ sg_checks (foldl (gate_step recheck_s) g es) = sg_checks g.
Proof.
  induction es as [|e es IH]; intros g Hv; [done|]. cbn [foldl].
  assert (sg_verified (gate_step recheck_s g e) = true /\ sg_checks (gate_step recheck_s g e) = sg_checks g) as [H1 H2].
  { destruct e as [now|[[p|]|cls]]; cbn [gate_step]; [unfold gate_begin; by rewrite Hv|done..]. }
  destruct (IH _ H1) as [H3 H4]. by rewrite H3, H4.
Qed.

(** Checks are at least [recheck_s] apart, whatever the callers do. *)
Lemma gate_checks_spaced recheck_s es verified :
  let g := foldl (gate_step recheck_s) (gate_init verified) es in
  spaced recheck_s (sg_checks g) /\ (sg_checks g = [] \/ sg_checked_at g = last (sg_checks g)).
Proof.
  intros g. subst g. assert (forall g, spaced recheck_s (sg_checks g) /\ (sg_checks g = [] \/ sg_checked_at g = last (sg_checks g)) ->
    spaced recheck_s (sg_checks (foldl (gate_step recheck_s) g es)) /\
    (sg_checks (foldl (gate_step recheck_s) g es) = [] \/ sg_checked_at (foldl (gate_step recheck_s) g es) = last (sg_checks (foldl (gate_step recheck_s) g es)))) as H.
  { induction es as [|e es IH]; intros g Hg; [done|]. cbn [foldl]. apply IH. destruct e as [now|[[p|]|cls]]; cbn [gate_step]; [|done..].
    unfold gate_begin. destruct (sg_verified g); [done|]. destruct (match sg_checked_at g with Some t => _ | None => _ end) eqn:E; [done|].
    cbn [fst sg_checks sg_checked_at]. split; [|right; by rewrite last_snoc]. destruct Hg as [Hs Hl]. apply spaced_snoc; [done|].
    intros t Ht. destruct Hl as [Hl|Hl]; [by rewrite Hl in Ht|]. rewrite Hl, Ht in E. apply negb_false_iff, Qle_bool_iff in E. lra. }
  apply H. split; [|by left]. intros i t t' Hi. cbn in Hi. discriminate Hi.
Qed.

Lemma gate_verified_by recheck_s es : forall g, sg_verified (foldl (gate_step recheck_s) g es) = true ->
  sg_verified g = true \/ GEnd (Ok None) ∈ es.
Proof.
  induction es as [|e es IH]; intros g Hv; [by left|]. cbn [foldl] in Hv. destruct (IH _ Hv) as [H|H]; [|right; by right].
  destruct e as [t|[[problem|]|cls]]; cbn [gate_step] in H; [|by left|right; by left|by left].
  left. unfold gate_begin in H. destruct (sg_verified g) eqn:E; [done|]. exfalso.
  destruct (match sg_checked_at g with Some _ => _ | None => _ end); cbn in H; congruence.
Qed.

Lemma gate_answer_none recheck_s at_ res g : gate_answer recheck_s at_ res g = None -> sg_verified g = true \/ res = Ok None.
Proof.
  unfold gate_answer, gate_begin. destruct (sg_verified g); [by left|]. destruct (match sg_checked_at g with Some _ => _ | None => _ end); [done|].
  destruct res as [[problem|]|cls]; [done|by right|done].
Qed.

(** A gate that reports no problem has seen the schema current. *)
Lemma gate_answer_current recheck_s at_ res verified es :
  gate_answer recheck_s at_ res (foldl (gate_step recheck_s) (gate_init verified) es) = None ->
  verified = true \/ GEnd (Ok None) ∈ es \/ res = Ok None.
Proof. intros [[H|H]%gate_verified_by|H]%gate_answer_none; auto. Qed.

(** *** The bounds of the route *)

Lemma qmin_spec a b : (qmin a b <= a)%Q /\ (qmin a b <= b)%Q /\ (qmin a b == a \/ qmin a b == b)%Q.
Proof.
  unfold qmin. destruct (Qle_bool a b) eqn:E; [apply Qle_bool_iff in E|apply not_true_iff_false in E; rewrite Qle_bool_iff in E; apply Qnot_le_lt in E];
    (split; [lra|split; [lra|]]); [left|right]; reflexivity.
Qed.

Inductive route_event := RArrive (now : Q) | RLeave.

Definition route_step (r : route) (e : route_event) : route :=
  match e with
  | RArrive now => (issue_arrive now r).1
  | RLeave => if ro_inflight r =? 0 then r else issue_leave r       (* only an admitted request leaves *)
  end.

Definition route_time (e : route_event) (now : Q) : Q := match e with RArrive t => t | RLeave => now end.

Fixpoint route_in_order (now : Q) (es : list route_event) : Prop :=
  match es with [] => True | e :: es' => (now <= route_time e now)%Q /\ route_in_order (route_time e now) es' end.

Section RouteBounds.
Context (cap : Z) (per_minute : Z).

Definition rate : Q := (inject_Z per_minute / 60)%Q.

Record route_inv (now : Q) (r : route) : Prop := RouteInv {
  ri_max : ro_max_inflight r = cap;
  ri_inflight : 0 <= ro_inflight r <= cap;
  ri_capacity : bu_capacity (ro_bucket r) = inject_Z per_minute;
  ri_rate : bu_per_second (ro_bucket r) = rate;
  ri_tokens : (0 <= bu_tokens (ro_bucket r))%Q;
  ri_at : (bu_at (ro_bucket r) <= now)%Q;
  (** tokens spent since an admission, with those left, against what the time allows *)
  ri_spent : forall i t, ro_granted r !! i = Some t ->
    (inject_Z (len (ro_granted r) - Z.of_nat i) + bu_tokens (ro_bucket r) <= inject_Z per_minute + (bu_at (ro_bucket r) - t) * rate)%Q;
  ri_window : forall n i t t', ro_granted r !! i = Some t -> ro_granted r !! (n + i)%nat = Some t' ->
    (inject_Z (Z.of_nat n + 1) <= inject_Z per_minute + (t' - t) * rate)%Q;
}.

Lemma take_spec now b b' ok : bucket_take now b = (b', ok) ->
  bu_capacity b' = bu_capacity b /\ bu_per_second b' = bu_per_second b /\ bu_at b' = now /\
  let refill := (bu_tokens b + (now - bu_at b) * bu_per_second b)%Q in
  if ok then (0 <= bu_tokens b')%Q /\ (bu_tokens b' + 1 <= refill)%Q /\ (bu_tokens b' + 1 <= bu_capacity b)%Q
  else (bu_tokens b' <= refill)%Q /\ ((0 <= refill)%Q -> (0 <= bu_capacity b)%Q -> (0 <= bu_tokens b')%Q).
Proof.
  unfold bucket_take. destruct (qmin_spec (bu_capacity b) (bu_tokens b + (now - bu_at b) * bu_per_second b)) as (H1 & H2 & H3).
  set (m := qmin _ _) in *. destruct (Qle_bool 1 m) eqn:E; cbn [negb]; intros [= <- <-]; cbn [bu_capacity bu_per_second bu_at bu_tokens];
    (split; [done|]; split; [done|]; split; [done|]; cbv zeta).
  - apply Qle_bool_iff in E. split; [lra|]. split; lra.
  - split; [done|]. intros Hr Hc. destruct H3 as [H3|H3]; lra.
Qed.

Lemma route_step_inv now e r : 0 <= per_minute -> route_inv now r -> (now <= route_time e now)%Q -> route_inv (route_time e now) (route_step r e).
Proof.
  intros Hpm [H1 H2 H3 H4 H5 H6 H7 H8] Hn. assert (0 <= rate)%Q as Hrate.
  { unfold rate. apply Qle_shift_div_l; [reflexivity|]. rewrite Qmult_0_l. change 0%Q with (inject_Z 0). by rewrite <- Zle_Qle. }
  assert (0 <= inject_Z per_minute)%Q as Hcap by (change 0%Q with (inject_Z 0); by rewrite <- Zle_Qle).
  destruct e as [t|]; cbn [route_step route_time] in *.
  2:{ destruct (ro_inflight r =? 0) eqn:E; split; cbn [issue_leave ro_max_inflight ro_inflight ro_bucket ro_granted]; try assumption; lia. }
  unfold issue_arrive. rewrite H1. destruct (cap <=? ro_inflight r) eqn:Ec; [split; try assumption; cbn; lra|].
  destruct (bucket_take t (ro_bucket r)) as [b ok] eqn:Eb. apply take_spec in Eb as (B1 & B2 & B3 & B4). rewrite H4 in B4. cbv zeta in B4.
  assert (0 <= (t - bu_at (ro_bucket r)) * rate)%Q as Hgain by (apply Qmult_le_0_compat; lra).
  destruct ok; cbn [negb fst].
  - destruct B4 as (B4 & B5 & B6). split; cbn [ro_max_inflight ro_inflight ro_bucket ro_granted]; [done|lia|congruence|congruence|done|rewrite B3; lra| |].
    + intros i u [Hi|[Hl Hi]]%lookup_app_Some.
      * specialize (H7 i u Hi). rewrite B3, len_app. change (len [t]) with 1.
        replace (len (ro_granted r) + 1 - Z.of_nat i) with (len (ro_granted r) - Z.of_nat i + 1) by lia. rewrite inject_Z_plus. change (inject_Z 1) with 1%Q. lra.
      * apply list_lookup_singleton_Some in Hi as [Hi <-]. rewrite len_app. change (len [t]) with 1.
        replace (len (ro_granted r) + 1 - Z.of_nat i) with 1 by (unfold len; lia). rewrite B3. change (inject_Z 1) with 1%Q. rewrite H3 in B6. lra.
    + intros n i u u' Hi Hj. apply lookup_app_Some in Hj as [Hj|[Hl Hj]].
      * pose proof (lookup_lt_Some _ _ _ Hj). rewrite lookup_app_l in Hi by lia. eauto.
      * apply list_lookup_singleton_Some in Hj as [Hj <-]. apply lookup_app_Some in Hi as [Hi|[Hl' Hi]].
        -- specialize (H7 i u Hi). replace (Z.of_nat n + 1) with (len (ro_granted r) - Z.of_nat i + 1) by (unfold len; lia).
           rewrite inject_Z_plus. change (inject_Z 1) with 1%Q. lra.
        -- apply list_lookup_singleton_Some in Hi as [Hi <-]. replace (Z.of_nat n + 1) with 1 by lia. change (inject_Z 1) with 1%Q. rewrite H3 in B6. lra.
  - destruct B4 as [B4 B5]. split; cbn [ro_max_inflight ro_inflight ro_bucket ro_granted]; [done|lia|congruence|congruence| |rewrite B3; lra| |assumption].
    + apply B5; [lra|by rewrite H3].
    + intros i u Hi. specialize (H7 i u Hi). rewrite B3. lra.
Qed.

Lemma route_run_inv : 0 <= per_minute -> forall es now r, route_inv now r -> route_in_order now es ->
  exists now', route_inv now' (foldl route_step r es).
Proof.
  intros Hpm es. induction es as [|e es IH]; intros now r Hr Ho; [by exists now|]. destruct Ho as [Ho1 Ho2]. cbn [foldl].
  apply (IH (route_time e now)); [by apply route_step_inv|done].
Qed.

Lemma route_init_inv bt tt t0 r : route_init cap per_minute bt tt t0 = Some r -> 0 <= per_minute /\ route_inv t0 r.
Proof.
  unfold route_init. destruct (0 <? cap) eqn:E1; [|done]. destruct (0 <? per_minute) eqn:E2; [|done]. cbn [andb].
  destruct (negb _ && negb _); [|done]. intros [= <-]. split; [lia|]. split; cbn; try done; try lia; try apply Qle_refl.
  change 0%Q with (inject_Z 0). rewrite <- Zle_Qle. lia.
Qed.
End RouteBounds.

(** A run of the route: arrivals at given times and requests that end, in order of time. *)
Definition route_run (es : list route_event) (r : route) : route := foldl route_step r es.

(** C34: The issuance route holds its bounds for every sequence of requests: never more than
    [issue_max_inflight] are in progress, and any [n + 1] admissions that follow one another
    within [t' - t] seconds satisfy [n + 1 <= per_minute + (t' - t) * per_minute / 60]. *)
Theorem issue_route_bounded cap per_minute body_timeout_s timeout_s t0 r es :
  route_init cap per_minute body_timeout_s timeout_s t0 = Some r -> route_in_order t0 es ->
  0 <= ro_inflight (route_run es r) <= cap /\
  forall n i t t', ro_granted (route_run es r) !! i = Some t -> ro_granted (route_run es r) !! (n + i)%nat = Some t' ->
    (inject_Z (Z.of_nat n + 1) <= inject_Z per_minute + (t' - t) * (inject_Z per_minute / 60))%Q.
Proof.
  intros [Hpm Hr]%route_init_inv Ho. destruct (route_run_inv cap per_minute Hpm es t0 r Hr Ho) as [now' H].
  split; [exact (ri_inflight _ _ _ _ H)|exact (ri_window _ _ _ _ H)].
Qed.

Definition sample_route : route := Route 2 0 (bucket_init 3 0) [].
Definition sample_events : list route_event := [RArrive 0; RArrive 1; RArrive 2; RLeave; RArrive 3; RLeave; RArrive 4; RArrive 20].

Lemma issue_route_bounded_witness :
  ro_granted (route_run sample_events sample_route) = [0; 1; 3; 20]%Q /\ 0 <= ro_inflight (route_run sample_events sample_route) <= 2.
Proof. split; [by vm_compute|]. apply (issue_route_bounded 2 3 2 10 0); [by vm_compute|]. cbn. repeat split; apply Qle_bool_iff; by vm_compute. Defined.

(** *** The answers of the route *)

Lemma code_of_is_code arg default : is_code default = true -> is_code (code_of arg default) = true.
Proof. destruct arg as [a|]; cbn; [|done]. by destruct (is_code a) eqn:E. Qed.

Lemma issue_status_code e : is_code (issue_status e).2 = true /\ (issue_status e).1 <> 200.
Proof.
  destruct e as [a|a|a| |[] []]; cbn [issue_status fst snd]; (split; [|try done]); try by vm_compute.
  1-3: apply code_of_is_code; by vm_compute.
  by destruct (str_eqb _ _).
Qed.

(** A refusal carries a code and nothing else. *)
Definition only_code (r : reply) : Prop :=
  exists status code body, r = Reply status [(u8 "error", JStr code)] body true /\ is_code code = true /\ status <> 200.

Lemma respond_only_code status code body : is_code code = true -> status <> 200 -> only_code (issue_respond status code body).
Proof. intros H1 H2. by exists status, code, body. Qed.

Lemma refuse_body_code ms : forall size code, refuse_body size ms = BodyRefused code -> is_code code = true.
Proof.
  induction ms as [|[body more| |] ms IH]; intros size code; cbn [refuse_body]; [intros [= <-]; by vm_compute| |done|apply IH].
  destruct (_ <? _); [intros [= <-]; by vm_compute|]. destruct more; [apply IH|]. destruct (_ =? 0); [done|]. intros [= <-]. by vm_compute.
Qed.

(** An empty body is one whose every part up to the last is empty. *)
Lemma refuse_body_empty ms : forall size, 0 <= size -> refuse_body size ms = BodyEmpty ->
  size = 0 /\ exists ms1 ms2, ms = ms1 ++ BodyPart [] false :: ms2 /\ forall m, m ∈ ms1 -> m = BodyOther \/ m = BodyPart [] true.
Proof.
  induction ms as [|[body more| |] ms IH]; intros size Hs; cbn [refuse_body]; [done| |done|].
  - pose proof (len_nonneg body) as Hb. destruct (_ <? _); [done|]. destruct more.
    + intros H. destruct (IH (size + len body) ltac:(lia) H) as (Hz & ms1 & ms2 & -> & Hm).
      assert (body = []) as -> by (destruct body; [done|rewrite len_cons in *; pose proof (len_nonneg body); lia]). split; [lia|]. exists (BodyPart [] true :: ms1), ms2. split; [done|].
      intros m [->|Hin]%elem_of_cons; [by right|by apply Hm].
    + destruct (_ =? 0) eqn:E; [|done]. intros _. assert (body = []) as -> by (destruct body; [done|rewrite len_cons in *; pose proof (len_nonneg body); lia]). split; [lia|].
      exists [], ms. split; [done|]. intros m Hm. by apply elem_of_nil in Hm.
  - intros H. destruct (IH size Hs H) as (Hz & ms1 & ms2 & -> & Hm). split; [done|]. exists (BodyOther :: ms1), ms2. split; [done|].
    intros m [->|Hin]%elem_of_cons; [by left|by apply Hm].
Qed.

Lemma arrive_code now r : match (issue_arrive now r).2 with Some code => is_code code = true | None => True end.
Proof.
  unfold issue_arrive. destruct (_ <=? _); cbn [snd]; [by vm_compute|]. destruct (bucket_take now (ro_bucket r)) as [b []]; cbn [negb snd]; [done|by vm_compute].
Qed.

(** The client leaves before its body is complete. *)
Definition left_early (ms : list body_message) : Prop :=
  exists ms1 ms2, ms = ms1 ++ BodyDisconnect :: ms2 /\ forall m, m ∈ ms1 -> m = BodyOther \/ exists body, m = BodyPart body true.

Lemma refuse_body_gone ms : forall size, refuse_body size ms = BodyDisconnected -> left_early ms.
Proof.
  induction ms as [|[body more| |] ms IH]; intros size; cbn [refuse_body]; [done| | |].
  - destruct (_ <? _); [done|]. destruct more; [|by destruct (_ =? 0)]. intros (ms1 & ms2 & -> & Hm)%IH.
    exists (BodyPart body true :: ms1), ms2. split; [done|]. intros m [->|Hin]%elem_of_cons; [right; by eexists|by apply Hm].
  - intros _. exists [], ms. split; [done|]. intros m Hm. by apply elem_of_nil in Hm.
  - intros (ms1 & ms2 & -> & Hm)%IH. exists (BodyOther :: ms1), ms2. split; [done|].
    intros m [->|Hin]%elem_of_cons; [by left|by apply Hm].
Qed.

(** A request the route lets through to the issuer: [gate] is the schema gate, if one is
    configured, by what it started with and what happened to it since. *)
Record let_through (has_issuer : bool) (gate : option (bool * list schema_event)) (res : probe (option str)) (arrive : option str)
  (q : route_request) : Prop := LetThrough {
  io_issuer : has_issuer = true;
  io_post : rq_method q = u8 "POST";
  io_schema : forall verified es, gate = Some (verified, es) -> verified = true \/ GEnd (Ok None) ∈ es \/ res = Ok None;
  io_admitted : arrive = None;
}.

(** What a token was issued on. *)
Record issued_on {U : Unicode} (issue : str -> result issue_exc (str * str)) (q : route_request) (token expires : str) : Prop := IssuedOn {
  io_body : exists ms1 ms2, rq_body q = ms1 ++ BodyPart [] false :: ms2 /\ forall m, m ∈ ms1 -> m = BodyOther \/ m = BodyPart [] true;
  io_bearer : bearer_token (rq_headers q) <> [];
  io_minted : issue (bearer_token (rq_headers q)) = Ok (token, expires);
}.

Lemma issue_reply_answers {U : Unicode} issue q : let answer := issue_reply issue (rq_headers q) (rq_body q) in
  (answer = NoReply /\ left_early (rq_body q)) \/ only_code answer \/
  exists token expires, answer = Reply 200 [(u8 "corp_token", JStr token); (u8 "expires_at", JStr expires)] true true /\
    issued_on issue q token expires.
Proof.
  cbv zeta. unfold issue_reply. destruct (refuse_body 0 (rq_body q)) as [| |code] eqn:Eb; [|left; split; [done|by eapply refuse_body_gone]|].
  - right. destruct (bearer_token (rq_headers q)) as [|c bearer] eqn:Et; [left; by apply respond_only_code|].
    destruct (issue (c :: bearer)) as [[token expires]|e] eqn:Ei.
    + right. exists token, expires. split; [done|]. split; rewrite ?Et; try done. by destruct (refuse_body_empty _ 0 ltac:(lia) Eb) as [_ ?].
    + left. destruct (issue_status_code e) as [H1 H2]. by apply respond_only_code.
  - right. left. apply respond_only_code; [by eapply refuse_body_code|]. by destruct (str_eqb _ _).
Qed.

(** C33: A request on the issuance path is answered by the route for every method and never
    falls through; only a request that was let through and whose client left before its
    body was complete gets no answer.  Every answer is [no-store].  A token is in it only
    when the route is enabled, the method is POST, the schema gate (where one is
    configured) has seen the schema current, at boot, in an earlier check or in the one of
    this request, the request was admitted, its body was empty and the issuer gave that
    token for the one bearer credential; every other answer is a status other than 200
    with a code and nothing else. *)
Theorem issue_route_answers {U : Unicode} issue has_issuer has_fallthrough checks recheck_s gate at_ res now r q :
  rq_http q = true -> rq_path q = ISSUE_TOKEN_PATH ->
  let arrive := (issue_arrive now r).2 in
  let schema := (fun g => gate_answer recheck_s at_ res (foldl (gate_step recheck_s) (gate_init g.1) g.2)) <$> gate in
  let answer := router issue has_issuer has_fallthrough checks schema arrive q in
  only_code answer \/
  (let_through has_issuer gate res arrive q /\
   ((answer = NoReply /\ left_early (rq_body q)) \/
    exists token expires, answer = Reply 200 [(u8 "corp_token", JStr token); (u8 "expires_at", JStr expires)] true true /\
      issued_on issue q token expires)).
Proof.
  intros Hh Hp arrive schema answer. pose proof (arrive_code now r) as Hc. subst answer. fold arrive in Hc. unfold router. rewrite Hh, Hp. cbn [negb].
  change (memb ISSUE_TOKEN_PATH HEALTH_PATHS) with false. change (str_eqb ISSUE_TOKEN_PATH ISSUE_TOKEN_PATH) with true. cbn iota.
  destruct has_issuer; cbn [negb]; [|left; by apply respond_only_code].
  destruct (str_eqb (rq_method q) (u8 "POST")) eqn:Em; cbn [negb]; [|left; by apply respond_only_code]. apply str_eqb_eq in Em.
  assert (Hs : (exists p, schema = Some (Some p)) \/
    ((forall a b : reply, match schema with Some (Some _) => a | _ => b end = b) /\
     forall verified es, gate = Some (verified, es) -> verified = true \/ GEnd (Ok None) ∈ es \/ res = Ok None)).
  { subst schema. destruct gate as [[verified es]|]; [|by right]. cbn [fmap option_fmap option_map fst snd].
    destruct (gate_answer _ _ _ _) as [p|] eqn:Eg; [left; by exists p|right]. split; [done|]. intros ? ? [= <- <-]. by eapply gate_answer_current. }
  destruct Hs as [[p ->]|[Hs Hg]]; [left; by apply respond_only_code|]. rewrite Hs.
  destruct arrive as [code|] eqn:Ea; [left; by apply respond_only_code|].
  assert (let_through true gate res None q) as Ht by (by split).
  destruct (issue_reply_answers issue q) as [H|[H|H]]; auto.
Qed.

Definition sample_issue (bearer : str) : result issue_exc (str * str) :=
  if str_eqb bearer (u8 "good") then Ok (u8 "clg_1", u8 "2026-01-01T00:00:00+00:00") else Raise (ExVerification (Some (u8 "secret claim"))).
Definition sample_request (bearer : str) : route_request :=
  Request true (u8 "POST") ISSUE_TOKEN_PATH [(u8 "Authorization", u8 "Bearer " ++ bearer)] [BodyPart [] true; BodyPart [] false].

(** The issuer's message is not a code, so it does not reach the client; a gate that has not
    seen the schema refuses a good credential. *)
Lemma issue_route_answers_witness :
  let schema es := Some (gate_answer 15 3 (Raise (u8 "OSError")) (foldl (gate_step 15) (gate_init false) es)) in
  let answer es b := router (U := ru_unicode) sample_issue true true (fun _ => LiveCheck) (schema es) (issue_arrive 0 sample_route).2 (sample_request (u8 b)) in
  let seen := [GBegin 0; GEnd (Ok None)] in
  answer seen "bad" = issue_respond 401 (u8 "E_OIDC_INVALID") true /\
  answer [] "good" = issue_respond 503 (u8 "E_ISSUE_SCHEMA") true /\
  exists token expires, answer seen "good" = Reply 200 [(u8 "corp_token", JStr token); (u8 "expires_at", JStr expires)] true true /\
     issued_on (U := ru_unicode) sample_issue (sample_request (u8 "good")) token expires.
Proof.
  cbv zeta. split; [by vm_compute|]. split; [by vm_compute|].
  destruct (issue_route_answers (U := ru_unicode) sample_issue true true (fun _ => LiveCheck) 15 (Some (false, [GBegin 0; GEnd (Ok None)])) 3 (Raise (u8 "OSError"))
    0 sample_route (sample_request (u8 "good")) eq_refl eq_refl) as [(status & code & body & E & _ & Hn)|[_ [[E _]|H]]].
  - exfalso. vm_compute in E. discriminate E.
  - exfalso. vm_compute in E. discriminate E.
  - exact H.
Defined.
