(* ===== verification/Boot.v ===== *)
(** * The boot sequence ([asgi.py], [bootstrap.py], [route_gate/arm_checks.py], [pg_session.py])

    Importing [asgi.py] is the boot: the checks of the configuration and of the token
    schema, the setup of litellm's database, the limiter and the gate; litellm's lifespan
    then arms the gate or ends the process.  A boot ends in a process, in an exit code with
    the problems it logged, or in an exception.  What the machine answers (imports,
    PostgreSQL, prisma, litellm's live state) is an argument, and an exception is the
    classes it is an instance of, with its text.  [build_guardrail] gives the composition
    as a record of what was chosen.  Clients, pools, log handlers and the lifespan's
    shutdown are left out. *)

From S2P Require Import Prelude Text Json Regex CachePolicy RouteTable RouteGate ContentBlocks Inflight Tokens Gate Settings Health.
Local Open Scope py_scope.
Local Open Scope Z_scope.

(** ** What a failure of PostgreSQL means ([pg_session.py]) *)

Record exn := Exn { ex_classes : list str; ex_text : str }.

Definition isinstance (e : exn) (cls : string) : bool := memb (u8 cls) (ex_classes e).

Inductive boot_outcome := BOOT_WARN | BOOT_REFUSE | BOOT_REFUSE_TLS | BOOT_REFUSE_PRIVILEGE | BOOT_REFUSE_STARTUP_PARAMETER.

#[export] Instance boot_outcome_eq_dec : EqDecision boot_outcome.
Proof. solve_decision. Defined.

Definition STARTUP_REJECTED : str := u8 "corp_llm_gateway.pg_session.StartupParameterRejectedError".

Definition BOOT_PROBE_OUTCOMES : list (str * boot_outcome) :=
  [(STARTUP_REJECTED, BOOT_REFUSE_STARTUP_PARAMETER);
   (u8 "ssl.SSLError", BOOT_REFUSE_TLS);
   (u8 "asyncpg.QueryCanceledError", BOOT_REFUSE);
   (u8 "asyncpg.InsufficientPrivilegeError", BOOT_REFUSE_PRIVILEGE);
   (u8 "asyncpg.PostgresConnectionError", BOOT_WARN);
   (u8 "asyncpg.OperatorInterventionError", BOOT_WARN);
   (u8 "asyncpg.TooManyConnectionsError", BOOT_WARN);
   (u8 "builtins.OSError", BOOT_WARN)].

Definition STRICT_SSLMODES : list str := [u8 "require"; u8 "verify-ca"; u8 "verify-full"].

(** [connect_with_keepalives]: what [connect] gave. *)
Definition connect_with_keepalives (connect : result exn unit) : result exn unit :=
  match connect with
  | Raise e => if isinstance e "asyncpg.ProtocolViolationError" then Raise (Exn [STARTUP_REJECTED] []) else Raise e
  | Ok _ => Ok tt
  end.

Inductive schema_problem := TOKEN_SCHEMA_MISSING | JTI_INDEX_INVALID | JTI_INDEX_MISSHAPEN.

Record jti_index := JtiIndex { ji_keyed_on_jti : bool; ji_valid : bool }.

(** [token_schema_problem], with what its two statements gave. *)
Definition token_schema_problem (columns : result exn unit) (index : result exn (option jti_index)) : result exn (option schema_problem) :=
  match columns with
  | Raise e => if isinstance e "asyncpg.UndefinedTableError" || isinstance e "asyncpg.UndefinedColumnError" then Ok (Some TOKEN_SCHEMA_MISSING) else Raise e
  | Ok _ =>
    let! row := index in
    Ok (match row with
        | None => Some TOKEN_SCHEMA_MISSING
        | Some i => if negb (ji_keyed_on_jti i) then Some JTI_INDEX_MISSHAPEN else if negb (ji_valid i) then Some JTI_INDEX_INVALID else None
        end)
  end.

(** [store_unavailable] of an exception that the driver has classes for. *)
Definition store_unavailable (e : exn) : bool :=
  if isinstance e "builtins.OSError" then true else
  if isinstance e "asyncpg.QueryCanceledError" then false else
  if isinstance e "asyncpg.ClientConfigurationError" then false else
  isinstance e "asyncpg.PostgresConnectionError" || isinstance e "asyncpg.OperatorInterventionError" ||
  isinstance e "asyncpg.TooManyConnectionsError" || isinstance e "asyncpg.InterfaceError".

(** ** What the process may not be armed with ([arm_checks.py]) *)

Inductive arm_problem :=
| GUARDRAIL_ABSENT | APPLY_GUARDRAIL | SCAN_RAW_REQUEST | RUN_IN_PARALLEL | LITELLM_DEBUG_LOGGING | LITELLM_SET_VERBOSE | RESPONSE_COMPRESSOR.

#[export] Instance arm_problem_eq_dec : EqDecision arm_problem.
Proof. solve_decision. Defined.

Definition DEBUG_PROBLEMS : list arm_problem := [LITELLM_DEBUG_LOGGING; LITELLM_SET_VERBOSE].

(** An entry of [litellm.callbacks]; [cb_apply]: its class has an [apply_guardrail] that is
    not the one of litellm's base class. *)
Record callback := Callback { cb_ours : bool; cb_scan_raw_request : bool; cb_run_in_parallel : bool; cb_apply : bool }.

Definition guardrail_problems (callbacks : list callback) : list arm_problem :=
  match List.filter cb_ours callbacks with
  | [] => [GUARDRAIL_ABSENT]
  | ours => concat (map (fun cb => (if cb_scan_raw_request cb then [SCAN_RAW_REQUEST] else []) ++
                                   (if cb_run_in_parallel cb then [RUN_IN_PARALLEL] else []) ++
                                   (if cb_apply cb then [APPLY_GUARDRAIL] else [])) ours)
  end.

Definition live_debug_problems (loggers : list bool) (set_verbose : bool) : list arm_problem :=
  (if existsb id loggers then [LITELLM_DEBUG_LOGGING] else []) ++ (if set_verbose then [LITELLM_SET_VERBOSE] else []).

Definition COMPRESSORS : list str := [u8 "gzip"; u8 "brotli"; u8 "zstd"; u8 "deflate"; u8 "compress"].

(** litellm after its startup: the callbacks, whether each of its loggers is at DEBUG, its
    two [set_verbose] flags, the class names of its app's middleware. *)
Record live_state := Live { lv_callbacks : list callback; lv_debug_loggers : list bool; lv_set_verbose : bool * bool; lv_middleware : list str }.

Definition live_problems (lv : live_state) : list arm_problem :=
  guardrail_problems (lv_callbacks lv) ++ live_debug_problems (lv_debug_loggers lv) (fst (lv_set_verbose lv) || snd (lv_set_verbose lv)).

(** ** The boot *)

Definition EXIT_CONFIG : Z := 78.
Definition EXIT_NO_CALLBACK : Z := 70.

Inductive boot_problem :=
| FromSettings (p : problem)
| NeedsOidcExtra | NeedsPostgresExtra | CaBundleUnreadable | CaBundleInvalid
| SchemaRefused (o : boot_outcome) | SchemaNotCurrent (p : schema_problem) | BadExtras
| NotArmed (p : arm_problem) | MigrationRefused | MigrationFailed.

Inductive boot_end := Exit (code : Z) (problems : list boot_problem) | Uncaught.

(** What the boot asks of the machine beyond the configuration. *)
Record machine := Machine {
  ma_imports : str -> bool;
  ma_ca_readable : str -> bool;
  ma_ca_loads : str -> bool;
  ma_connect : result exn unit;
  ma_columns : result exn unit;
  ma_index : result exn (option jti_index);
  ma_sslmodes : str -> option (list str);          (* [parse_qs(urlsplit(dsn).query)["sslmode"]]; [None]: [ValueError] *)
  ma_prisma : bool;                                (* the binary is there *)
  ma_should_update : json -> bool;                 (* litellm's [should_update_prisma_schema] *)
  ma_setup_database : option bool;                 (* [None]: [RuntimeError] *)
  ma_enforce_migration : bool;
  ma_lines : str -> list str;                      (* [splitlines] of a text file; empty when it is not a file *)
  ma_compiles : str -> bool;                       (* [re.compile] takes the pattern *)
}.

Section Boot.
Context {U : Unicode} {PR : Parsers}.

Definition requires_tls (m : machine) (dsn : str) : bool :=
  match ma_sslmodes m dsn with Some modes => existsb (fun mode => memb (u_lower mode) STRICT_SSLMODES) modes | None => false end.

Definition boot_probe_outcome (m : machine) (e : exn) (dsn : str) : boot_outcome :=
  if requires_tls m dsn && isinstance e "builtins.ConnectionError" && contains (u_lower (ex_text e)) (u8 "ssl") then BOOT_REFUSE_TLS else
  match List.find (fun row : str * boot_outcome => memb row.1 (ex_classes e)) BOOT_PROBE_OUTCOMES with Some row => row.2 | None => BOOT_REFUSE end.

Definition compressor_problems (names : list str) : list str :=
  List.filter (fun name => existsb (fun word => contains (u_lower name) word) COMPRESSORS) names.

Definition compressor_problem (names : list str) : list arm_problem := match compressor_problems names with [] => [] | _ => [RESPONSE_COMPRESSOR] end.

Definition arm_problems (allow_debug : bool) (lv : live_state) : list arm_problem :=
  let problems := live_problems lv ++ compressor_problem (lv_middleware lv) in
  if allow_debug then List.filter (fun p => negb (memb p DEBUG_PROBLEMS)) problems else problems.

(** *** Step 1: the configuration *)

Definition fail_config {A} (ps : list boot_problem) : result boot_end A := Raise (Exit EXIT_CONFIG ps).

(** [litellm_config.config_path] *)
Definition config_path (w : world) : str :=
  strip (or_default (config_get w (u8 "CORP_LLM_LITELLM_CONFIG") (Some DEFAULT_CONFIG_PATH)) DEFAULT_CONFIG_PATH).

(** A check that may raise out of the import, its problems fatal. *)
Definition fatal (r : result unit (list problem)) : result boot_end unit :=
  match r with
  | Raise _ => Raise Uncaught
  | Ok [] => Ok tt
  | Ok ps => fail_config (map FromSettings ps)
  end.

Definition ca_bundle_problem (m : machine) (path : str) : list boot_problem :=
  if negb (ma_ca_readable m path) then [CaBundleUnreadable] else if negb (ma_ca_loads m path) then [CaBundleInvalid] else [].

(** [issuance_runtime_problems] of settings that were accepted. *)
Definition issuance_runtime_problems (m : machine) (s : IssuanceSettings) : list boot_problem :=
  (if negb (ma_imports m (u8 "cryptography") && ma_imports m (u8 "jwt")) then [NeedsOidcExtra] else []) ++
  (if negb (ma_imports m (u8 "asyncpg")) then [NeedsPostgresExtra] else []) ++
  match is_ca_bundle s with Some path => ca_bundle_problem m path | None => [] end.

(** [_token_schema_state] *)
Definition token_schema_state (m : machine) : result exn (option schema_problem) :=
  let! _ := connect_with_keepalives (ma_connect m) in token_schema_problem (ma_columns m) (ma_index m).

(** [_token_schema_problem]: the problem to refuse on, and whether the schema is current. *)
Definition boot_schema_problem (m : machine) (dsn : str) : option boot_problem * bool :=
  match token_schema_state m with
  | Raise e => let outcome := boot_probe_outcome m e dsn in
               if bool_decide (outcome = BOOT_WARN) then (None, false) else (Some (SchemaRefused outcome), false)
  | Ok (Some p) => (Some (SchemaNotCurrent p), false)
  | Ok None => (None, true)
  end.

Definition check_issuance (w : world) (m : machine) : result boot_end (option IssuanceSettings * bool) :=
  match serving_issuance (resolve_values w) (get_table w (u8 "CORP_GATEWAY_ISSUE_OIDC_TEAM_MAP")) with
  | Raise _ => Raise Uncaught
  | Ok ((_ :: _) as ps, _) => fail_config (map FromSettings ps)
  | Ok ([], None) => Ok (None, false)
  | Ok ([], Some s) =>
    match issuance_runtime_problems m s with
    | (_ :: _) as ps => fail_config ps
    | [] => match boot_schema_problem m (default [] (config_get w (u8 "CORP_LLM_PG_DSN") None)) with
            | (Some p, _) => fail_config [p]
            | (None, verified) => Ok (Some s, verified)
            end
    end
  end.

Definition check_capacity (w : world) : result boot_end CapacitySettings :=
  match build_capacity (resolve_values w) with
  | Raise _ => Raise Uncaught
  | Ok (_, Some c) => Ok c
  | Ok (ps, None) => fail_config (map FromSettings ps)
  end.

Definition check_debug (w : world) : result boot_end bool :=
  match build_litellm_debug (resolve_values w) with
  | ([], allowed) => Ok allowed
  | (ps, _) => fail_config (map FromSettings ps)
  end.

Definition route_gate_extras (w : world) : result boot_end (list route_row) :=
  match parse_extras (extras_raw_of (config_get w (u8 "CORP_LLM_ROUTE_GATE_EXTRA_PASSTHROUGH") None)) with
  | Ok rows => Ok rows
  | Raise _ => fail_config [BadExtras]
  end.

(** *** Step 2: litellm's database *)

Definition setup_prisma (w : world) (m : machine) : result boot_end unit :=
  match w_env w (u8 "DATABASE_URL"), w_env w (u8 "DIRECT_URL") with
  | None, None => Ok tt
  | _, _ =>
    if negb (ma_prisma m) then Ok tt else
    let general := match jget (u8 "general_settings") (litellm_document (w_litellm w (config_path w))) with JObj d => d | _ => [] end in
    if negb (ma_should_update m (jget (u8 "disable_prisma_schema_update") general)) then Ok tt else
    match ma_setup_database m with
    | None => Raise (Exit 2 [MigrationRefused])
    | Some true => Ok tt
    | Some false => if ma_enforce_migration m then Raise (Exit 1 [MigrationFailed]) else Ok tt
    end
  end.

(** *** Steps 4 and 5: the routes, the limiter and the gate *)

(** The selectors of [get_sink], [build_exporter] and [get_auth_provider]. *)
Definition selected (w : world) (name : string) (default_name : string) : str :=
  u_lower (or_default (config_get w (u8 name) (Some (u8 default_name))) (u8 default_name)).

(** [config.get_required] *)
Definition get_required (w : world) (name : str) : result unit str :=
  match config_get w name None with None | Some [] => Raise tt | Some v => Ok v end.

Fixpoint require_all (w : world) (names : list str) : result unit unit :=
  match names with [] => Ok tt | n :: ns => let! _ := get_required w n in require_all w ns end.

(** A factory: the known names, and the settings each one requires. *)
Definition select_known (w : world) (name : str) (known : list str) (requires : list (str * list str)) : result unit str :=
  if negb (memb name known) then Raise tt else
  let! _ := require_all w (default [] (dget name requires)) in Ok name.

Definition SINK_REQUIRES : list (str * list str) :=
  [(u8 "langfuse", [u8 "CORP_LANGFUSE_URL"; u8 "CORP_LANGFUSE_PUBLIC_KEY"; u8 "CORP_LANGFUSE_SECRET_KEY"])].
Definition get_sink (w : world) : result unit str := select_known w (selected w "CORP_AUDIT_SINK" "stdout") AUDIT_SINKS SINK_REQUIRES.

Definition PROVIDER_REQUIRES : list (str * list str) :=
  [(u8 "bearer", [u8 "CORP_LLM_BEARER_TOKEN"]); (u8 "mtls", [u8 "CORP_LLM_MTLS_CERT"; u8 "CORP_LLM_MTLS_KEY"]);
   (u8 "oidc", [u8 "CORP_LLM_OIDC_ISSUER"; u8 "CORP_LLM_OIDC_CLIENT_ID"; u8 "CORP_LLM_OIDC_CLIENT_SECRET"]);
   (u8 "apikey", [u8 "CORP_LLM_API_KEY"])].
Definition get_auth_provider (w : world) : result unit str := select_known w (selected w "CORP_LLM_AUTH_PROVIDER" "noop") AUTH_PROVIDERS PROVIDER_REQUIRES.

Definition build_exporter (w : world) (m : machine) : result unit str :=
  let! name := select_known w (selected w "CORP_METRICS_EXPORTER" "noop") METRICS_EXPORTERS [] in
  if str_eqb name (u8 "prometheus") && negb (ma_imports m (u8 "prometheus_client")) then Raise tt else Ok name.

Definition uncaught {A} (r : result unit A) : result boot_end A := match r with Ok a => Ok a | Raise _ => Raise Uncaught end.

(** What [build_health_router] gives the issuance route; [now]: the route's clock. *)
Definition issue_route (now : Q) (s : IssuanceSettings) : option route :=
  match is_bounds s with
  | [_; _; _; max_inflight; rate; timeout] => route_init max_inflight rate 2 (inject_Z timeout) now
  | _ => None
  end.

Record process := Process {
  pr_issuance : option (IssuanceSettings * route * schema_gate);
  pr_debug : bool;
  pr_limits : limits;
  pr_gate : gate;
}.

Definition boot (now : Q) (w : world) (m : machine) : result boot_end process :=
  let! _ := fatal (litellm_problems (config_path w) (w_litellm w (config_path w)) true) in
  let! issuance := check_issuance w m in
  let! capacity := check_capacity w in
  let! debug := check_debug w in
  let! extras := route_gate_extras w in
  let! _ := setup_prisma w m in
  let! _ := uncaught (build_exporter w m) in
  let! _ := uncaught (get_sink w) in
  let! routes := (match issuance.1 with
                  | None => Ok None
                  | Some s => match issue_route now s with Some r => Ok (Some (s, r, gate_init issuance.2)) | None => Raise Uncaught end
                  end) in
  match limiter_of capacity with
  | Raise _ => Raise Uncaught
  | Ok (limits, _) => Ok (Process routes debug limits (Gate false extras true))
  end.

(** [_armed_lifespan], up to its yield. *)
Definition armed_lifespan (lv : live_state) (p : process) : result boot_end process :=
  match arm_problems (pr_debug p) lv with
  | (_ :: _) as ps => Raise (Exit EXIT_NO_CALLBACK (map NotArmed ps))
  | [] => Ok (Process (pr_issuance p) (pr_debug p) (pr_limits p) (arm (pr_gate p)))
  end.

(** ** The guardrail ([bootstrap.py]) *)

Inductive detector_kind := RegexChecksum | DualNer | CorpNerService.

#[export] Instance detector_kind_eq_dec : EqDecision detector_kind.
Proof. solve_decision. Defined.

Inductive build_error := ConfigError (p : problem) | OtherError.

Definition other {A} (r : result unit A) : result build_error A := match r with Ok a => Ok a | Raise _ => Raise OtherError end.

(** [_flag] *)
Definition boot_flag (w : world) (name : str) (d : str) : bool := as_flag (config_get w name (Some d)).

(** A list of texts separated by commas. *)
Definition comma_list (raw : str) : list str := List.filter (fun t => negb (str_eqb t [])) (map strip (split_char (chr ",") raw)).

(** [get_table] of a dotted name. *)
Fixpoint table_at (node : list (str * toml)) (parts : list str) : list (str * toml) :=
  match parts with
  | [] => node
  | part :: rest => match dget part node with Some (TTable entries _) => table_at entries rest | _ => [] end
  end.

Definition corp_ner_table (w : world) : list (str * toml) := table_at (load_file w) [u8 "extensions"; u8 "detector"; u8 "corp_ner"].

Definition corp_ner_setting (w : world) (table : list (str * toml)) (env_name table_key : str) (d : option str) : option str :=
  match config_get w env_name None with
  | Some ((_ :: _) as v) => Some v
  | _ => match dget table_key table with Some raw => Some (toml_str raw) | None => d end
  end.

Definition corp_ner_int (w : world) (table : list (str * toml)) (env_name table_key d : str) : result build_error Z :=
  let raw := or_default (corp_ner_setting w table env_name table_key (Some d)) d in
  match py_int raw with Some n => Ok n | None => Raise (ConfigError (PNotInteger env_name raw)) end.

Record CorpNerTransport := Transport { tr_timeout : py_float; tr_ca_bundle : option str; tr_max_texts : Z; tr_max_input_chars : Z }.

(** [resolve_corp_ner_transport]; the default timeout is 30 seconds. *)
Definition corp_ner_transport (w : world) (table : list (str * toml)) : result build_error CorpNerTransport :=
  let! timeout := (match corp_ner_setting w table (u8 "CORP_NER_TIMEOUT_S") (u8 "timeout_s") (Some (u8 "30.0")) with
                   | None | Some [] => Ok (Some 30%Q)
                   | Some raw => match float_of raw with Some f => Ok f | None => Raise (ConfigError (PNotNumber (u8 "CORP_NER_TIMEOUT_S") raw)) end
                   end) in
  let! max_texts := corp_ner_int w table (u8 "CORP_NER_MAX_TEXTS") (u8 "max_texts") (u8 "256") in
  let! max_chars := corp_ner_int w table (u8 "CORP_NER_MAX_INPUT_CHARS") (u8 "max_input_chars") (u8 "200000") in
  Ok (Transport timeout (corp_ner_setting w table (u8 "CORP_NER_CA_BUNDLE") (u8 "ca_bundle") None) max_texts max_chars).

(** [build_corp_ner]: the endpoint and the transport of the service, if it is on. *)
Definition build_corp_ner (w : world) : result build_error (option (str * CorpNerTransport)) :=
  let table := corp_ner_table w in
  if negb (as_flag (corp_ner_setting w table (u8 "CORP_NER_ENABLED") (u8 "enabled") (Some (u8 "0")))) then Ok None else
  match corp_ner_setting w table (u8 "CORP_NER_ENDPOINT") (u8 "endpoint") None with
  | None | Some [] => Raise (ConfigError (PRequired (u8 "CORP_NER_ENDPOINT")))
  | Some endpoint => let! t := corp_ner_transport w table in Ok (Some (endpoint, t))
  end.

Definition DEFAULT_ENDPOINT : str := u8 "https://corp-llm.example/v1".
Definition DEFAULT_MODEL : str := u8 "GLM-5.1-AWQ".

Definition removesuffix (suffix s : str) : str := if str_eqb (drop (length s - length suffix) s) suffix then take (length s - length suffix) s else s.

(** [build_corp_llm_client]: base URL, model, verification, provider. *)
Definition build_corp_llm_client (w : world) : result unit (str * str * (str + bool) * str) :=
  let endpoint := or_default (config_get w (u8 "CORP_LLM_ENDPOINT") None) DEFAULT_ENDPOINT in
  let base_url := removesuffix (u8 "/v1") (rstrip_by (N.eqb (chr "/")) endpoint) in
  let model := or_default (config_get w (u8 "CORP_LLM_MODEL") (Some DEFAULT_MODEL)) DEFAULT_MODEL in
  let! verify := corp_llm_verify w in
  let! provider := get_auth_provider w in
  Ok (base_url, model, verify, provider).

Inductive token_backend := PostgresTokens (dsn : str) | MemoryTokens (dev_token : option str).

(** [build_token_store] *)
Definition build_token_store (w : world) (m : machine) : result unit token_backend :=
  match config_get w (u8 "CORP_LLM_PG_DSN") None with
  | Some ((_ :: _) as dsn) => if ma_imports m (u8 "asyncpg") then Ok (PostgresTokens dsn) else Raise tt
  | _ => Ok (MemoryTokens (match config_get w (u8 "CORP_LLM_DEV_TEAM_TOKEN") (Some []) with
                           | Some ((_ :: _) as t) => if is_prod w then None else Some t
                           | _ => None
                           end))
  end.

(** [build_mapping_store]: the URL of Redis, if it is used. *)
Definition build_mapping_store (w : world) (m : machine) : result unit (option str) :=
  match config_get w (u8 "REDIS_URL") None with
  | Some ((_ :: _) as url) => if ma_imports m (u8 "redis") then Ok (Some url) else Raise tt
  | _ => Ok None
  end.

(** [Allowlist.from_config] *)
Definition allowlist_originals (w : world) (m : machine) : list str :=
  comma_list (default [] (config_get w (u8 "CORP_LLM_TESTDATA_ALLOWLIST") (Some []))) ++
  match config_get w (u8 "CORP_LLM_TESTDATA_ALLOWLIST_FILE") (Some []) with
  | None | Some [] => []
  | Some path => List.filter (fun t => negb (str_eqb t [])) (map strip (ma_lines m path))
  end.

(** [_code_safe_detectors] *)
Definition code_safe (local_detectors : list detector_kind) (network_backed : option detector_kind) : list detector_kind :=
  List.filter (fun d => negb (bool_decide (Some d = network_backed))) local_detectors.

Record orchestrator_config := OrchestratorConfig {
  oc_client : option (str * str * (str + bool) * str);
  oc_oracle_enabled : bool;
  oc_local_detectors : list detector_kind;
  oc_code_safe : list detector_kind;
  oc_gazetteer : bool;
  oc_oversize : oversize_policy;
  oc_deliver_teams : list str;
  oc_trigger : str;
  oc_allowlist : list str;
}.

(** [_build_orchestrator] *)
Definition build_orchestrator (w : world) (m : machine) (client : option (str * str * (str + bool) * str)) (oracle_enabled : bool) (corp_ner : bool)
  : result build_error orchestrator_config :=
  let local_detectors := (if boot_flag w (u8 "CORP_LLM_LOCAL_FIRST") (u8 "1") then [RegexChecksum; DualNer] else []) ++ (if corp_ner then [CorpNerService] else []) in
  let gazetteer := boot_flag w (u8 "CORP_LLM_GAZETTEER") (u8 "1") in
  match normalize_oversize_policy (config_get w (u8 "CORP_LLM_OVERSIZE_POLICY") None), normalize_oracle_trigger (config_get w (u8 "CORP_LLM_ORACLE_TRIGGER") None) with
  | Ok oversize, Ok trigger =>
    Ok (OrchestratorConfig client oracle_enabled local_detectors (code_safe local_detectors (if corp_ner then Some CorpNerService else None)) gazetteer
          oversize (comma_list (default [] (config_get w (u8 "CORP_LLM_OVERSIZE_DELIVER_TEAMS") (Some [])))) trigger (allowlist_originals w m))
  | _, _ => Raise OtherError
  end.

Record guardrail := Guardrail {
  gr_orchestrator : orchestrator_config;
  gr_mapping : option str;
  gr_corp_ner : option (str * CorpNerTransport);
  gr_exporter : str;
  gr_sink : str;
  gr_strip_inbound_headers : bool;
  gr_forward_chatgpt : bool;
  gr_forward_anthropic : bool;
  gr_canaries : list str;
}.

(** [_build_dlp_guard] *)
Definition build_canaries (w : world) (m : machine) : result unit (list str) :=
  let canaries := comma_list (default [] (config_get w (u8 "CORP_LLM_DLP_CANARIES") (Some []))) in
  if forallb (ma_compiles m) canaries then Ok canaries else Raise tt.

(** [build_guardrail], with the three flags a caller may set; the other overrides are not given. *)
Definition build_guardrail (w : world) (m : machine) (strip_inbound chatgpt anthropic : option bool) : result build_error guardrail :=
  let chatgpt := default (boot_flag w (u8 "CORP_LLM_FORWARD_CHATGPT_AUTH") (u8 "0")) chatgpt in
  let anthropic := default (boot_flag w (u8 "CORP_LLM_FORWARD_ANTHROPIC_AUTH") (u8 "0")) anthropic in
  let strip_headers := default (boot_flag w (u8 "CORP_LLM_STRIP_INBOUND_HEADERS") (u8 "1")) strip_inbound in
  match forward_auth_conflict chatgpt anthropic, master_key_conflict (config_get w (u8 "LITELLM_MASTER_KEY") None) chatgpt anthropic with
  | Some p, _ => Raise (ConfigError p)
  | None, Some p => Raise (ConfigError p)
  | None, None =>
    let! mapping := other (build_mapping_store w m) in
    let oracle_enabled := boot_flag w (u8 "CORP_LLM_ORACLE_ENABLED") (u8 "1") in
    if negb oracle_enabled && negb (boot_flag w (u8 "CORP_LLM_LOCAL_FIRST") (u8 "1")) then Raise (ConfigError PNoOpSanitizer) else
    let! client := (if oracle_enabled then let! c := other (build_corp_llm_client w) in Ok (Some c) else Ok None) in
    let! exporter := other (build_exporter w m) in
    let! corp_ner := build_corp_ner w in
    let! core := build_orchestrator w m client oracle_enabled (match corp_ner with Some _ => true | None => false end) in
    let! sink := other (get_sink w) in
    let! canaries := other (build_canaries w m) in
    Ok (Guardrail core mapping corp_ner exporter sink strip_headers chatgpt anthropic canaries)
  end.

(** [__getattr__]: the guardrail of the process, over its token store. *)
Definition guardrail_attr (w : world) (m : machine) : result build_error (token_backend * guardrail) :=
  let! tokens := other (build_token_store w m) in
  let! g := build_guardrail w m None None None in
  Ok (tokens, g).
End Boot.

(** ** What a process that serves has *)

Section BootProofs.
Context {U : Unicode} {PR : Parsers}.

Lemma fatal_ok r : fatal r = Ok tt -> r = Ok [].
Proof. by destruct r as [[|]|]. Qed.

Lemma content_ok path f : litellm_problems path f true = Ok [] ->
  exists document, lf_read f = YamlDocument (JObj document) /\ dmem PASS_THROUGH_KEY document = false.
Proof.
  unfold litellm_problems. destruct (path_problems path f); [|done]. unfold content_problems.
  destruct (lf_read f) as [| | | |[| | | | | |document]]; try done.
  destruct (jget (u8 "general_settings") document); try done; cbv zeta;
    (destruct (dmem PASS_THROUGH_KEY document) eqn:E; [by rewrite orb_true_r|]; by exists document).
Qed.

(** A schema that was not refused was seen current, or could not be seen for a reason that
    may pass. *)
Lemma schema_accepted m dsn verified : boot_schema_problem m dsn = (None, verified) ->
  if verified then token_schema_state m = Ok None
  else exists e, token_schema_state m = Raise e /\ boot_probe_outcome m e dsn = BOOT_WARN.
Proof.
  unfold boot_schema_problem. destruct (token_schema_state m) as [[p|]|e] eqn:E; [done|by intros [= <-]|].
  case_bool_decide; [|done]. intros [= <-]. by exists e.
Qed.

(** The parts of a boot that ends in a process. *)
Record booted (now : Q) (w : world) (m : machine) (p : process) : Prop := Booted {
  bt_litellm : litellm_problems (config_path w) (w_litellm w (config_path w)) true = Ok [];
  bt_issuance : exists s verified, check_issuance w m = Ok (s, verified) /\
    match s, pr_issuance p with
    | None, None => True
    | Some s, Some (s', r, g) => s' = s /\ issue_route now s = Some r /\ g = gate_init verified
    | _, _ => False
    end;
  bt_capacity : exists c ps, build_capacity (resolve_values w) = Ok (ps, Some c) /\ limiter_of c = Ok (pr_limits p, Counters 0 0 0);
  bt_debug : build_litellm_debug (resolve_values w) = ([], pr_debug p);
  bt_extras : exists rows, parse_extras (extras_raw_of (config_get w (u8 "CORP_LLM_ROUTE_GATE_EXTRA_PASSTHROUGH") None)) = Ok rows /\ pr_gate p = Gate false rows true;
}.

Lemma boot_booted now w m p : boot now w m = Ok p -> booted now w m p.
Proof.
  unfold boot. destruct (fatal _) as [[]|] eqn:E1; [|done]. apply fatal_ok in E1. cbn [rbind].
  destruct (check_issuance w m) as [[s verified]|] eqn:E2; [|done]. cbn [rbind fst snd].
  destruct (check_capacity w) as [c|] eqn:E3; [|done]. cbn [rbind]. destruct (check_debug w) as [debug|] eqn:E4; [|done]. cbn [rbind].
  destruct (route_gate_extras w) as [rows|] eqn:E5; [|done]. cbn [rbind]. destruct (setup_prisma w m) as [[]|]; [|done]. cbn [rbind].
  destruct (build_exporter w m) as [ex|]; [|done]. cbn [rbind uncaught]. destruct (get_sink w) as [sink|]; [|done]. cbn [rbind uncaught].
  destruct (match s with None => _ | Some _ => _ end) as [routes|] eqn:E6; [|done]. cbn [rbind].
  destruct (limiter_of c) as [[L cs]|] eqn:E7; [|done]. intros H. apply ok_inj in H as <-. split; cbn [pr_issuance pr_limits pr_debug pr_gate]; [done| | | |].
  - exists s, verified. split; [done|]. destruct s as [s|]; [|by apply ok_inj in E6 as <-]. destruct (issue_route now s) as [r|] eqn:Er; [|done].
    by apply ok_inj in E6 as <-.
  - unfold check_capacity in E3. destruct (build_capacity (resolve_values w)) as [[ps [c'|]]|] eqn:Ec; try done. apply ok_inj in E3 as ->.
    exists c, ps. split; [done|]. rewrite E7. pose proof (capacity_limiter _ _ _ Ec) as HL. rewrite HL in E7. apply ok_inj in E7. by injection E7 as <- <-.
  - unfold check_debug in E4. destruct (build_litellm_debug _) as [[|] d]; [|done]. by apply ok_inj in E4 as ->.
  - unfold route_gate_extras in E5. destruct (parse_extras _) as [rows'|]; [|done]. apply ok_inj in E5 as ->. by exists rows.
Qed.

(** *** Arming *)

Lemma guardrail_problems_nil cbs : guardrail_problems cbs = [] ->
  (exists cb, cb ∈ cbs /\ cb_ours cb = true) /\
  forall cb, cb ∈ cbs -> cb_ours cb = true -> cb_scan_raw_request cb = false /\ cb_run_in_parallel cb = false /\ cb_apply cb = false.
Proof.
  unfold guardrail_problems. destruct (List.filter cb_ours cbs) as [|cb0 ours] eqn:E; [done|]. intros H. split.
  - assert (In cb0 (List.filter cb_ours cbs)) as [H1 H2]%filter_In by (rewrite E; by left). exists cb0. split; [by apply list_elem_of_In|done].
  - intros cb Hin Ho. assert (cb ∈ cb0 :: ours) as Hm by (rewrite <- E; apply list_elem_of_In, filter_In; split; [by apply list_elem_of_In|done]).
    pose proof (concat_map_nil _ _ _ H Hm) as G. cbv beta in G. destruct (cb_scan_raw_request cb), (cb_run_in_parallel cb), (cb_apply cb); done.
Qed.

Lemma filter_nil_all {A} (p : A -> bool) l : List.filter p l = [] -> forall x, x ∈ l -> p x = false.
Proof. intros H x Hx. destruct (p x) eqn:E; [|done]. exfalso. assert (In x (List.filter p l)) as G by (apply filter_In; split; [by apply list_elem_of_In|done]). by rewrite H in G. Qed.

Lemma compressor_nil names : compressor_problem names = [] -> forall name word, name ∈ names -> word ∈ COMPRESSORS -> contains (u_lower name) word = false.
Proof.
  unfold compressor_problem. destruct (compressor_problems names) eqn:E; [|done]. intros _ name word Hn Hw.
  pose proof (filter_nil_all _ _ E name Hn) as G. cbv beta in G. destruct (contains _ word) eqn:Ec; [|done].
  exfalso. apply not_true_iff_false in G. apply G, existsb_exists. exists word. split; [by apply list_elem_of_In|done].
Qed.

(** What litellm must look like for the gate to be armed. *)
Record live_ok (allow_debug : bool) (lv : live_state) : Prop := LiveOk {
  lo_guardrail : exists cb, cb ∈ lv_callbacks lv /\ cb_ours cb = true;
  lo_not_bypassed : forall cb, cb ∈ lv_callbacks lv -> cb_ours cb = true ->
    cb_scan_raw_request cb = false /\ cb_run_in_parallel cb = false /\ cb_apply cb = false;
  lo_uncompressed : forall name word, name ∈ lv_middleware lv -> word ∈ COMPRESSORS -> contains (u_lower name) word = false;
  lo_quiet : allow_debug = false -> (forall b, b ∈ lv_debug_loggers lv -> b = false) /\ lv_set_verbose lv = (false, false);
}.

Lemma debug_only_filtered ps : (forall p, p ∈ ps -> ~ p ∈ DEBUG_PROBLEMS) -> List.filter (fun p => negb (memb p DEBUG_PROBLEMS)) ps = [] -> ps = [].
Proof.
  intros Hp H. destruct ps as [|p ps]; [done|]. pose proof (filter_nil_all _ _ H p ltac:(by left)) as G. apply negb_false_iff, memb_true in G.
  by destruct (Hp p); [left|].
Qed.

Lemma guardrail_not_debug cbs p : p ∈ guardrail_problems cbs -> ~ p ∈ DEBUG_PROBLEMS.
Proof.
  unfold guardrail_problems. destruct (List.filter cb_ours cbs) as [|cb0 ours]; [intros ->%list_elem_of_singleton; unfold DEBUG_PROBLEMS; set_solver|].
  intros H. apply list_elem_of_In, in_concat in H as (l & Hl & H). apply in_map_iff in Hl as (cb & <- & _).
  unfold DEBUG_PROBLEMS. destruct (cb_scan_raw_request cb), (cb_run_in_parallel cb), (cb_apply cb); cbn in H; set_solver.
Qed.

Lemma arm_problems_nil allow_debug lv : arm_problems allow_debug lv = [] -> live_ok allow_debug lv.
Proof.
  intros H. assert (guardrail_problems (lv_callbacks lv) = [] /\ compressor_problem (lv_middleware lv) = [] /\
    (allow_debug = false -> live_debug_problems (lv_debug_loggers lv) (fst (lv_set_verbose lv) || snd (lv_set_verbose lv)) = [])) as (Hg & Hc & Hd).
  { unfold arm_problems, live_problems in H. destruct allow_debug.
    - cbv zeta in H. rewrite !List.filter_app in H. apply app_eq_nil in H as [H Hc]. apply app_eq_nil in H as [Hg _]. split_and!; [| |done].
      + apply debug_only_filtered; [|done]. apply guardrail_not_debug.
      + apply debug_only_filtered; [|done]. unfold compressor_problem, DEBUG_PROBLEMS. intros p. destruct (compressor_problems _); set_solver.
    - apply app_eq_nil in H as [H Hc]. apply app_eq_nil in H as [Hg Hd]. by split_and!. }
  apply guardrail_problems_nil in Hg as [Hg1 Hg2]. split; [done|done|by apply compressor_nil|].
  intros Ha. specialize (Hd Ha). unfold live_debug_problems in Hd. destruct (existsb id _) eqn:Ee; [done|].
  destruct (lv_set_verbose lv) as [[] []]; cbn in Hd; try done. split; [|done]. intros b Hb. destruct b; [|done].
  exfalso. apply not_true_iff_false in Ee. apply Ee, existsb_exists. exists true. split; [by apply list_elem_of_In|done].
Qed.

(** *** The gate before it is armed *)

(** Only the lifespan and routes that pass through are forwarded. *)
Lemma unarmed_forwards rows limited s s' : (gate_plan (Gate false rows limited) s = Forward s' \/ gate_plan (Gate false rows limited) s = Admit s') ->
  sc_type s = u8 "lifespan" \/ d_verdict (decide_scope (Gate false rows limited) s) = PASSTHROUGH.
Proof.
  unfold gate_plan. destruct (str_eqb (sc_type s) (u8 "lifespan")) eqn:E; [left; by apply str_eqb_eq|]. cbv zeta.
  destruct (d_verdict _); cbn [gt_armed negb]; intros [H|H]; try done; by right.
Qed.

(** A process that boots was configured as the checks demand, and until litellm's startup
    has been examined its gate lets no route through whose body has to be rewritten; it is
    armed only when the guardrail is among litellm's callbacks, none of ours can be bypassed,
    nothing compresses the answers and litellm's debug output is off, and in production it
    is off without exception, with a cap on the requests in progress. *)
Theorem served_process_safe now w m p : boot now w m = Ok p ->
  (exists document, lf_read (w_litellm w (config_path w)) = YamlDocument (JObj document) /\ dmem PASS_THROUGH_KEY document = false) /\
  (forall s s', gate_plan (pr_gate p) s = Forward s' \/ gate_plan (pr_gate p) s = Admit s' ->
     sc_type s = u8 "lifespan" \/ d_verdict (decide_scope (pr_gate p) s) = PASSTHROUGH) /\
  Forall extra_ok (gt_extras (pr_gate p)) /\
  lm_max (pr_limits p) <= MAX_INFLIGHT_CEILING /\ (prod (resolve_values w) = true -> 1 <= lm_max (pr_limits p)) /\
  (forall lv p', armed_lifespan lv p = Ok p' ->
     pr_gate p' = arm (pr_gate p) /\ pr_limits p' = pr_limits p /\ live_ok (pr_debug p) lv /\
     (prod (resolve_values w) = true -> live_ok false lv)) /\
  (forall lv e, armed_lifespan lv p = Raise e -> exists q qs, e = Exit EXIT_NO_CALLBACK (NotArmed q :: qs)).
Proof.
  intros [Hl _ (c & ps & Hc & HL) Hd (rows & Hx & Hg)]%boot_booted. pose proof (capacity_limiter _ _ _ Hc) as HL'. destruct (capacity_within _ _ _ Hc) as ([[_ Hm] _ _ _ _] & _ & Hp).
  assert (EL : pr_limits p = limits_of c) by congruence. rewrite Hg, EL. split_and!; [by eapply content_ok|apply unarmed_forwards| |done|done| |].
  - cbn [gt_extras]. by destruct (parse_extras_sound _ _ Hx) as [H _].
  - intros lv p' H. unfold armed_lifespan in H. destruct (arm_problems (pr_debug p) lv) eqn:E; [|done]. apply ok_inj in H as <-. cbn [pr_gate pr_limits]. rewrite Hg.
    apply arm_problems_nil in E. split_and!; [done|done|done|]. intros Hprod. unfold build_litellm_debug in Hd. rewrite Hprod, andb_true_r in Hd.
    destruct (flag _ _); [done|]. injection Hd as Hd. by rewrite <- Hd in E.
  - intros lv e H. unfold armed_lifespan in H. destruct (arm_problems (pr_debug p) lv) as [|q qs]; [done|].
    assert (e = Exit EXIT_NO_CALLBACK (map NotArmed (q :: qs))) as -> by congruence. by exists q, (map NotArmed qs).
Qed.

(** *** The token schema *)

Lemma check_issuance_verified w m s verified : check_issuance w m = Ok (Some s, verified) ->
  boot_schema_problem m (default [] (config_get w (u8 "CORP_LLM_PG_DSN") None)) = (None, verified).
Proof.
  unfold check_issuance. destruct (serving_issuance _ _) as [[[|] [s'|]]|]; try done. destruct (issuance_runtime_problems m s'); [|done].
  destruct (boot_schema_problem _ _) as [[p|] v]; [done|]. intros H. apply ok_inj in H. by injection H as <- <-.
Qed.

(** Tokens are issued on a current schema only.  A process that boots with issuance has
    seen the table current, or could not see it for a reason that may pass: credentials, TLS,
    privileges, a rejected startup parameter or a table that is not current end the boot.
    In the second case, whatever the checks that follow as long as none sees the schema
    current, the route answers 503 with a code and the process is not ready. *)
Theorem issuance_waits_for_schema now w m p s r g : boot now w m = Ok p -> pr_issuance p = Some (s, r, g) ->
  if sg_verified g then token_schema_state m = Ok None
  else
    (exists e, token_schema_state m = Raise e /\ boot_probe_outcome m e (default [] (config_get w (u8 "CORP_LLM_PG_DSN") None)) = BOOT_WARN) /\
    forall recheck_s es at_ res, (forall r, GEnd r ∈ es -> r <> Ok None) -> res <> Ok None ->
      let answer := gate_answer recheck_s at_ res (foldl (gate_step recheck_s) g es) in
      (forall issue has_fallthrough checks arrive q, rq_http q = true -> rq_path q = ISSUE_TOKEN_PATH -> rq_method q = u8 "POST" ->
         router issue true has_fallthrough checks (Some answer) arrive q = issue_respond 503 (u8 "E_ISSUE_SCHEMA") true) /\
      (forall redis postgres ner corp_ner, hs_healthy (ready_check (MkReady redis postgres ner corp_ner (Some (Ok answer)))) = false).
Proof.
  intros [_ (s' & verified & Hi & Hp) _ _ _]%boot_booted Hs. rewrite Hs in Hp. destruct s' as [s'|]; [|done]. destruct Hp as (-> & _ & ->).
  apply check_issuance_verified, schema_accepted in Hi. cbn [gate_init sg_verified]. destruct verified; [done|]. split; [done|].
  intros recheck_s es at_ res Hes Hr. destruct (gate_answer recheck_s at_ res _) as [problem|] eqn:Ha.
  2:{ apply gate_answer_current in Ha as [?|[?|?]]; [done| |done]. by destruct (Hes (Ok None)). }
  split.
  - intros issue ft checks arrive q Hh Hpath Hm. unfold router. rewrite Hh, Hpath, Hm. cbn [negb].
    change (memb ISSUE_TOKEN_PATH HEALTH_PATHS) with false. change (str_eqb ISSUE_TOKEN_PATH ISSUE_TOKEN_PATH) with true. by cbn.
  - intros redis postgres ner corp_ner. apply not_true_iff_false. intros H. apply ready_iff in H as (_ & _ & [H|H] & _); cbn in H; congruence.
Qed.

(** *** The guardrail *)

(** However it is called, [build_guardrail] never builds a gateway that does nothing: the
    oracle has a client or the local cascade is there; at most one bridge forwards the
    developer's credential, and none beside litellm's master key; code segments go to every
    local detector and never to the network service, which has an endpoint. *)
Theorem guardrail_never_noop w m strip_inbound chatgpt anthropic g : build_guardrail w m strip_inbound chatgpt anthropic = Ok g ->
  (is_Some (oc_client (gr_orchestrator g)) \/ (RegexChecksum ∈ oc_local_detectors (gr_orchestrator g) /\ DualNer ∈ oc_local_detectors (gr_orchestrator g))) /\
  gr_forward_chatgpt g && gr_forward_anthropic g = false /\
  (gr_forward_chatgpt g || gr_forward_anthropic g = true -> config_get w (u8 "LITELLM_MASTER_KEY") None = None) /\
  (forall d, d ∈ oc_code_safe (gr_orchestrator g) <-> d ∈ oc_local_detectors (gr_orchestrator g) /\ d <> CorpNerService) /\
  (CorpNerService ∈ oc_local_detectors (gr_orchestrator g) <-> is_Some (gr_corp_ner g)) /\
  (forall endpoint t, gr_corp_ner g = Some (endpoint, t) -> endpoint <> []).
Proof.
  unfold build_guardrail. cbv zeta. set (cg := default _ chatgpt). set (an := default _ anthropic).
  destruct (forward_auth_conflict cg an) as [pf|] eqn:Ef; [done|]. destruct (master_key_conflict _ cg an) as [pm|] eqn:Em; [done|].
  destruct (build_mapping_store w m) as [mapping|]; [|done]. cbn [other rbind].
  set (oe := boot_flag w (u8 "CORP_LLM_ORACLE_ENABLED") _). set (lf := boot_flag w (u8 "CORP_LLM_LOCAL_FIRST") _).
  destruct (negb oe && negb lf) eqn:En; [done|]. destruct (if oe then _ else _) as [client|] eqn:Ec; [|done]. cbn [rbind].
  destruct (build_exporter w m) as [ex|]; [|done]. cbn [other rbind]. destruct (build_corp_ner w) as [ner|] eqn:Er; [|done]. cbn [rbind].
  unfold build_orchestrator. fold lf. cbv zeta. destruct (normalize_oversize_policy _) as [ov|]; [|done]. destruct (normalize_oracle_trigger _) as [tr|]; [|done]. cbn [rbind].
  destruct (get_sink w) as [sink|]; [|done]. cbn [other rbind]. destruct (build_canaries w m) as [can|]; [|done]. cbn [other rbind]. intros H. apply ok_inj in H as <-.
  cbn [gr_orchestrator oc_client oc_local_detectors oc_code_safe gr_forward_chatgpt gr_forward_anthropic gr_corp_ner]. split_and!.
  - destruct oe; [left|right].
    + destruct (build_corp_llm_client w) as [c|]; [|done]. apply ok_inj in Ec as <-. by eexists.
    + destruct lf; [|done]. split; apply elem_of_app; left; set_solver.
  - unfold forward_auth_conflict in Ef. by destruct (cg && an).
  - intros Hb. unfold master_key_conflict in Em. rewrite Hb in Em. cbn [negb] in Em. by destruct (config_get w _ None).
  - intros d. unfold code_safe. rewrite !list_elem_of_In, filter_In. rewrite negb_true_iff, bool_decide_eq_false.
    destruct ner; [intuition congruence|]. rewrite app_nil_r. split; [|intuition congruence]. intros [Hd _]. split; [done|]. intros ->. destruct lf; cbn in Hd; intuition congruence.
  - rewrite elem_of_app. destruct ner as [x|]; [split; [by eexists|right; by left]|]. split; [|by intros [? ?]]. intros [H|H]; [|by apply elem_of_nil in H].
    exfalso. destruct lf; set_solver.
  - intros endpoint t E. rewrite E in Er. clear E. unfold build_corp_ner in Er. cbv zeta in Er.
    match type of Er with (if negb ?b then _ else _) = _ => destruct b end; cbn [negb] in Er; [|discriminate Er].
    destruct (corp_ner_setting w (corp_ner_table w) (u8 "CORP_NER_ENDPOINT") (u8 "endpoint") None) as [[|c e]|]; try done.
    destruct (corp_ner_transport _ _) as [t'|]; [|done]. cbn [rbind] in Er. apply ok_inj in Er. by injection Er as <- <-.
Qed.
End BootProofs.

(** ** What [config check] accepts boots *)

Section Complete.
Context {U : Unicode} {UL : UnicodeLaws U} {PR : Parsers}.

Lemma vget_named w name k : key_named name = Some k -> vget (resolve_values w) name = config_get w name (k_default k).
Proof.
  unfold key_named, vget, resolve_values. induction KEYS as [|k0 ks IH]; cbn [List.find map dget]; [done|].
  destruct (str_eqb (k_name k0) name) eqn:E.
  - intros [= ->]. apply str_eqb_eq in E. rewrite E. by rewrite decide_True.
  - intros H. apply str_eqb_neq in E. rewrite decide_False by done. by apply IH.
Qed.

Lemma key_named_in name k : key_named name = Some k -> k ∈ KEYS /\ k_name k = name.
Proof. intros [H1 H2]%find_some. split; [by apply list_elem_of_In|by apply str_eqb_eq]. Qed.

Lemma config_get_default w name d : config_get w name d = match config_get w name None with Some v => Some v | None => d end.
Proof. unfold config_get. destruct (w_env w name); [done|]. by destruct (dget name (load_file w)). Qed.

Lemma boot_flag_eq w name d k : key_named name = Some k -> k_default k = Some d -> boot_flag w name d = flag (resolve_values w) name.
Proof. intros Hk Hd. unfold boot_flag, flag. by rewrite (vget_named w name k Hk), Hd. Qed.

(** A selector that the checks take is one its factory takes, unless it is padded. *)
Definition unpadded (w : world) (name : str) : Prop := forall v, config_get w name None = Some v -> strip v = v.

Lemma choice_ok w name k choices v : clean w (resolve_values w) -> key_named name = Some k -> k_choices k = Some choices -> (name, choices) ∈ SELECTORS ->
  vget (resolve_values w) name = Some v -> v <> [] -> memb (u_lower (strip v)) choices = true.
Proof.
  intros Hc Hk Hch Hsel Hv Hne. pose proof (cl_choices _ _ Hc) as H. destruct (w_pydantic w).
  - pose proof (concat_map_nil _ _ _ H Hsel) as G. cbn [fst snd] in G. rewrite Hv in G. by destruct (memb _ choices).
  - apply app_eq_nil in H as [_ H]. apply key_named_in in Hk as [Hin Hn]. pose proof (concat_map_nil _ _ _ H Hin) as G. cbv beta in G.
    rewrite Hch, Hn, Hv in G. destruct v; [done|]. by destruct (memb _ choices).
Qed.

(** The settings a factory requires are those the checks require. *)
Definition requires_match (sel : str) (requires : list (str * list str)) : bool :=
  forallb (fun r : str * list str => forallb (fun x => match key_named x with
    | Some k => bool_decide (k_required_when k = Some (sel, r.1)) && bool_decide (k_default k = None)
    | None => false
    end) r.2) requires.

Lemma require_all_ok w names : Forall (fun x => exists v, config_get w x None = Some v /\ v <> []) names -> require_all w names = Ok tt.
Proof.
  induction names as [|x names IH]; [done|]. intros [(v & Hv & Hne) H]%Forall_cons. cbn [require_all]. unfold get_required. rewrite Hv.
  destruct v; [done|]. cbn [rbind]. by apply IH.
Qed.

Lemma select_ok w sel d k choices requires : clean w (resolve_values w) -> unpadded w (u8 sel) ->
  key_named (u8 sel) = Some k -> k_choices k = Some choices -> k_default k = Some (u8 d) -> (u8 sel, choices) ∈ SELECTORS ->
  requires_match (u8 sel) requires = true -> memb (u8 d) choices = true -> u_lower (u8 d) = u8 d -> dget (u8 d) requires = None ->
  select_known w (selected w sel d) choices requires = Ok (selected w sel d).
Proof.
  intros Hc Hpad Hk Hch Hd Hsel Hreq Hmem Hlow Hnone. unfold select_known. pose proof (vget_named w _ k Hk) as Hv. rewrite Hd in Hv.
  assert (selected w sel d = u8 d \/ exists v, v <> [] /\ config_get w (u8 sel) None = Some v /\ selected w sel d = u_lower v /\ lowered (resolve_values w) (u8 sel) = u_lower v) as [->|(v & Hne & Hg & -> & Hl)].
  { unfold selected, or_default, lowered. rewrite Hv, config_get_default. destruct (config_get w (u8 sel) None) as [v|] eqn:Eg.
    - destruct v as [|c v]; [by left|]. right. exists (c :: v). pose proof (Hpad _ Eg) as Hs. split_and!; [done|done|done|]. cbn [from_option id]. by rewrite Hs.
    - left. destruct (u8 d); done. }
  - rewrite Hmem, Hnone. done.
  - rewrite config_get_default, Hg in Hv. pose proof (choice_ok w _ k choices v Hc Hk Hch Hsel Hv Hne) as G. rewrite (Hpad _ Hg) in G. rewrite G. cbn [negb].
    rewrite require_all_ok; [done|]. destruct (dget (u_lower v) requires) as [names|] eqn:Er; [|constructor]. cbn [default].
    apply dget_elem, list_elem_of_In in Er. unfold requires_match in Hreq. rewrite forallb_forall in Hreq. specialize (Hreq _ Er). cbn [fst snd] in Hreq.
    apply Forall_forall. intros x Hx. rewrite forallb_forall in Hreq. apply list_elem_of_In in Hx. specialize (Hreq x Hx).
    destruct (key_named x) as [kx|] eqn:Ex; [|done]. apply andb_true_iff in Hreq as [H1 H2]. apply bool_decide_eq_true in H1, H2.
    pose proof (vget_named w x kx Ex) as Hvx. rewrite H2 in Hvx. destruct (key_named_in _ _ Ex) as [Hin Hn].
    pose proof (conditional_ok _ kx _ _ (cl_conditional _ _ Hc) Hin H1 Hl) as Hu. rewrite Hn in Hu. unfold unset in Hu. rewrite Hvx in Hu.
    destruct (config_get w x None) as [[|c vx]|]; try done. by exists (c :: vx).
Qed.

Ltac by_keys := try done; try (vm_compute; reflexivity); try (apply lower_ascii; vm_compute; reflexivity); unfold SELECTORS; set_solver.

(** The configuration check and the factories agree: with a configuration that validates, and
    selectors without blanks around them, the audit sink, the auth provider and the metrics
    exporter that are selected are built, every setting they require being there. *)
Theorem validated_selectors_build w vs m : validate_config w = Valid vs ->
  unpadded w (u8 "CORP_AUDIT_SINK") -> unpadded w (u8 "CORP_LLM_AUTH_PROVIDER") -> unpadded w (u8 "CORP_METRICS_EXPORTER") ->
  get_sink w = Ok (selected w "CORP_AUDIT_SINK" "stdout") /\
  get_auth_provider w = Ok (selected w "CORP_LLM_AUTH_PROVIDER" "noop") /\
  (ma_imports m (u8 "prometheus_client") = true -> build_exporter w m = Ok (selected w "CORP_METRICS_EXPORTER" "noop")).
Proof.
  intros [-> Hc]%valid_clean H1 H2 H3. split_and!.
  - eapply (select_ok w "CORP_AUDIT_SINK" "stdout"); by_keys.
  - eapply (select_ok w "CORP_LLM_AUTH_PROVIDER" "noop"); by_keys.
  - intros Hi. unfold build_exporter.
    assert (select_known w (selected w "CORP_METRICS_EXPORTER" "noop") METRICS_EXPORTERS [] = Ok (selected w "CORP_METRICS_EXPORTER" "noop")) as ->
      by (eapply (select_ok w "CORP_METRICS_EXPORTER" "noop"); by_keys).
    cbn [rbind]. by rewrite Hi, andb_false_r.
Qed.
End Complete.

(** ** A boot *)

Definition demo_machine : machine :=
  Machine (fun _ => true) (fun _ => true) (fun _ => true) (Ok tt) (Ok tt) (Ok (Some (JtiIndex true true))) (fun _ => Some []) false (fun _ => false) (Some true) true
    (fun _ => []) (fun _ => true).
Definition demo_live (callbacks : list callback) : live_state := Live callbacks [false; false] (false, false) [u8 "CORSMiddleware"].

(** A production configuration boots closed, is armed with the guardrail among the callbacks
    and ends without it. *)
Example demo_boot :
  match boot (U := ru_unicode) (PR := demo_parsers) 0 (demo_world solo_env) demo_machine with
  | Ok p => gt_armed (pr_gate p) = false /\ lm_max (pr_limits p) = 64 /\
            match armed_lifespan (U := ru_unicode) (demo_live [Callback true false false false]) p with Ok p' => gt_armed (pr_gate p') = true | Raise _ => False end /\
            armed_lifespan (U := ru_unicode) (demo_live []) p = Raise (Exit EXIT_NO_CALLBACK [NotArmed GUARDRAIL_ABSENT])
  | Raise _ => False
  end.
Proof. vm_compute. auto. Qed.

(** Observed: the checks strip a selector, the factories do not; a padded selector validates
    and then ends the boot in an exception. *)
Lemma padded_selector_fails :
  let w := demo_world (solo_env ++ [(u8 "CORP_AUDIT_SINK", u8 " stdout ")]) in
  demo_validate w = Valid (resolve_values w) /\ get_sink (U := ru_unicode) w = Raise tt /\
  boot (U := ru_unicode) (PR := demo_parsers) 0 w demo_machine = Raise Uncaught.
Proof. vm_compute. auto. Qed.
